(* ===== verification/_CoqProject ===== *)
-Q . S2P
Prelude.v
PtDef.v
PtFrame.v
PtMap.v
PtGeom.v
PtTree.v
PtMapProof.v
PtUnmapProof.v
PtWalk.v
RangesExt.v
RangesProof.v
Memory.v
MemoryProof.v
PerCpu.v
PerCpuAlloc.v
Bytes.v
Madt.v
Cmdline.v
Timer.v
TimerProof.v
Spinlock.v
Heap.v
Dma.v
DmaProof.v
Io.v
Block.v
BlockProof.v
Bits.v
Tock.v
SysTimer.v
ArchTimer.v
Once.v
X86Timer.v
TimerWitness.v
TrapEntry.v
TrapLoongarch.v
TrapAarch64.v
Gic.v
GicV3.v
GicProof.v
Gic3Proof.v
Nvme.v
NvmeProof.v
Eth.v
E1000.v
E1000Proof.v
EthProof.v
Serial.v
Pl011.v
Ns16550.v
SerialDyn.v
SerialProof.v
Pl011Proof.v
Ns16550Proof.v
AddrAlloc.v
AddrTree.v
AddrAllocProof.v
IdAllocProof.v
Pcie.v
PcieProof.v
PcieWitness.v
Rdrive.v
RdriveProof.v
Probe.v
ProbeProof.v
Executor.v
ExecutorProof.v
PteX86.v
PteRiscv.v
PteAarch64.v
PtTable.v
BootMap.v
PteLoongarch.v
BootX86.v
X86Smp.v
BootAarch64.v
BootRiscv.v
PtWitness.v
Irq.v
Efi.v
