(* ===== verification/Prelude.v ===== *)
(** * Sparreal OS: a verification library (root file)

    Sparreal is an operating system for bare machines in Rust. Its boot loader
    (crates/someboot) finds memory and CPUs, builds a page table and starts the
    kernel (crates/sparreal-kernel), which has a heap, locks, timers and an
    asynchronous executor; drivers (driver/) share memory with devices through
    a DMA interface, wait for interrupts of a controller and offer block
    devices, network cards, serial ports and PCI; a registry matches drivers to
    devices and lends them out. This library models those parts and proves
    what makes them correct. Paths below are relative to src/.

    ** Conventions

    - A machine word is a [Z] with its width written out: [uadd 64], [usub],
      [umul 64] fail on overflow as a debug build of Rust does, and a cast or
      a wrapping or saturating operation is a [mod] or a [Z.min] ([Prelude]).
    - [outcome E A] is [Ok], [Err e] or [Stuck]; [Stuck] is a panic. [M S E A]
      is the state monad with that outcome: an error keeps the changes made
      before it, as in the code.
    - Loops that are not structural have a fuel. [Stuck] is also the result of
      running out of fuel, so each theorem that excludes [Stuck] shows that the
      fuel the definitions pass is enough. The fuels: the number of entries of
      the level that the range meets, plus two, for [map] and [unmap]; the
      length of the vector for [merge_add]; the number of pending timers for an
      interrupt, and one more for the search of an unused timer id; the length
      of the wake-up queue plus one for a tick. The walker takes its fuel
      as an argument, and its theorem says that some fuel is enough and that
      more changes nothing. [run_until_completion] takes it too: futures need
      not end. Loops that wait for a device take their fuel as an argument, and
      the theorems ask for more than the device needs: the polls a command of
      NVMe takes, those a PL011 is busy, one more than the entries that wait in
      a serial port; the search for a redistributor of GICv3 has the number of
      redistributors. The walk over an ACPI table has the length of the table
      plus one, filling a receive ring the number of its buffers plus one. The
      search for the next PCI function takes its fuel as an argument, and the
      theorem says that some fuel is enough and that more changes nothing. The
      loops over a device in [Io] answer [None] when their fuel is used up.
    - Code outside the repository is a class or an argument with its laws: the
      alignment helpers of the crate num-align ([NumAlign]), the buddy heaps
      ([BuddyHeap]), the field operations of tock-registers ([Tock]), what a
      future does when it is polled, linker symbols and the addresses the
      firmware reports. Devices are classes too, with the behaviour their
      documentation promises as laws: register files ([RegFile], [GicHw]), the
      memory operations of DMA ([DmaOp], [DmaOpLaws]), a controller that
      executes the commands of its queues ([NvmeHw], [NvmeCtl]), serial ports
      ([UartHw], [Pl011Hw], [Ns16550Hw]), the types and the chip PCI functions
      are reached through ([PciTypes], [PciChip], [PciTree]), a network card
      ([E1000Regs], [E1000Card], [DmaBus]), a console ([ConLaws]), the nodes of
      a device tree ([NodeType], [PciEndpoint]). Each has an instance that runs.

    ** Page tables (crates/page-table-generic)

    [PtDef] the data types and the three interfaces the crate is generic over;
    [PtFrame] frames as a shared store from physical address to entries, and
    allocation, translation and destruction (frame.rs); [PtMap] the
    recursions of map.rs and the entry points of table.rs; [PtWalk] the
    iterator of walk.rs. [PtGeom] and [PtTree] have the arithmetic of levels and
    the tree invariant; [PtMapProof] and [PtUnmapProof] the proofs by level; [PtTable] the contract: the abstract state is the function
    from virtual to physical addresses, [map] and [unmap] refine updates of
    it for ranges of whole pages in one window of addresses ([map_args_ok],
    [unmap_args_ok]), [map] never replaces a mapping, destruction frees each
    frame once, and translation finds the entry of every address. [PtWitness]
    runs the code on the x86_64 format and shows what becomes of other ranges
    ([map_size_unchecked], [unmap_overflows_at_top]) and where the code leaves
    its documentation.

    [Bits], [Tock], [PteX86], [PteRiscv], [PteAarch64] and [PteLoongarch] are
    the entry formats of the architectures (crates/someboot/src/arch),
    instances of the interface; [BootMap], [BootX86], [BootAarch64] and
    [BootRiscv] the construction of the boot page table on them: the tables
    agree with the kernel's own address arithmetic ([virt_to_phys]). The RISC-V
    build without user space cannot build its table, and the LoongArch format,
    whose links have no valid bit, gives tables that the code can not read back
    ([PteLoongarch]).

    ** Memory at boot (crates/ranges-ext, crates/kernutil, crates/someboot)

    [RangesExt] and [RangesProof]: the set of typed ranges; [merge_add] refines
    the update of a lookup function from addresses to kinds. [Memory] and
    [MemoryProof]: the memory map on it, the boot sequence that fills it and
    the linear allocator, an instance of the frame-allocator interface.
    [PerCpu] and [PerCpuAlloc]: the list of CPUs and the two layouts of the
    per-CPU region, with disjoint and aligned areas.

    ** The kernel (crates/sparreal-kernel/src/os)

    [Timer], [TimerProof]: one-shot timers on one hardware timer. [Spinlock]:
    the interrupt-disabling lock as a step relation over any number of CPUs
    and locks; mutual exclusion and interrupts off under every interleaving.
    [Heap]: two buddy heaps split at 4 GB and what feeds them. [Executor],
    [ExecutorProof]: tasks, wake-ups and the run queue; no woken task is lost
    and none is polled after completion, as long as tasks are woken through
    their wakers: [wake_by_id] panics, and so does a task that wakes itself
    through its handle.

    ** Timers of the machine (crates/someboot)

    [SysTimer] the interface timers offer the kernel (timer.rs and the trait of
    lib.rs), its laws and the composition with the kernel's timer manager: as
    long as a timer is pending within the reach of the hardware, its interrupt
    comes and runs its callback.
    [ArchTimer] the timers of RISC-V, AArch64 and LoongArch, [X86Timer] the
    local APIC of x86_64 with its calibration, each an instance of the
    interface on a machine with laws ([RiscvTimer], [A64Timer], [LoongTimer],
    [X86Hw]), where AArch64 and LoongArch keep only part of the laws: long
    intervals are lost on one, and an idle timer panics on the other. [Once]
    is the pattern statics of x86_64 are initialised with, under every
    interleaving of CPUs. [TimerWitness] runs the timers. The loop of the
    calibration that waits for the time stamp counter takes its fuel as an
    argument.

    ** Starting the other processors (crates/someboot/src/arch/x86_64/power.rs)

    [X86Smp] the trampoline as a program of a machine with real mode, paging and
    segment descriptors; what [prepare_trampoline] writes into it; and [cpu_on],
    which sends the interrupts, waits and holds a lock meanwhile, on a local
    APIC and other processors with laws ([ApHw], [ApState], [ApLaws]). A
    processor that is started arrives at the kernel's entry with its page
    table, stack and argument. The loops take their fuel as an argument, and
    the theorem asks for as much as the timeout has ticks.

    ** Traps and interrupts (crates/someboot, crates/kasm-aarch64, platform/somehal)

    [TrapEntry] a small machine of registers, control registers and memory, and
    the trap entry of RISC-V as a list of its instructions; [TrapLoongarch] the
    interrupt and exception entries of LoongArch on the same machine;
    [TrapAarch64] the entry of AArch64 and the switch of tasks on a machine
    with pairs of registers and floating point. On each the interrupted code
    goes on with every register as before, whatever the handler does outside of
    its frame; a switch resumes a task in the state it was suspended in.
    [Irq] has what happens between: the dispatch of the three architectures,
    the handlers of the platform for GICv2 and GICv3 over one interface of
    interrupt controllers ([IrqChip], [IrqChipLaws]), and the kernel's table of
    handlers under the lock of [Spinlock]; an interrupt is acknowledged, run and
    completed once, and a spurious one is not completed. The loop over the pending bits of LoongArch has fuel 65 for
    64 bits.

    ** EFI and the image (crates/someboot)

    [Efi] the memory map made of the firmware's (efi_stub/memmap.rs), the
    addresses given to the regions that stay mapped for it, the search for the
    ACPI root pointer, and the relocation of the image (elf.rs).

    ** ACPI, command line and console (crates/someboot)

    [Madt]: the iterators over the CPUs of the ACPI table MADT for the four
    architectures; no table makes them read outside of it, and a table made of
    entries gives the CPUs of those of the architecture that are long enough.
    [Bytes] has the little-endian words tables and descriptors are made of. [Cmdline]: the buffer of the
    command line, its variables, the argument of earlycon and the loops that
    write text to a console.

    ** Driver registry (driver/rdrive, driver/interface/rdif-base)

    [Rdrive] the container of devices: owners, weak handles, casts and guards
    as steps of any number of threads on a heap with reference counts, writes
    through guards included, and [RdriveProof] that in every reachable state a
    guard reaches a value of its type and is the only one; a value that owns
    another one is not replaced while there is a handle to the inner one, which
    would be freed under it ([replace_frees_inner]). [Probe], [ProbeProof]: the order of the drivers
    and their probing on the device tree and on PCI, where a driver's probe
    function is data. [Io]: reading and writing all of a buffer, blocking and
    as a future; the two agree.

    ** PCI enumeration (driver/bus/pcie)

    [Pcie] configuration headers, bridges, endpoints, the programming of base
    address registers and the iterator over the buses; [PcieProof] that
    enumerating a tree of buses, with one bridge on the root bus at most, yields
    its endpoints in depth-first order and numbers the bridges; [PcieWitness] runs it on a tree.

    ** PCI address allocation (driver/interface/rdif-pcie)

    [AddrAlloc] the interval tree with its rotations, the address, id and BAR
    allocators; [AddrTree] that it stays a balanced search tree;
    [AddrAllocProof] and [IdAllocProof] that the allocators refine a map from
    addresses to states and a set of ids, and that a freed range joins its free
    neighbours.

    ** DMA and block devices (crates/dma-api, driver/block)

    [Dma] the handles, arrays, boxes, mapped slices and pools of the DMA
    interface over a memory with a cache the device does not see, and
    [DmaProof] that what one side writes the other reads and that buffers stay
    apart. [Block], [BlockProof]: the command queue (rd-block) on the interface
    of block devices and the RAM disk; on a device that completes requests at
    once, reads return what was written. [Nvme],
    [NvmeProof]: commands, rings with phase bits and doorbells; on a controller
    that follows the specification each command is executed exactly once.

    ** Ethernet (driver/eth, driver/interface/rdif-eth)

    [Eth] queues with their pools of buffers and the device with its interrupt
    guard and wakers, over the interfaces [ITxQueue], [IRxQueue] and
    [Interface]; [E1000] the rings and registers of the card that implement
    them, and [E1000Proof] its laws on the ring. [EthProof]: packets arrive
    each once, in order and byte for byte, as long as 255 buffers suffice.

    ** Interrupt controller (driver/intc/gic)

    [Gic] (GICv2) and [GicV3] with [GicProof] and [Gic3Proof]: configuration
    calls act on a table of settings per interrupt, initialisation, routing,
    acknowledgement.

    ** Serial ports (driver/serial, driver/interface/rdif-serial)

    [Serial] the interface; [Pl011], [Ns16550] the drivers, with [Pl011Proof]
    and [Ns16550Proof] on their configuration; [SerialDyn], [SerialProof] the
    queue between the interrupt handler and the reader, which keeps the order
    of the bytes under any interleaving of their accesses, but for an interrupt
    between a read's look at the empty queue and the end of its read from the
    port.

    ** Not modelled

    The entry of the first processor and the switch to its page table, which
    are assembly over registers of the machine; the table of vectors and the TLB
    refill of LoongArch and the interrupt stubs of x86_64; the calls of the EFI
    firmware and its console; parsing of device trees and of the ACPI tables
    other than the MADT, which is done by external crates
    (crates/someboot/src/acpi/ram.rs is commented out of the build); macros
    (other than those that generate trap entries), build scripts and tests.
    Memory is modelled at the
    level of the data structures: writes through [phys_to_virt] to per-CPU
    areas are the records they write, TLB flushes are a log. Concurrency is
    the interleaving of whole lock operations with sequentially consistent
    atomics; [Spinlock] has several CPUs and [Rdrive] several threads. *)

From stdpp Require Import base tactics option list numbers gmap.
Open Scope Z_scope.

(** ** Outcomes

    [Ok] and [Err] are Rust's [Result]; [Stuck] is a run that Rust does not
    give a value to: a panic (an overflow check, an [unwrap], an index out of
    bounds), or a read through a pointer to memory that is not there. *)
Inductive outcome (E A : Type) : Type :=
| Ok (a : A)
| Err (e : E)
| Stuck.
Arguments Ok {E A} a.
Arguments Err {E A} e.
Arguments Stuck {E A}.

#[export] Instance outcome_ret E : MRet (outcome E) := λ A a, Ok a.
#[export] Instance outcome_bind E : MBind (outcome E) := λ A B f m,
  match m with Ok a => f a | Err e => Err e | Stuck => Stuck end.

#[export] Instance outcome_eq_dec E A `{EqDecision E} `{EqDecision A} :
  EqDecision (outcome E A).
Proof. solve_decision. Defined.

(** [Option::ok_or]. *)
Definition ok_or {E A} (o : option A) (e : E) : outcome E A :=
  match o with Some a => Ok a | None => Err e end.

(** [Option::unwrap], [Option::expect]. *)
Definition unwrap {E A} (o : option A) : outcome E A :=
  match o with Some a => Ok a | None => Stuck end.

(** [Result::ok]. *)
Definition ok_opt {E A} (r : outcome E A) : option A :=
  match r with Ok a => Some a | _ => None end.

Definition is_ok {E A} (r : outcome E A) : bool :=
  match r with Ok _ => true | _ => false end.

(** ** State and errors

    A method on [&mut self] is a function of the state that returns the new
    state and an outcome: the state is returned on the error path too, since
    the source keeps what it wrote before it failed. *)
Definition M (S E A : Type) : Type := S → S * outcome E A.

#[export] Instance M_ret S E : MRet (M S E) := λ A a s, (s, Ok a).
#[export] Instance M_bind S E : MBind (M S E) := λ A B f m s,
  match m s with
  | (s', Ok a) => f a s'
  | (s', Err e) => (s', Err e)
  | (s', Stuck) => (s', Stuck)
  end.

Definition get {S E} : M S E S := λ s, (s, Ok s).
Definition modify {S E} (f : S → S) : M S E unit := λ s, (f s, Ok tt).
Definition fail {S E A} (e : E) : M S E A := λ s, (s, Err e).
Definition stuck {S E A} : M S E A := λ s, (s, Stuck).
Definition lift {S E A} (r : outcome E A) : M S E A := λ s, (s, r).

(** ** Machine integers

    Unsigned integers are [Z] in [0, 2^w). [usize] is 64 bits wide on the
    four targets. *)
Definition u_range (w x : Z) : Prop := 0 ≤ x < 2 ^ w.
Definition u64_max : Z := 18446744073709551615.
Definition u32_max : Z := 4294967295.
Definition usize_max : Z := u64_max.

(** Rust's [+], [-] and [*] with the overflow check. *)
Definition uadd {E} (w a b : Z) : outcome E Z :=
  if a + b <? 2 ^ w then Ok (a + b) else Stuck.
Definition usub {E} (a b : Z) : outcome E Z :=
  if b <=? a then Ok (a - b) else Stuck.
Definition umul {E} (w a b : Z) : outcome E Z :=
  if a * b <? 2 ^ w then Ok (a * b) else Stuck.

Definition checked_add (w a b : Z) : option Z :=
  if a + b <? 2 ^ w then Some (a + b) else None.
Definition checked_sub (a b : Z) : option Z :=
  if b <=? a then Some (a - b) else None.
Definition saturating_add (w a b : Z) : Z := Z.min (a + b) (2 ^ w - 1).
Definition saturating_mul (w a b : Z) : Z := Z.min (a * b) (2 ^ w - 1).
Definition saturating_sub (a b : Z) : Z := Z.max 0 (a - b).
Definition wrapping_add (w a b : Z) : Z := (a + b) mod 2 ^ w.

Definition is_multiple_of (x m : Z) : bool :=
  if m =? 0 then x =? 0 else x mod m =? 0.
Definition is_power_of_two (x : Z) : bool :=
  (0 <? x) && (Z.land x (x - 1) =? 0).

(** [x & !(a - 1)] on [w]-bit operands: the complement is taken in [w] bits. *)
Definition unot (w x : Z) : Z := 2 ^ w - 1 - x.
Definition mask_down (w x a : Z) : Z := Z.land x (unot w (a - 1)).

(** ** Tactics *)

(** Turn boolean tests in the context into propositions [lia] reads. *)
Ltac bool_to_prop :=
  repeat match goal with
  | H : (_ <? _) = true |- _ => apply Z.ltb_lt in H
  | H : (_ <? _) = false |- _ => apply Z.ltb_ge in H
  | H : (_ <=? _) = true |- _ => apply Z.leb_le in H
  | H : (_ <=? _) = false |- _ => apply Z.leb_gt in H
  | H : (_ =? _) = true |- _ => apply Z.eqb_eq in H
  | H : (_ =? _) = false |- _ => apply Z.eqb_neq in H
  | H : (_ && _)%bool = true |- _ => apply andb_prop in H; destruct H
  | H : (_ || _)%bool = false |- _ => apply orb_false_elim in H; destruct H
  | H : negb _ = true |- _ => apply negb_true_iff in H
  | H : negb _ = false |- _ => apply negb_false_iff in H
  end.

(** Case on the next test the goal or a hypothesis is blocked on. *)
Ltac case_if :=
  match goal with
  | |- context [if ?b then _ else _] =>
      match type of b with bool => destruct b eqn:? end
  | H : context [if ?b then _ else _] |- _ =>
      match type of b with bool => destruct b eqn:? end
  end; bool_to_prop.

(** Open a successful [outcome] computation step by step. *)
Ltac inv_ok :=
  repeat match goal with
  | H : Ok _ = Ok _ |- _ => injection H as H; subst
  | H : Err _ = Err _ |- _ => injection H as H; subst
  | H : Ok _ = Err _ |- _ => discriminate H
  | H : Err _ = Ok _ |- _ => discriminate H
  | H : Stuck = Ok _ |- _ => discriminate H
  | H : Ok _ = Stuck |- _ => discriminate H
  | H : Stuck = Err _ |- _ => discriminate H
  | H : Err _ = Stuck |- _ => discriminate H
  | H : Some _ = Some _ |- _ => injection H as H; subst
  | H : None = Some _ |- _ => discriminate H
  | H : Some _ = None |- _ => discriminate H
  end.

Create HintDb sparreal.

(** ** Integer lemmas *)

Lemma uadd_ok {E} w a b : a + b < 2 ^ w → uadd (E:=E) w a b = Ok (a + b).
Proof. intros. unfold uadd. by rewrite (proj2 (Z.ltb_lt _ _)). Qed.

Lemma usub_ok {E} a b : b ≤ a → usub (E:=E) a b = Ok (a - b).
Proof. intros. unfold usub. by rewrite (proj2 (Z.leb_le _ _)). Qed.

Lemma umul_ok {E} w a b : a * b < 2 ^ w → umul (E:=E) w a b = Ok (a * b).
Proof. intros. unfold umul. by rewrite (proj2 (Z.ltb_lt _ _)). Qed.

Lemma checked_add_Some w a b c :
  checked_add w a b = Some c ↔ c = a + b ∧ a + b < 2 ^ w.
Proof. unfold checked_add. destruct (Z.ltb_spec (a + b) (2 ^ w)); naive_solver lia. Qed.

Lemma checked_add_None w a b : checked_add w a b = None ↔ 2 ^ w ≤ a + b.
Proof. unfold checked_add. destruct (Z.ltb_spec (a + b) (2 ^ w)); naive_solver lia. Qed.

Lemma checked_sub_Some a b c : checked_sub a b = Some c ↔ c = a - b ∧ b ≤ a.
Proof. unfold checked_sub. destruct (Z.leb_spec b a); naive_solver lia. Qed.

Lemma checked_sub_None a b : checked_sub a b = None ↔ a < b.
Proof. unfold checked_sub. destruct (Z.leb_spec b a); naive_solver lia. Qed.

Lemma is_multiple_of_spec x m : 0 < m → is_multiple_of x m = true ↔ (m | x).
Proof.
  intros. unfold is_multiple_of. rewrite (proj2 (Z.eqb_neq m 0)) by lia.
  rewrite Z.eqb_eq. rewrite Z.mod_divide by lia. done.
Qed.

Lemma pow2_pos n : 0 ≤ n → 0 < 2 ^ n.
Proof. intros. by apply Z.pow_pos_nonneg. Qed.

Lemma is_power_of_two_pow n : 0 ≤ n → is_power_of_two (2 ^ n) = true.
Proof.
  intros Hn. unfold is_power_of_two. pose proof (pow2_pos n Hn).
  rewrite (proj2 (Z.ltb_lt _ _)) by lia. apply Z.eqb_eq.
  rewrite Z.sub_1_r, <- Z.ones_equiv, Z.land_ones by lia. by apply Z_mod_same_full.
Qed.

(** [is_power_of_two] tests what its name says. *)
Lemma is_power_of_two_spec x :
  is_power_of_two x = true ↔ ∃ n, 0 ≤ n ∧ x = 2 ^ n.
Proof.
  split; [|by intros (n & ? & ->); apply is_power_of_two_pow].
  unfold is_power_of_two. intros H. bool_to_prop.
  exists (Z.log2 x). split; [apply Z.log2_nonneg|].
  destruct (Z.log2_spec x) as [Hlo Hhi]; [lia|].
  destruct (Z.eq_dec x (2 ^ Z.log2 x)) as [|Hne]; [done|exfalso].
  pose proof (pow2_pos (Z.log2 x) (Z.log2_nonneg x)).
  assert (Hb : Z.testbit (Z.land x (x - 1)) (Z.log2 x) = true).
  { rewrite Z.land_spec, Z.bit_log2 by lia. simpl.
    replace (Z.log2 x) with (Z.log2 (x - 1)); [apply Z.bit_log2; lia|].
    apply Z.log2_unique; [apply Z.log2_nonneg|lia]. }
  replace (Z.land x (x - 1)) with 0 in Hb by done. by rewrite Z.bits_0 in Hb.
Qed.

(** Masking with [!(2^n - 1)] rounds down to a multiple of [2^n]. *)
Lemma mask_down_pow w x n :
  0 ≤ n ≤ w → 0 ≤ x < 2 ^ w → mask_down w x (2 ^ n) = x - x mod 2 ^ n.
Proof.
  intros Hn Hx. unfold mask_down, unot.
  replace (2 ^ w - 1 - (2 ^ n - 1)) with (Z.shiftl (Z.ones (w - n)) n).
  2:{ rewrite Z.shiftl_mul_pow2, Z.ones_equiv by lia.
      replace w with ((w - n) + n) at 2 by lia. rewrite Z.pow_add_r by lia. lia. }
  transitivity (Z.shiftl (Z.shiftr x n) n).
  - apply Z.bits_inj'. intros i Hi.
    rewrite Z.land_spec, !Z.shiftl_spec by done.
    destruct (decide (i < n)).
    { rewrite !(Z.testbit_neg_r _ (i - n)) by lia. apply andb_false_r. }
    rewrite Z.shiftr_spec by lia. replace (i - n + n) with i by lia.
    destruct (decide (i < w)).
    + rewrite Z.ones_spec_low by lia. apply andb_true_r.
    + rewrite Z.ones_spec_high by lia. rewrite andb_false_r. symmetry.
      destruct (decide (x = 0)) as [->|]; [apply Z.bits_0|].
      apply Z.bits_above_log2; [lia|]. apply Z.log2_lt_pow2; [lia|].
      apply Z.lt_le_trans with (2 ^ w); [lia|]. apply Z.pow_le_mono_r; lia.
  - rewrite Z.shiftl_mul_pow2, Z.shiftr_div_pow2 by lia.
    pose proof (pow2_pos n ltac:(lia)).
    pose proof (Z.div_mod x (2 ^ n) ltac:(lia)). lia.
Qed.

(** ** Running monadic code *)

Lemma bind_run {S Er A B} (m : M S Er A) (f : A → M S Er B) s s' a :
  m s = (s', Ok a) → (m ≫= f) s = f a s'.
Proof. intros E. unfold mbind, M_bind. by rewrite E. Qed.

(** A run that succeeds is two runs that succeed. *)
Lemma bind_ok_inv {S Er A B} (m : M S Er A) (f : A → M S Er B) s s' b :
  (m ≫= f) s = (s', Ok b) → ∃ s1 a, m s = (s1, Ok a) ∧ f a s1 = (s', Ok b).
Proof. unfold mbind, M_bind. destruct (m s) as [s1 [a|e|]]; [eauto|done..]. Qed.

Lemma bind_lift {S Er A B} (r : outcome Er A) (f : A → M S Er B) s a :
  r = Ok a → (lift r ≫= f) s = f a s.
Proof. by intros ->. Qed.

Lemma bind_err {S Er A B} (r : outcome Er A) (f : A → M S Er B) s e :
  r = Err e → (lift r ≫= f) s = (s, Err e).
Proof. by intros ->. Qed.

Lemma bind_cong {S Er A B} (m1 m2 : M S Er A) (f g : A → M S Er B) s :
  m1 s = m2 s → (∀ a s', f a s' = g a s') → (m1 ≫= f) s = (m2 ≫= g) s.
Proof. intros E H. unfold mbind, M_bind. rewrite E. by destruct (m2 s) as [s' [?|?|]]. Qed.

(** ** List lemmas *)

Lemma filter_all {A} (P : A → Prop) `{!∀ x, Decision (P x)} l : Forall P l → filter P l = l.
Proof. induction 1; [done|]. rewrite filter_cons_True by done. by f_equal. Qed.

Lemma filter_none {A} (P : A → Prop) `{!∀ x, Decision (P x)} l : Forall (λ x, ¬ P x) l → filter P l = [].
Proof. induction 1; [done|]. by rewrite filter_cons_False. Qed.

#[export] Hint Resolve pow2_pos : sparreal.
