(* ===== verification/PtDef.v ===== *)
(** * Page tables: data and interfaces

    The types of crates/page-table-generic/src/def.rs and the traits of its
    lib.rs. [PageTableEntry], [TableMeta] and [FrameAllocator] are the three
    interfaces the crate is generic over: each is a class of operations here,
    and a second class states what the page-table code relies on. The entry
    formats of the architectures and the boot-time frame allocator are
    instances (files PteX86, PteRiscv and Memory). *)

From stdpp Require Import base list numbers strings gmap.
From S2P Require Import Prelude.
Open Scope Z_scope.

(** def.rs: [KB], [MB], [GB]. *)
Definition KB : Z := 1024.
Definition MB : Z := 1024 * KB.
Definition GB : Z := 1024 * MB.

(** def.rs: [PagingError]. *)
Inductive PagingError : Type :=
| NoMemory
| AlignmentError (details : string)
| MappingConflict (vaddr existing_paddr : Z)
| AddressOverflow (details : string)
| InvalidSize (details : string)
| HierarchyError (details : string)
| InvalidRange (details : string)
| NotMapped.

#[export] Instance PagingError_eq_dec : EqDecision PagingError.
Proof. solve_decision. Defined.

(** def.rs: [AccessFlags], a bit set. *)
Module AccessFlags.
Definition READ : Z := 1.
Definition WRITE : Z := Z.shiftl 1 2.
Definition EXECUTE : Z := Z.shiftl 1 3.
Definition LOWER : Z := Z.shiftl 1 4.
Definition contains (self other : Z) : bool := Z.land self other =? other.
End AccessFlags.

(** def.rs: [MemAttributes], with [Normal] the default. *)
Inductive MemAttributes : Type := Normal | PerCpu | Device | Uncached.

#[export] Instance MemAttributes_eq_dec : EqDecision MemAttributes.
Proof. solve_decision. Defined.

(** def.rs: [MemConfig]. *)
Record MemConfig : Type := { access : Z; attrs : MemAttributes }.

(** def.rs: [PteConfig]. *)
Record PteConfig : Type := mk_PteConfig {
  paddr : Z;
  valid : bool;
  read : bool;
  writable : bool;
  executable : bool;
  lower : bool;
  dirty : bool;
  global : bool;
  is_dir : bool;
  huge : bool;
  mem_attr : MemAttributes
}.

#[export] Instance PteConfig_eq_dec : EqDecision PteConfig.
Proof. solve_decision. Defined.

(** [PteConfig::default()]; [{ valid: false, ..Default::default() }] is the
    same value. *)
Definition PteConfig_default : PteConfig :=
  mk_PteConfig 0 false false false false false false false false false Normal.

(** [PteConfig { paddr, valid: true, huge, is_dir, ..template }]. *)
Definition pte_target (template : PteConfig) (pa : Z) (h dir : bool) : PteConfig :=
  mk_PteConfig pa true (read template) (writable template) (executable template)
    (lower template) (dirty template) (global template) dir h (mem_attr template).

(** lib.rs: [PageTableEntry]. [pte_zero] is the entry whose bytes are all zero:
    a new frame is filled with it. *)
Class PageTableEntry (P : Type) : Type := {
  from_config : PteConfig → P;
  to_config : P → bool → PteConfig;
  pte_valid : P → bool;
  pte_zero : P
}.

(** lib.rs: [TableMeta]. [PTE_SIZE] is [size_of::<T::P>()]. *)
Class TableMeta : Type := {
  PAGE_SIZE : Z;
  LEVEL_BITS : list Z;
  MAX_BLOCK_LEVEL : nat;
  PTE_SIZE : Z
}.

(** lib.rs: [FrameAllocator]. The allocator is a shared handle with interior
    mutability, so its operations are functions of its state. *)
Class FrameAllocator (A : Type) : Type := {
  alloc_frame : A → A * option Z;
  dealloc_frame : A → Z → A
}.

(** ** What the page-table code relies on *)

(** Entries read back what the table writes, in the three shapes it writes
    them (cleared, link to a lower table, final mapping), for the physical
    addresses ([pa_ok]) and templates ([tmpl_ok]) the format can hold. *)
Class PageTableEntryLaws (P : Type) `{PageTableEntry P}
    (pa_ok : Z → Prop) (tmpl_ok : PteConfig → Prop) : Prop := {
  pte_valid_spec e d : pte_valid e = valid (to_config e d);
  pte_zero_valid : pte_valid pte_zero = false;
  pte_clear_valid : pte_valid (from_config PteConfig_default) = false;
  pte_table_link c pa : pa_ok pa →
    let g := to_config (from_config (pte_target c pa false true)) true in
    valid g = true ∧ huge g = false ∧ paddr g = pa;
  pte_leaf_page c pa : pa_ok pa →
    let g := to_config (from_config (pte_target c pa false false)) false in
    valid g = true ∧ huge g = false ∧ paddr g = pa;
  pte_huge_page c pa : pa_ok pa → tmpl_ok c →
    let g := to_config (from_config (pte_target c pa true true)) true in
    valid g = true ∧ huge g = true ∧ paddr g = pa
}.

Definition sum_list_Z (l : list Z) : Z := foldr Z.add 0 l.

(** The geometry of a table: the page size is a power of two, every level has
    an index, an index stays inside a frame, and the levels together with the
    page offset fit the 64-bit address. *)
Class TableMetaOk `{TableMeta} : Prop := {
  page_shift_ok : ∃ k, 0 < k ∧ PAGE_SIZE = 2 ^ k;
  level_bits_ok : Forall (λ b, 0 < b ∧ 2 ^ b ≤ PAGE_SIZE / PTE_SIZE) LEVEL_BITS;
  level_bits_some : LEVEL_BITS ≠ [];
  total_bits_ok : Z.log2 PAGE_SIZE + sum_list_Z LEVEL_BITS ≤ 64
}.

(** A frame allocator in a good state ([ok]) hands out frames that are not in
    use, page aligned and addressable by an entry, stays in a good state, and
    forgets no frame but those given back. *)
Class FrameAllocatorLaws (A : Type) `{FrameAllocator A}
    (pa_ok : Z → Prop) (live : A → Z → Prop) (ok : A → Prop) : Prop := {
  alloc_fresh a a' p : ok a → alloc_frame a = (a', Some p) →
    ¬ live a p ∧ live a' p ∧ pa_ok p;
  alloc_ok a a' o : ok a → alloc_frame a = (a', o) → ok a';
  alloc_keeps a a' o q : ok a → alloc_frame a = (a', o) → live a q → live a' q;
  dealloc_ok a p : ok a → ok (dealloc_frame a p);
  dealloc_keeps a p q : q ≠ p → live a q → live (dealloc_frame a p) q
}.
