(* ===== verification/PtFrame.v ===== *)
(** * Page tables: frames

    crates/page-table-generic/src/frame.rs. A frame is named by its physical
    address; the entries of the live frames are a finite map from that address
    to the slice [phys_to_virt] gives access to, so two handles on one frame
    share it. The state also has the allocator and the log of TLB flushes. *)

From stdpp Require Import base list numbers strings gmap.
From S2P Require Import Prelude PtDef.
Open Scope Z_scope.

Record St (P A : Type) : Type := mk_St {
  mem : gmap Z (list P);
  astate : A;
  tlb : list (option Z)
}.
Arguments mk_St {P A}.
Arguments mem {P A}.
Arguments astate {P A}.
Arguments tlb {P A}.

Section Frame.
Context {P A : Type} `{PageTableEntry P} `{TableMeta} `{FrameAllocator A}.

Notation PM := (M (St P A) PagingError).

(** [usize::trailing_zeros]. *)
Definition trailing_zeros (x : Z) : Z :=
  if x =? 0 then 64 else Z.log2 (Z.land x (- x)).

(** [cal_index_bits]: the sum over the levels. *)
Definition cal_index_bits : Z := fold_left Z.add LEVEL_BITS 0.

Definition PT_INDEX_SHIFT : Z := trailing_zeros PAGE_SIZE.
Definition PT_INDEX_BITS : Z := cal_index_bits.
Definition PT_VALID_BITS : Z := PT_INDEX_BITS + PT_INDEX_SHIFT.
Definition LEN : Z := PAGE_SIZE / PTE_SIZE.
Definition PT_LEVEL : nat := length LEVEL_BITS.

(** [Frame::new]: allocate a frame and zero it. *)
Definition new_frame : PM Z := λ s,
  match alloc_frame (astate s) with
  | (a', None) => (mk_St (mem s) a' (tlb s), Err NoMemory)
  | (a', Some p) =>
      (mk_St (<[p := replicate (Z.to_nat LEN) pte_zero]> (mem s)) a' (tlb s), Ok p)
  end.

(** [as_slice()[i]]: a frame that is not there, or an index past its end, has
    no value. *)
Definition entry_at (m : gmap Z (list P)) (p i : Z) : outcome PagingError P :=
  match m !! p with
  | Some es => unwrap (es !! Z.to_nat i)
  | None => Stuck
  end.

Definition read_entry (p i : Z) : PM P := λ s, (s, entry_at (mem s) p i).

(** [as_slice_mut()[i] = e]. *)
Definition write_entry (p i : Z) (e : P) : PM unit := λ s,
  match mem s !! p with
  | Some es =>
      if Z.to_nat i <? length es
      then (mk_St (<[p := <[Z.to_nat i := e]> es]> (mem s)) (astate s) (tlb s), Ok tt)
      else (s, Stuck)
  | None => (s, Stuck)
  end%nat.

(** [T::flush(Some(vaddr))] under the [flush] setting. *)
Definition flush_if (b : bool) (vaddr : Z) : PM unit :=
  if b then modify (λ s, mk_St (mem s) (astate s) (tlb s ++ [Some vaddr]))
  else mret tt.

Definition dealloc (p : Z) : PM unit :=
  modify (λ s, mk_St (mem s) (dealloc_frame (astate s) p) (tlb s)).

(** [Frame::level_size]. *)
Definition level_size (level : nat) : Z :=
  if (level =? 1)%nat then PAGE_SIZE
  else
    let total_levels := length LEVEL_BITS in
    let shift := sum_list_Z (drop (total_levels - level + 1) LEVEL_BITS) in
    Z.shiftl PAGE_SIZE shift mod 2 ^ 64.

(** [Frame::virt_to_index]. *)
Definition virt_to_index (vaddr : Z) (level : nat) : outcome PagingError Z :=
  if (level =? 0)%nat || (PT_LEVEL <? level)%nat then Stuck
  else
    let page_shift := trailing_zeros PAGE_SIZE in
    let total_levels := length LEVEL_BITS in
    let shift :=
      if (level =? 1)%nat then page_shift
      else page_shift + sum_list_Z (drop (total_levels - level + 1) LEVEL_BITS) in
    level_index_bits ← unwrap (LEVEL_BITS !! (total_levels - level)%nat);
    let mask := Z.shiftl 1 level_index_bits - 1 in
    Ok (Z.land (Z.shiftr vaddr shift) mask).

(** [Frame::reconstruct_vaddr]. *)
Definition reconstruct_vaddr (index : Z) (level : nat) (base_vaddr : Z) :
    outcome PagingError Z :=
  off ← umul 64 index (level_size level);
  uadd 64 base_vaddr off.

(** The loop of [Frame::deallocate_children] over the indices [i-1 .. 0], with
    the recursive call on a child frame as an argument. *)
Fixpoint dealloc_children_loop (child : Z → PM unit) (p : Z) (level i : nat) : PM unit :=
  match i with
  | O => mret tt
  | S i' =>
      entry ← read_entry p (Z.of_nat i');
      let config := to_config entry (1 <? level)%nat in
      _ ← (if negb (valid config) then mret tt
           else if huge config || (level =? 1)%nat then mret tt
           else
             _ ← child (paddr config);
             write_entry p (Z.of_nat i') (from_config PteConfig_default));
      dealloc_children_loop child p level i'
  end.

(** [Frame::deallocate_recursive]; level 0 underflows in [level - 1]. *)
Fixpoint deallocate_recursive (level : nat) (p : Z) : PM unit :=
  _ ← dealloc_children_loop
        (match level with O => λ _, stuck | S l => deallocate_recursive l end)
        p level (Z.to_nat LEN);
  dealloc p.

(** [Frame::deallocate_children]. *)
Definition deallocate_children (level : nat) (p : Z) : PM unit :=
  dealloc_children_loop
    (match level with O => λ _, stuck | S l => deallocate_recursive l end)
    p level (Z.to_nat LEN).

(** [Frame::translate_recursive_with_level]: a reader of memory. *)
Fixpoint translate_recursive_with_level (m : gmap Z (list P)) (p vaddr : Z)
    (level : nat) : outcome PagingError (P * nat) :=
  index ← virt_to_index vaddr level;
  pte ← entry_at m p index;
  let config := to_config pte (1 <? level)%nat in
  if negb (valid config) then Err NotMapped
  else if huge config || (level =? 1)%nat then Ok (pte, level)
  else match level with
       | S l =>
           if (1 <? level)%nat then
             translate_recursive_with_level m (paddr (to_config pte (1 <? level)%nat)) vaddr l
           else Err (HierarchyError "Invalid page table level during translation")
       | O => Err (HierarchyError "Invalid page table level during translation")
       end.

(** [Frame::translate_recursive]. *)
Definition translate_recursive (m : gmap Z (list P)) (p vaddr : Z) (level : nat) :
    outcome PagingError P :=
  '(pte, _) ← translate_recursive_with_level m p vaddr level;
  Ok pte.

(** [Frame::dealloc_entry_recursive]. *)
Definition dealloc_entry_recursive (p index : Z) (level : nat) : PM bool :=
  if (LEN <=? index) || (level <=? 1)%nat then mret false
  else
    entry ← read_entry p index;
    let config := to_config entry (1 <? level)%nat in
    if valid config && negb (huge config) then
      _ ← deallocate_recursive (level - 1) (paddr (to_config entry (1 <? level)%nat));
      _ ← write_entry p index (from_config PteConfig_default);
      mret true
    else mret false.

End Frame.
