(* ===== verification/PtMap.v ===== *)
(** * Page tables: mapping and unmapping

    crates/page-table-generic/src/map.rs (the recursions over the levels) and
    the entry points of table.rs that call them. The [level] field of the two
    recursive configurations is the first argument of the recursions here, on
    which they are structural; the [while] loops have a fuel that
    [map_refines] and [unmap_refines] of PtTable show to be enough. *)

From stdpp Require Import base list numbers strings gmap.
From S2P Require Import Prelude PtDef PtFrame.
Open Scope Z_scope.

(** map.rs: [MapConfig]. *)
Record MapConfig : Type := mk_MapConfig {
  mc_vaddr : Z;
  mc_paddr : Z;
  mc_size : Z;
  mc_pte : PteConfig;
  mc_allow_huge : bool;
  mc_flush : bool
}.

(** map.rs: [MapRecursiveConfig], less [level] and the two start addresses,
    which the loop changes. *)
Record MapRecursiveConfig : Type := mk_MapRecursiveConfig {
  rc_end_vaddr : Z;
  rc_allow_huge : bool;
  rc_flush : bool;
  rc_pte_template : PteConfig
}.

(** map.rs: [UnmapConfig]. *)
Record UnmapConfig : Type := mk_UnmapConfig {
  uc_start_vaddr : Z;
  uc_size : Z;
  uc_flush : bool
}.

Section Map.
Context {P A : Type} `{PageTableEntry P} `{TableMeta} `{FrameAllocator A}.

Notation PM := (M (St P A) PagingError).

(** Turns of a loop at [level] over [len] bytes: one per entry it meets. *)
Definition loop_fuel (level : nat) (len : Z) : nat :=
  Z.to_nat (len / level_size level + 2).

(** The condition of map.rs under which a block is mapped at this level. *)
Definition use_huge (config : MapRecursiveConfig) (level : nat) (vaddr paddr : Z) : bool :=
  rc_allow_huge config && (1 <? level)%nat && (level <=? MAX_BLOCK_LEVEL)%nat
  && (level_size level <=? rc_end_vaddr config - vaddr)
  && is_multiple_of vaddr (level_size level)
  && is_multiple_of paddr (level_size level).

(** One final mapping: conflict check, entry, flush. *)
Definition map_final (config : MapRecursiveConfig) (p index vaddr paddr : Z) (h dir : bool) :
    PM unit :=
  pte ← read_entry p index;
  if pte_valid pte then fail (MappingConflict vaddr paddr)
  else
    _ ← write_entry p index (from_config (pte_target (rc_pte_template config) paddr h dir));
    flush_if (rc_flush config) vaddr.

(** The child table under an entry: the linked one, or a new one. *)
Definition child_table (config : MapRecursiveConfig) (p index : Z) : PM Z :=
  current_pte ← read_entry p index;
  let current_config := to_config current_pte true in
  if valid current_config then
    if huge current_config
    then fail (HierarchyError "Cannot create page table under huge page")
    else mret (paddr current_config)
  else
    new_paddr ← new_frame;
    _ ← write_entry p index (from_config (pte_target (rc_pte_template config) new_paddr false true));
    mret new_paddr.

(** The loop body of [Frame::map_range_recursive]: the new [vaddr] and [paddr].
    [child] is the recursive call on a table of the level below. *)
Definition map_step (child : Z → MapRecursiveConfig → Z → Z → PM unit) (level : nat)
    (p : Z) (config : MapRecursiveConfig) (vaddr paddr : Z) : PM (Z * Z) :=
  index ← lift (virt_to_index vaddr level);
  let size := level_size level in
  if use_huge config level vaddr paddr then
    _ ← map_final config p index vaddr paddr true true;
    vaddr' ← lift (uadd 64 vaddr size);
    paddr' ← lift (uadd 64 paddr size);
    mret (vaddr', paddr')
  else if (level =? 1)%nat then
    _ ← map_final config p index vaddr paddr false false;
    vaddr' ← lift (uadd 64 vaddr PAGE_SIZE);
    paddr' ← lift (uadd 64 paddr PAGE_SIZE);
    mret (vaddr', paddr')
  else
    child_frame ← child_table config p index;
    let current_entry_end := saturating_mul 64 (saturating_add 64 (vaddr / size) 1) size in
    let next_level_vaddr := Z.min current_entry_end (rc_end_vaddr config) in
    let child_config := mk_MapRecursiveConfig next_level_vaddr (rc_allow_huge config)
                          (rc_flush config) (rc_pte_template config) in
    _ ← child child_frame child_config vaddr paddr;
    let mapped_size := next_level_vaddr - vaddr in
    paddr' ← lift (uadd 64 paddr mapped_size);
    mret (next_level_vaddr, paddr').

(** [while vaddr < config.end_vaddr { .. }]. *)
Fixpoint map_loop (child : Z → MapRecursiveConfig → Z → Z → PM unit) (level : nat)
    (p : Z) (config : MapRecursiveConfig) (fuel : nat) (vaddr paddr : Z) : PM unit :=
  if vaddr <? rc_end_vaddr config then
    match fuel with
    | O => stuck
    | S fuel' =>
        '(vaddr', paddr') ← map_step child level p config vaddr paddr;
        map_loop child level p config fuel' vaddr' paddr'
    end
  else mret tt.

(** [Frame::map_range_recursive]. At level 0 the first turn panics in
    [virt_to_index]. *)
Fixpoint map_range_recursive (level : nat) (p : Z) (config : MapRecursiveConfig)
    (start_vaddr start_paddr : Z) : PM unit :=
  map_loop (match level with O => λ _ _ _ _, stuck | S l => map_range_recursive l end)
    level p config (loop_fuel level (rc_end_vaddr config - start_vaddr))
    start_vaddr start_paddr.

(** [Frame::is_frame_empty]. *)
Definition is_frame_empty (p : Z) : PM bool := λ s,
  match mem s !! p with
  | Some es => (s, Ok (forallb (λ pte, negb (valid (to_config pte false))) es))
  | None => (s, Stuck)
  end.

(** The loop body of [Frame::unmap_range_recursive]: the new [vaddr] and
    [can_reclaim]. *)
Definition unmap_step (child : Z → Z → Z → PM bool) (level : nat) (flush : bool)
    (p end_vaddr vaddr : Z) (can_reclaim : bool) : PM (Z * bool) :=
  index ← lift (virt_to_index vaddr level);
  let size := level_size level in
  let remaining_size := end_vaddr - vaddr in
  pte ← read_entry p index;
  let pte_config := to_config pte (1 <? level)%nat in
  if negb (valid pte_config) then
    vaddr' ← lift (uadd 64 vaddr (Z.min size remaining_size));
    mret (vaddr', can_reclaim)
  else if (level =? 1)%nat || huge pte_config then
    _ ← write_entry p index (from_config PteConfig_default);
    _ ← flush_if flush vaddr;
    vaddr' ← lift (uadd 64 vaddr (if huge pte_config then size else PAGE_SIZE));
    mret (vaddr', can_reclaim)
  else
    let child_paddr := paddr pte_config in
    current_entry_end ← lift (umul 64 (vaddr / size + 1) size);
    let next_level_vaddr := Z.min current_entry_end end_vaddr in
    child_can_reclaim ← child child_paddr vaddr next_level_vaddr;
    if (child_can_reclaim : bool) then
      _ ← write_entry p index (from_config PteConfig_default);
      _ ← dealloc child_paddr;
      mret (next_level_vaddr, can_reclaim)
    else mret (next_level_vaddr, false).

Fixpoint unmap_loop (child : Z → Z → Z → PM bool) (level : nat) (flush : bool)
    (p end_vaddr : Z) (fuel : nat) (vaddr : Z) (can_reclaim : bool) : PM bool :=
  if vaddr <? end_vaddr then
    match fuel with
    | O => stuck
    | S fuel' =>
        '(vaddr', can_reclaim') ← unmap_step child level flush p end_vaddr vaddr can_reclaim;
        unmap_loop child level flush p end_vaddr fuel' vaddr' can_reclaim'
    end
  else if can_reclaim then is_frame_empty p
  else mret false.

(** [Frame::unmap_range_recursive]. *)
Fixpoint unmap_range_recursive (level : nat) (flush : bool) (p start_vaddr end_vaddr : Z) :
    PM bool :=
  unmap_loop (match level with O => λ _ _ _, stuck | S l => unmap_range_recursive l flush end)
    level flush p end_vaddr (loop_fuel level (end_vaddr - start_vaddr)) start_vaddr true.

(** table.rs: [PageTableRef::validate_map_config]. *)
Definition validate_map_config (config : MapConfig) : outcome PagingError unit :=
  if mc_size config =? 0 then Err (InvalidSize "Size cannot be zero")
  else if negb (is_multiple_of (mc_vaddr config) PAGE_SIZE)
  then Err (AlignmentError "Virtual address not page aligned")
  else if negb (is_multiple_of (mc_paddr config) PAGE_SIZE)
  then Err (AlignmentError "Physical address not page aligned")
  else Ok tt.

(** table.rs: [PageTableRef::map]. *)
Definition map (root : Z) (config : MapConfig) : PM unit :=
  _ ← lift (validate_map_config config);
  match checked_add 64 (mc_vaddr config) (mc_size config),
        checked_add 64 (mc_paddr config) (mc_size config) with
  | Some end_vaddr, Some _ =>
      map_range_recursive PT_LEVEL root
        (mk_MapRecursiveConfig end_vaddr (mc_allow_huge config) (mc_flush config)
           (mc_pte config))
        (mc_vaddr config) (mc_paddr config)
  | _, _ => fail (AddressOverflow "Virtual or physical address overflow")
  end.

(** table.rs: [PageTableRef::validate_unmap_params]. *)
Definition validate_unmap_params (start_vaddr size : Z) : outcome PagingError unit :=
  if size =? 0 then Err (InvalidSize "Size cannot be zero in unmap")
  else if negb (is_multiple_of start_vaddr PAGE_SIZE)
  then Err (AlignmentError "Start virtual address not page aligned in unmap")
  else if negb (is_multiple_of size PAGE_SIZE)
  then Err (AlignmentError "Size not page aligned in unmap")
  else Ok tt.

(** table.rs: [PageTableRef::unmap]. *)
Definition unmap (root start_vaddr size : Z) : PM unit :=
  _ ← lift (validate_unmap_params start_vaddr size);
  match checked_add 64 start_vaddr size with
  | Some end_vaddr =>
      _ ← unmap_range_recursive PT_LEVEL true root start_vaddr end_vaddr;
      mret tt
  | None => fail (AddressOverflow "Virtual address overflow in unmap")
  end.

(** table.rs: [PageTableRef::unmap_with_config]. *)
Definition unmap_with_config (root : Z) (config : UnmapConfig) : PM unit :=
  _ ← lift (validate_unmap_params (uc_start_vaddr config) (uc_size config));
  match checked_add 64 (uc_start_vaddr config) (uc_size config) with
  | Some end_vaddr =>
      _ ← unmap_range_recursive PT_LEVEL (uc_flush config) root
            (uc_start_vaddr config) end_vaddr;
      mret tt
  | None => fail (AddressOverflow "Virtual address overflow in unmap_with_config")
  end.

(** table.rs: [PageTableRef::new] and [PageTable::new]. *)
Definition new_table : PM Z := new_frame.

(** table.rs: [PageTableRef::destroy], [deallocate] and the [Drop] of
    [PageTable]. *)
Definition deallocate (root : Z) : PM unit := deallocate_recursive PT_LEVEL root.

(** table.rs: [PageTableRef::deallocate_range]; its body is still to be
    written in the source. *)
Definition deallocate_range (start_vaddr end_vaddr : Z) : PM unit :=
  if end_vaddr <=? start_vaddr
  then fail (InvalidRange "Start address must be less than end address")
  else mret tt.

(** table.rs: [PageTableRef::translate]. *)
Definition translate (m : gmap Z (list P)) (root vaddr : Z) :
    outcome PagingError (Z * P) :=
  '(pte, level) ← translate_recursive_with_level m root vaddr PT_LEVEL;
  let pte_config := to_config pte (1 <? level)%nat in
  phys_addr ←
    (if huge pte_config
     then uadd 64 (paddr pte_config) (vaddr mod level_size level)
     else uadd 64 (paddr pte_config) (vaddr mod PAGE_SIZE));
  Ok (phys_addr, pte).

(** table.rs: [PageTableRef::translate_phys]. *)
Definition translate_phys (m : gmap Z (list P)) (root vaddr : Z) :
    outcome PagingError Z :=
  '(p, _) ← translate m root vaddr;
  Ok p.

(** table.rs: [PageTableRef::is_mapped]. *)
Definition is_mapped (m : gmap Z (list P)) (root vaddr : Z) : outcome PagingError bool :=
  match translate m root vaddr with Ok _ => Ok true | Err _ => Ok false | Stuck => Stuck end.

End Map.
