(* ===== verification/PtGeom.v ===== *)
(** * Page tables: the geometry of the levels

    Arithmetic facts on [level_size] and [virt_to_index] of PtFrame for a
    well-formed [TableMeta]: block sizes are powers of two that multiply by the
    index width from one level to the next, and an index is a digit of the
    virtual address. *)

From stdpp Require Import base list numbers strings gmap.
From S2P Require Import Prelude PtDef PtFrame.
Open Scope Z_scope.

Lemma div_eq_range a x b : 0 < b → x / b = a / b ↔ b * (a / b) ≤ x < b * (a / b) + b.
Proof.
  intros Hb. split.
  - intros E. pose proof (Z.div_mod x b ltac:(lia)). pose proof (Z.mod_pos_bound x b Hb). nia.
  - intros [Hl Hh]. symmetry. apply Z.div_unique_pos with (x - b * (a / b)); lia.
Qed.

Lemma div_lower a b : 0 < b → b * (a / b) ≤ a < b * (a / b) + b.
Proof. intros. by apply div_eq_range. Qed.

Lemma divide_div_mul a b : 0 < b → (b | a) → b * (a / b) = a.
Proof. intros ? [k ->]. rewrite Z.div_mul by lia. lia. Qed.

(** A multiple of [b] in the block of [a] that is not below [a] is [a] or past
    no boundary: two multiples of [b] in one block are equal. *)
Lemma divide_block_eq a x b : 0 < b → (b | a) → (b | x) → x / b = a / b → x = a.
Proof. intros Hb Ha Hx E. rewrite <- (divide_div_mul a b), <- (divide_div_mul x b) by done. congruence. Qed.

(** Distinct multiples are at least [b] apart. *)
Lemma divide_lt_le a x b : 0 < b → (b | a) → (b | x) → a < x → a + b ≤ x.
Proof. intros Hb [k ->] [j ->] Hlt. apply Z.mul_lt_mono_pos_r in Hlt; [|done]. nia. Qed.

Lemma land_neg_pow k : 0 ≤ k → Z.land (2 ^ k) (- 2 ^ k) = 2 ^ k.
Proof.
  intros. replace (- 2 ^ k) with (Z.shiftl (-1) k) by (rewrite Z.shiftl_mul_pow2 by done; lia).
  rewrite <- (Z.shiftl_1_l k) at 1. rewrite <- Z.shiftl_land. apply Z.shiftl_1_l.
Qed.

Lemma sum_list_Z_nonneg l : Forall (λ b, 0 < b) l → 0 ≤ sum_list_Z l.
Proof. induction 1; simpl; lia. Qed.

Lemma sum_list_Z_drop l i b :
  l !! i = Some b → sum_list_Z (drop i l) = b + sum_list_Z (drop (S i) l).
Proof. intros E. by rewrite (drop_S _ _ _ E). Qed.

Lemma sum_list_Z_drop_le l i : Forall (λ b, 0 < b) l → sum_list_Z (drop i l) ≤ sum_list_Z l.
Proof.
  intros F. revert i. induction F as [|b l Hb F IH]; intros [|i]; simpl; try lia.
  pose proof (IH i). lia.
Qed.

Section Geom.
Context `{TM : TableMeta} {TMO : TableMetaOk}.

Definition page_shift : Z := Z.log2 PAGE_SIZE.
Definition lshift (l : nat) : Z := page_shift + sum_list_Z (drop (PT_LEVEL + 1 - l) LEVEL_BITS).
Definition lbits (l : nat) : Z := default 0 (LEVEL_BITS !! (PT_LEVEL - l)%nat).
(** Bytes a table of level [l] maps. *)
Definition table_size (l : nat) : Z := level_size l * 2 ^ lbits l.
Definition level_ok (l : nat) : Prop := (1 ≤ l ≤ PT_LEVEL)%nat.
Definition index (v : Z) (l : nat) : Z := (v / level_size l) mod 2 ^ lbits l.

Lemma PAGE_SIZE_pow : PAGE_SIZE = 2 ^ page_shift ∧ 0 < page_shift.
Proof.
  destruct page_shift_ok as (k & Hk & E). unfold page_shift. rewrite E.
  rewrite Z.log2_pow2 by lia. done.
Qed.

Lemma PAGE_SIZE_pos : 0 < PAGE_SIZE.
Proof. destruct PAGE_SIZE_pow as [-> ?]. apply pow2_pos. lia. Qed.

Lemma trailing_zeros_page : trailing_zeros PAGE_SIZE = page_shift.
Proof.
  destruct PAGE_SIZE_pow as [E Hp]. unfold trailing_zeros.
  pose proof PAGE_SIZE_pos. rewrite (proj2 (Z.eqb_neq _ _)) by lia.
  rewrite E at 1 2. rewrite land_neg_pow by lia. apply Z.log2_pow2. lia.
Qed.

Lemma bits_pos : Forall (λ b, 0 < b) LEVEL_BITS.
Proof. eapply Forall_impl; [apply level_bits_ok|]. naive_solver. Qed.

Lemma lbits_lookup l : level_ok l → LEVEL_BITS !! (PT_LEVEL - l)%nat = Some (lbits l).
Proof.
  intros [? ?]. unfold lbits.
  destruct (lookup_lt_is_Some_2 LEVEL_BITS (PT_LEVEL - l)%nat) as [b E]; [unfold PT_LEVEL in *; lia|].
  by rewrite E.
Qed.

Lemma lbits_bound l : level_ok l → 0 < lbits l ∧ 2 ^ lbits l ≤ LEN.
Proof.
  intros Hl. apply lbits_lookup in Hl. pose proof level_bits_ok as F.
  rewrite Forall_lookup in F. apply (F _ _ Hl).
Qed.

Lemma lshift_1 : lshift 1 = page_shift.
Proof. unfold lshift, PT_LEVEL. rewrite drop_ge by lia. simpl. lia. Qed.

Lemma lshift_table l : level_ok l →
  lshift l + lbits l = page_shift + sum_list_Z (drop (PT_LEVEL - l) LEVEL_BITS).
Proof.
  intros Hl. pose proof (lbits_lookup l Hl) as E. unfold lshift.
  rewrite (sum_list_Z_drop _ _ _ E). destruct Hl.
  replace (PT_LEVEL + 1 - l)%nat with (S (PT_LEVEL - l)) by lia. lia.
Qed.

Lemma lshift_S l : level_ok l → level_ok (S l) → lshift (S l) = lshift l + lbits l.
Proof.
  intros Hl [? ?]. rewrite lshift_table by done. unfold lshift.
  by replace (PT_LEVEL + 1 - S l)%nat with (PT_LEVEL - l)%nat by lia.
Qed.

Lemma lshift_ge l : page_shift ≤ lshift l.
Proof.
  unfold lshift. pose proof (sum_list_Z_nonneg (drop (PT_LEVEL + 1 - l) LEVEL_BITS)
    (Forall_drop _ _ _ bits_pos)). lia.
Qed.

Lemma lshift_top l : level_ok l → lshift l + lbits l ≤ 64.
Proof.
  intros Hl. rewrite lshift_table by done. pose proof total_bits_ok as Ht.
  unfold page_shift. pose proof (sum_list_Z_drop_le LEVEL_BITS (PT_LEVEL - l) bits_pos). lia.
Qed.

Lemma lshift_pos l : level_ok l → 0 < lshift l < 64.
Proof.
  intros Hl. pose proof (lshift_ge l). pose proof (lshift_top l Hl).
  pose proof (lbits_bound l Hl). destruct PAGE_SIZE_pow. lia.
Qed.

Lemma level_size_pow l : level_ok l → level_size l = 2 ^ lshift l.
Proof.
  intros Hl. pose proof (lshift_pos l Hl) as Hp. destruct PAGE_SIZE_pow as [E Hps].
  unfold level_size. destruct (Nat.eqb_spec l 1) as [->|Hne]; [by rewrite lshift_1|].
  unfold lshift in *. destruct Hl as [? Hle]. unfold PT_LEVEL in *.
  replace (length LEVEL_BITS + 1 - l)%nat with (length LEVEL_BITS - l + 1)%nat in * by lia.
  assert (0 ≤ sum_list_Z (drop (length LEVEL_BITS - l + 1) LEVEL_BITS))
    by (apply sum_list_Z_nonneg, Forall_drop, bits_pos).
  rewrite Z.shiftl_mul_pow2, E, <- Z.pow_add_r by lia.
  apply Z.mod_small. split; [apply Z.lt_le_incl, pow2_pos; lia|].
  apply Z.pow_lt_mono_r; lia.
Qed.

Lemma level_size_pos l : level_ok l → 0 < level_size l.
Proof. intros Hl. rewrite level_size_pow by done. apply pow2_pos. pose proof (lshift_pos l Hl). lia. Qed.

Lemma level_size_lt l : level_ok l → level_size l < 2 ^ 64.
Proof. intros Hl. rewrite level_size_pow by done. apply Z.pow_lt_mono_r; pose proof (lshift_pos l Hl); lia. Qed.

Lemma level_size_1 : level_size 1 = PAGE_SIZE.
Proof. done. Qed.

Lemma level_ok_1 : level_ok 1.
Proof. pose proof level_bits_some. unfold level_ok, PT_LEVEL. destruct LEVEL_BITS; simpl; [done|lia]. Qed.

Lemma page_divides_level l : level_ok l → (PAGE_SIZE | level_size l).
Proof.
  intros Hl. rewrite level_size_pow by done. destruct PAGE_SIZE_pow as [-> ?].
  exists (2 ^ (lshift l - page_shift)). pose proof (lshift_ge l). rewrite <- Z.pow_add_r by lia. f_equal. lia.
Qed.

Lemma table_size_pow l : level_ok l → table_size l = 2 ^ (lshift l + lbits l).
Proof.
  intros Hl. unfold table_size. rewrite level_size_pow by done.
  pose proof (lshift_pos l Hl). pose proof (lbits_bound l Hl). rewrite Z.pow_add_r by lia. done.
Qed.

Lemma table_size_S l : level_ok l → level_ok (S l) → level_size (S l) = table_size l.
Proof. intros. rewrite level_size_pow, table_size_pow, lshift_S by done. done. Qed.

Lemma table_size_pos l : level_ok l → 0 < table_size l.
Proof.
  intros Hl. rewrite table_size_pow by done. apply pow2_pos.
  pose proof (lshift_pos l Hl). pose proof (lbits_bound l Hl). lia.
Qed.

Lemma table_size_le l : level_ok l → table_size l ≤ 2 ^ 64.
Proof. intros Hl. rewrite table_size_pow by done. apply Z.pow_le_mono_r; [lia|]. by apply lshift_top. Qed.

Lemma virt_to_index_eq v l : level_ok l → virt_to_index v l = Ok (index v l).
Proof.
  intros Hl. pose proof Hl as [H1 H2]. unfold virt_to_index, index.
  rewrite (proj2 (Nat.eqb_neq l 0)), (proj2 (Nat.ltb_ge PT_LEVEL l)) by lia. simpl.
  fold PT_LEVEL. rewrite (lbits_lookup l Hl). simpl.
  rewrite Z.shiftl_1_l, Z.sub_1_r, <- Z.ones_equiv.
  pose proof (lbits_bound l Hl). pose proof (lshift_pos l Hl).
  rewrite Z.land_ones by lia. rewrite level_size_pow by done.
  replace (if (l =? 1)%nat then trailing_zeros PAGE_SIZE else _) with (lshift l).
  - rewrite Z.shiftr_div_pow2 by lia. done.
  - rewrite trailing_zeros_page. unfold lshift.
    destruct (Nat.eqb_spec l 1) as [->|]; [rewrite drop_ge by (unfold PT_LEVEL; lia); simpl; lia|].
    by replace (PT_LEVEL + 1 - l)%nat with (PT_LEVEL - l + 1)%nat by lia.
Qed.

Lemma index_range v l : level_ok l → 0 ≤ index v l < LEN.
Proof.
  intros Hl. pose proof (lbits_bound l Hl). unfold index.
  pose proof (Z.mod_pos_bound (v / level_size l) (2 ^ lbits l) ltac:(apply pow2_pos; lia)). lia.
Qed.

Lemma div_table v l : level_ok l → v / table_size l = v / level_size l / 2 ^ lbits l.
Proof.
  intros Hl. unfold table_size. pose proof (level_size_pos l Hl). pose proof (lbits_bound l Hl).
  rewrite Z.div_div; [done|lia|]. apply pow2_pos. lia.
Qed.

(** Within one table two addresses have the same index iff they are in the
    same block. *)
Lemma index_eq v x l : level_ok l → x / table_size l = v / table_size l →
  index x l = index v l ↔ x / level_size l = v / level_size l.
Proof.
  intros Hl E. rewrite !div_table in E by done. unfold index.
  pose proof (lbits_bound l Hl) as [Hb _]. pose proof (pow2_pos (lbits l) ltac:(lia)).
  split; [|by intros ->]. intros Em.
  rewrite (Z.div_mod (x / level_size l) (2 ^ lbits l)), (Z.div_mod (v / level_size l) (2 ^ lbits l)) by lia.
  congruence.
Qed.

Lemma table_block v x l : level_ok l → x / level_size l = v / level_size l →
  x / table_size l = v / table_size l.
Proof. intros Hl E. rewrite !div_table by done. by rewrite E. Qed.

Lemma level_size_mono l : level_ok l → level_ok (S l) → level_size l < level_size (S l).
Proof.
  intros Hl Hs. rewrite table_size_S by done. unfold table_size.
  pose proof (level_size_pos l Hl). pose proof (lbits_bound l Hl) as [Hb _].
  assert (2 ^ 0 < 2 ^ lbits l) by (apply Z.pow_lt_mono_r; lia). nia.
Qed.

End Geom.
