(* ===== verification/PtTree.v ===== *)
(** * Page tables: the tree invariant

    The frames reachable from a root form a tree: no frame is reached twice,
    every frame is present and has [LEN] entries. [tree l m p fs] says that the
    table of level [l] at [p] is such a tree with the set of frames [fs]. The
    lemmas give the frame rule (memory outside [fs] does not matter) and the
    effect of replacing one entry on the tree and on translation. *)

From stdpp Require Import base list numbers strings gmap.
From S2P Require Import Prelude PtDef PtFrame PtGeom.
Open Scope Z_scope.

Section Tree.
Context {P : Type} `{PTE : PageTableEntry P} `{TM : TableMeta} {TMO : TableMetaOk}.

Implicit Types (m : gmap Z (list P)) (fs : gset Z) (l : nat) (e : P).

Definition config_at l e : PteConfig := to_config e (1 <? l)%nat.

(** The entry links a table of the level below. *)
Definition is_link l e : bool :=
  (1 <? l)%nat && valid (config_at l e) && negb (huge (config_at l e)).

Fixpoint tree l m (p : Z) fs : Prop :=
  match l with
  | O => False
  | S l' =>
      ∃ (es : list P) (kids : nat → gset Z),
        m !! p = Some es ∧ length es = Z.to_nat LEN ∧
        (∀ x, x ∈ fs ↔ x = p ∨ ∃ i, x ∈ kids i) ∧
        (∀ i, p ∉ kids i) ∧
        (∀ i j, i ≠ j → kids i ## kids j) ∧
        (∀ i, match es !! i with
              | Some e => if is_link l e then tree l' m (paddr (config_at l e)) (kids i)
                          else kids i = ∅
              | None => kids i = ∅
              end)
  end.

(** The parts of a tree at its root. *)
Definition node l m (p : Z) fs (es : list P) (kids : nat → gset Z) : Prop :=
  m !! p = Some es ∧ length es = Z.to_nat LEN ∧
  (∀ x, x ∈ fs ↔ x = p ∨ ∃ i, x ∈ kids i) ∧
  (∀ i, p ∉ kids i) ∧
  (∀ i j, i ≠ j → kids i ## kids j) ∧
  (∀ i, match es !! i with
        | Some e => if is_link l e then tree (l - 1) m (paddr (config_at l e)) (kids i)
                    else kids i = ∅
        | None => kids i = ∅
        end).

Lemma tree_node l m p fs : tree l m p fs ↔ (l ≠ 0)%nat ∧ ∃ es kids, node l m p fs es kids.
Proof.
  destruct l as [|l]; simpl; [naive_solver|]. unfold node.
  replace (S l - 1)%nat with l by lia. naive_solver.
Qed.

Lemma is_link_spec l e : is_link l e = true ↔
  (1 < l)%nat ∧ valid (config_at l e) = true ∧ huge (config_at l e) = false.
Proof. unfold is_link. rewrite !andb_true_iff, negb_true_iff, Nat.ltb_lt. naive_solver. Qed.

(** The frame rule. *)
Lemma tree_frame l m m' p fs :
  tree l m p fs → (∀ q, q ∈ fs → m' !! q = m !! q) → tree l m' p fs.
Proof.
  revert p fs. induction l as [|l IH]; [done|]. intros p fs.
  intros (es & kids & Hp & Hlen & Hfs & Hnp & Hdis & Hk) Hag.
  exists es, kids. split_and!; try done.
  - rewrite Hag; [done|]. apply Hfs. by left.
  - intros i. specialize (Hk i). destruct (es !! i) as [e|]; [|done].
    destruct (is_link (S l) e); [|done]. apply IH; [done|].
    intros q Hq. apply Hag, Hfs. eauto.
Qed.

Lemma tree_root l m p fs : tree l m p fs → p ∈ fs.
Proof. intros (? & es & kids & _ & _ & Hfs & _)%tree_node. apply Hfs. by left. Qed.

(** One step of translation, at an entry. *)
Lemma translate_at l m p v es e :
  level_ok l → m !! p = Some es → es !! Z.to_nat (index v l) = Some e →
  translate_recursive_with_level m p v l =
    if negb (valid (config_at l e)) then Err NotMapped
    else if huge (config_at l e) || (l =? 1)%nat then Ok (e, l)
    else translate_recursive_with_level m (paddr (config_at l e)) v (l - 1).
Proof.
  intros Hl Hp He. pose proof Hl as [H1 _]. destruct l as [|l]; [lia|]. simpl translate_recursive_with_level.
  unfold config_at. rewrite virt_to_index_eq by done. simpl.
  unfold entry_at. rewrite Hp. simpl. rewrite He. simpl.
  destruct (valid _); [|done]. destruct (huge _); [done|]. simpl.
  destruct (Nat.eqb_spec l 0) as [->|]; [done|].
  rewrite (proj2 (Nat.ltb_lt 1 (S l))) by lia. by rewrite Nat.sub_0_r.
Qed.

Lemma node_entry l m p fs es kids v :
  level_ok l → node l m p fs es kids → ∃ e, es !! Z.to_nat (index v l) = Some e.
Proof.
  intros Hl (_ & Hlen & _). apply lookup_lt_is_Some_2. rewrite Hlen.
  pose proof (index_range v l Hl). lia.
Qed.

Lemma level_ok_pred l : level_ok l → (1 < l)%nat → level_ok (l - 1).
Proof. unfold level_ok. lia. Qed.

(** Translation reads the frames of the tree only. *)
Lemma translate_frame l m m' p fs v :
  level_ok l → tree l m p fs → (∀ q, q ∈ fs → m' !! q = m !! q) →
  translate_recursive_with_level m' p v l = translate_recursive_with_level m p v l.
Proof.
  revert p fs. induction l as [|l IH]; [done|]. intros p fs Hl Ht Hag.
  pose proof Ht as (_ & es & kids & Hn)%tree_node.
  destruct (node_entry _ _ _ _ _ _ v Hl Hn) as [e He].
  destruct Hn as (Hp & _ & Hfs & _ & _ & Hk).
  rewrite (translate_at (S l) m p v es e), (translate_at (S l) m' p v es e); try done.
  2:{ rewrite Hag; [done|]. apply Hfs. by left. }
  destruct (valid (config_at (S l) e)) eqn:Ev; [|done].
  destruct (huge (config_at (S l) e)) eqn:Eh; [done|]. simpl.
  destruct (Nat.eqb_spec l 0) as [->|]; [done|]. rewrite Nat.sub_0_r.
  specialize (Hk (Z.to_nat (index v (S l)))). rewrite He in Hk.
  assert (is_link (S l) e = true) as El by (apply is_link_spec; split_and!; [lia|done|done]).
  rewrite El in Hk. replace (S l - 1)%nat with l in Hk by lia.
  apply IH with (kids (Z.to_nat (index v (S l)))); [unfold level_ok in *; lia|done|].
  intros q Hq. apply Hag, Hfs. eauto.
Qed.

(** Translation in a tree gives a final entry or [NotMapped]. *)
Lemma translate_total l m p fs v :
  level_ok l → tree l m p fs →
  translate_recursive_with_level m p v l = Err NotMapped ∨
  ∃ e l', translate_recursive_with_level m p v l = Ok (e, l') ∧ level_ok l' ∧ (l' ≤ l)%nat ∧
    valid (config_at l' e) = true ∧ (huge (config_at l' e) = true ∨ l' = 1%nat).
Proof.
  revert p fs. induction l as [|l IH]; [done|]. intros p fs Hl Ht.
  pose proof Ht as (_ & es & kids & Hn)%tree_node.
  destruct (node_entry _ _ _ _ _ _ v Hl Hn) as [e He].
  destruct Hn as (Hp & _ & Hfs & _ & _ & Hk).
  rewrite (translate_at (S l) m p v es e) by done.
  destruct (valid (config_at (S l) e)) eqn:Ev; [|by left]. simpl.
  destruct (huge (config_at (S l) e)) eqn:Eh; simpl; [right; exists e, (S l); naive_solver|].
  destruct (Nat.eqb_spec l 0) as [->|]; [right; exists e, 1%nat; naive_solver|].
  rewrite Nat.sub_0_r. specialize (Hk (Z.to_nat (index v (S l)))). rewrite He in Hk.
  assert (is_link (S l) e = true) as El by (apply is_link_spec; split_and!; [lia|done|done]).
  rewrite El in Hk. replace (S l - 1)%nat with l in Hk by lia.
  destruct (IH (paddr (config_at (S l) e)) (kids (Z.to_nat (index v (S l)))))
    as [Hr|(e' & l' & Hr & ? & ? & ?)]; [unfold level_ok in *; lia|done|by left|].
  right. exists e', l'. rewrite Hr. split_and!; naive_solver lia.
Qed.

(** Replacing entry [i] of the root: [k'] are the frames below the new entry. *)
Lemma tree_update l m m' p fs es kids i e' k' :
  level_ok l → node l m p fs es kids → (i < Z.to_nat LEN)%nat →
  m' !! p = Some (<[i := e']> es) →
  (if is_link l e' then tree (l - 1) m' (paddr (config_at l e')) k' else k' = ∅) →
  (∀ q, q ∈ fs → q ≠ p → q ∉ kids i → m' !! q = m !! q) →
  (∀ q, q ∈ k' → q ∈ fs → q ∈ kids i) →
  tree l m' p (fs ∖ kids i ∪ k').
Proof.
  intros Hl (Hp & Hlen & Hfs & Hnp & Hdis & Hk) Hi Hp' Hnew Hag Hfresh.
  apply tree_node. split; [unfold level_ok in Hl; lia|].
  exists (<[i := e']> es), (λ j, if decide (j = i) then k' else kids j).
  assert (Hpf : p ∈ fs) by (apply Hfs; by left).
  assert (Hpk : p ∉ k') by (intros Hpk; by apply (Hnp i), Hfresh).
  assert (Hold : ∀ j q, j ≠ i → q ∈ kids j → q ∈ fs ∧ q ≠ p ∧ q ∉ kids i).
  { intros j q Hj Hq. split_and!; [apply Hfs; eauto|intros ->; by apply (Hnp j)|].
    intros Hqi. by apply (Hdis j i Hj q). }
  split_and!.
  - done.
  - by rewrite length_insert.
  - intros x. rewrite elem_of_union, elem_of_difference, Hfs. split.
    + intros [[[->|[j Hj]] Hni]|Hx]; [by left|right|right].
      * exists j. destruct (decide (j = i)) as [->|]; [done|done].
      * exists i. by rewrite decide_True.
    + intros [->|[j Hj]]; [left; naive_solver|].
      destruct (decide (j = i)); [by right|left]. destruct (Hold j x) as (? & ? & ?); try done. naive_solver.
  - intros j. destruct (decide (j = i)); [done|apply Hnp].
  - intros j1 j2 Hj x. destruct (decide (j1 = i)), (decide (j2 = i)); subst; try done.
    + intros Hx Hx2. destruct (Hold j2 x) as (? & ? & []); naive_solver.
    + intros Hx Hx2. destruct (Hold j1 x) as (? & ? & []); naive_solver.
    + apply Hdis; done.
  - intros j. destruct (decide (j = i)) as [->|Hj].
    + rewrite list_lookup_insert_eq by lia. done.
    + rewrite list_lookup_insert_ne by done. specialize (Hk j).
      destruct (es !! j) as [e|]; [|done]. destruct (is_link l e); [|done].
      apply (tree_frame _ m); [done|]. intros q Hq.
      destruct (Hold j q) as (? & ? & ?); [done..|]. by apply Hag.
Qed.

(** ... and addresses with another index translate as before. *)
Lemma translate_other l m m' p fs es kids i e' v :
  level_ok l → node l m p fs es kids →
  m' !! p = Some (<[i := e']> es) →
  (∀ q, q ∈ fs → q ≠ p → q ∉ kids i → m' !! q = m !! q) →
  Z.to_nat (index v l) ≠ i →
  translate_recursive_with_level m' p v l = translate_recursive_with_level m p v l.
Proof.
  intros Hl Hn Hp' Hag Hv. destruct (node_entry _ _ _ _ _ _ v Hl Hn) as [e He].
  destruct Hn as (Hp & Hlen & Hfs & Hnp & Hdis & Hk).
  rewrite (translate_at l m p v es e), (translate_at l m' p v (<[i := e']> es) e); try done.
  2:{ by rewrite list_lookup_insert_ne. }
  destruct (valid (config_at l e)) eqn:Ev; [|done]. simpl.
  destruct (huge (config_at l e)) eqn:Eh; [done|]. simpl.
  destruct (Nat.eqb_spec l 1); [done|].
  specialize (Hk (Z.to_nat (index v l))). rewrite He in Hk.
  assert ((1 < l)%nat) by (unfold level_ok in Hl; lia).
  assert (is_link l e = true) as El by (by apply is_link_spec).
  rewrite El in Hk. eapply translate_frame; [by apply level_ok_pred|done|].
  intros q Hq. apply Hag.
  - apply Hfs. eauto.
  - intros ->. by eapply Hnp.
  - intros Hqi. by apply (Hdis _ _ Hv q).
Qed.

End Tree.
