(* ===== verification/PtMapProof.v ===== *)
(** * Page tables: correctness of [map]

    [map_range_recursive] keeps the tree invariant, allocates only frames that
    were not in use, never gets stuck, changes the translation of no address
    outside the range and, when it returns [Ok], makes every address of the
    range translate to its offset in the physical range with the template's
    attributes. The proof is one lemma per branch of the loop body, the loop
    by induction on its fuel, the recursion by induction on the level. *)

From stdpp Require Import base list numbers strings gmap.
From S2P Require Import Prelude PtDef PtFrame PtMap PtGeom PtTree.
Open Scope Z_scope.

Section MapProof.
Context {P A : Type} `{PTE : PageTableEntry P} `{TM : TableMeta} {TMO : TableMetaOk}
  `{FA : FrameAllocator A}.
Context (pa_ok : Z → Prop) (tmpl_ok : PteConfig → Prop) (live : A → Z → Prop)
  (aok : A → Prop).
Context {PL : PageTableEntryLaws P pa_ok tmpl_ok} {FL : FrameAllocatorLaws A pa_ok live aok}.

Implicit Types (s : St P A) (fs k : gset Z) (l : nat) (e : P) (cfg : MapRecursiveConfig).

Notation xl s p x l := (translate_recursive_with_level (mem s) p x l).

(** The allocator is in a good state and counts the frames of [fs] as in use. *)
Definition owned s fs : Prop := aok (astate s) ∧ ∀ q, q ∈ fs → live (astate s) q.

(** The state moved on and the set of table frames grew by fresh ones. *)
Record grows s s' fs fs' : Prop := {
  gr_sub : fs ⊆ fs';
  gr_owned : owned s' fs';
  gr_live q : live (astate s) q → live (astate s') q;
  gr_mem q : q ∉ fs' → mem s' !! q = mem s !! q;
  gr_fresh q : q ∈ fs' → q ∉ fs → ¬ live (astate s) q
}.

Lemma grows_refl s fs : owned s fs → grows s s fs fs.
Proof. by split. Qed.

Lemma grows_trans s1 s2 s3 fs1 fs2 fs3 :
  grows s1 s2 fs1 fs2 → grows s2 s3 fs2 fs3 → grows s1 s3 fs1 fs3.
Proof.
  intros G1 G2. split.
  - etransitivity; [apply (gr_sub _ _ _ _ G1)|apply (gr_sub _ _ _ _ G2)].
  - apply (gr_owned _ _ _ _ G2).
  - intros q Hq. by apply (gr_live _ _ _ _ G2), (gr_live _ _ _ _ G1).
  - intros q Hq. rewrite (gr_mem _ _ _ _ G2) by done. apply (gr_mem _ _ _ _ G1).
    intros ?. by apply Hq, (gr_sub _ _ _ _ G2).
  - intros q Hq Hn Hl. destruct (decide (q ∈ fs2)).
    + by apply (gr_fresh _ _ _ _ G1 q).
    + apply (gr_fresh _ _ _ _ G2 q); [done..|]. by apply (gr_live _ _ _ _ G1).
Qed.

(** The entry [map] writes for a block of level [l]. *)
Definition final_entry (tmpl : PteConfig) (base : Z) l : P :=
  from_config (pte_target tmpl base (1 <? l)%nat (1 <? l)%nat).

(** Address [x] is mapped to [y] by a block written by [map] that lies inside
    [lo, hi). *)
Definition mapped_as l (m : gmap Z (list P)) (p : Z) (tmpl : PteConfig) (lo hi x y : Z) : Prop :=
  ∃ l' base, translate_recursive_with_level m p x l = Ok (final_entry tmpl base l', l') ∧
    level_ok l' ∧ pa_ok base ∧ ((1 < l')%nat → tmpl_ok tmpl) ∧
    y = base + x mod level_size l' ∧
    lo ≤ x - x mod level_size l' ∧ x - x mod level_size l' + level_size l' ≤ hi.

Lemma mapped_as_wide l m p tmpl lo hi lo' hi' x y :
  mapped_as l m p tmpl lo hi x y → lo' ≤ lo → hi ≤ hi' → mapped_as l m p tmpl lo' hi' x y.
Proof. intros (l' & base & ? & ? & ? & ? & ? & ? & ?) ? ?. exists l', base. split_and!; try done; lia. Qed.

Lemma mapped_as_eq l m m' p p' l1 tmpl lo hi x y :
  translate_recursive_with_level m' p' x l1 = translate_recursive_with_level m p x l →
  mapped_as l m p tmpl lo hi x y → mapped_as l1 m' p' tmpl lo hi x y.
Proof. intros E (l' & base & Hx & ?). exists l', base. by rewrite E. Qed.

Lemma final_entry_config tmpl base l :
  pa_ok base → ((1 < l)%nat → tmpl_ok tmpl) → (1 ≤ l)%nat →
  let g := config_at l (final_entry tmpl base l) in
  valid g = true ∧ huge g = (1 <? l)%nat ∧ paddr g = base.
Proof.
  intros Hb Ht Hl. unfold config_at, final_entry. destruct (Nat.ltb_spec 1 l).
  - apply pte_huge_page; auto.
  - by apply pte_leaf_page.
Qed.

Definition range_ok l (v e : Z) : Prop :=
  (PAGE_SIZE | v) ∧ (PAGE_SIZE | e) ∧ 0 ≤ v ≤ e ∧ e < 2 ^ 64 ∧
  (v < e → v / table_size l = (e - 1) / table_size l).

Definition pa_range_ok (pa len : Z) : Prop :=
  (PAGE_SIZE | pa) ∧ 0 ≤ pa ∧ pa + len < 2 ^ 64 ∧
  (∀ y, pa ≤ y < pa + len → (PAGE_SIZE | y) → pa_ok y).

Definition map_pre l (p : Z) cfg (v pa : Z) s fs : Prop :=
  tree l (mem s) p fs ∧ owned s fs ∧ range_ok l v (rc_end_vaddr cfg) ∧
  pa_range_ok pa (rc_end_vaddr cfg - v) ∧
  (rc_allow_huge cfg = true → tmpl_ok (rc_pte_template cfg)).

Definition same_outside l (p : Z) (v e : Z) s s' : Prop :=
  ∀ x, x / table_size l = v / table_size l → ¬ (v ≤ x < e) → xl s' p x l = xl s p x l.

(** Why [map] may fail on [v, e): no frame was left, an address of the range
    was mapped, or a block was wanted where a table is linked. *)
Definition fails_because l (p : Z) cfg (v e : Z) s (err : PagingError) : Prop :=
  err = NoMemory ∨ rc_allow_huge cfg = true ∨
  ∃ x, v ≤ x < e ∧ xl s p x l ≠ Err NotMapped.

Definition map_post l (p : Z) cfg (v pa : Z) s fs (r : St P A * outcome PagingError unit) : Prop :=
  ∃ fs', grows s r.1 fs fs' ∧ tree l (mem r.1) p fs' ∧
    same_outside l p v (rc_end_vaddr cfg) s r.1 ∧
    match r.2 with
    | Ok _ => ∀ x, v ≤ x < rc_end_vaddr cfg →
        mapped_as l (mem r.1) p (rc_pte_template cfg) v (rc_end_vaddr cfg) x (pa + (x - v)) ∧
        xl s p x l = Err NotMapped
    | Err err => fails_because l p cfg v (rc_end_vaddr cfg) s err
    | Stuck => False
    end.

Definition step_post l (p : Z) cfg (v pa : Z) s fs (r : St P A * outcome PagingError (Z * Z)) : Prop :=
  ∃ fs', grows s r.1 fs fs' ∧ tree l (mem r.1) p fs' ∧
    match r.2 with
    | Ok (v', pa') =>
        v < v' ≤ rc_end_vaddr cfg ∧ pa' = pa + (v' - v) ∧ (PAGE_SIZE | v') ∧
        (v' = rc_end_vaddr cfg ∨ v / level_size l + 1 ≤ v' / level_size l) ∧
        same_outside l p v v' s r.1 ∧
        (∀ x, v ≤ x < v' →
          mapped_as l (mem r.1) p (rc_pte_template cfg) v v' x (pa + (x - v)) ∧
          xl s p x l = Err NotMapped)
    | Err err => same_outside l p v (rc_end_vaddr cfg) s r.1 ∧
        fails_because l p cfg v (rc_end_vaddr cfg) s err
    | Stuck => False
    end.

(** ** A final mapping *)

(** Writing a final entry over an invalid one. *)
Lemma write_final l s p fs es kids tmpl v base e0 tl :
  level_ok l → node l (mem s) p fs es kids → owned s fs →
  (level_size l | v) → pa_ok base → ((1 < l)%nat → tmpl_ok tmpl) →
  es !! Z.to_nat (index v l) = Some e0 → valid (config_at l e0) = false →
  let s' := mk_St (<[p := <[Z.to_nat (index v l) := final_entry tmpl base l]> es]> (mem s))
              (astate s) tl in
  grows s s' fs fs ∧ tree l (mem s') p fs ∧
  same_outside l p v (v + level_size l) s s' ∧
  ∀ x, v ≤ x < v + level_size l →
    mapped_as l (mem s') p tmpl v (v + level_size l) x (base + (x - v)) ∧
    xl s p x l = Err NotMapped.
Proof.
  intros Hl Hn Ho Hv Hb Ht He0 Hv0 s'. pose proof (index_range v l Hl) as Hi.
  pose proof (level_size_pos l Hl) as Hls. pose proof Hn as (Hp & Hlen & Hfs & Hnp & _ & Hk).
  destruct (final_entry_config tmpl base l Hb Ht (proj1 Hl)) as (Hfv & Hfh & Hfp).
  assert (Hpf : p ∈ fs) by (apply Hfs; by left).
  assert (Hki : kids (Z.to_nat (index v l)) = ∅).
  { specialize (Hk (Z.to_nat (index v l))). rewrite He0 in Hk. unfold is_link in Hk.
    by rewrite Hv0, andb_false_r in Hk. }
  assert (Hnl : is_link l (final_entry tmpl base l) = false).
  { unfold is_link. rewrite Hfh. destruct (1 <? l)%nat; [by rewrite andb_false_r|done]. }
  assert (Hpe : mem s' !! p = Some (<[Z.to_nat (index v l) := final_entry tmpl base l]> es))
    by apply lookup_insert_eq.
  assert (Hag : ∀ q, q ≠ p → mem s' !! q = mem s !! q) by (intros; by apply lookup_insert_ne).
  split_and!.
  - split; try done. intros q Hq. apply Hag. naive_solver.
  - replace fs with (fs ∖ kids (Z.to_nat (index v l)) ∪ ∅) by (rewrite Hki; set_solver).
    eapply (tree_update l (mem s)); eauto; [lia|by rewrite Hnl|].
    intros q Hq. by apply not_elem_of_empty in Hq.
  - intros x Hx Hnr. eapply translate_other; eauto. intros E.
    apply Hnr. apply Z2Nat.inj in E; [|pose proof (index_range x l Hl); lia|lia].
    apply index_eq in E; [|done|done]. apply div_eq_range in E; [|done].
    rewrite divide_div_mul in E by done. lia.
  - intros x Hx. assert (Hd : x / level_size l = v / level_size l)
      by (apply div_eq_range; [done|]; rewrite divide_div_mul by done; lia).
    assert (Hm : x = level_size l * (x / level_size l) + x mod level_size l) by (apply Z.div_mod; lia).
    rewrite Hd, divide_div_mul in Hm by done.
    assert (Hix : index x l = index v l) by (apply index_eq; [done|by apply table_block|done]).
    split; [|rewrite (translate_at l _ p x es e0); [by rewrite Hv0|done|done|by rewrite Hix]].
    exists l, base. split_and!; try done.
    + rewrite (translate_at l _ p x (<[Z.to_nat (index v l) := final_entry tmpl base l]> es)
        (final_entry tmpl base l)); [|done|done|].
      * rewrite Hfv, Hfh. simpl. destruct (Nat.ltb_spec 1 l); [done|].
        destruct Hl. by rewrite (proj2 (Nat.eqb_eq l 1)) by lia.
      * rewrite Hix. apply list_lookup_insert_eq; lia.
    + lia.
    + lia.
    + lia.
Qed.

Lemma flush_if_run b v s :
  ∃ tl, flush_if (P:=P) (A:=A) b v s = (mk_St (mem s) (astate s) tl, Ok tt).
Proof. destruct b; [by eexists|]. exists (tlb s). by destruct s. Qed.

(** [map_final] on an aligned block, followed by the two address updates. *)
Lemma map_final_step l s p fs cfg v pa :
  level_ok l → map_pre l p cfg v pa s fs → v + level_size l ≤ rc_end_vaddr cfg →
  (level_size l | v) → ((1 < l)%nat → rc_allow_huge cfg = true) →
  step_post l p cfg v pa s fs
    ((_ ← map_final cfg p (index v l) v pa (1 <? l)%nat (1 <? l)%nat;
      v' ← lift (uadd 64 v (level_size l)); pa' ← lift (uadd 64 pa (level_size l));
      mret (v', pa')) s).
Proof.
  intros Hl (Ht & Ho & (Hdv & Hde & [Hv0 Hve] & He & Hw) & (Hdp & Hp0 & Hpe & Hpok) & Htm) Hle Hal Hh.
  pose proof (level_size_pos l Hl) as Hls. pose proof (page_divides_level l Hl) as Hpl.
  pose proof Ht as (_ & es & kids & Hn)%tree_node.
  destruct (node_entry _ _ _ _ _ _ v Hl Hn) as [e0 He0]. pose proof Hn as (Hp & Hlen & _).
  unfold mbind, M_bind, map_final, mbind, M_bind, read_entry, entry_at. rewrite Hp. simpl. rewrite He0. simpl.
  rewrite (pte_valid_spec e0 (1 <? l)%nat). fold (config_at l e0).
  destruct (valid (config_at l e0)) eqn:Hv'.
  { unfold fail. simpl. exists fs. simpl. split_and!; [by apply grows_refl|done|done|].
    destruct (decide (l = 1%nat)) as [->|]; [right; right|right; left; apply Hh; unfold level_ok in Hl; lia].
    exists v. split; [lia|]. rewrite (translate_at 1 (mem s) p v es e0) by done.
    rewrite Hv', orb_true_r. done. }
  unfold write_entry. rewrite Hp. rewrite (proj2 (Nat.ltb_lt _ _)).
  2:{ rewrite Hlen. pose proof (index_range v l Hl). lia. }
  simpl. edestruct flush_if_run as [tl ->]. simpl.
  unfold lift. rewrite !uadd_ok by lia. simpl.
  destruct (write_final l s p fs es kids (rc_pte_template cfg) v pa e0 tl) as (G & Ht' & Hso & Hm); try done.
  { apply Hpok; [lia|done]. } { intros. auto. }
  exists fs. split; [done|]. split; [done|]. split_and!; try done; try lia.
  - by apply Z.divide_add_r.
  - right. replace (v + level_size l) with (v + 1 * level_size l) by lia. rewrite Z.div_add by lia. lia.
Qed.

(** ** The child table *)

Lemma entry_zero_translate l s p v es :
  level_ok l → mem s !! p = Some es → es = replicate (Z.to_nat LEN) pte_zero →
  xl s p v l = Err NotMapped.
Proof.
  intros Hl Hp ->. rewrite (translate_at l (mem s) p v (replicate (Z.to_nat LEN) pte_zero) pte_zero); [|done|done|].
  - unfold config_at. rewrite <- pte_valid_spec. by rewrite pte_zero_valid.
  - apply lookup_replicate. split; [done|]. pose proof (index_range v l Hl). lia.
Qed.

Lemma tree_zero l m p :
  level_ok l → m !! p = Some (replicate (Z.to_nat LEN) pte_zero) → tree l m p {[p]}.
Proof.
  intros [Hl _] Hp. apply tree_node. split; [lia|].
  exists (replicate (Z.to_nat LEN) pte_zero), (λ _, ∅). split_and!; try done.
  - by rewrite length_replicate.
  - intros x. rewrite elem_of_singleton. split; [by left|]. intros [|[? []%not_elem_of_empty]]. done.
  - intros i. destruct (replicate _ _ !! i) as [e|] eqn:E; [|done].
    apply lookup_replicate in E as [-> _]. unfold is_link, config_at.
    by rewrite <- pte_valid_spec, pte_zero_valid, andb_false_r.
Qed.

(** What [child_table] returns: a linked child of a tree that translates as
    before, or an error with the tables unchanged. *)
Definition child_post l (p i : Z) s fs (r : St P A * outcome PagingError Z) : Prop :=
  match r.2 with
  | Ok c => ∃ fs1 es1 kids1 e1, grows s r.1 fs fs1 ∧ node l (mem r.1) p fs1 es1 kids1 ∧
      es1 !! Z.to_nat i = Some e1 ∧ is_link l e1 = true ∧ paddr (config_at l e1) = c ∧
      (∀ x, xl r.1 p x l = xl s p x l)
  | Err err => grows s r.1 fs fs ∧ mem r.1 = mem s ∧
      (err = NoMemory ∨ ∀ x, index x l = i → xl s p x l ≠ Err NotMapped)
  | Stuck => False
  end.

Lemma child_table_new l s p fs es kids v cfg e0 :
  level_ok l → (1 < l)%nat → node l (mem s) p fs es kids → owned s fs →
  es !! Z.to_nat (index v l) = Some e0 → valid (config_at l e0) = false →
  child_post l p (index v l) s fs
    ((new_paddr ← new_frame;
      _ ← write_entry p (index v l)
            (from_config (pte_target (rc_pte_template cfg) new_paddr false true));
      mret new_paddr) s).
Proof.
  intros Hl Hl1 Hn [Hok Ho] He0 Hv0. pose proof Hn as (Hp & Hlen & Hfs & Hnp & Hdis & Hk).
  pose proof (index_range v l Hl) as Hi. set (i := Z.to_nat (index v l)) in *.
  unfold mbind, M_bind, new_frame. destruct (alloc_frame (astate s)) as [a' [c|]] eqn:Ea; simpl.
  2:{ split; [|split; [done|by left]]. split; try done; [split; [by eapply alloc_ok|intros q Hq]|intros q]; eapply alloc_keeps; eauto. }
  destruct (alloc_fresh _ _ _ Hok Ea) as (Hnl & Hlc & Hcok).
  assert (Hcf : c ∉ fs) by (intros Hc; by apply Hnl, Ho).
  assert (Hpf : p ∈ fs) by (apply Hfs; by left). assert (Hcp : c ≠ p) by naive_solver.
  unfold write_entry. simpl. rewrite lookup_insert_ne, Hp by done. fold i.
  rewrite (proj2 (Nat.ltb_lt _ _)) by lia. simpl.
  set (e1 := from_config _). set (z := replicate _ _). set (m1 := <[p := _]> _).
  destruct (pte_table_link (rc_pte_template cfg) c Hcok) as (Hev & Heh & Hepa). fold e1 in Hev, Heh, Hepa.
  assert (Hd : config_at l e1 = to_config e1 true)
    by (unfold config_at; by rewrite (proj2 (Nat.ltb_lt 1 l))).
  assert (Hlink : is_link l e1 = true) by (apply is_link_spec; by rewrite Hd).
  assert (Hki : kids i = ∅).
  { specialize (Hk i). rewrite He0 in Hk. unfold is_link in Hk. by rewrite Hv0, andb_false_r in Hk. }
  assert (Hmp : m1 !! p = Some (<[i := e1]> es)) by apply lookup_insert_eq.
  assert (Hmc : m1 !! c = Some z) by (unfold m1; rewrite lookup_insert_ne by done; apply lookup_insert_eq).
  assert (Hag : ∀ q, q ≠ p → q ≠ c → m1 !! q = mem s !! q)
    by (intros; unfold m1; by rewrite !lookup_insert_ne by done).
  assert (Ht1 : tree l m1 p (fs ∖ kids i ∪ {[c]})).
  { eapply (tree_update l (mem s)); eauto; [lia| | |].
    - rewrite Hlink, Hd, Hepa. apply tree_zero; [by apply level_ok_pred|done].
    - intros q Hq ? ?. apply Hag; [done|]. naive_solver.
    - intros q Hq%elem_of_singleton Hq2. naive_solver. }
  rewrite Hki, difference_empty_L in Ht1.
  pose proof Ht1 as (_ & es1 & kids1 & Hn1)%tree_node.
  assert (es1 = <[i := e1]> es) as -> by (destruct Hn1; congruence).
  exists (fs ∪ {[c]}), (<[i := e1]> es), kids1, e1. split_and!; try done.
  - split; simpl.
    + set_solver.
    + split; [by eapply alloc_ok|]. intros q [Hq|Hq%elem_of_singleton]%elem_of_union; [eapply alloc_keeps; eauto|]. by rewrite Hq.
    + intros q. eapply alloc_keeps; eauto.
    + intros q Hq. apply Hag; set_solver.
    + intros q Hq Hnq. by assert (q = c) as -> by set_solver.
  - apply list_lookup_insert_eq. lia.
  - by rewrite Hd.
  - intros x. simpl. destruct (decide (Z.to_nat (index x l) = i)) as [Ex|].
    + rewrite (translate_at l m1 p x (<[i := e1]> es) e1); [|done|done|rewrite Ex; apply list_lookup_insert_eq; lia].
      rewrite (translate_at l (mem s) p x es e0); [|done|done|by rewrite Ex].
      rewrite Hv0, Hd, Hev, Heh, Hepa. simpl. rewrite (proj2 (Nat.eqb_neq l 1)) by lia.
      apply (entry_zero_translate (l - 1) (mk_St m1 a' []) c x z); [by apply level_ok_pred|done|done].
    + eapply translate_other; eauto. intros q Hq ? ?. apply Hag; naive_solver.
Qed.

Lemma child_table_spec l s p fs v cfg :
  level_ok l → (1 < l)%nat → tree l (mem s) p fs → owned s fs →
  child_post l p (index v l) s fs (child_table cfg p (index v l) s).
Proof.
  intros Hl Hl1 Ht Ho. pose proof Ht as (_ & es & kids & Hn)%tree_node.
  destruct (node_entry _ _ _ _ _ _ v Hl Hn) as [e0 He0]. pose proof Hn as (Hp & _).
  unfold child_table. unfold mbind at 1, M_bind at 1, read_entry, entry_at. rewrite Hp. simpl.
  rewrite He0. simpl.
  assert (Hd : to_config e0 true = config_at l e0)
    by (unfold config_at; by rewrite (proj2 (Nat.ltb_lt 1 l))). rewrite Hd.
  destruct (valid (config_at l e0)) eqn:Hv; [|by eapply child_table_new].
  destruct (huge (config_at l e0)) eqn:Hh; unfold child_post; simpl.
  { split; [by apply grows_refl|split; [done|right]]. intros x Hx.
    rewrite (translate_at l (mem s) p x es e0); [by rewrite Hv, Hh|done|done|by rewrite Hx]. }
  exists fs, es, kids, e0. split_and!; first [done | by apply grows_refl | by apply is_link_spec].
Qed.

(** Working below a linked child. *)
Lemma child_lift l s s2 p fs es kids i e1 k' :
  level_ok l → node l (mem s) p fs es kids → owned s fs →
  es !! i = Some e1 → is_link l e1 = true →
  grows s s2 (kids i) k' → tree (l - 1) (mem s2) (paddr (config_at l e1)) k' →
  grows s s2 fs (fs ∖ kids i ∪ k') ∧ tree l (mem s2) p (fs ∖ kids i ∪ k') ∧
  ∀ x, xl s2 p x l =
    if decide (Z.to_nat (index x l) = i) then xl s2 (paddr (config_at l e1)) x (l - 1)
    else xl s p x l.
Proof.
  intros Hl Hn [Hok Ho] He1 Hlk G Htk. pose proof Hn as (Hp & Hlen & Hfs & Hnp & Hdis & Hk).
  assert (Hnew : ∀ q, q ∈ k' → q ∈ fs → q ∈ kids i).
  { intros q Hq Hf. destruct (decide (q ∈ kids i)); [done|].
    exfalso. by apply (gr_fresh _ _ _ _ G q), Ho. }
  assert (Hpk : p ∉ k') by (intros Hpk; apply (Hnp i), Hnew, Hfs; [done|by left]).
  assert (Hag : ∀ q, q ∈ fs → q ∉ kids i → mem s2 !! q = mem s !! q).
  { intros q Hq Hn'. apply (gr_mem _ _ _ _ G). naive_solver. }
  assert (Hpe : mem s2 !! p = Some (<[i := e1]> es)).
  { rewrite list_insert_id by done. rewrite Hag; [done|apply Hfs; by left|apply Hnp]. }
  split_and!.
  - pose proof (gr_sub _ _ _ _ G) as Hsub. split.
    + intros q Hq. destruct (decide (q ∈ kids i)); set_solver.
    + split; [apply (gr_owned _ _ _ _ G)|].
      intros q [Hq|Hq]%elem_of_union; [|by apply (gr_owned _ _ _ _ G)].
      apply (gr_live _ _ _ _ G), Ho. set_solver.
    + apply (gr_live _ _ _ _ G).
    + intros q Hq. apply (gr_mem _ _ _ _ G). set_solver.
    + intros q [Hq|Hq]%elem_of_union Hn'; [set_solver|].
      apply (gr_fresh _ _ _ _ G); [done|]. intros Hki. apply Hn', Hfs. eauto.
  - eapply (tree_update l (mem s)); eauto; [rewrite <- Hlen; by eapply lookup_lt_Some|].
    by rewrite Hlk.
  - intros x. case_decide as Ex.
    + apply is_link_spec in Hlk as (Hl1 & Hv & Hh).
      rewrite (translate_at l (mem s2) p x (<[i := e1]> es) e1); [|done|done|].
      * rewrite Hv, Hh. simpl. by rewrite (proj2 (Nat.eqb_neq l 1)) by lia.
      * rewrite Ex. apply list_lookup_insert_eq. by eapply lookup_lt_Some.
    + eapply translate_other; eauto.
Qed.

(** ** One turn, the loop, the recursion *)

Lemma entry_end l (v e : Z) : level_ok l → 0 ≤ v < e → e < 2 ^ 64 →
  Z.min (saturating_mul 64 (saturating_add 64 (v / level_size l) 1) (level_size l)) e =
  Z.min (level_size l * (v / level_size l) + level_size l) e.
Proof.
  intros Hl Hv He. pose proof (level_size_pos l Hl) as Hls.
  pose proof (div_lower v (level_size l) Hls). unfold saturating_mul, saturating_add.
  assert (0 ≤ v / level_size l) by (apply Z.div_pos; lia).
  assert (v / level_size l + 1 ≤ 2 ^ 64 - 1).
  { assert (2 ^ 1 ≤ level_size l)
      by (rewrite level_size_pow by done; apply Z.pow_le_mono_r; pose proof (lshift_pos l Hl); lia).
    nia. }
  rewrite (Z.min_l (v / level_size l + 1)) by lia. nia.
Qed.

Lemma range_ok_tail l (v v' e : Z) : level_ok l → range_ok l v e → v ≤ v' ≤ e → (PAGE_SIZE | v') →
  range_ok l v' e ∧ (v' < e → v' / table_size l = v / table_size l).
Proof.
  intros Hl (Hdv & Hde & Hve & He & Hw) Hv' Hd. pose proof (table_size_pos l Hl).
  assert (v' < e → v' / table_size l = v / table_size l) as Hq.
  { intros. rewrite Hw by lia. pose proof (Z.div_le_mono v v' (table_size l)).
    pose proof (Z.div_le_mono v' (e - 1) (table_size l)). lia. }
  split; [|done]. unfold range_ok. split_and!; first [done|lia].
Qed.

Lemma pa_range_tail pa len d : pa_range_ok pa len → 0 ≤ d ≤ len → (PAGE_SIZE | d) →
  pa_range_ok (pa + d) (len - d).
Proof.
  intros (Hd & Hp & Hle & Hok) Hd' Hdd. split_and!; [by apply Z.divide_add_r|lia..|].
  intros y Hy. apply Hok. lia.
Qed.

(** The branch that goes down to a child table. *)
Lemma map_down_step l s p fs cfg v pa child :
  level_ok l → (1 < l)%nat → map_pre l p cfg v pa s fs → v < rc_end_vaddr cfg →
  (∀ c cfg' v' pa' s' k, map_pre (l - 1) c cfg' v' pa' s' k →
     map_post (l - 1) c cfg' v' pa' s' k (child c cfg' v' pa' s')) →
  let next := Z.min (level_size l * (v / level_size l) + level_size l) (rc_end_vaddr cfg) in
  step_post l p cfg v pa s fs
    ((child_frame ← child_table cfg p (index v l);
      _ ← child child_frame (mk_MapRecursiveConfig next (rc_allow_huge cfg) (rc_flush cfg)
            (rc_pte_template cfg)) v pa;
      pa' ← lift (uadd 64 pa (next - v)); mret (next, pa')) s).
Proof.
  intros Hl Hl1 (Ht & Ho & Hr & Hpr & Htm) Hlt IH next.
  pose proof (level_size_pos l Hl) as Hls. pose proof (div_lower v _ Hls) as Hlo.
  assert (Hl' : level_ok (l - 1)) by (by apply level_ok_pred).
  assert (HT : table_size (l - 1) = level_size l).
  { rewrite <- table_size_S; [by replace (S (l - 1)) with l by lia|done|].
    by replace (S (l - 1)) with l by lia. }
  assert (Hnx : v < next ≤ rc_end_vaddr cfg) by lia.
  assert (Hdn : (PAGE_SIZE | next)).
  { destruct Hr as (_ & ? & _). unfold next. destruct (Z.min_spec (level_size l * (v / level_size l) + level_size l) (rc_end_vaddr cfg)) as [[_ ->]|[_ ->]]; [|done].
    apply Z.divide_add_r; [apply Z.divide_mul_l|]; by apply page_divides_level. }
  assert (Hblk : ∀ x, v ≤ x < next → x / level_size l = v / level_size l)
    by (intros; apply div_eq_range; [done|lia]).
  pose proof (child_table_spec l s p fs v cfg Hl Hl1 Ht Ho) as Hc.
  unfold mbind, M_bind. destruct (child_table cfg p (index v l) s) as [s1 [c|err|]]; [| |done].
  2:{ destruct Hc as (G & Hm & Hwhy). simpl in *. exists fs. simpl. split_and!; [done|by rewrite Hm| |].
      - intros x _ _. simpl. by rewrite Hm.
      - destruct Hwhy as [->|Hwhy]; [by left|right; right]. exists v. split; [lia|]. by apply Hwhy. }
  destruct Hc as (fs1 & es1 & kids1 & e1 & G1 & Hn1 & He1 & Hlk & Hpc & Hsame). simpl in *.
  pose proof (gr_owned _ _ _ _ G1) as Ho1.
  assert (Hk1 : tree (l - 1) (mem s1) c (kids1 (Z.to_nat (index v l)))).
  { destruct Hn1 as (_ & _ & _ & _ & _ & Hk). specialize (Hk (Z.to_nat (index v l))).
    by rewrite He1, Hlk, Hpc in Hk. }
  set (cfg' := mk_MapRecursiveConfig next (rc_allow_huge cfg) (rc_flush cfg) (rc_pte_template cfg)).
  destruct (IH c cfg' v pa s1 (kids1 (Z.to_nat (index v l)))) as (k' & G2 & Ht2 & Hso2 & Hr2).
  { destruct Hr as (? & ? & ? & ? & ?). destruct Hpr as (? & ? & ? & Hpok).
    unfold map_pre, range_ok, pa_range_ok. simpl. rewrite HT. split_and!; try done; try lia.
    - split; [apply Ho1|]. intros q Hq. apply Ho1. destruct Hn1 as (_ & _ & Hfs1 & _). apply Hfs1. eauto.
    - intros _. symmetry. apply Hblk. lia.
    - intros y Hy. apply Hpok. lia. }
  destruct (child c cfg' v pa s1) as [s2 r2]. simpl in *.
  rewrite <- Hpc in Ht2.
  destruct (child_lift l s1 s2 p fs1 es1 kids1 (Z.to_nat (index v l)) e1 k') as (G3 & Ht3 & Hx); try done.
  rewrite Hpc in Hx.
  assert (Hdown : ∀ x, x / level_size l = v / level_size l → xl s p x l = xl s1 c x (l - 1)).
  { intros x Hd. rewrite <- (Hsame x). destruct Hn1 as (Hp1 & _).
    rewrite (translate_at l (mem s1) p x es1 e1); [|done|done|].
    - apply is_link_spec in Hlk as (_ & -> & ->). simpl. rewrite Hpc.
      by rewrite (proj2 (Nat.eqb_neq l 1)) by lia.
    - replace (index x l) with (index v l); [done|]. symmetry.
      apply index_eq; [done|by apply table_block|done]. }
  assert (Hout : same_outside l p v next s s2).
  { intros x Hw Hnr. rewrite Hx. case_decide as Ei; [|by rewrite Hsame].
    apply Z2Nat.inj in Ei; [|apply index_range; done..].
    apply index_eq in Ei; [|done|done]. rewrite Hdown by done.
    apply Hso2; [by rewrite HT|done]. }
  exists (fs1 ∖ kids1 (Z.to_nat (index v l)) ∪ k').
  destruct r2 as [u|err|]; [|simpl; split_and!; [by eapply grows_trans|done| |]|done].
  2:{ intros x Hw Hnr. apply Hout; [done|lia]. }
  2:{ destruct Hr2 as [->|[?|(x & ? & Hxm)]]; [by left|by right; left|right; right].
      exists x. simpl in *. split; [lia|]. rewrite Hdown; [done|by apply Hblk]. }
  destruct Hr as (? & ? & ? & ? & ?). destruct Hpr as (? & ? & ? & _).
  unfold lift. rewrite uadd_ok by lia. simpl.
  split_and!; try done; try lia; [by eapply grows_trans| |].
  - destruct (decide (next = rc_end_vaddr cfg)); [by left|right].
    replace next with (v / level_size l * level_size l + 1 * level_size l) by lia.
    rewrite <- Z.mul_add_distr_r, Z.div_mul by lia. lia.
  - intros x Hx'. split; [|rewrite Hdown by (by apply Hblk); by apply Hr2].
    eapply mapped_as_eq; [|apply Hr2; done]. rewrite Hx. rewrite decide_True; [done|]. f_equal. apply index_eq; [done|apply table_block; [done|]; by apply Hblk|by apply Hblk].
Qed.

Lemma map_step_spec l s p fs cfg v pa child :
  level_ok l → map_pre l p cfg v pa s fs → v < rc_end_vaddr cfg →
  ((1 < l)%nat → ∀ c cfg' v' pa' s' k, map_pre (l - 1) c cfg' v' pa' s' k →
     map_post (l - 1) c cfg' v' pa' s' k (child c cfg' v' pa' s')) →
  step_post l p cfg v pa s fs (map_step child l p cfg v pa s).
Proof.
  intros Hl Hpre Hlt IH. pose proof (level_size_pos l Hl) as Hls. unfold map_step.
  rewrite virt_to_index_eq by done. unfold mbind at 1, M_bind at 1, lift at 1.
  destruct (use_huge cfg l v pa) eqn:Hu.
  - unfold use_huge in Hu. bool_to_prop. pose proof (map_final_step l s p fs cfg v pa Hl Hpre) as Hf.
    replace (1 <? l)%nat with true in Hf. apply Hf; [lia| |done].
    by apply is_multiple_of_spec.
  - destruct (Nat.eqb_spec l 1) as [->|Hne].
    + apply (map_final_step 1 s p fs cfg v pa Hl Hpre); [|by destruct Hpre as (_ & _ & (? & _) & _)|lia].
      destruct Hpre as (_ & _ & (? & ? & ? & _) & _). rewrite level_size_1.
      apply divide_lt_le; first [done|apply PAGE_SIZE_pos].
    + assert ((1 < l)%nat) by (unfold level_ok in Hl; lia). cbv zeta.
      pose proof Hpre as (_ & _ & (_ & _ & Hve & He & _) & _).
      rewrite entry_end by (done || lia). apply map_down_step; auto.
Qed.

(** The addresses of a range are in one window. *)
Lemma range_window l (v e x : Z) : level_ok l → range_ok l v e → v ≤ x < e →
  x / table_size l = v / table_size l.
Proof.
  intros Hl (_ & _ & ? & _ & Hw) Hx. pose proof (table_size_pos l Hl). specialize (Hw ltac:(lia)).
  pose proof (Z.div_le_mono v x (table_size l)). pose proof (Z.div_le_mono x (e - 1) (table_size l)). lia.
Qed.

Lemma map_loop_spec l p cfg child fuel : level_ok l →
  ((1 < l)%nat → ∀ c cfg' v' pa' s' k, map_pre (l - 1) c cfg' v' pa' s' k →
     map_post (l - 1) c cfg' v' pa' s' k (child c cfg' v' pa' s')) →
  ∀ v pa s fs, map_pre l p cfg v pa s fs →
  (v < rc_end_vaddr cfg →
     (rc_end_vaddr cfg - 1) / level_size l - v / level_size l + 1 ≤ Z.of_nat fuel) →
  map_post l p cfg v pa s fs (map_loop child l p cfg fuel v pa s).
Proof.
  intros Hl IH. pose proof (level_size_pos l Hl) as Hls.
  induction fuel as [|fuel IHf]; intros v pa s fs Hpre Hfuel; simpl;
    (destruct (Z.ltb_spec v (rc_end_vaddr cfg)) as [Hlt|Hge];
     [|destruct Hpre as (Ht & Ho & _); exists fs; simpl;
       split_and!; [by apply grows_refl|done|done|intros; exfalso; lia]]).
  - pose proof (Z.div_le_mono v (rc_end_vaddr cfg - 1) (level_size l)). lia.
  - pose proof (map_step_spec l s p fs cfg v pa child Hl Hpre Hlt IH) as (fs1 & G1 & Ht1 & Hs1).
    unfold mbind, M_bind. destruct (map_step child l p cfg v pa s) as [s1 [[v' pa']|err|]]; [| |done].
    2:{ destruct Hs1. exists fs1. by split_and!. }
    simpl in *. destruct Hs1 as (Hv' & -> & Hd' & Hprog & Hso & Hm).
    pose proof Hpre as (Ht & Ho & Hr & Hpr & Htm).
    assert (Hdd : (PAGE_SIZE | v' - v)) by (apply Z.divide_sub_r; [done|apply Hr]).
    destruct (range_ok_tail l v v' (rc_end_vaddr cfg) Hl Hr) as [Hr' Hw]; [lia|done|].
    destruct (IHf v' (pa + (v' - v)) s1 fs1) as (fs2 & G2 & Ht2 & Hso2 & Hm2).
    { unfold map_pre. split_and!; try done; [apply (gr_owned _ _ _ _ G1)|].
      replace (rc_end_vaddr cfg - v') with (rc_end_vaddr cfg - v - (v' - v)) by lia.
      apply pa_range_tail; [done|lia|done]. }
    { intros. destruct Hprog; lia. }
    destruct (decide (v' < rc_end_vaddr cfg)) as [Hlt'|Hge'].
    2:{ assert (v' = rc_end_vaddr cfg) as -> by lia. exists fs1.
        destruct fuel; simpl in *; rewrite Z.ltb_irrefl in *; simpl; by split_and!. }
    exists fs2. split_and!; [by eapply grows_trans|done| |].
    + intros x Hx Hnr. rewrite Hso2; [|rewrite Hw by done; done|lia]. apply Hso; [done|lia].
    + assert (Hold : ∀ x, v' ≤ x < rc_end_vaddr cfg → xl s1 p x l = xl s p x l)
        by (intros x Hx; apply Hso; [by eapply range_window; eauto; lia|lia]).
      destruct (map_loop child l p cfg fuel v' (pa + (v' - v)) s1) as [s2 [u|err|]]; simpl in *; [| |done].
      2:{ destruct Hm2 as [->|[?|(x & ? & Hxm)]]; [by left|by right; left|right; right].
          exists x. split; [lia|]. by rewrite <- Hold by lia. }
      intros x Hx. destruct (decide (x < v')).
      * destruct (Hm x) as [Hmx Hux]; [lia|]. split; [|done].
        eapply mapped_as_wide; [eapply mapped_as_eq; [apply Hso2; [|lia]|exact Hmx]|lia|lia].
        rewrite Hw by done. by eapply range_window.
      * destruct (Hm2 x) as [Hmx Hux]; [lia|]. split; [|by rewrite <- Hold by lia].
        replace (pa + (x - v)) with (pa + (v' - v) + (x - v')) by lia.
        eapply mapped_as_wide; [exact Hmx|lia|lia].
Qed.

Lemma loop_fuel_enough l (v e : Z) : level_ok l → v < e →
  (e - 1) / level_size l - v / level_size l + 1 ≤ Z.of_nat (loop_fuel l (e - v)).
Proof.
  intros Hl Hlt. pose proof (level_size_pos l Hl) as Hls. unfold loop_fuel.
  assert (0 ≤ (e - v) / level_size l) by (apply Z.div_pos; lia). rewrite Z2Nat.id by lia.
  pose proof (div_lower (e - 1) _ Hls). pose proof (div_lower v _ Hls).
  pose proof (div_lower (e - v) _ Hls). nia.
Qed.

Lemma map_range_spec l : level_ok l → ∀ p cfg v pa s fs,
  map_pre l p cfg v pa s fs →
  map_post l p cfg v pa s fs (map_range_recursive l p cfg v pa s).
Proof.
  induction l as [|l IH]; intros Hl p cfg v pa s fs Hpre; [unfold level_ok in Hl; lia|].
  simpl. apply map_loop_spec; [done| |done|].
  - intros Hl1. replace (S l - 1)%nat with l by lia. intros. apply IH; [|done].
    unfold level_ok in *. lia.
  - intros. by apply loop_fuel_enough.
Qed.

End MapProof.
