(* ===== verification/PtUnmapProof.v ===== *)
(** * Page tables: correctness of [unmap] and destruction of a table

    On a range every page of which is mapped by a block inside the range,
    [unmap_range_recursive] succeeds, leaves every address of the range not
    mapped and the translation of the others as it was, and keeps the tree
    invariant on the frames that are left. [Frame::deallocate_recursive] gives
    every frame of the tree back to the allocator, each exactly once, and
    touches no other memory. *)

From stdpp Require Import base list numbers strings gmap.
From S2P Require Import Prelude PtDef PtFrame PtMap PtGeom PtTree PtMapProof.
Open Scope Z_scope.

Section UnmapProof.
Context {P A : Type} `{PTE : PageTableEntry P} `{TM : TableMeta} {TMO : TableMetaOk}
  `{FA : FrameAllocator A}.
Context (pa_ok : Z → Prop) (tmpl_ok : PteConfig → Prop) (live : A → Z → Prop)
  (aok : A → Prop).
Context {PL : PageTableEntryLaws P pa_ok tmpl_ok} {FL : FrameAllocatorLaws A pa_ok live aok}.

Implicit Types (s : St P A) (fs k : gset Z) (l : nat).

Notation xl s p x l := (translate_recursive_with_level (mem s) p x l).
Notation owned := (owned (P:=P) live aok).

(** The state moved on and gave back some of the table frames. *)
Record shrinks s s' fs fs' : Prop := {
  sh_sub : fs' ⊆ fs;
  sh_ok : aok (astate s) → aok (astate s');
  sh_live q : live (astate s) q → q ∉ fs ∖ fs' → live (astate s') q;
  sh_mem q : q ∉ fs → mem s' !! q = mem s !! q
}.

Lemma shrinks_refl s fs : shrinks s s fs fs.
Proof. by split. Qed.

Lemma shrinks_trans s1 s2 s3 fs1 fs2 fs3 :
  shrinks s1 s2 fs1 fs2 → shrinks s2 s3 fs2 fs3 → shrinks s1 s3 fs1 fs3.
Proof.
  intros [S1 O1 L1 M1] [S2 O2 L2 M2]. split.
  - set_solver.
  - auto.
  - intros q Hq Hn. apply L2; [apply L1; [done|]|]; set_solver.
  - intros q Hq. rewrite M2 by set_solver. by apply M1.
Qed.

Lemma shrinks_owned s s' fs fs' : owned s fs → shrinks s s' fs fs' → owned s' fs'.
Proof. intros [Hok Ho] [S O L _]. split; [auto|]. intros q Hq. apply L; [apply Ho|]; set_solver. Qed.

(** Every address of [v, e) is mapped by a block inside [v, e). *)
Definition full l s (p v e : Z) : Prop := ∀ x, v ≤ x < e →
  ∃ e' l', xl s p x l = Ok (e', l') ∧
    v ≤ x - x mod level_size l' ∧ x - x mod level_size l' + level_size l' ≤ e.

Definition unmap_pre l (p v e : Z) s fs : Prop :=
  tree l (mem s) p fs ∧ owned s fs ∧ range_ok l v e ∧ e + level_size l ≤ 2 ^ 64 ∧ full l s p v e.

(** Every entry of the frame is invalid. *)
Definition all_invalid s (p : Z) : Prop :=
  ∃ es, mem s !! p = Some es ∧ Forall (λ e, pte_valid e = false) es.

Definition unmap_post l (p v e : Z) s fs (r : St P A * outcome PagingError bool) : Prop :=
  ∃ fs' b, shrinks s r.1 fs fs' ∧ tree l (mem r.1) p fs' ∧ r.2 = Ok b ∧
    (b = true → all_invalid r.1 p) ∧
    same_outside l p v e s r.1 ∧ (∀ x, v ≤ x < e → xl r.1 p x l = Err NotMapped).

Definition unmap_step_post l (p v e : Z) s fs (r : St P A * outcome PagingError (Z * bool)) : Prop :=
  ∃ fs' v' b, shrinks s r.1 fs fs' ∧ tree l (mem r.1) p fs' ∧ r.2 = Ok (v', b) ∧
    v < v' ≤ e ∧ (PAGE_SIZE | v') ∧
    (v' = e ∨ (v / level_size l + 1 ≤ v' / level_size l ∧ (level_size l | v'))) ∧
    same_outside l p v v' s r.1 ∧ (∀ x, v ≤ x < v' → xl r.1 p x l = Err NotMapped).

Lemma all_invalid_translate l s p x es :
  level_ok l → mem s !! p = Some es → length es = Z.to_nat LEN →
  Forall (λ e, pte_valid e = false) es → xl s p x l = Err NotMapped.
Proof.
  intros Hl Hp Hlen Hall. pose proof (index_range x l Hl).
  destruct (lookup_lt_is_Some_2 es (Z.to_nat (index x l))) as [e He]; [lia|].
  rewrite (translate_at l (mem s) p x es e) by done.
  rewrite Forall_lookup in Hall. specialize (Hall _ _ He).
  rewrite (pte_valid_spec e (1 <? l)%nat) in Hall. unfold config_at. by rewrite Hall.
Qed.

(** Clearing entry [i], with the frames below it dropped from the tree. *)
Lemma clear_entry l s s' p fs es kids v :
  level_ok l → node l (mem s) p fs es kids →
  mem s' = <[p := <[Z.to_nat (index v l) := from_config PteConfig_default]> es]> (mem s) →
  tree l (mem s') p (fs ∖ kids (Z.to_nat (index v l))) ∧
  ∀ x, xl s' p x l = if decide (Z.to_nat (index x l) = Z.to_nat (index v l))
                     then Err NotMapped else xl s p x l.
Proof.
  intros Hl Hn Hm. pose proof (index_range v l Hl) as Hi. pose proof Hn as (Hp & Hlen & _).
  set (i := Z.to_nat (index v l)) in *. set (d := from_config PteConfig_default) in *.
  assert (Hd : valid (config_at l d) = false).
  { unfold config_at. rewrite <- pte_valid_spec. apply pte_clear_valid. }
  assert (Hpe : mem s' !! p = Some (<[i := d]> es)) by (rewrite Hm; apply lookup_insert_eq).
  assert (Hag : ∀ q, q ≠ p → mem s' !! q = mem s !! q)
    by (intros; rewrite Hm; by apply lookup_insert_ne).
  split.
  - replace (fs ∖ kids i) with (fs ∖ kids i ∪ ∅) by set_solver.
    eapply (tree_update l (mem s)); eauto; [lia| |intros q []%not_elem_of_empty].
    unfold is_link. by rewrite Hd, andb_false_r.
  - intros x. case_decide as Ex; [|by eapply translate_other; eauto].
    rewrite (translate_at l (mem s') p x (<[i := d]> es) d); [by rewrite Hd|done|done|].
    rewrite Ex. apply list_lookup_insert_eq. lia.
Qed.

(** ** Clearing a final mapping *)
Lemma unmap_final_step l s p fs es kids v e0 tl :
  level_ok l → node l (mem s) p fs es kids → owned s fs →
  (level_size l | v) → es !! Z.to_nat (index v l) = Some e0 → is_link l e0 = false →
  let s' := mk_St (<[p := <[Z.to_nat (index v l) := from_config PteConfig_default]> es]> (mem s))
              (astate s) tl in
  shrinks s s' fs fs ∧ tree l (mem s') p fs ∧ same_outside l p v (v + level_size l) s s' ∧
  ∀ x, v ≤ x < v + level_size l → xl s' p x l = Err NotMapped.
Proof.
  intros Hl Hn Ho Hal He0 Hlk s'. pose proof (level_size_pos l Hl) as Hls.
  assert (Hki : kids (Z.to_nat (index v l)) = ∅).
  { destruct Hn as (_ & _ & _ & _ & _ & Hk). specialize (Hk (Z.to_nat (index v l))).
    by rewrite He0, Hlk in Hk. }
  destruct (clear_entry l s s' p fs es kids v Hl Hn eq_refl) as [Ht Hx].
  rewrite Hki, difference_empty_L in Ht. pose proof Hn as (Hp & _ & Hfs & _).
  split_and!; [|done| |].
  - split; [done|done|done|]. intros q Hq. apply lookup_insert_ne. intros ->. apply Hq, Hfs. by left.
  - intros x Hw Hnr. rewrite Hx. rewrite decide_False; [done|]. intros E. apply Hnr.
    apply Z2Nat.inj in E; [|apply index_range; done..].
    apply index_eq in E; [|done|done]. apply div_eq_range in E; [|done].
    rewrite divide_div_mul in E by done. lia.
  - intros x Hxr. rewrite Hx. rewrite decide_True; [done|]. f_equal.
    assert (x / level_size l = v / level_size l)
      by (apply div_eq_range; [done|]; rewrite divide_div_mul by done; lia).
    apply index_eq; [done|by apply table_block|done].
Qed.

(** ** Below a linked child *)
Lemma unmap_child_lift l s s2 p fs es kids i e1 k' :
  level_ok l → node l (mem s) p fs es kids → es !! i = Some e1 → is_link l e1 = true →
  shrinks s s2 (kids i) k' → tree (l - 1) (mem s2) (paddr (config_at l e1)) k' →
  shrinks s s2 fs (fs ∖ kids i ∪ k') ∧ node l (mem s2) p (fs ∖ kids i ∪ k') es
    (λ j, if decide (j = i) then k' else kids j) ∧
  ∀ x, xl s2 p x l =
    if decide (Z.to_nat (index x l) = i) then xl s2 (paddr (config_at l e1)) x (l - 1)
    else xl s p x l.
Proof.
  intros Hl Hn He1 Hlk [S O L Me] Htk. pose proof Hn as (Hp & Hlen & Hfs & Hnp & Hdis & Hk).
  assert (Hif : kids i ⊆ fs) by (intros q Hq; apply Hfs; eauto).
  assert (Hp2 : mem s2 !! p = Some es) by (rewrite Me; [done|apply Hnp]).
  assert (Hpe : mem s2 !! p = Some (<[i := e1]> es)) by (by rewrite list_insert_id).
  split_and!.
  - split; [set_solver|done| |intros q Hq; apply Me; set_solver].
    intros q Hq Hn'. apply L; [done|]. set_solver.
  - unfold node. split_and!; [done|done|..].
    + intros x. rewrite elem_of_union, elem_of_difference, Hfs. split.
      * intros [[[->|[j Hj]] Hni]|Hx]; [by left|right; exists j|right; exists i].
        { by rewrite decide_False by (by intros ->). } { by rewrite decide_True. }
      * intros [->|[j Hj]]; [left; split; [by left|apply Hnp]|].
        destruct (decide (j = i)) as [->|Hne]; [by right|left].
        split; [eauto|]. intros Hi. by apply (Hdis j i Hne x).
    + intros j. destruct (decide (j = i)); [|apply Hnp]. intros Hpk. apply (Hnp i). by apply S.
    + intros j1 j2 Hj. destruct (decide (j1 = i)), (decide (j2 = i)); subst; try done.
      * intros q Hq. apply (Hdis i j2); auto.
      * intros q Hq Hq2. apply (Hdis j1 i Hj q); auto.
      * by apply Hdis.
    + intros j. destruct (decide (j = i)) as [->|Hne]; [by rewrite He1, Hlk|].
      specialize (Hk j). destruct (es !! j) as [e|]; [|done]. destruct (is_link l e); [|done].
      apply (tree_frame _ (mem s)); [done|]. intros q Hq. apply Me.
      intros Hi. by apply (Hdis j i Hne q).
  - intros x. case_decide as Ex.
    + apply is_link_spec in Hlk as (Hl1 & Hv & Hh).
      rewrite (translate_at l (mem s2) p x es e1); [|done|done|by rewrite Ex].
      rewrite Hv, Hh. simpl. by rewrite (proj2 (Nat.eqb_neq l 1)) by lia.
    + by eapply (translate_other l (mem s)); eauto.
Qed.

Lemma level_size_divide l l' : level_ok l → level_ok l' → (l' ≤ l)%nat →
  (level_size l' | level_size l).
Proof.
  intros Hl Hl' Hle. induction l as [|l IH]; [unfold level_ok in Hl; lia|].
  destruct (decide (l' = S l)) as [->|]; [done|].
  assert (Hl2 : level_ok l) by (unfold level_ok in *; lia).
  transitivity (level_size l); [apply IH; [done|lia]|].
  rewrite table_size_S by done. unfold table_size. apply Z.divide_factor_l.
Qed.

(** A block of level [l' ≤ l] does not cross a multiple of [level_size l]. *)
Lemma block_above l l' x b : level_ok l → level_ok l' → (l' ≤ l)%nat → (level_size l | b) →
  b ≤ x → b ≤ x - x mod level_size l'.
Proof.
  intros Hl Hl' Hle Hb Hx. pose proof (level_size_pos l' Hl') as Hp.
  destruct (Z.divide_trans _ _ _ (level_size_divide l l' Hl Hl' Hle) Hb) as [c ->].
  assert (c ≤ x / level_size l') by (apply Z.div_le_lower_bound; lia).
  assert (x = level_size l' * (x / level_size l') + x mod level_size l') by (apply Z.div_mod; lia). nia.
Qed.

Lemma block_below l l' x b : level_ok l → level_ok l' → (l' ≤ l)%nat → (level_size l | b) →
  x < b → x - x mod level_size l' + level_size l' ≤ b.
Proof.
  intros Hl Hl' Hle Hb Hx. pose proof (level_size_pos l' Hl') as Hp.
  destruct (Z.divide_trans _ _ _ (level_size_divide l l' Hl Hl' Hle) Hb) as [c ->].
  assert (x / level_size l' < c) by (apply Z.div_lt_upper_bound; lia).
  assert (x = level_size l' * (x / level_size l') + x mod level_size l') by (apply Z.div_mod; lia). nia.
Qed.

(** The parent's step after the child of entry [index v l] was unmapped: the
    entry is cleared and the child freed when the child reports it is empty. *)
Lemma unmap_reclaim l s p fs es kids v e1 k' c :
  level_ok l → node l (mem s) p fs es kids → es !! Z.to_nat (index v l) = Some e1 →
  is_link l e1 = true → paddr (config_at l e1) = c → kids (Z.to_nat (index v l)) = k' →
  all_invalid s c →
  ∃ s', (_ ← write_entry p (index v l) (from_config PteConfig_default); dealloc c) s = (s', Ok tt) ∧
    shrinks s s' fs (fs ∖ k') ∧ tree l (mem s') p (fs ∖ k') ∧ ∀ x, xl s' p x l = xl s p x l.
Proof.
  intros Hl Hn He1 Hlk Hc Hk' (ec & Hec & Hall). pose proof Hn as (Hp & Hlen & Hfs & Hnp & _ & Hk).
  pose proof (index_range v l Hl) as Hi. unfold mbind, M_bind, write_entry. rewrite Hp.
  rewrite (proj2 (Nat.ltb_lt _ _)) by lia. unfold dealloc, modify. simpl.
  set (m' := <[p := _]> _). set (s' := mk_St m' _ _). exists s'. split; [done|].
  destruct (clear_entry l s s' p fs es kids v Hl Hn eq_refl) as [Ht Hx]. rewrite Hk' in Ht.
  assert (Htc : tree (l - 1) (mem s) c k').
  { specialize (Hk (Z.to_nat (index v l))). by rewrite He1, Hlk, Hc, Hk' in Hk. }
  split_and!; [|done|].
  - split; [set_solver|simpl; apply dealloc_ok| |].
    + intros q Hq Hn'. simpl. apply dealloc_keeps; [|done]. intros ->. apply Hn'.
      pose proof (tree_root _ _ _ _ Htc). rewrite elem_of_difference, Hfs.
      split; [right; exists (Z.to_nat (index v l)); by rewrite Hk'|set_solver].
    + intros q Hq. apply lookup_insert_ne. intros ->. apply Hq, Hfs. by left.
  - intros x. rewrite Hx. case_decide as Ex; [|done].
    apply is_link_spec in Hlk as (Hl1 & Hv & Hh).
    rewrite (translate_at l (mem s) p x es e1); [|done|done|by rewrite Ex].
    rewrite Hv, Hh, Hc. simpl. rewrite (proj2 (Nat.eqb_neq l 1)) by lia. symmetry.
    eapply all_invalid_translate; eauto; [by apply level_ok_pred|].
    apply tree_node in Htc as (_ & es' & ? & ? & ? & _). congruence.
Qed.

Lemma unmap_down_step l s p fs es kids v e child e1 cr :
  level_ok l → (1 < l)%nat → unmap_pre l p v e s fs → v < e →
  node l (mem s) p fs es kids → es !! Z.to_nat (index v l) = Some e1 → is_link l e1 = true →
  (∀ c v' e' s' k, unmap_pre (l - 1) c v' e' s' k →
     unmap_post (l - 1) c v' e' s' k (child c v' e' s')) →
  let next := Z.min (level_size l * (v / level_size l) + level_size l) e in
  unmap_step_post l p v e s fs
    ((child_can_reclaim ← child (paddr (config_at l e1)) v next;
      if (child_can_reclaim : bool) then
        _ ← write_entry p (index v l) (from_config PteConfig_default);
        _ ← dealloc (paddr (config_at l e1));
        mret (next, cr)
      else mret (next, false)) s).
Proof.
  intros Hl Hl1 (Ht & Ho & Hr & Htop & Hfull) Hlt Hn He1 Hlk IH next.
  pose proof (level_size_pos l Hl) as Hls. pose proof (div_lower v _ Hls) as Hlo.
  assert (Hl' : level_ok (l - 1)) by (by apply level_ok_pred).
  assert (HS : S (l - 1) = l) by lia.
  assert (HT : table_size (l - 1) = level_size l)
    by (rewrite <- table_size_S; [by rewrite HS|done|by rewrite HS]).
  assert (Hmono : level_size (l - 1) < level_size l)
    by (rewrite <- HS at 2; apply level_size_mono; [done|by rewrite HS]).
  assert (Hnx : v < next ≤ e) by lia.
  assert (Hdb : (level_size l | level_size l * (v / level_size l) + level_size l))
    by (apply Z.divide_add_r; [apply Z.divide_factor_l|done]).
  assert (Hcase : next = e ∨ next = level_size l * (v / level_size l) + level_size l) by lia.
  assert (Hdn : (PAGE_SIZE | next)).
  { destruct Hr as (_ & ? & _). destruct Hcase as [->| ->]; [done|].
    apply (Z.divide_trans _ (level_size l)); [by apply page_divides_level|done]. }
  assert (Hblk : ∀ x, v ≤ x < next → x / level_size l = v / level_size l)
    by (intros; apply div_eq_range; [done|lia]).
  assert (Hidx : ∀ x, v ≤ x < next → Z.to_nat (index x l) = Z.to_nat (index v l)).
  { intros x Hx. f_equal. apply index_eq; [done| |by apply Hblk]. by apply table_block, Hblk. }
  set (c := paddr (config_at l e1)). set (i := Z.to_nat (index v l)) in *.
  assert (Hxc : ∀ x, Z.to_nat (index x l) = i → xl s p x l = xl s c x (l - 1)).
  { intros x Ex. destruct Hn as (Hp & _). apply is_link_spec in Hlk as (_ & Hv & Hh).
    rewrite (translate_at l (mem s) p x es e1); [|done|done|by rewrite Ex].
    rewrite Hv, Hh. simpl. by rewrite (proj2 (Nat.eqb_neq l 1)) by lia. }
  assert (Htk : tree (l - 1) (mem s) c (kids i)).
  { destruct Hn as (_ & _ & _ & _ & _ & Hk). specialize (Hk i). by rewrite He1, Hlk in Hk. }
  destruct (IH c v next s (kids i)) as (k' & b & Hsh & Htk' & Hb & Hinv & Hso & Hnm).
  { unfold unmap_pre, range_ok. rewrite HT. destruct Hr as (? & ? & ? & ? & ?).
    split_and!; try done; try lia.
    - split; [apply Ho|]. intros q Hq. apply Ho. destruct Hn as (_ & _ & Hfs & _). apply Hfs. eauto.
    - intros _. symmetry. apply Hblk. lia.
    - intros x Hx. destruct (Hfull x) as (e' & l' & Hxe & ? & ?); [lia|].
      rewrite Hxc in Hxe by (by apply Hidx). exists e', l'. split_and!; [done|lia|].
      destruct (translate_total (l - 1) (mem s) c (kids i) x) as [Hbad|(? & ? & Hq & ? & ? & _)]; [done..|congruence|].
      rewrite Hxe in Hq. injection Hq as <- <-.
      destruct Hcase as [->| ->]; [lia|]. apply (block_below l); [done|done|lia|done|]. lia. }
  unfold mbind, M_bind. destruct (child c v next s) as [s2 r2]. simpl in *. subst r2.
  destruct (unmap_child_lift l s s2 p fs es kids i e1 k') as (Hsh2 & Hn2 & Hx2); try done.
  fold c in Hx2. set (fs2 := fs ∖ kids i ∪ k') in *.
  assert (Ht2 : tree l (mem s2) p fs2) by (apply tree_node; split; [lia|eauto]).
  assert (Hso2 : same_outside l p v next s s2).
  { intros x Hw Hnr. rewrite Hx2. case_decide as Ex; [|done]. rewrite Hxc by done.
    apply Hso; [|done]. rewrite HT. apply index_eq; [done|done|].
    unfold i in Ex. apply Z2Nat.inj in Ex; [done|apply index_range; done..]. }
  assert (Hnm2 : ∀ x, v ≤ x < next → xl s2 p x l = Err NotMapped).
  { intros x Hx. rewrite Hx2, decide_True by (by apply Hidx). by apply Hnm. }
  assert (Hprog : next = e ∨ v / level_size l + 1 ≤ next / level_size l ∧ (level_size l | next)).
  { destruct Hcase as [->|Hne]; [by left|right]. rewrite Hne. split; [|done].
    replace (level_size l * (v / level_size l) + level_size l)
      with ((v / level_size l + 1) * level_size l) by lia. by rewrite Z.div_mul by lia. }
  destruct b; [|exists fs2, next, false; split_and!; first [done|lia]].
  destruct (unmap_reclaim l s2 p fs2 es _ v e1 k' c Hl Hn2 He1 Hlk eq_refl) as (s3 & Hrun & Hsh3 & Ht3 & Hx3).
  { by rewrite decide_True. } { by apply Hinv. }
  unfold mbind, M_bind in Hrun. destruct (write_entry p (index v l) _ s2) as [s2' [u| |]]; [|done..].
  injection Hrun as ->. exists (fs2 ∖ k'), next, cr. split_and!; try done; try lia.
  - by eapply shrinks_trans.
  - intros x Hw Hnr. rewrite Hx3. by apply Hso2.
  - intros x Hx. rewrite Hx3. by apply Hnm2.
Qed.

Lemma unmap_step_spec l s p fs v e child flush cr :
  level_ok l → unmap_pre l p v e s fs → v < e →
  ((1 < l)%nat → ∀ c v' e' s' k, unmap_pre (l - 1) c v' e' s' k →
     unmap_post (l - 1) c v' e' s' k (child c v' e' s')) →
  unmap_step_post l p v e s fs (unmap_step child l flush p e v cr s).
Proof.
  intros Hl Hpre Hlt IH. pose proof (level_size_pos l Hl) as Hls.
  pose proof Hpre as (Ht & Ho & Hr & Htop & Hfull).
  pose proof Ht as (_ & es & kids & Hn)%tree_node.
  destruct (node_entry _ _ _ _ _ _ v Hl Hn) as [e0 He0]. pose proof Hn as (Hp & Hlen & _).
  destruct (Hfull v) as (ev & lv & Hxv & Hb1 & Hb2); [lia|].
  rewrite (translate_at l (mem s) p v es e0) in Hxv by done.
  unfold unmap_step. rewrite virt_to_index_eq by done.
  unfold mbind at 1, M_bind at 1, lift at 1. unfold mbind at 1, M_bind at 1, read_entry, entry_at.
  rewrite Hp. simpl unwrap. rewrite He0. simpl. fold (config_at l e0).
  destruct (valid (config_at l e0)) eqn:Hv; [|done]. simpl in *.
  destruct ((l =? 1)%nat || huge (config_at l e0)) eqn:Hfin.
  - rewrite orb_comm in Hfin. rewrite Hfin in Hxv. injection Hxv as <- <-.
    pose proof (Z.mod_pos_bound v (level_size l) Hls).
    assert (Hal : (level_size l | v)) by (apply Z.mod_divide; lia).
    assert (Hlk : is_link l e0 = false).
    { unfold is_link. apply orb_true_iff in Hfin as [Hh|Hl1%Nat.eqb_eq].
      - by rewrite Hh, andb_false_r.
      - by rewrite Hl1. }
    unfold mbind at 1, M_bind at 1, write_entry. rewrite Hp.
    rewrite (proj2 (Nat.ltb_lt _ _)) by (pose proof (index_range v l Hl); lia).
    unfold mbind, M_bind. edestruct (flush_if_run (P:=P) (A:=A) flush v) as [tl ->]. unfold lift.
    replace (if huge (config_at l e0) then level_size l else PAGE_SIZE) with (level_size l).
    2:{ destruct (huge (config_at l e0)); [done|]. apply orb_true_iff in Hfin as [|Hl1%Nat.eqb_eq]; [done|].
        by rewrite Hl1. }
    destruct Hr as (? & ? & ? & ? & ?). rewrite uadd_ok by lia. simpl.
    destruct (unmap_final_step l s p fs es kids v e0 tl) as (? & ? & ? & ?); try done.
    exists fs, (v + level_size l), cr. split_and!; try done; try lia.
    + apply Z.divide_add_r; [done|]. by apply page_divides_level.
    + right. split; [|by apply Z.divide_add_r].
      replace (v + level_size l) with (v + 1 * level_size l) by lia. rewrite Z.div_add by lia. lia.
  - apply orb_false_iff in Hfin as [Hl1%Nat.eqb_neq Hh].
    assert ((1 < l)%nat) by (unfold level_ok in Hl; lia).
    unfold mbind at 1, M_bind at 1, lift at 1. pose proof (div_lower v _ Hls).
    rewrite umul_ok by lia.
    replace ((v / level_size l + 1) * level_size l)
      with (level_size l * (v / level_size l) + level_size l) by lia.
    eapply unmap_down_step; eauto. by apply is_link_spec.
Qed.

Lemma unmap_loop_spec l p e child flush fuel : level_ok l →
  ((1 < l)%nat → ∀ c v' e' s' k, unmap_pre (l - 1) c v' e' s' k →
     unmap_post (l - 1) c v' e' s' k (child c v' e' s')) →
  ∀ v s fs cr, unmap_pre l p v e s fs →
  (v < e → (e - 1) / level_size l - v / level_size l + 1 ≤ Z.of_nat fuel) →
  unmap_post l p v e s fs (unmap_loop child l flush p e fuel v cr s).
Proof.
  intros Hl IH. pose proof (level_size_pos l Hl) as Hls.
  assert (Hend : ∀ v s fs cr, unmap_pre l p v e s fs → e ≤ v →
    unmap_post l p v e s fs ((if cr : bool then is_frame_empty p else mret false) s)).
  { intros v s fs cr (Ht & Ho & _) Hge. pose proof Ht as (_ & es & kids & Hp & Hlen & _)%tree_node.
    exists fs. destruct cr; [|exists false; split_and!; first [done|apply shrinks_refl|intros; lia]].
    unfold is_frame_empty. rewrite Hp. eexists. split_and!; [apply shrinks_refl|done|done| |done|intros; lia].
    intros Hall. exists es. split; [done|]. apply Forall_forall. intros e' He'.
    rewrite forallb_forall in Hall. apply list_elem_of_In in He'.
    specialize (Hall e' He'). apply negb_true_iff in Hall. by rewrite (pte_valid_spec e' false). }
  induction fuel as [|fuel IHf]; intros v s fs cr Hpre Hfuel; simpl;
    (destruct (Z.ltb_spec v e) as [Hlt|Hge]; [|by apply Hend]).
  - pose proof (Z.div_le_mono v (e - 1) (level_size l)). lia.
  - pose proof (unmap_step_spec l s p fs v e child flush cr Hl Hpre Hlt IH)
      as (fs1 & v' & b & Hsh & Ht1 & Hr & Hv' & Hd' & Hprog & Hso & Hnm).
    unfold mbind, M_bind. destruct (unmap_step child l flush p e v cr s) as [s1 r1]. simpl in *. subst r1.
    pose proof Hpre as (Ht & Ho & Hrg & Htop & Hfull).
    destruct (range_ok_tail l v v' e Hl Hrg) as [Hr' Hw]; [lia|done|].
    assert (Hwin : ∀ x, v ≤ x < e → x / table_size l = v / table_size l).
    { intros x Hx. destruct Hrg as (_ & _ & _ & _ & Hwn). pose proof (table_size_pos l Hl).
      specialize (Hwn Hlt). pose proof (Z.div_le_mono v x (table_size l)).
      pose proof (Z.div_le_mono x (e - 1) (table_size l)). lia. }
    destruct (IHf v' s1 fs1 b) as (fs2 & b2 & Hsh2 & Ht2 & Hb2 & Hinv & Hso2 & Hnm2).
    { unfold unmap_pre. split_and!; try done; [by eapply shrinks_owned|].
      intros x Hx. destruct (Hfull x) as (e' & l' & Hxe & ? & ?); [lia|].
      exists e', l'. rewrite Hso; [|apply Hwin; lia|lia]. split_and!; [done| |done].
      destruct Hprog as [->|[_ Hdv]]; [lia|].
      destruct (translate_total l (mem s) p fs x) as [Hbad|(? & ? & Hq & ? & ? & _)]; [done..|congruence|].
      rewrite Hxe in Hq. injection Hq as <- <-. apply (block_above l); [done|done|done|done|lia]. }
    { intros. destruct Hprog as [|[? _]]; lia. }
    exists fs2, b2. split_and!; try done; [by eapply shrinks_trans| |].
    + destruct (decide (v' < e)) as [Hlt'|Hge'].
      * intros x Hx Hnr. rewrite Hso2; [|rewrite Hw by done; done|lia]. apply Hso; [done|lia].
      * assert (v' = e) as -> by lia. intros x Hx Hnr. rewrite <- (Hso x Hx Hnr).
        destruct fuel; simpl; rewrite Z.ltb_irrefl; (destruct b; [|done]);
          unfold is_frame_empty; by destruct (mem s1 !! p).
    + intros x Hx. destruct (decide (x < v')); [|apply Hnm2; lia].
      destruct (decide (v' < e)).
      * rewrite Hso2; [apply Hnm; lia| |lia]. rewrite Hw by done. apply Hwin. lia.
      * assert (v' = e) as -> by lia. rewrite <- (Hnm x) by lia.
        destruct fuel; simpl; rewrite Z.ltb_irrefl; (destruct b; [|done]);
          unfold is_frame_empty; by destruct (mem s1 !! p).
Qed.

Lemma unmap_range_spec l flush : level_ok l → ∀ p v e s fs,
  unmap_pre l p v e s fs → unmap_post l p v e s fs (unmap_range_recursive l flush p v e s).
Proof.
  induction l as [|l IH]; intros Hl p v e s fs Hpre; [unfold level_ok in Hl; lia|].
  simpl. apply unmap_loop_spec; [done| |done|].
  - intros Hl1. replace (S l - 1)%nat with l by lia. intros. apply IH; [|done].
    unfold level_ok in *. lia.
  - intros. by apply loop_fuel_enough.
Qed.

End UnmapProof.

(** ** Destruction *)

Section DeallocProof.
Context {P A : Type} `{PTE : PageTableEntry P} `{TM : TableMeta} {TMO : TableMetaOk}
  `{FA : FrameAllocator A}.

Implicit Types (s : St P A) (fs k : gset Z) (l : nat).

(** The run freed exactly the frames of [fs], one [dealloc_frame] each, and
    wrote no other frame. *)
Definition freed s s' (fs : gset Z) : Prop :=
  ∃ lst, NoDup lst ∧ (∀ q, q ∈ lst ↔ q ∈ fs) ∧
    astate s' = foldl dealloc_frame (astate s) lst ∧
    (∀ q, q ∉ fs → mem s' !! q = mem s !! q).

(** The subtrees below the entries [j < i] of a frame. *)
Definition kids_below l m (es : list P) (kids : nat → gset Z) (i : nat) : Prop :=
  ∀ j, (j < i)%nat → match es !! j with
    | Some e => if is_link l e then tree (l - 1) m (paddr (config_at l e)) (kids j)
                else kids j = ∅
    | None => kids j = ∅
    end.

Lemma kids_below_frame l (m m' : gmap Z (list P)) es es' kids i (p : Z) :
  kids_below l m es kids (S i) → (∀ a b, a ≠ b → kids a ## kids b) → (∀ j, p ∉ kids j) →
  (∀ j, (j < i)%nat → es' !! j = es !! j) →
  (∀ q, q ≠ p → q ∉ kids i → m' !! q = m !! q) → kids_below l m' es' kids i.
Proof.
  intros Hk Hdis Hnp Hes Hag j Hj. rewrite Hes by done. specialize (Hk j ltac:(lia)).
  destruct (es !! j) as [e|]; [|done]. destruct (is_link l e); [|done].
  apply (tree_frame _ m); [done|]. intros q Hq. apply Hag.
  - intros ->. by apply (Hnp j).
  - intros Hi. by apply (Hdis j i ltac:(lia) q).
Qed.

Lemma dealloc_loop_spec l p kids child : (1 ≤ l)%nat →
  (∀ j, p ∉ kids j) → (∀ a b, a ≠ b → kids a ## kids b) →
  (∀ c s k, (1 < l)%nat → tree (l - 1) (mem s) c k →
     ∃ s', child c s = (s', Ok tt) ∧ freed s s' k) →
  ∀ i s es, (i ≤ Z.to_nat LEN)%nat → mem s !! p = Some es → length es = Z.to_nat LEN →
  kids_below l (mem s) es kids i →
  ∃ s' lst, dealloc_children_loop child p l i s = (s', Ok tt) ∧ NoDup lst ∧
    (∀ q, q ∈ lst ↔ ∃ j, (j < i)%nat ∧ q ∈ kids j) ∧
    astate s' = foldl dealloc_frame (astate s) lst ∧
    (∀ q, q ≠ p → (∀ j, (j < i)%nat → q ∉ kids j) → mem s' !! q = mem s !! q).
Proof.
  intros Hl Hnp Hdis Hchild. induction i as [|i IH]; intros s es Hi Hp Hlen Hk; simpl.
  { exists s, []. split_and!; try done; [constructor|].
    intros q. split; [by intros ?%not_elem_of_nil|intros (j & ? & _); lia]. }
  destruct (lookup_lt_is_Some_2 es i) as [e He]; [lia|].
  pose proof (Hk i ltac:(lia)) as Hki. rewrite He in Hki.
  unfold mbind, M_bind, read_entry, entry_at. rewrite Hp, Nat2Z.id. simpl. rewrite He. simpl.
  fold (config_at l e). destruct (is_link l e) eqn:Hlk.
  - apply is_link_spec in Hlk as (Hl1 & Hv & Hh). rewrite Hv, Hh. simpl.
    rewrite (proj2 (Nat.eqb_neq l 1)) by lia.
    destruct (Hchild _ s (kids i) Hl1 Hki) as (s1 & -> & (l1 & Hnd1 & Hin1 & Ha1 & Hm1)).
    unfold write_entry. rewrite (Hm1 p (Hnp i)), Hp, Nat2Z.id.
    rewrite (proj2 (Nat.ltb_lt _ _)) by lia.
    set (es2 := <[i := _]> es). set (s2 := mk_St _ _ _).
    assert (Hag : ∀ q, q ≠ p → mem s2 !! q = mem s1 !! q) by (intros; by apply lookup_insert_ne).
    destruct (IH s2 es2) as (s3 & l2 & -> & Hnd2 & Hin2 & Ha2 & Hm2); [lia|apply lookup_insert_eq|by unfold es2; rewrite length_insert| |].
    { eapply kids_below_frame; [exact Hk|done|done| |].
      - intros j Hj. apply list_lookup_insert_ne. lia.
      - intros q Hq Hqi. rewrite Hag by done. by apply Hm1. }
    exists s3, (l1 ++ l2). split_and!; try done.
    + apply NoDup_app. split_and!; try done. intros q Hq1 Hq2.
      apply Hin1 in Hq1. apply Hin2 in Hq2 as (j & Hj & Hq2).
      apply (Hdis i j ltac:(lia) q); done.
    + intros q. rewrite elem_of_app, Hin1, Hin2. split.
      * intros [Hq|(j & Hj & Hq)]; [exists i; split; [lia|done]|exists j; split; [lia|done]].
      * intros (j & Hj & Hq). destruct (decide (j = i)) as [->|]; [by left|right].
        exists j. split; [lia|done].
    + by rewrite foldl_app, <- Ha1.
    + intros q Hqp Hq. rewrite Hm2; [|done|intros; apply Hq; lia]. rewrite Hag by done.
      apply Hm1. apply Hq. lia.
  - replace (if negb (valid (config_at l e)) then _ else _)
      with (mret (M:=M (St P A) PagingError) tt).
    2:{ unfold is_link in Hlk. destruct (valid (config_at l e)); [|done].
        destruct (huge (config_at l e)); [done|]. simpl.
        destruct (Nat.eqb_spec l 1); [done|]. by rewrite (proj2 (Nat.ltb_lt 1 l)) in Hlk by lia. }
    simpl. destruct (IH s es) as (s3 & l2 & Hrun & Hnd2 & Hin2 & Ha2 & Hm2); [lia|done|done| |].
    { intros j Hj. apply Hk. lia. }
    exists s3, l2. split_and!; try done.
    + intros q. rewrite Hin2. split; intros (j & Hj & Hq); [exists j; split; [lia|done]|].
      exists j. split; [|done]. assert (j ≠ i); [|lia]. intros ->. rewrite Hki in Hq. by apply not_elem_of_empty in Hq.
    + intros q Hqp Hq. apply Hm2; [done|]. intros. apply Hq. lia.
Qed.

Lemma deallocate_recursive_spec l : level_ok l → ∀ p s fs, tree l (mem s) p fs →
  ∃ s', deallocate_recursive l p s = (s', Ok tt) ∧ freed s s' fs.
Proof.
  induction l as [|l IH]; intros Hl p s fs Ht; [done|].
  pose proof Ht as (_ & es & kids & Hp & Hlen & Hfs & Hnp & Hdis & Hk)%tree_node.
  destruct (dealloc_loop_spec (S l) p kids (deallocate_recursive l) ltac:(lia) Hnp Hdis)
    with (i := Z.to_nat LEN) (s := s) (es := es)
    as (s1 & lst & Hrun & Hnd & Hin & Ha & Hm); [|lia|done|done|intros j _; apply Hk|].
  { intros c s0 k Hl1 Hc. replace (S l - 1)%nat with l in Hc by lia. apply IH; [unfold level_ok in *; lia|done]. }
  simpl. unfold mbind, M_bind. rewrite Hrun. eexists. split; [done|].
  assert (Hall : ∀ q, q ∈ fs ↔ q = p ∨ ∃ j, (j < Z.to_nat LEN)%nat ∧ q ∈ kids j).
  { intros q. rewrite Hfs. split; [|naive_solver]. intros [|[j Hj]]; [by left|right].
    exists j. split; [|done]. specialize (Hk j). destruct (es !! j) as [e|] eqn:Hej.
    - apply lookup_lt_Some in Hej. lia.
    - rewrite Hk in Hj. by apply not_elem_of_empty in Hj. }
  exists (lst ++ [p]). simpl. split_and!.
  - apply NoDup_app. split_and!; [done| |apply NoDup_singleton].
    intros q (j & _ & Hq)%Hin ->%list_elem_of_singleton. by apply (Hnp j).
  - intros q. rewrite elem_of_app, list_elem_of_singleton, Hin, Hall. naive_solver.
  - by rewrite foldl_app, <- Ha.
  - intros q Hq. apply Hm; [intros ->; apply Hq, Hfs; by left|].
    intros j Hj Hqj. apply Hq, Hfs. eauto.
Qed.

End DeallocProof.
