(* ===== verification/PtWalk.v ===== *)
(** * Page tables: the walker

    crates/page-table-generic/src/walk.rs: an iterator with an explicit stack
    of table positions. [walk_turn] is one turn of the loop of
    [find_next_entry]; [collect] is the loop of a [for] over the iterator. The
    specification is the recursive listing [listing]; the refinement theorem
    says that the iterator ends and produces exactly that listing. *)

From stdpp Require Import base list numbers strings gmap.
From S2P Require Import Prelude PtDef PtFrame PtMap PtGeom PtTree.
Open Scope Z_scope.

Definition MAX_WALK_DEPTH : nat := 8.

Record PteInfo (P : Type) : Type := mk_PteInfo {
  pi_level : nat;
  pi_vaddr : Z;
  pi_is_final_mapping : bool;
  pi_pte : P
}.
Arguments mk_PteInfo {P}.
Arguments pi_level {P}.
Arguments pi_vaddr {P}.
Arguments pi_is_final_mapping {P}.
Arguments pi_pte {P}.

Record WalkConfig : Type := mk_WalkConfig { wc_start_vaddr : Z; wc_end_vaddr : Z }.

Record WalkState : Type := mk_WalkState {
  ws_frame : Z;
  ws_level : nat;
  ws_index : Z;
  ws_base_vaddr : Z
}.

(** The stack has its top first. *)
Record Walker : Type := mk_Walker {
  wk_config : WalkConfig;
  wk_stack : list WalkState;
  wk_finished : bool
}.

Section Walk.
Context {P : Type} `{PTE : PageTableEntry P} `{TM : TableMeta}.
Implicit Types (m : gmap Z (list P)).

(** [heapless::Vec::push(..).ok()]: a push on a full stack is dropped. *)
Definition stack_push (st : WalkState) (stack : list WalkState) : list WalkState :=
  if (length stack <? MAX_WALK_DEPTH)%nat then st :: stack else stack.

(** [PageTableWalker::new]. *)
Definition walker_new (root : Z) (config : WalkConfig) : Walker :=
  if wc_start_vaddr config <? wc_end_vaddr config
  then mk_Walker config (stack_push (mk_WalkState root PT_LEVEL 0 0) []) false
  else mk_Walker config [] true.

(** One turn of the loop: [None] is [continue], [Some r] is [return r]. *)
Definition walk_turn m (w : Walker) : outcome PagingError (Walker * option (option (PteInfo P))) :=
  let config := wk_config w in
  if wk_finished w then Ok (w, Some None)
  else match wk_stack w with
  | [] => Ok (mk_Walker config [] true, Some None)
  | state :: below =>
      if LEN <=? ws_index state then Ok (mk_Walker config below false, None)
      else
        pte ← entry_at m (ws_frame state) (ws_index state);
        let state' := mk_WalkState (ws_frame state) (ws_level state) (ws_index state + 1)
                        (ws_base_vaddr state) in
        current_vaddr ← reconstruct_vaddr (ws_index state) (ws_level state) (ws_base_vaddr state);
        let w' := mk_Walker config (state' :: below) false in
        if current_vaddr <? wc_start_vaddr config then Ok (w', None)
        else if wc_end_vaddr config <=? current_vaddr
        then Ok (mk_Walker config (state' :: below) true, Some None)
        else
          let pte_config := to_config pte (1 <? ws_level state)%nat in
          let is_final := valid pte_config && (huge pte_config || (ws_level state =? 1)%nat) in
          let info := mk_PteInfo (ws_level state) current_vaddr is_final pte in
          if valid pte_config && negb (huge pte_config) && (1 <? ws_level state)%nat then
            let child := mk_WalkState (paddr pte_config) (ws_level state - 1) 0 current_vaddr in
            Ok (mk_Walker config (stack_push child (state' :: below)) false, Some (Some info))
          else Ok (w', Some (Some info))
  end.

(** [find_next_entry]. *)
Fixpoint find_next_entry (fuel : nat) m (w : Walker) :
    outcome PagingError (Walker * option (PteInfo P)) :=
  match fuel with
  | O => Stuck
  | S fuel' =>
      '(w', r) ← walk_turn m w;
      match r with
      | None => find_next_entry fuel' m w'
      | Some r' => Ok (w', r')
      end
  end.

(** Everything the iterator produces, in order. *)
Fixpoint collect (fuel : nat) m (w : Walker) : outcome PagingError (list (PteInfo P)) :=
  match fuel with
  | O => Stuck
  | S fuel' =>
      '(w', r) ← walk_turn m w;
      match r with
      | None => collect fuel' m w'
      | Some None => Ok []
      | Some (Some i) => l ← collect fuel' m w'; Ok (i :: l)
      end
  end.

(** table.rs: [walk] and [walk_valid]. *)
Definition walk_filter (l : list (PteInfo P)) : list (PteInfo P) :=
  filter (λ i, valid (to_config (pi_pte i) false) = true) l.
Definition walk (fuel : nat) m (root start_vaddr end_vaddr : Z) :=
  l ← collect fuel m (walker_new root (mk_WalkConfig start_vaddr end_vaddr));
  Ok (walk_filter l).
Definition walk_valid (fuel : nat) m (root : Z) :=
  l ← walk fuel m root 0 usize_max;
  Ok (filter (λ i, (valid (to_config (pi_pte i) false) && pi_is_final_mapping i)%bool = true) l).

(** ** The specification: a recursive listing *)

Definition entry_vaddr (l : nat) (base : Z) (i : nat) : Z := base + Z.of_nat i * level_size l.

Definition entry_info (l : nat) (v : Z) (pte : P) : PteInfo P :=
  let c := to_config pte (1 <? l)%nat in
  mk_PteInfo l v (valid c && (huge c || (l =? 1)%nat)) pte.

Section Listing.
Context (cfg : WalkConfig).

Definition list_entry (sub : Z → Z → list (PteInfo P)) (l : nat) m (p base : Z) (i : nat) :
    list (PteInfo P) :=
  let v := entry_vaddr l base i in
  match (m !! p) ≫= (λ es, es !! i) with
  | Some pte =>
      if (v <? wc_start_vaddr cfg) || (wc_end_vaddr cfg <=? v) then []
      else entry_info l v pte ::
             (if is_link l pte then sub (paddr (config_at l pte)) v else [])
  | None => []
  end.

Fixpoint listing (l : nat) m (p base : Z) : list (PteInfo P) :=
  match l with
  | O => []
  | S l' => flat_map (list_entry (λ c v, listing l' m c v) l m p base) (seq 0 (Z.to_nat LEN))
  end.
End Listing.
End Walk.

(** ** The iterator refines the listing *)

Section WalkProof.
Context {P : Type} `{PTE : PageTableEntry P} `{TM : TableMeta} {TMO : TableMetaOk}.
Implicit Types (m : gmap Z (list P)).

(** Every table is full: the number of indices is the number of entries. *)
Class FullTables : Prop := full_tables l : level_ok l → 2 ^ lbits l = LEN.
Context {FT : FullTables}.

Lemma collect_mono m F : ∀ F' w L, collect F m w = Ok L → (F ≤ F')%nat → collect F' m w = Ok L.
Proof.
  induction F as [|F IH]; intros F' w L; [done|]. destruct F' as [|F']; [lia|]. simpl.
  destruct (walk_turn m w) as [[w' r]| |]; simpl; [|done..].
  intros H Hle. destruct r as [[i|]|]; [|done|apply IH; [done|lia]].
  destruct (collect F m w') as [L'| |] eqn:E; simpl in *; inv_ok; try done.
  rewrite (IH F' w' L' E) by lia. done.
Qed.

Lemma table_span l : level_ok l → table_size l = LEN * level_size l.
Proof. intros Hl. unfold table_size. rewrite full_tables by done. lia. Qed.

(** An entry of a table whose range is below [2^64] has an address. *)
Lemma entry_vaddr_ok l base (i : nat) : level_ok l → 0 ≤ base → base + table_size l ≤ 2 ^ 64 →
  (i < Z.to_nat LEN)%nat →
  reconstruct_vaddr (Z.of_nat i) l base = Ok (entry_vaddr l base i) ∧
  base ≤ entry_vaddr l base i ∧ entry_vaddr l base i + level_size l ≤ base + table_size l.
Proof.
  intros Hl Hb Ht Hi. pose proof (level_size_pos l Hl). rewrite table_span in * by done.
  assert (Z.of_nat i + 1 ≤ LEN) by lia. unfold reconstruct_vaddr, entry_vaddr.
  rewrite umul_ok by nia. simpl. rewrite uadd_ok by nia. split_and!; [done|nia|nia].
Qed.

#[local] Arguments Z.of_nat : simpl never.

Section Run.
Context (cfg : WalkConfig) (m : gmap Z (list P)).

Definition from (l : nat) (p base : Z) (i n : nat) : list (PteInfo P) :=
  flat_map (list_entry cfg (λ c v, listing cfg (l - 1) m c v) l m p base) (seq i n).

Lemma listing_from l p base : (1 ≤ l)%nat →
  listing cfg l m p base = from l p base 0 (Z.to_nat LEN).
Proof. intros. unfold from. destruct l; [lia|]. simpl. by rewrite Nat.sub_0_r. Qed.

(** Entries past the end of the range list nothing. *)
Lemma from_late l p base i n : level_ok l → wc_end_vaddr cfg ≤ entry_vaddr l base i →
  from l p base i n = [].
Proof.
  intros Hl. revert i. induction n as [|n IH]; intros i Hi; [done|].
  unfold from. simpl. rewrite flat_map_concat_map. fold (@app (PteInfo P)).
  rewrite <- flat_map_concat_map. fold (from l p base (S i) n). rewrite IH.
  - rewrite app_nil_r. unfold list_entry. destruct (_ ≫= _); [|done].
    by rewrite (proj2 (Z.leb_le _ _)), orb_true_r by lia.
  - unfold entry_vaddr in *. pose proof (level_size_pos l Hl). nia.
Qed.

Definition walker (stack : list WalkState) : Walker := mk_Walker cfg stack false.

(** The iterator lists the rest of the table at the top of the stack, then
    what it lists from the stack below. *)
Definition lists_table (l : nat) (p base : Z) (i n : nat) : Prop :=
  ∀ below F R, (length below + l ≤ MAX_WALK_DEPTH)%nat →
    collect F m (walker below) = Ok R → (wc_end_vaddr cfg ≤ base + table_size l → R = []) →
    ∃ F', collect F' m (walker (mk_WalkState p l (Z.of_nat i) base :: below)) =
      Ok (from l p base i n ++ R).

Lemma lists_end l p base (i : nat) : LEN ≤ Z.of_nat i → lists_table l p base i 0.
Proof.
  intros Hi below F R _ HR _. exists (S F). simpl. unfold walk_turn. simpl.
  rewrite (proj2 (Z.leb_le _ _)) by done. done.
Qed.

Lemma lists_step l p base i n es :
  level_ok l → 0 ≤ base → base + table_size l ≤ 2 ^ 64 → (S i + n = Z.to_nat LEN)%nat →
  m !! p = Some es → length es = Z.to_nat LEN →
  (∀ e, es !! i = Some e → is_link l e = true →
     lists_table (l - 1) (paddr (config_at l e)) (entry_vaddr l base i) 0 (Z.to_nat LEN)) →
  lists_table l p base (S i) n → lists_table l p base i (S n).
Proof.
  intros Hl Hb Ht Hin Hp Hlen Hsub Hrest below F R Hd HR Hlate.
  destruct (lookup_lt_is_Some_2 es i) as [pte He]; [lia|].
  destruct (entry_vaddr_ok l base i Hl Hb Ht) as (Hv & Hv1 & Hv2); [lia|].
  set (v := entry_vaddr l base i) in *. pose proof (level_size_pos l Hl) as Hls.
  assert (Hvn : v + level_size l = entry_vaddr l base (S i)) by (unfold v, entry_vaddr; lia).
  destruct (Hrest below F R Hd HR Hlate) as [F1 HF1].
  assert (Efrom : from l p base i (S n) =
    list_entry cfg (λ c v, listing cfg (l - 1) m c v) l m p base i ++ from l p base (S i) n) by done.
  rewrite Efrom. unfold list_entry. rewrite Hp. simpl. rewrite He. fold v.
  assert (Hturn : ∀ st, walk_turn m (walker (mk_WalkState p l (Z.of_nat i) base :: st)) =
    let st' := mk_WalkState p l (Z.of_nat (S i)) base :: st in
    if v <? wc_start_vaddr cfg then Ok (walker st', None)
    else if wc_end_vaddr cfg <=? v then Ok (mk_Walker cfg st' true, Some None)
    else if is_link l pte then
      Ok (walker (stack_push (mk_WalkState (paddr (config_at l pte)) (l - 1) 0 v) st'),
          Some (Some (entry_info l v pte)))
    else Ok (walker st', Some (Some (entry_info l v pte)))).
  { intros st. unfold walk_turn. simpl. rewrite (proj2 (Z.leb_gt _ _)) by lia.
    unfold entry_at. rewrite Hp, Nat2Z.id. simpl. rewrite He. simpl. rewrite Hv. simpl.
    replace (Z.of_nat i + 1) with (Z.of_nat (S i)) by lia.
    replace (valid (to_config pte (1 <? l)%nat) && negb (huge (to_config pte (1 <? l)%nat)) && (1 <? l)%nat)
      with (is_link l pte) by (unfold is_link, config_at; destruct (1 <? l)%nat, (valid _), (huge _); done).
    done. }
  destruct (Z.ltb_spec v (wc_start_vaddr cfg)) as [Hlo|Hlo].
  { exists (S F1). simpl. rewrite Hturn. simpl. exact HF1. }
  destruct (Z.leb_spec (wc_end_vaddr cfg) v) as [Hhi|Hhi].
  { exists 1%nat. simpl. rewrite Hturn. simpl. rewrite from_late; [|done|lia].
    by rewrite Hlate by lia. }
  destruct (is_link l pte) eqn:Hlk; simpl.
  2:{ exists (S F1). simpl. rewrite Hturn. simpl. by rewrite HF1. }
  pose proof Hlk as (Hl1 & _)%is_link_spec.
  assert (HT : table_size (l - 1) = level_size l).
  { assert (level_ok (l - 1)) by (by apply level_ok_pred). rewrite <- table_size_S; [|done|];
      replace (S (l - 1)) with l by lia; done. }
  destruct (Hsub pte He Hlk (mk_WalkState p l (Z.of_nat (S i)) base :: below) F1 (from l p base (S i) n ++ R))
    as [F2 HF2]; [simpl; lia|exact HF1| |].
  { rewrite HT, Hvn. intros Hlt. rewrite from_late by done. simpl. apply Hlate. lia. }
  exists (S F2). simpl. rewrite Hturn. simpl. unfold stack_push. simpl.
  rewrite (proj2 (Nat.ltb_lt (S (length below)) MAX_WALK_DEPTH)) by lia.
  change (Z.of_nat 0) with 0 in HF2. rewrite HF2. simpl. rewrite listing_from by lia. by rewrite app_assoc.
Qed.

Lemma lists_all l : level_ok l → ∀ p fs base, tree l m p fs → 0 ≤ base → base + table_size l ≤ 2 ^ 64 →
  lists_table l p base 0 (Z.to_nat LEN).
Proof.
  induction l as [|l IH]; intros Hl p fs base Ht Hb Hbt; [unfold level_ok in Hl; lia|].
  pose proof Ht as (_ & es & kids & Hp & Hlen & _ & _ & _ & Hk)%tree_node.
  cut (∀ n i, (i + n = Z.to_nat LEN)%nat → lists_table (S l) p base i n); [intros H; by apply H|].
  induction n as [|n IHn]; intros i Hi; [apply lists_end; lia|].
  eapply lists_step; try done; [lia| |apply IHn; lia].
  intros e He Hlk. replace (S l - 1)%nat with l by lia. specialize (Hk i). rewrite He, Hlk in Hk.
  replace (S l - 1)%nat with l in Hk by lia. pose proof Hlk as (? & _)%is_link_spec.
  assert (level_ok l) by (unfold level_ok in *; lia).
  destruct (entry_vaddr_ok (S l) base i Hl Hb Hbt) as (_ & ? & ?); [lia|].
  apply IH with (kids i); [done..|lia|]. rewrite <- table_size_S by done. lia.
Qed.
End Run.

(** The iterator ends and lists what the recursion lists. *)
Lemma walk_run m root fs cfg :
  tree PT_LEVEL m root fs → level_ok PT_LEVEL → (PT_LEVEL ≤ MAX_WALK_DEPTH)%nat →
  wc_start_vaddr cfg < wc_end_vaddr cfg →
  ∃ F, ∀ F', (F ≤ F')%nat →
    collect F' m (walker_new root cfg) = Ok (listing cfg PT_LEVEL m root 0).
Proof.
  intros Ht Hl Hd Hlt. unfold walker_new. rewrite (proj2 (Z.ltb_lt _ _)) by done.
  unfold stack_push. simpl. pose proof (table_size_le PT_LEVEL Hl).
  destruct (lists_all cfg m PT_LEVEL Hl root fs 0 Ht ltac:(lia) ltac:(lia) [] 1%nat []) as [F HF];
    [simpl; lia|done|done|].
  exists F. intros F' HF'. eapply collect_mono; [|done]. rewrite listing_from by (unfold level_ok in *; lia).
  by rewrite app_nil_r in HF.
Qed.

(** ** What the listing holds *)

Lemma div_block a x b : 0 < b → (b | a) → a ≤ x < a + b → x / b = a / b.
Proof. intros. apply div_eq_range; [done|]. by rewrite divide_div_mul. Qed.

(** The block of addresses entry [i] of a table stands for. *)
Lemma entry_block l base (i : nat) : level_ok l → (table_size l | base) → (i < Z.to_nat LEN)%nat →
  let v := entry_vaddr l base i in
  (base ≤ v ∧ v + level_size l ≤ base + table_size l) ∧ (level_size l | v) ∧
  ∀ y, v ≤ y < v + level_size l → Z.to_nat (index y l) = i.
Proof.
  intros Hl Hb Hi v. pose proof (level_size_pos _ Hl) as Hls.
  assert (Hvd : (level_size l | v)).
  { apply Z.divide_add_r; [|apply Z.divide_factor_r].
    etransitivity; [|exact Hb]. unfold table_size. apply Z.divide_factor_l. }
  split_and!; [| |done|].
  - unfold v, entry_vaddr. nia.
  - rewrite table_span by done. unfold v, entry_vaddr. nia.
  - intros y Hy. assert (Hyd : y / level_size l = v / level_size l) by (by apply div_block).
    replace (index y l) with (Z.of_nat i); [by rewrite Nat2Z.id|].
    unfold index. rewrite Hyd, full_tables by done. destruct Hb as [b ->].
    unfold v, entry_vaddr. rewrite table_span by done.
    replace (b * (LEN * level_size l) + Z.of_nat i * level_size l)
      with ((Z.of_nat i + b * LEN) * level_size l) by lia.
    rewrite Z.div_mul by lia. rewrite Z.mod_add by lia. rewrite Z.mod_small by lia. done.
Qed.

(** A final mapping that is listed below a table is the translation of its
    address. *)
Lemma listing_sound cfg m l : level_ok l → ∀ p fs base i, tree l m p fs →
  0 ≤ base → (table_size l | base) → i ∈ listing cfg l m p base → pi_is_final_mapping i = true →
  translate_recursive_with_level m p (pi_vaddr i) l = Ok (pi_pte i, pi_level i) ∧
  wc_start_vaddr cfg ≤ pi_vaddr i < wc_end_vaddr cfg ∧
  base ≤ pi_vaddr i < base + table_size l.
Proof.
  induction l as [|l IH]; intros Hl p fs base x Ht Hb0 Hb Hx Hf; [unfold level_ok in Hl; lia|].
  pose proof Ht as (_ & es & kids & Hp & Hlen & _ & _ & _ & Hk)%tree_node.
  pose proof (level_size_pos _ Hl) as Hls. pose proof (table_size_pos _ Hl) as Hts.
  simpl in Hx. apply list_elem_of_In, in_flat_map in Hx as (i & Hi & Hx).
  apply list_elem_of_In in Hx. apply in_seq in Hi.
  unfold list_entry in Hx. rewrite Hp in Hx. simpl in Hx.
  destruct (es !! i) as [pte|] eqn:He; [|by apply not_elem_of_nil in Hx].
  set (v := entry_vaddr (S l) base i) in *.
  destruct ((v <? wc_start_vaddr cfg) || (wc_end_vaddr cfg <=? v)) eqn:Er; [by apply not_elem_of_nil in Hx|].
  bool_to_prop.
  destruct (entry_block (S l) base i Hl Hb ltac:(lia)) as (Hv & Hvd & Hidx). fold v in Hv, Hvd, Hidx.
  apply elem_of_cons in Hx as [->|Hx].
  - unfold entry_info in *. cbn [pi_vaddr pi_level pi_pte pi_is_final_mapping] in *.
    split; [|lia]. rewrite (translate_at (S l) m p v es pte); [|done|done|].
    + apply andb_prop in Hf as [Hva Hhu]. unfold config_at. by rewrite Hva, Hhu.
    + rewrite Hidx by lia. done.
  - destruct (is_link (S l) pte) eqn:Hlk; [|by apply not_elem_of_nil in Hx].
    pose proof Hlk as (? & Hva & Hhu)%is_link_spec.
    assert (Hl' : level_ok l) by (unfold level_ok in *; lia).
    specialize (Hk i). rewrite He, Hlk in Hk. replace (S l - 1)%nat with l in Hk by lia.
    destruct (IH Hl' (paddr (config_at (S l) pte)) (kids i) v x) as (Htr & ? & Hin);
      [done|lia|by rewrite <- table_size_S|done|done|].
    rewrite <- table_size_S in Hin by done. split; [|lia].
    rewrite (translate_at (S l) m p (pi_vaddr x) es pte); [|done|done|by rewrite Hidx by lia].
    rewrite Hva, Hhu. simpl. rewrite (proj2 (Nat.eqb_neq l 0)) by lia. by rewrite Nat.sub_0_r.
Qed.

(** Every mapping below a table that starts in the range is listed, when the
    range starts at or below the table. *)
Lemma listing_complete cfg m l : level_ok l → ∀ p fs base x pte l', tree l m p fs →
  0 ≤ base → (table_size l | base) → wc_start_vaddr cfg ≤ base → base ≤ x < base + table_size l →
  translate_recursive_with_level m p x l = Ok (pte, l') →
  x - x mod level_size l' < wc_end_vaddr cfg →
  mk_PteInfo l' (x - x mod level_size l') true pte ∈ listing cfg l m p base.
Proof.
  induction l as [|l IH]; intros Hl p fs base x pte l' Ht Hb0 Hb Hst Hx Htr Hend; [unfold level_ok in Hl; lia|].
  pose proof Ht as (_ & es & kids & Hn)%tree_node.
  destruct (node_entry _ _ _ _ _ _ x Hl Hn) as [e He]. destruct Hn as (Hp & Hlen & _ & _ & _ & Hk).
  pose proof (level_size_pos _ Hl) as Hls. pose proof (index_range x (S l) Hl) as Hi.
  set (i := Z.to_nat (index x (S l))) in *.
  destruct (entry_block (S l) base i Hl Hb ltac:(lia)) as ([Hv1 Hv2] & Hvd & _).
  set (v := entry_vaddr (S l) base i) in *.
  assert (Hxv : v ≤ x < v + level_size (S l)).
  { assert (Ew : x / table_size (S l) = v / table_size (S l)).
    { pose proof (table_size_pos _ Hl). transitivity (base / table_size (S l)); [|symmetry];
        (apply div_block; [done|done|lia]). }
    assert (Ei : index x (S l) = index v (S l)).
    { destruct (entry_block (S l) base i Hl Hb ltac:(lia)) as (_ & _ & Hix). fold v in Hix.
      apply Z2Nat.inj; [lia|pose proof (index_range v (S l) Hl); lia|]. by rewrite (Hix v) by lia. }
    apply index_eq in Ei; [|done..]. apply div_eq_range in Ei; [|done].
    by rewrite divide_div_mul in Ei by done. }
  rewrite (translate_at (S l) m p x es e) in Htr by done.
  destruct (valid (config_at (S l) e)) eqn:Hva; simpl in Htr; [|done].
  simpl. apply list_elem_of_In, in_flat_map. exists i. split; [apply in_seq; lia|]. apply list_elem_of_In.
  unfold list_entry. rewrite Hp. simpl. rewrite He. fold v.
  destruct (huge (config_at (S l) e) || (l =? 0)%nat) eqn:Hfin; simpl in Htr.
  - inv_ok. assert (E : x - x mod level_size (S l) = v).
    { rewrite <- (divide_div_mul v (level_size (S l)) Hls Hvd).
      rewrite <- (div_block v x) by done.
      rewrite Z.mod_eq by lia. lia. }
    rewrite E in *. rewrite (proj2 (Z.ltb_ge _ _)), (proj2 (Z.leb_gt _ _)) by lia. simpl.
    apply elem_of_cons. left. unfold entry_info. fold (config_at (S l) pte). rewrite Hva. simpl. by rewrite Hfin.
  - apply orb_false_elim in Hfin as [Hhu Hl0]. apply Nat.eqb_neq in Hl0. rewrite Nat.sub_0_r in Htr.
    assert (Hl' : level_ok l) by (unfold level_ok in *; lia).
    assert (Hlk : is_link (S l) e = true) by (apply is_link_spec; split_and!; [lia|done..]).
    specialize (Hk i). rewrite He, Hlk in Hk. replace (S l - 1)%nat with l in Hk by lia.
    assert (HT : table_size l = level_size (S l)) by (by rewrite table_size_S).
    pose proof (IH Hl' _ _ v x pte l' Hk ltac:(lia) ltac:(by rewrite HT) ltac:(lia) ltac:(lia) Htr Hend) as Hin.
    assert (v ≤ x - x mod level_size l').
    { eapply (listing_sound cfg m l Hl' _ _ v _ Hk) in Hin as (_ & _ & ? & _); [done|lia|by rewrite HT|done]. }
    rewrite (proj2 (Z.ltb_ge _ _)), (proj2 (Z.leb_gt _ _)) by lia. simpl.
    apply elem_of_cons. right. by rewrite Hlk.
Qed.

(** C10: the walker refines the recursive listing. On a well-formed table it
    ends, with enough turns of its loop, and what it produces is sound (every
    final mapping it reports is the translation of its address, inside the
    range) and, when the range starts at 0, complete (every mapped block that
    starts below the end of the range is reported). *)
Theorem walk_refines m root fs cfg :
  tree PT_LEVEL m root fs → (1 ≤ PT_LEVEL ≤ MAX_WALK_DEPTH)%nat →
  wc_start_vaddr cfg < wc_end_vaddr cfg →
  ∃ F L, (∀ F', (F ≤ F')%nat → collect F' m (walker_new root cfg) = Ok L) ∧
    (∀ i, i ∈ L → pi_is_final_mapping i = true →
       translate_recursive_with_level m root (pi_vaddr i) PT_LEVEL = Ok (pi_pte i, pi_level i) ∧
       wc_start_vaddr cfg ≤ pi_vaddr i < wc_end_vaddr cfg) ∧
    (wc_start_vaddr cfg = 0 → ∀ x pte l,
       0 ≤ x < table_size PT_LEVEL →
       translate_recursive_with_level m root x PT_LEVEL = Ok (pte, l) →
       x - x mod level_size l < wc_end_vaddr cfg →
       mk_PteInfo l (x - x mod level_size l) true pte ∈ L).
Proof.
  intros Ht [Hl1 Hd] Hlt. assert (Hl : level_ok PT_LEVEL) by (by split).
  destruct (walk_run m root fs cfg Ht Hl Hd Hlt) as [F HF].
  exists F, (listing cfg PT_LEVEL m root 0). split_and!; [done| |].
  - intros i Hi Hf. destruct (listing_sound cfg m PT_LEVEL Hl root fs 0 i Ht) as (? & ? & _);
      [lia|apply Z.divide_0_r|done..].
  - intros Hs x pte l Hx Htr Hend. eapply (listing_complete cfg m PT_LEVEL Hl root fs 0);
      [done|lia|apply Z.divide_0_r|lia|lia|done|done].
Qed.
End WalkProof.
