(* ===== verification/RangesExt.v ===== *)
(** * Sets of typed ranges

    crates/ranges-ext: the trait [RangeOp] of a range with a kind, and the
    provided methods [merge_same_kind] and [merge_add] of [VecOp], over the two
    vectors that implement it: [alloc::vec::Vec] (vec.rs) and [heapless::Vec]
    (less.rs), which differ in their capacity. The contract is a lookup
    function: [kinds_at l a] lists the kinds of the ranges of [l] that hold
    the address [a]. [merge_add] makes it the kind of the new range inside the
    new range, and keeps it everywhere else. *)

From stdpp Require Import base list numbers.
From S2P Require Import Prelude.
Open Scope Z_scope.

(** lib.rs: [RangeOp]. [mergeable] is its provided method, which no
    implementation in the repository overrides. *)
Class RangeOp (T K : Type) : Type := {
  range : T → Z * Z;
  kind : T → K;
  overwritable : T → T → bool;
  clone_with_range : T → Z → Z → T
}.

(** A range that is cloned with new bounds has these bounds and its kind;
    [sane] says which ranges an element can hold. *)
Class RangeOpLaws (T K : Type) `{RangeOp T K} (sane : T → Prop) : Prop := {
  sane_ordered t : sane t → (range t).1 ≤ (range t).2;
  clone_range t lo hi : lo ≤ hi → range (clone_with_range t lo hi) = (lo, hi);
  clone_kind t lo hi : kind (clone_with_range t lo hi) = kind t;
  clone_sane t u lo hi : sane t → sane u → lo < hi ∨ lo = hi ∧ (range t).1 = (range t).2 →
    Z.min (range t).1 (range u).1 ≤ lo → hi ≤ Z.max (range t).2 (range u).2 →
    sane (clone_with_range t lo hi)
}.

(** lib.rs: [RangeError]. *)
Inductive RangeError (T : Type) : Type :=
| Capacity
| Conflict (new existing : T).
Arguments Capacity {T}.
Arguments Conflict {T} new existing.

Section RangesExt.
Context {T K : Type} `{RO : RangeOp T K} `{EqDecision K}.
(** The capacity: [None] for [alloc::vec::Vec], [Some N] for [heapless::Vec<T, N>]. *)
Context (cap : option nat).

Notation VM := (M (list T) (RangeError T)).
Implicit Types (l : list T) (x y item : T) (a : Z).

Definition rstart x : Z := (range x).1.
Definition rend x : Z := (range x).2.

Definition mergeable x y : bool := bool_decide (kind x = kind y).

(** ** The vector *)

Definition full l : bool :=
  match cap with Some n => (n <=? length l)%nat | None => false end.

Definition vec_push (item : T) : VM unit := λ l,
  if full l then (l, Err Capacity) else (l ++ [item], Ok tt).

Definition vec_remove (i : nat) : VM T := λ l,
  match l !! i with Some x => (delete i l, Ok x) | None => (l, Stuck) end.

Definition vec_insert (i : nat) (item : T) : VM unit := λ l,
  if (length l <? i)%nat then (l, Stuck)
  else if full l then (l, Err Capacity)
  else (take i l ++ item :: drop i l, Ok tt).

(** ** [merge_same_kind] *)

(** Same kind, and adjacent or overlapping. *)
Definition touching x y : bool :=
  mergeable x y && (rstart y <=? rend x) && (rstart x <=? rend y).

(** The inner [for j] loop, over the elements from index [j] on. *)
Fixpoint find_next x (rest : list T) (j : nat) : option nat :=
  match rest with
  | [] => None
  | y :: rest' => if touching x y then Some j else find_next x rest' (S j)
  end.

(** The outer [for i] loop: the first pair that can be merged. *)
Fixpoint find_pair (rest : list T) (i : nat) : option (nat * nat) :=
  match rest with
  | [] => None
  | x :: rest' =>
      match find_next x rest' (S i) with
      | Some j => Some (i, j)
      | None => find_pair rest' (S i)
      end
  end.

Definition merged_range x y : T :=
  clone_with_range x (Z.min (rstart x) (rstart y)) (Z.max (rend x) (rend y)).

(** [let _ = ..]: the error is dropped. *)
Definition let_ignored (m : VM unit) : VM unit := λ l,
  match m l with
  | (l', Stuck) => (l', Stuck)
  | (l', _) => (l', Ok tt)
  end.

(** The body of the merge: the larger index is removed first, and the result
    of the insertion is dropped. *)
Definition merge_pair (i j : nat) : VM unit := λ l,
  match l !! i, l !! j with
  | Some x, Some y =>
      (_ ← vec_remove j;
       _ ← vec_remove i;
       let_ignored (vec_insert i (merged_range x y))) l
  | _, _ => (l, Stuck)
  end.

(** The [loop]: every turn that goes on shortens the vector. *)
Fixpoint merge_loop (fuel : nat) : VM unit := λ l,
  match find_pair l 0 with
  | None => (l, Ok tt)
  | Some (i, j) =>
      match fuel with
      | O => (l, Stuck)
      | S fuel' => (_ ← merge_pair i j; merge_loop fuel') l
      end
  end.

Definition merge_same_kind : VM unit := λ l, merge_loop (length l) l.

(** ** [merge_add] *)

Definition overlaps item x : bool :=
  (rstart item <? rend x) && (rstart x <? rend item).

(** One turn of the [while] loop at index [i]: the new index. *)
Definition add_step item (i : nat) : VM nat := λ l,
  match l !! i with
  | None => (l, Stuck)
  | Some x =>
      (if overlaps item x then
         if negb (overwritable x item || mergeable x item) then fail (Conflict item x)
         else if (rstart item <=? rstart x) && (rend x <=? rend item) then
           _ ← vec_remove i; mret i
         else if (rstart x <? rstart item) && (rend item <? rend x) then
           _ ← vec_remove i;
           _ ← vec_insert i (clone_with_range x (rstart x) (rstart item));
           _ ← vec_insert (i + 1) (clone_with_range x (rend item) (rend x));
           mret (i + 2)%nat
         else if rstart item <=? rstart x then
           _ ← vec_remove i;
           _ ← vec_insert i (clone_with_range x (rend item) (rend x));
           mret (i + 1)%nat
         else
           _ ← vec_remove i;
           _ ← vec_insert i (clone_with_range x (rstart x) (rstart item));
           mret (i + 1)%nat
       else mret (i + 1)%nat) l
  end.

(** [while i < self.len()]: every turn leaves one element less ahead of [i]. *)
Fixpoint add_loop item (fuel i : nat) : VM unit := λ l,
  if (i <? length l)%nat then
    match fuel with
    | O => (l, Stuck)
    | S fuel' => (i' ← add_step item i; add_loop item fuel' i') l
    end
  else (l, Ok tt).

Definition merge_add item : VM unit := λ l,
  (_ ← add_loop item (length l) 0;
   _ ← vec_push item;
   merge_same_kind) l.

(** ** The contract *)

Definition holds a x : bool := (rstart x <=? a) && (a <? rend x).

(** The kinds of the ranges that hold [a]. *)
Definition kinds_at l a : list K := kind <$> filter (λ x, holds a x = true) l.

(** No address is in two ranges. *)
Definition no_overlap l : Prop := ∀ a, (length (kinds_at l a) ≤ 1)%nat.

(** What is left of [x] when [item] is put over it. *)
Definition cut item x : list T :=
  if overlaps item x then
    if (rstart item <=? rstart x) && (rend x <=? rend item) then []
    else if (rstart x <? rstart item) && (rend item <? rend x) then
      [clone_with_range x (rstart x) (rstart item); clone_with_range x (rend item) (rend x)]
    else if rstart item <=? rstart x then [clone_with_range x (rend item) (rend x)]
    else [clone_with_range x (rstart x) (rstart item)]
  else [x].

(** [item] may not be put over [x]. *)
Definition conflicts item x : bool :=
  overlaps item x && negb (overwritable x item || mergeable x item).

End RangesExt.
