(* ===== verification/RangesProof.v ===== *)
(** * Sets of typed ranges: correctness of [merge_add]

    The loop of [merge_add] computes [cut] on every element; [cut] removes the
    new range from the lookup function and nothing else; [merge_same_kind]
    terminates, keeps the lookup function and leaves no pair to merge. *)

From stdpp Require Import base list numbers.
From S2P Require Import Prelude RangesExt.
Open Scope Z_scope.

Section RangesProof.
Context {T K : Type} `{RO : RangeOp T K} `{EqDecision K}.
Context (sane : T → Prop) {RL : RangeOpLaws T K sane} (cap : option nat).
Implicit Types (l pre post : list T) (x y item : T) (a : Z).

(** ** The vector operations at a split *)

Lemma remove_middle pre x post :
  vec_remove (length pre) (pre ++ x :: post) = (pre ++ post, Ok x).
Proof. unfold vec_remove. rewrite list_lookup_middle by done. by rewrite delete_middle. Qed.

Lemma insert_middle pre x post :
  full cap (pre ++ post) = false →
  vec_insert cap (length pre) x (pre ++ post) = (pre ++ x :: post, Ok tt).
Proof.
  intros Hf. unfold vec_insert. rewrite Hf, length_app.
  rewrite (proj2 (Nat.ltb_ge _ _)) by lia. by rewrite take_app_length, drop_app_length.
Qed.

(** A vector never holds more than its capacity. *)
Definition fits l : Prop := match cap with Some n => (length l ≤ n)%nat | None => True end.

Lemma full_after_remove pre x post : fits (pre ++ x :: post) → full cap (pre ++ post) = false.
Proof.
  unfold fits, full. destruct cap; [|done]. rewrite !length_app. simpl.
  intros. apply Nat.leb_gt. lia.
Qed.

Lemma full_replace pre x y post : full cap (pre ++ x :: post) = full cap (pre ++ y :: post).
Proof. unfold full. destruct cap; [|done]. by rewrite !length_app. Qed.

(** ** The lookup function *)

Lemma kinds_at_app l1 l2 a : kinds_at (l1 ++ l2) a = kinds_at l1 a ++ kinds_at l2 a.
Proof. unfold kinds_at. by rewrite list.filter_app, fmap_app. Qed.

Lemma kinds_at_cons x l a :
  kinds_at (x :: l) a = (if holds a x then [kind x] else []) ++ kinds_at l a.
Proof. unfold kinds_at. rewrite filter_cons. case_decide as H; rewrite ?H; [done|]. by destruct (holds a x). Qed.

Lemma kinds_at_perm l l' a : l ≡ₚ l' → kinds_at l a ≡ₚ kinds_at l' a.
Proof. intros Hp. unfold kinds_at. by rewrite Hp. Qed.

Lemma holds_spec a x : holds a x = true ↔ rstart x ≤ a < rend x.
Proof. unfold holds. rewrite andb_true_iff, Z.leb_le, Z.ltb_lt. done. Qed.

Lemma holds_clone a x lo hi :
  lo ≤ hi → holds a (clone_with_range x lo hi) = (lo <=? a) && (a <? hi).
Proof. intros. unfold holds, rstart, rend. by rewrite clone_range. Qed.

Lemma sane_le x : sane x → rstart x ≤ rend x.
Proof. apply sane_ordered. Qed.

(** Decide the tests of a goal and close it by arithmetic. *)
Ltac range_cases :=
  repeat (match goal with
    | |- context [Z.leb ?u ?v] => destruct (Z.leb_spec u v)
    | |- context [Z.ltb ?u ?v] => destruct (Z.ltb_spec u v)
    end; simpl); try done; try (exfalso; lia).

(** [cut] takes the new range out of a range and leaves the rest of it. *)
Lemma cut_kinds_at item x a :
  sane item → sane x →
  kinds_at (cut item x) a = if holds a item then [] else kinds_at [x] a.
Proof.
  intros Hi%sane_le Hx%sane_le. unfold cut, overlaps.
  destruct (Z.ltb_spec (rstart item) (rend x)), (Z.ltb_spec (rstart x) (rend item)); simpl;
    [|rewrite !kinds_at_cons; unfold holds; range_cases..].
  destruct (Z.leb_spec (rstart item) (rstart x)), (Z.leb_spec (rend x) (rend item)),
    (Z.ltb_spec (rstart x) (rstart item)), (Z.ltb_spec (rend item) (rend x)); simpl; try lia;
    rewrite ?kinds_at_cons; rewrite ?holds_clone, ?clone_kind by lia; unfold holds; range_cases.
Qed.

Lemma cut_sane item x : sane item → sane x → Forall sane (cut item x).
Proof.
  intros Hi Hx. pose proof (sane_le _ Hi). pose proof (sane_le _ Hx). unfold cut, overlaps.
  repeat case_if; repeat constructor; try done; eapply (clone_sane x x); try done;
    unfold rstart, rend in *; try left; lia.
Qed.

Lemma cuts_kinds_at item l a :
  sane item → Forall sane l →
  kinds_at (flat_map (cut item) l) a = if holds a item then [] else kinds_at l a.
Proof.
  intros Hi Hl. induction Hl as [|x l Hx Hl IH]; simpl; [by destruct (holds a item)|].
  rewrite kinds_at_app, IH, cut_kinds_at by done. rewrite (kinds_at_cons x l), kinds_at_cons.
  rewrite app_nil_r. by destruct (holds a item).
Qed.

Lemma cuts_sane item l : sane item → Forall sane l → Forall sane (flat_map (cut item) l).
Proof.
  intros Hi Hl. induction Hl as [|x l Hx Hl IH]; simpl; [constructor|].
  apply Forall_app. split; [by apply cut_sane|done].
Qed.

(** ** The loop of [merge_add] *)

(** [cut] splits [x] in two. *)
Definition splits item x : bool := (1 <? length (cut item x))%nat.

Lemma add_step_eq item pre x post :
  fits (pre ++ x :: post) →
  add_step cap item (length pre) (pre ++ x :: post) =
    if conflicts item x then (pre ++ x :: post, Err (Conflict item x))
    else if splits item x && full cap (pre ++ x :: post) then
      (pre ++ clone_with_range x (rstart x) (rstart item) :: post, Err Capacity)
    else (pre ++ cut item x ++ post, Ok (length pre + length (cut item x))%nat).
Proof.
  intros Hf. unfold add_step, conflicts, splits, cut.
  rewrite list_lookup_middle by done. unfold mbind, M_bind, mret, M_ret, fail.
  pose proof (full_after_remove _ _ _ Hf) as Hr.
  destruct (overlaps item x); simpl; [|by rewrite Nat.add_comm].
  destruct (overwritable x item || mergeable x item); simpl; [|done].
  destruct ((rstart item <=? rstart x) && (rend x <=? rend item)); simpl;
    [by rewrite remove_middle, Nat.add_0_r|].
  destruct ((rstart x <? rstart item) && (rend item <? rend x)); simpl.
  - rewrite remove_middle, insert_middle by done. set (left := clone_with_range x (rstart x) (rstart item)).
    replace (length pre + 1)%nat with (length (pre ++ [left])) by (rewrite length_app; simpl; lia).
    rewrite (full_replace pre x left). destruct (full cap (pre ++ left :: post)) eqn:E.
    + unfold vec_insert. rewrite E. by rewrite (proj2 (Nat.ltb_ge _ _)) by (rewrite !length_app; simpl; lia).
    + replace (pre ++ left :: post) with ((pre ++ [left]) ++ post) in * by (by rewrite <- app_assoc).
      rewrite insert_middle by done. rewrite <- app_assoc. simpl. done.
  - destruct (rstart item <=? rstart x); simpl; by rewrite remove_middle, insert_middle by done.
Qed.

(** The room [merge_add] needs: one more slot for every range split in two. *)
Definition room item pre post : Prop :=
  match cap with
  | Some n => (length pre + length post + length (filter (λ x, splits item x = true) post) ≤ n)%nat
  | None => True
  end.

Lemma add_loop_spec item post : ∀ pre fuel,
  (length post ≤ fuel)%nat → fits (pre ++ post) →
  match add_loop cap item fuel (length pre) (pre ++ post) with
  | (l', Ok _) => l' = pre ++ flat_map (cut item) post ∧ fits l' ∧
      Forall (λ x, conflicts item x = false) post
  | (_, Err (Conflict i x)) => i = item ∧ x ∈ post ∧ conflicts item x = true
  | (_, Err Capacity) => ¬ room item pre post
  | (_, Stuck) => False
  end.
Proof.
  induction post as [|x post IH]; intros pre fuel Hfu Hf.
  { destruct fuel; simpl; rewrite app_nil_r in *; rewrite Nat.ltb_irrefl; by split_and!. }
  destruct fuel as [|fuel]; simpl in Hfu; [lia|].
  simpl. rewrite (proj2 (Nat.ltb_lt _ _)) by (rewrite length_app; simpl; lia).
  unfold mbind, M_bind. rewrite add_step_eq by done.
  destruct (conflicts item x) eqn:Ec; [split_and!; [done|apply list_elem_of_here|done]|].
  destruct (splits item x && full cap (pre ++ x :: post)) eqn:Es.
  { apply andb_prop in Es as [Es Ef]. unfold room. unfold full in Ef. destruct cap as [n|]; [|done].
    apply Nat.leb_le in Ef. rewrite length_app in Ef. simpl in *.
    rewrite filter_cons_True by done. simpl. lia. }
  rewrite app_assoc.
  replace (length pre + length (cut item x))%nat with (length (pre ++ cut item x)) by apply length_app.
  assert (Hlen : (length (cut item x) ≤ 2)%nat) by (unfold cut; repeat case_if; simpl; lia).
  assert (Hf' : fits ((pre ++ cut item x) ++ post)).
  { unfold fits in *. unfold full, splits in Es. destruct cap as [n|]; [|done].
    rewrite !length_app in *. simpl in *.
    destruct (Nat.ltb_spec 1 (length (cut item x))); simpl in Es; [|lia].
    apply Nat.leb_gt in Es. lia. }
  specialize (IH (pre ++ cut item x) fuel ltac:(lia) Hf').
  destruct (add_loop cap item fuel (length (pre ++ cut item x)) ((pre ++ cut item x) ++ post))
    as [l' [u|[|i y]|]].
  - destruct IH as (-> & ? & ?). split_and!; [by rewrite <- app_assoc|done|by constructor].
  - intros Hr. apply IH. unfold room in *. destruct cap as [n|]; [|done].
    rewrite length_app. rewrite filter_cons in Hr.
    assert (Hs : splits item x = true ∨ (length (cut item x) ≤ 1)%nat)
      by (unfold splits; rewrite Nat.ltb_lt; lia).
    case_decide; simpl in Hr; destruct Hs; try done; lia.
  - destruct IH as (-> & ? & ?). split_and!; [done|by apply list_elem_of_further|done].
  - done.
Qed.

(** ** [merge_same_kind] *)

Lemma touching_spec x y :
  touching x y = true ↔ kind x = kind y ∧ rstart y ≤ rend x ∧ rstart x ≤ rend y.
Proof.
  unfold touching, mergeable. rewrite !andb_true_iff, !Z.leb_le, bool_decide_eq_true. naive_solver.
Qed.

Lemma find_next_spec x rest j :
  match find_next x rest j with
  | Some j' => ∃ y k, j' = (j + k)%nat ∧ rest !! k = Some y ∧ touching x y = true
  | None => Forall (λ y, touching x y = false) rest
  end.
Proof.
  revert j. induction rest as [|y rest IH]; intros j; simpl; [constructor|].
  destruct (touching x y) eqn:Et; [exists y, 0%nat; split_and!; [lia|done..]|].
  specialize (IH (S j)). destruct (find_next x rest (S j)).
  - destruct IH as (y' & k & -> & ? & ?). exists y', (S k). split_and!; [lia|done..].
  - by constructor.
Qed.

(** No two ranges of the list can be merged. *)
Definition merged l : Prop :=
  ∀ i j x y, (i < j)%nat → l !! i = Some x → l !! j = Some y → touching x y = false.

Lemma find_pair_spec rest i0 :
  match find_pair rest i0 with
  | Some (i, j) => ∃ k1 k2 x y, i = (i0 + k1)%nat ∧ j = (i0 + k2)%nat ∧ (k1 < k2)%nat ∧
      rest !! k1 = Some x ∧ rest !! k2 = Some y ∧ touching x y = true
  | None => merged rest
  end.
Proof.
  revert i0. induction rest as [|z rest IH]; intros i0; simpl; [intros ?????; by rewrite lookup_nil|].
  pose proof (find_next_spec z rest (S i0)) as Hn. destruct (find_next z rest (S i0)) as [j'|].
  - destruct Hn as (y & k & -> & ? & ?). exists 0%nat, (S k), z, y. split_and!; try done; lia.
  - specialize (IH (S i0)). destruct (find_pair rest (S i0)) as [[i j]|].
    + destruct IH as (k1 & k2 & x & y & -> & -> & ? & ? & ? & ?).
      exists (S k1), (S k2), x, y. split_and!; try done; lia.
    + intros [|i] [|j] x y Hij Hi Hj; simpl in *; simplify_eq; try lia.
      * rewrite Forall_lookup in Hn. by apply (Hn j).
      * apply (IH i j); [lia|done..].
Qed.

(** One merge: two ranges out, their union in. *)
Lemma merge_pair_spec i j x y l :
  (i < j)%nat → l !! i = Some x → l !! j = Some y → fits l →
  ∃ l', merge_pair cap i j l = (l', Ok tt) ∧ length l = S (length l') ∧
    l ≡ₚ x :: y :: delete i (delete j l) ∧ l' ≡ₚ merged_range x y :: delete i (delete j l).
Proof.
  intros Hij Hi Hj Hf. unfold merge_pair. rewrite Hi, Hj. unfold mbind, M_bind.
  assert (Hl : (j < length l)%nat) by (by apply lookup_lt_Some in Hj).
  unfold vec_remove at 1. rewrite Hj.
  assert (Hi' : delete j l !! i = Some x) by (by rewrite list_lookup_delete_lt by done).
  unfold vec_remove. rewrite Hi'.
  pose proof (list.length_delete l j ltac:(by rewrite Hj)) as L1.
  pose proof (list.length_delete (delete j l) i ltac:(by rewrite Hi')) as L2.
  set (l0 := delete i (delete j l)) in *.
  unfold let_ignored, vec_insert. rewrite (proj2 (Nat.ltb_ge _ _)) by lia.
  assert (full cap l0 = false) as ->.
  { unfold full, fits in *. destruct cap; [|done]. apply Nat.leb_gt. lia. }
  eexists. split_and!; [done| | |].
  - rewrite length_app. simpl. rewrite length_take, length_drop. lia.
  - rewrite (delete_Permutation l j y) by done. rewrite (delete_Permutation (delete j l) i x) at 1 by done.
    apply perm_swap.
  - rewrite <- Permutation_middle. by rewrite take_drop.
Qed.

Lemma holds_merged a x y :
  sane x → sane y → touching x y = true → holds a (merged_range x y) = holds a x || holds a y.
Proof.
  intros Hx%sane_le Hy%sane_le (_ & ? & ?)%touching_spec. unfold merged_range.
  rewrite holds_clone by lia. unfold holds. range_cases; lia.
Qed.

Lemma perm_le_1 {B} (l1 l2 : list B) : l1 ≡ₚ l2 → (length l2 ≤ 1)%nat → l1 = l2.
Proof.
  intros Hp Hl. destruct l2 as [|b [|]]; simpl in Hl; [by apply Permutation_nil_r|
    by apply Permutation_singleton_r|lia].
Qed.

(** A merge keeps the lookup function. *)
Lemma merge_kinds_at x y rest l l' a :
  sane x → sane y → touching x y = true → l ≡ₚ x :: y :: rest → l' ≡ₚ merged_range x y :: rest →
  (length (kinds_at l a) ≤ 1)%nat → kinds_at l' a = kinds_at l a.
Proof.
  intros Hx Hy Ht Hp Hp' Hn. apply perm_le_1; [|done].
  pose proof (kinds_at_perm _ _ a Hp) as Hk. rewrite Hk in Hn. rewrite Hk, (kinds_at_perm _ _ a Hp').
  rewrite !kinds_at_cons in *. rewrite holds_merged by done.
  pose proof Ht as (Hkind & _)%touching_spec. unfold merged_range. rewrite clone_kind.
  destruct (holds a x), (holds a y); simpl in *; rewrite ?Hkind; done || lia.
Qed.

Lemma merged_sane x y : sane x → sane y → touching x y = true → sane (merged_range x y).
Proof.
  intros Hx Hy Ht. pose proof (sane_le _ Hx). pose proof (sane_le _ Hy).
  apply (clone_sane x y); unfold rstart, rend in *; try done; lia.
Qed.

Lemma merge_loop_spec fuel : ∀ l,
  (length l ≤ fuel)%nat → fits l → Forall sane l → no_overlap l →
  ∃ l', merge_loop cap fuel l = (l', Ok tt) ∧ (∀ a, kinds_at l' a = kinds_at l a) ∧
    Forall sane l' ∧ merged l' ∧ fits l'.
Proof.
  induction fuel as [|fuel IH]; intros l Hfu Hf Hs Hno; simpl;
    pose proof (find_pair_spec l 0) as Hp; destruct (find_pair l 0) as [[i j]|];
    [|by exists l| |by exists l].
  { destruct Hp as (? & ? & ? & ? & _ & _ & _ & ?%lookup_lt_Some & _). lia. }
  destruct Hp as (k1 & k2 & x & y & -> & -> & Hlt & Hx & Hy & Ht).
  destruct (merge_pair_spec _ _ x y l Hlt Hx Hy Hf) as (l1 & Hm & Hlen & Hp1 & Hp2).
  unfold mbind, M_bind. simpl. rewrite Hm.
  pose proof Hs as Hs1. rewrite Hp1 in Hs1. inversion_clear Hs1 as [|?? Sx Hs2].
  inversion_clear Hs2 as [|?? Sy Hs3].
  assert (Hk : ∀ a, kinds_at l1 a = kinds_at l a) by (intros a; by eapply (merge_kinds_at x y)).
  destruct (IH l1) as (l' & Hl' & Hk' & ? & ? & ?).
  - lia.
  - unfold fits in *. destruct cap; [lia|done].
  - rewrite Hp2. constructor; [by apply merged_sane|done].
  - intros a. rewrite Hk. apply Hno.
  - exists l'. split_and!; try done. intros a. by rewrite Hk'.
Qed.

(** ** [merge_add] *)

Lemma splits_holds item x : sane item → splits item x = true → holds (rstart item) x = true.
Proof.
  intros Hi%sane_le. unfold splits, cut, overlaps. rewrite holds_spec.
  repeat case_if; simpl in *; try done; lia.
Qed.

(** Ranges that do not overlap: at most one of them is split. *)
Lemma splits_le item l :
  sane item → (length (filter (λ x, splits item x = true) l) ≤ length (kinds_at l (rstart item)))%nat.
Proof.
  intros Hi. induction l as [|x l IH]; [done|]. rewrite kinds_at_cons, filter_cons, length_app.
  case_decide as Hs; [rewrite splits_holds by done; simpl; lia|]. lia.
Qed.

Lemma cuts_length item l :
  (length (flat_map (cut item) l) ≤ length l + length (filter (λ x, splits item x = true) l))%nat.
Proof.
  induction l as [|x l IH]; [done|]. simpl. rewrite length_app, filter_cons.
  assert (Hs : splits item x = true ∨ (length (cut item x) ≤ 1)%nat)
    by (unfold splits; rewrite Nat.ltb_lt; lia).
  assert (length (cut item x) ≤ 2)%nat by (unfold cut; repeat case_if; simpl; lia).
  case_decide; simpl; destruct Hs; try done; lia.
Qed.

Lemma merge_add_run item l :
  sane item → Forall sane l → no_overlap l → fits l →
  match merge_add cap item l with
  | (l', Ok _) =>
      (∀ a, kinds_at l' a = if holds a item then [kind item] else kinds_at l a) ∧
      Forall sane l' ∧ merged l' ∧ fits l' ∧ Forall (λ x, conflicts item x = false) l
  | (_, Err (Conflict i x)) => i = item ∧ x ∈ l ∧ conflicts item x = true
  | (_, Err Capacity) => ∃ n, cap = Some n ∧ (n ≤ length l + 1)%nat
  | (_, Stuck) => False
  end.
Proof.
  intros Hi Hl Hno Hf. unfold merge_add, mbind, M_bind.
  pose proof (splits_le item l Hi) as Hsp. pose proof (Hno (rstart item)) as Hno1.
  pose proof (cuts_length item l) as Hcl.
  pose proof (add_loop_spec item l [] (length l) (le_n _) Hf) as Ha. simpl in Ha.
  destruct (add_loop cap item (length l) 0 l) as [l1 [u|[|i x]|]]; [| |done..].
  2:{ unfold room in Ha. destruct cap as [n|]; [|done]. exists n. split; [done|]. simpl in Ha. lia. }
  destruct Ha as (-> & Hf1 & Hc). unfold vec_push.
  destruct (full cap (flat_map (cut item) l)) eqn:Efull.
  { unfold full in Efull. destruct cap as [n|]; [|done]. apply Nat.leb_le in Efull.
    exists n. split; [done|lia]. }
  set (l1 := flat_map (cut item) l ++ [item]).
  assert (Hk : ∀ a, kinds_at l1 a = if holds a item then [kind item] else kinds_at l a).
  { intros a. unfold l1. rewrite kinds_at_app, cuts_kinds_at, kinds_at_cons by done.
    destruct (holds a item); simpl; by rewrite ?app_nil_r. }
  destruct (merge_loop_spec (length l1) l1) as (l' & Hm & Hk' & ? & ? & ?).
  - done.
  - unfold fits, full in *. destruct cap; [|done]. apply Nat.leb_gt in Efull.
    unfold l1. rewrite length_app. simpl. lia.
  - apply Forall_app. split; [by apply cuts_sane|by repeat constructor].
  - intros a. rewrite Hk. destruct (holds a item); [simpl; lia|apply Hno].
  - unfold merge_same_kind. rewrite Hm. split_and!; try done. intros a. by rewrite Hk', Hk.
Qed.

(** C17: [merge_add] refines the update of the lookup function. On ranges that
    do not overlap it never panics; when it returns [Ok], an address inside the
    new range has the kind of the new range, every other address has the kind
    it had, no address is in two ranges and no two ranges are left that could
    be merged; it fails only on a range that may not be overwritten, or when
    the vector has fewer than two free slots. *)
Theorem merge_add_refines item l :
  sane item → Forall sane l → no_overlap l → fits l →
  match merge_add cap item l with
  | (l', Ok _) =>
      (∀ a, kinds_at l' a = if holds a item then [kind item] else kinds_at l a) ∧
      no_overlap l' ∧ Forall sane l' ∧ merged l' ∧ fits l'
  | (_, Err (Conflict i x)) => i = item ∧ x ∈ l ∧ conflicts item x = true
  | (_, Err Capacity) => ∃ n, cap = Some n ∧ (n ≤ length l + 1)%nat
  | (_, Stuck) => False
  end.
Proof.
  intros Hi Hl Hno Hf. pose proof (merge_add_run item l Hi Hl Hno Hf) as H.
  destruct (merge_add cap item l) as [l' [u|[|i x]|]]; [|done..].
  destruct H as (Hk & ? & ? & ? & _). split_and!; try done.
  intros a. rewrite Hk. destruct (holds a item); [simpl; lia|apply Hno].
Qed.
End RangesProof.
