(* ===== verification/Memory.v ===== *)
(** * Boot memory: descriptors, the memory map and the RAM allocator

    crates/kernutil/src/memory.rs ([MemoryDescriptor]), the memory map and the
    boot sequence of crates/someboot/src/mem/mod.rs with the device-tree
    regions of fdt/memory.rs, and the linear allocator of mem/ram.rs, which is
    the frame allocator of the boot page table. The crate num-align and the
    linker symbol behind [page_size] are parameters. *)

From stdpp Require Import base list numbers.
From S2P Require Import Prelude PtDef RangesExt RangesProof.
Open Scope Z_scope.

(** num-align: rounding to a multiple of a power of two. *)
Class NumAlign : Type := {
  align_up : Z → Z → Z;
  align_down : Z → Z → Z
}.

Class NumAlignLaws `{NumAlign} : Prop := {
  align_up_spec x k : 0 ≤ k → 0 ≤ x → x + 2 ^ k ≤ 2 ^ 64 →
    x ≤ align_up x (2 ^ k) < x + 2 ^ k ∧ (2 ^ k | align_up x (2 ^ k));
  align_down_spec x k : 0 ≤ k → 0 ≤ x < 2 ^ 64 →
    x - 2 ^ k < align_down x (2 ^ k) ≤ x ∧ 0 ≤ align_down x (2 ^ k) ∧
    (2 ^ k | align_down x (2 ^ k))
}.

(** Rounding by division: a model of the interface. *)
Module DivAlign.
#[export] Instance div_align : NumAlign := {
  align_up x a := (x + a - 1) / a * a;
  align_down x a := x / a * a
}.

#[export] Instance div_align_laws : NumAlignLaws.
Proof.
  split; intros x k Hk Hx; pose proof (pow2_pos k Hk) as Hp; simpl; intros.
  - pose proof (Z.div_mod (x + 2 ^ k - 1) (2 ^ k) ltac:(lia)).
    pose proof (Z.mod_pos_bound (x + 2 ^ k - 1) (2 ^ k) Hp).
    split; [lia|]. apply Z.divide_factor_r.
  - pose proof (Z.div_mod x (2 ^ k) ltac:(lia)). pose proof (Z.mod_pos_bound x (2 ^ k) Hp).
    assert (0 ≤ x / 2 ^ k) by (apply Z.div_pos; lia).
    split_and!; [lia|lia|nia|]. apply Z.divide_factor_r.
Qed.
End DivAlign.

(** ** kernutil: memory descriptors *)

Inductive MemoryType : Type := Free | Ram | KImage | Reserved | Mmio | PerCpuData.

#[export] Instance MemoryType_eq_dec : EqDecision MemoryType.
Proof. solve_decision. Defined.

Record MemoryDescriptor : Type := mk_MemoryDescriptor {
  physical_start : Z;
  size_in_bytes : Z;
  memory_type : MemoryType
}.

#[export] Instance MemoryDescriptor_eq_dec : EqDecision MemoryDescriptor.
Proof. solve_decision. Defined.

(** [impl RangeOp for MemoryDescriptor]. The end of the range is the exact sum:
    [desc_sane] says that it fits the machine word. *)
#[export] Instance MemoryDescriptor_RangeOp : RangeOp MemoryDescriptor MemoryType := {
  range d := (physical_start d, physical_start d + size_in_bytes d);
  kind := memory_type;
  overwritable d _ := bool_decide (memory_type d = Free);
  clone_with_range d lo hi := mk_MemoryDescriptor lo (hi - lo) (memory_type d)
}.

Definition desc_sane (d : MemoryDescriptor) : Prop :=
  0 ≤ physical_start d ∧ 0 ≤ size_in_bytes d ∧ physical_start d + size_in_bytes d < 2 ^ 64.

#[export] Instance MemoryDescriptor_laws : RangeOpLaws MemoryDescriptor MemoryType desc_sane.
Proof.
  split.
  - intros [s n k] (? & ? & ?). simpl in *. lia.
  - intros t lo hi ?. simpl. f_equal. lia.
  - done.
  - intros [s n k] [s' n' k'] lo hi (? & ? & ?) (? & ? & ?). unfold desc_sane. simpl in *. lia.
Qed.

(** [MemoryDescriptor::new_with_range]. *)
Definition new_with_range {E} (lo hi : Z) (k : MemoryType) : outcome E MemoryDescriptor :=
  size ← usub hi lo;
  Ok (mk_MemoryDescriptor lo size k).

Section Descriptors.
Context `{NA : NumAlign}.

(** [MemoryDescriptor::new_with_range_aligned]. *)
Definition new_with_range_aligned {E} (lo hi : Z) (k : MemoryType) (align : Z) :
    outcome E MemoryDescriptor :=
  let start := align_down lo align in
  let end_ := align_up hi align in
  size ← usub end_ start;
  Ok (mk_MemoryDescriptor start size k).

(** [MemoryDescriptor::new_aligned]. *)
Definition new_aligned {E} (physical_start size_in_bytes : Z) (k : MemoryType) (align : Z) :
    outcome E MemoryDescriptor :=
  let start := align_down physical_start align in
  last ← uadd 64 physical_start size_in_bytes;
  let end_ := align_up last align in
  size ← usub end_ start;
  Ok (mk_MemoryDescriptor start size k).
End Descriptors.

(** ** someboot: the memory map *)

(** [MemoryMap = heapless::Vec<MemoryDescriptor, 128>]. *)
Definition MAP_CAPACITY : nat := 128.
Notation MapErr := (RangeError MemoryDescriptor).

(** The statics of mem/mod.rs, mem/ram.rs and smp/mod.rs. *)
Record BootMem : Type := mk_BootMem {
  RAM_START : Z;
  RAM_END : Z;
  RAM_CURRENT : Z;
  MEMORY_MAP : list MemoryDescriptor;
  PERCPU_START : Z;
  PERCPU_END : Z
}.

Definition set_ram (start end_ current : Z) (b : BootMem) : BootMem :=
  mk_BootMem start end_ current (MEMORY_MAP b) (PERCPU_START b) (PERCPU_END b).
Definition set_map (m : list MemoryDescriptor) (b : BootMem) : BootMem :=
  mk_BootMem (RAM_START b) (RAM_END b) (RAM_CURRENT b) m (PERCPU_START b) (PERCPU_END b).
Definition set_percpu_range (start end_ : Z) (b : BootMem) : BootMem :=
  mk_BootMem (RAM_START b) (RAM_END b) (RAM_CURRENT b) (MEMORY_MAP b) start end_.

Notation BM := (M BootMem MapErr).

(** [.unwrap()] on a [Result]: an error is a panic. *)
Definition unwrap_result {A} (m : BM A) : BM A := λ b,
  match m b with
  | (b', Ok a) => (b', Ok a)
  | (b', _) => (b', Stuck)
  end.

(** mem/mod.rs: [add_memory_descriptor]. *)
Definition add_memory_descriptor (desc : MemoryDescriptor) : BM unit := λ b,
  let '(m, r) := merge_add (Some MAP_CAPACITY) desc (MEMORY_MAP b) in
  (set_map m b, r).

(** [sort_by_key(|a| a.physical_start)]: a stable sort. *)
Fixpoint insert_by_start (d : MemoryDescriptor) (l : list MemoryDescriptor) : list MemoryDescriptor :=
  match l with
  | [] => [d]
  | d' :: l' =>
      if physical_start d <=? physical_start d' then d :: l else d' :: insert_by_start d l'
  end.
Definition sort_by_start (l : list MemoryDescriptor) : list MemoryDescriptor :=
  foldr insert_by_start [] l.

Section Boot.
Context `{NA : NumAlign} (page_size : Z).

(** *** ram.rs *)

(** [alloc]. *)
Definition alloc (size align : Z) : BM (option Z) := λ b,
  let start := align_up (RAM_CURRENT b) align in
  match uadd (E:=MapErr) 64 start size with
  | Ok end_ =>
      if RAM_END b <? end_ then (b, Ok None)
      else (set_ram (RAM_START b) (RAM_END b) end_ b, Ok (Some start))
  | _ => (b, Stuck)
  end.

(** [used_range]. *)
Definition used_range (b : BootMem) : Z * Z :=
  (RAM_START b, align_up (RAM_CURRENT b) page_size).

(** [flush_to_memory_map]. *)
Definition flush_to_memory_map (kind : MemoryType) : BM unit :=
  b ← get;
  let '(start, end_) := used_range b in
  if end_ <=? start then mret tt
  else
    desc ← lift (new_with_range start end_ kind);
    _ ← unwrap_result (add_memory_descriptor desc);
    modify (λ b', set_ram end_ (RAM_END b') end_ b').

(** [alloc_and_flush_to_memory_map]. *)
Definition alloc_and_flush_to_memory_map (size align : Z) (kind : MemoryType) : BM (option Z) :=
  o ← alloc size align;
  match o with
  | None => mret None
  | Some addr => _ ← flush_to_memory_map kind; mret (Some addr)
  end.

(** [init]. *)
Definition ram_init (start end_ : Z) : BM unit :=
  modify (set_ram start end_ (Z.max start 64)).

(** [impl FrameAllocator for Ram]. A panic of [alloc] has no frame here;
    [alloc_total] shows that a machine with at most 52 address bits has none. *)
#[export] Instance Ram_FrameAllocator : FrameAllocator BootMem := {
  alloc_frame b :=
    let '(b', r) := alloc page_size page_size b in
    (b', match r with Ok o => o | _ => None end);
  dealloc_frame b _ := b
}.

(** *** fdt/memory.rs: [init_memory_map], from the regions of the device tree *)

Fixpoint for_each {X} (f : X → BM unit) (l : list X) : BM unit :=
  match l with
  | [] => mret tt
  | x :: l' => _ ← f x; for_each f l'
  end.

Definition init_memory_map (PAGE_SIZE : Z) (memory reservations : list (Z * Z))
    (reserved : list (option (Z * option Z))) : BM unit :=
  _ ← for_each (λ '(address, size),
        if size =? 0 then mret tt
        else unwrap_result (add_memory_descriptor (mk_MemoryDescriptor address size Free))) memory;
  _ ← for_each (λ '(address, size),
        desc ← lift (new_aligned address size Reserved PAGE_SIZE);
        unwrap_result (add_memory_descriptor desc)) reservations;
  for_each (λ r,
    match r with
    | Some (address, Some size) =>
        if 0 <? size
        then unwrap_result (add_memory_descriptor (mk_MemoryDescriptor address size Reserved))
        else mret tt
    | _ => mret tt
    end) reserved.

(** *** mem/mod.rs *)

(** [reserve_arch_early_ranges] on x86_64. *)
Definition reserve_arch_early_ranges (tramp : Z) : BM unit := λ b,
  match new_aligned (E:=MapErr) tramp page_size Reserved page_size with
  | Ok desc =>
      match add_memory_descriptor desc b with
      | (b', Ok _) => (b', Ok tt)
      | (b', Err (Conflict _ existing)) =>
          if bool_decide (memory_type existing = Free) then (b', Stuck) else (b', Ok tt)
      | (b', _) => (b', Stuck)
      end
  | _ => (b, Stuck)
  end.

(** The first free region of more than 8 MB. *)
Definition find_free_range (m : list MemoryDescriptor) : option (Z * Z) :=
  match list_find (λ d, memory_type d = Free ∧ 8 * MB < size_in_bytes d) m with
  | Some (_, d) => Some (physical_start d, physical_start d + size_in_bytes d)
  | None => None
  end.

(** [early_init] up to [ram::init]. *)
Definition early_init_map (fdt : BM unit) (kernel_start kernel_end tramp : Z) : BM unit :=
  _ ← fdt;
  size ← lift (usub kernel_end kernel_start);
  _ ← unwrap_result (add_memory_descriptor (mk_MemoryDescriptor kernel_start size KImage));
  _ ← reserve_arch_early_ranges tramp;
  _ ← modify (λ b, set_map (sort_by_start (MEMORY_MAP b)) b);
  b ← get;
  match find_free_range (MEMORY_MAP b) with
  | Some (start, end_) => ram_init start end_
  | None => stuck
  end.

(** [memory_map_setup]; [console] is [console::debug_to_memory_desc()]. *)
Definition memory_map_setup (console : option MemoryDescriptor) : BM unit :=
  b ← get;
  let '(start, end_) := used_range b in
  _ ← (if end_ <=? start then mret tt
       else desc ← lift (new_with_range start end_ Reserved);
            unwrap_result (add_memory_descriptor desc));
  match console with
  | Some desc => unwrap_result (add_memory_descriptor desc)
  | None => mret tt
  end.

End Boot.
