(* ===== verification/MemoryProof.v ===== *)
(** * Boot memory: proofs

    The memory map answers every address with at most one kind and
    [add_memory_descriptor] updates that answer on the new range only; the RAM
    allocator hands out disjoint aligned blocks and meets the interface
    [FrameAllocatorLaws] the page tables rely on; flushing records exactly the
    blocks handed out. *)

From stdpp Require Import base list numbers.
From S2P Require Import Prelude PtDef RangesExt RangesProof Memory.
Open Scope Z_scope.

(** A memory map that can be used: ranges that fit, no overlap, within the
    capacity. *)
Definition map_ok (m : list MemoryDescriptor) : Prop :=
  Forall desc_sane m ∧ no_overlap m ∧ fits (Some MAP_CAPACITY) m.

Lemma map_ok_nil : map_ok [].
Proof. split_and!; [constructor|intros a; simpl; lia|simpl; lia]. Qed.

Lemma add_memory_descriptor_spec desc b :
  desc_sane desc → map_ok (MEMORY_MAP b) →
  match add_memory_descriptor desc b with
  | (b', Ok _) =>
      b' = set_map (MEMORY_MAP b') b ∧ map_ok (MEMORY_MAP b') ∧
      ∀ a, kinds_at (MEMORY_MAP b') a =
        if holds a desc then [memory_type desc] else kinds_at (MEMORY_MAP b) a
  | (_, Err (Conflict i x)) => i = desc ∧ x ∈ MEMORY_MAP b ∧ overlaps desc x = true ∧
      memory_type x ≠ Free ∧ memory_type x ≠ memory_type desc
  | (_, Err Capacity) => (127 ≤ length (MEMORY_MAP b))%nat
  | (_, Stuck) => False
  end.
Proof.
  intros Hd (Hs & Hno & Hf). unfold add_memory_descriptor.
  pose proof (merge_add_run desc_sane (Some MAP_CAPACITY) desc _ Hd Hs Hno Hf) as Hm.
  destruct (merge_add _ _ _) as [m [u|[|i x]|]]; [| | |done].
  - destruct Hm as (Hk & ? & ? & ? & _). split_and!; [done| |done].
    split_and!; [done| |done]. intros a. simpl. rewrite Hk. destruct (holds a desc); [simpl; lia|done].
  - destruct Hm as (n & [= <-] & Hl). unfold MAP_CAPACITY in Hl. lia.
  - destruct Hm as (-> & ? & Hc). unfold conflicts in Hc. apply andb_prop in Hc as [Hov Hc].
    apply negb_true_iff, orb_false_iff in Hc as [Ho Hk]. simpl in Ho. unfold mergeable in Hk. simpl in Hk.
    apply bool_decide_eq_false in Ho, Hk. done.
Qed.

(** The kind an address has after a sequence of additions: that of the last
    range that holds it. *)
Definition last_kinds (before : list MemoryType) (descs : list MemoryDescriptor) (a : Z) :
    list MemoryType :=
  foldl (λ ks d, if holds a d then [memory_type d] else ks) before descs.

(** The memory map after any sequence of [add_memory_descriptor] calls
    that succeed: no address is in two ranges, and the map gives every address
    the kind of the last descriptor that covers it. *)
Theorem memory_map_last_writer descs : ∀ b b',
  map_ok (MEMORY_MAP b) → Forall desc_sane descs →
  for_each (λ d, unwrap_result (add_memory_descriptor d)) descs b = (b', Ok tt) →
  map_ok (MEMORY_MAP b') ∧
  ∀ a, kinds_at (MEMORY_MAP b') a = last_kinds (kinds_at (MEMORY_MAP b) a) descs a.
Proof.
  induction descs as [|d descs IH]; intros b b' Hm Hs.
  { simpl. unfold mret, M_ret. by intros [= <-]. }
  inversion_clear Hs as [|?? Hd Hs']. simpl. unfold mbind, M_bind, unwrap_result at 1.
  pose proof (add_memory_descriptor_spec d b Hd Hm) as Ha.
  destruct (add_memory_descriptor d b) as [b1 [u|e|]]; [|intros [=]..].
  destruct Ha as (_ & Hm1 & Hk1). intros Hr. destruct (IH _ _ Hm1 Hs' Hr) as [? Hk].
  split; [done|]. intros a. rewrite Hk, Hk1. done.
Qed.

Section RamProof.
Context `{NA : NumAlign} {NL : NumAlignLaws} (k : Z).
Hypothesis Hk : 0 < k ≤ 30.
Notation page := (2 ^ k).

(** The allocator's counters, for a machine with at most 52 address bits. *)
Definition ram_ok (b : BootMem) : Prop :=
  0 ≤ RAM_CURRENT b ≤ 2 ^ 52 ∧ RAM_END b ≤ 2 ^ 52.

(** [alloc] returns the next aligned block or leaves the state alone. *)
Lemma alloc_spec size j b :
  ram_ok b → 0 ≤ j ≤ 52 → 0 ≤ size ≤ 2 ^ 52 →
  match alloc size (2 ^ j) b with
  | (b', Ok (Some p)) =>
      (2 ^ j | p) ∧ RAM_CURRENT b ≤ p < RAM_CURRENT b + 2 ^ j ∧ p + size ≤ RAM_END b ∧
      b' = set_ram (RAM_START b) (RAM_END b) (p + size) b ∧ ram_ok b'
  | (b', Ok None) => b' = b ∧ RAM_END b < align_up (RAM_CURRENT b) (2 ^ j) + size
  | _ => False
  end.
Proof.
  intros [? ?] Hj Hsz. assert (0 < 2 ^ j ≤ 2 ^ 52) by (split; [lia|by apply Z.pow_le_mono_r; lia]).
  destruct (align_up_spec (RAM_CURRENT b) j) as [[? ?] ?]; [lia|lia|lia|].
  unfold alloc. rewrite uadd_ok by lia.
  destruct (Z.ltb_spec (RAM_END b) (align_up (RAM_CURRENT b) (2 ^ j) + size)); [done|].
  split_and!; try done; unfold ram_ok; simpl; lia.
Qed.

Lemma page_bounds : 1 < page ≤ 2 ^ 30.
Proof.
  split; [|by apply Z.pow_le_mono_r; lia]. change 1 with (2 ^ 0). apply Z.pow_lt_mono_r; lia.
Qed.

(** The frames counted as in use: everything below the bump pointer. *)
Definition ram_live (b : BootMem) (q : Z) : Prop := q < RAM_CURRENT b.
Definition ram_pa_ok (q : Z) : Prop := (page | q) ∧ 0 ≤ q < 2 ^ 52.

Lemma alloc_frame_spec b b' o :
  ram_ok b → @alloc_frame _ (Ram_FrameAllocator page) b = (b', o) →
  ram_ok b' ∧ RAM_CURRENT b ≤ RAM_CURRENT b' ∧
  match o with
  | Some p => RAM_CURRENT b ≤ p < RAM_CURRENT b' ∧ ram_pa_ok p
  | None => b' = b
  end.
Proof.
  intros Hb. simpl. pose proof page_bounds.
  pose proof (alloc_spec page k b Hb ltac:(lia) ltac:(lia)) as Ha.
  destruct Hb. destruct (alloc page page b) as [b1 [[p|]|e|]]; intros [= <- <-]; [| |done..].
  - destruct Ha as (Hd & ? & ? & -> & ?). unfold ram_pa_ok. simpl.
    split_and!; try done; try lia.
  - destruct Ha as [-> _]. by split_and!.
Qed.

(** The RAM allocator keeps the promises the page tables rely on. *)
Lemma Ram_laws :
  @FrameAllocatorLaws BootMem (Ram_FrameAllocator page) ram_pa_ok ram_live ram_ok.
Proof.
  split.
  - intros b b' p Hb Ha. destruct (alloc_frame_spec _ _ _ Hb Ha) as (_ & _ & ? & ?).
    unfold ram_live. split_and!; [lia|lia|done].
  - intros b b' o Hb Ha. by destruct (alloc_frame_spec _ _ _ Hb Ha).
  - intros b b' o q Hb Ha Hq. destruct (alloc_frame_spec _ _ _ Hb Ha) as (_ & ? & _).
    unfold ram_live in *. lia.
  - done.
  - done.
Qed.

(** The same for memory that ends at or below [n]. *)
Definition ram_ok_below (n : Z) (b : BootMem) : Prop := ram_ok b ∧ RAM_END b ≤ n.
Definition ram_pa_below (n q : Z) : Prop := (page | q) ∧ 0 ≤ q < n.

Lemma alloc_frame_end b b' o : ram_ok b → @alloc_frame _ (Ram_FrameAllocator page) b = (b', o) →
  RAM_END b' = RAM_END b ∧ ∀ p, o = Some p → p < RAM_END b.
Proof.
  intros Hb. simpl. pose proof page_bounds. pose proof (alloc_spec page k b Hb ltac:(lia) ltac:(lia)) as Ha.
  destruct (alloc page page b) as [b1 [[p|]|e|]]; intros [= <- <-]; [| |done..].
  - destruct Ha as (_ & _ & ? & -> & _). split; [done|]. intros ? [= <-]. lia.
  - by destruct Ha as [-> _].
Qed.

Lemma Ram_laws_below n :
  @FrameAllocatorLaws BootMem (Ram_FrameAllocator page) (ram_pa_below n) ram_live (ram_ok_below n).
Proof.
  destruct Ram_laws as [Hf Ho Hkeep _ _]. split; try done.
  - intros b b' p [Hb Hn] Ha. destruct (Hf b b' p Hb Ha) as (? & ? & ? & ?).
    destruct (alloc_frame_end b b' _ Hb Ha) as [_ Hp]. specialize (Hp p eq_refl). do 3 (split; [done|]). lia.
  - intros b b' o [Hb Hn] Ha. split; [by eapply Ho|]. by rewrite (proj1 (alloc_frame_end b b' o Hb Ha)).
  - intros b b' o q [Hb _]. by apply Hkeep.
Qed.

(** ** Sequences of allocations *)

(** Blocks handed out by a sequence of requests [(size, align)]; a request that
    fails hands out nothing. *)
Fixpoint alloc_all (reqs : list (Z * Z)) (b : BootMem) : BootMem * list (Z * Z) :=
  match reqs with
  | [] => (b, [])
  | (size, align) :: reqs' =>
      match alloc size align b with
      | (b', Ok (Some p)) => let '(b'', bs) := alloc_all reqs' b' in (b'', (p, size) :: bs)
      | (b', _) => alloc_all reqs' b'
      end
  end.

Definition req_ok (r : Z * Z) : Prop := ∃ j, 0 ≤ j ≤ 52 ∧ r.2 = 2 ^ j ∧ 0 ≤ r.1 ≤ 2 ^ 52.

(** Blocks in address order, each above the one before and all in [lo, hi]. *)
Fixpoint stacked (lo hi : Z) (bs : list (Z * Z)) : Prop :=
  match bs with
  | [] => lo ≤ hi
  | (p, n) :: bs' => lo ≤ p ∧ 0 ≤ n ∧ stacked (p + n) hi bs'
  end.

Lemma alloc_all_stacked reqs : ∀ b,
  ram_ok b → Forall req_ok reqs → RAM_CURRENT b ≤ RAM_END b →
  let '(b', bs) := alloc_all reqs b in
  ram_ok b' ∧ RAM_END b' = RAM_END b ∧ MEMORY_MAP b' = MEMORY_MAP b ∧
  RAM_CURRENT b' ≤ RAM_END b ∧ stacked (RAM_CURRENT b) (RAM_CURRENT b') bs.
Proof.
  induction reqs as [|[size align] reqs IH]; intros b Hb Hr Hc; simpl; [by split_and!|].
  inversion_clear Hr as [|?? (j & Hj & Ea & Hs) Hr']. simpl in *. subst align.
  pose proof (alloc_spec size j b Hb Hj Hs) as Ha.
  destruct (alloc size (2 ^ j) b) as [b1 [[p|]|e|]]; [| |done..].
  - destruct Ha as (_ & ? & ? & -> & Hb1). specialize (IH _ Hb1 Hr'). simpl in IH.
    destruct (alloc_all reqs _) as [b2 bs]. destruct IH as (? & ? & ? & ? & ?); [lia|].
    split_and!; try done; simpl; split_and!; done || lia.
  - destruct Ha as [-> _]. by apply IH.
Qed.

Lemma stacked_lower lo hi bs i p n : stacked lo hi bs → bs !! i = Some (p, n) →
  lo ≤ p ∧ 0 ≤ n ∧ p + n ≤ hi.
Proof.
  revert lo i. induction bs as [|[q m] bs IH]; intros lo i Hs Hi; [by rewrite lookup_nil in Hi|].
  assert (Hmono : ∀ lo' bs', stacked lo' hi bs' → lo' ≤ hi).
  { intros lo' bs'. revert lo'. induction bs' as [|[q' m'] bs' IH']; intros lo'; simpl; [done|].
    intros (? & ? & ?%IH'). lia. }
  destruct Hs as (? & ? & Hs). destruct i as [|i]; simpl in Hi; simplify_eq.
  - split_and!; [done..|]. by eapply Hmono.
  - destruct (IH _ _ Hs Hi). lia.
Qed.

(** The blocks the boot allocator hands out for any sequence of requests
    are inside the RAM range and pairwise disjoint: a later block starts at or
    after the end of every earlier one, whatever requests failed between. *)
Theorem alloc_blocks_disjoint reqs b i j p n q m :
  ram_ok b → Forall req_ok reqs → RAM_CURRENT b ≤ RAM_END b →
  (alloc_all reqs b).2 !! i = Some (p, n) → (alloc_all reqs b).2 !! j = Some (q, m) → (i < j)%nat →
  RAM_CURRENT b ≤ p ∧ p + n ≤ q ∧ q + m ≤ RAM_END b.
Proof.
  intros Hb Hr Hc. pose proof (alloc_all_stacked reqs b Hb Hr Hc) as H.
  destruct (alloc_all reqs b) as [b' bs]. destruct H as (_ & _ & _ & ? & Hs). simpl.
  revert i j Hs. generalize (RAM_CURRENT b). induction bs as [|[r o] bs IH]; intros lo i j Hs Hi Hj Hij.
  { by rewrite lookup_nil in Hi. }
  destruct Hs as (? & ? & Hs), i as [|i], j as [|j]; simpl in Hi, Hj; simplify_eq; try lia.
  - destruct (stacked_lower _ _ _ _ _ _ Hs Hj). lia.
  - destruct (IH _ i j Hs Hi Hj ltac:(lia)) as (? & ? & ?). lia.
Qed.

(** ** Flushing *)

(** Rounding up does not leave the 52-bit range. *)
Lemma align_below (x : Z) : (page | x) → x < 2 ^ 52 + page → x ≤ 2 ^ 52.
Proof.
  intros [q ->] Hx. pose proof page_bounds.
  assert (E : 2 ^ 52 = 2 ^ (52 - k) * page) by (rewrite <- Z.pow_add_r by lia; f_equal; lia).
  rewrite E in *. apply Z.mul_le_mono_nonneg_r; [lia|].
  assert (q < 2 ^ (52 - k) + 1); [|lia]. apply (Z.mul_lt_mono_pos_r page); lia.
Qed.

Lemma flush_spec kd b :
  ram_ok b → 0 ≤ RAM_START b → map_ok (MEMORY_MAP b) →
  match flush_to_memory_map page kd b with
  | (b', Ok _) =>
      let lo := RAM_START b in let hi := align_up (RAM_CURRENT b) page in
      ram_ok b' ∧ map_ok (MEMORY_MAP b') ∧ RAM_END b' = RAM_END b ∧
      RAM_CURRENT b ≤ RAM_CURRENT b' ∧
      (lo < hi → RAM_START b' = hi ∧ RAM_CURRENT b' = hi) ∧ (hi ≤ lo → b' = b) ∧
      ∀ a, kinds_at (MEMORY_MAP b') a =
        if (lo <=? a) && (a <? hi) then [kd] else kinds_at (MEMORY_MAP b) a
  | (_, Err _) => False
  | (b', Stuck) => (127 ≤ length (MEMORY_MAP b))%nat ∨
      ∃ x, x ∈ MEMORY_MAP b ∧ memory_type x ≠ Free ∧ memory_type x ≠ kd ∧
        RAM_START b < physical_start x + size_in_bytes x ∧
        physical_start x < align_up (RAM_CURRENT b) page
  end.
Proof.
  intros Hb Hst Hm. pose proof page_bounds. pose proof Hb as [? ?].
  destruct (align_up_spec (RAM_CURRENT b) k) as [? Hdiv]; [lia..|].
  pose proof (align_below _ Hdiv ltac:(lia)).
  unfold flush_to_memory_map, used_range, mbind, M_bind, get. cbn -[add_memory_descriptor Z.pow].
  set (lo := RAM_START b). set (hi := align_up (RAM_CURRENT b) page) in *.
  destruct (Z.leb_spec hi lo).
  { split_and!; try done; [lia|]. intros a. by destruct (Z.leb_spec lo a), (Z.ltb_spec a hi); try lia. }
  unfold lift, new_with_range. rewrite usub_ok by lia. cbn -[add_memory_descriptor Z.pow].
  set (desc := mk_MemoryDescriptor lo (hi - lo) kd). unfold unwrap_result.
  assert (Hd : desc_sane desc) by (unfold desc_sane, desc; simpl; lia).
  pose proof (add_memory_descriptor_spec desc b Hd Hm) as Ha.
  destruct (add_memory_descriptor desc b) as [b1 [u|[|i x]|]]; [|by left| |done].
  - destruct Ha as (Eb & Hm1 & Hk1). rewrite Eb. unfold modify. cbn -[Z.pow kinds_at].
    split_and!; try done; [|lia|lia|].
    + unfold ram_ok. cbn -[Z.pow]. lia.
    + intros a. rewrite Hk1. unfold holds, desc, rstart, rend. cbn -[Z.pow].
      by replace (lo + (hi - lo)) with hi by lia.
  - destruct Ha as (-> & ? & Hov & ? & ?). right. exists x. unfold overlaps, rstart, rend, desc in Hov.
    simpl in Hov. bool_to_prop. split_and!; try done; lia.
Qed.

End RamProof.

(** ** Where the code leaves its documentation *)

(** A conflict is not "kept as is". [reserve_arch_early_ranges] takes a
    [Conflict] for "already reserved by firmware map; keep it as-is", but
    [merge_add] has already cut the free ranges it met before the conflict:
    with the trampoline page half in a free and half in an MMIO range, the
    free half is in no range of the memory map afterwards. *)
Theorem conflict_drops_free_part :
  let b := mk_BootMem 0 0 0
    [mk_MemoryDescriptor 0 0x8800 Free; mk_MemoryDescriptor 0x8800 0x96800 Mmio] 0 0 in
  let r := reserve_arch_early_ranges (NA := DivAlign.div_align) 0x1000 0x8000 b in
  r.2 = Ok tt ∧ kinds_at (MEMORY_MAP b) 0x8400 = [Free] ∧ kinds_at (MEMORY_MAP r.1) 0x8400 = [].
Proof. vm_compute. split_and!; reflexivity. Qed.

(** ** Concrete runs *)

Lemma memory_map_last_writer_witness :
  let descs := [mk_MemoryDescriptor 0 0x10000 Free; mk_MemoryDescriptor 0x2000 0x1000 KImage;
                mk_MemoryDescriptor 0x3000 0x1000 KImage] in
  let b := mk_BootMem 0 0 0 [] 0 0 in
  let b' := mk_BootMem 0 0 0 [mk_MemoryDescriptor 0 0x2000 Free; mk_MemoryDescriptor 0x4000 0xc000 Free;
                mk_MemoryDescriptor 0x2000 0x2000 KImage] 0 0 in
  for_each (λ d, unwrap_result (add_memory_descriptor d)) descs b = (b', Ok tt) ∧
  ∀ a, kinds_at (MEMORY_MAP b') a = last_kinds [] descs a.
Proof.
  intros descs b b'. assert (E : for_each (λ d, unwrap_result (add_memory_descriptor d)) descs b = (b', Ok tt))
    by (vm_compute; reflexivity).
  split; [exact E|]. apply (memory_map_last_writer descs b b'); [apply map_ok_nil| |exact E].
  repeat constructor; simpl; lia.
Defined.

Lemma alloc_blocks_disjoint_witness :
  let b := mk_BootMem 0x100000 0x200000 0x100000 [] 0 0 in
  let bs := (alloc_all (NA := DivAlign.div_align) [(0x30, 8); (0x1000, 0x1000); (0x200000, 8); (1, 1)] b).2 in
  bs = [(0x100000, 0x30); (0x101000, 0x1000); (0x102000, 1)] ∧
  0x100000 ≤ 0x101000 ∧ 0x101000 + 0x1000 ≤ 0x102000 ∧ 0x102000 + 1 ≤ 0x200000.
Proof.
  split; [vm_compute; reflexivity|].
  set (b := mk_BootMem 0x100000 0x200000 0x100000 [] 0 0).
  set (reqs := [(0x30, 8); (0x1000, 0x1000); (0x200000, 8); (1, 1)]).
  assert (Hb : ram_ok b) by (split; simpl; lia).
  assert (Hr : Forall req_ok reqs)
    by (repeat constructor; [exists 3|exists 12|exists 3|exists 0]; simpl; split_and!; done || lia).
  assert (Hc : RAM_CURRENT b ≤ RAM_END b) by (simpl; lia).
  destruct (alloc_blocks_disjoint (NA := DivAlign.div_align) (NL := DivAlign.div_align_laws)
    reqs b 1 2 0x101000 0x1000 0x102000 1 Hb Hr Hc) as (H1 & H2 & H3).
  - vm_compute. reflexivity.
  - vm_compute. reflexivity.
  - lia.
  - split; [exact H1|]. split; [exact H2|exact H3].
Defined.

Lemma merge_add_refines_witness :
  let l := [mk_MemoryDescriptor 0 0x10000 Free; mk_MemoryDescriptor 0x10000 0x1000 KImage] in
  let item := mk_MemoryDescriptor 0xf000 0x1000 KImage in
  let r := merge_add (Some MAP_CAPACITY) item l in
  r.2 = Ok tt ∧ no_overlap r.1 ∧ kinds_at r.1 0xf800 = [KImage] ∧ kinds_at r.1 0xe800 = [Free].
Proof.
  intros l item r.
  pose proof (merge_add_refines desc_sane (Some MAP_CAPACITY) item l) as H.
  assert (E : merge_add (Some MAP_CAPACITY) item l =
    ([mk_MemoryDescriptor 0 0xf000 Free; mk_MemoryDescriptor 0xf000 0x2000 KImage], Ok tt))
    by (vm_compute; reflexivity).
  rewrite E in H. unfold r. rewrite E. split; [done|].
  destruct H as (Hk & Hno & _).
  - unfold desc_sane, item. simpl. lia.
  - repeat constructor; simpl; lia.
  - intros a. unfold l. rewrite !kinds_at_cons. unfold holds, rstart, rend. simpl.
    destruct (Z.leb_spec 0 a), (Z.ltb_spec a (0 + 0x10000)), (Z.leb_spec 0x10000 a), (Z.ltb_spec a (0x10000 + 0x1000));
      simpl; try (exfalso; lia); repeat constructor.
  - unfold l, MAP_CAPACITY. simpl. lia.
  - split; [exact Hno|]. simpl fst in *. rewrite !Hk. split; vm_compute; reflexivity.
Defined.
