(* ===== verification/PerCpu.v ===== *)
(** * Per-CPU memory

    crates/someboot/src/smp: the list of CPUs (cpu_iter.rs) and the
    conversions between a CPU's index and its hardware id (mod.rs). The CPUs
    that ACPI, the device tree and the CPU itself report are parameters. *)

From stdpp Require Import base list numbers.
From S2P Require Import Prelude PtDef RangesExt Memory.
Open Scope Z_scope.

(** ** cpu_iter.rs *)

Inductive CpuIdSource : Type := Unknown | Acpi | Fdt | Default | Done.

Record CpuIdIter : Type := mk_CpuIdIter {
  source : CpuIdSource;
  next_index : nat;
  pending_first : option Z;
  default_emitted : bool
}.

Definition cpu_iter_new : CpuIdIter := mk_CpuIdIter Unknown 0 None false.

Section CpuIter.
(** What [acpi::cpu_id_list] and [fdt::cpu_id_list] give. *)
Context (acpi fdt : option (list Z)).

Definition select_source (it : CpuIdIter) : CpuIdIter :=
  match acpi with
  | Some (first :: _) => mk_CpuIdIter Acpi 1 (Some first) (default_emitted it)
  | _ =>
      match fdt with
      | Some (first :: _) => mk_CpuIdIter Fdt 1 (Some first) (default_emitted it)
      | _ => mk_CpuIdIter Default (next_index it) (pending_first it) (default_emitted it)
      end
  end.

(** [next_from_acpi] and [next_from_fdt] are the same function of their list. *)
Definition next_from (l : option (list Z)) (it : CpuIdIter) : CpuIdIter * option Z :=
  match pending_first it with
  | Some id => (mk_CpuIdIter (source it) (next_index it) None (default_emitted it), Some id)
  | None =>
      match l ≫= (λ ids, ids !! next_index it) with
      | Some id => (mk_CpuIdIter (source it) (S (next_index it)) None (default_emitted it), Some id)
      | None => (it, None)
      end
  end.

Definition set_source (src : CpuIdSource) (it : CpuIdIter) : CpuIdIter :=
  mk_CpuIdIter src (next_index it) (pending_first it) (default_emitted it).

(** One turn of the loop of [next]: [None] goes round again. *)
Definition cpu_turn (it : CpuIdIter) : CpuIdIter * option (option Z) :=
  match source it with
  | Unknown => (select_source it, None)
  | Acpi =>
      match next_from acpi it with
      | (it', Some id) => (it', Some (Some id))
      | (it', None) => (set_source Done it', None)
      end
  | Fdt =>
      match next_from fdt it with
      | (it', Some id) => (it', Some (Some id))
      | (it', None) => (set_source Done it', None)
      end
  | Default =>
      if default_emitted it then (set_source Done it, None)
      else (mk_CpuIdIter Default (next_index it) (pending_first it) true, Some (Some 0))
  | Done => (it, Some None)
  end.

(** Everything the iterator gives, in order; [None] when the turns run out. *)
Fixpoint cpu_ids (fuel : nat) (it : CpuIdIter) : option (list Z) :=
  match fuel with
  | O => None
  | S fuel' =>
      match cpu_turn it with
      | (it', None) => cpu_ids fuel' it'
      | (_, Some None) => Some []
      | (it', Some (Some id)) => cons id <$> cpu_ids fuel' it'
      end
  end.

(** The list the iterator stands for. *)
Definition cpu_id_list : list Z :=
  match acpi with
  | Some (x :: l) => x :: l
  | _ => match fdt with Some (x :: l) => x :: l | _ => [0] end
  end.

Lemma cpu_ids_from src ids i d :
  (src = Acpi ∧ acpi = Some ids ∨ src = Fdt ∧ fdt = Some ids) → (i ≤ length ids)%nat →
  cpu_ids (length ids - i + 2) (mk_CpuIdIter src i None d) = Some (drop i ids).
Proof.
  intros Hs Hi. remember (length ids - i)%nat as n eqn:En. revert i Hi En.
  induction n as [|n IH]; intros i Hi En.
  - assert (i = length ids) as -> by lia. rewrite drop_all. simpl. unfold cpu_turn, next_from.
    destruct Hs as [[-> E]|[-> E]]; simpl; rewrite E; simpl; by rewrite lookup_ge_None_2 by lia.
  - destruct (lookup_lt_is_Some_2 ids i) as [id Hid]; [lia|].
    assert (Ht : cpu_turn (mk_CpuIdIter src i None d) = (mk_CpuIdIter src (S i) None d, Some (Some id))).
    { unfold cpu_turn, next_from. destruct Hs as [[-> E]|[-> E]]; simpl; rewrite E; simpl; by rewrite Hid. }
    simpl. rewrite Ht. rewrite IH by lia. simpl. by rewrite (drop_S _ _ _ Hid).
Qed.

(** The CPU iterator ends and gives exactly the CPUs of the first source
    that has any: ACPI, else the device tree, else the single CPU 0. *)
Theorem cpu_ids_spec :
  cpu_ids (length cpu_id_list + 3) cpu_iter_new = Some cpu_id_list.
Proof.
  assert (Hgo : ∀ src x ids, (src = Acpi ∧ acpi = Some (x :: ids) ∨ src = Fdt ∧ fdt = Some (x :: ids)) →
    cpu_ids (length ids + 3) (mk_CpuIdIter src 1 (Some x) false) = Some (x :: ids)).
  { intros src x ids Hs. pose proof (cpu_ids_from src (x :: ids) 1 false Hs ltac:(simpl; lia)) as H.
    simpl in H. rewrite Nat.sub_0_r in H. replace (length ids + 3)%nat with (S (length ids + 2)) by lia.
    simpl. destruct Hs as [[-> _]|[-> _]]; cbn [cpu_turn source next_from pending_first next_index default_emitted];
      by rewrite H. }
  unfold cpu_id_list. destruct acpi as [[|x ids]|] eqn:Ea.
  2:{ change (length (x :: ids) + 3)%nat with (S (length ids + 3)).
      cbn [cpu_ids cpu_turn cpu_iter_new source]. unfold select_source. rewrite Ea. apply Hgo. by left. }
  all: destruct fdt as [[|x ids]|] eqn:Ef;
    [by simpl; unfold select_source; simpl; rewrite Ea, Ef; simpl
    |change (length (x :: ids) + 3)%nat with (S (length ids + 3));
     cbn [cpu_ids cpu_turn cpu_iter_new source]; unfold select_source; rewrite Ea, Ef; apply Hgo; by right
    |by simpl; unfold select_source; simpl; rewrite Ea, Ef; simpl].
Qed.

(** smp/mod.rs: [cpu_id_to_idx], [cpu_idx_to_id]. *)
Definition cpu_id_to_idx (hart_id : Z) : option nat :=
  fst <$> list_find (λ id, id = hart_id) cpu_id_list.
Definition cpu_idx_to_id (idx : nat) : option Z := cpu_id_list !! idx.

(** The logical index of a CPU and its hardware id are inverse to each
    other: an id is found at the index it is looked up with, and the lookup of
    the id at an index gives that index when no id occurs twice. *)
Theorem cpu_idx_id_inverse id idx :
  (cpu_id_to_idx id = Some idx → cpu_idx_to_id idx = Some id) ∧
  (NoDup cpu_id_list → cpu_idx_to_id idx = Some id → cpu_id_to_idx id = Some idx).
Proof.
  unfold cpu_id_to_idx, cpu_idx_to_id. split.
  - rewrite fmap_Some. intros ([i y] & H & ->). by apply list_find_Some in H as (? & -> & _).
  - intros Hn Hi. rewrite fmap_Some. exists (idx, id). split; [|done].
    apply list_find_Some. split_and!; [done..|]. intros j y Hj Hlt ->.
    pose proof (NoDup_lookup _ _ _ _ Hn Hi Hj). lia.
Qed.

End CpuIter.
