(* ===== verification/PerCpuAlloc.v ===== *)
(** * Per-CPU memory: the two layouts of the region and its allocation

    crates/someboot/src/smp/legacy.rs puts one record per CPU in the region,
    prealloc.rs one array per kind of data. In both, every CPU has a copy of
    the per-CPU template, a [PerCpuMeta] and a stack. The lemmas: no two of
    these areas overlap, all are inside the region, and the accessors answer
    exactly the CPUs there are. Then [alloc_percpu_region] of smp/mod.rs and the
    two [alloc_percpu], on the boot allocator and the memory map of Memory. The
    result of [alloc_percpu] is the list of the records it writes: for each
    CPU the address the template is copied to, the address of the metadata and
    the metadata. *)

From stdpp Require Import base list numbers.
From S2P Require Import Prelude PtDef RangesExt RangesProof Memory MemoryProof.
Open Scope Z_scope.

(** smp/mod.rs: [PerCpuMeta]. *)
Record PerCpuMeta : Type := mk_PerCpuMeta {
  stack_top : Z;
  cpu_id : Z;
  cpu_idx : Z;
  stack_top_virt : Z;
  entry_virt : Z;
  boot_table_paddr : Z;
  primary_table_paddr : Z
}.

(** [size_of::<PerCpuMeta>()] and [align_of::<PerCpuMeta>()] of a [repr(C)]
    struct of seven words. *)
Definition META_SIZE : Z := 56.
Definition META_ALIGN : Z := 8.

Inductive AreaKind : Type := DataArea | MetaArea | StackArea.

#[export] Instance AreaKind_eq_dec : EqDecision AreaKind.
Proof. solve_decision. Defined.

(** [smp::align_up_pow2]. *)
Definition align_up_pow2 {E} (value align : Z) : outcome E Z :=
  if is_power_of_two align then
    t ← uadd 64 value align;
    t' ← usub t 1;
    Ok (Z.land t' (unot 64 (align - 1)))
  else Stuck.

Lemma align_up_pow2_ok {E} value k :
  0 ≤ k → 0 ≤ value → value + 2 ^ k < 2 ^ 64 →
  ∃ r, align_up_pow2 (E:=E) value (2 ^ k) = Ok r ∧ value ≤ r < value + 2 ^ k ∧ (2 ^ k | r).
Proof.
  intros Hk Hv Hb. pose proof (pow2_pos k Hk). unfold align_up_pow2.
  rewrite is_power_of_two_pow by done. rewrite uadd_ok by lia. simpl.
  rewrite usub_ok by lia. simpl. eexists. split; [done|].
  assert (k < 64) by (apply (Z.pow_lt_mono_r_iff 2); lia).
  assert (E1 : Z.land (value + 2 ^ k - 1) (unot 64 (2 ^ k - 1)) =
    value + 2 ^ k - 1 - (value + 2 ^ k - 1) mod 2 ^ k) by (apply mask_down_pow; lia).
  rewrite E1. pose proof (Z.mod_pos_bound (value + 2 ^ k - 1) (2 ^ k) ltac:(done)).
  split; [lia|]. apply Z.mod_divide; [lia|]. rewrite Zminus_mod_idemp_r, Z.sub_diag. apply Z.mod_0_l. lia.
Qed.

Section Layout.
Context {E : Type} (page_size stack_size link_size : Z).
Notation R := (outcome E).

Definition meta_align : Z := Z.max META_ALIGN 64.
Definition percpu_region_align : Z := Z.max page_size meta_align.

(** ** legacy.rs *)

Definition meta_offset : R Z := align_up_pow2 link_size meta_align.

Definition stack_offset : R Z :=
  m ← meta_offset;
  t ← uadd 64 m META_SIZE;
  align_up_pow2 t page_size.

Definition percpu_data_size : R Z :=
  s ← stack_offset;
  t ← uadd 64 s stack_size;
  align_up_pow2 t percpu_region_align.

(** [cpu_meta_addr] and [percpu_data_ptr] (before [phys_to_virt]). *)
Definition legacy_slot (PERCPU_START PERCPU_END idx : Z) : R (option Z) :=
  size ← percpu_data_size;
  off ← umul 64 idx size;
  base ← uadd 64 PERCPU_START off;
  Ok (if PERCPU_END <=? base then None else Some base).

Definition legacy_cpu_meta_addr (PERCPU_START PERCPU_END idx : Z) : R (option Z) :=
  o ← legacy_slot PERCPU_START PERCPU_END idx;
  match o with
  | None => Ok None
  | Some base => m ← meta_offset; a ← uadd 64 base m; Ok (Some a)
  end.

(** ** prealloc.rs *)

Record LayoutInfo : Type := mk_LayoutInfo {
  meta_region_offset : Z;
  meta_stride : Z;
  stack_region_offset : Z;
  stack_stride : Z;
  data_region_offset : Z;
  data_stride : Z;
  total_size : Z
}.

Definition aligned_slot_size (size align : Z) : R Z := align_up_pow2 (Z.max size 1) align.

Definition layout_info (cpu_num : Z) : R LayoutInfo :=
  ms ← aligned_slot_size META_SIZE meta_align;
  meta_region_size ← umul 64 ms cpu_num;
  ss ← aligned_slot_size stack_size page_size;
  so ← align_up_pow2 meta_region_size page_size;
  stack_region_size ← umul 64 ss cpu_num;
  ds ← aligned_slot_size link_size percpu_region_align;
  t ← uadd 64 so stack_region_size;
  dof ← align_up_pow2 t percpu_region_align;
  data_region_size ← umul 64 ds cpu_num;
  t' ← uadd 64 dof data_region_size;
  total ← align_up_pow2 t' percpu_region_align;
  Ok (mk_LayoutInfo 0 ms so ss dof ds total).

(** [cpu_meta_start], [cpu_stack_start] and [cpu_data_start]. *)
Definition prealloc_start (PERCPU_START cpu_count : Z) (kind : AreaKind) (idx : Z) : R (option Z) :=
  if cpu_count <=? idx then Ok None
  else
    layout ← layout_info cpu_count;
    let '(off, stride) :=
      match kind with
      | MetaArea => (meta_region_offset layout, meta_stride layout)
      | StackArea => (stack_region_offset layout, stack_stride layout)
      | DataArea => (data_region_offset layout, data_stride layout)
      end in
    t ← uadd 64 PERCPU_START off;
    o ← umul 64 idx stride;
    a ← uadd 64 t o;
    Ok (Some a).

Definition area_size (kind : AreaKind) : Z :=
  match kind with DataArea => link_size | MetaArea => META_SIZE | StackArea => stack_size end.

(** ** No two areas overlap *)

Definition disjoint_areas (a b : Z * Z) : Prop := a.1 + a.2 ≤ b.1 ∨ b.1 + b.2 ≤ a.1.

(** Sizes that leave the arithmetic far from the word size. *)
Definition sizes_ok (k n : Z) : Prop :=
  page_size = 2 ^ k ∧ 6 ≤ k ≤ 30 ∧ 0 ≤ stack_size ≤ 2 ^ 32 ∧ 0 ≤ link_size ≤ 2 ^ 32 ∧ 0 ≤ n ≤ 2 ^ 16.

Context (k n : Z) (Hs : sizes_ok k n).

Lemma meta_align_eq : meta_align = 2 ^ 6.
Proof. done. Qed.

Lemma layout_page_bounds : 2 ^ 6 ≤ 2 ^ k ≤ 2 ^ 30.
Proof. destruct Hs as (_ & ? & _). split; apply Z.pow_le_mono_r; lia. Qed.

Lemma region_align_eq : percpu_region_align = 2 ^ k.
Proof.
  unfold percpu_region_align. rewrite meta_align_eq. destruct Hs as (-> & _). pose proof layout_page_bounds. lia.
Qed.

Lemma legacy_offsets : ∃ m s d,
  meta_offset = Ok m ∧ stack_offset = Ok s ∧ percpu_data_size = Ok d ∧
  link_size ≤ m < link_size + 64 ∧ (64 | m) ∧ m + META_SIZE ≤ s < m + META_SIZE + 2 ^ k ∧ (2 ^ k | s) ∧
  s + stack_size ≤ d < s + stack_size + 2 ^ k ∧ (2 ^ k | d).
Proof.
  pose proof layout_page_bounds. pose proof Hs as (Hp & ? & ? & ? & ?).
  destruct (align_up_pow2_ok (E:=E) link_size 6) as (m & Em & ? & ?); [lia..|].
  destruct (align_up_pow2_ok (E:=E) (m + META_SIZE) k) as (s & Es & ? & ?); [unfold META_SIZE; lia..|].
  destruct (align_up_pow2_ok (E:=E) (s + stack_size) k) as (d & Ed & ? & ?); [unfold META_SIZE in *; lia..|].
  unfold META_SIZE in *. exists m, s, d. unfold percpu_data_size, stack_offset, meta_offset.
  rewrite meta_align_eq, region_align_eq, Em, Hp. simpl. unfold META_SIZE. rewrite uadd_ok by lia. simpl.
  rewrite Es. simpl. rewrite uadd_ok by lia. simpl. rewrite Ed. split_and!; done || lia.
Qed.

Lemma slots_apart (i j d : Z) : i ≠ j → 0 < d → i * d + d ≤ j * d ∨ j * d + d ≤ i * d.
Proof. intros. destruct (Z.lt_total i j) as [|[|]]; [left; nia|lia|right; nia]. Qed.

Lemma slot_inside (i m d : Z) : 0 ≤ i < m → 0 ≤ d → 0 ≤ i * d ∧ i * d + d ≤ m * d.
Proof. nia. Qed.

(** The accessors of the legacy layout answer the CPUs there are: on a
    region of [n] records, CPU [idx] has a record when [idx < n] and none
    otherwise, and its metadata is 64-byte aligned when the region is. *)
Theorem legacy_meta_addr_spec start d idx :
  percpu_data_size = Ok d → 0 ≤ start ≤ 2 ^ 60 → (64 | start) → 0 ≤ idx ≤ 2 ^ 16 → 0 < n →
  ∃ m, meta_offset = Ok m ∧
    legacy_cpu_meta_addr start (start + d * n) idx =
      Ok (if idx <? n then Some (start + idx * d + m) else None) ∧ (64 | start + idx * d + m).
Proof.
  intros Hd Hst Hal Hidx Hn. destruct legacy_offsets as (m & s & d' & Em & Es & Ed & ? & Hm & ? & _ & ? & Hdd).
  pose proof layout_page_bounds. pose proof Hs as (_ & ? & ? & ? & ?). unfold META_SIZE in *.
  assert (d' = d) as -> by congruence. exists m. split; [done|].
  assert (0 < d ≤ 2 ^ 34) by lia. assert (0 ≤ idx * d ≤ 2 ^ 16 * 2 ^ 34) by nia.
  unfold legacy_cpu_meta_addr, legacy_slot. rewrite Hd. simpl. rewrite umul_ok by lia. simpl.
  rewrite uadd_ok by lia. simpl. split.
  - assert (d * n ≤ idx * d ↔ n ≤ idx)
      by (rewrite (Z.mul_comm d n); symmetry; apply Z.mul_le_mono_pos_r; lia).
    destruct (Z.leb_spec (start + d * n) (start + idx * d)), (Z.ltb_spec idx n); [lia|done| |lia].
    simpl. rewrite Em. simpl. by rewrite uadd_ok by lia.
  - apply Z.divide_add_r; [apply Z.divide_add_r; [done|]|done]. apply Z.divide_mul_r.
    etransitivity; [|exact Hdd]. exists (2 ^ (k - 6)). change 64 with (2 ^ 6). rewrite <- Z.pow_add_r by lia. f_equal. lia.
Qed.

Lemma layout_info_ok : ∃ l, layout_info n = Ok l ∧
  meta_region_offset l = 0 ∧ META_SIZE ≤ meta_stride l ∧ stack_size ≤ stack_stride l ∧
  link_size ≤ data_stride l ∧ 0 < stack_stride l ∧ 0 < data_stride l ∧
  meta_stride l * n ≤ stack_region_offset l ∧
  stack_region_offset l + stack_stride l * n ≤ data_region_offset l ∧
  data_region_offset l + data_stride l * n ≤ total_size l ∧ total_size l < 2 ^ 52 ∧
  (64 | meta_stride l) ∧ (2 ^ k | stack_region_offset l) ∧ (2 ^ k | stack_stride l) ∧
  (2 ^ k | data_region_offset l) ∧ (2 ^ k | data_stride l) ∧ (2 ^ k | total_size l).
Proof.
  pose proof layout_page_bounds. pose proof Hs as (Hp & ? & ? & ? & ?).
  unfold layout_info, aligned_slot_size. rewrite meta_align_eq, region_align_eq, Hp.
  destruct (align_up_pow2_ok (E:=E) (Z.max META_SIZE 1) 6) as (ms & Ems & ? & ?); [unfold META_SIZE; lia..|].
  assert (0 ≤ ms * n ≤ 120 * 2 ^ 16) by (unfold META_SIZE in *; nia).
  rewrite Ems. simpl. rewrite umul_ok by lia. simpl.
  destruct (align_up_pow2_ok (E:=E) (Z.max stack_size 1) k) as (ss & Ess & ? & ?); [lia..|].
  assert (0 ≤ ss * n ≤ 2 ^ 33 * 2 ^ 16) by nia.
  rewrite Ess. simpl.
  destruct (align_up_pow2_ok (E:=E) (ms * n) k) as (so & Eso & ? & ?); [lia..|].
  rewrite Eso. simpl. rewrite umul_ok by lia. simpl.
  destruct (align_up_pow2_ok (E:=E) (Z.max link_size 1) k) as (ds & Eds & ? & ?); [lia..|].
  assert (0 ≤ ds * n ≤ 2 ^ 33 * 2 ^ 16) by nia.
  rewrite Eds. simpl. rewrite uadd_ok by lia. simpl.
  destruct (align_up_pow2_ok (E:=E) (so + ss * n) k) as (dof & Edo & ? & ?); [lia..|].
  rewrite Edo. simpl. rewrite umul_ok by lia. simpl. rewrite uadd_ok by lia. simpl.
  destruct (align_up_pow2_ok (E:=E) (dof + ds * n) k) as (tot & Et & ? & ?); [lia..|].
  rewrite Et. simpl. eexists. split; [done|]. simpl. split_and!; done || lia.
Qed.

(** Offset and stride of the area of each kind in the preallocated layout. *)
Definition area_offset (l : LayoutInfo) (kind : AreaKind) : Z :=
  match kind with
  | MetaArea => meta_region_offset l
  | StackArea => stack_region_offset l
  | DataArea => data_region_offset l
  end.
Definition area_stride (l : LayoutInfo) (kind : AreaKind) : Z :=
  match kind with
  | MetaArea => meta_stride l
  | StackArea => stack_stride l
  | DataArea => data_stride l
  end.

(** The accessor of each kind answers every CPU below the count. *)
Lemma prealloc_start_run l start kind q :
  layout_info n = Ok l → 0 ≤ start ≤ 2 ^ 60 → 0 ≤ q < n →
  prealloc_start start n kind q = Ok (Some (start + area_offset l kind + q * area_stride l kind)).
Proof.
  intros El Hst Hq. unfold prealloc_start. rewrite (proj2 (Z.leb_gt _ _)) by lia.
  destruct layout_info_ok as (l' & El' & Hm0 & ? & ? & ? & ? & ? & ? & ? & ? & ? & _).
  assert (l' = l) as -> by congruence. pose proof Hs as (_ & _ & ? & ? & ?). unfold META_SIZE in *.
  rewrite El. simpl.
  destruct kind; simpl; (rewrite uadd_ok by nia); simpl; (rewrite umul_ok by nia); simpl; by rewrite uadd_ok by nia.
Qed.

(** The areas are inside the region and no two of them overlap. *)
Lemma prealloc_areas_apart l start i j a b :
  layout_info n = Ok l → 0 ≤ i < n → 0 ≤ j < n →
  let at_ c q := start + area_offset l c + q * area_stride l c in
  start ≤ at_ a i ∧ at_ a i + area_size a ≤ start + total_size l ∧
  ((a, i) ≠ (b, j) → disjoint_areas (at_ a i, area_size a) (at_ b j, area_size b)).
Proof.
  intros El Hi Hj at_.
  destruct layout_info_ok as (l' & El' & Hm0 & ? & ? & ? & ? & ? & ? & ? & ? & ? & _).
  assert (l' = l) as -> by congruence. pose proof Hs as (_ & _ & ? & ? & ?). unfold META_SIZE in *.
  assert (Hin : ∀ c q, 0 ≤ q < n →
    0 ≤ q * area_stride l c ∧ q * area_stride l c + area_stride l c ≤ n * area_stride l c ∧
    area_size c ≤ area_stride l c)
    by (intros [] q Hq; simpl; unfold META_SIZE; split_and!; done || nia).
  destruct (Hin a i Hi) as (? & ? & ?), (Hin b j Hj) as (? & ? & ?). unfold at_, disjoint_areas. simpl.
  split_and!; [destruct a; simpl in *; nia..|]. intros Hne.
  destruct (decide (a = b)) as [<-|Hab].
  - assert (i ≠ j) by congruence. destruct (slots_apart i j (area_stride l a)); [done|destruct a; simpl; lia|lia|lia].
  - destruct a, b; simpl in *; done || lia.
Qed.

End Layout.

Lemma legacy_meta_addr_spec_witness :
  percpu_data_size (E := unit) 0x1000 0x4000 0x130 = Ok 0x5000 ∧
  legacy_cpu_meta_addr (E := unit) 0x1000 0x4000 0x130 0x100000 (0x100000 + 0x5000 * 4) 3 =
    Ok (Some 0x10f140).
Proof.
  assert (Hd : percpu_data_size (E := unit) 0x1000 0x4000 0x130 = Ok 0x5000) by (vm_compute; reflexivity).
  split; [exact Hd|].
  assert (Hs : sizes_ok 0x1000 0x4000 0x130 12 4) by (unfold sizes_ok; lia).
  destruct (legacy_meta_addr_spec (E := unit) 0x1000 0x4000 0x130 12 4 Hs 0x100000 0x5000 3)
    as (m & Em & Ea & _); [exact Hd|lia|exists 0x4000; lia|lia|lia|].
  rewrite Ea. assert (m = 0x140) as -> by (injection Em as <-; vm_compute; reflexivity). vm_compute. reflexivity.
Defined.

(** ** Allocation *)


Section PerCpuAlloc.
Context `{NA : NumAlign} (page_size stack_size link_size : Z).
Notation BM := (M BootMem (RangeError MemoryDescriptor)).

(** smp/mod.rs: [alloc_percpu_region]. *)
Definition alloc_percpu_region (size : Z) : BM Z :=
  _ ← flush_to_memory_map page_size Reserved;
  o ← alloc_and_flush_to_memory_map page_size size (percpu_region_align page_size) PerCpuData;
  lift (unwrap o).

(** [for (idx, hard_id) in __cpu_id_list().enumerate()]. *)
Fixpoint for_cpus {X} (f : Z → Z → BM X) (idx : Z) (ids : list Z) : BM (list X) :=
  match ids with
  | [] => mret []
  | id :: ids' => x ← f idx id; xs ← for_cpus f (idx + 1) ids'; mret (x :: xs)
  end.

Definition new_meta (percpu_va : Z → Z) (entry_virt top id idx : Z) : PerCpuMeta :=
  mk_PerCpuMeta top id idx (percpu_va top) entry_virt 0 0.

(** legacy.rs: [alloc_percpu]. *)
Definition legacy_alloc_percpu (percpu_va : Z → Z) (entry_virt : Z) (ids : list Z) :
    BM (list (Z * Z * PerCpuMeta)) :=
  size ← lift (percpu_data_size page_size stack_size link_size);
  total ← lift (umul 64 size (Z.of_nat (length ids)));
  percpu_data ← alloc_percpu_region total;
  end_ ← lift (uadd 64 percpu_data total);
  _ ← modify (set_percpu_range percpu_data end_);
  for_cpus (λ idx id,
    b ← get;
    off ← lift (umul 64 idx size);
    start ← lift (uadd 64 (PERCPU_START b) off);
    m ← lift (meta_offset link_size);
    meta_start ← lift (uadd 64 start m);
    s ← lift (stack_offset page_size link_size);
    t ← lift (uadd 64 start s);
    top ← lift (uadd 64 t stack_size);
    mret (start, meta_start, new_meta percpu_va entry_virt top id idx)) 0 ids.

(** prealloc.rs: [alloc_percpu]. *)
Definition prealloc_alloc_percpu (percpu_va : Z → Z) (entry_virt : Z) (ids : list Z) :
    BM (list (Z * Z * PerCpuMeta)) :=
  let cpu_num := Z.of_nat (length ids) in
  layout ← lift (layout_info page_size stack_size link_size cpu_num);
  percpu_data ← alloc_percpu_region (total_size layout);
  end_ ← lift (uadd 64 percpu_data (total_size layout));
  _ ← modify (set_percpu_range percpu_data end_);
  for_cpus (λ idx id,
    b ← get;
    let start k := prealloc_start page_size stack_size link_size (PERCPU_START b) cpu_num k idx in
    d ← lift (start DataArea); cpu_data_start ← lift (unwrap d);
    m ← lift (start MetaArea); meta_start ← lift (unwrap m);
    s ← lift (start StackArea); stack_start ← lift (unwrap s);
    top ← lift (uadd 64 stack_start stack_size);
    mret (cpu_data_start, meta_start, new_meta percpu_va entry_virt top id idx)) 0 ids.

(** The three areas of the CPU a record describes, as address and size. *)
Definition rec_area (kind : AreaKind) (x : Z * Z * PerCpuMeta) : Z * Z :=
  match kind with
  | DataArea => (x.1.1, link_size)
  | MetaArea => (x.1.2, META_SIZE)
  | StackArea => (stack_top x.2 - stack_size, stack_size)
  end.

(** The records for the CPUs [ids] in the region of [size] bytes at [p]: one
    per CPU, in order, with the CPU's id and index, aligned as the assertions
    of the code ask, inside the region, and no two areas overlap. *)
Definition records_ok (ids : list Z) (p size : Z) (xs : list (Z * Z * PerCpuMeta)) : Prop :=
  length xs = length ids ∧
  (∀ i x, xs !! i = Some x →
     ids !! i = Some (cpu_id x.2) ∧ cpu_idx x.2 = Z.of_nat i ∧
     (page_size | x.1.1) ∧ (64 | x.1.2) ∧ (page_size | stack_top x.2 - stack_size) ∧
     ∀ kd, p ≤ (rec_area kd x).1 ∧ (rec_area kd x).1 + (rec_area kd x).2 ≤ p + size) ∧
  (∀ i j a b x y, xs !! i = Some x → xs !! j = Some y → (a, i) ≠ (b, j) →
     disjoint_areas (rec_area a x) (rec_area b y)).

(** The region itself: free memory above all earlier blocks, recorded in the
    memory map. *)
Definition region_ok (b b' : BootMem) (p size : Z) : Prop :=
  (page_size | p) ∧ RAM_CURRENT b ≤ p ∧ p + size ≤ RAM_END b ∧ p + size ≤ RAM_CURRENT b' ∧
  map_ok (MEMORY_MAP b') ∧ ram_ok b' ∧
  ∀ a, p ≤ a < p + size → kinds_at (MEMORY_MAP b') a = [PerCpuData].

Lemma for_cpus_run {X} (f : Z → Z → BM X) (g : Z → Z → X) b ids : ∀ idx,
  (∀ q id, idx ≤ q < idx + Z.of_nat (length ids) → f q id b = (b, Ok (g q id))) →
  for_cpus f idx ids b = (b, Ok (imap (λ i, g (idx + Z.of_nat i)) ids)).
Proof.
  induction ids as [|id ids IH]; intros idx Hf; [done|]. simpl length in Hf. simpl for_cpus.
  rewrite (bind_run _ _ _ _ _ (Hf idx id ltac:(lia))).
  rewrite (bind_run _ _ _ _ _ (IH (idx + 1) ltac:(intros; apply Hf; lia))).
  unfold mret, M_ret. rewrite imap_cons, Z.add_0_r. do 3 f_equal. apply imap_ext. intros. simpl. f_equal. lia.
Qed.

Context {NL : NumAlignLaws} (k : Z) (Hk : 6 ≤ k ≤ 30) (Hpage : page_size = 2 ^ k).

Lemma page_region_align : percpu_region_align page_size = 2 ^ k.
Proof.
  unfold percpu_region_align, meta_align, META_ALIGN. rewrite Hpage.
  assert (2 ^ 6 ≤ 2 ^ k) by (apply Z.pow_le_mono_r; lia). lia.
Qed.

(** The per-CPU region is page aligned, above every block handed out
    before and below the end of RAM; when it is returned, the memory map says
    [PerCpuData] on the whole region, and the allocator starts after it. *)
Lemma alloc_percpu_region_spec size b b' p :
  ram_ok b → 0 ≤ RAM_START b ≤ RAM_CURRENT b → map_ok (MEMORY_MAP b) → 0 < size ≤ 2 ^ 52 →
  alloc_percpu_region size b = (b', Ok p) → region_ok b b' p size.
Proof.
  intros Hb Hst Hm Hsz. unfold alloc_percpu_region, alloc_and_flush_to_memory_map.
  unfold mbind, M_bind, region_ok. rewrite page_region_align, Hpage.
  pose proof (flush_spec k ltac:(lia) Reserved b Hb ltac:(lia) Hm) as HF.
  pose proof (pow2_pos k ltac:(lia)). assert (2 ^ k ≤ 2 ^ 30) by (apply Z.pow_le_mono_r; lia).
  destruct Hb as [? ?]. destruct (align_up_spec (RAM_CURRENT b) k) as [? _]; [lia..|].
  destruct (flush_to_memory_map (2 ^ k) Reserved b) as [b1 [[]|e|]]; [|done..].
  destruct HF as (Hb1 & Hm1 & He1 & Hc1 & Hf1 & Hf0 & _).
  pose proof (alloc_spec size k b1 Hb1 ltac:(lia) ltac:(lia)) as HA.
  destruct (alloc size (2 ^ k) b1) as [b2 [[q|]|e|]]; [| |done..].
  2:{ unfold lift. simpl. intros [=]. }
  destruct HA as (Hd & Hq & Hqe & -> & Hb2).
  set (b2 := set_ram (RAM_START b1) (RAM_END b1) (q + size) b1) in *.
  assert (Hs1 : 0 ≤ RAM_START b1 ≤ RAM_CURRENT b1).
  { destruct (decide (RAM_START b < align_up (RAM_CURRENT b) (2 ^ k))) as [Hlt|Hge].
    - destruct (Hf1 Hlt) as [-> ->]. lia.
    - by rewrite Hf0 by lia. }
  pose proof (flush_spec k ltac:(lia) PerCpuData b2 Hb2 ltac:(simpl; lia) Hm1) as HG.
  destruct (align_up_spec (RAM_CURRENT b2) k) as [? _]; [simpl; lia..|].
  destruct (flush_to_memory_map (2 ^ k) PerCpuData b2) as [b3 [[]|e|]]; [|done..].
  destruct HG as (Hb3 & Hm3 & _ & Hc3 & _ & _ & Hk3). unfold lift. simpl. intros [= <- <-].
  simpl in Hc3. split_and!; try done; try lia.
  intros a Ha. rewrite Hk3. simpl RAM_START. simpl RAM_CURRENT.
  rewrite (proj2 (Z.leb_le _ _)), (proj2 (Z.ltb_lt _ _)) by (simpl in *; lia). done.
Qed.

Lemma divide_slot p q d o : (2 ^ k | p) → (2 ^ k | d) → (2 ^ k | o) → (2 ^ k | p + q * d + o).
Proof. intros. apply Z.divide_add_r; [apply Z.divide_add_r; [done|by apply Z.divide_mul_r]|done]. Qed.

Lemma divide_64 x : (2 ^ k | x) → (64 | x).
Proof.
  intros. etransitivity; [|done]. exists (2 ^ (k - 6)). change 64 with (2 ^ 6).
  rewrite <- Z.pow_add_r by lia. f_equal. lia.
Qed.

(** Records computed from an address function per kind of area are in order
    when the areas are aligned, inside the region and disjoint. *)
Lemma records_of (at_ : AreaKind → Z → Z) percpu_va entry_virt ids p size :
  (∀ q, 0 ≤ q < Z.of_nat (length ids) →
     (2 ^ k | at_ DataArea q) ∧ (64 | at_ MetaArea q) ∧ (2 ^ k | at_ StackArea q)) →
  (∀ a b i j, 0 ≤ i < Z.of_nat (length ids) → 0 ≤ j < Z.of_nat (length ids) →
     p ≤ at_ a i ∧ at_ a i + area_size stack_size link_size a ≤ p + size ∧
     ((a, i) ≠ (b, j) → disjoint_areas (at_ a i, area_size stack_size link_size a)
                                        (at_ b j, area_size stack_size link_size b))) →
  records_ok ids p size
    (imap (λ i id, (at_ DataArea (0 + Z.of_nat i), at_ MetaArea (0 + Z.of_nat i),
       new_meta percpu_va entry_virt (at_ StackArea (0 + Z.of_nat i) + stack_size) id (0 + Z.of_nat i))) ids).
Proof.
  intros Hal Hap.
  set (g := λ (i : nat) (id : Z), (at_ DataArea (0 + Z.of_nat i), at_ MetaArea (0 + Z.of_nat i),
     new_meta percpu_va entry_virt (at_ StackArea (0 + Z.of_nat i) + stack_size) id (0 + Z.of_nat i))).
  assert (Hlk : ∀ i x, imap g ids !! i = Some x → (i < length ids)%nat ∧
    ids !! i = Some (cpu_id x.2) ∧ cpu_idx x.2 = Z.of_nat i ∧
    ∀ kd, rec_area kd x = (at_ kd (Z.of_nat i), area_size stack_size link_size kd)).
  { intros i x. rewrite list_lookup_imap. destruct (ids !! i) as [id|] eqn:Ei; simpl; [|done].
    intros [= <-]. apply lookup_lt_Some in Ei. split_and!; try done.
    intros []; cbn [rec_area area_size g fst snd new_meta stack_top]; rewrite ?Z.add_0_l; f_equal; try lia. }
  split_and!; [apply length_imap| |].
  - intros i x Hx. destruct (Hlk i x Hx) as (Hi & Hid & Hidx & Har).
    destruct (Hal (Z.of_nat i) ltac:(lia)) as (H1 & H2 & H3).
    pose proof (Har DataArea) as [= Ed]. pose proof (Har MetaArea) as [= Em]. pose proof (Har StackArea) as [= Est].
    rewrite Hpage, Ed, Em, Est. split_and!; try done. intros kd. rewrite Har. simpl.
    destruct (Hap kd kd (Z.of_nat i) (Z.of_nat i)) as (? & ? & _); [lia..|done].
  - intros i j a b x y Hx Hy Hne. destruct (Hlk i x Hx) as (Hi & _ & _ & ->).
    destruct (Hlk j y Hy) as (Hj & _ & _ & ->).
    destruct (Hap a b (Z.of_nat i) (Z.of_nat j)) as (_ & _ & Hd); [lia..|]. apply Hd. naive_solver lia.
Qed.

Context (ids : list Z) (percpu_va : Z → Z) (entry_virt : Z).
Notation n := (Z.of_nat (length ids)).
Hypothesis Hids : ids ≠ [].
Hypothesis Hs : sizes_ok page_size stack_size link_size k n.

Lemma ids_pos : 0 < n.
Proof. destruct ids; simpl; [done|lia]. Qed.

(** [alloc_percpu] of the legacy layout. The size of a record is computed
    without overflow, and when the boot allocator has memory for one record
    per CPU the call returns: the region is fresh, page-aligned memory that the
    memory map marks [PerCpuData], every CPU gets its record with its id and
    index, the areas (template copy, metadata, stack) are aligned and inside
    the region, and no two of them overlap, within a CPU or across CPUs. *)
Theorem legacy_alloc_percpu_spec b :
  ram_ok b → 0 ≤ RAM_START b ≤ RAM_CURRENT b → map_ok (MEMORY_MAP b) →
  ∃ d, percpu_data_size (E := RangeError MemoryDescriptor) page_size stack_size link_size = Ok d ∧
  ∀ b1 p, alloc_percpu_region (d * n) b = (b1, Ok p) →
  region_ok b b1 p (d * n) ∧
  ∃ xs, legacy_alloc_percpu percpu_va entry_virt ids b =
      (set_percpu_range p (p + d * n) b1, Ok xs) ∧
    records_ok ids p (d * n) xs.
Proof.
  intros Hb Hst Hm. pose proof ids_pos as Hn. pose proof Hs as (_ & _ & ? & ? & ?).
  destruct (legacy_offsets (E := RangeError MemoryDescriptor) page_size stack_size link_size k n Hs)
    as (m & s & d & Em & Es & Ed & ? & Hm64 & ? & Hs2 & ? & Hd2). unfold META_SIZE in *.
  assert (2 ^ 6 ≤ 2 ^ k ≤ 2 ^ 30) by (split; apply Z.pow_le_mono_r; lia).
  assert (0 < d ≤ 2 ^ 34) by lia. assert (0 < d * n ≤ 2 ^ 34 * 2 ^ 16) by nia.
  exists d. split; [done|]. intros b1 p Hr.
  pose proof (alloc_percpu_region_spec (d * n) b b1 p Hb Hst Hm ltac:(lia) Hr) as Hreg. split; [done|].
  destruct Hreg as (Hp2 & ? & ? & _ & _ & [? ?] & _). destruct Hb as [? ?]. rewrite Hpage in Hp2.
  set (at_ a q := p + q * d + match a with DataArea => 0 | MetaArea => m | StackArea => s end).
  eexists. split.
  - unfold legacy_alloc_percpu. rewrite (bind_lift _ _ _ _ Ed), (bind_lift _ _ _ (d * n)) by (apply umul_ok; lia).
    rewrite (bind_run _ _ _ _ _ Hr), (bind_lift _ _ _ (p + d * n)) by (apply uadd_ok; lia).
    erewrite bind_run by reflexivity.
    apply (for_cpus_run _ (λ q id, (at_ DataArea q, at_ MetaArea q,
       new_meta percpu_va entry_virt (at_ StackArea q + stack_size) id q))).
    intros q id Hq. assert (0 ≤ q * d ≤ n * d) by nia. erewrite bind_run by reflexivity.
    cbn [PERCPU_START set_percpu_range].
    rewrite (bind_lift _ _ _ (q * d)) by (apply umul_ok; lia).
    rewrite (bind_lift _ _ _ (p + q * d)) by (apply uadd_ok; lia).
    rewrite (bind_lift _ _ _ _ Em), (bind_lift _ _ _ (p + q * d + m)) by (apply uadd_ok; lia).
    rewrite (bind_lift _ _ _ _ Es), (bind_lift _ _ _ (p + q * d + s)) by (apply uadd_ok; lia).
    rewrite (bind_lift _ _ _ (p + q * d + s + stack_size)) by (apply uadd_ok; lia).
    unfold at_. by rewrite Z.add_0_r.
  - apply (records_of at_); unfold at_.
    + intros q Hq. split_and!; [apply divide_slot; try done; apply Z.divide_0_r| |by apply divide_slot].
      apply Z.divide_add_r; [apply divide_64|done]. rewrite <- (Z.add_0_r (p + q * d)).
      apply divide_slot; try done. apply Z.divide_0_r.
    + intros a c i j Hi Hj. pose proof (slot_inside i n d Hi ltac:(lia)) as ?.
      unfold disjoint_areas, area_size, META_SIZE. simpl. split_and!; [destruct a; lia..|]. intros Hne.
      destruct (decide (i = j)) as [->|Hij]; [destruct a, c; done || lia|].
      destruct (slots_apart i j d Hij); [lia| |]; destruct a, c; lia.
Qed.

(** [alloc_percpu] of the preallocated layout: the same promises. The
    layout is computed without overflow for the CPUs there are, the accessors
    answer every CPU, and when the boot allocator has the memory the call
    returns one record per CPU with aligned, disjoint areas inside the fresh
    region. *)
Theorem prealloc_alloc_percpu_spec b :
  ram_ok b → 0 ≤ RAM_START b ≤ RAM_CURRENT b → map_ok (MEMORY_MAP b) →
  ∃ l, layout_info (E := RangeError MemoryDescriptor) page_size stack_size link_size n = Ok l ∧
  ∀ b1 p, alloc_percpu_region (total_size l) b = (b1, Ok p) →
  region_ok b b1 p (total_size l) ∧
  ∃ xs, prealloc_alloc_percpu percpu_va entry_virt ids b =
      (set_percpu_range p (p + total_size l) b1, Ok xs) ∧
    records_ok ids p (total_size l) xs.
Proof.
  intros Hb Hst Hm. pose proof ids_pos as Hn. pose proof Hs as (_ & _ & ? & ? & ?).
  destruct (layout_info_ok (E := RangeError MemoryDescriptor) page_size stack_size link_size k n Hs)
    as (l & El & Hm0 & ? & ? & ? & ? & ? & ? & ? & ? & ? & H64 & Hso & Hss & Hdo & Hds & _).
  unfold META_SIZE in *.
  assert (0 < total_size l) by nia. exists l. split; [done|]. intros b1 p Hr.
  pose proof (alloc_percpu_region_spec (total_size l) b b1 p Hb Hst Hm ltac:(lia) Hr) as Hreg. split; [done|].
  destruct Hreg as (Hp2 & ? & ? & _ & _ & [? ?] & _). destruct Hb as [? ?]. rewrite Hpage in Hp2.
  set (at_ a q := p + area_offset l a + q * area_stride l a).
  eexists. split.
  - unfold prealloc_alloc_percpu. rewrite (bind_lift _ _ _ _ El), (bind_run _ _ _ _ _ Hr).
    rewrite (bind_lift _ _ _ (p + total_size l)) by (apply uadd_ok; lia).
    erewrite bind_run by reflexivity.
    apply (for_cpus_run _ (λ q id, (at_ DataArea q, at_ MetaArea q,
       new_meta percpu_va entry_virt (at_ StackArea q + stack_size) id q))).
    intros q id Hq. erewrite bind_run by reflexivity. cbn [PERCPU_START set_percpu_range].
    assert (Hrun : ∀ c, prealloc_start (E := RangeError MemoryDescriptor) page_size stack_size link_size p n c q =
      Ok (Some (at_ c q))) by (intros c; eapply (prealloc_start_run _ _ _ k n Hs); [done|lia|lia]).
    do 3 (rewrite (bind_lift _ _ _ _ (Hrun _)); erewrite bind_lift by reflexivity).
    destruct (prealloc_areas_apart _ _ _ k n Hs l p q q StackArea StackArea El) as (? & ? & _); [lia..|].
    rewrite (bind_lift _ _ _ (at_ StackArea q + stack_size)); [done|]. apply uadd_ok.
    unfold at_. simpl area_size in *. lia.
  - apply (records_of at_); unfold at_.
    + intros q Hq. simpl. rewrite Hm0. split_and!.
      * replace (p + data_region_offset l + q * data_stride l) with (p + q * data_stride l + data_region_offset l) by lia.
        by apply divide_slot.
      * apply Z.divide_add_r; [|by apply Z.divide_mul_r]. rewrite Z.add_0_r. by apply divide_64.
      * replace (p + stack_region_offset l + q * stack_stride l)
          with (p + q * stack_stride l + stack_region_offset l) by lia.
        by apply divide_slot.
    + intros a c i j Hi Hj. by apply (prealloc_areas_apart _ _ _ k n Hs l p i j a c El).
Qed.
End PerCpuAlloc.

(** ** Concrete runs: two CPUs with ids 0 and 4 *)

Definition boot_state : BootMem := mk_BootMem 0x100000 0x900000 0x100010 [] 0 0.

Lemma boot_state_ok :
  ram_ok boot_state ∧ 0 ≤ RAM_START boot_state ≤ RAM_CURRENT boot_state ∧ map_ok (MEMORY_MAP boot_state).
Proof. split_and!; [split; simpl; lia|simpl; lia|simpl; lia|apply map_ok_nil]. Qed.

Lemma legacy_alloc_percpu_spec_witness :
  ∃ b1 xs, alloc_percpu_region (NA := DivAlign.div_align) 0x1000 (0x5000 * 2) boot_state = (b1, Ok 0x101000) ∧
  legacy_alloc_percpu (NA := DivAlign.div_align) 0x1000 0x4000 0x130 (λ a, a) 0 [0; 4] boot_state =
    (set_percpu_range 0x101000 0x10b000 b1, Ok xs) ∧
  records_ok 0x1000 0x4000 0x130 [0; 4] 0x101000 0xa000 xs.
Proof.
  destruct boot_state_ok as (H1 & H2 & H3).
  destruct (legacy_alloc_percpu_spec (NA := DivAlign.div_align) 0x1000 0x4000 0x130 (NL := DivAlign.div_align_laws)
    12 ltac:(lia) eq_refl [0; 4] (λ a, a) 0 ltac:(done) ltac:(unfold sizes_ok; simpl; lia) boot_state H1 H2 H3)
    as (d & Ed & H).
  assert (d = 0x5000) as -> by (injection Ed as <-; vm_compute; reflexivity).
  set (b1 := (alloc_percpu_region (NA := DivAlign.div_align) 0x1000 (0x5000 * 2) boot_state).1).
  assert (Er : alloc_percpu_region (NA := DivAlign.div_align) 0x1000 (0x5000 * 2) boot_state = (b1, Ok 0x101000))
    by (vm_compute; reflexivity).
  destruct (H b1 0x101000 Er) as (_ & xs & Ex & Hx). exists b1, xs. split; [exact Er|]. split; [exact Ex|exact Hx].
Defined.

Lemma prealloc_alloc_percpu_spec_witness :
  ∃ b1 xs, alloc_percpu_region (NA := DivAlign.div_align) 0x1000 0xb000 boot_state = (b1, Ok 0x101000) ∧
  prealloc_alloc_percpu (NA := DivAlign.div_align) 0x1000 0x4000 0x130 (λ a, a) 0 [0; 4] boot_state =
    (set_percpu_range 0x101000 0x10c000 b1, Ok xs) ∧
  records_ok 0x1000 0x4000 0x130 [0; 4] 0x101000 0xb000 xs.
Proof.
  destruct boot_state_ok as (H1 & H2 & H3).
  destruct (prealloc_alloc_percpu_spec (NA := DivAlign.div_align) 0x1000 0x4000 0x130 (NL := DivAlign.div_align_laws)
    12 ltac:(lia) eq_refl [0; 4] (λ a, a) 0 ltac:(done) ltac:(unfold sizes_ok; simpl; lia) boot_state H1 H2 H3)
    as (l & El & H).
  assert (Et : total_size l = 0xb000) by (injection El as <-; vm_compute; reflexivity).
  rewrite Et in H.
  set (b1 := (alloc_percpu_region (NA := DivAlign.div_align) 0x1000 0xb000 boot_state).1).
  assert (Er : alloc_percpu_region (NA := DivAlign.div_align) 0x1000 0xb000 boot_state = (b1, Ok 0x101000))
    by (vm_compute; reflexivity).
  destruct (H b1 0x101000 Er) as (_ & xs & Ex & Hx). exists b1, xs. split; [exact Er|]. split; [exact Ex|exact Hx].
Defined.
