(* ===== verification/Bytes.v ===== *)
(** * Little-endian words in memory

    The C layout of the structures that drivers share with devices: words of
    some bytes, one behind the other. *)

From stdpp Require Import base list numbers.
From S2P Require Import Prelude.
Open Scope Z_scope.

Fixpoint le_bytes (n : nat) (v : Z) : list Z :=
  match n with O => [] | S n => v mod 256 :: le_bytes n (v / 256) end.
Fixpoint le_word (bs : list Z) : Z :=
  match bs with [] => 0 | b :: bs => b + 256 * le_word bs end.

(** The [n]-byte word at offset [o]. *)
Definition word_at (o n : nat) (bs : list Z) : Z := le_word (take n (drop o bs)).

(** ** Reading back what was written *)

Lemma length_le_bytes n v : length (le_bytes n v) = n.
Proof. revert v. induction n as [|n IH]; intros v; simpl; [done|]. by rewrite IH. Qed.

Lemma le_word_bytes n : ∀ v, 0 ≤ v < 256 ^ Z.of_nat n → le_word (le_bytes n v) = v.
Proof.
  induction n as [|n IH]; intros v Hv; simpl; [change (256 ^ Z.of_nat 0) with 1 in Hv; lia|].
  rewrite Nat2Z.inj_succ, Z.pow_succ_r in Hv by lia.
  rewrite IH; [|split; [apply Z.div_pos; lia|apply Z.div_lt_upper_bound; lia]].
  pose proof (Z.div_mod v 256). lia.
Qed.

(** The first word of a record of words. *)
Lemma word_at_here n v rest : 0 ≤ v < 256 ^ Z.of_nat n → word_at 0 n (le_bytes n v ++ rest) = v.
Proof.
  intros Hv. unfold word_at. rewrite drop_0, take_app_length' by (by rewrite length_le_bytes). by apply le_word_bytes.
Qed.

(** A later word: skip the first. *)
Lemma word_at_skip o k n v rest : (k ≤ o)%nat → word_at o n (le_bytes k v ++ rest) = word_at (o - k) n rest.
Proof.
  intros Ho. unfold word_at. replace (drop o (le_bytes k v ++ rest)) with (drop (o - k) rest); [done|].
  rewrite drop_app_ge by (rewrite length_le_bytes; lia). by rewrite length_le_bytes.
Qed.

Lemma word_at_last n v : 0 ≤ v < 256 ^ Z.of_nat n → word_at 0 n (le_bytes n v) = v.
Proof. intros Hv. rewrite <- (app_nil_r (le_bytes n v)). by apply word_at_here. Qed.

Ltac words :=
  repeat (rewrite word_at_skip by lia; cbn [Nat.sub]);
  first [apply word_at_here | apply word_at_last]; simpl; lia.
