(* ===== verification/Madt.v ===== *)
(** * The CPUs in the ACPI tables

    crates/someboot/src/acpi/cpu.rs: the iterators over the entries of the MADT
    (multiple APIC description table), one for each architecture, and the lists
    of CPUs made of them. The table is the bytes the mapping covers; reading a
    byte outside of it is [Stuck].

    The theorems: no table makes an iterator read outside of it, and a table
    made of entries gives the CPUs of the entries of its architecture in
    order. *)

From stdpp Require Import base list numbers.
From S2P Require Import Prelude Bytes.
Open Scope Z_scope.

Definition MADT_HEADER_SIZE : Z := 44.
Definition ACPI_MADT_ENABLED : Z := 1.

Record CpuInfo : Type := mk_CpuInfo { physical_id : Z; processor_id : Z; enabled : bool }.

Notation Out := (outcome Empty_set).

(** ** Reading the table *)

Definition read_u8 (table : list Z) (o : Z) : Out Z := unwrap (table !! Z.to_nat o).
(** [read_unaligned] of a packed structure: its bytes. *)
Definition read_bytes (table : list Z) (o n : Z) : Out (list Z) :=
  if o + n <=? Z.of_nat (length table) then Ok (take (Z.to_nat n) (drop (Z.to_nat o) table)) else Stuck.

(** [(flags & ACPI_MADT_ENABLED) != 0]. *)
Definition is_enabled (flags : Z) : bool := negb (Z.land flags ACPI_MADT_ENABLED =? 0).

(** ** The entries of an architecture

    What an iterator makes of an entry of some type and length, and of the
    structure read at its start. *)
Class MadtArch : Type := {
  entry_size (type : Z) : option Z;
  entry_info (type : Z) (bytes : list Z) : CpuInfo
}.

(** x86_64: [LocalApicEntry] and [LocalX2ApicEntry]. *)
Definition MADT_TYPE_LOCAL_APIC : Z := 0.
Definition MADT_TYPE_LOCAL_X2APIC : Z := 9.
Definition local_apic_info (bs : list Z) : CpuInfo :=
  mk_CpuInfo (word_at 3 1 bs) (word_at 2 1 bs) (is_enabled (word_at 4 4 bs)).
Definition local_x2apic_info (bs : list Z) : CpuInfo :=
  mk_CpuInfo (word_at 4 4 bs) (word_at 12 4 bs) (is_enabled (word_at 8 4 bs)).
Definition x86_64_impl : MadtArch := {|
  entry_size type :=
    if type =? MADT_TYPE_LOCAL_APIC then Some 8 else if type =? MADT_TYPE_LOCAL_X2APIC then Some 16 else None;
  entry_info type := if type =? MADT_TYPE_LOCAL_APIC then local_apic_info else local_x2apic_info
|}.

(** AArch64: [GiccHead]. *)
Definition MADT_TYPE_GICC : Z := 11.
Definition gicc_info (bs : list Z) : CpuInfo :=
  mk_CpuInfo (word_at 4 4 bs) (word_at 8 4 bs) (is_enabled (word_at 12 4 bs)).
Definition aarch64_impl : MadtArch := {|
  entry_size type := if type =? MADT_TYPE_GICC then Some 16 else None;
  entry_info _ := gicc_info
|}.

(** RISC-V: [RintcEntry]; the hart id is cut to 32 bits. *)
Definition MADT_TYPE_RINTC : Z := 24.
Definition rintc_info (bs : list Z) : CpuInfo :=
  mk_CpuInfo (word_at 8 8 bs mod 2 ^ 32) (word_at 16 4 bs) (is_enabled (word_at 4 4 bs)).
Definition riscv64_impl : MadtArch := {|
  entry_size type := if type =? MADT_TYPE_RINTC then Some 36 else None;
  entry_info _ := rintc_info
|}.

(** LoongArch: [CorePicEntry]. *)
Definition MADT_TYPE_CORE_PIC : Z := 17.
Definition core_pic_info (bs : list Z) : CpuInfo :=
  mk_CpuInfo (word_at 7 4 bs) (word_at 3 4 bs) (is_enabled (word_at 11 4 bs)).
Definition loongarch64_impl : MadtArch := {|
  entry_size type := if type =? MADT_TYPE_CORE_PIC then Some 15 else None;
  entry_info _ := core_pic_info
|}.

(** ** The iterators *)

Section Madt.
Context {A : MadtArch} (table : list Z).

Definition madt_len : Z := Z.of_nat (length table).

(** The body of the loop of [next]: the CPU of the entry, if it is one. *)
Definition entry_cpu (type len offset : Z) : Out (option CpuInfo) :=
  match entry_size type with
  | Some size =>
      if size <=? len then bs ← read_bytes table offset size; Ok (Some (entry_info type bs)) else Ok None
  | None => Ok None
  end.

(** [next]: the new offset, and the CPU. *)
Fixpoint madt_next (fuel : nat) (offset : Z) : Out (Z * option CpuInfo) :=
  match fuel with
  | O => Stuck
  | S fuel =>
      if offset + 2 <=? madt_len then
        type ← read_u8 table offset;
        len ← read_u8 table (offset + 1);
        if (len <? 2) || (madt_len <? offset + len) then Ok (offset, None)
        else
          cpu ← entry_cpu type len offset;
          match cpu with
          | Some info => Ok (offset + len, Some info)
          | None => madt_next fuel (offset + len)
          end
      else Ok (offset, None)
  end.

(** An entry has two bytes at least. *)
Definition next_fuel : nat := S (length table).

(** The items up to the first [None]. *)
Fixpoint rest_of (fuel : nat) (offset : Z) : Out (list CpuInfo) :=
  match fuel with
  | O => Stuck
  | S fuel =>
      r ← madt_next next_fuel offset;
      match r with
      | (_, None) => Ok []
      | (offset, Some info) => l ← rest_of fuel offset; Ok (info :: l)
      end
  end.

(** [non_empty_cpu_info_iter]: the first item is taken to see that there is
    one, and put in front of the others. *)
Definition cpu_info : Out (option (list CpuInfo)) :=
  r ← madt_next next_fuel MADT_HEADER_SIZE;
  match r with
  | (_, None) => Ok None
  | (offset, Some first) => l ← rest_of next_fuel offset; Ok (Some (first :: l))
  end.

(** [non_empty_enabled_cpu_id_iter]. *)
Definition enabled_ids (l : list CpuInfo) : option (list Z) :=
  match physical_id <$> filter (λ i, enabled i = true) l with [] => None | ids => Some ids end.
Definition cpu_id_list : Out (option (list Z)) :=
  l ← cpu_info;
  Ok (l ≫= enabled_ids).
End Madt.

(** ** No access outside of the table *)

Section Safety.
Context {A : MadtArch} (table : list Z) (Hbytes : Forall (λ b, 0 ≤ b < 256) table).

Lemma read_u8_run o : 0 ≤ o < madt_len table → ∃ b, read_u8 table o = Ok b ∧ 0 ≤ b < 256.
Proof.
  unfold madt_len. intros Ho. destruct (lookup_lt_is_Some_2 table (Z.to_nat o)) as [b Hb]; [lia|].
  exists b. unfold read_u8. rewrite Hb. split; [done|]. by eapply (Forall_lookup_1 _ _ _ _ Hbytes).
Qed.

Lemma entry_cpu_run type len offset : offset + len ≤ madt_len table → ∃ c, entry_cpu table type len offset = Ok c.
Proof.
  intros Hl. unfold entry_cpu. destruct (entry_size type) as [n|]; [|by eexists]. destruct (Z.leb_spec n len); [|by eexists].
  unfold read_bytes. fold (madt_len table). rewrite (proj2 (Z.leb_le _ _)) by lia. by eexists.
Qed.

Lemma madt_next_run fuel : ∀ offset, 0 ≤ offset → (Z.to_nat (madt_len table - offset) < fuel)%nat →
  ∃ o' c, madt_next table fuel offset = Ok (o', c) ∧ offset ≤ o' ∧ (is_Some c → offset < o' ≤ madt_len table).
Proof.
  induction fuel as [|fuel IH]; intros offset Ho Hf; [lia|]. simpl.
  destruct (Z.leb_spec (offset + 2) (madt_len table)) as [Hin|Hout]; [|exists offset, None; by split_and!; [|lia|intros [? ?]]].
  destruct (read_u8_run offset ltac:(lia)) as (t & Et & _). destruct (read_u8_run (offset + 1) ltac:(lia)) as (len & El & Hlen).
  rewrite Et, El. simpl. destruct (Z.ltb_spec len 2); [exists offset, None; by split_and!; [|lia|intros [? ?]]|].
  destruct (Z.ltb_spec (madt_len table) (offset + len)); [exists offset, None; by split_and!; [|lia|intros [? ?]]|]. simpl.
  destruct (entry_cpu_run t len offset ltac:(lia)) as [c Ec]. rewrite Ec. simpl. destruct c as [info|].
  - exists (offset + len), (Some info). split_and!; [done|lia|intros _; lia].
  - destruct (IH (offset + len) ltac:(lia) ltac:(lia)) as (o' & c & E & H1 & H2). exists o', c. split_and!; [done|lia|].
    intros Hc. specialize (H2 Hc). lia.
Qed.

Lemma rest_of_run fuel : ∀ offset, 0 ≤ offset → (Z.to_nat (madt_len table - offset) < fuel)%nat → ∃ l, rest_of table fuel offset = Ok l.
Proof.
  induction fuel as [|fuel IH]; intros offset Ho Hf; [lia|]. cbn [rest_of].
  destruct (madt_next_run (next_fuel table) offset Ho ltac:(unfold next_fuel, madt_len; lia)) as (o' & c & -> & Hle & Hc). simpl.
  destruct c as [info|]; [|by eexists]. destruct (Hc ltac:(by eexists)). destruct (IH o' ltac:(lia) ltac:(lia)) as [l ->]. by eexists.
Qed.
End Safety.

(** C40: Whatever the firmware left in the table, listing the CPUs ends and reads
    nothing outside of the table, on every architecture. *)
Theorem madt_in_bounds {A : MadtArch} (table : list Z) : Forall (λ b, 0 ≤ b < 256) table →
  ∃ infos, cpu_info table = Ok infos ∧ cpu_id_list table = Ok (infos ≫= enabled_ids).
Proof.
  intros Hb. unfold cpu_id_list.
  assert (∃ infos, cpu_info table = Ok infos) as [infos E]; [|exists infos; by rewrite E].
  unfold cpu_info. destruct (madt_next_run table Hb (next_fuel table) MADT_HEADER_SIZE) as (o' & c & -> & Hle & _);
    [done|unfold next_fuel, madt_len, MADT_HEADER_SIZE; lia|]. cbn [mbind outcome_bind].
  destruct c as [first|]; [|by eexists].
  unfold MADT_HEADER_SIZE in Hle. destruct (rest_of_run table Hb (next_fuel table) o' ltac:(lia)) as [l ->]; [unfold next_fuel, madt_len; lia|by eexists].
Qed.

(** ** The entries of a table *)

(** The entries the iterators know, with the fields of the structures, and any
    other. A GICC entry is longer than the part that is read. *)
Inductive MadtEntry : Type :=
| LocalApic (processor_id apic_id flags : Z)
| LocalX2Apic (x2apic_id flags processor_id : Z)
| Gicc (cpu_interface_number uid flags : Z) (tail : list Z)
| Rintc (version flags hart_id uid ext_intc_id imsic_addr imsic_size : Z)
| CorePic (version processor_id core_id flags : Z)
| OtherEntry (type : Z) (body : list Z).

Definition entry_type (e : MadtEntry) : Z :=
  match e with
  | LocalApic _ _ _ => MADT_TYPE_LOCAL_APIC
  | LocalX2Apic _ _ _ => MADT_TYPE_LOCAL_X2APIC
  | Gicc _ _ _ _ => MADT_TYPE_GICC
  | Rintc _ _ _ _ _ _ _ => MADT_TYPE_RINTC
  | CorePic _ _ _ _ => MADT_TYPE_CORE_PIC
  | OtherEntry t _ => t
  end.
(** What comes after type and length. *)
Definition entry_body (e : MadtEntry) : list Z :=
  match e with
  | LocalApic p a f => le_bytes 1 p ++ le_bytes 1 a ++ le_bytes 4 f
  | LocalX2Apic x f p => le_bytes 2 0 ++ le_bytes 4 x ++ le_bytes 4 f ++ le_bytes 4 p
  | Gicc n u f tail => le_bytes 2 0 ++ le_bytes 4 n ++ le_bytes 4 u ++ le_bytes 4 f ++ tail
  | Rintc v f h u x ma ms => le_bytes 1 v ++ le_bytes 1 0 ++ le_bytes 4 f ++ le_bytes 8 h ++ le_bytes 4 u ++ le_bytes 4 x ++ le_bytes 8 ma ++ le_bytes 4 ms
  | CorePic v p c f => le_bytes 1 v ++ le_bytes 4 p ++ le_bytes 4 c ++ le_bytes 4 f
  | OtherEntry _ body => body
  end.
Definition entry_len (e : MadtEntry) : Z := 2 + Z.of_nat (length (entry_body e)).
Definition entry_bytes (e : MadtEntry) : list Z := le_bytes 1 (entry_type e) ++ le_bytes 1 (entry_len e) ++ entry_body e.

Inductive Arch : Type := X86_64 | AArch64 | RiscV64 | LoongArch64.
Definition impl (a : Arch) : MadtArch :=
  match a with X86_64 => x86_64_impl | AArch64 => aarch64_impl | RiscV64 => riscv64_impl | LoongArch64 => loongarch64_impl end.

(** Fields that fit. Any other entry is of a type that is none of a CPU, or is
    too short for its type. *)
Definition entry_ok (e : MadtEntry) : Prop :=
  match e with
  | LocalApic p a f => u_range 8 p ∧ u_range 8 a ∧ u_range 32 f
  | LocalX2Apic x f p => u_range 32 x ∧ u_range 32 f ∧ u_range 32 p
  | Gicc n u f tail => u_range 32 n ∧ u_range 32 u ∧ u_range 32 f ∧ (length tail ≤ 200)%nat
  | Rintc v f h u x ma ms => u_range 32 f ∧ u_range 64 h ∧ u_range 32 u
  | CorePic v p c f => u_range 32 p ∧ u_range 32 c ∧ u_range 32 f
  | OtherEntry t body => u_range 8 t ∧ (length body ≤ 253)%nat ∧
      ∀ a size, entry_size (MadtArch := impl a) t = Some size → 2 + Z.of_nat (length body) < size
  end.

(** The CPU an entry stands for. *)
Definition cpu_of (a : Arch) (e : MadtEntry) : option CpuInfo :=
  match a, e with
  | X86_64, LocalApic p i f => Some (mk_CpuInfo i p (Z.odd f))
  | X86_64, LocalX2Apic i f p => Some (mk_CpuInfo i p (Z.odd f))
  | AArch64, Gicc i p f _ => Some (mk_CpuInfo i p (Z.odd f))
  | RiscV64, Rintc _ f h p _ _ _ => Some (mk_CpuInfo (h mod 2 ^ 32) p (Z.odd f))
  | LoongArch64, CorePic _ p i f => Some (mk_CpuInfo i p (Z.odd f))
  | _, _ => None
  end.

Lemma is_enabled_odd f : is_enabled f = Z.odd f.
Proof.
  unfold is_enabled, ACPI_MADT_ENABLED. change 1 with (Z.ones 1). rewrite Z.land_ones by lia. change (2 ^ 1) with 2.
  rewrite Zmod_odd. by destruct (Z.odd f).
Qed.

(** A word inside the first bytes of a structure. *)
Lemma word_at_take o n k bs : (o + n ≤ k)%nat → word_at o n (take k bs) = word_at o n bs.
Proof. intros Hk. unfold word_at. rewrite skipn_firstn_comm, take_take. f_equal. f_equal. lia. Qed.

Lemma entry_len_range e : entry_ok e → 2 ≤ entry_len e < 256.
Proof.
  unfold entry_len. destruct e; simpl; rewrite ?length_app, ?length_le_bytes; try lia; intros H; lia.
Qed.

Lemma length_entry_bytes e : Z.of_nat (length (entry_bytes e)) = entry_len e.
Proof. unfold entry_bytes, entry_len. rewrite !length_app, !length_le_bytes. lia. Qed.

(** What the code makes of the first bytes of an entry. *)
Lemma entry_decoded a e post : entry_ok e →
  (match entry_size (MadtArch := impl a) (entry_type e) with
   | Some size => if size <=? entry_len e then Some (entry_info (MadtArch := impl a) (entry_type e) (take (Z.to_nat size) (entry_bytes e ++ post))) else None
   | None => None
   end) = cpu_of a e.
Proof.
  intros Hok. remember (entry_bytes e ++ post) as bs eqn:Hbs. remember (entry_len e) as n eqn:Hn. unfold u_range in *.
  destruct e as [p i f|i f p|i p f tail|v f h p x ma ms|v p i f|t body]; simpl in Hok; unfold u_range in Hok.
  6:{ destruct Hok as (_ & _ & Ht). specialize (Ht a). cbn [entry_type]. destruct (entry_size t) as [size|]; [|by destruct a].
      specialize (Ht size eq_refl). rewrite (proj2 (Z.leb_gt _ _)) by (subst n; unfold entry_len; simpl; lia). by destruct a. }
  all: destruct a; try done; simpl.
  all: rewrite (proj2 (Z.leb_le _ _)) by (subst n; unfold entry_len; cbn [entry_body]; rewrite ?length_app, ?length_le_bytes; lia).
  all: unfold local_apic_info, local_x2apic_info, gicc_info, rintc_info, core_pic_info; rewrite is_enabled_odd, !word_at_take by lia;
    subst bs; unfold entry_bytes; cbn [entry_body entry_type]; rewrite <- !app_assoc.
  all: f_equal; f_equal; [..|f_equal]; try f_equal; words.
Qed.

Section Table.
Context (a : Arch) (header : list Z) (Hheader : Z.of_nat (length header) = MADT_HEADER_SIZE).

Definition table_of (es : list MadtEntry) : list Z := header ++ concat (entry_bytes <$> es).

Notation next := (@madt_next (impl a)).

Lemma concat_entries_app es1 es2 : concat (entry_bytes <$> (es1 ++ es2)) = concat (entry_bytes <$> es1) ++ concat (entry_bytes <$> es2).
Proof. by rewrite fmap_app, concat_app. Qed.

(** One turn of the loop at the entry [e]. *)
Lemma madt_next_entry pre e post fuel : entry_ok e → let table := pre ++ entry_bytes e ++ post in
  next table (S fuel) (Z.of_nat (length pre)) = match cpu_of a e with
    | Some info => Ok (Z.of_nat (length pre) + entry_len e, Some info)
    | None => next table fuel (Z.of_nat (length pre) + entry_len e)
    end.
Proof.
  intros Hok table. pose proof (entry_len_range e Hok) as Hlen. pose proof (length_entry_bytes e) as Hl.
  assert (madt_len table = Z.of_nat (length pre) + entry_len e + Z.of_nat (length post)) as Hml by (unfold madt_len, table; rewrite !length_app; lia).
  assert (0 ≤ entry_type e < 256) as Ht by (destruct e; simpl in Hok |- *; try done; apply Hok).
  cbn [madt_next]. rewrite (proj2 (Z.leb_le _ _)) by lia.
  assert (read_u8 table (Z.of_nat (length pre)) = Ok (entry_type e)) as ->.
  { unfold read_u8, table. rewrite Nat2Z.id, lookup_app_r, Nat.sub_diag by lia. simpl. by rewrite Z.mod_small. }
  assert (read_u8 table (Z.of_nat (length pre) + 1) = Ok (entry_len e)) as ->.
  { unfold read_u8, table. rewrite lookup_app_r by lia. replace (Z.to_nat _ - _)%nat with 1%nat by lia. simpl. by rewrite Z.mod_small by lia. }
  cbn [mbind outcome_bind]. rewrite (proj2 (Z.ltb_ge _ _)) by lia. rewrite (proj2 (Z.ltb_ge (madt_len table) _)) by lia. cbn [orb].
  rewrite <- (entry_decoded a e post Hok). unfold entry_cpu. destruct (entry_size (entry_type e)) as [n|]; [|done].
  destruct (Z.leb_spec n (entry_len e)); [|done].
  assert (read_bytes table (Z.of_nat (length pre)) n = Ok (take (Z.to_nat n) (entry_bytes e ++ post))) as ->; [|done].
  unfold read_bytes. fold (madt_len table). rewrite (proj2 (Z.leb_le _ _)) by lia. unfold table. by rewrite Nat2Z.id, drop_app_length.
Qed.

(** From an entry on, [next] finds the first CPU. *)
Lemma madt_next_entries es : ∀ pre fuel, Forall entry_ok es → (length es < fuel)%nat →
  let table := pre ++ concat (entry_bytes <$> es) in
  match omap (cpu_of a) es with
  | [] => ∃ o, next table fuel (Z.of_nat (length pre)) = Ok (o, None)
  | info :: infos => ∃ es1 es2, es = es1 ++ es2 ∧ es1 ≠ [] ∧ omap (cpu_of a) es2 = infos ∧
      next table fuel (Z.of_nat (length pre)) = Ok (Z.of_nat (length (pre ++ concat (entry_bytes <$> es1))), Some info)
  end.
Proof.
  induction es as [|e es IH]; intros pre fuel Hok Hf table; (destruct fuel as [|fuel]; [simpl in Hf; lia|]).
  { cbn [madt_next omap list_omap]. unfold madt_len, table. cbn [fmap list_fmap concat]. rewrite app_nil_r, (proj2 (Z.leb_gt _ _)) by lia. by eexists. }
  apply Forall_cons_1 in Hok as [He Hok]. subst table. cbn [fmap list_fmap concat].
  rewrite madt_next_entry by done. cbn [omap list_omap]. destruct (cpu_of a e) as [info|] eqn:Ec.
  - exists [e], es. split_and!; try done. cbn [fmap list_fmap concat]. rewrite app_nil_r, length_app, Nat2Z.inj_add, length_entry_bytes. done.
  - specialize (IH (pre ++ entry_bytes e) fuel Hok ltac:(simpl in Hf; lia)). cbv zeta in IH. rewrite <- app_assoc in IH.
    rewrite length_app, Nat2Z.inj_add, length_entry_bytes in IH.
    destruct (omap (cpu_of a) es) as [|info infos]; [exact IH|].
    destruct IH as (es1 & es2 & -> & Hne & Ho & E). exists (e :: es1), es2. split_and!; try done. rewrite E.
    cbn [fmap list_fmap concat]. by rewrite <- !app_assoc.
Qed.

Lemma length_entries es : Forall entry_ok es → (length es ≤ length (concat (entry_bytes <$> es)))%nat.
Proof.
  induction 1 as [|e es He _ IH]; [done|]. cbn [fmap list_fmap concat]. rewrite length_app. pose proof (entry_len_range e He).
  pose proof (length_entry_bytes e). simpl. lia.
Qed.

Lemma rest_of_entries fuel : ∀ es pre, Forall entry_ok es → (length es < fuel)%nat →
  @rest_of (impl a) (pre ++ concat (entry_bytes <$> es)) fuel (Z.of_nat (length pre)) = Ok (omap (cpu_of a) es).
Proof.
  induction fuel as [|fuel IH]; intros es pre Hok Hf; [lia|]. cbn [rest_of].
  pose proof (madt_next_entries es pre (next_fuel (pre ++ concat (entry_bytes <$> es))) Hok) as Hn. cbv zeta in Hn.
  specialize (Hn ltac:(unfold next_fuel; rewrite length_app; pose proof (length_entries es Hok); lia)).
  destruct (omap (cpu_of a) es) as [|info infos] eqn:Eo; [by destruct Hn as [o ->]|].
  destruct Hn as (es1 & es2 & -> & Hne & Ho & ->). cbn [mbind outcome_bind].
  apply Forall_app in Hok as [Hok1 Hok2]. rewrite concat_entries_app, app_assoc.
  rewrite IH; [cbn [mbind outcome_bind]; by rewrite Ho|done|]. rewrite length_app in Hf. destruct es1; [done|]. simpl in Hf. lia.
Qed.

End Table.

(** Two CPUs of x86_64, the second one disabled, an I/O APIC and a local APIC
    entry that is too short. *)
Definition some_entries : list MadtEntry :=
  [LocalApic 0 2 1; OtherEntry 1 [0; 0; 0; 0; 0xC0; 0xFE; 0; 0; 0; 0]; OtherEntry 0 [5; 5]; LocalX2Apic 0x123 0 7].


(** A table that ends in the middle of an entry. *)
Lemma madt_in_bounds_witness : ∃ infos, @cpu_info aarch64_impl (replicate 44 0 ++ [11; 80; 0]) = Ok infos.
Proof.
  destruct (@madt_in_bounds aarch64_impl (replicate 44 0 ++ [11; 80; 0])) as (infos & E & _); [|by exists infos].
  apply Forall_app. split; [by apply Forall_replicate|by repeat constructor].
Defined.
