(* ===== verification/Cmdline.v ===== *)
(** * The command line and the early console

    crates/someboot/src/cmdline.rs: the buffer the command line is kept in, its
    variables and the argument of earlycon; and the loops of
    crates/someboot/src/console/mod.rs that write text. A character is its code;
    the command line is ASCII, so that characters are bytes. *)

From Stdlib Require Import String Ascii.
From stdpp Require Import base list numbers strings.
From S2P Require Import Prelude.
Open Scope Z_scope.

Notation str := (list Z).

(** Text as bytes. *)
Fixpoint codes (s : string) : str :=
  match s with EmptyString => [] | String c s => Z.of_nat (nat_of_ascii c) :: codes s end.

(** ** [str]: what the code uses of it *)

Definition is_space (c : Z) : bool := ((9 <=? c) && (c <=? 13)) || (c =? 32).

(** [split_whitespace]: the words between spaces; [w] is the word so far. *)
Fixpoint split_words (w : str) (s : str) : list str :=
  match s with
  | [] => match w with [] => [] | _ => [w] end
  | c :: s =>
      if is_space c then match w with [] => split_words [] s | _ => w :: split_words [] s end
      else split_words (w ++ [c]) s
  end.
Definition split_whitespace (s : str) : list str := split_words [] s.

(** [split(c)]: the parts, of which there is at least one. *)
Fixpoint split_parts (c : Z) (w : str) (s : str) : list str :=
  match s with
  | [] => [w]
  | x :: s => if x =? c then w :: split_parts c [] s else split_parts c (w ++ [x]) s
  end.
Definition split (c : Z) (s : str) : list str := split_parts c [] s.

(** [find] of a character. *)
Fixpoint find (c : Z) (s : str) : option nat :=
  match s with [] => None | x :: s => if x =? c then Some O else S <$> find c s end.

Fixpoint trim_start (s : str) : str :=
  match s with c :: s' => if is_space c then trim_start s' else s | [] => [] end.
Definition trim (s : str) : str := rev (trim_start (rev (trim_start s))).

Definition starts_with (p s : str) : bool := bool_decide (take (length p) s = p).
Fixpoint contains (p s : str) : bool :=
  starts_with p s || match s with [] => false | _ :: s => contains p s end.
Definition strip_prefix (p s : str) : option str := if starts_with p s then Some (drop (length p) s) else None.

(** [usize::from_str_radix] and [parse]: an optional plus, then digits. *)
Definition digit (radix c : Z) : option Z :=
  let d := if (48 <=? c) && (c <=? 57) then c - 48
    else if (97 <=? c) && (c <=? 122) then c - 87
    else if (65 <=? c) && (c <=? 90) then c - 55 else radix in
  if d <? radix then Some d else None.
Fixpoint digits (radix acc : Z) (s : str) : option Z :=
  match s with
  | [] => Some acc
  | c :: s =>
      match digit radix c with
      | Some d => if acc * radix + d <? 2 ^ 64 then digits radix (acc * radix + d) s else None
      | None => None
      end
  end.
Definition from_str_radix (radix : Z) (s : str) : option Z :=
  let s := match s with c :: x :: s' => if c =? 43 then x :: s' else s | _ => s end in
  match s with [] => None | _ => digits radix 0 s end.

(** ** cmdline.rs *)

(** [CMDLINE], 4096 bytes. *)
Definition CMDLINE_LEN : Z := 0x1000.

(** [set_cmdline]: what does not fit is cut off; the bytes behind the zero stay. *)
Definition set_cmdline (cmdline : str) (cmd : str) : str :=
  let len := Z.to_nat (Z.min (Z.of_nat (length cmdline)) (CMDLINE_LEN - 1)) in
  take len cmdline ++ [0] ++ drop (S len) cmd.

(** [cmdline]; [builtin] is KERNEL_BUILTIN_CMDLINE of the build. *)
Definition cmdline (builtin : option str) (cmd : str) : outcome Empty_set (option str) :=
  first ← unwrap (head cmd);
  if first =? 0 then Ok builtin
  else Ok (Some (take (default (length cmd) (find 0 cmd)) cmd)).

(** [var]: the value of the first word [key=value]. *)
Fixpoint find_var (key : str) (words : list str) : option str :=
  match words with
  | [] => None
  | word :: words =>
      match find 61 word with
      | Some pos => if decide (take pos word = key) then Some (drop 1 (drop pos word)) else find_var key words
      | None => find_var key words
      end
  end.
Definition var (builtin : option str) (cmd : str) (key : str) : outcome Empty_set (option str) :=
  line ← cmdline builtin cmd;
  Ok (l ← line; find_var key (split_whitespace l)).

Record EarlyconConfig : Type := mk_EarlyconConfig {
  uart_type : str;
  io_type : str;
  base_addr : option Z;
  options : option str
}.

Definition parse_usize (s : str) : option Z :=
  let t := trim s in
  match strip_prefix (codes "0x") t with
  | Some hex => from_str_radix 16 hex
  | None => match strip_prefix (codes "0X") t with Some hex => from_str_radix 16 hex | None => from_str_radix 10 t end
  end.

Definition uart_synonyms : list str := codes <$> ["uart"; "uart8250"; "8250"; "ns16550"; "ns16550a"]%string.

(** The loop over the parts behind the name. *)
Fixpoint earlycon_parts (parts : list str) (c : EarlyconConfig) : EarlyconConfig :=
  match parts with
  | [] => c
  | part :: parts =>
      let part := trim part in
      if decide (part = []) then earlycon_parts parts c
      else if contains (codes "io") part then earlycon_parts parts (mk_EarlyconConfig (uart_type c) part (base_addr c) (options c))
      else if starts_with (codes "0x") part then earlycon_parts parts (mk_EarlyconConfig (uart_type c) (io_type c) (parse_usize part) (options c))
      else earlycon_parts parts (mk_EarlyconConfig (uart_type c) (io_type c) (base_addr c) (Some part))
  end.

(** [parse_earlycon_argument]; [io] is the default of the architecture. *)
Definition parse_earlycon_argument (io : str) (val : str) : option EarlyconConfig :=
  let s := trim val in
  if decide (s = []) then None
  else match split 44 s with
  | [] => None
  | first :: parts =>
      let first := trim first in
      let uart := if decide (first ∈ uart_synonyms) then codes "ns16550" else first in
      Some (earlycon_parts parts (mk_EarlyconConfig uart io None None))
  end.
Definition earlycon (io : str) (builtin : option str) (cmd : str) : outcome Empty_set (option EarlyconConfig) :=
  v ← var builtin cmd (codes "earlycon");
  Ok (val ← v; parse_earlycon_argument io val).

(** ** console/mod.rs *)

(** [Con]: what [write_bytes] of the sender takes, and how much. *)
Class Con (C : Type) : Type := { con_write_bytes : str → C → C * Z }.

Section Console.
Context {C : Type} `{Con C}.

(** [Con::write_str]: [None] if more fuel is needed. *)
Fixpoint con_write_str (fuel : nat) (buff : str) (c : C) : option (C * outcome Empty_set unit) :=
  match buff with
  | [] => Some (c, Ok tt)
  | _ =>
      match fuel with
      | O => None
      | S fuel =>
          let '(c', n) := con_write_bytes buff c in
          if Z.of_nat (length buff) <? n then Some (c', Stuck) else con_write_str fuel (drop (Z.to_nat n) buff) c'
      end
  end.
End Console.

(** [ConFmt::write_str]: the strings it passes on, one after the other. *)
Fixpoint fmt_strings (fuel : nat) (remaining : str) : list str :=
  match fuel with
  | O => []
  | S fuel =>
      match find 10 remaining with
      | Some pos => take pos remaining :: codes (String (ascii_of_nat 13) (String (ascii_of_nat 10) EmptyString)) :: fmt_strings fuel (drop (S pos) remaining)
      | None => match remaining with [] => [] | _ => [remaining] end
      end
  end.
Definition fmt_write_str (s : str) : list str := fmt_strings (S (length s)) s.

(** ** Variables *)

Definition word (w : str) : Prop := w ≠ [] ∧ Forall (λ c, is_space c = false ∧ c ≠ 0) w.

Fixpoint unwords (ws : list str) : str :=
  match ws with [] => [] | [w] => w | w :: ws => w ++ 32 :: unwords ws end.

Lemma split_words_word w : ∀ acc rest, Forall (λ c, is_space c = false ∧ c ≠ 0) w → split_words acc (w ++ rest) = split_words (acc ++ w) rest.
Proof.
  induction w as [|c w IH]; intros acc rest Hw; [by rewrite app_nil_r|]. apply Forall_cons_1 in Hw as [[Hc _] Hw].
  simpl. rewrite Hc, IH by done. by rewrite <- app_assoc.
Qed.

Lemma split_whitespace_unwords ws : Forall word ws → split_whitespace (unwords ws) = ws.
Proof.
  unfold split_whitespace. induction 1 as [|w ws [Hne Hw] _ IH]; [done|]. destruct ws as [|w' ws].
  - cbn [unwords]. rewrite <- (app_nil_r w) at 1. rewrite split_words_word by done. simpl. by destruct w.
  - change (unwords (w :: w' :: ws)) with (w ++ 32 :: unwords (w' :: ws)). rewrite split_words_word by done. cbn [split_words app]. change (is_space 32) with true. cbn iota.
    rewrite IH. by destruct w.
Qed.

Lemma find_app c s rest : c ∉ s → find c (s ++ c :: rest) = Some (length s).
Proof.
  induction s as [|x s IH]; intros Hc; simpl; [by rewrite Z.eqb_refl|]. apply not_elem_of_cons in Hc as [Hx Hc].
  rewrite (proj2 (Z.eqb_neq _ _)) by congruence. by rewrite IH.
Qed.

Lemma find_none c s : c ∉ s → find c s = None.
Proof.
  induction s as [|x s IH]; intros Hc; simpl; [done|]. apply not_elem_of_cons in Hc as [Hx Hc].
  rewrite (proj2 (Z.eqb_neq _ _)) by congruence. by rewrite IH.
Qed.

Lemma unwords_no_zero ws : Forall word ws → 0 ∉ unwords ws.
Proof.
  assert (∀ w, word w → 0 ∉ w) as H0 by (intros w [_ Hw] Hin; rewrite Forall_forall in Hw; by destruct (Hw 0 Hin)).
  induction 1 as [|w ws Hw _ IH]; [apply not_elem_of_nil|]. specialize (H0 w Hw). destruct ws as [|w' ws]; [done|].
  change (unwords (w :: w' :: ws)) with (w ++ 32 :: unwords (w' :: ws)). rewrite not_elem_of_app, not_elem_of_cons. by split_and!.
Qed.

(** What was set is what is read, if it fits and is not empty. *)
Lemma cmdline_set builtin cmd line : length cmd = Z.to_nat CMDLINE_LEN → line ≠ [] → 0 ∉ line → Z.of_nat (length line) < CMDLINE_LEN →
  cmdline builtin (set_cmdline line cmd) = Ok (Some line).
Proof.
  intros Hcmd Hne H0 Hlen. unfold set_cmdline. rewrite Z.min_l by lia. rewrite Nat2Z.id, firstn_all.
  unfold cmdline. destruct line as [|c line]; [done|]. cbn [app head unwrap mbind outcome_bind].
  pose proof H0 as [Hc _]%not_elem_of_cons. rewrite (proj2 (Z.eqb_neq _ _)) by congruence.
  pose proof (find_app 0 (c :: line) (drop (S (length (c :: line))) cmd) H0) as Hf. cbn [app] in Hf. rewrite Hf.
  cbn [from_option id default]. do 3 f_equal. apply (take_app_length (c :: line)).
Qed.

Definition var_word (p : str * str) : str := p.1 ++ 61 :: p.2.

Lemma find_var_words key pairs : Forall (λ p, 61 ∉ p.1) pairs →
  find_var key (var_word <$> pairs) = (snd <$> list_find (λ p, p.1 = key) pairs) ≫= λ p, Some p.2.
Proof.
  induction 1 as [|[k v] pairs Hk _ IH]; [done|]. cbn [fmap list_fmap find_var]. change (var_word (k, v)) with (k ++ 61 :: v).
  rewrite find_app by done. rewrite take_app_length, drop_app_length. cbn [list_find].
  destruct (decide (k = key)) as [->|Hne]; [by rewrite decide_True by done|]. rewrite (decide_False (P := (k, v).1 = key)) by done.
  cbn [fmap list_fmap] in *. rewrite IH. by destruct (list_find _ pairs) as [[]|].
Qed.

(** A command line made of assignments, which fits the buffer, gives each
    variable the value of its first assignment, and the others none. *)
Theorem var_roundtrip builtin cmd pairs key : length cmd = Z.to_nat CMDLINE_LEN → pairs ≠ [] →
  Forall (λ p, 61 ∉ p.1 ∧ word (var_word p)) pairs → Z.of_nat (length (unwords (var_word <$> pairs))) < CMDLINE_LEN →
  var builtin (set_cmdline (unwords (var_word <$> pairs)) cmd) key =
    Ok ((snd <$> list_find (λ p, p.1 = key) pairs) ≫= λ p, Some p.2).
Proof.
  intros Hcmd Hne Hp Hlen. assert (Forall word (var_word <$> pairs)) as Hw by (apply Forall_fmap; eapply Forall_impl; [exact Hp|]; by intros p [_ ?]).
  unfold var. rewrite cmdline_set; [|done| |by apply unwords_no_zero|done].
  - cbn [mbind outcome_bind option_bind]. rewrite split_whitespace_unwords by done. rewrite find_var_words; [done|].
    eapply Forall_impl; [exact Hp|]. by intros p [? _].
  - destruct pairs as [|p pairs]; [done|]. destruct pairs; cbn [fmap list_fmap unwords]; unfold var_word; by destruct p.1.
Qed.

(** Two variables, one of them twice. *)
Lemma var_roundtrip_witness : var None (set_cmdline (codes "root=/dev/vda a=1 root=b"%string) (replicate 4096 7)) (codes "root"%string) = Ok (Some (codes "/dev/vda"%string)).
Proof.
  rewrite (var_roundtrip None (replicate 4096 7)
    [(codes "root"%string, codes "/dev/vda"%string); (codes "a"%string, codes "1"%string); (codes "root"%string, codes "b"%string)]); [done|done|done| |done].
  repeat constructor; simpl; try done; try (intros H; by repeat (apply elem_of_cons in H as [H|H]; [discriminate|]); apply not_elem_of_nil in H).
Defined.

(** A line that does not fit loses its end. *)
Lemma cmdline_cut builtin cmd line : length cmd = Z.to_nat CMDLINE_LEN → 0 ∉ line → CMDLINE_LEN ≤ Z.of_nat (length line) →
  cmdline builtin (set_cmdline line cmd) = Ok (Some (take 4095 line)).
Proof.
  intros Hcmd H0 Hlen. unfold set_cmdline. rewrite Z.min_r by (unfold CMDLINE_LEN in *; lia).
  change (Z.to_nat (CMDLINE_LEN - 1)) with 4095%nat. unfold CMDLINE_LEN in Hlen.
  assert (0 ∉ take 4095 line) as Ht by (intros H; by apply elem_of_take in H as (i & H%list_elem_of_lookup_2 & _)).
  assert (length (take 4095 line) = 4095%nat) as Hl by (rewrite length_take; lia).
  destruct (take 4095 line) as [|c l] eqn:El; [done|]. unfold cmdline. cbn [app head unwrap mbind outcome_bind].
  pose proof Ht as [Hc _]%not_elem_of_cons. rewrite (proj2 (Z.eqb_neq _ _)) by congruence.
  pose proof (find_app 0 (c :: l) (drop 4096 cmd) Ht) as Hf. cbn [app] in Hf. rewrite Hf.
  cbn [from_option id default]. do 2 f_equal. apply (take_app_length (c :: l)).
Qed.

(** ** Earlycon *)

Definition no_space (s : str) : Prop := Forall (λ c, is_space c = false) s.

Lemma trim_start_no_space s : no_space s → trim_start s = s.
Proof. destruct 1 as [|c s Hc _]; simpl; [done|]. by rewrite Hc. Qed.

Lemma trim_no_space s : no_space s → trim s = s.
Proof.
  intros Hs. unfold trim. rewrite (trim_start_no_space s Hs), trim_start_no_space; [apply rev_involutive|].
  unfold no_space in *. rewrite Forall_forall in *. intros c Hc. apply Hs. by apply list_elem_of_In, in_rev, list_elem_of_In.
Qed.

(** [contains] of a pattern whose first character is not there. *)
Lemma contains_none c p s : c ∉ s → contains (c :: p) s = false.
Proof.
  induction s as [|x s IH]; intros Hc; [done|]. apply not_elem_of_cons in Hc as [Hx Hc]. cbn [contains]. rewrite IH by done.
  unfold starts_with. rewrite bool_decide_eq_false_2; [done|]. cbn [length take]. congruence.
Qed.

Lemma split_parts_part c w : ∀ acc rest, c ∉ w → split_parts c acc (w ++ rest) = split_parts c (acc ++ w) rest.
Proof.
  induction w as [|x w IH]; intros acc rest Hc; [by rewrite app_nil_r|]. apply not_elem_of_cons in Hc as [Hx Hc].
  simpl. rewrite (proj2 (Z.eqb_neq _ _)) by congruence. rewrite IH by done. by rewrite <- app_assoc.
Qed.

Fixpoint commas (ps : list str) : str := match ps with [] => [] | [p] => p | p :: ps => p ++ 44 :: commas ps end.

Lemma split_commas ps : ps ≠ [] → Forall (λ p, 44 ∉ p) ps → split 44 (commas ps) = ps.
Proof.
  unfold split. intros Hne. induction 1 as [|p ps Hp _ IH]; [done|]. destruct ps as [|p' ps].
  - cbn [commas]. rewrite <- (app_nil_r p) at 1. by rewrite split_parts_part.
  - change (commas (p :: p' :: ps)) with (p ++ 44 :: commas (p' :: ps)). rewrite split_parts_part by done.
    cbn [split_parts app]. rewrite Z.eqb_refl, IH by done. done.
Qed.

(** Hexadecimal digits. *)
Definition hex_char (d : Z) : Z := if d <? 10 then 48 + d else 87 + d.
Definition hex_value (ds : list Z) : Z := foldl (λ acc d, acc * 16 + d) 0 ds.

Lemma digit_hex d : 0 ≤ d < 16 → digit 16 (hex_char d) = Some d.
Proof.
  intros Hd. assert (Forall (λ d, digit 16 (hex_char d) = Some d) (seqZ 0 16)) as H by (by repeat constructor).
  rewrite Forall_forall in H. apply H, elem_of_seqZ. lia.
Qed.

Lemma foldl_hex_mono ds : ∀ acc, 0 ≤ acc → Forall (λ d, 0 ≤ d < 16) ds → acc ≤ foldl (λ acc d, acc * 16 + d) acc ds.
Proof. induction ds as [|d ds IH]; intros acc Ha Hd; [done|]. apply Forall_cons_1 in Hd as [Hd Hds]. simpl. specialize (IH (acc * 16 + d) ltac:(lia) Hds). lia. Qed.

Lemma digits_hex ds : ∀ acc, 0 ≤ acc → Forall (λ d, 0 ≤ d < 16) ds → foldl (λ acc d, acc * 16 + d) acc ds < 2 ^ 64 →
  digits 16 acc (hex_char <$> ds) = Some (foldl (λ acc d, acc * 16 + d) acc ds).
Proof.
  induction ds as [|d ds IH]; intros acc Ha Hd Hv; [done|]. apply Forall_cons_1 in Hd as [Hd Hds]. cbn [fmap list_fmap digits].
  rewrite digit_hex by done. simpl in Hv. pose proof (foldl_hex_mono ds (acc * 16 + d) ltac:(lia) Hds).
  rewrite (proj2 (Z.ltb_lt _ _)) by lia. by apply IH; [lia|..].
Qed.

Definition hex_str (ds : list Z) : str := codes "0x" ++ (hex_char <$> ds).

Lemma hex_char_range d : 0 ≤ d < 16 → 48 ≤ hex_char d ≤ 57 ∨ 97 ≤ hex_char d ≤ 102.
Proof. intros Hd. unfold hex_char. destruct (Z.ltb_spec d 10); lia. Qed.

Lemma hex_str_chars ds : Forall (λ d, 0 ≤ d < 16) ds → Forall (λ c, 48 ≤ c ≤ 57 ∨ 97 ≤ c ≤ 102 ∨ c = 120) (hex_str ds).
Proof.
  intros Hd. unfold hex_str. change (codes "0x") with [48; 120]. apply Forall_app. split; [constructor; [lia|constructor; [lia|constructor]]|]. apply Forall_fmap.
  eapply Forall_impl; [exact Hd|]. intros d H. simpl. destruct (hex_char_range d H); tauto.
Qed.

Lemma hex_str_no_space ds : Forall (λ d, 0 ≤ d < 16) ds → no_space (hex_str ds).
Proof.
  intros Hd. eapply Forall_impl; [by apply hex_str_chars|]. intros c Hc. cbv beta in Hc |- *. unfold is_space.
  rewrite (proj2 (Z.leb_gt c 13)), andb_false_r by lia. simpl. apply Z.eqb_neq. lia.
Qed.

Lemma parse_usize_hex ds : ds ≠ [] → Forall (λ d, 0 ≤ d < 16) ds → hex_value ds < 2 ^ 64 → parse_usize (hex_str ds) = Some (hex_value ds).
Proof.
  intros Hne Hd Hv. unfold parse_usize. rewrite trim_no_space by by apply hex_str_no_space.
  unfold hex_str, strip_prefix, starts_with. rewrite take_app_length, bool_decide_eq_true_2, drop_app_length by done.
  unfold from_str_radix. destruct ds as [|d ds]; [done|].
  assert (hex_char d ≠ 43) as Hp by (apply Forall_cons_1 in Hd as [Hd _]; destruct (hex_char_range d Hd); lia).
  assert (match hex_char <$> d :: ds with c :: x :: s' => if c =? 43 then x :: s' else hex_char <$> d :: ds | _ => hex_char <$> d :: ds end = hex_char <$> d :: ds) as ->.
  { destruct ds as [|d' ds]; [done|]. cbn [fmap list_fmap]. by rewrite (proj2 (Z.eqb_neq (hex_char d) 43)) by done. }
  apply (digits_hex (d :: ds) 0); [done|done|exact Hv].
Qed.

(** A part of the argument: not empty, without spaces and commas. *)
Definition part (s : str) : Prop := s ≠ [] ∧ no_space s ∧ 44 ∉ s.

Lemma commas_no_space ps : Forall part ps → no_space (commas ps).
Proof.
  unfold no_space. induction 1 as [|p ps (_ & Hp & _) _ IH]; [constructor|]. destruct ps as [|p' ps]; [done|].
  change (commas (p :: p' :: ps)) with (p ++ 44 :: commas (p' :: ps)). apply Forall_app. split; [done|]. by constructor.
Qed.

Lemma hex_str_not c ds : c < 48 ∨ (57 < c < 97) ∨ 102 < c ∧ c ≠ 120 → Forall (λ d, 0 ≤ d < 16) ds → c ∉ hex_str ds.
Proof. intros Hc Hd Hin. pose proof (hex_str_chars ds Hd) as H. rewrite Forall_forall in H. specialize (H c Hin). simpl in H. lia. Qed.

(** The argument driver,io,0xADDRESS,options of earlycon is read as the four
    it was made of, with ns16550 for the other names of that driver; the address
    may be any word of 64 bits. *)
Theorem earlycon_roundtrip dflt uart io ds opts : part uart → part io → contains (codes "io") io = true →
  ds ≠ [] → Forall (λ d, 0 ≤ d < 16) ds → hex_value ds < 2 ^ 64 →
  part opts → contains (codes "io") opts = false → starts_with (codes "0x") opts = false →
  parse_earlycon_argument dflt (commas [uart; io; hex_str ds; opts]) =
    Some (mk_EarlyconConfig (if decide (uart ∈ uart_synonyms) then codes "ns16550" else uart) io (Some (hex_value ds)) (Some opts)).
Proof.
  intros Hu Hi Hio Hne Hd Hv Ho Hoi Hox.
  assert (part (hex_str ds)) as Hh.
  { split_and!; [done|by apply hex_str_no_space|apply hex_str_not; [lia|done]]. }
  assert (Forall part [uart; io; hex_str ds; opts]) as Hall by (do 4 (constructor; [done|]); constructor).
  unfold parse_earlycon_argument. rewrite trim_no_space by by apply commas_no_space.
  rewrite decide_False by (destruct Hu as [Hu _]; cbn [commas]; by destruct uart).
  rewrite split_commas by (done || (eapply Forall_impl; [exact Hall|]; by intros p (_ & _ & ?))).
  destruct Hu as (_ & Hu & _), Hi as (Hi0 & Hi & _), Ho as (Ho0 & Ho & _), Hh as (Hh0 & Hh & _).
  rewrite (trim_no_space uart) by done. cbn [earlycon_parts]. rewrite !trim_no_space by done.
  rewrite (decide_False (P := io = [])) by done. rewrite Hio. cbn iota. rewrite (decide_False (P := hex_str ds = [])) by done.
  assert (contains (codes "io") (hex_str ds) = false) as ->
    by exact (contains_none 105 [111] (hex_str ds) (hex_str_not 105 ds ltac:(lia) Hd)).
  assert (starts_with (codes "0x") (hex_str ds) = true) as ->.
  { unfold starts_with, hex_str. by rewrite take_app_length, bool_decide_eq_true_2. }
  cbn iota. rewrite (decide_False (P := opts = [])) by done. rewrite Hoi, Hox. cbn [uart_type io_type base_addr options].
  by rewrite parse_usize_hex.
Qed.

Lemma earlycon_roundtrip_witness :
  parse_earlycon_argument (codes "mmio32"%string) (codes "uart8250,mmio,0xfe660000,115200n8"%string) =
    Some (mk_EarlyconConfig (codes "ns16550"%string) (codes "mmio"%string) (Some 0xfe660000) (Some (codes "115200n8"%string))).
Proof.
  assert (∀ c s, (negb (existsb (Z.eqb c) s)) = true → c ∉ s) as Hnot.
  { intros c s H Hin. apply negb_true_iff, not_true_iff_false in H. apply H, existsb_exists. exists c. split; [by apply list_elem_of_In|apply Z.eqb_refl]. }
  apply (earlycon_roundtrip (codes "mmio32"%string) (codes "uart8250"%string) (codes "mmio"%string) [15; 14; 6; 6; 0; 0; 0; 0] (codes "115200n8"%string));
    try done; try (split_and!; [done|by repeat constructor|by apply Hnot]). by repeat constructor.
Defined.

(** ** Writing text *)

(** [ConFmt] writes a return before each newline. *)
Fixpoint with_returns (s : str) : str :=
  match s with [] => [] | c :: s => if c =? 10 then 13 :: 10 :: with_returns s else c :: with_returns s end.

Lemma fmt_strings_eq fuel : ∀ s, (length s < fuel)%nat → concat (fmt_strings fuel s) = with_returns s.
Proof.
  assert (∀ p r, 10 ∉ p → with_returns (p ++ r) = p ++ with_returns r) as Hp.
  { induction p as [|c p IH]; intros r H; [done|]. apply not_elem_of_cons in H as [Hc H]. simpl.
    rewrite (proj2 (Z.eqb_neq _ _)) by congruence. by rewrite IH. }
  assert (∀ s, match find 10 s with Some n => ∃ p r, s = p ++ 10 :: r ∧ length p = n ∧ 10 ∉ p | None => 10 ∉ s end) as Hfind.
  { induction s as [|x s IH]; simpl; [apply not_elem_of_nil|]. destruct (Z.eqb_spec x 10) as [->|Hx].
    - exists [], s. split_and!; try done. apply not_elem_of_nil.
    - destruct (find 10 s) as [n|]; simpl; [|by apply not_elem_of_cons; split; [congruence|]].
      destruct IH as (p & r & -> & <- & H). exists (x :: p), r. split_and!; try done. by apply not_elem_of_cons; split; [congruence|]. }
  induction fuel as [|fuel IH]; intros s Hs; [lia|]. cbn [fmt_strings]. specialize (Hfind s). destruct (find 10 s) as [n|].
  - destruct Hfind as (p & r & -> & <- & H). rewrite take_app_length. rewrite length_app in Hs. simpl in Hs.
    replace (drop (S (length p)) (p ++ 10 :: r)) with r.
    2:{ change (S (length p)) with (1 + length p)%nat. rewrite Nat.add_comm, <- drop_drop, drop_app_length. done. }
    cbn [concat]. rewrite IH, Hp by (done || lia). done.
  - assert (with_returns s = s) as -> by (rewrite <- (app_nil_r s) at 1; rewrite Hp by done; apply app_nil_r). destruct s; [done|]. cbn [concat]. by rewrite app_nil_r.
Qed.

(** A sender that takes some of what it is given, and all it says it took. *)
Class ConLaws (C : Type) `{Con C} (sent : C → str) : Prop := {
  con_takes buff c : buff ≠ [] → let r := con_write_bytes buff c in
    0 < r.2 ≤ Z.of_nat (length buff) ∧ sent r.1 = sent c ++ take (Z.to_nat r.2) buff
}.

Lemma con_write_str_run {C} `{ConLaws C sent} fuel : ∀ buff c, (length buff ≤ fuel)%nat →
  ∃ c', con_write_str fuel buff c = Some (c', Ok tt) ∧ sent c' = sent c ++ buff.
Proof.
  induction fuel as [|fuel IH]; intros buff c Hf.
  { destruct buff; [|simpl in Hf; lia]. exists c. by rewrite app_nil_r. }
  destruct buff as [|x buff]; [exists c; by rewrite app_nil_r|]. cbn [con_write_str].
  pose proof (con_takes (x :: buff) c ltac:(done)) as Ht. cbv zeta in Ht. destruct (con_write_bytes (x :: buff) c) as [c1 n]. simpl in Ht.
  destruct Ht as [Hn Hs]. simpl length in *. rewrite (proj2 (Z.ltb_ge _ _)) by lia.
  destruct (IH (drop (Z.to_nat n) (x :: buff)) c1) as (c' & E & Hs'); [rewrite length_drop; simpl; lia|]. exists c'. split; [done|].
  by rewrite Hs', Hs, <- app_assoc, take_drop.
Qed.

(** [_print]: the strings of [ConFmt] one after the other. *)
Fixpoint con_write_all {C} `{Con C} (l : list str) (c : C) : option (C * outcome Empty_set unit) :=
  match l with
  | [] => Some (c, Ok tt)
  | s :: l =>
      match con_write_str (length s) s c with
      | Some (c', Ok _) => con_write_all l c'
      | r => r
      end
  end.

(** Text that is printed reaches the sender in order and completely, with a
    return in front of every newline, however little the sender takes at a time. *)
Theorem print_expands_newlines {C} `{ConLaws C sent} (s : str) (c : C) :
  ∃ c', con_write_all (fmt_write_str s) c = Some (c', Ok tt) ∧ sent c' = sent c ++ with_returns s.
Proof.
  unfold fmt_write_str. rewrite <- (fmt_strings_eq (S (length s)) s) by lia. generalize (fmt_strings (S (length s)) s) as l. intros l. revert c.
  induction l as [|w l IH]; intros c; [exists c; by rewrite app_nil_r|]. cbn [con_write_all concat].
  destruct (con_write_str_run (length w) w c) as (c1 & -> & Hs); [lia|]. destruct (IH c1) as (c' & E & Hs'). exists c'. split; [done|].
  by rewrite Hs', Hs, app_assoc.
Qed.

(** A sender with room for three bytes at a time. *)
#[local] Instance three_con : Con str := {| con_write_bytes buff c := (c ++ take 3 buff, Z.min 3 (Z.of_nat (length buff))) |}.
#[local] Instance three_laws : ConLaws str (λ c, c).
Proof.
  split. intros buff c Hne. simpl. assert (0 < length buff)%nat by (destruct buff; [done|simpl; lia]). split; [lia|].
  destruct (Z.min_spec 3 (Z.of_nat (length buff))) as [[H1 ->]|[H1 ->]]; [done|]. by rewrite Nat2Z.id, firstn_all, take_ge by lia.
Qed.

Lemma print_expands_newlines_witness : ∃ c', con_write_all (fmt_write_str (codes "hello"%string ++ [10])) [] = Some (c', Ok tt) ∧ c' = codes "hello"%string ++ [13; 10].
Proof. apply (print_expands_newlines (sent := λ c, c) (codes "hello"%string ++ [10]) []). Defined.
