(* ===== verification/Timer.v ===== *)
(** * Software timers

    crates/sparreal-kernel/src/os/time: conversion between ticks and durations
    (mod.rs) and the one-shot timers on a single hardware timer (timer.rs). The
    two [BTreeMap]s are a list sorted by key and a finite map. The clock
    [ticks()] and the frequency are arguments of the operations that read them;
    the hardware timer is the interval that was programmed, when, and whether
    its interrupt is enabled. *)

From stdpp Require Import base list numbers gmap sorting.
From S2P Require Import Prelude.
Open Scope Z_scope.

(** ** mod.rs *)

(** [Duration]: seconds and nanoseconds below [10^9]. *)
Record Duration : Type := mk_Duration { secs : Z; nanos : Z }.

Definition NANOS : Z := 1000000000.

Definition ticks_to_duration {E} (freq ticks : Z) : outcome E Duration :=
  if freq =? 0 then Stuck
  else Ok (mk_Duration (ticks / freq) ((ticks mod freq * NANOS / freq) mod 2 ^ 32)).

Definition duration_to_ticks (freq : Z) (dur : Duration) : Z :=
  let secs_ticks := saturating_mul 64 (secs dur) freq in
  let nanos_ticks := nanos dur * freq / NANOS in
  saturating_add 64 secs_ticks (nanos_ticks mod 2 ^ 64).

(** Ticks to duration and back loses at most one tick and never adds one,
    for clocks up to 1 GHz: a delay converted with it is never too long. *)
Theorem ticks_duration_roundtrip {E} freq t :
  0 < freq ≤ NANOS → 0 ≤ t < 2 ^ 64 →
  ∃ d, ticks_to_duration (E:=E) freq t = Ok d ∧ 0 ≤ nanos d < NANOS ∧
    t - 1 ≤ duration_to_ticks freq d ≤ t.
Proof.
  intros Hf Ht. unfold ticks_to_duration. rewrite (proj2 (Z.eqb_neq _ _)) by lia.
  eexists. split; [done|]. unfold duration_to_ticks. cbn [secs nanos]. unfold NANOS in *.
  set (q := t / freq). set (r := t mod freq).
  assert (Hr : 0 ≤ r < freq) by (apply Z.mod_pos_bound; lia).
  assert (Ht' : t = freq * q + r) by (apply Z.div_mod; lia).
  set (n := r * 1000000000 / freq).
  assert (Hn : 0 ≤ n) by (apply Z.div_pos; lia).
  assert (Hn1 : freq * n ≤ r * 1000000000) by (apply Z.mul_div_le; lia).
  assert (Hn2 : r * 1000000000 < freq * n + freq).
  { pose proof (Z.mul_succ_div_gt (r * 1000000000) freq ltac:(lia)). fold n in H. lia. }
  assert (n < 1000000000) by nia.
  rewrite (Z.mod_small n) by lia. split; [lia|].
  set (b := n * freq / 1000000000).
  assert (Hb1 : 1000000000 * b ≤ n * freq) by (apply Z.mul_div_le; lia).
  assert (Hb2 : n * freq < 1000000000 * b + 1000000000).
  { pose proof (Z.mul_succ_div_gt (n * freq) 1000000000 ltac:(lia)). fold b in H0. lia. }
  assert (0 ≤ b ≤ r) by (split; [apply Z.div_pos; lia|nia]). assert (r - 1 ≤ b) by nia.
  assert (0 ≤ q) by (apply Z.div_pos; lia).
  rewrite (Z.mod_small b) by lia. unfold saturating_mul, saturating_add. lia.
Qed.

Lemma ticks_duration_roundtrip_witness :
  ∃ d, ticks_to_duration (E:=unit) 62500000 1234567891 = Ok d ∧ 0 ≤ nanos d < NANOS ∧
    1234567891 - 1 ≤ duration_to_ticks 62500000 d ≤ 1234567891.
Proof. apply (ticks_duration_roundtrip (E:=unit) 62500000 1234567891); unfold NANOS; lia. Defined.

(** ** timer.rs *)

Inductive TimerError : Type := NotReady | Overflow.

Record TimerKey : Type := mk_TimerKey { deadline : Z; timer_id : Z }.

#[export] Instance TimerKey_eq_dec : EqDecision TimerKey.
Proof. solve_decision. Defined.

(** The derived order: deadline first, then id. *)
Definition key_ltb (a b : TimerKey) : bool :=
  (deadline a <? deadline b) || ((deadline a =? deadline b) && (timer_id a <? timer_id b)).
Definition key_lt (a b : TimerKey) : Prop := key_ltb a b = true.

Record Hw : Type := mk_Hw { hw_at : Z; hw_interval : Z; hw_irq : bool }.

Record TimeListEntry : Type := mk_TimeListEntry {
  tl_handle : Z;
  tl_deadline : Z;
  tl_remaining : Z
}.

Section Timers.
Context {CB : Type}.

Record TimerManager : Type := mk_TimerManager {
  next_id : Z;
  timers : list (TimerKey * CB);
  index : gmap Z Z;
  hw : Hw
}.

Notation TM := (M TimerManager TimerError).

(** [BTreeMap::insert] and [remove] on the sorted list. *)
Fixpoint btree_insert (k : TimerKey) (v : CB) (l : list (TimerKey * CB)) : list (TimerKey * CB) :=
  match l with
  | [] => [(k, v)]
  | (k', v') :: l' =>
      if key_ltb k k' then (k, v) :: l
      else if bool_decide (k = k') then (k, v) :: l'
      else (k', v') :: btree_insert k v l'
  end.

Fixpoint btree_remove (k : TimerKey) (l : list (TimerKey * CB)) :
    list (TimerKey * CB) * option CB :=
  match l with
  | [] => ([], None)
  | (k', v') :: l' =>
      if bool_decide (k = k') then (l', Some v')
      else let '(r, o) := btree_remove k l' in ((k', v') :: r, o)
  end.

(** [keys().next()]. *)
Definition first_key (l : list (TimerKey * CB)) : option TimerKey := fst <$> head l.

(** [TimerManager::new]. *)
Definition manager_new (h : Hw) : TimerManager := mk_TimerManager 1 [] ∅ h.

(** [next_timer_id]: the loop skips ids in use. *)
Fixpoint next_timer_id_loop (fuel : nat) (nid : Z) (idx : gmap Z Z) : option (Z * Z) :=
  match fuel with
  | O => None
  | S fuel' =>
      let nid' := wrapping_add 64 nid 1 in
      match idx !! nid with
      | None => Some (nid, nid')
      | Some _ => next_timer_id_loop fuel' nid' idx
      end
  end.

Definition next_timer_id : TM Z := λ m,
  match next_timer_id_loop (S (size (index m))) (next_id m) (index m) with
  | Some (id, nid) => (mk_TimerManager nid (timers m) (index m) (hw m), Ok id)
  | None => (m, Stuck)
  end.

(** [arm_hardware_timer]. *)
Definition min_delay (freq : Z) : Z := Z.max (freq / 10000) 1.

Definition arm_hardware_timer (now freq : Z) : TM unit := modify (λ m,
  mk_TimerManager (next_id m) (timers m) (index m)
    match first_key (timers m) with
    | Some key => mk_Hw now (Z.max (saturating_sub (deadline key) now) (min_delay freq)) true
    | None => mk_Hw now usize_max false
    end).

(** [schedule_at_internal]. *)
Definition schedule_at (now freq dl : Z) (cb : CB) : TM Z :=
  id ← next_timer_id;
  m ← get;
  let key := mk_TimerKey dl id in
  let is_earliest := match first_key (timers m) with
                     | None => true | Some k => dl <? deadline k end in
  _ ← modify (λ m, mk_TimerManager (next_id m) (btree_insert key cb (timers m))
                     (<[id := dl]> (index m)) (hw m));
  _ ← (if is_earliest then arm_hardware_timer now freq else mret tt);
  mret id.

(** [schedule_after]. *)
Definition schedule_after (now freq delay : Z) (cb : CB) : TM Z :=
  dl ← lift (ok_or (checked_add 64 now delay) Overflow);
  schedule_at now freq dl cb.

(** [cancel]. *)
Definition cancel (now freq handle : Z) : TM bool :=
  m ← get;
  match index m !! handle with
  | Some dl =>
      let key := mk_TimerKey dl handle in
      let was_first := match first_key (timers m) with
                       | Some k => bool_decide (k = key) | None => false end in
      _ ← modify (λ m, mk_TimerManager (next_id m) (btree_remove key (timers m)).1
                         (delete handle (index m)) (hw m));
      _ ← (if was_first then arm_hardware_timer now freq else mret tt);
      mret true
  | None => mret false
  end.

(** [handle_irq]: the loop that collects the expired timers. *)
Fixpoint expire_loop (fuel : nat) (now : Z) (acc : list CB) : TM (list CB) := λ m,
  match first_key (timers m) with
  | None => (m, Ok acc)
  | Some key =>
      if now <? deadline key then (m, Ok acc)
      else match fuel with
      | O => (m, Stuck)
      | S fuel' =>
          let '(rest, o) := btree_remove key (timers m) in
          expire_loop fuel' now (match o with Some cb => acc ++ [cb] | None => acc end)
            (mk_TimerManager (next_id m) rest (delete (timer_id key) (index m)) (hw m))
      end
  end.

Definition handle_irq (now arm_now freq : Z) : TM (list CB) :=
  m ← get;
  expired ← expire_loop (length (timers m)) now [];
  _ ← arm_hardware_timer arm_now freq;
  mret expired.

(** [snapshot]. *)
Definition snapshot (now : Z) (m : TimerManager) : list TimeListEntry :=
  (λ '(k, _), mk_TimeListEntry (timer_id k) (deadline k) (saturating_sub (deadline k) now)) <$> timers m.

(** *** The statics and the public functions *)

Record TimerSys : Type := mk_TimerSys { manager : option TimerManager; ready : bool }.

Definition timer_init (h : Hw) (s : TimerSys) : TimerSys :=
  match manager s with
  | Some _ => s
  | None => mk_TimerSys (Some (manager_new h)) true
  end.

(** [with_manager_mut]. *)
Definition with_manager_mut {A} (f : TM A) : M TimerSys TimerError (option A) := λ s,
  match manager s with
  | None => (s, Ok None)
  | Some m =>
      match f m with
      | (m', Ok a) => (mk_TimerSys (Some m') (ready s), Ok (Some a))
      | (m', Err e) => (mk_TimerSys (Some m') (ready s), Err e)
      | (m', Stuck) => (mk_TimerSys (Some m') (ready s), Stuck)
      end
  end.

Definition one_shot_after (now freq : Z) (delay : Duration) (cb : CB) : M TimerSys TimerError Z :=
  s ← get;
  if negb (ready s) then fail NotReady
  else
    o ← with_manager_mut (schedule_after now freq (duration_to_ticks freq delay) cb);
    lift (ok_or o NotReady).

Definition one_shot_at (now freq : Z) (dl : Duration) (cb : CB) : M TimerSys TimerError Z :=
  s ← get;
  if negb (ready s) then fail NotReady
  else
    o ← with_manager_mut (schedule_at now freq (duration_to_ticks freq dl) cb);
    lift (ok_or o NotReady).

Definition timer_cancel (now freq handle : Z) : M TimerSys TimerError bool :=
  o ← with_manager_mut (cancel now freq handle);
  mret (default false o).

(** [systimer_irq_handler]: the callbacks that are run, in order. *)
Definition systimer_irq_handler (now arm_now freq : Z) : M TimerSys TimerError (list CB) :=
  o ← with_manager_mut (handle_irq now arm_now freq);
  mret (default [] o).

Definition time_list (now : Z) (s : TimerSys) : list TimeListEntry :=
  match manager s with Some m => snapshot now m | None => [] end.

End Timers.
Arguments TimerManager : clear implicits.
Arguments TimerSys : clear implicits.
