(* ===== verification/TimerProof.v ===== *)
(** * Software timers: proofs

    The invariant [tm_ok]: the list is strictly sorted, the index maps exactly
    the pending ids to their deadlines, and the hardware timer is programmed
    for the first deadline. Every operation keeps it; an interrupt runs exactly
    the callbacks that are due, in the order of their deadlines. *)

From stdpp Require Import base list numbers gmap sorting.
From S2P Require Import Prelude Timer.
Open Scope Z_scope.

(** ** The order on keys *)

Lemma key_lt_spec a b : key_lt a b ↔
  deadline a < deadline b ∨ (deadline a = deadline b ∧ timer_id a < timer_id b).
Proof.
  unfold key_lt, key_ltb. rewrite orb_true_iff, andb_true_iff, !Z.ltb_lt, Z.eqb_eq. done.
Qed.

Lemma key_ltb_false a b : key_ltb a b = false ↔ ¬ key_lt a b.
Proof. unfold key_lt. by destruct (key_ltb a b). Qed.

#[export] Instance key_lt_trans : Transitive key_lt.
Proof. intros a b c. rewrite !key_lt_spec. lia. Qed.

Lemma key_total a b : ¬ key_lt a b → a ≠ b → key_lt b a.
Proof. destruct a as [d i], b as [d' i']. rewrite !key_lt_spec. simpl. intros ? Hne.
  assert (d ≠ d' ∨ i ≠ i') by (destruct (decide (d = d')), (decide (i = i')); subst; naive_solver). lia. Qed.

Lemma key_lt_neq a b : key_lt a b → a ≠ b.
Proof. rewrite key_lt_spec. intros H ->. lia. Qed.

Section TimerProof.
Context {CB : Type}.
Implicit Types (l : list (TimerKey * CB)) (k : TimerKey) (v : CB) (m : TimerManager CB).

Notation keys l := (fst <$> l).
Notation sorted l := (StronglySorted key_lt (keys l)).

(** ** The sorted list *)

Lemma insert_perm k v l : k ∉ keys l → btree_insert k v l ≡ₚ (k, v) :: l.
Proof.
  induction l as [|[k' v'] l IH]; simpl; intros Hn; [done|].
  apply not_elem_of_cons in Hn as [Hne Hn]. simpl in Hne.
  destruct (key_ltb k k'); [done|]. rewrite bool_decide_eq_false_2 by done.
  rewrite IH by done. apply perm_swap.
Qed.

Lemma insert_sorted k v l : k ∉ keys l → sorted l → sorted (btree_insert k v l).
Proof.
  induction l as [|[k' v'] l IH]; simpl; intros Hn Hs.
  { constructor; [constructor|constructor]. }
  apply not_elem_of_cons in Hn as [Hne Hn]. simpl in Hne.
  inversion_clear Hs as [|?? Hs' Hall]. destruct (key_ltb k k') eqn:E.
  - constructor; [by constructor|]. constructor; [done|].
    eapply Forall_impl; [exact Hall|]. intros ? ?. by transitivity k'.
  - rewrite bool_decide_eq_false_2 by done. simpl. constructor; [by apply IH|].
    apply key_ltb_false in E. rewrite Forall_forall. intros x Hx.
    rewrite (insert_perm k v l Hn) in Hx. simpl in Hx.
    apply elem_of_cons in Hx as [->|Hx]; [by apply key_total|]. rewrite Forall_forall in Hall. by apply Hall.
Qed.

Lemma remove_split k l r v : btree_remove k l = (r, Some v) →
  ∃ l1 l2, l = l1 ++ (k, v) :: l2 ∧ r = l1 ++ l2.
Proof.
  revert r. induction l as [|[k' v'] l IH]; simpl; intros r; [done|].
  case_bool_decide as E; [intros [= <- <-]; subst; by exists [], l|].
  destruct (btree_remove k l) as [r' o]. intros [= <- ->].
  destruct (IH r' eq_refl) as (l1 & l2 & -> & ->). by exists ((k', v') :: l1), l2.
Qed.

Lemma remove_found k l : k ∈ keys l → ∃ r v, btree_remove k l = (r, Some v).
Proof.
  induction l as [|[k' v'] l IH]; simpl; [by intros ?%not_elem_of_nil|].
  intros [->|Hk]%elem_of_cons; [rewrite bool_decide_eq_true_2 by done; eauto|].
  case_bool_decide; [eauto|]. destruct (IH Hk) as (r & v & ->). eauto.
Qed.

Lemma sorted_remove k l r v : sorted l → btree_remove k l = (r, Some v) → sorted r.
Proof.
  intros Hs (l1 & l2 & -> & ->)%remove_split. rewrite fmap_app in *. simpl in *.
  apply StronglySorted_app in Hs as (Hc & H1 & H2). apply StronglySorted_app.
  inversion_clear H2. split_and!; [|done|done]. intros a b Ha Hb. apply Hc; [done|by apply list_elem_of_further].
Qed.

Lemma sorted_nodup l : sorted l → NoDup (keys l).
Proof.
  induction l as [|[k v] l IH]; simpl; [constructor|]. intros Hs.
  inversion_clear Hs as [|?? Hs' Hall]. constructor; [|by apply IH].
  intros Hk. rewrite Forall_forall in Hall. by apply (key_lt_neq k k); [apply Hall|].
Qed.

(** ** The invariant *)

(** The hardware timer is programmed for the first deadline, or off. *)
Definition hw_ok (freq : Z) m : Prop :=
  match first_key (timers m) with
  | None => hw_irq (hw m) = false
  | Some k => hw_irq (hw m) = true ∧
      hw_at (hw m) + hw_interval (hw m) ≤ Z.max (deadline k) (hw_at (hw m) + min_delay freq)
  end.

(** The two maps hold the same timers. *)
Record maps_ok m : Prop := {
  tm_sorted : sorted (timers m);
  tm_index id d : index m !! id = Some d ↔ mk_TimerKey d id ∈ keys (timers m);
  tm_next : 0 ≤ next_id m < 2 ^ 64;
  tm_ids id : is_Some (index m !! id) → 0 ≤ id < 2 ^ 64
}.

Definition tm_ok (freq : Z) m : Prop := maps_ok m ∧ hw_ok freq m.

Lemma tm_key m k : maps_ok m → k ∈ keys (timers m) → index m !! timer_id k = Some (deadline k).
Proof. intros Hm Hk. apply (tm_index _ Hm). by destruct k. Qed.

(** Taking one key out of both maps keeps them in step. *)
Lemma index_remove m k r v : maps_ok m → btree_remove k (timers m) = (r, Some v) →
  ∀ id d, delete (timer_id k) (index m) !! id = Some d ↔ mk_TimerKey d id ∈ keys r.
Proof.
  intros Hm Hr id d. pose proof (sorted_nodup _ (tm_sorted _ Hm)) as Hnd.
  pose proof (remove_split _ _ _ _ Hr) as (l1 & l2 & El & ->). rewrite El in Hnd.
  rewrite fmap_app in *. simpl in *. apply NoDup_app in Hnd as (? & Hd & Hnd2).
  apply NoDup_cons in Hnd2 as [Hk2 ?].
  assert (Hk : k ∈ keys (timers m)) by (rewrite El, fmap_app; simpl; set_solver).
  destruct (decide (id = timer_id k)) as [->|Hne].
  - rewrite lookup_delete_eq. split; [done|]. intros Hin. exfalso.
    assert (Hin' : mk_TimerKey d (timer_id k) ∈ keys (timers m)) by (rewrite El, fmap_app; simpl; set_solver).
    apply (tm_index _ Hm) in Hin'. rewrite (tm_key _ _ Hm Hk) in Hin'. simplify_eq.
    assert (mk_TimerKey (deadline k) (timer_id k) = k) as Ek by (by destruct k). rewrite Ek in Hin.
    apply elem_of_app in Hin as [Hin|Hin]; [|done]. apply (Hd k Hin). apply list_elem_of_here.
  - rewrite lookup_delete_ne by done. rewrite (tm_index _ Hm), El, fmap_app. simpl.
    rewrite !elem_of_app, elem_of_cons. split; [|naive_solver].
    intros [?|[E|?]]; [by left| |by right]. exfalso. apply Hne. by rewrite <- E.
Qed.

(** ** [next_timer_id] *)

Lemma next_id_loop_some fuel : ∀ nid idx id nid',
  0 ≤ nid < 2 ^ 64 → next_timer_id_loop fuel nid idx = Some (id, nid') →
  idx !! id = None ∧ 0 ≤ id < 2 ^ 64 ∧ 0 ≤ nid' < 2 ^ 64.
Proof.
  induction fuel as [|fuel IH]; intros nid idx id nid' Hn; simpl; [done|].
  assert (0 ≤ wrapping_add 64 nid 1 < 2 ^ 64) by (apply Z.mod_pos_bound; lia).
  destruct (idx !! nid) eqn:E; [by apply IH|]. by intros [= <- <-].
Qed.

Lemma next_id_loop_none fuel : ∀ nid idx,
  0 ≤ nid < 2 ^ 64 → next_timer_id_loop fuel nid idx = None →
  ∀ i, (i < fuel)%nat → is_Some (idx !! ((nid + Z.of_nat i) mod 2 ^ 64)).
Proof.
  induction fuel as [|fuel IH]; intros nid idx Hn Hl i Hi; [lia|]. simpl in Hl.
  assert (0 ≤ wrapping_add 64 nid 1 < 2 ^ 64) by (apply Z.mod_pos_bound; lia).
  destruct (idx !! nid) as [d|] eqn:E; [|done]. destruct i as [|i].
  - rewrite Z.add_0_r, Z.mod_small by done. by rewrite E.
  - specialize (IH _ _ ltac:(done) Hl i ltac:(lia)). unfold wrapping_add in IH.
    rewrite Zplus_mod_idemp_l in IH. by replace (nid + Z.of_nat (S i)) with (nid + 1 + Z.of_nat i) by lia.
Qed.

(** Among [size idx + 1] consecutive ids one is free. *)
Lemma next_id_found nid (idx : gmap Z Z) :
  0 ≤ nid < 2 ^ 64 → Z.of_nat (size idx) < 2 ^ 64 →
  ∃ r, next_timer_id_loop (S (size idx)) nid idx = Some r.
Proof.
  intros Hn Hsz. destruct (next_timer_id_loop (S (size idx)) nid idx) eqn:E; [eauto|exfalso].
  pose proof (next_id_loop_none _ _ _ Hn E) as Hall.
  set (ids := (λ i, (nid + Z.of_nat i) mod 2 ^ 64) <$> seq 0 (S (size idx))).
  assert (Hnd : NoDup ids).
  { apply NoDup_fmap_2_strong; [|apply NoDup_seq]. intros i j Hi%elem_of_seq Hj%elem_of_seq Eq.
    pose proof (Z.div_mod (nid + Z.of_nat i) (2 ^ 64) ltac:(lia)).
    pose proof (Z.div_mod (nid + Z.of_nat j) (2 ^ 64) ltac:(lia)). rewrite Eq in *.
    set (a := (nid + Z.of_nat i) / 2 ^ 64) in *. set (b := (nid + Z.of_nat j) / 2 ^ 64) in *.
    assert (a = b); nia. }
  assert (Hsub : list_to_set ids ⊆ dom idx).
  { intros x. rewrite elem_of_list_to_set. unfold ids. rewrite list_elem_of_fmap.
    intros (i & -> & Hi%elem_of_seq). apply elem_of_dom, Hall. lia. }
  apply subseteq_size in Hsub. rewrite size_list_to_set in Hsub by done.
  unfold ids in Hsub. rewrite length_fmap, length_seq, size_dom in Hsub. lia.
Qed.

(** ** Arming *)

Lemma arm_ok freq now m : hw_ok freq (arm_hardware_timer now freq m).1.
Proof.
  unfold hw_ok, arm_hardware_timer, modify. simpl. destruct (first_key (timers m)) as [k|]; [|done].
  simpl. split; [done|]. unfold saturating_sub, min_delay. lia.
Qed.

Lemma first_insert k v l : k ∉ keys l →
  first_key (btree_insert k v l) =
    match first_key l with
    | None => Some k
    | Some f => if key_ltb k f then Some k else Some f
    end.
Proof.
  destruct l as [|[k' v'] l]; simpl; [done|]. intros [Hne _]%not_elem_of_cons. simpl in Hne.
  destruct (key_ltb k k'); [done|]. by rewrite bool_decide_eq_false_2.
Qed.

(** ** Scheduling *)

Definition few_timers m : Prop := Z.of_nat (size (index m)) < 2 ^ 64.

Lemma schedule_run freq now dl cb m :
  tm_ok freq m → few_timers m →
  ∃ id m', schedule_at now freq dl cb m = (m', Ok id) ∧ tm_ok freq m' ∧
    index m !! id = None ∧ timers m' ≡ₚ (mk_TimerKey dl id, cb) :: timers m ∧
    index m' = <[id := dl]> (index m).
Proof.
  intros [Hm Hhw] Hfew. unfold schedule_at, mbind, M_bind, next_timer_id.
  destruct (next_id_found (next_id m) (index m) (tm_next _ Hm) Hfew) as [[id nid] Hid].
  rewrite Hid. destruct (next_id_loop_some _ _ _ _ _ (tm_next _ Hm) Hid) as (Hfree & Hrid & Hrn).
  unfold get. simpl. set (key := mk_TimerKey dl id).
  assert (Hnk : key ∉ keys (timers m)).
  { intros Hk%(tm_index _ Hm). by rewrite Hfree in Hk. }
  set (m1 := mk_TimerManager nid (btree_insert key cb (timers m)) (<[id := dl]> (index m)) (hw m)).
  assert (H1 : ∀ m', timers m' = timers m1 → index m' = index m1 → next_id m' = nid → hw_ok freq m' → tm_ok freq m').
  { intros m' Et Ei En Hh. split; [|done]. split; [rewrite Et; by apply insert_sorted, Hm| |by rewrite En|].
    - intros i d. rewrite Ei, Et. simpl. rewrite (insert_perm key cb _ Hnk). simpl. rewrite elem_of_cons.
      destruct (decide (i = id)) as [->|Hne].
      + rewrite lookup_insert_eq. split; [intros [= <-]; by left|]. intros [[= <-]|Hin]; [done|].
        apply (tm_index _ Hm) in Hin. by rewrite Hfree in Hin.
      + rewrite lookup_insert_ne by done. rewrite (tm_index _ Hm). split; [by right|].
        intros [[=]|]; done.
    - intros i. rewrite Ei. simpl. destruct (decide (i = id)) as [->|Hne]; [done|].
      rewrite lookup_insert_ne by done. apply Hm. }
  pose proof (insert_perm key cb _ Hnk) as Hp. unfold modify, mret, M_ret.
  destruct (match first_key (timers m) with None => true | Some k => dl <? deadline k end) eqn:Ee.
  - eexists id, _. split; [done|]. split_and!; try done. apply H1; try done. apply (arm_ok freq now m1).
  - exists id, m1. split; [done|]. split_and!; try done. apply H1; try done.
    pose proof Hhw as Hh. unfold hw_ok in *. simpl. rewrite (first_insert key cb _ Hnk).
    destruct (first_key (timers m)) as [f|]; [|done]. apply Z.ltb_ge in Ee. destruct Hh as [Hi Hle].
    destruct (key_ltb key f) eqn:Ek; (split; [done|]); [|done].
    apply key_lt_spec in Ek. simpl in *. lia.
Qed.

(** ** Cancelling *)

Lemma first_remove k l r v : btree_remove k l = (r, Some v) → first_key l ≠ Some k →
  first_key r = first_key l.
Proof.
  intros (l1 & l2 & -> & ->)%remove_split Hf. destruct l1 as [|[k' v'] l1]; [done|done].
Qed.

Lemma cancel_run freq now h m :
  tm_ok freq m →
  match index m !! h with
  | None => cancel now freq h m = (m, Ok false)
  | Some dl => ∃ m' cb, cancel now freq h m = (m', Ok true) ∧ tm_ok freq m' ∧
      timers m ≡ₚ (mk_TimerKey dl h, cb) :: timers m' ∧ index m' = delete h (index m)
  end.
Proof.
  intros [Hm Hhw]. unfold cancel, mbind, M_bind, get. destruct (index m !! h) as [dl|] eqn:Ei; [|done].
  set (key := mk_TimerKey dl h).
  assert (Hk : key ∈ keys (timers m)) by (by apply (tm_index _ Hm)).
  destruct (remove_found _ _ Hk) as (r & cb & Hr). unfold modify, mret, M_ret. simpl. rewrite Hr. simpl.
  set (m1 := mk_TimerManager (next_id m) r (delete h (index m)) (hw m)).
  assert (Hp : timers m ≡ₚ (key, cb) :: r).
  { destruct (remove_split _ _ _ _ Hr) as (l1 & l2 & -> & ->). by rewrite Permutation_middle. }
  assert (H1 : ∀ m', timers m' = r → index m' = index m1 → next_id m' = next_id m → hw_ok freq m' → tm_ok freq m').
  { intros m' Et Eidx En Hh. split; [|done].
    split; [rewrite Et; by eapply sorted_remove, Hr; apply Hm| |rewrite En; apply Hm|].
    - intros i d. rewrite Eidx, Et. apply (index_remove m key r cb Hm Hr).
    - intros i. rewrite Eidx. simpl. intros [d [_ Hd]%lookup_delete_Some]. apply Hm. eauto. }
  destruct (first_key (timers m)) as [f|] eqn:Ef; simpl.
  - case_bool_decide as Efk.
    + eexists _, cb. split; [done|]. split_and!; try done. apply H1; try done. apply (arm_ok freq now m1).
    + exists m1, cb. split; [done|]. split_and!; try done. apply H1; try done.
      pose proof Hhw as Hh. unfold hw_ok in *. simpl.
      rewrite (first_remove key (timers m) r cb Hr) by (rewrite Ef; congruence). by rewrite Ef in *.
  - exfalso. unfold first_key in Ef. destruct (timers m); [by apply not_elem_of_nil in Hk|done].
Qed.

(** ** The interrupt *)

Definition due (now : Z) (p : TimerKey * CB) : Prop := deadline p.1 ≤ now.
#[local] Instance due_dec now p : Decision (due now p).
Proof. unfold due. apply _. Defined.

(** In a sorted list, nothing is due once the first is not. *)
Lemma none_due now k v l : sorted ((k, v) :: l) → now < deadline k →
  filter (due now) ((k, v) :: l) = [] ∧ filter (λ p, ¬ due now p) ((k, v) :: l) = (k, v) :: l.
Proof.
  intros Hs Hk. assert (Hall : Forall (λ p, ¬ due now p) ((k, v) :: l)).
  { inversion_clear Hs as [|?? Hs' Ha]. constructor; [unfold due; simpl; lia|].
    apply Forall_forall. intros [k' v'] Hin. unfold due. simpl.
    assert (key_lt k k') as Hlt%key_lt_spec by (apply (proj1 (Forall_forall _ _) Ha k'), list_elem_of_fmap; by exists (k', v')). lia. }
  split; [by apply filter_none|by apply filter_all].
Qed.

Lemma due_sorted now l : sorted l →
  StronglySorted (λ a b, deadline a ≤ deadline b) (fst <$> filter (due now) l).
Proof.
  induction l as [|[k v] l IH]; intros Hs; [constructor|]. inversion_clear Hs as [|?? Hs' Ha].
  rewrite filter_cons. case_decide; [|by apply IH]. simpl. constructor; [by apply IH|].
  apply Forall_forall. intros k' ([k'' v''] & -> & [_ Hin]%list_elem_of_filter)%list_elem_of_fmap.
  assert (key_lt k k'') as Hlt%key_lt_spec
    by (apply (proj1 (Forall_forall _ _) Ha k''), list_elem_of_fmap; by exists (k'', v'')).
  simpl. lia.
Qed.

Lemma expire_run now m : ∀ fuel acc, maps_ok m → (length (timers m) ≤ fuel)%nat →
  ∃ m', expire_loop fuel now acc m = (m', Ok (acc ++ (snd <$> filter (due now) (timers m)))) ∧
    timers m' = filter (λ p, ¬ due now p) (timers m) ∧ maps_ok m'.
Proof.
  remember (timers m) as l eqn:El. revert m El. induction l as [|[k v] l IH]; intros m El fuel acc Hm Hf.
  { exists m. destruct fuel; simpl; rewrite <- El; simpl; by rewrite app_nil_r. }
  destruct fuel as [|fuel]; [simpl in Hf; lia|]. simpl. rewrite <- El. simpl.
  pose proof (tm_sorted _ Hm) as Hs. rewrite <- El in Hs.
  destruct (Z.ltb_spec now (deadline k)) as [Hlt|Hge].
  { destruct (none_due now k v l Hs Hlt) as [-> ->]. exists m. simpl. by rewrite app_nil_r. }
  rewrite bool_decide_eq_true_2 by done.
  assert (Hr : btree_remove k (timers m) = (l, Some v)) by (rewrite <- El; simpl; by rewrite bool_decide_eq_true_2).
  set (m1 := mk_TimerManager (next_id m) l (delete (timer_id k) (index m)) (hw m)).
  assert (Hm1 : maps_ok m1).
  { split; simpl; [by inversion_clear Hs|apply (index_remove m k l v Hm Hr)|apply Hm|].
    intros id [d [_ Hd]%lookup_delete_Some]. apply Hm. eauto. }
  destruct (IH m1 eq_refl fuel (acc ++ [v]) Hm1) as (m' & Hrun & Ht & Hm'); [simpl in Hf; lia|].
  exists m'. split_and!; [|rewrite Ht, filter_cons_False; [done|unfold due; simpl; lia]|done].
  rewrite Hrun, filter_cons_True by done. simpl. by rewrite <- app_assoc.
Qed.

Lemma handle_irq_run now arm_now freq m :
  maps_ok m →
  ∃ m', handle_irq now arm_now freq m = (m', Ok (snd <$> filter (due now) (timers m))) ∧
    timers m' = filter (λ p, ¬ due now p) (timers m) ∧ tm_ok freq m'.
Proof.
  intros Hm. unfold handle_irq, mbind, M_bind, get.
  destruct (expire_run now m (length (timers m)) [] Hm (le_n _)) as (m1 & -> & Ht & Hm1).
  exists (arm_hardware_timer arm_now freq m1).1. split_and!; [done|done|].
  split; [|apply arm_ok]. destruct Hm1. by split.
Qed.

(** ** The properties *)

(** Every operation of the timer manager keeps the invariant: the list
    strictly sorted by deadline and id, the index in step with it, and the
    hardware timer programmed for the first deadline (or off when there is
    none), so that no interrupt comes later than the first deadline or the
    minimum delay, whichever is later. *)
Theorem timer_ops_keep_invariant freq m now arm_now dl delay cb h :
  tm_ok freq m → few_timers m →
  tm_ok freq (schedule_at now freq dl cb m).1 ∧
  tm_ok freq (schedule_after now freq delay cb m).1 ∧
  tm_ok freq (cancel now freq h m).1 ∧
  tm_ok freq (handle_irq now arm_now freq m).1.
Proof.
  intros Hm Hfew. split_and!.
  - destruct (schedule_run freq now dl cb m Hm Hfew) as (id & m' & -> & ? & _). done.
  - unfold schedule_after, mbind, M_bind, lift. destruct (checked_add 64 now delay) as [dl'|]; simpl; [|done].
    destruct (schedule_run freq now dl' cb m Hm Hfew) as (id & m' & -> & ? & _). done.
  - pose proof (cancel_run freq now h m Hm) as Hc. destruct (index m !! h); [|by rewrite Hc].
    destruct Hc as (m' & v & -> & ? & _). done.
  - destruct (handle_irq_run now arm_now freq m (proj1 Hm)) as (m' & -> & _ & ?). done.
Qed.

(** C28: the timer interrupt runs exactly the callbacks whose deadline has
    passed, in the order of their deadlines, and leaves exactly the others
    pending; the loop ends. *)
Theorem handle_irq_exact freq m now arm_now :
  tm_ok freq m →
  ∃ m', handle_irq now arm_now freq m = (m', Ok (snd <$> filter (due now) (timers m))) ∧
    timers m' = filter (λ p, ¬ due now p) (timers m) ∧
    StronglySorted (λ a b, deadline a ≤ deadline b) (fst <$> filter (due now) (timers m)).
Proof.
  intros [Hm _]. destruct (handle_irq_run now arm_now freq m Hm) as (m' & ? & ? & _).
  exists m'. split_and!; try done. apply due_sorted, Hm.
Qed.

(** Scheduling returns an id that no pending timer has and adds exactly
    that timer; cancelling it right away succeeds, removes exactly that timer,
    and a second cancel of the same handle fails without effect. *)
Theorem schedule_cancel_roundtrip freq m now dl cb :
  tm_ok freq m → few_timers m →
  ∃ id m1 m2, schedule_at now freq dl cb m = (m1, Ok id) ∧ index m !! id = None ∧
    timers m1 ≡ₚ (mk_TimerKey dl id, cb) :: timers m ∧
    cancel now freq id m1 = (m2, Ok true) ∧ timers m2 ≡ₚ timers m ∧ index m2 = index m ∧
    cancel now freq id m2 = (m2, Ok false).
Proof.
  intros Hm Hfew. destruct (schedule_run freq now dl cb m Hm Hfew) as (id & m1 & Hs & Hm1 & Hfree & Hp & Hi).
  pose proof (cancel_run freq now id m1 Hm1) as Hc. rewrite Hi, lookup_insert_eq in Hc.
  destruct Hc as (m2 & cb' & Hc & Hm2 & Hp2 & Hi2).
  assert (Hi2' : index m2 = index m) by (rewrite Hi2, delete_insert_id; done).
  exists id, m1, m2. split_and!; try done.
  - rewrite Hp in Hp2. assert (Hcb : cb = cb').
    { assert (Hin : (mk_TimerKey dl id, cb) ∈ (mk_TimerKey dl id, cb') :: timers m2)
        by (rewrite <- Hp2; apply list_elem_of_here).
      apply elem_of_cons in Hin as [[= ->]|Hin]; [done|]. exfalso.
      assert (Hk : mk_TimerKey dl id ∈ keys (timers m2)) by (apply list_elem_of_fmap; by exists (mk_TimerKey dl id, cb)).
      apply (tm_index _ (proj1 Hm2)) in Hk. rewrite Hi2', Hfree in Hk. done. }
    rewrite Hcb in Hp2. symmetry. by apply (Permutation_cons_inv Hp2).
  - pose proof (cancel_run freq now id m2 Hm2) as Hc2. by rewrite Hi2', Hfree in Hc2.
Qed.

End TimerProof.

(** ** Concrete runs *)

Definition freq0 : Z := 62500000.
Definition tm0 : TimerManager nat := manager_new (mk_Hw 0 usize_max false).

Lemma tm0_ok : tm_ok freq0 tm0.
Proof.
  split; [split|done]; simpl.
  - constructor.
  - intros id d. rewrite lookup_empty. split; [done|by intros ?%not_elem_of_nil].
  - lia.
  - intros id [d Hd]. by rewrite lookup_empty in Hd.
Qed.

(** Three timers, two of them with the same deadline. *)
Definition tm1 : TimerManager nat :=
  (schedule_at 10 freq0 500 3%nat (schedule_at 10 freq0 100 2%nat (schedule_at 10 freq0 500 1%nat tm0).1).1).1.

Lemma tm1_ok : tm_ok freq0 tm1.
Proof.
  unfold tm1. assert (Hstep : ∀ m dl (cb : nat), tm_ok freq0 m ∧ (size (index m) < 10)%nat →
    tm_ok freq0 (schedule_at 10 freq0 dl cb m).1).
  { intros m dl cb [Hm Hsz]. destruct (schedule_run freq0 10 dl cb m Hm) as (id & m' & -> & ? & _); [|done].
    unfold few_timers. lia. }
  apply Hstep; split; [apply Hstep; split; [apply Hstep; split; [apply tm0_ok|]|]|];
    vm_compute; lia.
Qed.

Lemma timer_ops_keep_invariant_witness :
  tm_ok freq0 (schedule_at 500 freq0 50 4%nat tm1).1 ∧
  tm_ok freq0 (schedule_after 500 freq0 60 4%nat tm1).1 ∧
  tm_ok freq0 (cancel 500 freq0 2 tm1).1 ∧
  tm_ok freq0 (handle_irq 500 501 freq0 tm1).1.
Proof.
  apply (timer_ops_keep_invariant freq0 tm1 500 501 50 60 4%nat 2); [apply tm1_ok|].
  unfold few_timers. vm_compute. reflexivity.
Defined.

Lemma handle_irq_exact_witness :
  ∃ m', handle_irq 499 499 freq0 tm1 = (m', Ok [2%nat]) ∧ (snd <$> timers m') = [1%nat; 3%nat].
Proof.
  destruct (handle_irq_exact freq0 tm1 499 499 tm1_ok) as (m' & E & Et & _).
  exists m'. split; [rewrite E; vm_compute; reflexivity|]. rewrite Et. vm_compute. reflexivity.
Defined.

Lemma schedule_cancel_roundtrip_witness :
  ∃ id m1 m2, schedule_at 20 freq0 100 9%nat tm1 = (m1, Ok id) ∧ index tm1 !! id = None ∧
    timers m1 ≡ₚ (mk_TimerKey 100 id, 9%nat) :: timers tm1 ∧
    cancel 20 freq0 id m1 = (m2, Ok true) ∧ timers m2 ≡ₚ timers tm1 ∧ index m2 = index tm1 ∧
    cancel 20 freq0 id m2 = (m2, Ok false).
Proof.
  apply (schedule_cancel_roundtrip freq0 tm1 20 100 9%nat); [apply tm1_ok|].
  unfold few_timers. vm_compute. reflexivity.
Defined.
