(* ===== verification/Spinlock.v ===== *)
(** * The interrupt-disabling spinlock

    crates/sparreal-kernel/src/os/sync/spinlock.rs and os/irq/guard.rs. A
    system of any number of CPUs and locks: the flag of each lock, the
    interrupt-enable bit of each CPU, and the guards each CPU holds, newest
    first, each with the lock it holds and the interrupt state it saved. The
    operations of different CPUs interleave in any order: [step] is one of
    them. *)

From stdpp Require Import base list numbers gmap functions relations.
From S2P Require Import Prelude.
Open Scope nat_scope.

Record Sys : Type := mk_Sys {
  locked : gset nat;
  irq : nat → bool;
  guards : nat → list (nat * bool)
}.

(** guard.rs: [NoIrqGuard::new] and its [Drop]. *)
Definition NoIrqGuard_new (c : nat) (s : Sys) : Sys * bool :=
  (mk_Sys (locked s) (<[c := false]> (irq s)) (guards s), irq s c).

Definition NoIrqGuard_drop (c : nat) (is_enabled : bool) (s : Sys) : Sys :=
  if is_enabled then mk_Sys (locked s) (<[c := true]> (irq s)) (guards s) else s.

(** [IrqRawSpinlock::try_lock], [unlock] and [is_locked]. *)
Definition raw_try_lock (l : nat) (s : Sys) : Sys * bool :=
  if bool_decide (l ∈ locked s) then (s, false)
  else (mk_Sys ({[l]} ∪ locked s) (irq s) (guards s), true).
Definition raw_unlock (l : nat) (s : Sys) : Sys := mk_Sys (locked s ∖ {[l]}) (irq s) (guards s).
Definition is_locked (l : nat) (s : Sys) : bool := bool_decide (l ∈ locked s).

(** [IrqSpinlock::try_lock] on CPU [c]. *)
Definition try_lock (c l : nat) (s : Sys) : Sys * bool :=
  let '(s1, saved) := NoIrqGuard_new c s in
  match raw_try_lock l s1 with
  | (s2, true) => (mk_Sys (locked s2) (irq s2) (<[c := (l, saved) :: guards s2 c]> (guards s2)), true)
  | (s2, false) => (NoIrqGuard_drop c saved s2, false)
  end.

(** The [Drop] of [IrqMutexGuard]: unlock, then the field [_irq_guard]. [i] is
    the place of the guard among the guards of the CPU. *)
Definition drop_guard (c i : nat) (s : Sys) : option Sys :=
  match guards s c !! i with
  | Some (l, saved) =>
      let s1 := raw_unlock l s in
      let s2 := mk_Sys (locked s1) (irq s1) (<[c := delete i (guards s1 c)]> (guards s1)) in
      Some (NoIrqGuard_drop c saved s2)
  | None => None
  end.

(** [IrqSpinlock::lock]: 100 attempts; [others n] is what the other CPUs do
    before attempt [n]. *)
Fixpoint lock_loop (attempts : nat) (others : nat → Sys → Sys) (c l : nat) : M Sys Empty_set unit := λ s,
  match attempts with
  | O => (s, Stuck)
  | S n =>
      match try_lock c l (others n s) with
      | (s', true) => (s', Ok tt)
      | (s', false) => lock_loop n others c l s'
      end
  end.
Definition lock := lock_loop 100.

(** ** Interleavings *)

Inductive step : Sys → Sys → Prop :=
| step_try c l s : step s (try_lock c l s).1
| step_drop c i s s' : drop_guard c i s = Some s' → step s s'.

(** Guards dropped in the reverse order of their creation. *)
Inductive lifo_step : Sys → Sys → Prop :=
| lifo_try c l s : lifo_step s (try_lock c l s).1
| lifo_drop c s s' : drop_guard c 0 s = Some s' → lifo_step s s'.

Definition start (enabled : nat → bool) : Sys := mk_Sys ∅ enabled (λ _, []).

(** Guard [i] of CPU [c] holds lock [l]. *)
Definition holds (s : Sys) (c i l : nat) : Prop := ∃ b, guards s c !! i = Some (l, b).

Record sys_ok (s : Sys) : Prop := {
  so_locked l : l ∈ locked s ↔ ∃ c i, holds s c i l;
  so_unique c i c' i' l : holds s c i l → holds s c' i' l → c = c' ∧ i = i'
}.

Lemma start_ok enabled : sys_ok (start enabled).
Proof.
  split; simpl.
  - intros l. split; [by intros ?%not_elem_of_empty|]. intros (c & i & b & H). by destruct i.
  - intros c i c' i' l [b H]. by destruct i.
Qed.

Lemma try_lock_eq c l s : try_lock c l s =
  if bool_decide (l ∈ locked s) then
    (NoIrqGuard_drop c (irq s c) (mk_Sys (locked s) (<[c := false]> (irq s)) (guards s)), false)
  else (mk_Sys ({[l]} ∪ locked s) (<[c := false]> (irq s)) (<[c := (l, irq s c) :: guards s c]> (guards s)), true).
Proof. unfold try_lock, raw_try_lock. simpl. by case_bool_decide. Qed.

Lemma irq_drop_frame c b s : locked (NoIrqGuard_drop c b s) = locked s ∧ guards (NoIrqGuard_drop c b s) = guards s.
Proof. by destruct b. Qed.

(** A failed attempt changes nothing: the interrupt state is put back. *)
Lemma try_lock_fail c l s : l ∈ locked s →
  (try_lock c l s).2 = false ∧ locked (try_lock c l s).1 = locked s ∧
  guards (try_lock c l s).1 = guards s ∧ ∀ d, irq (try_lock c l s).1 d = irq s d.
Proof.
  intros Hl. rewrite try_lock_eq, bool_decide_eq_true_2 by done. simpl. split; [done|].
  destruct (irq_drop_frame c (irq s c) (mk_Sys (locked s) (<[c := false]> (irq s)) (guards s))) as [-> ->].
  split_and!; [done..|]. intros d. destruct (irq s c) eqn:E; simpl; destruct (decide (d = c)) as [->|].
  - by rewrite fn_lookup_insert.
  - by rewrite !fn_lookup_insert_ne.
  - by rewrite fn_lookup_insert.
  - by rewrite fn_lookup_insert_ne.
Qed.

Lemma holds_try c l s d i x : l ∉ locked s →
  holds (try_lock c l s).1 d i x ↔
    (d = c ∧ i = 0 ∧ x = l) ∨ (d = c ∧ ∃ j, i = S j ∧ holds s c j x) ∨ (d ≠ c ∧ holds s d i x).
Proof.
  intros Hl. rewrite try_lock_eq, bool_decide_eq_false_2 by done. unfold holds. simpl.
  destruct (decide (d = c)) as [->|Hne].
  - rewrite fn_lookup_insert. destruct i as [|j]; simpl.
    + split; [intros [b [= -> _]]; by left|]. intros [(_ & _ & ->)|[(_ & j & [=] & _)|[? _]]]; [eauto|done].
    + split; [intros Hx; right; left; eauto|]. intros [(_ & [=] & _)|[(_ & j' & [= <-] & ?)|[? _]]]; done.
  - rewrite fn_lookup_insert_ne by done. naive_solver.
Qed.

Lemma delete_lookup_inv {A} (l : list A) i j x :
  delete i l !! j = Some x → ∃ k, k ≠ i ∧ l !! k = Some x ∧ j = (if decide (k < i)%nat then k else pred k).
Proof.
  intros H. destruct (decide (j < i)%nat).
  - rewrite list_lookup_delete_lt in H by done. exists j. split_and!; [lia|done|]. by rewrite decide_True.
  - rewrite list_lookup_delete_ge in H by lia. exists (S j). split_and!; [lia|done|]. rewrite decide_False by lia. done.
Qed.

Lemma delete_lookup_intro {A} (l : list A) i k x :
  l !! k = Some x → k ≠ i → ∃ j, delete i l !! j = Some x.
Proof.
  intros H Hne. destruct (decide (k < i)%nat).
  - exists k. by rewrite list_lookup_delete_lt.
  - exists (pred k). rewrite list_lookup_delete_ge by lia. by replace (S (pred k)) with k by lia.
Qed.

Lemma drop_guard_inv c i s s' : drop_guard c i s = Some s' →
  ∃ (l : nat) (b : bool), guards s c !! i = Some (l, b) ∧ locked s' = locked s ∖ {[l]} ∧
    guards s' = <[c := delete i (guards s c)]> (guards s) ∧
    irq s' = (if b then <[c := true]> (irq s) else irq s).
Proof.
  unfold drop_guard. destruct (guards s c !! i) as [[l b]|]; [|done]. intros [= <-].
  exists l, b. split; [done|]. destruct b; by split_and!.
Qed.

(** Dropping a guard keeps exactly the other guards. *)
Lemma holds_drop (c i : nat) (s s' : Sys) (l : nat) (b : bool) (d j x : nat) :
  guards s c !! i = Some (l, b) → guards s' = <[c := delete i (guards s c)]> (guards s) →
  holds s' d j x → ∃ k, holds s d k x ∧ (d, k) ≠ (c, i) ∧ ∀ j', holds s' d j' x → 
    (∀ k', holds s d k' x → k' = k) → j' = j.
Proof.
  intros Hi Eg [b' H]. rewrite Eg in H. destruct (decide (d = c)) as [->|Hne].
  - rewrite fn_lookup_insert in H. destruct (delete_lookup_inv _ _ _ _ H) as (k & Hk & Hl & Ej).
    exists k. split_and!; [by eexists|congruence|]. intros j' [b'' H'] Huniq. rewrite Eg, fn_lookup_insert in H'.
    destruct (delete_lookup_inv _ _ _ _ H') as (k' & Hk' & Hl' & Ej'). rewrite (Huniq k') in Ej' by (by eexists).
    congruence.
  - rewrite fn_lookup_insert_ne in H by done. exists j. split_and!; [by eexists|congruence|].
    intros j' [b'' H'] Huniq. rewrite Eg, fn_lookup_insert_ne in H' by done. apply Huniq. by eexists.
Qed.

Lemma step_ok s s' : step s s' → sys_ok s → sys_ok s'.
Proof.
  intros [c l s0|c i s0 s1 Hd] Hs.
  - destruct (decide (l ∈ locked s0)) as [Hl|Hl].
    { destruct (try_lock_fail c l s0 Hl) as (_ & El & Eg & _). destruct Hs as [H1 H2].
      split; unfold holds in *; rewrite Eg; [by rewrite El|done]. }
    split.
    + intros x. assert (locked (try_lock c l s0).1 = {[l]} ∪ locked s0) as ->
        by (rewrite try_lock_eq, bool_decide_eq_false_2; done).
      rewrite elem_of_union, elem_of_singleton, (so_locked _ Hs). setoid_rewrite holds_try; [|done].
      split.
      * intros [->|(d & j & H)]; [exists c, 0; by left|]. destruct (decide (d = c)) as [->|].
        -- exists c, (S j). right. left. eauto.
        -- exists d, j. by right; right.
      * intros (d & j & [(_ & _ & ->)|[(-> & k & _ & H)|[_ H]]]); [by left|right; eauto..].
    + assert (Hno : ∀ d j, ¬ holds s0 d j l) by (intros d j Hh; apply Hl, (so_locked _ Hs); eauto).
      intros d j d' j' x. rewrite !holds_try by done.
      intros [(-> & -> & ->)|[(-> & k & -> & Hk)|[Hd Hk]]] [(-> & -> & E)|[(-> & k' & -> & Hk')|[Hd' Hk']]];
        subst; try done; try (exfalso; by eapply Hno).
      * by destruct (so_unique _ Hs _ _ _ _ _ Hk Hk') as [_ ->].
      * destruct (so_unique _ Hs _ _ _ _ _ Hk Hk') as [-> _]. done.
      * destruct (so_unique _ Hs _ _ _ _ _ Hk Hk') as [-> _]. done.
      * apply (so_unique _ Hs _ _ _ _ _ Hk Hk').
  - destruct (drop_guard_inv _ _ _ _ Hd) as (l & b & Hi & El & Eg & _).
    assert (Hil : holds s0 c i l) by (by eexists).
    split.
    + intros x. rewrite El, elem_of_difference, elem_of_singleton, (so_locked _ Hs). split.
      * intros ((d & j & [b' H]) & Hne). destruct (decide (d = c)) as [->|].
        -- destruct (delete_lookup_intro (guards s0 c) i j _ H) as [j' H']; [intros ->; congruence|].
           exists c, j', b'. by rewrite Eg, fn_lookup_insert.
        -- exists d, j, b'. by rewrite Eg, fn_lookup_insert_ne.
      * intros (d & j & H). destruct (holds_drop c i s0 s1 l b d j x Hi Eg H) as (k & Hk & Hne & _).
        split; [eauto|]. intros ->. destruct (so_unique _ Hs _ _ _ _ _ Hk Hil) as [-> ->]. done.
    + intros d j d' j' x H H'. destruct (holds_drop c i s0 s1 l b d j x Hi Eg H) as (k & Hk & _ & Hu).
      destruct (holds_drop c i s0 s1 l b d' j' x Hi Eg H') as (k' & Hk' & _).
      destruct (so_unique _ Hs _ _ _ _ _ Hk Hk') as [<- <-]. split; [done|]. symmetry. apply Hu; [done|].
      intros k' Hk''. by destruct (so_unique _ Hs _ _ _ _ _ Hk'' Hk) as [_ ->].
Qed.

(** C19: mutual exclusion. In every state reachable by any interleaving of
    attempts and drops on any CPUs, in any order of the drops, a lock is taken
    exactly when some guard holds it, and no lock is held by two guards. *)
Theorem mutual_exclusion enabled s :
  rtc step (start enabled) s →
  (∀ l, is_locked l s = true ↔ ∃ c i, holds s c i l) ∧
  (∀ c i c' i' l, holds s c i l → holds s c' i' l → c = c' ∧ i = i').
Proof.
  intros Hr. assert (Hs : sys_ok s).
  { remember (start enabled) as s0 eqn:E. assert (H0 : sys_ok s0) by (rewrite E; apply start_ok). clear E.
    induction Hr as [|s0 s1 s2 H1 _ IH]; [done|]. apply IH. by eapply step_ok. }
  split; [|apply Hs]. intros l. unfold is_locked. rewrite bool_decide_eq_true. apply Hs.
Qed.

(** ** Interrupts *)

(** What a CPU's guards saved: only the oldest saved the state before the
    first lock. *)
Definition irq_ok (enabled : nat → bool) (s : Sys) (c : nat) : Prop :=
  match guards s c with
  | [] => irq s c = enabled c
  | gs => irq s c = false ∧ ∃ gs' l, gs = gs' ++ [(l, enabled c)] ∧ Forall (λ g, g.2 = false) gs'
  end.

Lemma lifo_step_irq enabled s s' : lifo_step s s' → (∀ c, irq_ok enabled s c) → ∀ c, irq_ok enabled s' c.
Proof.
  intros [c l s0|c s0 s1 Hd] Hi d; specialize (Hi d); unfold irq_ok in *.
  - destruct (decide (l ∈ locked s0)) as [Hl|Hl].
    { destruct (try_lock_fail c l s0 Hl) as (_ & _ & -> & ->). done. }
    rewrite try_lock_eq, bool_decide_eq_false_2 by done. simpl.
    destruct (decide (d = c)) as [->|]; [|by rewrite !fn_lookup_insert_ne by done].
    rewrite !fn_lookup_insert. split; [done|]. destruct (guards s0 c) as [|g gs].
    + rewrite Hi. by exists [], l.
    + destruct Hi as (Hf & gs' & l' & -> & Hall). rewrite Hf. exists ((l, false) :: gs'), l'. split; [done|by constructor].
  - destruct (drop_guard_inv _ _ _ _ Hd) as (l & b & Hg & _ & -> & ->).
    destruct (decide (d = c)) as [->|].
    2:{ rewrite fn_lookup_insert_ne by done. destruct b; [by rewrite fn_lookup_insert_ne|done]. }
    rewrite fn_lookup_insert. destruct (guards s0 c) as [|g gs]; [done|]. simpl in Hg. simplify_eq.
    destruct Hi as (Hf & gs' & l' & E & Hall). destruct gs' as [|g' gs']; simplify_eq/=.
    + destruct (enabled c) eqn:Ee; [by rewrite fn_lookup_insert|]. by rewrite Hf.
    + inversion_clear Hall as [|?? Hb Hall']. simpl in Hb. subst b.
      destruct gs'; simpl; (split; [done|]); [by exists [], l'|eexists (_ :: _), l'; done].
Qed.

(** C20: when guards are dropped in the reverse order of their creation (as
    lexical scopes do), a CPU that holds a lock has its interrupts disabled,
    and a CPU that holds none has the interrupt state it started with. *)
Theorem irqs_off_while_locked enabled s c :
  rtc lifo_step (start enabled) s →
  (guards s c ≠ [] → irq s c = false) ∧ (guards s c = [] → irq s c = enabled c).
Proof.
  intros Hr. assert (Hi : ∀ c, irq_ok enabled s c).
  { remember (start enabled) as s0 eqn:E. assert (H0 : ∀ c, irq_ok enabled s0 c) by (by rewrite E). clear E.
    induction Hr as [|s0 s1 s2 H1 _ IH]; [done|]. apply IH. by eapply lifo_step_irq. }
  specialize (Hi c). unfold irq_ok in Hi. destruct (guards s c); [done|]. split; [by destruct Hi|done].
Qed.

(** Dropped in another order, the guards do not keep interrupts disabled:
    with two locks taken and the first guard dropped first, interrupts are on
    while the second lock is held. The documentation says they stay disabled
    for the whole life of a guard. *)
Theorem out_of_order_drop_enables_irqs :
  let s := (try_lock 0 2 (try_lock 0 1 (start (λ _, true))).1).1 in
  ∃ s', drop_guard 0 1 s = Some s' ∧ is_locked 2 s' = true ∧ irq s 0 = false ∧ irq s' 0 = true.
Proof. eexists. split; [reflexivity|]. vm_compute. done. Qed.

(** ** [lock] *)

Lemma lock_loop_run n : ∀ others c l s,
  (∀ k s', (k < n)%nat → l ∈ locked s' → l ∈ locked (others k s')) → l ∈ locked s →
  (lock_loop n others c l s).2 = Stuck.
Proof.
  induction n as [|n IH]; intros others c l s Ho Hl; [done|]. simpl.
  destruct (try_lock_fail c l (others n s)) as (Ef & El & _ & _); [apply Ho; [lia|done]|].
  destruct (try_lock c l (others n s)) as [s1 b]. simpl in *. subst b.
  apply IH; [intros; apply Ho; [lia|done]|]. rewrite El. apply Ho; [lia|done].
Qed.

(** [lock] is not a spinlock: after 100 attempts during which no other CPU
    released the lock it panics, so a lock taken twice by one CPU panics, and
    so does one that another CPU holds for longer than 100 attempts. On a free
    lock it succeeds at the first attempt. The documentation says it spins
    until the lock is free. *)
Theorem lock_panics_when_held others c l s :
  (l ∈ locked s → (∀ k s', (k < 100)%nat → l ∈ locked s' → l ∈ locked (others k s')) →
   (lock others c l s).2 = Stuck) ∧
  (l ∉ locked (others 99 s) → (lock others c l s).2 = Ok tt).
Proof.
  split; [intros Hl Ho; by apply lock_loop_run|]. intros Hl. unfold lock. simpl.
  by rewrite try_lock_eq, bool_decide_eq_false_2.
Qed.

(** ** Concrete runs *)

Lemma mutual_exclusion_witness :
  let s := (try_lock 1 7 (try_lock 0 7 (start (λ _, true))).1).1 in
  (∀ l, is_locked l s = true ↔ ∃ c i, holds s c i l) ∧ is_locked 7 s = true ∧ guards s 1 = [].
Proof.
  intros s. split; [|by vm_compute].
  apply (mutual_exclusion (λ _, true) s).
  eapply rtc_l; [apply (step_try 0 7)|]. eapply rtc_l; [apply (step_try 1 7)|]. apply rtc_refl.
Defined.

Lemma irqs_off_while_locked_witness :
  let s := (try_lock 0 8 (try_lock 0 7 (start (λ _, true))).1).1 in
  irq s 0 = false ∧ irq s 1 = true.
Proof.
  intros s. assert (Hr : rtc lifo_step (start (λ _, true)) s).
  { eapply rtc_l; [apply (lifo_try 0 7)|]. eapply rtc_l; [apply (lifo_try 0 8)|]. apply rtc_refl. }
  split.
  - apply (irqs_off_while_locked (λ _, true) s 0 Hr). by vm_compute.
  - apply (irqs_off_while_locked (λ _, true) s 1 Hr). by vm_compute.
Defined.
