(* ===== verification/Heap.v ===== *)
(** * The kernel heap

    crates/sparreal-kernel/src/os/mem/allocator.rs: two heaps, one for memory
    whose physical addresses fit 32 bits and one for the rest, behind the
    global allocator, the DMA allocator and the frame allocator of the kernel
    page table; and [init_heap] of os/mem/mod.rs, which feeds them. The buddy
    heaps are a parameter: the class [BuddyHeap] is the interface of
    buddy_system_allocator, its laws say which memory a heap manages. The
    translation of addresses ([virt_to_phys], [__va]) is a parameter too. *)

From stdpp Require Import base list numbers relations.
From S2P Require Import Prelude PtDef RangesExt Memory.
Open Scope Z_scope.

(** [Heap::empty], [add_to_heap], [alloc] and [dealloc] of a layout. *)
Class BuddyHeap (H : Type) : Type := {
  heap_empty : H;
  add_to_heap : H → Z → Z → H;
  heap_alloc : H → Z → Z → H * option Z;
  heap_dealloc : H → Z → Z → Z → H
}.

(** [managed h x]: address [x] was added to the heap. *)
Class BuddyHeapLaws (H : Type) `{BuddyHeap H} (managed : H → Z → Prop) : Prop := {
  managed_empty x : ¬ managed heap_empty x;
  managed_add h lo hi x : managed (add_to_heap h lo hi) x ↔ managed h x ∨ lo ≤ x < hi;
  managed_alloc h size align h' o x : heap_alloc h size align = (h', o) → managed h' x ↔ managed h x;
  alloc_managed h size align h' p : heap_alloc h size align = (h', Some p) → managed h p;
  managed_dealloc h p size align x : managed (heap_dealloc h p size align) x ↔ managed h x
}.

Section Heap.
Context {H : Type} `{BH : BuddyHeap H}.
(** [PhysAddr::from(VirtAddr)] and [__va]. *)
Context (v2p p2v : Z → Z).

Record KernelMemoryAllocator : Type := mk_KernelMemoryAllocator {
  low_address_heap : H;
  high_address_heap : H
}.
Notation KMA := KernelMemoryAllocator.

Definition kma_new : KMA := mk_KernelMemoryAllocator heap_empty heap_empty.

(** [address_range_fits_in_32bit] and [pointer_fits_in_32bit]. *)
Definition address_range_fits_in_32bit (start end_ : Z) : bool :=
  if end_ <=? start then false
  else (v2p start <=? u32_max) && (v2p (end_ - 1) <=? u32_max).
Definition pointer_fits_in_32bit (ptr : Z) : bool := v2p ptr <=? u32_max.

(** [add_memory_region]. *)
Definition add_memory_region (start end_ : Z) (a : KMA) : KMA :=
  if address_range_fits_in_32bit start end_
  then mk_KernelMemoryAllocator (add_to_heap (low_address_heap a) start end_) (high_address_heap a)
  else mk_KernelMemoryAllocator (low_address_heap a) (add_to_heap (high_address_heap a) start end_).

(** [try_alloc] on each heap. *)
Definition try_alloc_low (size align : Z) (a : KMA) : KMA * option Z :=
  let '(h, o) := heap_alloc (low_address_heap a) size align in
  (mk_KernelMemoryAllocator h (high_address_heap a), o).
Definition try_alloc_high (size align : Z) (a : KMA) : KMA * option Z :=
  let '(h, o) := heap_alloc (high_address_heap a) size align in
  (mk_KernelMemoryAllocator (low_address_heap a) h, o).

(** [try_alloc(high).or_else(|| try_alloc(low))]. *)
Definition alloc_high_first (size align : Z) (a : KMA) : KMA * option Z :=
  match try_alloc_high size align a with
  | (a', Some p) => (a', Some p)
  | (a', None) => try_alloc_low size align a'
  end.

(** [GlobalAlloc::alloc], [alloc_with_mask]; a null pointer is [None]. *)
Definition kma_alloc (size align : Z) (a : KMA) : KMA * option Z := alloc_high_first size align a.
Definition alloc_with_mask (size align dma_mask : Z) (a : KMA) : KMA * option Z :=
  if dma_mask <=? u32_max then try_alloc_low size align a
  else alloc_high_first size align a.

(** [GlobalAlloc::dealloc] and [dealloc_raw]. *)
Definition kma_dealloc (ptr size align : Z) (a : KMA) : KMA :=
  if pointer_fits_in_32bit ptr
  then mk_KernelMemoryAllocator (heap_dealloc (low_address_heap a) ptr size align) (high_address_heap a)
  else mk_KernelMemoryAllocator (low_address_heap a) (heap_dealloc (high_address_heap a) ptr size align).

(** [impl FrameAllocator for KernelAllocator]: frames come from the low heap. *)
Definition kernel_alloc_frame (page_size : Z) (a : KMA) : KMA * option Z :=
  let '(a', o) := try_alloc_low page_size page_size a in (a', v2p <$> o).
Definition kernel_dealloc_frame (page_size frame : Z) (a : KMA) : KMA :=
  mk_KernelMemoryAllocator
    (heap_dealloc (low_address_heap a) (p2v frame) page_size page_size) (high_address_heap a).

(** os/mem/mod.rs: [init_heap]. [align_up] and [align_down] are those of the
    address newtypes (kernutil/src/id.rs). *)
Definition addr_align_up {E} (x align : Z) : outcome E Z :=
  t ← uadd 64 x align;
  t' ← usub t 1;
  Ok (Z.land t' (unot 64 (align - 1))).
Definition addr_align_down (x align : Z) : Z := Z.land x (unot 64 (align - 1)).

Fixpoint init_heap (page_size : Z) (regions : list MemoryDescriptor) : M KMA Empty_set unit :=
  match regions with
  | [] => mret tt
  | region :: rest =>
      _ ← (if bool_decide (memory_type region = Free) then
             start ← lift (addr_align_up (physical_start region) page_size);
             last ← lift (uadd 64 (physical_start region) (size_in_bytes region));
             let end_ := addr_align_down last page_size in
             size ← lift (usub end_ start);
             if size =? 0 then mret tt
             else modify (add_memory_region (p2v start) (p2v start + size))
           else mret tt);
      init_heap page_size rest
  end.

(** ** Routing *)

Context (managed : H → Z → Prop) {BL : BuddyHeapLaws H managed}.

(** The low heap has only memory below 4 GB, the high heap only above. *)
Definition routed (a : KMA) : Prop :=
  (∀ x, managed (low_address_heap a) x → pointer_fits_in_32bit x = true) ∧
  (∀ x, managed (high_address_heap a) x → pointer_fits_in_32bit x = false).

(** A region that is all below or all above 4 GB. *)
Definition one_sided (start end_ : Z) : Prop :=
  (∀ x, start ≤ x < end_ → pointer_fits_in_32bit x = true) ∨
  (∀ x, start ≤ x < end_ → pointer_fits_in_32bit x = false).

Lemma routed_new : routed kma_new.
Proof. split; intros x Hx; by apply managed_empty in Hx. Qed.

Lemma routed_add start end_ a : routed a → one_sided start end_ → routed (add_memory_region start end_ a).
Proof.
  intros [Hl Hh] Hs. unfold add_memory_region, address_range_fits_in_32bit.
  destruct (Z.leb_spec end_ start).
  { split; simpl; [done|]. intros x. rewrite managed_add. intros [?|?]; [auto|lia]. }
  destruct Hs as [Hs|Hs].
  - pose proof (Hs start ltac:(lia)) as H1. pose proof (Hs (end_ - 1) ltac:(lia)) as H2.
    unfold pointer_fits_in_32bit in H1, H2. rewrite H1, H2. simpl.
    split; simpl; [|done]. intros x. rewrite managed_add. intros [?|?]; auto.
  - pose proof (Hs start ltac:(lia)) as H1. unfold pointer_fits_in_32bit in H1. rewrite H1. simpl.
    split; simpl; [done|]. intros x. rewrite managed_add. intros [?|?]; auto.
Qed.

Lemma routed_low size align a a' o : routed a → try_alloc_low size align a = (a', o) →
  routed a' ∧ (∀ p, o = Some p → pointer_fits_in_32bit p = true).
Proof.
  intros [Hl Hh]. unfold try_alloc_low.
  destruct (heap_alloc (low_address_heap a) size align) as [h o'] eqn:E. intros [= <- <-].
  split; [split; simpl; [|done]|].
  - intros x Hx. apply Hl. by rewrite <- (managed_alloc _ _ _ _ _ x E).
  - intros p ->. apply Hl. by eapply alloc_managed.
Qed.

Lemma routed_high size align a a' o : routed a → try_alloc_high size align a = (a', o) →
  routed a' ∧ (∀ p, o = Some p → pointer_fits_in_32bit p = false).
Proof.
  intros [Hl Hh]. unfold try_alloc_high.
  destruct (heap_alloc (high_address_heap a) size align) as [h o'] eqn:E. intros [= <- <-].
  split; [split; simpl; [done|]|].
  - intros x Hx. apply Hh. by rewrite <- (managed_alloc _ _ _ _ _ x E).
  - intros p ->. apply Hh. by eapply alloc_managed.
Qed.

Lemma routed_dealloc ptr size align a : routed a → routed (kma_dealloc ptr size align a).
Proof.
  intros [Hl Hh]. unfold kma_dealloc. destruct (pointer_fits_in_32bit ptr);
    split; simpl; try done; intros x; rewrite managed_dealloc; auto.
Qed.

(** The operations, in any order. *)
Inductive heap_op : KMA → KMA → Prop :=
| op_add start end_ a : one_sided start end_ → heap_op a (add_memory_region start end_ a)
| op_alloc size align a : heap_op a (kma_alloc size align a).1
| op_mask size align mask a : heap_op a (alloc_with_mask size align mask a).1
| op_dealloc p size align a : heap_op a (kma_dealloc p size align a)
| op_frame page a : heap_op a (kernel_alloc_frame page a).1.

Lemma alloc_high_first_spec size align a : routed a →
  routed (alloc_high_first size align a).1.
Proof.
  intros Ha. unfold alloc_high_first. destruct (try_alloc_high size align a) as [a1 [p|]] eqn:E1;
    destruct (routed_high _ _ _ _ _ Ha E1) as [H1 _]; [done|].
  destruct (try_alloc_low size align a1) as [a2 o] eqn:E2. by destruct (routed_low _ _ _ _ _ H1 E2).
Qed.

Lemma heap_op_routed a a' : heap_op a a' → routed a → routed a'.
Proof.
  intros [start end_ a0 Hs|size align a0|size align mask a0|p size align a0|page a0] Ha.
  - by apply routed_add.
  - by apply alloc_high_first_spec.
  - unfold alloc_with_mask. case_if; [|by apply alloc_high_first_spec].
    destruct (try_alloc_low size align a0) as [a1 o] eqn:E. by destruct (routed_low _ _ _ _ _ Ha E).
  - by apply routed_dealloc.
  - unfold kernel_alloc_frame. destruct (try_alloc_low page page a0) as [a1 o] eqn:E.
    by destruct (routed_low _ _ _ _ _ Ha E).
Qed.

(** The two heaps never mix. As long as no region added to the allocator
    crosses 4 GB, in every reachable state a block is freed into the heap it
    was taken from: a block of the low heap has a pointer that fits 32 bits,
    one of the high heap has not, and DMA blocks with a 32-bit mask are below
    4 GB. *)
Theorem blocks_return_to_their_heap a size align mask a' p :
  rtc heap_op kma_new a →
  (try_alloc_low size align a = (a', Some p) → pointer_fits_in_32bit p = true) ∧
  (try_alloc_high size align a = (a', Some p) → pointer_fits_in_32bit p = false) ∧
  (mask ≤ u32_max → alloc_with_mask size align mask a = (a', Some p) → v2p p ≤ u32_max).
Proof.
  intros Hr. assert (Ha : routed a).
  { remember kma_new as a0 eqn:E. assert (H0 : routed a0) by (rewrite E; apply routed_new). clear E.
    induction Hr as [|a0 a1 a2 H1 _ IH]; [done|]. apply IH. by eapply heap_op_routed. }
  split_and!.
  - intros E. by eapply routed_low.
  - intros E. by eapply routed_high.
  - intros Hm. unfold alloc_with_mask. rewrite (proj2 (Z.leb_le _ _)) by done. intros E.
    apply Z.leb_le. by eapply routed_low.
Qed.

(** ** Feeding the heaps *)

Definition kma_managed (a : KMA) (x : Z) : Prop :=
  managed (low_address_heap a) x ∨ managed (high_address_heap a) x.

Lemma kma_managed_add start end_ a x :
  kma_managed (add_memory_region start end_ a) x ↔ kma_managed a x ∨ start ≤ x < end_.
Proof. unfold add_memory_region, kma_managed. case_if; simpl; rewrite managed_add; tauto. Qed.

Lemma addr_align_up_spec {E} x k y : 0 ≤ k → 0 ≤ x → addr_align_up (E:=E) x (2 ^ k) = Ok y → x ≤ y.
Proof.
  intros Hk Hx. pose proof (pow2_pos k Hk). unfold addr_align_up, uadd, usub.
  destruct (Z.ltb_spec (x + 2 ^ k) (2 ^ 64)); simpl; [|done].
  destruct (Z.leb_spec 1 (x + 2 ^ k)); simpl; [|done]. intros [= <-].
  assert (k < 64) by (apply (Z.pow_lt_mono_r_iff 2); lia).
  pose proof (mask_down_pow 64 (x + 2 ^ k - 1) k ltac:(lia) ltac:(lia)) as E1. unfold mask_down in E1.
  rewrite E1. pose proof (Z.mod_pos_bound (x + 2 ^ k - 1) (2 ^ k) ltac:(done)). lia.
Qed.

Lemma addr_align_down_le x k : 0 ≤ k ≤ 64 → 0 ≤ x < 2 ^ 64 → addr_align_down x (2 ^ k) ≤ x.
Proof.
  intros Hk Hx. pose proof (mask_down_pow 64 x k Hk Hx) as E1. unfold mask_down in E1.
  unfold addr_align_down. rewrite E1. pose proof (Z.mod_pos_bound x (2 ^ k) ltac:(apply pow2_pos; lia)). lia.
Qed.

Context (off : Z) (Hoff : ∀ y, p2v y = y + off).

(** The heap only gets free memory: after [init_heap] every address the
    heaps manage was managed before or lies, under the linear map, inside a
    region of the memory map that is marked [Free]. *)
Theorem init_heap_only_free k regions : ∀ a a',
  0 ≤ k ≤ 30 → Forall (λ r, 0 ≤ physical_start r ∧ 0 ≤ size_in_bytes r) regions →
  init_heap (2 ^ k) regions a = (a', Ok tt) →
  ∀ x, kma_managed a' x → kma_managed a x ∨
    ∃ r y, r ∈ regions ∧ memory_type r = Free ∧ x = y + off ∧
      physical_start r ≤ y < physical_start r + size_in_bytes r.
Proof.
  induction regions as [|r rest IH]; intros a a' Hk Hall; simpl.
  { unfold mret, M_ret. intros [= <-]. by left. }
  inversion_clear Hall as [|r1 rest1 [Hs Hz] Hall']. unfold mbind, M_bind. case_bool_decide as Hf.
  2:{ simpl. intros Hr x Hx. destruct (IH _ _ Hk Hall' Hr x Hx) as [?|(r' & y & ? & ?)]; [by left|right].
      exists r', y. split; [by apply list_elem_of_further|done]. }
  unfold lift. destruct (addr_align_up (physical_start r) (2 ^ k)) as [start| |] eqn:Es; [|intros [=]..].
  apply addr_align_up_spec in Es; [|lia|done].
  destruct (uadd 64 (physical_start r) (size_in_bytes r)) as [last| |] eqn:El; [|intros [=]..].
  unfold uadd in El. case_if; inv_ok.
  pose proof (addr_align_down_le (physical_start r + size_in_bytes r) k ltac:(lia) ltac:(lia)).
  set (e := addr_align_down (physical_start r + size_in_bytes r) (2 ^ k)) in *.
  unfold usub. destruct (Z.leb_spec start e); [|intros [=]].
  assert (Hgo : ∀ a1, (∀ x, kma_managed a1 x → kma_managed a x ∨ start + off ≤ x < e + off) →
    init_heap (2 ^ k) rest a1 = (a', Ok tt) → ∀ x, kma_managed a' x → kma_managed a x ∨
    ∃ r0 y, r0 ∈ r :: rest ∧ memory_type r0 = Free ∧ x = y + off ∧
      physical_start r0 ≤ y < physical_start r0 + size_in_bytes r0).
  { intros a1 Hadd Hr x Hx. destruct (IH _ _ Hk Hall' Hr x Hx) as [Hx1|(r' & y & ? & ?)].
    - destruct (Hadd x Hx1) as [?|?]; [by left|right]. exists r, (x - off).
      split_and!; [apply list_elem_of_here|done|lia..].
    - right. exists r', y. split; [by apply list_elem_of_further|done]. }
  destruct (Z.eqb_spec (e - start) 0); [apply Hgo; by left|].
  unfold modify. apply Hgo. intros x. rewrite kma_managed_add, Hoff. intros [?|?]; [by left|right; lia].
Qed.

End Heap.
Arguments KernelMemoryAllocator : clear implicits.

(** ** A bump heap, to evaluate *)

(** Regions [(lo, cur, hi)]: a block is taken at [cur]. *)
Definition BumpHeap : Type := list (Z * Z * Z).

Fixpoint bump_alloc (h : BumpHeap) (size align : Z) : BumpHeap * option Z :=
  match h with
  | [] => ([], None)
  | (lo, cur, hi) :: h' =>
      if (lo <=? cur) && (0 <? size) && (cur + size <=? hi)
      then ((lo, cur + size, hi) :: h', Some cur)
      else let '(h'', o) := bump_alloc h' size align in ((lo, cur, hi) :: h'', o)
  end.

#[export] Instance bump_heap : BuddyHeap BumpHeap := {
  heap_empty := [];
  add_to_heap h lo hi := h ++ [(lo, lo, hi)];
  heap_alloc := bump_alloc;
  heap_dealloc h _ _ _ := h
}.

Definition bump_managed (h : BumpHeap) (x : Z) : Prop := ∃ lo cur hi, (lo, cur, hi) ∈ h ∧ lo ≤ x < hi.

Lemma bump_managed_cons lo cur hi h x :
  bump_managed ((lo, cur, hi) :: h) x ↔ lo ≤ x < hi ∨ bump_managed h x.
Proof.
  unfold bump_managed. setoid_rewrite elem_of_cons. split.
  - intros (? & ? & ? & [[= -> -> ->]|?] & ?); [by left|right; eauto 10].
  - intros [?|(? & ? & ? & ? & ?)]; [eauto 10|eauto 10].
Qed.

#[export] Instance bump_laws : BuddyHeapLaws BumpHeap bump_managed.
Proof.
  split.
  - intros x (? & ? & ? & []%not_elem_of_nil & _).
  - intros h lo hi x. simpl. unfold bump_managed. setoid_rewrite elem_of_app. setoid_rewrite list_elem_of_singleton.
    split.
    + intros (? & ? & ? & [?|[= -> -> ->]] & ?); [left; eauto 10|by right].
    + intros [(? & ? & ? & ? & ?)|?]; eauto 10.
  - simpl. induction h as [|[[lo cur] hi] h IH]; intros size align h' o x; simpl; [by intros [= <- _]|].
    destruct (_ && _); [intros [= <- _]; by rewrite !bump_managed_cons|].
    destruct (bump_alloc h size align) as [h1 o1] eqn:E. intros [= <- _].
    rewrite !bump_managed_cons. by rewrite (IH _ _ _ _ x E).
  - simpl. induction h as [|[[lo cur] hi] h IH]; intros size align h' p; simpl; [done|].
    destruct ((lo <=? cur) && (0 <? size) && (cur + size <=? hi)) eqn:E; rewrite bump_managed_cons.
    + intros [= _ <-]. bool_to_prop. left. lia.
    + destruct (bump_alloc h size align) as [h1 o1] eqn:E1. intros [= _ ->]. right. by eapply IH.
  - done.
Qed.

Notation BumpKMA := (KernelMemoryAllocator BumpHeap).

Lemma blocks_return_to_their_heap_witness :
  let a := add_memory_region (λ x, x) 0x200000000 0x200100000
             (add_memory_region (λ x, x) 0x100000 0x200000 (kma_new : BumpKMA)) in
  ∃ a', try_alloc_low 64 8 a = (a', Some 0x100000) ∧ pointer_fits_in_32bit (λ x, x) 0x100000 = true.
Proof.
  intros a. exists (try_alloc_low 64 8 a).1.
  assert (E : try_alloc_low 64 8 a = ((try_alloc_low 64 8 a).1, Some 0x100000)) by (vm_compute; reflexivity).
  split; [exact E|].
  destruct (blocks_return_to_their_heap (λ x, x) bump_managed a 64 8 0 (try_alloc_low 64 8 a).1 0x100000)
    as [HL _]; [|exact (HL E)].
  eapply rtc_l; [apply (op_add (λ x, x) 0x100000 0x200000)|].
  { left. intros x Hx. apply Z.leb_le. unfold u32_max. lia. }
  eapply rtc_l; [apply (op_add (λ x, x) 0x200000000 0x200100000)|apply rtc_refl].
  right. intros x Hx. apply Z.leb_gt. unfold u32_max. lia.
Defined.

Lemma init_heap_only_free_witness :
  let regions := [mk_MemoryDescriptor 0x1000 0x3000 Free; mk_MemoryDescriptor 0x4000 0x1000 Reserved] in
  let a' : BumpKMA := mk_KernelMemoryAllocator [(0x1000, 0x1000, 0x4000)] [] in
  init_heap (λ x, x) (λ x, x) (2 ^ 12) regions kma_new = (a', Ok tt) ∧
  ∀ x, kma_managed bump_managed a' x → kma_managed bump_managed kma_new x ∨
    ∃ r y, r ∈ regions ∧ memory_type r = Free ∧ x = y + 0 ∧
      physical_start r ≤ y < physical_start r + size_in_bytes r.
Proof.
  intros regions a'. assert (E : init_heap (λ x, x) (λ x, x) (2 ^ 12) regions kma_new = (a', Ok tt))
    by (vm_compute; reflexivity).
  split; [exact E|]. apply (init_heap_only_free (λ x, x) (λ x, x) bump_managed 0 (λ y, eq_sym (Z.add_0_r y)) 12 regions);
    [lia|repeat constructor; simpl; lia|exact E].
Defined.

(** A region that crosses 4 GB mixes the heaps: it goes to the high heap
    as a whole, and a block of it below 4 GB is freed into the low heap. The
    memory map is not split at 4 GB before it is given to the allocator. *)
Theorem crossing_region_misroutes :
  let a := add_memory_region (λ x, x) 0xfff00000 0x100100000 (kma_new : BumpKMA) in
  low_address_heap a = [] ∧
  (kma_alloc 64 8 a).2 = Some 0xfff00000 ∧ pointer_fits_in_32bit (λ x, x) 0xfff00000 = true.
Proof. vm_compute. done. Qed.

(** A free region that contains no page boundary stops the boot: its start
    is rounded up past its end rounded down, and the subtraction underflows. *)
Theorem init_heap_small_region_panics :
  (init_heap (λ x, x) (λ x, x) 4096 [mk_MemoryDescriptor 0x1100 0x100 Free] (kma_new : BumpKMA)).2 = Stuck.
Proof. vm_compute. reflexivity. Qed.
