(* ===== verification/Dma.v ===== *)
(** * DMA memory

    crates/dma-api: handles, layouts and errors (def.rs), the device interface
    (lib.rs), cache maintenance and bounce buffers (osal/mod.rs), the
    containers [DCommon], [DArray], [DBox], [SArrayPtr] (common.rs, array.rs,
    dbox.rs, map_single.rs) and the buffer pool (pool.rs); and the kernel's
    implementation [KernelDmaOp] (sparreal-kernel/src/os/mem/dma.rs).

    The machine has memory, which is what a device sees, and a write-back
    cache in front of it, which is what the CPU sees: the model of a machine
    where [flush] (clean) and [invalidate] matter. Both are byte-wise maps: two
    buffers do not share a cache line. Elements of a typed buffer are their
    bytes. *)

From stdpp Require Import base list numbers gmap.
From S2P Require Import Prelude Heap.
Open Scope Z_scope.

(** ** The machine *)

Record Mach : Type := mk_Mach { ram : gmap Z Z; cache : gmap Z Z }.

(** Bytes [bs] written at [a]. *)
Fixpoint write_map (a : Z) (bs : list Z) (g : gmap Z Z) : gmap Z Z :=
  match bs with
  | [] => g
  | b :: bs => write_map (a + 1) bs (<[a := b]> g)
  end.

Definition dev_at (m : Mach) (x : Z) : Z := default 0 (ram m !! x).
Definition cpu_at (m : Mach) (x : Z) : Z := default (dev_at m x) (cache m !! x).

Definition cpu_load (a n : Z) (m : Mach) : list Z := cpu_at m <$> seqZ a n.
Definition cpu_store (a : Z) (bs : list Z) (m : Mach) : Mach := mk_Mach (ram m) (write_map a bs (cache m)).
Definition dev_load (a n : Z) (m : Mach) : list Z := dev_at m <$> seqZ a n.
Definition dev_store (a : Z) (bs : list Z) (m : Mach) : Mach := mk_Mach (write_map a bs (ram m)) (cache m).

Definition in_area (a n x : Z) : bool := (a <=? x) && (x <? a + n).

(** osal/mod.rs: [flush], [invalidate], [flush_invalidate]. *)
Definition flush (a n : Z) (m : Mach) : Mach :=
  mk_Mach (filter (λ p, in_area a n p.1 = true) (cache m) ∪ ram m) (cache m).
Definition invalidate (a n : Z) (m : Mach) : Mach :=
  mk_Mach (ram m) (filter (λ p, in_area a n p.1 = false) (cache m)).
Definition flush_invalidate (a n : Z) (m : Mach) : Mach := invalidate a n (flush a n m).

(** ** def.rs *)

Inductive DmaDirection : Type := ToDevice | FromDevice | Bidirectional.

Record Layout : Type := mk_Layout { l_size : Z; l_align : Z }.

Record DmaHandle : Type := mk_DmaHandle {
  cpu_addr : Z;
  dma_addr : Z;
  layout : Layout
}.

Record DmaMapHandle : Type := mk_DmaMapHandle {
  handle : DmaHandle;
  map_alloc_virt : option Z
}.

Inductive DmaError : Type :=
| NoMemory
| LayoutError
| DmaMaskNotMatch (addr mask : Z)
| AlignMismatch (required address : Z)
| NullPointer
| ZeroSizedBuffer.

#[export] Instance DmaDirection_eq_dec : EqDecision DmaDirection.
Proof. solve_decision. Defined.
#[export] Instance Layout_eq_dec : EqDecision Layout.
Proof. solve_decision. Defined.
#[export] Instance DmaHandle_eq_dec : EqDecision DmaHandle.
Proof. solve_decision. Defined.

Definition h_size (h : DmaHandle) : Z := l_size (layout h).
Definition h_align (h : DmaHandle) : Z := l_align (layout h).

(** [Layout::from_size_align]: a power of two, and the size rounded up to it
    fits an [isize]. *)
Definition from_size_align (size align : Z) : outcome DmaError Layout :=
  if is_power_of_two align && (size <=? 2 ^ 63 - align) then Ok (mk_Layout size align)
  else Err LayoutError.

(** ** osal/mod.rs: the platform's operations

    [A] is the state of the platform's allocator. *)
Class DmaOp (A : Type) : Type := {
  map_single_op : Z → Z → Z → Z → DmaDirection → A → A * outcome DmaError DmaMapHandle;
  unmap_single_op : DmaMapHandle → A → A;
  alloc_coherent_op : Z → Layout → Mach * A → (Mach * A) * option DmaHandle;
  dealloc_coherent_op : DmaHandle → A → A
}.

Definition from_device (d : DmaDirection) : bool :=
  match d with FromDevice | Bidirectional => true | _ => false end.
Definition to_device (d : DmaDirection) : bool :=
  match d with ToDevice | Bidirectional => true | _ => false end.

(** The bounce buffer of a mapping, when it has one. *)
Definition bounce (h : DmaMapHandle) : option Z :=
  match map_alloc_virt h with
  | Some virt => if virt =? cpu_addr (handle h) then None else Some virt
  | None => None
  end.

(** [DmaOp::prepare_read]. *)
Definition os_prepare_read (h : DmaMapHandle) (offset size : Z) (dir : DmaDirection) (m : Mach) : Mach :=
  if from_device dir then
    let origin_ptr := cpu_addr (handle h) + offset in
    match bounce h with
    | Some virt =>
        let map_ptr := virt + offset in
        let m := invalidate map_ptr size m in
        cpu_store origin_ptr (cpu_load map_ptr size m) m
    | None => invalidate origin_ptr size m
    end
  else m.

(** [DmaOp::confirm_write]. *)
Definition os_confirm_write (h : DmaMapHandle) (offset size : Z) (dir : DmaDirection) (m : Mach) : Mach :=
  if to_device dir then
    let ptr := cpu_addr (handle h) + offset in
    let m :=
      match bounce h with
      | Some virt => cpu_store (virt + offset) (cpu_load ptr size m) m
      | None => m
      end in
    flush ptr size m
  else m.

Section DeviceDma.
Context {A : Type} `{DmaOp A}.
(** [DeviceDma::dma_mask]. *)
Context (mask : Z).

Notation DM := (M (Mach * A) DmaError).

Definition on_mach (f : Mach → Mach) : DM unit := modify (λ s, (f s.1, s.2)).
Definition on_alloc (f : A → A) : DM unit := modify (λ s, (s.1, f s.2)).

(** ** lib.rs: [DeviceDma] *)

Definition check_handle (h : DmaHandle) : outcome DmaError unit :=
  let addr := dma_addr h in
  let in_mask :=
    if h_size h =? 0 then addr <=? mask
    else match checked_add 64 addr (saturating_sub (h_size h) 1) with
         | Some end_ => end_ <=? mask
         | None => false
         end in
  if negb in_mask then Err (DmaMaskNotMatch (dma_addr h) mask)
  else if negb (is_multiple_of (dma_addr h) (h_align h)) then Err (AlignMismatch (h_align h) (dma_addr h))
  else Ok tt.

Definition dealloc_coherent (h : DmaHandle) : DM unit := on_alloc (dealloc_coherent_op h).

Definition alloc_coherent (l : Layout) : DM DmaHandle := λ s,
  match alloc_coherent_op mask l s with
  | (s', None) => (s', Err NoMemory)
  | (s', Some res) =>
      match check_handle res with
      | Ok _ => (s', Ok res)
      | Err e => (_ ← dealloc_coherent res; fail e) s'
      | Stuck => (s', Stuck)
      end
  end.

Definition unmap_single (h : DmaMapHandle) : DM unit := on_alloc (unmap_single_op h).

Definition _map_single (addr size align : Z) (dir : DmaDirection) : DM DmaMapHandle := λ s,
  match map_single_op mask addr size align dir s.2 with
  | (a', Ok res) =>
      match check_handle (handle res) with
      | Ok _ => ((s.1, a'), Ok res)
      | Err e => (_ ← unmap_single res; fail e) (s.1, a')
      | Stuck => ((s.1, a'), Stuck)
      end
  | (a', Err e) => ((s.1, a'), Err e)
  | (a', Stuck) => ((s.1, a'), Stuck)
  end.

(** ** common.rs: [DCommon] *)

Record DCommon : Type := mk_DCommon { dc_handle : DmaMapHandle; direction : DmaDirection }.

Definition dc_size (c : DCommon) : Z := h_size (handle (dc_handle c)).
Definition dc_cpu (c : DCommon) : Z := cpu_addr (handle (dc_handle c)).
Definition dc_dma (c : DCommon) : Z := dma_addr (handle (dc_handle c)).

Definition dc_new_zero (l : Layout) (dir : DmaDirection) : DM DCommon :=
  h ← alloc_coherent l;
  _ ← on_mach (cpu_store (cpu_addr h) (replicate (Z.to_nat (h_size h)) 0));
  _ ← on_mach (flush_invalidate (cpu_addr h) (h_size h));
  mret (mk_DCommon (mk_DmaMapHandle h None) dir).

Definition dc_prepare_read (c : DCommon) (offset size : Z) : DM unit :=
  on_mach (os_prepare_read (dc_handle c) offset size (direction c)).
Definition dc_confirm_write (c : DCommon) (offset size : Z) : DM unit :=
  on_mach (os_confirm_write (dc_handle c) offset size (direction c)).

Definition dc_drop (c : DCommon) : DM unit :=
  if 0 <? dc_size c then dealloc_coherent (handle (dc_handle c)) else mret tt.

Definition load (a n : Z) : DM (list Z) := λ s, (s, Ok (cpu_load a n s.1)).
Definition store (a : Z) (bs : list Z) : DM unit := on_mach (cpu_store a bs).

(** [assert!]. *)
Definition assert_ (b : bool) : DM unit := if b then mret tt else stuck.

(** ** array.rs: [DArray<T>]

    [es] and [ea] are the size and the alignment of [T]. *)
Section DArray.
Context (es ea : Z).

Definition new_zero_with_align (size align : Z) (dir : DmaDirection) : DM DCommon :=
  bytes ← lift (umul 64 size es);
  l ← lift (from_size_align bytes (Z.max align ea));
  dc_new_zero l dir.

Definition array_len (c : DCommon) : Z := dc_size c / es.

Definition array_read (c : DCommon) (index : Z) : DM (option (list Z)) :=
  if array_len c <=? index then mret None
  else
    _ ← dc_prepare_read c (index * es) es;
    v ← load (dc_cpu c + index * es) es;
    mret (Some v).

Definition array_set (c : DCommon) (index : Z) (value : list Z) : DM unit :=
  _ ← assert_ (index <? array_len c);
  _ ← store (dc_cpu c + index * es) value;
  dc_confirm_write c (index * es) es.

(** [iter().collect()]. *)
Fixpoint array_iter (c : DCommon) (index : Z) (fuel : nat) : DM (list (list Z)) :=
  match fuel with
  | O => mret []
  | S fuel =>
      o ← array_read c index;
      match o with
      | None => mret []
      | Some v => vs ← array_iter c (index + 1) fuel; mret (v :: vs)
      end
  end.

Definition array_to_vec (c : DCommon) : DM (list (list Z)) := array_iter c 0 (Z.to_nat (array_len c)).

Definition copy_from_slice (c : DCommon) (src : list (list Z)) : DM unit :=
  _ ← assert_ (Z.of_nat (length src) <=? array_len c);
  _ ← store (dc_cpu c) (concat src);
  dc_confirm_write c 0 (dc_size c).

(** [prepare_read] and [confirm_write] with their range checks. *)
Definition range_in (c : DCommon) (offset size : Z) : bool :=
  (offset <=? dc_size c) && (size <=? saturating_sub (dc_size c) offset).
Definition array_prepare_read (c : DCommon) (offset size : Z) : DM unit :=
  _ ← assert_ (range_in c offset size); dc_prepare_read c offset size.
Definition array_confirm_write (c : DCommon) (offset size : Z) : DM unit :=
  _ ← assert_ (range_in c offset size); dc_confirm_write c offset size.

Definition prepare_read_all (c : DCommon) : DM unit := dc_prepare_read c 0 (dc_size c).
Definition confirm_write_all (c : DCommon) : DM unit := dc_confirm_write c 0 (dc_size c).

(** [write_with]: [f] rewrites the bytes of the first [len] elements. *)
Definition write_with (c : DCommon) (len : Z) (f : list Z → list Z) : DM unit :=
  _ ← assert_ (len <=? array_len c);
  data ← load (dc_cpu c) (len * es);
  _ ← store (dc_cpu c) (f data);
  array_confirm_write c 0 (len * es).

Definition read_with (c : DCommon) (len : Z) : DM (list Z) :=
  _ ← assert_ (len <=? array_len c);
  _ ← array_prepare_read c 0 (len * es);
  load (dc_cpu c) (len * es).

(** ** dbox.rs: [DBox<T>] *)

Definition box_new_zero_with_align (align : Z) (dir : DmaDirection) : DM DCommon :=
  l ← lift (from_size_align es (Z.max align ea));
  dc_new_zero l dir.

Definition box_read (c : DCommon) : DM (list Z) :=
  _ ← dc_prepare_read c 0 es;
  load (dc_cpu c) es.

Definition box_write (c : DCommon) (value : list Z) : DM unit :=
  _ ← store (dc_cpu c) value;
  dc_confirm_write c 0 es.

Definition box_modify (c : DCommon) (f : list Z → list Z) : DM unit :=
  value ← box_read c;
  box_write c (f value).

(** ** map_single.rs: [SArrayPtr<T>]

    The buffer is the slice at [addr] of [n] elements. *)
Definition map_single (addr n align : Z) (dir : DmaDirection) : DM DCommon :=
  if addr =? 0 then fail NullPointer
  else
    let bytes := n * es in
    if bytes =? 0 then fail ZeroSizedBuffer
    else
      h ← _map_single addr bytes align dir;
      mret (mk_DCommon h dir).

(** [read] and [set] have the bodies of [DArray]'s, on the mapped slice. *)
Definition single_read (c : DCommon) (index : Z) : DM (option (list Z)) := array_read c index.
Definition single_set (c : DCommon) (index : Z) (value : list Z) : DM unit := array_set c index value.

Definition single_copy_from_slice (c : DCommon) (src : list (list Z)) : DM unit :=
  _ ← assert_ (Z.of_nat (length src) * es <=? dc_size c);
  _ ← store (dc_cpu c) (concat src);
  dc_confirm_write c 0 (dc_size c).

Definition single_to_vec (c : DCommon) : DM (list Z) :=
  _ ← dc_prepare_read c 0 (dc_size c);
  load (dc_cpu c) (array_len c * es).

Definition single_drop (c : DCommon) : DM unit := unmap_single (dc_handle c).
End DArray.

(** ** pool.rs: [DArrayPool]

    The shared [Inner] is the list of free buffers; [DArrayConfig] is the
    layout and the direction. *)
Section Pool.
Context (cfg_size cfg_align : Z) (cfg_dir : DmaDirection).

Notation PM := (M (list DCommon * (Mach * A)) DmaError).

(** An operation of the device seen from a state with a pool. *)
Definition dev {X} (f : DM X) : PM X := λ s, let '(d, r) := f s.2 in ((s.1, d), r).

Definition pool_array : DM DCommon := new_zero_with_align 1 1 cfg_size cfg_align cfg_dir.

(** [new_pool]: an allocation that fails is left out. *)
Fixpoint fill_pool (cap : nat) : PM unit :=
  match cap with
  | O => mret tt
  | S cap => λ s,
      match pool_array s.2 with
      | (d, Ok c) => fill_pool cap (s.1 ++ [c], d)
      | (d, Err _) => fill_pool cap (s.1, d)
      | (d, Stuck) => ((s.1, d), Stuck)
      end
  end.

Definition pool_alloc : PM DCommon := λ s,
  match s.1 with
  | c :: rest => ((rest, s.2), Ok c)
  | [] => dev pool_array s
  end.

(** [Drop for DBuff] while the pool exists. *)
Definition buff_drop (c : DCommon) : PM unit := modify (λ s, (s.1 ++ [c], s.2)).
End Pool.
End DeviceDma.

(** ** os/mem/dma.rs: the kernel's operations *)

Section KernelDmaOp.
Context {H : Type} `{BuddyHeap H} (v2p : Z → Z).

Definition KernelDmaOp : DmaOp (@KernelMemoryAllocator H) := {|
  map_single_op dma_mask addr size align _ a :=
    (a, l ← from_size_align size (Z.max align 1);
        let dma := v2p addr in
        if (dma_mask <? dma) || negb (is_multiple_of dma (Z.max align 1))
        then Err (AlignMismatch (Z.max align 1) dma)
        else Ok (mk_DmaMapHandle (mk_DmaHandle addr dma l) None));
  unmap_single_op _ a := a;
  alloc_coherent_op dma_mask l s :=
    match alloc_with_mask (l_size l) (l_align l) dma_mask s.2 with
    | (a, None) => ((s.1, a), None)
    | (a, Some ptr) =>
        let m := cpu_store ptr (replicate (Z.to_nat (l_size l)) 0) s.1 in
        let dma := v2p ptr in
        if (dma_mask <? dma) || negb (is_multiple_of dma (l_align l))
        then ((m, kma_dealloc v2p ptr (l_size l) (l_align l) a), None)
        else ((m, a), Some (mk_DmaHandle ptr dma l))
    end;
  dealloc_coherent_op h a := kma_dealloc v2p (cpu_addr h) (h_size h) (h_align h) a
|}.
End KernelDmaOp.
