(* ===== verification/DmaProof.v ===== *)
(** * DMA memory: proofs

    What the device and the CPU see after the operations of the containers,
    which handles [DeviceDma] lets through, and that the buffers of a pool are
    never shared. *)

From stdpp Require Import base list numbers gmap relations.
From S2P Require Import Prelude Heap Dma.
Open Scope Z_scope.

(** ** The machine *)

#[local] Arguments in_area : simpl never.

Lemma in_area_spec a n x : in_area a n x = true ↔ a ≤ x < a + n.
Proof. unfold in_area. rewrite andb_true_iff, Z.leb_le, Z.ltb_lt. done. Qed.

Lemma write_map_lookup bs : ∀ a g x,
  write_map a bs g !! x =
  if in_area a (Z.of_nat (length bs)) x then bs !! Z.to_nat (x - a) else g !! x.
Proof.
  induction bs as [|b bs IH]; intros a g x; simpl.
  { destruct (in_area _ _ _) eqn:E; [|done]. apply in_area_spec in E. lia. }
  rewrite IH. destruct (decide (x = a)) as [->|Hne].
  - assert (in_area (a + 1) (Z.of_nat (length bs)) a = false) as ->
      by (apply not_true_iff_false; rewrite in_area_spec; lia).
    assert (in_area a (Z.of_nat (S (length bs))) a = true) as -> by (apply in_area_spec; lia).
    by rewrite lookup_insert_eq, Z.sub_diag.
  - assert (in_area (a + 1) (Z.of_nat (length bs)) x = in_area a (Z.of_nat (S (length bs))) x) as ->
      by (apply eq_true_iff_eq; rewrite !in_area_spec; lia).
    rewrite lookup_insert_ne by done. destruct (in_area _ _ _) eqn:E; [|done]. apply in_area_spec in E.
    by replace (Z.to_nat (x - a)) with (S (Z.to_nat (x - (a + 1)))) by lia.
Qed.

Lemma cpu_at_store a bs m x :
  cpu_at (cpu_store a bs m) x =
  if in_area a (Z.of_nat (length bs)) x then default 0 (bs !! Z.to_nat (x - a)) else cpu_at m x.
Proof.
  unfold cpu_at, dev_at. simpl. rewrite write_map_lookup.
  destruct (in_area _ _ _) eqn:E; [|done]. apply in_area_spec in E.
  destruct (lookup_lt_is_Some_2 bs (Z.to_nat (x - a))) as [b ->]; [lia|done].
Qed.

Lemma dev_at_store a bs m x : dev_at (cpu_store a bs m) x = dev_at m x.
Proof. done. Qed.

Lemma dev_at_dev_store a bs m x :
  dev_at (dev_store a bs m) x =
  if in_area a (Z.of_nat (length bs)) x then default 0 (bs !! Z.to_nat (x - a)) else dev_at m x.
Proof. unfold dev_at. simpl. rewrite write_map_lookup. by destruct (in_area _ _ _). Qed.

Lemma filter_area a n t (g : gmap Z Z) x :
  filter (λ p, in_area a n p.1 = t) g !! x = if Bool.eqb (in_area a n x) t then g !! x else None.
Proof.
  rewrite map_lookup_filter. destruct (g !! x) as [b|]; simpl; [|by destruct (Bool.eqb _ _)].
  by destruct (in_area a n x), t.
Qed.

(** After a flush the device sees what the CPU sees. *)
Lemma dev_at_flush a n m x : dev_at (flush a n m) x = if in_area a n x then cpu_at m x else dev_at m x.
Proof.
  unfold cpu_at, dev_at. simpl. rewrite lookup_union, filter_area.
  by destruct (in_area a n x), (cache m !! x), (ram m !! x).
Qed.

Lemma cpu_at_flush a n m x : cpu_at (flush a n m) x = cpu_at m x.
Proof.
  unfold cpu_at. rewrite dev_at_flush. simpl. unfold cpu_at. destruct (cache m !! x); simpl; [done|].
  by destruct (in_area _ _ _).
Qed.

(** After an invalidation the CPU sees what the device sees. *)
Lemma cpu_at_invalidate a n m x :
  cpu_at (invalidate a n m) x = if in_area a n x then dev_at m x else cpu_at m x.
Proof.
  unfold cpu_at, dev_at. simpl. rewrite filter_area. by destruct (in_area a n x), (cache m !! x).
Qed.

Lemma dev_at_invalidate a n m x : dev_at (invalidate a n m) x = dev_at m x.
Proof. done. Qed.

(** Lists of bytes. *)
Lemma load_ext (f g : Z → Z) a n : (∀ x, a ≤ x < a + n → f x = g x) → f <$> seqZ a n = g <$> seqZ a n.
Proof. intros Hfg. apply list_fmap_ext. intros i x Hx. apply Hfg. apply lookup_seqZ in Hx. lia. Qed.

Lemma load_bytes (f : Z → Z) a bs :
  (∀ x, a ≤ x < a + Z.of_nat (length bs) → f x = default 0 (bs !! Z.to_nat (x - a))) →
  f <$> seqZ a (Z.of_nat (length bs)) = bs.
Proof.
  intros Hf. apply list_eq. intros i. rewrite list_lookup_fmap.
  destruct (decide (i < length bs)%nat) as [Hi|Hi].
  - assert (seqZ a (Z.of_nat (length bs)) !! i = Some (a + Z.of_nat i)) as -> by (apply lookup_seqZ; lia).
    simpl. rewrite Hf by lia. replace (Z.to_nat (a + Z.of_nat i - a)) with i by lia.
    by destruct (lookup_lt_is_Some_2 bs i Hi) as [b ->].
  - rewrite (lookup_ge_None_2 bs) by lia. rewrite lookup_ge_None_2; [done|]. rewrite length_seqZ. lia.
Qed.

(** Both views of a fresh buffer are zero. *)
Lemma zeroed_views a n m x : 0 ≤ n → a ≤ x < a + n →
  let m' := flush_invalidate a n (cpu_store a (replicate (Z.to_nat n) 0) m) in
  cpu_at m' x = 0 ∧ dev_at m' x = 0.
Proof.
  intros Hn Hx m'. assert (Hd : dev_at m' x = 0).
  { unfold m', flush_invalidate. rewrite dev_at_invalidate, dev_at_flush, (proj2 (in_area_spec _ _ _)) by done.
    rewrite cpu_at_store, length_replicate, Z2Nat.id, (proj2 (in_area_spec _ _ _)) by done.
    by rewrite lookup_replicate_2 by lia. }
  split; [|done]. unfold m', flush_invalidate in *.
  by rewrite cpu_at_invalidate, (proj2 (in_area_spec _ _ _)) by done.
Qed.

Lemma in_area_out a n x : x < a ∨ a + n ≤ x → in_area a n x = false.
Proof. intros Hx. destruct (in_area a n x) eqn:E; [|done]. apply in_area_spec in E. lia. Qed.

(** What a device reads from memory. *)
Definition ram_at (g : gmap Z Z) (x : Z) : Z := default 0 (g !! x).
Definition ram_load (a n : Z) (g : gmap Z Z) : list Z := ram_at g <$> seqZ a n.

Lemma ram_load_ext a n g g' : (∀ x, a ≤ x < a + n → ram_at g x = ram_at g' x) → ram_load a n g = ram_load a n g'.
Proof. intros Hx. apply load_ext. done. Qed.

Lemma ram_at_write a bs g x :
  ram_at (write_map a bs g) x =
  if in_area a (Z.of_nat (length bs)) x then default 0 (bs !! Z.to_nat (x - a)) else ram_at g x.
Proof. unfold ram_at. rewrite write_map_lookup. by destruct (in_area _ _ _). Qed.

Lemma ram_load_write a bs n g : n = Z.of_nat (length bs) → ram_load a n (write_map a bs g) = bs.
Proof.
  intros ->. apply load_bytes. intros x Hx. by rewrite ram_at_write, (proj2 (in_area_spec _ _ _)).
Qed.

(** A buffer of the direction that is not bounced. *)
Definition plain (dir : DmaDirection) (c : DCommon) : Prop := bounce (dc_handle c) = None ∧ direction c = dir.

(** ** What the device and the CPU see *)

Section Arrays.
Context {A : Type} `{DmaOp A}.
Context (es : Z).

Lemma on_mach_run (f : Mach → Mach) m (a : A) : on_mach f (m, a) = ((f m, a), Ok tt).
Proof. done. Qed.

(** [confirm_write] without a bounce buffer is a flush of the range. *)
Lemma confirm_write_plain c offset n m (a : A) :
  bounce (dc_handle c) = None → to_device (direction c) = true →
  dc_confirm_write c offset n (m, a) = ((flush (dc_cpu c + offset) n m, a), Ok tt).
Proof. intros Hb Hd. unfold dc_confirm_write, os_confirm_write. by rewrite on_mach_run, Hb, Hd. Qed.

Lemma prepare_read_plain c offset n m (a : A) :
  bounce (dc_handle c) = None → from_device (direction c) = true →
  dc_prepare_read c offset n (m, a) = ((invalidate (dc_cpu c + offset) n m, a), Ok tt).
Proof. intros Hb Hd. unfold dc_prepare_read, os_prepare_read. by rewrite on_mach_run, Hb, Hd. Qed.

(** A store that is flushed whole is what the device sees, there and only
    there. *)
Lemma store_flush_seen a bs n m : Z.of_nat (length bs) ≤ n →
  let m' := flush a n (cpu_store a bs m) in
  dev_load a (Z.of_nat (length bs)) m' = bs ∧
  (∀ x, in_area a n x = false → dev_at m' x = dev_at m x ∧ cpu_at m' x = cpu_at m x).
Proof.
  intros Hn m'. split.
  - apply load_bytes. intros x Hx. unfold m'. rewrite dev_at_flush, (proj2 (in_area_spec _ _ _)) by lia.
    by rewrite cpu_at_store, (proj2 (in_area_spec _ _ _)) by lia.
  - intros x Hx. unfold m'. rewrite dev_at_flush, Hx, cpu_at_flush, cpu_at_store.
    assert (in_area a (Z.of_nat (length bs)) x = false) as ->; [|done].
    apply not_true_iff_false in Hx. apply not_true_iff_false. rewrite in_area_spec in *. lia.
Qed.

Lemma array_set_run c i v m (a : A) :
  bounce (dc_handle c) = None → to_device (direction c) = true → i < array_len es c →
  array_set es c i v (m, a) =
    ((flush (dc_cpu c + i * es) es (cpu_store (dc_cpu c + i * es) v m), a), Ok tt).
Proof.
  intros Hb Hd Hi. unfold array_set. rewrite (proj2 (Z.ltb_lt _ _)) by done.
  unfold assert_. erewrite bind_run by reflexivity. unfold store.
  erewrite bind_run by apply on_mach_run. by apply confirm_write_plain.
Qed.

Lemma array_read_run c i m (a : A) :
  bounce (dc_handle c) = None → from_device (direction c) = true → i < array_len es c →
  array_read es c i (m, a) =
    ((invalidate (dc_cpu c + i * es) es m, a), Ok (Some (dev_load (dc_cpu c + i * es) es m))).
Proof.
  intros Hb Hd Hi. unfold array_read. rewrite (proj2 (Z.leb_gt _ _)) by done.
  erewrite bind_run by (by apply prepare_read_plain). unfold load.
  erewrite bind_run by reflexivity. unfold mret, M_ret. do 2 f_equal.
  simpl. f_equal. apply load_ext. intros x Hx.
  by rewrite cpu_at_invalidate, (proj2 (in_area_spec _ _ _)).
Qed.


(** [copy_from_slice] shows the device the whole slice. *)
Lemma copy_from_slice_run c src m (a : A) :
  bounce (dc_handle c) = None → to_device (direction c) = true →
  Z.of_nat (length src) ≤ array_len es c → Z.of_nat (length (concat src)) ≤ dc_size c →
  ∃ m', copy_from_slice es c src (m, a) = ((m', a), Ok tt) ∧
    dev_load (dc_cpu c) (Z.of_nat (length (concat src))) m' = concat src ∧
    ∀ x, in_area (dc_cpu c) (dc_size c) x = false → dev_at m' x = dev_at m x ∧ cpu_at m' x = cpu_at m x.
Proof.
  intros Hb Hd Hl Hn. eexists. split; [|by apply store_flush_seen].
  unfold copy_from_slice. rewrite (proj2 (Z.leb_le _ _)) by done.
  unfold assert_. erewrite bind_run by reflexivity. unfold store.
  erewrite bind_run by apply on_mach_run. rewrite confirm_write_plain by done. by rewrite Z.add_0_r.
Qed.
End Arrays.

(** ** Which handles get through *)

(** The whole buffer is inside the device's mask. *)
Definition in_mask (mask : Z) (h : DmaHandle) : Prop :=
  dma_addr h ≤ mask ∧ (0 < h_size h → dma_addr h + h_size h - 1 ≤ mask ∧ dma_addr h + h_size h - 1 < 2 ^ 64).

Lemma check_handle_cases mask h : 0 < h_align h → 0 ≤ h_size h →
  match check_handle mask h with
  | Ok _ => in_mask mask h ∧ (h_align h | dma_addr h)
  | Err (DmaMaskNotMatch a k) => a = dma_addr h ∧ k = mask ∧ ¬ in_mask mask h
  | Err (AlignMismatch r a) => r = h_align h ∧ a = dma_addr h ∧ in_mask mask h ∧ ¬ (h_align h | dma_addr h)
  | _ => False
  end.
Proof.
  intros Ha Hs. unfold check_handle.
  assert (Hin : (if h_size h =? 0 then dma_addr h <=? mask
    else match checked_add 64 (dma_addr h) (saturating_sub (h_size h) 1) with
         | Some end_ => end_ <=? mask | None => false end) = true ↔ in_mask mask h).
  { unfold in_mask, checked_add, saturating_sub. destruct (Z.eqb_spec (h_size h) 0).
    - rewrite Z.leb_le. split; [|lia]. intros; split; [done|lia].
    - rewrite Z.max_r by lia. destruct (Z.ltb_spec (dma_addr h + (h_size h - 1)) (2 ^ 64)); [rewrite Z.leb_le; lia|].
      split; [done|]. intros [_ Hi]. destruct (Hi ltac:(lia)). lia. }
  destruct (if h_size h =? 0 then _ else _); simpl.
  - pose proof (is_multiple_of_spec (dma_addr h) (h_align h) Ha) as Hm.
    destruct (is_multiple_of _ _); simpl; [split; [by apply Hin|by apply Hm]|].
    split_and!; try done; [by apply Hin|]. intros Hd. by apply Hm in Hd.
  - split_and!; try done. intros Hi. by apply Hin in Hi.
Qed.

Section Kernel.
Context {H : Type} `{BuddyHeap H} (v2p : Z → Z).
#[local] Instance kernel_op : DmaOp (@KernelMemoryAllocator H) := KernelDmaOp v2p.

(** DMA memory from the kernel's heaps. When [DeviceDma::alloc_coherent]
    succeeds, every byte of the block has a bus address within the device's
    mask, the bus address is aligned as asked, and it is the translation of
    the CPU's address. When the heaps have a block that does not fit, the
    block goes back to them before the error is returned; the call never
    panics. *)
Theorem kernel_dma_alloc_fits mask l m a :
  0 < l_align l → 0 ≤ l_size l →
  match alloc_coherent mask l (m, a) with
  | ((m', a'), Ok h) =>
      in_mask mask h ∧ (l_align l | dma_addr h) ∧ layout h = l ∧ dma_addr h = v2p (cpu_addr h) ∧
      alloc_with_mask (l_size l) (l_align l) mask a = (a', Some (cpu_addr h))
  | ((m', a'), Err e) =>
      (e = NoMemory ∧ alloc_with_mask (l_size l) (l_align l) mask a = (a', None)) ∨
      ∃ a1 p, alloc_with_mask (l_size l) (l_align l) mask a = (a1, Some p) ∧
        a' = kma_dealloc v2p p (l_size l) (l_align l) a1 ∧
        ¬ (in_mask mask (mk_DmaHandle p (v2p p) l) ∧ (l_align l | v2p p))
  | (_, Stuck) => False
  end.
Proof.
  intros Hal Hsz. unfold alloc_coherent. simpl.
  destruct (alloc_with_mask (l_size l) (l_align l) mask a) as [a1 [p|]] eqn:E; simpl; [|by left].
  pose proof (is_multiple_of_spec (v2p p) (l_align l) Hal) as Hm.
  destruct (Z.ltb_spec mask (v2p p)) as [Hlt|Hge]; simpl.
  { right. exists a1, p. split_and!; try done. intros [[Hi _] _]. simpl in Hi. lia. }
  destruct (is_multiple_of (v2p p) (l_align l)) eqn:Em; simpl.
  2:{ right. exists a1, p. split_and!; try done. intros [_ Hd]. by apply Hm in Hd. }
  pose proof (check_handle_cases mask (mk_DmaHandle p (v2p p) l) Hal Hsz) as Hc.
  destruct (check_handle mask (mk_DmaHandle p (v2p p) l)) as [u|e|]; [| |done].
  - destruct Hc. by split_and!.
  - right. exists a1, p. split_and!; try done. destruct e; try done; tauto.
Qed.
End Kernel.

(** ** The pool never shares a buffer *)

(** Two blocks that do not overlap. *)
Definition apart (h h' : DmaHandle) : Prop :=
  cpu_addr h + h_size h ≤ cpu_addr h' ∨ cpu_addr h' + h_size h' ≤ cpu_addr h.

(** What the containers rely on: a new block has the layout asked for, is
    aligned by a positive number and overlaps no block in use; allocating does
    not change the contents of blocks in use. *)
Class DmaOpLaws (A : Type) `{DmaOp A} (aok : A → Prop) (busy : A → DmaHandle → Prop) : Prop := {
  op_fresh mask l m a m' a' h : aok a → alloc_coherent_op mask l (m, a) = ((m', a'), Some h) →
    aok a' ∧ layout h = l ∧ (∀ h', busy a h' → apart h h') ∧ (∀ h', busy a' h' ↔ h' = h ∨ busy a h');
  op_none mask l m a m' a' : aok a → alloc_coherent_op mask l (m, a) = ((m', a'), None) →
    aok a' ∧ ∀ h', busy a' h' ↔ busy a h';
  op_keeps mask l m a m' a' o h' x : aok a → alloc_coherent_op mask l (m, a) = ((m', a'), o) →
    busy a h' → in_area (cpu_addr h') (h_size h') x = true → cpu_at m' x = cpu_at m x;
  op_dealloc_busy a h : aok a → busy a h →
    aok (dealloc_coherent_op h a) ∧ ∀ h', busy (dealloc_coherent_op h a) h' ↔ busy a h' ∧ h' ≠ h
}.

Section PoolProof.
Context {A : Type} `{DmaOp A} (aok : A → Prop) (busy : A → DmaHandle → Prop) {DL : DmaOpLaws A aok busy}.
Context (mask size align : Z) (dir : DmaDirection).
Hypothesis (Hsize : 0 < size < 2 ^ 64) (Halign : 0 < align).

Notation block c := (handle (dc_handle c)).
Notation PSt := (list DCommon * (Mach * A))%type.

Definition good_block (a : A) (h : DmaHandle) : Prop :=
  busy a h ∧ h_size h = size ∧ in_mask mask h ∧ (align | dma_addr h).

Lemma apart_ne h h' : 0 < h_size h → apart h h' → h ≠ h'.
Proof. intros Hh Ha <-. destruct Ha; lia. Qed.

Lemma align_max_divide x : is_power_of_two (Z.max align 1) = true → (Z.max align 1 | x) → (align | x).
Proof. by rewrite Z.max_l by lia. Qed.

Lemma pool_array_run m a : aok a →
  match pool_array mask size align dir (m, a) with
  | ((m', a'), Ok c) => aok a' ∧ good_block a' (block c) ∧ (∀ h', busy a h' → apart (block c) h') ∧
      ∀ h', busy a h' → busy a' h'
  | ((m', a'), Err _) => aok a' ∧ ∀ h', busy a h' → busy a' h'
  | (_, Stuck) => False
  end.
Proof.
  intros Ha. unfold pool_array, new_zero_with_align.
  rewrite (bind_lift _ _ _ size) by (rewrite umul_ok by lia; f_equal; lia).
  unfold from_size_align. destruct (is_power_of_two (Z.max align 1) && _) eqn:Ep; [|done].
  apply andb_prop in Ep as [Ep _].
  erewrite bind_lift by reflexivity. unfold dc_new_zero, alloc_coherent. unfold mbind at 1, M_bind at 1.
  destruct (alloc_coherent_op mask (mk_Layout size (Z.max align 1)) (m, a)) as [[m1 a1] [h|]] eqn:E.
  2:{ destruct (op_none _ _ _ _ _ _ Ha E) as [? Hb]. split; [done|]. intros h'. apply Hb. }
  destruct (op_fresh _ _ _ _ _ _ _ Ha E) as (Ha1 & Hl & Hap & Hb).
  pose proof (check_handle_cases mask h) as Hc. unfold h_align, h_size in Hc. rewrite Hl in Hc. simpl in Hc.
  specialize (Hc ltac:(lia) ltac:(lia)).
  destruct (check_handle mask h) as [u|e|]; [| |done].
  - simpl. destruct Hc as [Hi Hd]. unfold good_block, h_size. split_and!; simpl; try done.
    + apply Hb. by left.
    + by rewrite Hl.
    + by apply align_max_divide.
    + intros h' ?. apply Hb. by right.
  - simpl. destruct (op_dealloc_busy a1 h Ha1) as [Ha2 Hb2]; [apply Hb; by left|].
    split; [done|]. intros h' Hh'. apply Hb2. split; [apply Hb; by right|].
    intros ->. destruct (apart_ne h h); [unfold h_size; rewrite Hl; simpl; lia|by apply Hap|done].
Qed.

(** Zeroing a new block keeps the blocks in use. *)
Lemma apart_keeps h h' bs m x : 0 < h_size h → Z.of_nat (length bs) = h_size h → apart h h' →
  in_area (cpu_addr h') (h_size h') x = true →
  cpu_at (flush_invalidate (cpu_addr h) (h_size h) (cpu_store (cpu_addr h) bs m)) x = cpu_at m x.
Proof.
  intros Hh Hb Hap Hx%in_area_spec. unfold flush_invalidate.
  assert (Hn : in_area (cpu_addr h) (h_size h) x = false).
  { apply not_true_iff_false. rewrite in_area_spec. destruct Hap; lia. }
  by rewrite cpu_at_invalidate, Hn, cpu_at_flush, cpu_at_store, Hb, Hn.
Qed.

Lemma pool_array_keeps m a m' a' r h' x : aok a →
  pool_array mask size align dir (m, a) = ((m', a'), r) → busy a h' →
  in_area (cpu_addr h') (h_size h') x = true → cpu_at m' x = cpu_at m x.
Proof.
  intros Ha E Hb Hx. unfold pool_array, new_zero_with_align in E.
  rewrite (bind_lift _ _ _ size) in E by (rewrite umul_ok by lia; f_equal; lia).
  unfold from_size_align in E. destruct (is_power_of_two (Z.max align 1) && _); [|by injection E as <- <- <-].
  erewrite bind_lift in E by reflexivity. unfold dc_new_zero, alloc_coherent in E.
  unfold mbind at 1, M_bind at 1 in E.
  destruct (alloc_coherent_op mask (mk_Layout size (Z.max align 1)) (m, a)) as [[m1 a1] [h|]] eqn:E1.
  2:{ injection E as <- <- <-. by eapply op_keeps. }
  destruct (op_fresh _ _ _ _ _ _ _ Ha E1) as (_ & Hl & Hap & _).
  assert (Hk : cpu_at m1 x = cpu_at m x) by by eapply op_keeps.
  assert (Hsz : h_size h = size) by (unfold h_size; by rewrite Hl).
  destruct (check_handle mask h) as [u|e|]; simpl in E; injection E as <- <- <-; [|done..].
  rewrite (apart_keeps h h'); [done|lia|rewrite length_replicate; lia|by apply Hap|done].
Qed.

(** Buffers given out and buffers in the pool. *)
Definition pool_inv (held : list DCommon) (s : PSt) : Prop :=
  let hs := (λ c, block c) <$> held ++ s.1 in
  aok s.2.2 ∧ NoDup hs ∧ (∀ h, h ∈ hs → good_block s.2.2 h) ∧
  (∀ h h', h ∈ hs → h' ∈ hs → h ≠ h' → apart h h').

(** Clients take buffers and drop buffers they hold, in any order. *)
Inductive pool_step : list DCommon * PSt → list DCommon * PSt → Prop :=
| pool_take held s s' c : pool_alloc mask size align dir s = (s', Ok c) → pool_step (held, s) (c :: held, s')
| pool_fail held s s' e : pool_alloc mask size align dir s = (s', Err e) → pool_step (held, s) (held, s')
| pool_give l1 c l2 s s' : buff_drop c s = (s', Ok tt) → pool_step (l1 ++ c :: l2, s) (l1 ++ l2, s').

Lemma pool_inv_perm held held' (p p' : list DCommon) d :
  held ++ p ≡ₚ held' ++ p' → pool_inv held (p, d) → pool_inv held' (p', d).
Proof.
  intros Hp (Ha & Hn & Hg & Hd). unfold pool_inv. simpl in *.
  assert (Hp' : (λ c, block c) <$> held ++ p ≡ₚ (λ c, block c) <$> held' ++ p') by by rewrite Hp.
  split_and!; try done.
  - by rewrite <- Hp'.
  - intros h. rewrite <- Hp'. apply Hg.
  - intros h h'. rewrite <- Hp'. apply Hd.
Qed.

(** A new block joins the others. *)
Lemma pool_inv_add held p m a m' a' c :
  pool_inv held (p, (m, a)) → aok a' → good_block a' (block c) →
  (∀ h', busy a h' → apart (block c) h') → (∀ h', busy a h' → busy a' h') →
  pool_inv (c :: held) (p, (m', a')).
Proof.
  intros (Ha & Hn & Hg & Hd) Ha' Hgc Hap Hb. unfold pool_inv. simpl in *.
  set (hs := (λ c, block c) <$> held ++ p) in *.
  assert (Hc : ∀ h, h ∈ hs → apart (block c) h) by (intros h Hh; apply Hap, Hg, Hh).
  split_and!; try done.
  - constructor; [|done]. intros Hin. destruct (apart_ne (block c) (block c)); [|by apply Hc|done].
    destruct Hgc as (_ & -> & _). lia.
  - intros h [->|Hh]%elem_of_cons; [done|]. destruct (Hg h Hh) as (? & ? & ? & ?). split_and!; auto.
  - intros h h' [->|Hh]%elem_of_cons [->|Hh']%elem_of_cons Hne; [done|by apply Hc| |by apply Hd].
    destruct (Hc h Hh); [by right|by left].
Qed.

Lemma pool_step_inv x y : pool_step x y → pool_inv x.1 x.2 → pool_inv y.1 y.2.
Proof.
  intros [held [p d] s' c E|held [p d] s' e E|l1 c l2 [p d] s' E] Hi; simpl in *.
  - unfold pool_alloc in E. simpl in E. destruct p as [|c' p].
    + unfold dev in E. simpl in E. destruct d as [m a].
      pose proof (pool_array_run m a (proj1 Hi)) as Hr.
      destruct (pool_array mask size align dir (m, a)) as [[m' a'] [c'|e|]]; [|done..].
      injection E as <- ->. destruct Hr as (? & ? & ? & ?). by eapply pool_inv_add.
    + injection E as <- ->. eapply pool_inv_perm, Hi. simpl. symmetry. apply Permutation_middle.
  - unfold pool_alloc in E. simpl in E. destruct p as [|c' p]; [|done].
    unfold dev in E. simpl in E. destruct d as [m a].
    pose proof (pool_array_run m a (proj1 Hi)) as Hr.
    destruct (pool_array mask size align dir (m, a)) as [[m' a'] [c'|e'|]]; [done| |done].
    injection E as <- ->. destruct Hr as [? Hb]. destruct Hi as (_ & Hn & Hg & Hd).
    unfold pool_inv. simpl in *. split_and!; try done.
    intros h Hh. destruct (Hg h Hh) as (? & ? & ? & ?). split_and!; auto.
  - injection E as <-. eapply pool_inv_perm, Hi. simpl.
    solve_Permutation.
Qed.

Lemma fill_pool_inv cap : ∀ s, pool_inv [] s →
  ∃ s', fill_pool mask size align dir cap s = (s', Ok tt) ∧ pool_inv [] s'.
Proof.
  induction cap as [|cap IH]; intros [p [m a]] Hi; [by eexists|]. simpl.
  pose proof (pool_array_run m a (proj1 Hi)) as Hr.
  destruct (pool_array mask size align dir (m, a)) as [[m' a'] [c|e|]]; [| |done].
  - apply IH. destruct Hr as (? & ? & ? & ?).
    eapply (pool_inv_perm [c] [] p); [|by eapply pool_inv_add]. simpl. by rewrite (Permutation_app_comm p).
  - apply IH. destruct Hr as [? Hb]. destruct Hi as (_ & Hn & Hg & Hd).
    unfold pool_inv. simpl in *. split_and!; try done.
    intros h Hh. destruct (Hg h Hh) as (? & ? & ? & ?). split_and!; auto.
Qed.

(** The buffers of a pool are never shared. Filling the pool ends without
    panic, and after any sequence of allocations and drops, the buffers that
    clients hold and those in the pool are blocks in use that do not overlap,
    each of the configured size, alignment and mask. *)
Theorem pool_buffers_disjoint cap m a held s :
  aok a → rtc pool_step ([], (fill_pool mask size align dir cap ([], (m, a))).1) (held, s) →
  (fill_pool mask size align dir cap ([], (m, a))).2 = Ok tt ∧
  NoDup ((λ c, block c) <$> held ++ s.1) ∧
  (∀ c, c ∈ held ++ s.1 → good_block s.2.2 (block c)) ∧
  (∀ c c', c ∈ held ++ s.1 → c' ∈ held ++ s.1 → block c ≠ block c' → apart (block c) (block c')).
Proof.
  intros Ha Hrtc. destruct (fill_pool_inv cap ([], (m, a))) as (s0 & E & Hi).
  { unfold pool_inv. simpl. split_and!; try done; [apply NoDup_nil_2|intros ? []%not_elem_of_nil|intros ? ? []%not_elem_of_nil]. }
  rewrite E in Hrtc. rewrite E. split; [done|]. simpl in Hrtc.
  assert (Hinv : pool_inv held s).
  { remember ([], s0) as x eqn:Ex. remember (held, s) as y eqn:Ey.
    assert (Hx : pool_inv x.1 x.2) by by rewrite Ex. clear Ex.
    assert (pool_inv y.1 y.2); [|by rewrite Ey in *].
    clear Ey. induction Hrtc; [done|]. by eapply IHHrtc, pool_step_inv. }
  destruct Hinv as (_ & Hn & Hg & Hd). split_and!; [done| |].
  - intros c Hc. apply Hg. apply list_elem_of_fmap. by exists c.
  - intros c c' Hc Hc'. apply Hd; apply list_elem_of_fmap; eauto.
Qed.
End PoolProof.

(** ** Where the code leaves its documentation *)

(** [confirm_write] makes data visible to the device. With a bounce buffer it
    copies the data there and then flushes the original: the bytes the device
    reads, those of the bounce buffer, stay in the cache. *)
Theorem bounce_write_stays_in_cache :
  let h := mk_DmaMapHandle (mk_DmaHandle 0x1000 0x8000 (mk_Layout 4 4)) (Some 0x8000) in
  let m := os_confirm_write h 0 4 ToDevice (cpu_store 0x1000 [1; 2; 3; 4] (mk_Mach ∅ ∅)) in
  cpu_load 0x8000 4 m = [1; 2; 3; 4] ∧ dev_load 0x8000 4 m = [0; 0; 0; 0].
Proof. vm_compute. split; reflexivity. Qed.

(** ** Concrete runs *)

(** An allocator that never reuses memory, with the blocks in use. *)
Definition Bump : Type := Z * list DmaHandle.

#[export] Instance bump_op : DmaOp Bump := {
  map_single_op _ addr size align _ a := (a, Ok (mk_DmaMapHandle (mk_DmaHandle addr addr (mk_Layout size align)) None));
  unmap_single_op _ a := a;
  alloc_coherent_op _ l s :=
    let p := Z.max s.2.1 ((s.2.1 + l_align l - 1) / l_align l * l_align l) in
    let h := mk_DmaHandle p p l in
    ((s.1, (p + Z.max 0 (l_size l), h :: s.2.2)), Some h);
  dealloc_coherent_op h a := (a.1, filter (λ h', h' ≠ h) a.2)
}.

Definition bump_ok (a : Bump) : Prop := Forall (λ h, cpu_addr h + h_size h ≤ a.1) a.2.
Definition bump_busy (a : Bump) (h : DmaHandle) : Prop := h ∈ a.2.

#[export] Instance bump_laws : DmaOpLaws Bump bump_ok bump_busy.
Proof.
  split.
  - intros mask l m [p hs] m' a' h Ha [= <- <- <-]. simpl in *. split_and!; [|done| |].
    + constructor; unfold h_size; simpl; [lia|]. eapply Forall_impl; [exact Ha|]. intros x Hx. simpl in *. unfold h_size in Hx. lia.
    + intros h' Hh'. unfold bump_ok in Ha. rewrite Forall_forall in Ha. specialize (Ha h' Hh'). right.
      simpl in *. lia.
    + intros h'. apply elem_of_cons.
  - intros mask l m a m' a' _ [=].
  - intros mask l m a m' a' o h' x _ [= <- _ _] _ _. done.
  - intros [p hs] h Ha _. simpl. split.
    + unfold bump_ok in *. simpl in *. rewrite Forall_forall in *. intros x Hx. apply Ha.
      by apply list_elem_of_filter in Hx as [_ ?].
    + intros h'. unfold bump_busy. simpl. rewrite list_elem_of_filter. tauto.
Qed.

Definition ring0 : DCommon :=
  mk_DCommon (mk_DmaMapHandle (mk_DmaHandle 0x1000 0x1000 (mk_Layout 16 4)) None) Bidirectional.


Lemma kernel_dma_alloc_fits_witness :
  let a := add_memory_region (λ x, x) 0x100000 0x200000 (kma_new : BumpKMA) in
  ∃ a' m', alloc_coherent (H := kernel_op (λ x, x)) u32_max (mk_Layout 0x100 0x40) (mk_Mach ∅ ∅, a) =
    ((m', a'), Ok (mk_DmaHandle 0x100000 0x100000 (mk_Layout 0x100 0x40))) ∧
  in_mask u32_max (mk_DmaHandle 0x100000 0x100000 (mk_Layout 0x100 0x40)).
Proof.
  intros a.
  pose proof (kernel_dma_alloc_fits (λ x, x) u32_max (mk_Layout 0x100 0x40) (mk_Mach ∅ ∅) a) as H.
  set (r := alloc_coherent (H := kernel_op (λ x, x)) u32_max (mk_Layout 0x100 0x40) (mk_Mach ∅ ∅, a)) in *.
  assert (E : r.2 = Ok (mk_DmaHandle 0x100000 0x100000 (mk_Layout 0x100 0x40))) by (vm_compute; reflexivity).
  destruct r as [[m' a'] o]. simpl in E. rewrite E in *. exists a', m'. split; [reflexivity|].
  destruct H as [Hm _]; [reflexivity|discriminate|exact Hm].
Defined.

Lemma pool_buffers_disjoint_witness :
  let s0 := (fill_pool (A := Bump) u32_max 8 8 FromDevice 2 ([], (mk_Mach ∅ ∅, (0x1000, [])))).1 in
  ∃ c1 c2 s2, rtc (pool_step (A := Bump) u32_max 8 8 FromDevice) ([], s0) ([c2; c1], s2) ∧
    apart (handle (dc_handle c1)) (handle (dc_handle c2)).
Proof.
  intros s0.
  set (b p := mk_DCommon (mk_DmaMapHandle (mk_DmaHandle p p (mk_Layout 8 8)) None) FromDevice).
  set (s1 := (pool_alloc (A := Bump) u32_max 8 8 FromDevice s0).1).
  set (s2 := (pool_alloc (A := Bump) u32_max 8 8 FromDevice s1).1).
  assert (Hr : rtc (pool_step (A := Bump) u32_max 8 8 FromDevice) ([], s0) ([b 0x1008; b 0x1000], s2)).
  { eapply rtc_l; [apply (pool_take _ _ _ _ [] s0 s1 (b 0x1000)); vm_compute; reflexivity|].
    eapply rtc_l; [apply (pool_take _ _ _ _ _ s1 s2 (b 0x1008)); vm_compute; reflexivity|]. apply rtc_refl. }
  exists (b 0x1000), (b 0x1008), s2. split; [exact Hr|].
  eapply (pool_buffers_disjoint bump_ok bump_busy u32_max 8 8 FromDevice ltac:(lia) ltac:(lia) 2
    (mk_Mach ∅ ∅) (0x1000, []) [b 0x1008; b 0x1000] s2); [apply Forall_nil_2|exact Hr|..].
  - apply elem_of_app. left. apply list_elem_of_further, list_elem_of_here.
  - apply elem_of_app. left. apply list_elem_of_here.
  - discriminate.
Defined.
