(* ===== verification/Io.v ===== *)
(** * Reading and writing all of a buffer

    The traits [Read] and [Write] of driver/interface/rdif-base/src/io.rs with
    their provided methods: the blocking loops and the futures. A future is
    polled until it is ready. The two ways agree on every buffer that is not
    empty, and what they transfer is what the device gave or took, in order. *)

From Stdlib Require Import String.
From stdpp Require Import base list numbers.
From S2P Require Import Prelude.
Open Scope Z_scope.

(** ** Errors *)

Module io.
(** [X] stands for the boxed error of [Other]. *)
Inductive ErrorKind (X : Type) : Type :=
| Other (e : X)
| NotAvailable
| BrokenPipe
| InvalidParameter (name : string)
| InvalidData
| TimedOut
| Interrupted
| Unsupported
| OutOfMemory
| WriteZero.
Arguments Other {X} e.
Arguments NotAvailable {X}.
Arguments BrokenPipe {X}.
Arguments InvalidParameter {X} name.
Arguments InvalidData {X}.
Arguments TimedOut {X}.
Arguments Interrupted {X}.
Arguments Unsupported {X}.
Arguments OutOfMemory {X}.
Arguments WriteZero {X}.

Record Error (X : Type) : Type := mk_Error { kind : ErrorKind X; success_pos : Z }.
Arguments mk_Error {X}.
Arguments kind {X}.
Arguments success_pos {X}.
End io.
Import io.

Definition is_interrupted {X} (k : ErrorKind X) : bool := match k with Interrupted => true | _ => false end.

(** ** The traits *)

(** The buffer is part of the state: it is written to on errors too. *)
Class Read (R X : Type) : Type := { read : M (R * list Z) (Error X) unit }.
Class Write (W X : Type) : Type := { write : list Z → M W (Error X) unit }.

(** ** The loops

    Those of [read_all_blocking] and [write_all_blocking] differ in the call
    on [buf[n..]] only, which is [io n]; so do the closures of the futures. *)

Section Loops.
Context {St X : Type} (io : Z → M St (Error X) unit) (len : Z).

(** [n += e.success_pos]. *)
Definition advance_pos (n : Z) (e : Error X) : outcome (Error X) Z := uadd 64 n (success_pos e).

(** [None] is a run that needs more fuel. *)
Fixpoint all_blocking (fuel : nat) (n : Z) (s : St) : option (St * outcome (Error X) unit) :=
  match fuel with
  | O => None
  | S fuel =>
      if n <? len then
        match io n s with
        | (s', Err e) =>
            match advance_pos n e with
            | Ok n' => if is_interrupted (kind e) then all_blocking fuel n' s' else Some (s', Err (mk_Error (kind e) n'))
            | _ => Some (s', Stuck)
            end
        | (s', Ok _) => all_blocking fuel (n + (len - n)) s'
        | (s', Stuck) => Some (s', Stuck)
        end
      else Some (s, Ok tt)
  end.

(** One poll: [Some] is [Poll::Ready], [None] is [Poll::Pending]. The state has
    the position, which the closure owns, and the number of calls to
    [wake_by_ref]. *)
Definition poll : M (St * Z * Z) (Error X) (option unit) := λ s,
  let '((d, n), wakes) := s in
  let pending n' d' :=
    if n' =? len then ((d', n', wakes), Ok (Some tt)) else ((d', n', wakes + 1), Ok None) in
  if len <? n then (s, Stuck)
  else match io n d with
  | (d', Err e) =>
      match advance_pos n e with
      | Ok n' => if is_interrupted (kind e) then pending n' d' else ((d', n', wakes), Err (mk_Error (kind e) n'))
      | _ => ((d', n, wakes), Stuck)
      end
  | (d', Ok _) => pending (n + (len - n)) d'
  | (d', Stuck) => ((d', n, wakes), Stuck)
  end.

(** A task that polls the future until it is ready. *)
Fixpoint await (fuel : nat) (s : St * Z * Z) : option ((St * Z * Z) * outcome (Error X) unit) :=
  match fuel with
  | O => None
  | S fuel =>
      match poll s with
      | (s', Ok (Some u)) => Some (s', Ok u)
      | (s', Ok None) => await fuel s'
      | (s', Err e) => Some (s', Err e)
      | (s', Stuck) => Some (s', Stuck)
      end
  end.
End Loops.

Section Methods.
Context {R W X : Type} `{Read R X} `{Write W X}.

(** [read] on [buf[n..]]. *)
Definition read_at (n : Z) : M (R * list Z) (Error X) unit := λ s,
  let '((r, tail), o) := read (s.1, drop (Z.to_nat n) s.2) in ((r, take (Z.to_nat n) s.2 ++ tail), o).

Definition read_all_blocking (fuel : nat) (s : R * list Z) : option ((R * list Z) * outcome (Error X) unit) :=
  all_blocking read_at (Z.of_nat (length s.2)) fuel 0 s.
Definition read_all (fuel : nat) (s : R * list Z) : option ((R * list Z) * outcome (Error X) unit) :=
  r ← await read_at (Z.of_nat (length s.2)) fuel (s, 0, 0);
  Some (r.1.1.1, r.2).

Definition write_at (buf : list Z) (n : Z) : M W (Error X) unit := write (drop (Z.to_nat n) buf).

Definition write_all_blocking (buf : list Z) (fuel : nat) (s : W) : option (W * outcome (Error X) unit) :=
  all_blocking (write_at buf) (Z.of_nat (length buf)) fuel 0 s.
Definition write_all (buf : list Z) (fuel : nat) (s : W) : option (W * outcome (Error X) unit) :=
  r ← await (write_at buf) (Z.of_nat (length buf)) fuel (s, 0, 0);
  Some (r.1.1.1, r.2).
End Methods.

(** ** Results

    A loop that may run for any time ends with a result if some fuel gives it. *)
Definition returns {St B} (f : nat → St → option B) (s : St) (r : B) : Prop := ∃ k, f k s = Some r.

Section Ends.
Context {St X : Type} (io : Z → M St (Error X) unit) (len : Z).

(** What both loops do from position [n]. *)
Inductive ends : Z → St → St * outcome (Error X) unit → Prop :=
| ends_full s : ends len s (s, Ok tt)
| ends_ok n s s' u : n < len → io n s = (s', Ok u) → ends n s (s', Ok tt)
| ends_panic n s s' : n < len → io n s = (s', Stuck) → ends n s (s', Stuck)
| ends_err n s s' e n' : n < len → io n s = (s', Err e) → advance_pos n e = Ok n' → is_interrupted (kind e) = false →
    ends n s (s', Err (mk_Error (kind e) n'))
| ends_retry n s s' e n' r : n < len → io n s = (s', Err e) → advance_pos n e = Ok n' → is_interrupted (kind e) = true →
    ends n' s' r → ends n s r.

(** A position the device reports lies in the buffer it was given, as long as
    [good] is kept. *)
Context (Hlen : len < 2 ^ 64) (good : St → Prop).
Context (Hkeep : ∀ n s s' o, good s → 0 ≤ n < len → io n s = (s', o) → good s').
Context (Hpos : ∀ n s s' e, good s → 0 ≤ n < len → io n s = (s', Err e) → 0 ≤ success_pos e ≤ len - n).

Lemma advance_ok n s s' e : good s → 0 ≤ n < len → io n s = (s', Err e) →
  advance_pos n e = Ok (n + success_pos e) ∧ n ≤ n + success_pos e ≤ len ∧ good s'.
Proof.
  intros Hg Hn E. pose proof (Hkeep _ _ _ _ Hg Hn E). destruct (Hpos n s s' e Hg Hn E). unfold advance_pos, uadd.
  rewrite (proj2 (Z.ltb_lt _ _)) by lia. split; [done|]. split; [lia|done].
Qed.

Lemma blocking_mono k : ∀ n s r, all_blocking io len k n s = Some r → ∀ k', (k ≤ k')%nat → all_blocking io len k' n s = Some r.
Proof.
  induction k as [|k IH]; intros n s r E k' Hk; [done|]. destruct k' as [|k']; [lia|]. simpl in *.
  destruct (n <? len); [|done]. destruct (io n s) as [s' [u|e|]]; [by apply (IH _ _ _ E); lia| |done].
  destruct (advance_pos n e) as [n'| |]; [|done..]. destruct (is_interrupted (kind e)); [by apply (IH _ _ _ E); lia|done].
Qed.

Lemma blocking_ends n s r : good s → 0 ≤ n ≤ len → (∃ k, all_blocking io len k n s = Some r) ↔ ends n s r.
Proof.
  intros Hg Hn. split.
  - intros [k E]. revert n s Hg Hn E. induction k as [|k IH]; intros n s Hg Hn E; [done|]. simpl in E.
    destruct (Z.ltb_spec n len) as [Hlt|Hge].
    2:{ injection E as <-. replace n with len by lia. constructor. }
    destruct (io n s) as [s' [u|e|]] eqn:Eio.
    + destruct k as [|k]; [done|]. simpl in E. rewrite (proj2 (Z.ltb_ge _ _)) in E by lia. injection E as <-. by eapply ends_ok.
    + destruct (advance_ok n s s' e Hg ltac:(lia) Eio) as (Ea & Hle & Hg'). rewrite Ea in E.
      destruct (is_interrupted (kind e)) eqn:Ei.
      * eapply ends_retry; eauto. apply IH; [done|lia|done].
      * injection E as <-. by eapply ends_err.
    + injection E as <-. by eapply ends_panic.
  - induction 1 as [s|n s s' u Hlt E|n s s' Hlt E|n s s' e n' Hlt E Ea Ei|n s s' e n' r Hlt E Ea Ei _ IH].
    + exists 1%nat. simpl. by rewrite Z.ltb_irrefl.
    + exists 2%nat. simpl. rewrite (proj2 (Z.ltb_lt _ _)), E by lia. by rewrite (proj2 (Z.ltb_ge _ _)) by lia.
    + exists 1%nat. simpl. by rewrite (proj2 (Z.ltb_lt _ _)), E by lia.
    + exists 1%nat. simpl. by rewrite (proj2 (Z.ltb_lt _ _)), E, Ea, Ei by lia.
    + destruct (advance_ok n s s' e Hg ltac:(lia) E) as (Ea' & Hle & Hg'). rewrite Ea in Ea'. injection Ea' as ->.
      destruct (IH Hg' ltac:(lia)) as [k Hk]. exists (S k). simpl.
      by rewrite (proj2 (Z.ltb_lt _ _)), E, Ea, Ei by lia.
Qed.

Lemma await_ends n s w r : good s → 0 ≤ n < len →
  (∃ k n' w', await io len k (s, n, w) = Some ((r.1, n', w'), r.2)) ↔ ends n s r.
Proof.
  intros Hg Hn. split.
  - intros (k & n' & w' & E). revert n s w Hg Hn E. induction k as [|k IH]; intros n s w Hg Hn E; [done|]. simpl in E.
    unfold poll in E. rewrite (proj2 (Z.ltb_ge _ _)) in E by lia. destruct (io n s) as [s' [u|e|]] eqn:Eio.
    + rewrite (proj2 (Z.eqb_eq _ _)) in E by lia. destruct r. injection E as <- _ _ <-. by eapply ends_ok; [lia|].
    + destruct (advance_ok n s s' e Hg Hn Eio) as (Ea & Hle & Hg'). rewrite Ea in E.
      destruct (is_interrupted (kind e)) eqn:Ei.
      * eapply ends_retry; eauto; [lia|]. destruct (Z.eqb_spec (n + success_pos e) len) as [Heq|].
        { destruct r. injection E as <- _ _ <-. rewrite Heq. constructor. }
        eapply IH; [done|lia|exact E].
      * destruct r. injection E as <- _ _ <-. by eapply ends_err; [lia|..].
    + destruct r. injection E as <- _ _ <-. by eapply ends_panic; [lia|].
  - intros He. revert w Hg Hn. induction He as [s|n s s' u Hlt E|n s s' Hlt E|n s s' e n' Hlt E Ea Ei|n s s' e n' r Hlt E Ea Ei He IH]; intros w Hg Hn.
    + lia.
    + exists 1%nat. simpl. unfold poll. rewrite (proj2 (Z.ltb_ge _ _)), E, (proj2 (Z.eqb_eq _ _)) by lia. by eexists _, _.
    + exists 1%nat. simpl. unfold poll. rewrite (proj2 (Z.ltb_ge _ _)), E by lia. by eexists _, _.
    + exists 1%nat. simpl. unfold poll. rewrite (proj2 (Z.ltb_ge _ _)), E, Ea, Ei by lia. by eexists _, _.
    + destruct (advance_ok n s s' e Hg Hn E) as (Ea' & Hle & Hg'). rewrite Ea in Ea'. injection Ea' as ->.
      destruct (Z.eqb_spec (n + success_pos e) len) as [Heq|Hne].
      * exists 1%nat. simpl. unfold poll. rewrite (proj2 (Z.ltb_ge _ _)), E, Ea, Ei, (proj2 (Z.eqb_eq _ _)) by lia.
        rewrite Heq in He. inversion He; subst; [by eexists _, _|lia..].
      * destruct (IH (w + 1) Hg' ltac:(lia)) as (k & n' & w' & Hk). exists (S k), n', w'. simpl. unfold poll.
        by rewrite (proj2 (Z.ltb_ge _ _)), E, Ea, Ei, (proj2 (Z.eqb_neq _ _)) by lia.
Qed.

(** So the loop and the future have the same results. *)
Lemma loops_agree s res : good s → 0 < len →
  returns (λ k s, all_blocking io len k 0 s) s res ↔ returns (λ k s, r ← await io len k (s, 0, 0); Some (r.1.1.1, r.2)) s res.
Proof.
  intros Hg Hlt. unfold returns. rewrite (blocking_ends 0 s res) by (done || lia).
  rewrite <- (await_ends 0 s 0 res) by (done || lia). split.
  - intros (k & n' & w' & E). exists k. rewrite E. by destruct res.
  - intros [k E]. destruct (await _ _ _ _) as [[[[s' n'] w'] o]|] eqn:Ea; [|done]. injection E as <-. by exists k, n', w'.
Qed.
End Ends.

(** Devices of which the positions they report are those of their buffer, and
    which transfer something when they are interrupted. *)
Class ReadLaws (R X : Type) `{Read R X} : Prop := {
  read_fits r buf r' buf' o : read (r, buf) = ((r', buf'), o) →
    length buf' = length buf ∧ ∀ e, o = Err e → 0 ≤ success_pos e ≤ Z.of_nat (length buf)
}.
Class WriteLaws (W X : Type) `{Write W X} : Prop := {
  write_fits w buf w' e : write buf w = (w', Err e) → 0 ≤ success_pos e ≤ Z.of_nat (length buf)
}.

(** [stream r] is what the device still has to give, [written w] what it took. *)
Class ReadStream (R X : Type) `{Read R X} (stream : R → list Z) : Prop := {
  read_ok r buf r' buf' u : read (r, buf) = ((r', buf'), Ok u) → stream r = buf' ++ stream r';
  read_err r buf r' buf' e : read (r, buf) = ((r', buf'), Err e) →
    stream r = take (Z.to_nat (success_pos e)) buf' ++ stream r' ∧ (is_interrupted (kind e) = true → 0 < success_pos e);
  read_safe r buf : (read (r, buf)).2 ≠ Stuck
}.
Class WriteStream (W X : Type) `{Write W X} (written : W → list Z) : Prop := {
  write_ok w buf w' u : write buf w = (w', Ok u) → written w' = written w ++ buf;
  write_err w buf w' e : write buf w = (w', Err e) →
    written w' = written w ++ take (Z.to_nat (success_pos e)) buf ∧ (is_interrupted (kind e) = true → 0 < success_pos e);
  write_safe w buf : (write buf w).2 ≠ Stuck
}.

Section Progress.
Context {St X : Type} (io : Z → M St (Error X) unit) (len : Z) (Hlen : len < 2 ^ 64) (I : Z → St → Prop).
Context (Hfits : ∀ n s s' e, I n s → 0 ≤ n < len → io n s = (s', Err e) → 0 ≤ success_pos e ≤ len - n).

(** A loop whose calls keep [I] and get on ends with [I]. *)
Lemma ends_progress n s : 0 ≤ n ≤ len → I n s →
  (∀ n s s' u, I n s → 0 ≤ n < len → io n s = (s', Ok u) → I len s') →
  (∀ n s s' e, I n s → 0 ≤ n < len → io n s = (s', Err e) → I (n + success_pos e) s' ∧ (is_interrupted (kind e) = true → 0 < success_pos e)) →
  (∀ n s, I n s → 0 ≤ n < len → (io n s).2 ≠ Stuck) →
  ∃ s' o, ends io len n s (s', o) ∧ match o with
    | Ok _ => I len s'
    | Err e => I (success_pos e) s' ∧ n ≤ success_pos e ≤ len ∧ is_interrupted (kind e) = false
    | Stuck => False
    end.
Proof.
  intros Hn Hi Hok Herr Hsafe. remember (Z.to_nat (len - n)) as d eqn:Hd. revert n s Hn Hi Hd.
  induction d as [d IH] using lt_wf_ind. intros n s Hn Hi Hd.
  destruct (decide (n = len)) as [->|Hne]; [exists s, (Ok tt); split; [constructor|done]|].
  specialize (Hsafe n s Hi ltac:(lia)). destruct (io n s) as [s' [u|e|]] eqn:E; [| |done].
  - exists s', (Ok tt). split; [by eapply ends_ok; [lia|]|]. by apply (Hok n s s' u); [|lia|].
  - destruct (Hfits n s s' e Hi ltac:(lia) E). destruct (Herr n s s' e Hi ltac:(lia) E) as [Hi' Hgo].
    assert (advance_pos n e = Ok (n + success_pos e)) as Ea by (unfold advance_pos, uadd; by rewrite (proj2 (Z.ltb_lt _ _)) by lia).
    destruct (is_interrupted (kind e)) eqn:Ei.
    + destruct (IH (Z.to_nat (len - (n + success_pos e))) ltac:(lia) (n + success_pos e) s') as (s2 & o & He & Ho); [lia|done|done|].
      exists s2, o. split; [by eapply ends_retry; [lia|..]|]. destruct o; [done| |done]. destruct Ho as (? & ? & ?). split; [done|]. split; [lia|done].
    + exists s', (Err (mk_Error (kind e) (n + success_pos e))). split; [by eapply ends_err; [lia|..]|]. simpl. split; [done|]. split; [lia|done].
Qed.
End Progress.

(** ** The methods *)

Section Methods.
Context {R W X : Type} `{ReadLaws R X} `{WriteLaws W X}.

Lemma read_at_fits len n r buf s' o : length buf = len → 0 ≤ n < Z.of_nat len → read_at n (r, buf) = (s', o) →
  length s'.2 = len ∧ ∀ e, o = Err e → 0 ≤ success_pos e ≤ Z.of_nat len - n.
Proof.
  intros <- Hn. unfold read_at. simpl. destruct (read (r, drop (Z.to_nat n) buf)) as [[r' t] o'] eqn:E. intros [= <- <-]. simpl.
  destruct (read_fits _ _ _ _ _ E) as [Ht He]. rewrite length_drop in *. rewrite length_app, Ht, length_take.
  split; [lia|]. intros e ->. specialize (He e eq_refl). lia.
Qed.

Lemma read_at_good len : (∀ n s s' o, length s.2 = len → 0 ≤ n < Z.of_nat len → read_at n s = (s', o) → length s'.2 = len) ∧
  (∀ n s s' e, length s.2 = len → 0 ≤ n < Z.of_nat len → read_at n s = (s', Err e) → 0 ≤ success_pos e ≤ Z.of_nat len - n).
Proof.
  split.
  - intros n [r b] s' o Hg Hn E. by destruct (read_at_fits _ _ _ _ _ _ Hg Hn E).
  - intros n [r b] s' e Hg Hn E. destruct (read_at_fits _ _ _ _ _ _ Hg Hn E) as [_ He]. by apply He.
Qed.

Lemma write_at_fits buf n w w' e : 0 ≤ n < Z.of_nat (length buf) → write_at buf n w = (w', Err e) →
  0 ≤ success_pos e ≤ Z.of_nat (length buf) - n.
Proof. intros Hn E. apply write_fits in E. rewrite length_drop in E. lia. Qed.

(** C34: Reading into a buffer, or writing one, that is not empty, the blocking
    loop and the future that is polled until it is ready have the same
    results: the same bytes, the same error and position, the same panic of the
    device, and neither ends when the other does not. *)
Theorem all_agrees (buf : list Z) : buf ≠ [] → Z.of_nat (length buf) < 2 ^ 64 →
  (∀ r res, returns read_all_blocking (r, buf) res ↔ returns read_all (r, buf) res) ∧
  (∀ w res, returns (write_all_blocking buf) w res ↔ returns (write_all buf) w res).
Proof.
  intros Hne Hlen. assert (0 < Z.of_nat (length buf)) by (destruct buf; [done|simpl; lia]).
  destruct (read_at_good (length buf)) as [Hk Hp]. split.
  - intros r res. unfold returns, read_all_blocking, read_all. simpl.
    by apply (loops_agree read_at _ Hlen (λ s, length s.2 = length buf) Hk Hp (r, buf) res).
  - intros w res. apply (loops_agree (write_at buf) _ Hlen (λ _, True)); [done| |done|done].
    intros n s s' e _. apply write_at_fits.
Qed.

(** *** What is transferred *)

Context (stream : R → list Z) `{!ReadStream R X stream} (written : W → list Z) `{!WriteStream W X written}.

(** What reading did up to position [n]. *)
Definition read_so_far (r0 : R) (len : nat) (n : Z) (s : R * list Z) : Prop :=
  length s.2 = len ∧ stream r0 = take (Z.to_nat n) s.2 ++ stream s.1.

Lemma take_tail (n p : Z) (buf t : list Z) : 0 ≤ n ≤ Z.of_nat (length buf) → 0 ≤ p →
  take (Z.to_nat (n + p)) (take (Z.to_nat n) buf ++ t) = take (Z.to_nat n) buf ++ take (Z.to_nat p) t.
Proof. intros Hn Hp. rewrite take_app, take_take, length_take. f_equal; [|f_equal; lia]. f_equal. lia. Qed.

Lemma read_at_so_far r0 len n s s' o : 0 ≤ n < Z.of_nat len → read_so_far r0 len n s → read_at n s = (s', o) → match o with
  | Ok _ => read_so_far r0 len (Z.of_nat len) s'
  | Err e => read_so_far r0 len (n + success_pos e) s' ∧ (is_interrupted (kind e) = true → 0 < success_pos e)
  | Stuck => False
  end.
Proof.
  intros Hn [Hl Hs] E. destruct s as [r b]. simpl in *. pose proof (read_at_fits len n r b s' o Hl Hn E) as [Hl' He].
  unfold read_at in E. simpl in E. pose proof (read_safe (stream := stream) r (drop (Z.to_nat n) b)) as Hsafe.
  destruct (read (r, drop (Z.to_nat n) b)) as [[r' t] o'] eqn:Er. injection E as <- <-. simpl in *.
  destruct o' as [u|e|]; [| |done].
  - split; [done|]. simpl. rewrite Hs, (read_ok (stream := stream) _ _ _ _ _ Er), (take_ge (_ ++ t)) by lia. by rewrite <- app_assoc.
  - destruct (read_err (stream := stream) _ _ _ _ _ Er) as [Hst Hgo]. specialize (He e eq_refl). split; [|done]. split; [done|].
    simpl. rewrite take_tail by lia. by rewrite Hs, Hst, app_assoc.
Qed.

Definition write_so_far (w0 : W) (buf : list Z) (n : Z) (w : W) : Prop := written w = written w0 ++ take (Z.to_nat n) buf.

Lemma write_at_so_far w0 buf n w w' o : 0 ≤ n < Z.of_nat (length buf) → write_so_far w0 buf n w → write_at buf n w = (w', o) → match o with
  | Ok _ => write_so_far w0 buf (Z.of_nat (length buf)) w'
  | Err e => write_so_far w0 buf (n + success_pos e) w' ∧ (is_interrupted (kind e) = true → 0 < success_pos e)
  | Stuck => False
  end.
Proof.
  unfold write_so_far, write_at. intros Hn Hs E. pose proof (write_safe (written := written) w (drop (Z.to_nat n) buf)) as Hsafe. rewrite E in Hsafe.
  destruct o as [u|e|]; [| |done].
  - by rewrite (write_ok (written := written) _ _ _ _ E), Hs, <- app_assoc, take_drop, take_ge by lia.
  - destruct (write_err (written := written) _ _ _ _ E) as [Hw Hgo]. split; [|done]. apply write_fits in E.
    rewrite Hw, Hs, <- app_assoc, take_drop_commute. f_equal.
    replace (Z.to_nat n + Z.to_nat (success_pos e))%nat with (Z.to_nat (n + success_pos e)) by lia.
    replace (take (Z.to_nat n) buf) with (take (Z.to_nat n) (take (Z.to_nat (n + success_pos e)) buf)); [apply take_drop|].
    rewrite take_take. f_equal. lia.
Qed.

(** On devices that get on when they are interrupted, reading and writing
    all of a buffer end without panic: success fills the buffer with what the
    device had next, or hands it all of the buffer, in order; an error other
    than an interruption comes with the number of bytes that were. *)
Theorem all_in_order (buf : list Z) : Z.of_nat (length buf) < 2 ^ 64 →
  (∀ r, ∃ r' buf' o, returns read_all_blocking (r, buf) ((r', buf'), o) ∧ length buf' = length buf ∧ match o with
    | Ok _ => stream r = buf' ++ stream r'
    | Err e => stream r = take (Z.to_nat (success_pos e)) buf' ++ stream r' ∧ is_interrupted (kind e) = false
    | Stuck => False
    end) ∧
  (∀ w, ∃ w' o, returns (write_all_blocking buf) w (w', o) ∧ match o with
    | Ok _ => written w' = written w ++ buf
    | Err e => written w' = written w ++ take (Z.to_nat (success_pos e)) buf ∧ is_interrupted (kind e) = false
    | Stuck => False
    end).
Proof.
  intros Hlen. set (len := Z.of_nat (length buf)) in *. destruct (read_at_good (length buf)) as [Hk Hp]. split.
  - intros r. destruct (ends_progress read_at len Hlen (read_so_far r (length buf))) with (n := 0) (s := (r, buf)) as (s' & o & He & Ho).
    + intros n s s' e [Hl _]. by apply Hp.
    + lia.
    + done.
    + intros n s s' u Hi Hn E. by apply (read_at_so_far _ _ _ _ _ _ Hn Hi E).
    + intros n s s' e Hi Hn E. by apply (read_at_so_far _ _ _ _ _ _ Hn Hi E).
    + intros n s Hi Hn Est. destruct (read_at n s) as [s' o] eqn:E. simpl in Est. subst o. apply (read_at_so_far _ _ _ _ _ _ Hn Hi E).
    + destruct s' as [r' buf']. exists r', buf', o. split; [|destruct o as [u|e|]; [| |done]].
      * apply (proj2 (blocking_ends read_at len Hlen (λ s, length s.2 = length buf) Hk Hp 0 (r, buf) _ eq_refl ltac:(lia)) He).
      * destruct Ho as [Hl Hs]. simpl in *. split; [done|]. by rewrite Hs, take_ge by lia.
      * destruct Ho as ((Hl & Hs) & _ & Hi). done.
  - intros w. destruct (ends_progress (write_at buf) len Hlen (write_so_far w buf)) with (n := 0) (s := w) as (w' & o & He & Ho).
    + intros n s s' e _. apply write_at_fits.
    + lia.
    + unfold write_so_far. by rewrite app_nil_r.
    + intros n s s' u Hi Hn E. by apply (write_at_so_far _ _ _ _ _ _ Hn Hi E).
    + intros n s s' e Hi Hn E. by apply (write_at_so_far _ _ _ _ _ _ Hn Hi E).
    + intros n s Hi Hn Est. destruct (write_at buf n s) as [s' o] eqn:E. simpl in Est. subst o. apply (write_at_so_far _ _ _ _ _ _ Hn Hi E).
    + exists w', o. split; [|destruct o as [u|e|]; [| |done]].
      * apply (blocking_ends (write_at buf) len Hlen (λ _, True)); [done| |done|lia|done]. intros n s s' e _. apply write_at_fits.
      * unfold write_so_far in Ho. by rewrite Ho, take_ge by lia.
      * by destruct Ho as (Hs & _ & Hi).
Qed.
End Methods.

(** An empty buffer is where the two differ: the loop does not ask the device,
    the future returns its error. *)
Lemma read_all_empty {R X} `{Read R X} (r r' : R) b (e : Error X) : read (r, []) = ((r', b), Err e) →
  is_interrupted (kind e) = false → 0 ≤ success_pos e < 2 ^ 64 →
  returns read_all_blocking (r, []) ((r, []), Ok tt) ∧ returns read_all (r, []) ((r', b), Err e).
Proof.
  intros E Hi Hp. split; exists 1%nat; [done|]. unfold read_all. simpl. unfold poll, read_at. simpl. rewrite E.
  unfold advance_pos, uadd. rewrite (proj2 (Z.ltb_lt _ _)) by lia. rewrite Hi. simpl. by destruct e.
Qed.

(** ** A device of two bytes at a time *)

Definition two (l : list Z) (room : nat) : nat := Nat.min 2 (Nat.min (length l) room).

#[local] Instance two_read : Read (list Z) unit := {|
  read s :=
    let p := two s.1 (length s.2) in
    ((drop p s.1, take p s.1 ++ drop p s.2),
      if (p =? length s.2)%nat then Ok tt
      else Err (mk_Error (if (p =? 0)%nat then BrokenPipe else Interrupted) (Z.of_nat p)))
|}.

(** It takes five bytes in all. *)
#[local] Instance two_write : Write (list Z) unit := {|
  write buf w :=
    let p := two buf (5 - length w) in
    (w ++ take p buf,
      if (p =? length buf)%nat then Ok tt
      else Err (mk_Error (if (p =? 0)%nat then BrokenPipe else Interrupted) (Z.of_nat p)))
|}.

#[local] Instance two_read_laws : ReadLaws (list Z) unit.
Proof.
  split. intros r buf r' buf' o. simpl. set (p := two r (length buf)). assert (p ≤ length r ∧ p ≤ length buf)%nat by (unfold p, two; lia).
  intros [= <- <- <-]. rewrite length_app, length_take, length_drop. split; [lia|].
  destruct (Nat.eqb_spec p (length buf)); [done|]. intros e [= <-]. simpl. lia.
Qed.

#[local] Instance two_write_laws : WriteLaws (list Z) unit.
Proof.
  split. intros w buf w' e. simpl. set (p := two buf _). assert (p ≤ length buf)%nat by (unfold p, two; lia).
  destruct (Nat.eqb_spec p (length buf)); [done|]. intros [= <- <-]. simpl. lia.
Qed.

#[local] Instance two_read_stream : ReadStream (list Z) unit (λ r, r).
Proof.
  split.
  - intros r buf r' buf' u. simpl. set (p := two r (length buf)). destruct (Nat.eqb_spec p (length buf)) as [Hp|]; [|done].
    intros [= <- <-]. by rewrite Hp, drop_all, app_nil_r, take_drop.
  - intros r buf r' buf' e. simpl. set (p := two r (length buf)). assert (p ≤ length r)%nat by (unfold p, two; lia).
    destruct (Nat.eqb_spec p (length buf)) as [|Hp]; [done|].
    intros [= <- <- <-]. simpl. rewrite Nat2Z.id, take_app_le by (rewrite length_take; lia). rewrite take_take, Nat.min_id, take_drop.
    split; [done|]. destruct (Nat.eqb_spec p 0); [done|lia].
  - intros r buf. simpl. by destruct (_ =? _)%nat.
Qed.

#[local] Instance two_write_stream : WriteStream (list Z) unit (λ w, w).
Proof.
  split.
  - intros w buf w' u. simpl. set (p := two buf _). destruct (Nat.eqb_spec p (length buf)) as [Hp|]; [|done].
    intros [= <-]. by rewrite Hp, firstn_all.
  - intros w buf w' e. simpl. set (p := two buf _). destruct (Nat.eqb_spec p (length buf)) as [|Hp]; [done|].
    intros [= <- <-]. simpl. rewrite Nat2Z.id. split; [done|]. destruct (Nat.eqb_spec p 0); [done|lia].
  - intros w buf. simpl. by destruct (_ =? _)%nat.
Qed.

(** The future reads three bytes in two polls; writing six fails at the fifth. *)
Lemma all_agrees_witness : returns read_all ([5; 6; 7; 8], [0; 0; 0]) (([8], [5; 6; 7]), Ok tt) ∧
  returns (write_all [1; 2; 3; 4; 5; 6]) [] ([1; 2; 3; 4; 5], Err (mk_Error BrokenPipe 5)).
Proof.
  destruct (all_agrees (R := list Z) (W := list Z) (X := unit) [0; 0; 0] ltac:(done) ltac:(done)) as [Hr _].
  destruct (all_agrees (R := list Z) (W := list Z) (X := unit) [1; 2; 3; 4; 5; 6] ltac:(done) ltac:(done)) as [_ Hw].
  split; [apply Hr|apply Hw]; by exists 5%nat.
Defined.

Lemma all_in_order_witness : ∃ o, returns (read_all_blocking (X := unit)) ([5; 6; 7; 8], [0; 0; 0]) (([8], [5; 6; 7]), o).
Proof.
  destruct (all_in_order (R := list Z) (W := list Z) (X := unit) (λ r, r) (λ w, w) [0; 0; 0] ltac:(done)) as [Hr _].
  destruct (Hr [5; 6; 7; 8]) as (r' & buf' & o & [k Hk] & Hl & Ho). exists (Ok tt).
  destruct o as [u|e|]; [|destruct Ho as [Ho _]|destruct Ho].
  - destruct buf' as [|a [|b [|c [|]]]]; try discriminate. injection Ho as <- <- <- <-. exists k. rewrite Hk. by destruct u.
  - exists 5%nat. vm_compute. reflexivity.
Defined.
