(* ===== verification/Block.v ===== *)
(** * Block devices

    driver/interface/rdif-block (the traits [Interface] and [IQueue], [IdList],
    errors), driver/block/rd-block (the command queue and its futures on a
    pool of DMA buffers) and driver/block/ramdisk, a device whose requests
    complete when they are submitted.

    A queue of a device with state [D] is an instance of [IQueue]: submitting
    and polling act on the device and on the machine's memory. The state of a
    command queue [CmdSt] has the device, the pool, the machine, the allocator
    behind the pool and whether a waker is registered. *)

From stdpp Require Import base list numbers gmap.
From S2P Require Import Io Prelude Dma.
Open Scope Z_scope.

(** ** rdif-block *)

(** [Other] is a boxed error of any type. *)
Inductive BlkError : Type :=
| NotSupported
| Retry
| BlkNoMemory
| InvalidBlockIndex (n : Z)
| Other {X : Type} (e : X).

(** [From<DmaError> for BlkError]. *)
Definition blk_of_dma (e : DmaError) : BlkError :=
  match e with NoMemory => BlkNoMemory | e => Other e end.

(** [From<BlkError> for io::ErrorKind]. *)
Definition io_of_blk (e : BlkError) : io.ErrorKind {X : Type & X} :=
  match e with
  | NotSupported => io.Unsupported
  | Retry => io.Interrupted
  | BlkNoMemory => io.OutOfMemory
  | InvalidBlockIndex _ => io.NotAvailable
  | @Other X e => io.Other (existT X e)
  end.

Record Buffer : Type := mk_Buffer { virt : Z; bus : Z; buf_size : Z }.

Inductive RequestKind : Type :=
| Read (b : Buffer)
| Write (slice : list Z).

Record Request : Type := mk_Request { block_id : Z; req_kind : RequestKind }.

(** [IdList]: a set of queue ids in the bits of a word. *)
Definition IdList : Type := Z.
Definition id_none : IdList := 0.
(** [1 << id] on [u64]; a shift by 64 or more panics. *)
Definition one_shl {E} (id : Z) : outcome E Z := if id <? 64 then Ok (Z.shiftl 1 id) else Stuck.
Definition id_contains {E} (l : IdList) (id : Z) : outcome E bool :=
  b ← one_shl id; Ok (negb (Z.land l b =? 0)).
Definition id_insert {E} (id : Z) (l : IdList) : outcome E IdList := b ← one_shl id; Ok (Z.lor l b).
Definition id_remove {E} (id : Z) (l : IdList) : outcome E IdList :=
  b ← one_shl id; Ok (Z.land l (unot 64 b)).
(** [iter]: the ids below 64 that are in the list. *)
Definition id_iter (l : IdList) : list Z :=
  filter (λ i, id_contains (E := Empty_set) l i = Ok true) (seqZ 0 64).

(** The trait [IQueue]; a request id is a number. *)
Class IQueue (D : Type) : Type := {
  num_blocks : D → Z;
  block_size : D → Z;
  submit_request : Request → M (D * Mach) BlkError Z;
  poll_request : Z → M (D * Mach) BlkError unit
}.

(** ** ramdisk *)

Record RamInner : Type := mk_RamInner {
  storage : list Z;
  completed_reads : list Z;
  completed_writes : list Z;
  irq_rx : IdList;
  irq_enabled : bool;
  next_req_id : Z;
  next_queue_id : Z
}.

Record RamDisk : Type := mk_RamDisk { rd_block_size : Z; rd_num_blocks : Z; rd_inner : RamInner }.

(** [RamDisk::with_name]. *)
Definition ramdisk_new {E} (bs n : Z) : outcome E RamDisk :=
  if 0 <? bs then
    _ ← umul 64 bs n;
    Ok (mk_RamDisk bs n
      (mk_RamInner (concat ((λ i, replicate (Z.to_nat bs) (i mod 256)) <$> seqZ 0 n)) [] [] id_none true 1 0))
  else Stuck.

Definition set_irq (b : bool) (r : RamInner) : RamInner :=
  mk_RamInner (storage r) (completed_reads r) (completed_writes r) (irq_rx r) b (next_req_id r) (next_queue_id r).

(** [create_queue]: the id of the new queue. *)
Definition ramdisk_create_queue : M RamInner BlkError Z := λ r,
  match uadd 64 (next_queue_id r) 1 with
  | Ok n => (mk_RamInner (storage r) (completed_reads r) (completed_writes r) (irq_rx r) (irq_enabled r)
               (next_req_id r) n, Ok (next_queue_id r))
  | Err e => (r, Err e)
  | Stuck => (r, Stuck)
  end.

(** [handle_irq]: the queues with events, which are taken. *)
Definition ramdisk_handle_irq (r : RamInner) : RamInner * IdList :=
  if irq_enabled r then
    (mk_RamInner (storage r) (completed_reads r) (completed_writes r) id_none (irq_enabled r)
       (next_req_id r) (next_queue_id r), irq_rx r)
  else (r, id_none).

Section RamQueue.
(** [RamQueue]: its id and a copy of the geometry. *)
Context (rq_id rq_block_size rq_num_blocks : Z).

Notation RM := (M (RamInner * Mach) BlkError).

Definition with_storage (st : list Z) (r : RamInner) : RamInner :=
  mk_RamInner st (completed_reads r) (completed_writes r) (irq_rx r) (irq_enabled r) (next_req_id r) (next_queue_id r).
Definition with_completed (reads writes : list Z) (r : RamInner) : RamInner :=
  mk_RamInner (storage r) reads writes (irq_rx r) (irq_enabled r) (next_req_id r) (next_queue_id r).
Definition with_irq (l : IdList) (r : RamInner) : RamInner :=
  mk_RamInner (storage r) (completed_reads r) (completed_writes r) l (irq_enabled r) (next_req_id r) (next_queue_id r).
Definition with_next_req (n : Z) (r : RamInner) : RamInner :=
  mk_RamInner (storage r) (completed_reads r) (completed_writes r) (irq_rx r) (irq_enabled r) n (next_queue_id r).

Definition on_disk (f : RamInner → RamInner) : RM unit := modify (λ s, (f s.1, s.2)).
Definition on_mem (f : Mach → Mach) : RM unit := modify (λ s, (s.1, f s.2)).

(** [submit_request]. *)
Definition ram_submit (request : Request) : RM Z :=
  let b := block_id request in
  if rq_num_blocks <=? b then fail (InvalidBlockIndex b)
  else
    s ← get;
    let req_id := next_req_id s.1 in
    n ← lift (uadd 64 req_id 1);
    _ ← on_disk (with_next_req n);
    offset ← lift (umul 64 b rq_block_size);
    _ ← match req_kind request with
        | Read buff =>
            if buf_size buff <? rq_block_size then fail NotSupported
            else
              _ ← on_mem (cpu_store (virt buff)
                    (take (Z.to_nat rq_block_size) (drop (Z.to_nat offset) (storage s.1))));
              on_disk (λ r, with_completed (completed_reads r ++ [req_id]) (completed_writes r) r)
        | Write slice =>
            if negb (Z.of_nat (length slice) =? rq_block_size) then fail NotSupported
            else
              _ ← on_disk (λ r, with_storage (list_inserts (Z.to_nat offset) slice (storage r)) r);
              on_disk (λ r, with_completed (completed_reads r) (completed_writes r ++ [req_id]) r)
        end;
    s ← get;
    l ← lift (id_insert rq_id (irq_rx s.1));
    _ ← on_disk (with_irq l);
    mret req_id.

(** [Vec::remove] at the position of [x]. *)
Fixpoint remove_first (x : Z) (l : list Z) : list Z :=
  match l with
  | [] => []
  | y :: l => if y =? x then l else y :: remove_first x l
  end.

(** [poll_request]. *)
Definition ram_poll (request : Z) : RM unit :=
  s ← get;
  if bool_decide (request ∈ completed_reads s.1) then
    on_disk (λ r, with_completed (remove_first request (completed_reads r)) (completed_writes r) r)
  else if bool_decide (request ∈ completed_writes s.1) then
    on_disk (λ r, with_completed (completed_reads r) (remove_first request (completed_writes r)) r)
  else fail Retry.

Definition RamQueue_IQueue : IQueue RamInner := {|
  num_blocks _ := rq_num_blocks;
  block_size _ := rq_block_size;
  submit_request := ram_submit;
  poll_request := ram_poll
|}.
End RamQueue.

(** ** rd-block: the command queue *)

(** [BTreeMap::insert], and iteration in key order. *)
Fixpoint bt_insert {V} (k : Z) (v : V) (l : list (Z * V)) : list (Z * V) :=
  match l with
  | [] => [(k, v)]
  | (k', v') :: l' =>
      if k <? k' then (k, v) :: l
      else if k =? k' then (k, v) :: l'
      else (k', v') :: bt_insert k v l'
  end.

Inductive Poll (X : Type) : Type := Ready (x : X) | Pending.
Arguments Ready {X} x.
Arguments Pending {X}.

Section CmdQueue.
Context {D A : Type} `{IQueue D} `{DmaOp A}.
(** The mask, size and alignment of [buff_config]. *)
Context (mask size align : Z).

Record CmdSt : Type := mk_CmdSt {
  cq_dev : D;
  cq_pool : list DCommon;
  cq_mach : Mach;
  cq_alloc : A;
  cq_waker : bool
}.

Notation QM := (M CmdSt BlkError).

(** Calls into the device and into the pool, with their errors as values. *)
Definition call_dev {X} (f : M (D * Mach) BlkError X) : QM (outcome BlkError X) := λ s,
  match f (cq_dev s, cq_mach s) with
  | ((d, m), Stuck) => (mk_CmdSt d (cq_pool s) m (cq_alloc s) (cq_waker s), Stuck)
  | ((d, m), r) => (mk_CmdSt d (cq_pool s) m (cq_alloc s) (cq_waker s), Ok r)
  end.

Definition call_pool : QM (outcome DmaError DCommon) := λ s,
  match pool_alloc mask size align FromDevice (cq_pool s, (cq_mach s, cq_alloc s)) with
  | ((p, (m, a)), Stuck) => (mk_CmdSt (cq_dev s) p m a (cq_waker s), Stuck)
  | ((p, (m, a)), r) => (mk_CmdSt (cq_dev s) p m a (cq_waker s), Ok r)
  end.

(** [DBuff] going out of scope. *)
Definition drop_buff (c : DCommon) : QM unit :=
  modify (λ s, mk_CmdSt (cq_dev s) (cq_pool s ++ [c]) (cq_mach s) (cq_alloc s) (cq_waker s)).
Definition register_waker : QM unit :=
  modify (λ s, mk_CmdSt (cq_dev s) (cq_pool s) (cq_mach s) (cq_alloc s) true).

(** [BlockData]. *)
Record BlockData : Type := mk_BlockData { bd_block_id : Z; bd_data : DCommon }.

(** *** Reading *)

Record ReadFuture : Type := mk_ReadFuture {
  rf_requested : list (Z * option DCommon);
  rf_map : gmap Z Z;
  rf_results : gmap Z (outcome BlkError BlockData)
}.

Definition read_new : ReadFuture := mk_ReadFuture [] ∅ ∅.

Definition rf_result (b : Z) (r : outcome BlkError BlockData) (f : ReadFuture) : ReadFuture :=
  mk_ReadFuture (rf_requested f) (rf_map f) (<[b := r]> (rf_results f)).

(** The buffer of a DMA array as a request sees it. *)
Definition buffer_of (c : DCommon) : Buffer := mk_Buffer (dc_cpu c) (dc_dma c) (array_len 1 c).

(** The first loop of [poll]: submit what was not submitted. The answer is
    [Pending] when the device asks to retry. *)
Fixpoint read_submit (ls : list Z) (f : ReadFuture) : QM (Poll unit * ReadFuture) :=
  match ls with
  | [] => mret (Ready tt, f)
  | b :: ls =>
      if bool_decide (is_Some (rf_results f !! b)) then read_submit ls f
      else if bool_decide (b ∈ (rf_requested f).*1) then read_submit ls f
      else
        r ← call_pool;
        match r with
        | Ok buff =>
            o ← call_dev (submit_request (mk_Request b (Read (buffer_of buff))));
            match o with
            | Ok req_id =>
                read_submit ls (mk_ReadFuture (bt_insert b (Some buff) (rf_requested f))
                                  (<[b := req_id]> (rf_map f)) (rf_results f))
            | Err Retry => _ ← register_waker; _ ← drop_buff buff; mret (Pending, f)
            | Err e => _ ← drop_buff buff; read_submit ls (rf_result b (Err e) f)
            | Stuck => stuck
            end
        | Err e => read_submit ls (rf_result b (Err (blk_of_dma e)) f)
        | Stuck => stuck
        end
  end.

(** The second loop: poll the requests in the order of their blocks. [todo] is
    the rest of the list, [done_] the part that was visited, reversed. *)
Fixpoint read_poll (todo done_ : list (Z * option DCommon)) (f : ReadFuture) : QM (Poll unit * ReadFuture) :=
  let finish f := mk_ReadFuture (rev_append done_ todo) (rf_map f) (rf_results f) in
  match todo with
  | [] => mret (Ready tt, finish f)
  | (b, buff) :: todo' =>
      if bool_decide (is_Some (rf_results f !! b)) then read_poll todo' ((b, buff) :: done_) f
      else
        req_id ← lift (unwrap (rf_map f !! b));
        o ← call_dev (poll_request req_id);
        match o with
        | Ok _ =>
            data ← lift (unwrap buff);
            read_poll todo' ((b, None) :: done_) (rf_result b (Ok (mk_BlockData b data)) f)
        | Err Retry => _ ← register_waker; mret (Pending, finish f)
        | Err e => read_poll todo' ((b, buff) :: done_) (rf_result b (Err e) f)
        | Stuck => stuck
        end
  end.

(** The last loop: the results in the order of the request. *)
Fixpoint collect_results {X} (ls : list Z) (results : gmap Z (outcome BlkError X)) :
    outcome BlkError (list (outcome BlkError X)) :=
  match ls with
  | [] => Ok []
  | b :: ls =>
      r ← unwrap (results !! b);
      rs ← collect_results ls (delete b results);
      Ok (r :: rs)
  end.

(** [ReadFuture::poll]. *)
Definition read_poll_once (blk_ls : list Z) (f : ReadFuture) :
    QM (Poll (list (outcome BlkError BlockData)) * ReadFuture) :=
  '(p, f) ← read_submit blk_ls f;
  match p with
  | Pending => mret (Pending, f)
  | Ready _ =>
      '(p, f) ← read_poll (rf_requested f) [] f;
      match p with
      | Pending => mret (Pending, f)
      | Ready _ => out ← lift (collect_results blk_ls (rf_results f)); mret (Ready out, f)
      end
  end.

(** [read_blocks_blocking]: [spin_on] polls until the future is ready. *)
Fixpoint read_spin (fuel : nat) (blk_ls : list Z) (f : ReadFuture) : QM (list (outcome BlkError BlockData)) :=
  match fuel with
  | O => stuck
  | S fuel =>
      '(p, f) ← read_poll_once blk_ls f;
      match p with
      | Ready out => mret out
      | Pending => read_spin fuel blk_ls f
      end
  end.

Definition read_blocks (fuel : nat) (blk_id blk_count : Z) : QM (list (outcome BlkError BlockData)) :=
  last ← lift (uadd 64 blk_id blk_count);
  read_spin fuel (seqZ blk_id (last - blk_id)) read_new.

(** [Deref for BlockData]: the bytes of the buffer, as the CPU sees them. *)
Definition bd_bytes (bd : BlockData) (m : Mach) : list Z :=
  cpu_load (dc_cpu (bd_data bd)) (array_len 1 (bd_data bd)) m.

(** *** Writing *)

Record WriteFuture : Type := mk_WriteFuture {
  wf_requested : list (Z * unit);
  wf_map : gmap Z Z;
  wf_results : gmap Z (outcome BlkError unit)
}.

Definition write_new : WriteFuture := mk_WriteFuture [] ∅ ∅.

Definition wf_result (b : Z) (r : outcome BlkError unit) (f : WriteFuture) : WriteFuture :=
  mk_WriteFuture (wf_requested f) (wf_map f) (<[b := r]> (wf_results f)).

Fixpoint write_submit (ls : list (Z * list Z)) (f : WriteFuture) : QM (Poll unit * WriteFuture) :=
  match ls with
  | [] => mret (Ready tt, f)
  | (b, buff) :: ls =>
      if bool_decide (is_Some (wf_results f !! b)) then write_submit ls f
      else if bool_decide (b ∈ (wf_requested f).*1) then write_submit ls f
      else
        o ← call_dev (submit_request (mk_Request b (Write buff)));
        match o with
        | Ok req_id =>
            write_submit ls (mk_WriteFuture (bt_insert b tt (wf_requested f))
                               (<[b := req_id]> (wf_map f)) (wf_results f))
        | Err Retry => _ ← register_waker; mret (Pending, f)
        | Err e => write_submit ls (wf_result b (Err e) f)
        | Stuck => stuck
        end
  end.

Fixpoint write_poll (todo : list (Z * unit)) (f : WriteFuture) : QM (Poll unit * WriteFuture) :=
  match todo with
  | [] => mret (Ready tt, f)
  | (b, _) :: todo' =>
      if bool_decide (is_Some (wf_results f !! b)) then write_poll todo' f
      else
        req_id ← lift (unwrap (wf_map f !! b));
        o ← call_dev (poll_request req_id);
        match o with
        | Ok _ => write_poll todo' (wf_result b (Ok tt) f)
        | Err Retry => _ ← register_waker; mret (Pending, f)
        | Err e => write_poll todo' (wf_result b (Err e) f)
        | Stuck => stuck
        end
  end.

(** [WriteFuture::poll]. *)
Definition write_poll_once (req_ls : list (Z * list Z)) (f : WriteFuture) :
    QM (Poll (list (outcome BlkError unit)) * WriteFuture) :=
  '(p, f) ← write_submit req_ls f;
  match p with
  | Pending => mret (Pending, f)
  | Ready _ =>
      '(p, f) ← write_poll (wf_requested f) f;
      match p with
      | Pending => mret (Pending, f)
      | Ready _ => out ← lift (collect_results req_ls.*1 (wf_results f)); mret (Ready out, f)
      end
  end.

Fixpoint write_spin (fuel : nat) (req_ls : list (Z * list Z)) (f : WriteFuture) : QM (list (outcome BlkError unit)) :=
  match fuel with
  | O => stuck
  | S fuel =>
      '(p, f) ← write_poll_once req_ls f;
      match p with
      | Ready out => mret out
      | Pending => write_spin fuel req_ls f
      end
  end.

(** [write_blocks]: cut the data into blocks; [i] is the loop's index, [data]
    starts at its block. *)
Fixpoint block_vecs (start_blk_id i : Z) (bs : nat) (count : nat) (data : list Z) :
    outcome BlkError (list (Z * list Z)) :=
  match count with
  | O => Ok []
  | S count =>
      blk_id ← uadd 64 start_blk_id i;
      rest ← block_vecs start_blk_id (i + 1) bs count (drop bs data);
      Ok ((blk_id, take bs data) :: rest)
  end.

Definition write_blocks (fuel : nat) (start_blk_id : Z) (data : list Z) : QM (list (outcome BlkError unit)) :=
  s ← get;
  let bs := block_size (cq_dev s) in
  if (bs =? 0) || negb (Z.of_nat (length data) mod bs =? 0) then stuck
  else
    vecs ← lift (block_vecs start_blk_id 0 (Z.to_nat bs) (Z.to_nat (Z.of_nat (length data) / bs)) data);
    write_spin fuel vecs write_new.
End CmdQueue.
