(* ===== verification/BlockProof.v ===== *)
(** * Block devices: proofs

    The interface [SyncDisk] says what a device that completes its requests at
    once promises: an array of blocks, and a set of completed requests. The
    futures of the command queue are proved against it, on a pool that keeps
    its buffers apart (file DmaProof); the RAM disk is an instance. *)

From stdpp Require Import base list numbers gmap.
From S2P Require Import Prelude Heap Dma DmaProof Block.
Open Scope Z_scope.

(** ** The interface

    A synchronous device. The branches of the futures for a device that is not
    ready ([Retry] at submission or at a poll) are in the definitions of
    Block.v, and no theorem here is about them. *)

Section Grown.
Context {D : Type} `{IQueue D} (dok : D → Prop) (room : D → Z) (completed : D → Z → Prop).

(** The device after a request [id] was accepted and completed. *)
Definition grown (d d' : D) (id : Z) : Prop :=
  dok d' ∧ room d' = room d - 1 ∧ num_blocks d' = num_blocks d ∧ block_size d' = block_size d ∧
  ¬ completed d id ∧ ∀ j, completed d' j ↔ j = id ∨ completed d j.
End Grown.

(** [disk d b] is the content of block [b], [room d] bounds the requests the
    device can still number. *)
Class SyncDisk (D : Type) `{IQueue D} (dok : D → Prop) (room : D → Z) (disk : D → Z → list Z)
    (completed : D → Z → Prop) : Prop := {
  sd_block_size d : dok d → 0 < block_size d;
  sd_length d b : dok d → 0 ≤ b < num_blocks d → Z.of_nat (length (disk d b)) = block_size d;
  sd_invalid d m b k : dok d → num_blocks d ≤ b →
    submit_request (mk_Request b k) (d, m) = ((d, m), Err (InvalidBlockIndex b));
  sd_write d m b slice : dok d → 0 < room d → 0 ≤ b < num_blocks d → Z.of_nat (length slice) = block_size d →
    ∃ d' id, submit_request (mk_Request b (Write slice)) (d, m) = ((d', m), Ok id) ∧
      grown dok room completed d d' id ∧ ∀ x, 0 ≤ x < num_blocks d → disk d' x = if x =? b then slice else disk d x;
  sd_read d m b buff : dok d → 0 < room d → 0 ≤ b < num_blocks d → block_size d ≤ buf_size buff →
    ∃ d' id, submit_request (mk_Request b (Read buff)) (d, m) = ((d', cpu_store (virt buff) (disk d b) m), Ok id) ∧
      grown dok room completed d d' id ∧ ∀ x, disk d' x = disk d x;
  sd_poll d m id : dok d → completed d id →
    ∃ d', poll_request id (d, m) = ((d', m), Ok tt) ∧ dok d' ∧ room d' = room d ∧
      num_blocks d' = num_blocks d ∧ block_size d' = block_size d ∧
      (∀ j, completed d' j ↔ completed d j ∧ j ≠ id) ∧ ∀ x, disk d' x = disk d x
}.

(** ** Maps in key order *)

Lemma bt_insert_perm {V} k (v : V) l : k ∉ l.*1 → bt_insert k v l ≡ₚ (k, v) :: l.
Proof.
  induction l as [|[k' v'] l IH]; simpl; [done|]. intros [Hne Hk]%not_elem_of_cons.
  destruct (Z.ltb_spec k k'); [done|]. destruct (Z.eqb_spec k k'); [done|].
  rewrite IH by done. apply Permutation_swap.
Qed.

Lemma bt_insert_fmap {V W} (g : V → W) k v (l : list (Z * V)) :
  bt_insert k (g v) ((λ p, (p.1, g p.2)) <$> l) = (λ p, (p.1, g p.2)) <$> bt_insert k v l.
Proof.
  induction l as [|[k' v'] l IH]; simpl; [done|].
  destruct (Z.ltb k k'); [done|]. destruct (Z.eqb k k'); [done|]. simpl. f_equal. apply IH.
Qed.

Lemma collect_results_run {X} (g : Z → outcome BlkError X) ls : ∀ res,
  NoDup ls → (∀ b, b ∈ ls → res !! b = Some (g b)) → collect_results ls res = Ok (g <$> ls).
Proof.
  induction ls as [|b ls IH]; intros res Hn Hr; [done|].
  apply NoDup_cons in Hn as [Hb Hn]. simpl. rewrite Hr by (apply elem_of_cons; by left). simpl.
  rewrite IH; [done|done|]. intros b' Hb'. rewrite lookup_delete_ne by (intros ->; done).
  apply Hr. apply elem_of_cons. by right.
Qed.

Section Client.
Context {D A : Type} `{IQueue D} `{DmaOp A}.
Context (dok : D → Prop) (room : D → Z) (disk : D → Z → list Z) (completed : D → Z → Prop)
  {SD : SyncDisk D dok room disk completed}.
Notation CSt := (@CmdSt D A).
Notation grown := (grown dok room completed).

(** The requests of the blocks [ks] are completed, each has its own. *)
Definition pend (ks : list Z) (mp : gmap Z Z) (d : D) : Prop :=
  NoDup ks ∧ (∀ b, b ∈ ks → ∃ id, mp !! b = Some id ∧ completed d id) ∧
  (∀ b b' id, b ∈ ks → b' ∈ ks → mp !! b = Some id → mp !! b' = Some id → b = b').

Lemma pend_perm ks ks' mp d : ks ≡ₚ ks' → pend ks mp d → pend ks' mp d.
Proof.
  intros Hp (Hn & Hc & Hi). split_and!.
  - by rewrite <- Hp.
  - intros b. rewrite <- Hp. apply Hc.
  - intros b b' id. rewrite <- Hp. apply Hi.
Qed.

Lemma pend_insert ks mp d d' b id :
  pend ks mp d → b ∉ ks → grown d d' id → pend (b :: ks) (<[b := id]> mp) d'.
Proof.
  intros (Hn & Hc & Hi) Hb (_ & _ & _ & _ & Hnew & Hcomp).
  assert (Hne : ∀ x, x ∈ ks → <[b := id]> mp !! x = mp !! x)
    by (intros x Hx; apply lookup_insert_ne; intros ->; done).
  split_and!.
  - by constructor.
  - intros x [->|Hx]%elem_of_cons.
    + exists id. rewrite lookup_insert_eq. split; [done|]. apply Hcomp. by left.
    + destruct (Hc x Hx) as (j & Hj & ?). exists j. rewrite Hne by done. split; [done|]. apply Hcomp. by right.
  - assert (Hold : ∀ x, x ∈ ks → mp !! x ≠ Some id).
    { intros x Hx Hid. destruct (Hc x Hx) as (j & Hj & ?). congruence. }
    intros x x' j [->|Hx]%elem_of_cons [->|Hx']%elem_of_cons.
    + done.
    + rewrite lookup_insert_eq, Hne by done. intros [= ->] Hj. by destruct (Hold _ Hx').
    + rewrite lookup_insert_eq, Hne by done. intros Hj [= ->]. by destruct (Hold _ Hx).
    + rewrite !Hne by done. by apply Hi.
Qed.

Lemma pend_poll b ks mp d d' id :
  pend (b :: ks) mp d → mp !! b = Some id → (∀ j, completed d' j ↔ completed d j ∧ j ≠ id) → pend ks mp d'.
Proof.
  intros (Hn & Hc & Hi) Hb Hcomp. apply NoDup_cons in Hn as [Hbk Hn]. split_and!; [done| |].
  - intros x Hx. destruct (Hc x) as (j & Hj & ?); [by apply elem_of_cons; right|]. exists j.
    split; [done|]. apply Hcomp. split; [done|]. intros ->. destruct Hbk.
    replace b with x; [done|]. eapply Hi; [..|done|done]; apply elem_of_cons; auto.
  - intros x x' j Hx Hx'. apply Hi; apply elem_of_cons; auto.
Qed.

Definition set_dev (d : D) (s : CSt) : CSt := mk_CmdSt d (cq_pool s) (cq_mach s) (cq_alloc s) (cq_waker s).

Lemma call_dev_run {X} (f : M (D * Mach) BlkError X) (s : CSt) d m r : r ≠ Stuck →
  f (cq_dev s, cq_mach s) = ((d, m), r) →
  call_dev f s = (mk_CmdSt d (cq_pool s) m (cq_alloc s) (cq_waker s), Ok r).
Proof. intros Hr E. unfold call_dev. rewrite E. by destruct r. Qed.

(** ** Writing *)

(** What a write to [b] answers. *)
Definition write_answer (n b : Z) : outcome BlkError unit :=
  if b <? n then Ok tt else Err (InvalidBlockIndex b).

(** The contents after the writes [ls]. *)
Definition written (ls : list (Z * list Z)) (old : Z → list Z) (x : Z) : list Z :=
  default (old x) ((list_to_map ls : gmap Z (list Z)) !! x).

Definition same_geometry (d d' : D) : Prop := num_blocks d' = num_blocks d ∧ block_size d' = block_size d.

Lemma write_submit_run ls : ∀ (s : CSt) f,
  dok (cq_dev s) → Z.of_nat (length ls) ≤ room (cq_dev s) → NoDup ls.*1 →
  Forall (λ p, 0 ≤ p.1 ∧ Z.of_nat (length p.2) = block_size (cq_dev s)) ls →
  (∀ b, b ∈ ls.*1 → wf_results f !! b = None ∧ b ∉ (wf_requested f).*1) →
  pend (wf_requested f).*1 (wf_map f) (cq_dev s) →
  ∃ d' f', write_submit ls f s = (set_dev d' s, Ok (Ready tt, f')) ∧ dok d' ∧ same_geometry (cq_dev s) d' ∧
    room (cq_dev s) - Z.of_nat (length ls) ≤ room d' ∧
    (∀ x, 0 ≤ x < num_blocks (cq_dev s) → disk d' x = written ls (disk (cq_dev s)) x) ∧
    (∀ b, wf_results f' !! b =
       if decide (b ∈ ls.*1 ∧ num_blocks (cq_dev s) ≤ b) then Some (Err (InvalidBlockIndex b)) else wf_results f !! b) ∧
    (∀ b, b ∈ (wf_requested f').*1 ↔ b ∈ (wf_requested f).*1 ∨ b ∈ ls.*1 ∧ b < num_blocks (cq_dev s)) ∧
    pend (wf_requested f').*1 (wf_map f') d'.
Proof.
  induction ls as [|[b sl] ls IH]; intros s f Hok Hroom Hn Hl Hfresh Hp.
  { exists (cq_dev s), f. destruct s as [d p m a w]. split_and!; try done; try lia.
    intros b. split; [by left|]. intros [?|[[]%not_elem_of_nil _]]; done. }
  simpl in Hn. apply NoDup_cons in Hn as [Hb Hn]. apply Forall_cons in Hl as [[Hb0 Hsl] Hl]. simpl in Hb0, Hsl.
  destruct (Hfresh b) as [Hres Hreq]; [apply elem_of_cons; by left|].
  assert (Hfr : ∀ x, x ∈ ls.*1 → x ≠ b) by (intros x Hx ->; done).
  simpl. rewrite bool_decide_eq_false_2 by (rewrite Hres; by intros [? ?]).
  rewrite bool_decide_eq_false_2 by done. set (n := num_blocks (cq_dev s)) in *. simpl length in Hroom.
  destruct (decide (b < n)) as [Hlt|Hge].
  - destruct (sd_write (cq_dev s) (cq_mach s) b sl Hok) as (d1 & id & E & Hg & Hd); [lia|lia|done|].
    rewrite (bind_run _ _ _ _ _ (call_dev_run _ s _ _ (Ok id) ltac:(done) E)). destruct Hg as (Hok1 & Hr1 & Hn1 & Hb1 & Hc1).
    set (f1 := mk_WriteFuture _ _ _). set (s1 := mk_CmdSt _ _ _ _ _). change (cq_dev s1) with d1 in *.
    assert (Hperm : (wf_requested f1).*1 ≡ₚ b :: (wf_requested f).*1).
    { unfold f1. simpl. by rewrite (bt_insert_perm b tt) by done. }
    destruct (IH s1 f1) as (d' & f' & E' & Hok' & [Hn' Hb'] & Hroom' & Hd' & Hres' & Hreq' & Hp').
    + done.
    + simpl. lia.
    + done.
    + simpl. by rewrite Hb1.
    + intros x Hx. destruct (Hfresh x) as [? ?]; [apply elem_of_cons; by right|]. split; [done|].
      rewrite Hperm. apply not_elem_of_cons. split; [by apply Hfr|done].
    + eapply pend_perm; [symmetry; exact Hperm|]. by apply (pend_insert _ _ (cq_dev s)).
    + exists d', f'. rewrite E'. simpl in *. split_and!; try done; try lia.
      * unfold same_geometry. split; congruence.
      * intros x Hx. rewrite Hd' by (rewrite Hn1; lia). unfold written. simpl. rewrite Hd by lia.
        destruct (decide (x = b)) as [->|Hne].
        -- rewrite lookup_insert_eq, Z.eqb_refl. simpl. rewrite not_elem_of_list_to_map_1; done.
        -- rewrite lookup_insert_ne by done. by rewrite (proj2 (Z.eqb_neq _ _)) by done.
      * intros x. rewrite Hres', Hn1. fold n. destruct (decide (x ∈ ls.*1 ∧ n ≤ x)) as [[? ?]|Hx];
          [rewrite decide_True; [done|split; [by apply elem_of_cons; right|done]]|].
        rewrite decide_False; [done|]. intros [[->|?]%elem_of_cons ?]; [lia|by apply Hx].
      * intros x. rewrite Hreq', Hperm, !elem_of_cons, Hn1. fold n. naive_solver.
  - pose proof (sd_invalid (cq_dev s) (cq_mach s) b (Write sl) Hok (proj1 (Z.nlt_ge _ _) Hge)) as E.
    rewrite (bind_run _ _ _ _ _ (call_dev_run _ s _ _ (Err _) ltac:(done) E)).
    set (f1 := wf_result b _ f). change (mk_CmdSt _ _ _ _ _) with (set_dev (cq_dev s) s).
    destruct (IH (set_dev (cq_dev s) s) f1) as (d' & f' & E' & Hok' & Hgeo & Hroom' & Hd' & Hres' & Hreq' & Hp'); try done.
    + simpl. lia.
    + intros x Hx. destruct (Hfresh x) as [? ?]; [apply elem_of_cons; by right|]. split; [|done].
      unfold f1. simpl. rewrite lookup_insert_ne; [done|]. intros ->. by apply (Hfr x).
    + exists d', f'. rewrite E'. simpl in *. split_and!; try done; try lia; try (by destruct Hgeo).
      * intros x Hx. rewrite Hd' by done. unfold written. simpl. rewrite lookup_insert_ne; [done|].
        intros ->. fold n in Hx. lia.
      * intros x. rewrite Hres'. simpl. fold n. destruct (decide (x = b)) as [->|Hne].
        -- rewrite decide_False by (by intros [? _]). rewrite lookup_insert_eq, decide_True; [done|].
           split; [by apply elem_of_cons; left|lia].
        -- rewrite lookup_insert_ne by done. apply decide_ext. rewrite elem_of_cons. naive_solver.
      * intros x. rewrite Hreq', elem_of_cons. simpl. fold n. naive_solver lia.
Qed.

(** One poll of a completed request. *)
Lemma poll_one b ks mp (s : CSt) : dok (cq_dev s) → pend (b :: ks) mp (cq_dev s) →
  ∃ d' id, mp !! b = Some id ∧ call_dev (poll_request id) s = (set_dev d' s, Ok (Ok tt)) ∧ dok d' ∧
    room d' = room (cq_dev s) ∧ same_geometry (cq_dev s) d' ∧ pend ks mp d' ∧ ∀ x, disk d' x = disk (cq_dev s) x.
Proof.
  intros Hok Hp. pose proof Hp as (_ & Hc & _). destruct (Hc b) as (id & Hid & Hdone); [apply elem_of_cons; by left|].
  destruct (sd_poll (cq_dev s) (cq_mach s) id Hok Hdone) as (d' & E & Hok' & Hr & Hn & Hb & Hcomp & Hd).
  exists d', id. split_and!; try done.
  - by rewrite (call_dev_run _ s _ _ (Ok tt) ltac:(done) E).
  - by eapply pend_poll.
Qed.

Lemma write_poll_run todo : ∀ (s : CSt) f,
  dok (cq_dev s) → pend todo.*1 (wf_map f) (cq_dev s) → (∀ b, b ∈ todo.*1 → wf_results f !! b = None) →
  ∃ d' f', write_poll todo f s = (set_dev d' s, Ok (Ready tt, f')) ∧ dok d' ∧ same_geometry (cq_dev s) d' ∧
    room d' = room (cq_dev s) ∧ (∀ x, disk d' x = disk (cq_dev s) x) ∧
    (∀ b, wf_results f' !! b = if decide (b ∈ todo.*1) then Some (Ok tt) else wf_results f !! b).
Proof.
  induction todo as [|[b []] todo IH]; intros s f Hok Hp Hres.
  { exists (cq_dev s), f. by destruct s. }
  simpl. rewrite bool_decide_eq_false_2 by (rewrite Hres by (apply elem_of_cons; by left); by intros [? ?]).
  destruct (poll_one b todo.*1 _ s Hok Hp) as (d1 & id & Hid & E & Hok1 & Hr1 & [Hn1 Hb1] & Hp1 & Hd1).
  rewrite (bind_lift _ _ _ id) by (by rewrite Hid). rewrite (bind_run _ _ _ _ _ E). cbv iota.
  pose proof Hp as (Hnd & _). apply NoDup_cons in Hnd as [Hb _].
  destruct (IH (set_dev d1 s) (wf_result b (Ok tt) f)) as (d' & f' & E' & Hok' & [Hn' Hb'] & Hr' & Hd' & Hres').
  - done.
  - done.
  - intros x Hx. simpl. rewrite lookup_insert_ne by (intros ->; done). apply Hres, elem_of_cons. by right.
  - exists d', f'. rewrite E'. simpl in *. split_and!; try done; try congruence.
    + unfold same_geometry. split; congruence.
    + intros x. rewrite Hres'. simpl. destruct (decide (x = b)) as [->|Hne].
      * rewrite decide_False by done. rewrite lookup_insert_eq, decide_True; [done|]. apply elem_of_cons. by left.
      * rewrite lookup_insert_ne by done. apply decide_ext. rewrite elem_of_cons. naive_solver.
Qed.

Lemma write_spin_run fuel ls (s : CSt) :
  dok (cq_dev s) → Z.of_nat (length ls) ≤ room (cq_dev s) → NoDup ls.*1 →
  Forall (λ p, 0 ≤ p.1 ∧ Z.of_nat (length p.2) = block_size (cq_dev s)) ls →
  ∃ d', write_spin (S fuel) ls write_new s =
      (set_dev d' s, Ok (write_answer (num_blocks (cq_dev s)) <$> ls.*1)) ∧
    dok d' ∧ same_geometry (cq_dev s) d' ∧ room (cq_dev s) - Z.of_nat (length ls) ≤ room d' ∧
    ∀ x, 0 ≤ x < num_blocks (cq_dev s) → disk d' x = written ls (disk (cq_dev s)) x.
Proof.
  intros Hok Hroom Hn Hl.
  destruct (write_submit_run ls s write_new) as (d1 & f1 & E1 & Hok1 & [Hn1 Hb1] & Hr1 & Hd1 & Hres1 & Hreq1 & Hp1);
    try done.
  { intros b _. split; [apply lookup_empty|apply not_elem_of_nil]. }
  { split_and!; [apply NoDup_nil_2|intros ? []%not_elem_of_nil|intros ? ? ? []%not_elem_of_nil]. }
  destruct (write_poll_run (wf_requested f1) (set_dev d1 s) f1)
    as (d2 & f2 & E2 & Hok2 & [Hn2 Hb2] & Hr2 & Hd2 & Hres2); [done|done| |].
  { intros b [[]%not_elem_of_nil|[Hb Hlt]]%Hreq1. rewrite Hres1, decide_False by lia. apply lookup_empty. }
  exists d2. simpl in *. split_and!; [|done|split; congruence|lia|].
  - unfold write_poll_once. unfold mbind at 1, M_bind at 1. rewrite (bind_run _ _ _ _ _ E1). cbv beta iota.
    rewrite (bind_run _ _ _ _ _ E2). cbv beta iota.
    rewrite (bind_lift _ _ _ (write_answer (num_blocks (cq_dev s)) <$> ls.*1)); [done|].
    apply collect_results_run; [done|]. intros b Hb. rewrite Hres2, Hres1. unfold write_answer.
    destruct (Z.ltb_spec b (num_blocks (cq_dev s))) as [Hlt|Hge].
    + rewrite decide_True; [done|]. apply Hreq1. by right.
    + rewrite decide_False, decide_True; [done|done|]. rewrite Hreq1. intros [[]%not_elem_of_nil|[_ ?]]. lia.
  - intros x Hx. rewrite Hd2. by apply Hd1.
Qed.

(** ** Reading *)

Context (aok : A → Prop) (busy : A → DmaHandle → Prop) {DL : DmaOpLaws A aok busy}.
Context (mask size align : Z) (Hsize : 0 < size < 2 ^ 64) (Halign : 0 < align).

Notation block c := (handle (dc_handle c)).
Notation PI held s := (pool_inv aok busy mask size align held (cq_pool s, (cq_mach s, cq_alloc s))).

(** The contents of a block in use survive. *)
Definition keeps (held : list DCommon) (m m' : Mach) : Prop :=
  ∀ c, c ∈ held → cpu_load (dc_cpu c) size m' = cpu_load (dc_cpu c) size m.

Lemma call_pool_run held (s : CSt) : PI held s →
  ∃ p m a r, call_pool mask size align s = (mk_CmdSt (cq_dev s) p m a (cq_waker s), Ok r) ∧
    keeps held (cq_mach s) m ∧
    match r with
    | Ok c => pool_inv aok busy mask size align (c :: held) (p, (m, a)) ∧ (length (cq_pool s) ≤ S (length p))%nat
    | Err _ => pool_inv aok busy mask size align held (p, (m, a)) ∧ cq_pool s = []
    | Stuck => False
    end.
Proof.
  intros Hi. pose proof Hi as (Ha & _ & Hg & _).
  set (ps := (cq_pool s, (cq_mach s, cq_alloc s))) in *.
  assert (Hstep : ∀ x, pool_step mask size align FromDevice (held, ps) x → pool_inv aok busy mask size align x.1 x.2)
    by (intros x Hx; by apply (pool_step_inv aok busy mask size align FromDevice Hsize Halign) in Hx).
  unfold call_pool. fold ps.
  destruct (pool_alloc mask size align FromDevice ps) as [[p [m a]] r] eqn:E.
  assert (Hk : keeps held (cq_mach s) m).
  { intros c Hc. destruct (Hg (block c)) as (Hb & Hs & _).
    { apply list_elem_of_fmap. exists c. split; [done|]. apply elem_of_app. by left. }
    apply load_ext. intros x Hx. unfold pool_alloc, ps in E. simpl in E. destruct (cq_pool s); [|by injection E as <- <- <-].
    unfold dev in E. simpl in E. destruct (pool_array mask size align FromDevice (cq_mach s, cq_alloc s)) as [[m1 a1] r1] eqn:E1.
    injection E as <- <- <- <-. eapply (pool_array_keeps aok busy mask size align FromDevice Hsize); try done.
    apply in_area_spec. rewrite Hs. done. }
  destruct r as [c|e|].
  - exists p, m, a, (Ok c). split_and!; [done|done|apply (Hstep (c :: held, (p, (m, a)))), pool_take, E|].
    unfold pool_alloc, ps in E. simpl in E. destruct (cq_pool s) as [|c' q]; [simpl; lia|].
    injection E as <- <- <- <-. simpl. lia.
  - exists p, m, a, (Err e). split_and!; [done|done|apply (Hstep (held, (p, (m, a)))), (pool_fail _ _ _ _ _ _ _ e), E|].
    unfold pool_alloc, ps in E. simpl in E. by destruct (cq_pool s).
  - exfalso. unfold pool_alloc, ps in E. simpl in E. destruct (cq_pool s); [|done].
    unfold dev in E. simpl in E.
    pose proof (pool_array_run aok busy mask size align FromDevice Hsize Halign (cq_mach s) (cq_alloc s) Ha) as Hr.
    destruct (pool_array mask size align FromDevice (cq_mach s, cq_alloc s)) as [[m1 a1] [?|?|]]; done.
Qed.

(** Storing into one buffer keeps the others. *)
Lemma store_keeps c held d bs m :
  pool_inv aok busy mask size align (c :: held) d → Z.of_nat (length bs) = size →
  keeps held m (cpu_store (dc_cpu c) bs m) ∧ cpu_load (dc_cpu c) size (cpu_store (dc_cpu c) bs m) = bs.
Proof.
  intros (_ & Hn & Hg & Hd) Hl. simpl in *. apply NoDup_cons in Hn as [Hc _]. split.
  - intros c' Hc'. assert (Hin : block c' ∈ (λ c, block c) <$> held ++ d.1).
    { apply list_elem_of_fmap. exists c'. split; [done|]. apply elem_of_app. by left. }
    apply load_ext. intros x Hx. rewrite cpu_at_store, Hl.
    destruct (Hg (block c')) as (_ & Hs' & _); [apply elem_of_cons; by right|].
    destruct (Hg (block c)) as (_ & Hs & _); [apply elem_of_cons; by left|].
    destruct (Hd (block c) (block c')) as [Ha|Ha]; [apply elem_of_cons; by left|apply elem_of_cons; by right| | |];
      [intros Heq; apply Hc; by rewrite Heq| |];
      rewrite in_area_out by (unfold dc_cpu in *; lia); done.
  - rewrite <- Hl. apply load_bytes. intros x Hx. by rewrite cpu_at_store, (proj2 (in_area_spec _ _ _)).
Qed.

Lemma keeps_trans held m1 m2 m3 : keeps held m1 m2 → keeps held m2 m3 → keeps held m1 m3.
Proof. intros H1 H2 c Hc. by rewrite H2, H1. Qed.

Lemma drop_inv c held p d : pool_inv aok busy mask size align (c :: held) (p, d) →
  pool_inv aok busy mask size align held (p ++ [c], d).
Proof. apply pool_inv_perm. simpl. solve_Permutation. Qed.

(** The state of a read: the buffers [bufs] of the requested blocks hold what
    the disk has. *)
Record reading (bufs : list (Z * DCommon)) (f : ReadFuture) (s : CSt) : Prop := {
  rd_ok : dok (cq_dev s);
  rd_size : block_size (cq_dev s) = size;
  rd_requested : rf_requested f = (λ p, (p.1, Some p.2)) <$> bufs;
  rd_pend : pend bufs.*1 (rf_map f) (cq_dev s);
  rd_pool : PI bufs.*2 s;
  rd_filled b c : (b, c) ∈ bufs → cpu_load (dc_cpu c) size (cq_mach s) = disk (cq_dev s) b;
  rd_open b : b ∈ bufs.*1 → rf_results f !! b = None ∧ b < num_blocks (cq_dev s)
}.

Definition alloc_err (e : BlkError) : Prop := e = BlkNoMemory ∨ ∃ e' : DmaError, e = Other e'.

Lemma blk_of_dma_err e : alloc_err (blk_of_dma e).
Proof. destruct e; [by left|by right; eexists..]. Qed.

(** Why the read of a block may fail: it is not there, or there was no buffer
    ([short]). *)
Definition read_fails (n : Z) (short : Prop) (b : Z) (e : BlkError) : Prop :=
  (e = InvalidBlockIndex b ∧ n ≤ b) ∨ (alloc_err e ∧ short).

Lemma buffer_size held c d : pool_inv aok busy mask size align (c :: held) d →
  array_len 1 c = size ∧ dc_size c = size.
Proof.
  intros (_ & _ & Hg & _). destruct (Hg (block c)) as (_ & Hs & _); [apply elem_of_cons; by left|].
  unfold array_len. rewrite Z.div_1_r. done.
Qed.

Lemma filled_keeps bufs (m m' : Mach) (dk : Z → list Z) : keeps bufs.*2 m m' →
  (∀ b c, (b, c) ∈ bufs → cpu_load (dc_cpu c) size m = dk b) →
  ∀ b c, (b, c) ∈ bufs → cpu_load (dc_cpu c) size m' = dk b.
Proof.
  intros Hk Hf b c Hin. rewrite Hk by (apply list_elem_of_fmap; by exists (b, c)). by apply Hf.
Qed.

(** A buffer for the block was found and the device filled it. *)
Lemma reading_add bufs f s b c p m a d' id :
  reading bufs f s → b ∉ bufs.*1 → rf_results f !! b = None → 0 ≤ b < num_blocks (cq_dev s) →
  keeps bufs.*2 (cq_mach s) m → pool_inv aok busy mask size align (c :: bufs.*2) (p, (m, a)) →
  grown (cq_dev s) d' id → (∀ x, disk d' x = disk (cq_dev s) x) →
  reading (bt_insert b c bufs)
    (mk_ReadFuture (bt_insert b (Some c) (rf_requested f)) (<[b := id]> (rf_map f)) (rf_results f))
    (mk_CmdSt d' p (cpu_store (dc_cpu c) (disk (cq_dev s) b) m) a (cq_waker s)).
Proof.
  intros [Hok Hbs Hrq Hp Hpi Hfl Hop] Hb Hres Hbn Hk Hpi' Hg Hd. pose proof Hg as (Hok' & _ & Hn' & Hb' & _).
  pose proof (bt_insert_perm b c bufs Hb) as Hperm.
  destruct (store_keeps c bufs.*2 _ (disk (cq_dev s) b) m Hpi') as [Hk2 Hl]; [rewrite <- Hbs; by apply sd_length|].
  split; simpl.
  - done.
  - by rewrite Hb'.
  - by rewrite Hrq, bt_insert_fmap.
  - apply (pend_perm (b :: bufs.*1)); [by rewrite Hperm|]. by apply (pend_insert _ _ (cq_dev s)).
  - eapply (pool_inv_perm aok busy mask size align (c :: bufs.*2)); [by rewrite Hperm|]. exact Hpi'.
  - intros x c' Hin. rewrite Hperm in Hin. apply elem_of_cons in Hin as [[= -> ->]|Hin]; [by rewrite Hd|].
    rewrite Hd. eapply filled_keeps; [eapply keeps_trans; [exact Hk|exact Hk2]|exact Hfl|exact Hin].
  - intros x Hx. rewrite Hperm in Hx. rewrite Hn'. apply elem_of_cons in Hx as [->|Hx]; [split; [done|apply Hbn]|by apply Hop].
Qed.

(** No buffer, or a block that is not there. *)
Lemma reading_fail bufs f s b e p m a :
  reading bufs f s → b ∉ bufs.*1 → keeps bufs.*2 (cq_mach s) m →
  pool_inv aok busy mask size align bufs.*2 (p, (m, a)) →
  reading bufs (rf_result b (Err e) f) (mk_CmdSt (cq_dev s) p m a (cq_waker s)).
Proof.
  intros [Hok Hbs Hrq Hp Hpi Hfl Hop] Hb Hk Hpi'. split; simpl; try done.
  - by eapply filled_keeps.
  - intros x Hx. rewrite lookup_insert_ne by (intros ->; done). by apply Hop.
Qed.

(** What the first loop did with the blocks [ls]. *)
Record submitted (ls : list Z) (bufs bufs' : list (Z * DCommon)) (f f' : ReadFuture) (s s' : CSt) : Prop := {
  su_reading : reading bufs' f' s';
  su_geometry : same_geometry (cq_dev s) (cq_dev s');
  su_disk x : disk (cq_dev s') x = disk (cq_dev s) x;
  su_room : room (cq_dev s) - Z.of_nat (length ls) ≤ room (cq_dev s');
  su_others x : x ∉ ls → rf_results f' !! x = rf_results f !! x;
  su_bufs x : x ∈ bufs'.*1 → x ∈ bufs.*1 ∨ x ∈ ls;
  su_each x : x ∈ ls → x ∈ bufs'.*1 ∨
    ∃ e, rf_results f' !! x = Some (Err e) ∧
      read_fails (num_blocks (cq_dev s)) (length (cq_pool s) < length ls)%nat x e
}.

Lemma submitted_cons b ls bufs bufs1 bufs' f f1 f' s s1 s' :
  b ∉ ls →
  same_geometry (cq_dev s) (cq_dev s1) → (∀ x, disk (cq_dev s1) x = disk (cq_dev s) x) →
  room (cq_dev s) - 1 ≤ room (cq_dev s1) → (length (cq_pool s) ≤ S (length (cq_pool s1)))%nat →
  (∀ x, x ≠ b → rf_results f1 !! x = rf_results f !! x) →
  (∀ x, x ∈ bufs1.*1 → x = b ∨ x ∈ bufs.*1) →
  (b ∈ bufs'.*1 ∨ ∃ e, rf_results f1 !! b = Some (Err e) ∧
     read_fails (num_blocks (cq_dev s)) (length (cq_pool s) < S (length ls))%nat b e) →
  submitted ls bufs1 bufs' f1 f' s1 s' → submitted (b :: ls) bufs bufs' f f' s s'.
Proof.
  intros Hb [Hg1 Hg2] Hd Hr Hp Hres Hbufs Hhd [Hrd [Hg1' Hg2'] Hd' Hr' Ho Hbu Hea]. split.
  - done.
  - unfold same_geometry. split; congruence.
  - intros x. by rewrite Hd', Hd.
  - simpl. lia.
  - intros x [Hx1 Hx2]%not_elem_of_cons. by rewrite Ho, Hres.
  - intros x Hx. rewrite elem_of_cons. destruct (Hbu x Hx) as [[->|?]%Hbufs|?]; auto.
  - intros x [->|Hx]%elem_of_cons.
    + destruct Hhd as [?|(e & He & ?)]; [by left|]. right. exists e. by rewrite Ho.
    + destruct (Hea x Hx) as [?|(e & He & Hf)]; [by left|]. right. exists e. split; [done|]. rewrite Hg1 in Hf.
      destruct Hf as [?|[? ?]]; [by left|right]. split; [done|]. simpl. lia.
Qed.

Lemma read_submit_run ls : ∀ s f bufs,
  reading bufs f s → Z.of_nat (length ls) ≤ room (cq_dev s) → NoDup ls → Forall (Z.le 0) ls →
  (∀ b, b ∈ ls → rf_results f !! b = None ∧ b ∉ bufs.*1) →
  ∃ s' f' bufs', read_submit mask size align ls f s = (s', Ok (Ready tt, f')) ∧ submitted ls bufs bufs' f f' s s' ∧
    bufs.*1 ⊆ bufs'.*1.
Proof.
  induction ls as [|b ls IH]; intros s f bufs Hrd Hroom Hn Hl Hfresh.
  { exists s, f, bufs. split; [done|]. split; [|done].
    split; try done; try lia; [by left|]. intros ? []%not_elem_of_nil. }
  apply NoDup_cons in Hn as [Hb Hn]. apply Forall_cons in Hl as [Hb0 Hl]. simpl length in Hroom.
  destruct (Hfresh b) as [Hres Hreq]; [apply elem_of_cons; by left|].
  assert (Hne : ∀ x, x ∈ ls → x ≠ b) by (intros x Hx ->; done).
  assert (Hfr : ∀ x, x ∈ ls → rf_results f !! x = None ∧ x ∉ bufs.*1)
    by (intros x Hx; apply Hfresh, elem_of_cons; by right).
  pose proof Hrd as [Hok Hbs Hrq _ Hpi _ _].
  assert (Hrq1 : (rf_requested f).*1 = bufs.*1) by (rewrite Hrq, <- list_fmap_compose; by apply list_fmap_ext).
  simpl. rewrite bool_decide_eq_false_2 by (rewrite Hres; by intros [? ?]).
  rewrite bool_decide_eq_false_2 by (by rewrite Hrq1).
  destruct (call_pool_run bufs.*2 s Hpi) as (p & m & a & r & E & Hk & Hr).
  rewrite (bind_run _ _ _ _ _ E). destruct r as [c|e|]; [|..].
  - destruct Hr as [Hpi' Hlen]. destruct (buffer_size _ _ _ Hpi') as [Hal _].
    set (s1 := mk_CmdSt (cq_dev s) p m a (cq_waker s)).
    destruct (decide (b < num_blocks (cq_dev s))) as [Hlt|Hge].
    + destruct (sd_read (cq_dev s) m b (buffer_of c) Hok) as (d1 & id & E1 & Hg & Hd);
        [lia|lia|simpl; rewrite Hal; lia|].
      rewrite (bind_run _ _ _ _ _ (call_dev_run _ s1 _ _ (Ok id) ltac:(done) E1)). cbv iota.
      pose proof (reading_add bufs f s b c p m a d1 id Hrd Hreq Hres ltac:(lia) Hk Hpi' Hg Hd) as Hrd1.
      pose proof Hg as (_ & Hr1 & Hn1 & Hb1 & _). pose proof (bt_insert_perm b c bufs Hreq) as Hperm.
      destruct (IH _ _ _ Hrd1) as (s' & f' & bufs' & E' & Hsub & Hss); try done.
      * simpl. lia.
      * intros x Hx. destruct (Hfr x Hx) as [? ?]. split; [done|]. rewrite Hperm. apply not_elem_of_cons. auto.
      * exists s', f', bufs'. split; [exact E'|]. rewrite Hperm in Hss. split.
        -- eapply submitted_cons; [done| | | | | | | |exact Hsub]; simpl; try done; try lia.
           ++ intros x. rewrite Hperm. apply elem_of_cons.
           ++ left. apply Hss, elem_of_cons. by left.
        -- intros x Hx. apply Hss, elem_of_cons. by right.
    + pose proof (sd_invalid (cq_dev s) m b (Read (buffer_of c)) Hok (proj1 (Z.nlt_ge _ _) Hge)) as E1.
      rewrite (bind_run _ _ _ _ _ (call_dev_run _ s1 _ _ (Err _) ltac:(done) E1)). cbv iota.
      rewrite (bind_run _ _ _ (mk_CmdSt (cq_dev s) (p ++ [c]) m a (cq_waker s)) tt) by done.
      pose proof (reading_fail bufs f s b (InvalidBlockIndex b) _ _ _ Hrd Hreq Hk (drop_inv _ _ _ _ Hpi')) as Hrd1.
      destruct (IH _ _ _ Hrd1) as (s' & f' & bufs' & E' & Hsub & Hss); try done.
      * simpl. lia.
      * intros x Hx. simpl. rewrite lookup_insert_ne by (symmetry; auto). auto.
      * exists s', f', bufs'. split; [exact E'|]. split; [|done].
        eapply submitted_cons; [done| | | | | | | |exact Hsub]; simpl; try done; try lia.
        -- rewrite length_app. simpl. lia.
        -- intros x Hx. by rewrite lookup_insert_ne.
        -- by right.
        -- right. eexists. rewrite lookup_insert_eq. split; [done|]. left. split; [done|lia].
  - destruct Hr as [Hpi' Hnil].
    pose proof (reading_fail bufs f s b (blk_of_dma e) p m a Hrd Hreq Hk Hpi') as Hrd1.
    destruct (IH _ _ _ Hrd1) as (s' & f' & bufs' & E' & Hsub & Hss); try done.
    + simpl. lia.
    + intros x Hx. simpl. rewrite lookup_insert_ne by (symmetry; auto). auto.
    + exists s', f', bufs'. split; [exact E'|]. split; [|done].
      eapply submitted_cons; [done| | | | | | | |exact Hsub]; simpl; try done; try lia.
      * rewrite Hnil. simpl. lia.
      * intros x Hx. by rewrite lookup_insert_ne.
      * by right.
      * right. eexists. rewrite lookup_insert_eq. split; [done|]. right. split; [apply blk_of_dma_err|].
        rewrite Hnil. simpl. lia.
  - done.
Qed.

Lemma read_poll_run bufs : ∀ (s : CSt) f done_,
  dok (cq_dev s) → pend bufs.*1 (rf_map f) (cq_dev s) → (∀ b, b ∈ bufs.*1 → rf_results f !! b = None) →
  ∃ d' f', read_poll ((λ p, (p.1, Some p.2)) <$> bufs) done_ f s = (set_dev d' s, Ok (Ready tt, f')) ∧
    dok d' ∧ same_geometry (cq_dev s) d' ∧ room d' = room (cq_dev s) ∧ (∀ x, disk d' x = disk (cq_dev s) x) ∧
    (∀ b c, (b, c) ∈ bufs → rf_results f' !! b = Some (Ok (mk_BlockData b c))) ∧
    (∀ b, b ∉ bufs.*1 → rf_results f' !! b = rf_results f !! b).
Proof.
  induction bufs as [|[b c] bufs IH]; intros s f done_ Hok Hp Hres.
  { destruct s as [d p m a w]. exists d, (mk_ReadFuture (rev_append done_ []) (rf_map f) (rf_results f)). split; [reflexivity|]. split_and!; try done. intros ? ? []%not_elem_of_nil. }
  simpl. rewrite bool_decide_eq_false_2 by (rewrite Hres by (apply elem_of_cons; by left); by intros [? ?]).
  destruct (poll_one b bufs.*1 _ s Hok Hp) as (d1 & id & Hid & E & Hok1 & Hr1 & [Hn1 Hb1] & Hp1 & Hd1).
  rewrite (bind_lift _ _ _ id) by (by rewrite Hid). rewrite (bind_run _ _ _ _ _ E). cbv iota.
  rewrite (bind_lift _ _ _ c) by done.
  pose proof Hp as (Hnd & _). apply NoDup_cons in Hnd as [Hb _].
  destruct (IH (set_dev d1 s) (rf_result b (Ok (mk_BlockData b c)) f) ((b, None) :: done_))
    as (d' & f' & E' & Hok' & [Hn' Hb'] & Hr' & Hd' & Hres' & Hoth').
  - done.
  - done.
  - intros x Hx. simpl. rewrite lookup_insert_ne by (intros ->; done). apply Hres, elem_of_cons. by right.
  - exists d', f'. split; [exact E'|]. simpl in *. split_and!; try done; try congruence.
    + unfold same_geometry. split; congruence.
    + intros x c' [[= -> ->]|Hin]%elem_of_cons; [|by apply Hres']. by rewrite Hoth', lookup_insert_eq.
    + intros x [Hxb Hx]%not_elem_of_cons. by rewrite Hoth', lookup_insert_ne.
Qed.

(** What a read of the block [b] answers: its content in a buffer of the list,
    or the reason. *)
Definition read_answer (n : Z) (short : Prop) (dk : Z → list Z) (m : Mach) (held : list DCommon) (b : Z)
    (r : outcome BlkError BlockData) : Prop :=
  match r with
  | Ok bd => bd_block_id bd = b ∧ b < n ∧ bd_bytes bd m = dk b ∧ bd_data bd ∈ held
  | Err e => read_fails n short b e
  | Stuck => False
  end.

Lemma reading_new (s : CSt) : dok (cq_dev s) → block_size (cq_dev s) = size → PI [] s → reading [] read_new s.
Proof.
  intros Hok Hbs Hpi. split; simpl; try done.
  - split_and!; [apply NoDup_nil_2|intros ? []%not_elem_of_nil|intros ? ? ? []%not_elem_of_nil].
  - intros ? ? []%not_elem_of_nil.
  - intros ? []%not_elem_of_nil.
Qed.

Lemma read_spin_run fuel ls (s : CSt) :
  dok (cq_dev s) → block_size (cq_dev s) = size → PI [] s →
  Z.of_nat (length ls) ≤ room (cq_dev s) → NoDup ls → Forall (Z.le 0) ls →
  ∃ s' out held, read_spin mask size align (S fuel) ls read_new s = (s', Ok out) ∧
    Forall2 (read_answer (num_blocks (cq_dev s)) (length (cq_pool s) < length ls)%nat (disk (cq_dev s)) (cq_mach s') held)
      ls out ∧
    PI held s' ∧ dok (cq_dev s') ∧ same_geometry (cq_dev s) (cq_dev s') ∧
    (∀ x, disk (cq_dev s') x = disk (cq_dev s) x).
Proof.
  intros Hok Hbs Hpi Hroom Hn Hl.
  destruct (read_submit_run ls s read_new [] (reading_new s Hok Hbs Hpi) Hroom Hn Hl)
    as (s1 & f1 & bufs & E1 & Hsub & _).
  { intros b _. split; [apply lookup_empty|apply not_elem_of_nil]. }
  destruct Hsub as [[Hok1 Hbs1 Hrq Hp1 Hpi1 Hfl Hop] [Hg1 Hg2] Hd1 _ Hoth Hbufs Heach].
  destruct (read_poll_run bufs s1 f1 [] Hok1 Hp1) as (d2 & f2 & E2 & Hok2 & [Hg1' Hg2'] & _ & Hd2 & Hres2 & Hoth2).
  { intros b Hb. by apply Hop. }
  set (g b := default Stuck (rf_results f2 !! b)).
  assert (Hg : ∀ b, b ∈ ls → rf_results f2 !! b = Some (g b) ∧
    read_answer (num_blocks (cq_dev s)) (length (cq_pool s) < length ls)%nat (disk (cq_dev s)) (cq_mach s1) bufs.*2 b (g b)).
  { intros b Hb. unfold g. destruct (decide (b ∈ bufs.*1)) as [Hin|Hin].
    - apply list_elem_of_fmap in Hin as ([b' c] & -> & Hin). simpl in *. rewrite (Hres2 _ _ Hin). split; [done|]. simpl.
      destruct (Hop b') as [_ Hlt]; [apply list_elem_of_fmap; by exists (b', c)|].
      assert (Hc : c ∈ bufs.*2) by (apply list_elem_of_fmap; by exists (b', c)).
      split_and!; [done|congruence| |done]. unfold bd_bytes. simpl.
      destruct Hpi1 as (_ & _ & Hgd & _). destruct (Hgd (block c)) as (_ & Hs & _).
      { apply list_elem_of_fmap. exists c. split; [done|]. apply elem_of_app. by left. }
      replace (array_len 1 c) with size by (unfold array_len; rewrite Z.div_1_r; done).
      rewrite (Hfl _ _ Hin). apply Hd1.
    - rewrite Hoth2 by done. destruct (Heach b Hb) as [?|(e & He & Hf)]; [done|]. rewrite He. split; [done|exact Hf]. }
  exists (set_dev d2 s1), (g <$> ls), bufs.*2. split_and!; simpl; [| |done|done|..].
  - simpl. unfold read_poll_once. unfold mbind at 1, M_bind at 1. rewrite (bind_run _ _ _ _ _ E1). cbv beta iota.
    rewrite Hrq, (bind_run _ _ _ _ _ E2). cbv beta iota.
    rewrite (bind_lift _ _ _ (g <$> ls)); [done|].
    apply collect_results_run; [done|]. intros b Hb. by apply Hg.
  - apply Forall2_fmap_r, Forall_Forall2_diag, Forall_forall. intros b Hb. by apply Hg.
  - unfold same_geometry. split; congruence.
  - intros x. by rewrite Hd2.
Qed.

Lemma seqZ_fresh a n : NoDup (seqZ a n) ∧ (0 ≤ a → Forall (Z.le 0) (seqZ a n)).
Proof.
  split; [apply NoDup_seqZ|]. intros Ha. apply Forall_forall. intros x Hx%elem_of_seqZ. lia.
Qed.

(** A blocking read of [n] blocks from a device that completes its
    requests answers each block: with a buffer that holds the block's content
    and with its id, or with [InvalidBlockIndex] exactly for a block past the end,
    or with an allocation error only if the pool has fewer buffers than blocks
    were asked for. The device keeps its contents, and the buffers given out
    stay apart from each other and from the pool. One poll is enough. *)
Theorem read_blocks_spec fuel (s : CSt) blk n :
  dok (cq_dev s) → block_size (cq_dev s) = size → PI [] s →
  0 ≤ blk → 0 ≤ n ≤ room (cq_dev s) → blk + n < 2 ^ 64 →
  ∃ s' out held, read_blocks mask size align (S fuel) blk n s = (s', Ok out) ∧
    Forall2 (read_answer (num_blocks (cq_dev s)) (Z.of_nat (length (cq_pool s)) < n) (disk (cq_dev s)) (cq_mach s') held)
      (seqZ blk n) out ∧
    PI held s' ∧ dok (cq_dev s') ∧ (∀ x, disk (cq_dev s') x = disk (cq_dev s) x).
Proof.
  intros Hok Hbs Hpi Hb Hn Hlt. destruct (seqZ_fresh blk n) as [Hnd Hnn].
  destruct (read_spin_run fuel (seqZ blk n) s Hok Hbs Hpi) as (s' & out & held & E & Hf & Hpi' & Hok' & _ & Hd');
    [rewrite length_seqZ; lia|done|by apply Hnn|].
  exists s', out, held. split_and!; try done.
  - unfold read_blocks. rewrite (bind_lift _ _ _ (blk + n)) by (apply uadd_ok; lia).
    by replace (blk + n - blk) with n by lia.
  - eapply Forall2_impl; [exact Hf|]. rewrite length_seqZ. intros b r.
    destruct r; simpl; [done| |done]. unfold read_fails. intros [?|[? ?]]; [by left|right]. split; [done|lia].
Qed.

(** The blocks [write_blocks] cuts the data into. *)
Lemma block_vecs_run start bs n : ∀ i data, 0 ≤ start + i → start + i + Z.of_nat n ≤ 2 ^ 64 → length data = (n * bs)%nat →
  ∃ vecs, block_vecs start i bs n data = Ok vecs ∧ vecs.*1 = seqZ (start + i) (Z.of_nat n) ∧ concat vecs.*2 = data ∧
    Forall (λ p, 0 ≤ p.1 ∧ length p.2 = bs) vecs.
Proof.
  induction n as [|n IH]; intros i data Hs Hlt Hl.
  { exists []. split_and!; try done. by destruct data. }
  destruct (IH (i + 1) (drop bs data)) as (vecs & E & H1 & H2 & H3); [lia|lia|rewrite length_drop; lia|].
  exists ((start + i, take bs data) :: vecs). split_and!.
  - cbn [block_vecs]. rewrite uadd_ok by lia. simpl. by rewrite E.
  - rewrite (seqZ_cons (start + i)), fmap_cons, H1 by lia. simpl fst. do 2 f_equal; lia.
  - rewrite fmap_cons. simpl. rewrite H2. apply take_drop.
  - constructor; [|done]. simpl. rewrite length_take. lia.
Qed.

Lemma written_concat (vecs : list (Z * list Z)) old : NoDup vecs.*1 →
  concat (written vecs old <$> vecs.*1) = concat vecs.*2.
Proof.
  intros Hn. f_equal. rewrite <- list_fmap_compose. apply list_fmap_ext. intros i [b sl] Hi. simpl.
  unfold written. rewrite (elem_of_list_to_map_1 vecs b sl); [done|done|]. by eapply list_elem_of_lookup_2.
Qed.

(** All blocks in range and enough buffers: every answer is a buffer. *)
Lemma read_answers_ok n short dk m held ls out : Forall2 (read_answer n short dk m held) ls out → ¬ short →
  Forall (λ b, b < n) ls →
  ∃ bds, out = Ok <$> bds ∧ bd_block_id <$> bds = ls ∧ (λ bd, bd_bytes bd m) <$> bds = dk <$> ls.
Proof.
  intros Hf Hs. induction Hf as [|b r ls out Hr _ IH]; intros Hl; [by exists []|].
  apply Forall_cons in Hl as [Hb Hl]. destruct (IH Hl) as (bds & -> & H1 & H2).
  destruct r as [bd|e|]; simpl in Hr.
  - destruct Hr as (Hid & _ & Hbytes & _). exists (bd :: bds). rewrite !fmap_cons, Hid, Hbytes, H1, H2. by split_and!.
  - destruct Hr as [[_ ?]|[_ ?]]; [lia|done].
  - done.
Qed.

(** C35: reading back, on a device that completes every request when it is
    submitted and never asks to try again ([SyncDisk]; the RAM disk is one, the
    NVMe driver is not, and its count of blocks is wrong:
    [NvmeProof.nvm_cmd_one_block_more]). Data written to a range of blocks of
    the device is what a read of the range returns, block by block and in
    order; every write is acknowledged, and the other blocks are unchanged. The
    data are whole blocks, the range is on the device, which has request
    numbers left for the blocks of both calls, and the pool has a buffer for
    each block. *)
Theorem write_read_roundtrip fuel fuel' (s : CSt) blk n data :
  dok (cq_dev s) → block_size (cq_dev s) = size → PI [] s →
  length data = (n * Z.to_nat size)%nat → 0 ≤ blk → blk + Z.of_nat n ≤ num_blocks (cq_dev s) →
  blk + Z.of_nat n < 2 ^ 64 → 2 * Z.of_nat n ≤ room (cq_dev s) → (n ≤ length (cq_pool s))%nat →
  ∃ s1 s2 bds, write_blocks (S fuel) blk data s = (s1, Ok (replicate n (Ok tt))) ∧
    read_blocks mask size align (S fuel') blk (Z.of_nat n) s1 = (s2, Ok (Ok <$> bds)) ∧
    bd_block_id <$> bds = seqZ blk (Z.of_nat n) ∧
    concat ((λ bd, bd_bytes bd (cq_mach s2)) <$> bds) = data ∧
    ∀ x, 0 ≤ x < num_blocks (cq_dev s) → x < blk ∨ blk + Z.of_nat n ≤ x → disk (cq_dev s2) x = disk (cq_dev s) x.
Proof.
  intros Hok Hbs Hpi Hl Hb Hbn Hlt Hroom Hpool.
  destruct (block_vecs_run blk (Z.to_nat size) n 0 data) as (vecs & Ev & Hk & Hv & Hf); [lia|lia|done|].
  rewrite Z.add_0_r in Hk. destruct (seqZ_fresh blk (Z.of_nat n)) as [Hnd _].
  assert (Hlen : length vecs = n) by (rewrite <- (length_fmap fst), Hk, length_seqZ; lia).
  assert (Hin : ∀ x, x ∈ seqZ blk (Z.of_nat n) → 0 ≤ x < num_blocks (cq_dev s))
    by (intros x Hx%elem_of_seqZ; lia).
  destruct (write_spin_run fuel vecs s Hok) as (d1 & E1 & Hok1 & [Hn1 Hb1] & Hr1 & Hd1); [lia|by rewrite Hk| |].
  { eapply Forall_impl; [exact Hf|]. intros [b sl]. simpl. intros [? ->]. lia. }
  destruct (read_blocks_spec fuel' (set_dev d1 s) blk (Z.of_nat n)) as (s2 & out & held & E2 & Hout & _ & _ & Hd2);
    [done|simpl; congruence|done|lia|simpl; lia|lia|].
  destruct (read_answers_ok _ _ _ _ _ _ _ Hout) as (bds & -> & Hids & Hbytes).
  { simpl. lia. }
  { apply Forall_forall. intros x Hx. apply Hin in Hx. simpl. lia. }
  exists (set_dev d1 s), s2, bds. split_and!; [|exact E2|exact Hids| |].
  - unfold write_blocks. rewrite (bind_run _ _ _ s s) by done. cbv zeta. rewrite Hbs.
    rewrite Hl, Nat2Z.inj_mul, Z2Nat.id by lia.
    rewrite Z.div_mul, Z.mod_mul, Nat2Z.id by lia. rewrite (proj2 (Z.eqb_neq _ _)) by lia. change (false || negb (0 =? 0)) with false. cbv iota.
    rewrite (bind_lift _ _ _ vecs) by done. rewrite E1. do 2 f_equal. rewrite Hk.
    apply list_eq. intros i. rewrite list_lookup_fmap. destruct (decide (i < n)%nat) as [Hi|Hi].
    + rewrite lookup_seqZ_lt, lookup_replicate_2 by lia. simpl. unfold write_answer.
      by rewrite (proj2 (Z.ltb_lt _ _)) by lia.
    + rewrite lookup_seqZ_ge by lia. simpl. symmetry. apply lookup_ge_None. rewrite length_replicate. lia.
  - rewrite Hbytes, <- Hv, <- (written_concat vecs (disk (cq_dev s))) by (by rewrite Hk). f_equal. rewrite Hk.
    apply list_fmap_ext. intros i x Hx%list_elem_of_lookup_2. apply Hd1. by apply Hin.
  - intros x Hx Hout'. rewrite Hd2. simpl. rewrite Hd1 by done. unfold written.
    rewrite not_elem_of_list_to_map_1; [done|]. rewrite Hk, elem_of_seqZ. lia.
Qed.
End Client.

(** ** The RAM disk *)

Lemma elem_of_remove_first x y l : NoDup l → y ∈ remove_first x l ↔ y ∈ l ∧ y ≠ x.
Proof.
  induction l as [|z l IH]; simpl; intros Hn; [split; [intros []%not_elem_of_nil|intros [[]%not_elem_of_nil _]]|].
  apply NoDup_cons in Hn as [Hz Hn]. destruct (Z.eqb_spec z x) as [->|Hne].
  - rewrite elem_of_cons. split; [|naive_solver]. intros Hy. split; [by right|]. intros ->. done.
  - rewrite !elem_of_cons, IH by done. naive_solver.
Qed.

Lemma remove_first_sublist x l : remove_first x l `sublist_of` l.
Proof.
  induction l as [|z l IH]; simpl; [done|]. destruct (z =? x); [by apply sublist_cons|by apply sublist_skip].
Qed.

Section RamDiskProof.
Context (qid bs num : Z).
Context (Hqid : 0 ≤ qid < 64) (Hbs : 0 < bs) (Hnum : 0 ≤ num) (Hcap : bs * num < 2 ^ 64).
Local Instance RQ : IQueue RamInner := RamQueue_IQueue qid bs num.

Definition ram_ids (r : RamInner) : list Z := completed_reads r ++ completed_writes r.

(** The storage has all blocks; request ids are not used twice. *)
Definition ram_ok (r : RamInner) : Prop :=
  Z.of_nat (length (storage r)) = bs * num ∧ NoDup (ram_ids r) ∧ Forall (λ i, i < next_req_id r) (ram_ids r) ∧
  0 ≤ next_req_id r.
Definition ram_room (r : RamInner) : Z := 2 ^ 64 - 1 - next_req_id r.
Definition ram_block (r : RamInner) (b : Z) : list Z := take (Z.to_nat bs) (drop (Z.to_nat (b * bs)) (storage r)).
Definition ram_done (r : RamInner) (id : Z) : Prop := id ∈ ram_ids r.

(** Accepting a request keeps the ids fresh. *)
Lemma ram_grown r r' : ram_ok r → length (storage r') = length (storage r) →
  next_req_id r' = next_req_id r + 1 → ram_ids r' ≡ₚ next_req_id r :: ram_ids r →
  grown ram_ok ram_room ram_done r r' (next_req_id r).
Proof.
  intros (Hl & Hn & Hf & H0) Hs Hid Hp.
  assert (Hnew : next_req_id r ∉ ram_ids r).
  { intros Hin. rewrite Forall_forall in Hf. specialize (Hf _ Hin). simpl in Hf. lia. }
  split_and!; try done.
  - unfold ram_ok. rewrite Hs, Hid. split_and!; [done| | |lia].
    + rewrite Hp. by constructor.
    + rewrite Hp. constructor; [lia|]. eapply Forall_impl; [exact Hf|]. simpl. lia.
  - unfold ram_room. lia.
  - intros j. unfold ram_done. rewrite Hp. apply elem_of_cons.
Qed.

Lemma block_at r b (i : nat) : ram_block r b !! i = if decide (Z.of_nat i < bs) then storage r !! (Z.to_nat (b * bs) + i)%nat else None.
Proof.
  unfold ram_block. destruct (decide _) as [Hi|Hi].
  - rewrite lookup_take_lt by lia. apply lookup_drop.
  - apply lookup_take_ge. lia.
Qed.

Lemma ram_block_write r b slice x : ram_ok r → Z.of_nat (length slice) = bs → 0 ≤ b < num → 0 ≤ x < num →
  ram_block (with_storage (list_inserts (Z.to_nat (b * bs)) slice (storage r)) r) x =
  if x =? b then slice else ram_block r x.
Proof.
  intros (Hl & _) Hsl Hb Hx. apply list_eq. intros i. rewrite block_at. simpl.
  assert (b * bs + bs ≤ bs * num) by nia. assert (x * bs + bs ≤ bs * num) by nia.
  destruct (decide _) as [Hi|Hi].
  - destruct (Z.eqb_spec x b) as [->|Hne].
    + rewrite list_lookup_inserts by lia. f_equal. lia.
    + rewrite block_at, decide_True by done. destruct (decide (x < b)).
      * apply list_lookup_inserts_lt. assert (x * bs + bs ≤ b * bs) by nia. lia.
      * apply list_lookup_inserts_ge. assert (b * bs + bs ≤ x * bs) by nia. lia.
  - destruct (Z.eqb_spec x b) as [->|Hne].
    + symmetry. apply lookup_ge_None. lia.
    + by rewrite block_at, decide_False.
Qed.

Lemma id_insert_ok l : id_insert (E := BlkError) qid l = Ok (Z.lor l (Z.shiftl 1 qid)).
Proof. unfold id_insert, one_shl. by rewrite (proj2 (Z.ltb_lt _ _)) by lia. Qed.

Lemma offset_ok b : 0 ≤ b < num → umul (E := BlkError) 64 b bs = Ok (b * bs).
Proof. intros Hb. apply umul_ok. nia. Qed.

(** An accepted request, step by step. *)
Lemma ram_submit_ok r m b k : ram_ok r → 0 < ram_room r → 0 ≤ b < num →
  let f := match k with
           | Read buff => if buf_size buff <? bs then fail NotSupported
               else _ ← on_mem (cpu_store (virt buff) (ram_block r b));
                    on_disk (λ r, with_completed (completed_reads r ++ [next_req_id r - 1]) (completed_writes r) r)
           | Write slice => if negb (Z.of_nat (length slice) =? bs) then fail NotSupported
               else _ ← on_disk (λ r, with_storage (list_inserts (Z.to_nat (b * bs)) slice (storage r)) r);
                    on_disk (λ r, with_completed (completed_reads r) (completed_writes r ++ [next_req_id r - 1]) r)
           end in
  ∀ r' m', f (with_next_req (next_req_id r + 1) r, m) = ((r', m'), Ok tt) →
  submit_request (mk_Request b k) (r, m) =
    ((with_irq (Z.lor (irq_rx r') (Z.shiftl 1 qid)) r', m'), Ok (next_req_id r)).
Proof.
  intros Hok Hr Hb f r' m' Ef. unfold ram_room in Hr. cbn [submit_request RQ RamQueue_IQueue].
  unfold ram_submit. cbn [block_id req_kind]. rewrite (proj2 (Z.leb_gt _ _)) by lia.
  rewrite (bind_run _ _ _ (r, m) (r, m)) by done. cbv zeta. cbn [fst].
  rewrite (bind_lift _ _ _ (next_req_id r + 1)) by (apply uadd_ok; lia).
  rewrite (bind_run _ _ _ (with_next_req (next_req_id r + 1) r, m) tt) by done.
  rewrite (bind_lift _ _ _ (b * bs)) by (by apply offset_ok).
  assert (Hm : next_req_id (with_next_req (next_req_id r + 1) r) - 1 = next_req_id r) by (simpl; lia).
  erewrite bind_run.
  2: { unfold f in Ef. destruct k.
       - destruct (buf_size b0 <? bs); [done|]. unfold on_mem, on_disk, modify, mbind, M_bind in *. simpl in *.
         replace (next_req_id r + 1 - 1) with (next_req_id r) in Ef by lia. exact Ef.
       - destruct (negb _); [done|]. unfold on_mem, on_disk, modify, mbind, M_bind in *. simpl in *.
         replace (next_req_id r + 1 - 1) with (next_req_id r) in Ef by lia. exact Ef. }
  rewrite (bind_run _ _ _ (r', m') (r', m')) by done. cbn [fst].
  rewrite (bind_lift _ _ _ _ (id_insert_ok _)). done.
Qed.

Lemma ram_write r m b slice : ram_ok r → 0 < ram_room r → 0 ≤ b < num → Z.of_nat (length slice) = bs →
  ∃ r' id, submit_request (mk_Request b (Write slice)) (r, m) = ((r', m), Ok id) ∧
    grown ram_ok ram_room ram_done r r' id ∧
    ∀ x, 0 ≤ x < num → ram_block r' x = if x =? b then slice else ram_block r x.
Proof.
  intros Hok Hr Hb Hsl.
  eexists _, _. split; [apply (ram_submit_ok r m b (Write slice) Hok Hr Hb); rewrite Hsl, Z.eqb_refl; reflexivity|]. simpl.
  split.
  - apply ram_grown; simpl; [done|by rewrite length_inserts|done|].
    unfold ram_ids. simpl. replace (next_req_id r + 1 - 1) with (next_req_id r) by lia. solve_Permutation.
  - intros x Hx. rewrite <- (ram_block_write r b slice x) by done. done.
Qed.

Lemma ram_read r m b buff : ram_ok r → 0 < ram_room r → 0 ≤ b < num → bs ≤ buf_size buff →
  ∃ r' id, submit_request (mk_Request b (Read buff)) (r, m) = ((r', cpu_store (virt buff) (ram_block r b) m), Ok id) ∧
    grown ram_ok ram_room ram_done r r' id ∧ ∀ x, ram_block r' x = ram_block r x.
Proof.
  intros Hok Hr Hb Hsz. eexists _, _. split.
  { apply (ram_submit_ok r m b (Read buff) Hok Hr Hb). rewrite (proj2 (Z.ltb_ge _ _)) by done. reflexivity. }
  simpl. split; [|done].
  apply ram_grown; simpl; [done..|].
  unfold ram_ids. simpl. replace (next_req_id r + 1 - 1) with (next_req_id r) by lia. solve_Permutation.
Qed.

Lemma ram_ok_remove r reads writes : ram_ok r → reads `sublist_of` completed_reads r →
  writes `sublist_of` completed_writes r → ram_ok (with_completed reads writes r).
Proof.
  intros (Hl & Hn & Hf & H0) Hs1 Hs2.
  assert (Hsub : reads ++ writes `sublist_of` ram_ids r) by (by apply sublist_app).
  split_and!; try done; unfold ram_ids; simpl.
  - by eapply sublist_NoDup.
  - rewrite Forall_forall in *. intros x Hx. apply Hf. by eapply elem_of_sublist.
Qed.

Lemma ram_poll_done r m id : ram_ok r → ram_done r id →
  ∃ r', poll_request id (r, m) = ((r', m), Ok tt) ∧ ram_ok r' ∧ ram_room r' = ram_room r ∧
    (∀ j, ram_done r' j ↔ ram_done r j ∧ j ≠ id) ∧ ∀ x, ram_block r' x = ram_block r x.
Proof.
  intros Hok Hid. pose proof Hok as (_ & Hn & _). unfold ram_ids in Hn.
  pose proof Hn as (Hn1 & Hdis & Hn2)%NoDup_app. unfold ram_done, ram_ids in *.
  cbn [poll_request RQ RamQueue_IQueue]. unfold ram_poll. rewrite (bind_run _ _ _ (r, m) (r, m)) by done. cbn [fst].
  destruct (decide (id ∈ completed_reads r)) as [Hr|Hr].
  - rewrite bool_decide_eq_true_2 by done. eexists. split; [reflexivity|]. simpl. split_and!; try done.
    + apply ram_ok_remove; [done|apply remove_first_sublist|done].
    + intros j. rewrite !elem_of_app, elem_of_remove_first by done. naive_solver.
  - rewrite bool_decide_eq_false_2 by done. apply elem_of_app in Hid as [?|Hw]; [done|].
    rewrite bool_decide_eq_true_2 by done. eexists. split; [reflexivity|]. simpl. split_and!; try done.
    + apply ram_ok_remove; [done|done|apply remove_first_sublist].
    + intros j. rewrite !elem_of_app, elem_of_remove_first by done. naive_solver.
Qed.

Lemma RamDisk_SyncDisk : SyncDisk RamInner ram_ok ram_room ram_block ram_done.
Proof.
  split; simpl.
  - done.
  - intros r b (Hl & _) Hb. unfold ram_block. rewrite length_take, length_drop.
    assert (b * bs + bs ≤ bs * num) by nia. lia.
  - intros r m b k _ Hb. unfold ram_submit. simpl. by rewrite (proj2 (Z.leb_le _ _)).
  - intros. by apply ram_write.
  - intros. by apply ram_read.
  - intros r m id Hok Hid. destruct (ram_poll_done r m id Hok Hid) as (r' & ? & ? & ? & ? & ?). exists r'. by split_and!.
Qed.
End RamDiskProof.

(** A new RAM disk is well-formed; block [b] is filled with the byte [b]. *)
Lemma ramdisk_new_ok bs n d : 0 ≤ n → ramdisk_new (E := BlkError) bs n = Ok d → ram_ok bs n (rd_inner d).
Proof.
  intros Hn. unfold ramdisk_new. destruct (Z.ltb_spec 0 bs) as [Hbs|]; [|done].
  destruct (umul 64 bs n) as [?|?|]; [|done..]. intros [= <-]. simpl.
  split_and!; simpl; [|apply NoDup_nil_2|apply Forall_nil_2|lia].
  assert (Hl : ∀ l : list Z, Z.of_nat (length (concat ((λ i, replicate (Z.to_nat bs) (i mod 256)) <$> l))) = bs * Z.of_nat (length l)).
  { induction l as [|i l IH]; [simpl; lia|]. rewrite fmap_cons. cbn [concat]. rewrite length_app, length_replicate, Nat2Z.inj_add, IH. simpl length. lia. }
  rewrite Hl, length_seqZ. lia.
Qed.

(** A disk of two blocks of four bytes and a pool of two buffers. *)
Definition disk0 : RamInner := mk_RamInner [0; 0; 0; 0; 1; 1; 1; 1] [] [] id_none true 1 1.
Definition buf0 (p : Z) : DCommon := mk_DCommon (mk_DmaMapHandle (mk_DmaHandle p p (mk_Layout 4 4)) None) FromDevice.
Definition queue0 : @CmdSt RamInner Bump :=
  mk_CmdSt disk0 [buf0 0x1000; buf0 0x1004] (mk_Mach ∅ ∅)
    (0x1008, [handle (dc_handle (buf0 0x1004)); handle (dc_handle (buf0 0x1000))]) false.

Lemma queue0_pool : pool_inv bump_ok bump_busy u32_max 4 4 [] (cq_pool queue0, (cq_mach queue0, cq_alloc queue0)).
Proof.
  assert (Hi : pool_inv bump_ok bump_busy u32_max 4 4 [] ([], (mk_Mach ∅ ∅, (0x1000, [])))).
  { split_and!; [apply Forall_nil_2|apply NoDup_nil_2|intros ? []%not_elem_of_nil|intros ? ? []%not_elem_of_nil]. }
  destruct (fill_pool_inv bump_ok bump_busy u32_max 4 4 FromDevice ltac:(lia) ltac:(lia) 2 _ Hi) as (s' & E & Hi').
  assert (E' : (fill_pool (A := Bump) u32_max 4 4 FromDevice 2 ([], (mk_Mach ∅ ∅, (0x1000, [])))).1.1 = cq_pool queue0 ∧
    (fill_pool (A := Bump) u32_max 4 4 FromDevice 2 ([], (mk_Mach ∅ ∅, (0x1000, [])))).1.2.2 = cq_alloc queue0)
    by (vm_compute; by split).
  rewrite E in E'. destruct s' as [p [m a]]. destruct E' as [<- <-]. exact Hi'.
Qed.

Lemma disk0_ok : ram_ok 4 2 disk0.
Proof. split_and!; [done|apply NoDup_nil_2|apply Forall_nil_2|done]. Qed.

Lemma read_blocks_spec_witness :
  ∃ s' c, read_blocks (H := RamQueue_IQueue 0 4 2) u32_max 4 4 1 1 2 queue0 =
    (s', Ok [Ok (mk_BlockData 1 c); Err (InvalidBlockIndex 2)]) ∧ bd_bytes (mk_BlockData 1 c) (cq_mach s') = [1; 1; 1; 1].
Proof.
  pose proof (RamDisk_SyncDisk 0 4 2 ltac:(lia) ltac:(lia) ltac:(lia)) as SD.
  destruct (read_blocks_spec (H := RamQueue_IQueue 0 4 2) _ _ _ _ (SD := SD) bump_ok bump_busy u32_max 4 4
    ltac:(lia) ltac:(lia) 0 queue0 1 2) as (s' & out & held & E & Hf & _);
    [exact disk0_ok|reflexivity|exact queue0_pool|lia|vm_compute; split; discriminate|reflexivity|].
  assert (E' : (read_blocks (H := RamQueue_IQueue 0 4 2) u32_max 4 4 1 1 2 queue0).2 =
    Ok [Ok (mk_BlockData 1 (buf0 0x1000)); Err (InvalidBlockIndex 2)]) by (vm_compute; reflexivity).
  rewrite E in E'. simpl in E'. injection E' as ->. exists s', (buf0 0x1000). split; [exact E|].
  apply Forall2_cons in Hf as [(_ & _ & Hb & _) _]. exact Hb.
Defined.

Lemma write_read_roundtrip_witness :
  ∃ s1 s2 bds, write_blocks (H := RamQueue_IQueue 0 4 2) 1 0 [1; 2; 3; 4; 5; 6; 7; 8] queue0 = (s1, Ok [Ok tt; Ok tt]) ∧
    read_blocks (H := RamQueue_IQueue 0 4 2) u32_max 4 4 1 0 2 s1 = (s2, Ok (Ok <$> bds)) ∧
    concat ((λ bd, bd_bytes bd (cq_mach s2)) <$> bds) = [1; 2; 3; 4; 5; 6; 7; 8].
Proof.
  pose proof (RamDisk_SyncDisk 0 4 2 ltac:(lia) ltac:(lia) ltac:(lia)) as SD.
  destruct (write_read_roundtrip (H := RamQueue_IQueue 0 4 2) _ _ _ _ (SD := SD) bump_ok bump_busy u32_max 4 4
    ltac:(lia) ltac:(lia) 0 0 queue0 0 2 [1; 2; 3; 4; 5; 6; 7; 8]) as (s1 & s2 & bds & E1 & E2 & _ & E3 & _);
    [exact disk0_ok|reflexivity|exact queue0_pool|reflexivity|lia|vm_compute; discriminate|reflexivity|
     vm_compute; discriminate|simpl; lia|].
  exists s1, s2, bds. split; [exact E1|]. split; [exact E2|exact E3].
Defined.
