(* ===== verification/Bits.v ===== *)
(** * Bit fields of machine words

    The two idioms the entry formats are written with, [if c { bits |= FLAG }]
    and [(bits & FLAG) != 0], and how they act on single bits. *)

From stdpp Require Import base numbers.
From S2P Require Import Prelude.
Open Scope Z_scope.

(** [if c { bits |= flag }]. *)
Definition set_if (c : bool) (flag bits : Z) : Z := if c then Z.lor bits flag else bits.

(** [(bits & flag) != 0]. *)
Definition has (bits flag : Z) : bool := negb (Z.land bits flag =? 0).

(** The bits [lo .. hi-1] of a word, in place. *)
Definition field_mask (lo hi : Z) : Z := Z.shiftl (Z.ones (hi - lo)) lo.

Lemma has_bit x n : 0 ≤ n → has x (Z.shiftl 1 n) = Z.testbit x n.
Proof.
  intros Hn. unfold has. rewrite Z.shiftl_1_l. destruct (Z.testbit x n) eqn:E.
  - apply negb_true_iff, Z.eqb_neq. intros H0.
    assert (Ht : Z.testbit (Z.land x (2 ^ n)) n = true)
      by (rewrite Z.land_spec, E, Z.pow2_bits_true by done; done).
    by rewrite H0, Z.bits_0 in Ht.
  - apply negb_false_iff, Z.eqb_eq. apply Z.bits_inj'. intros i Hi.
    rewrite Z.land_spec, Z.pow2_bits_eqb, Z.bits_0 by done.
    destruct (Z.eqb_spec n i) as [<-|]; [by rewrite E|by rewrite andb_false_r].
Qed.

(** [(bits & (flag1 | flag2)) != 0]. *)
Lemma has_lor x f g : has x (Z.lor f g) = has x f || has x g.
Proof.
  unfold has. rewrite <- negb_andb. f_equal. rewrite Z.land_lor_distr_r.
  apply eq_bool_prop_intro. rewrite !Is_true_true, andb_true_iff, !Z.eqb_eq. apply Z.lor_eq_0_iff.
Qed.

Lemma testbit_set_if c n x i : 0 ≤ n →
  Z.testbit (set_if c (Z.shiftl 1 n) x) i = Z.testbit x i || (c && (n =? i)).
Proof.
  intros Hn. unfold set_if. rewrite Z.shiftl_1_l. destruct c; simpl; [|by rewrite orb_false_r].
  by rewrite Z.lor_spec, Z.pow2_bits_eqb.
Qed.

Lemma testbit_field_mask lo hi i : 0 ≤ lo ≤ hi → 0 ≤ i →
  Z.testbit (field_mask lo hi) i = (lo <=? i) && (i <? hi).
Proof.
  intros Hb Hi. unfold field_mask. rewrite Z.shiftl_spec by done.
  destruct (Z.leb_spec lo i); simpl; [|apply Z.testbit_neg_r; lia].
  destruct (Z.ltb_spec i hi); [apply Z.ones_spec_low; lia|apply Z.ones_spec_high; lia].
Qed.

Lemma testbit_above x n i : 0 ≤ x < 2 ^ n → n ≤ i → Z.testbit x i = false.
Proof.
  intros Hx Hi. destruct (decide (x = 0)) as [->|]; [apply Z.bits_0|].
  apply Z.bits_above_log2; [lia|]. apply Z.log2_lt_pow2; [lia|].
  apply Z.lt_le_trans with (2 ^ n); [lia|]. apply Z.pow_le_mono_r; lia.
Qed.

Lemma testbit_multiple x n i : (2 ^ n | x) → 0 ≤ i < n → Z.testbit x i = false.
Proof.
  intros [k ->] Hi. rewrite <- Z.shiftl_mul_pow2 by lia. rewrite Z.shiftl_spec by lia.
  apply Z.testbit_neg_r. lia.
Qed.

(** An aligned address below [2^hi] is its own address field. *)
Lemma land_field_mask x lo hi : 0 ≤ lo ≤ hi → (2 ^ lo | x) → 0 ≤ x < 2 ^ hi →
  Z.land x (field_mask lo hi) = x.
Proof.
  intros Hb Hd Hx. apply Z.bits_inj'. intros i Hi.
  rewrite Z.land_spec, testbit_field_mask by done.
  destruct (Z.leb_spec lo i); simpl; [|by rewrite (testbit_multiple x lo) by (done || lia)].
  destruct (Z.ltb_spec i hi); [apply andb_true_r|].
  by rewrite (testbit_above x hi) by lia.
Qed.

(** Flags outside the field do not disturb it. *)
Lemma land_set_if c n x lo hi : 0 ≤ n → 0 ≤ lo ≤ hi → ¬ lo ≤ n < hi →
  Z.land (set_if c (Z.shiftl 1 n) x) (field_mask lo hi) = Z.land x (field_mask lo hi).
Proof.
  intros Hn Hb Hout. apply Z.bits_inj'. intros i Hi.
  rewrite !Z.land_spec, testbit_set_if, testbit_field_mask by done.
  destruct (Z.eqb_spec n i) as [->|]; [|by rewrite andb_false_r, orb_false_r].
  destruct (Z.leb_spec lo i), (Z.ltb_spec i hi); simpl; try by rewrite !andb_false_r. lia.
Qed.

Lemma land_idemp_field x lo hi :
  Z.land (Z.land x (field_mask lo hi)) (field_mask lo hi) = Z.land x (field_mask lo hi).
Proof. by rewrite <- Z.land_assoc, Z.land_diag. Qed.

(** Reading a flag of a word built with [set_if]: evaluate the comparisons of
    bit numbers and the address field. *)
Create HintDb bits.
#[export] Hint Rewrite testbit_set_if using lia : bits.
#[export] Hint Rewrite Z.land_spec Z.lor_spec : bits.

Ltac bit_eval :=
  repeat first
    [ rewrite has_bit by lia | rewrite testbit_set_if by lia
    | rewrite Z.land_spec | rewrite Z.lor_spec | rewrite testbit_field_mask by lia ];
  repeat match goal with
  | |- context [Z.eqb ?a ?b] =>
      let r := eval vm_compute in (Z.eqb a b) in
      match r with true => idtac | false => idtac end; change (Z.eqb a b) with r
  | |- context [Z.leb ?a ?b] =>
      let r := eval vm_compute in (Z.leb a b) in
      match r with true => idtac | false => idtac end; change (Z.leb a b) with r
  | |- context [Z.ltb ?a ?b] =>
      let r := eval vm_compute in (Z.ltb a b) in
      match r with true => idtac | false => idtac end; change (Z.ltb a b) with r
  end;
  rewrite ?andb_false_r, ?andb_true_r, ?orb_false_r, ?orb_true_r; simpl.
