(* ===== verification/Tock.v ===== *)
(** * Bit fields of device registers

    The drivers declare registers with the macros of the crate tock-registers;
    the class [Tock] states what they use of it. *)

From stdpp Require Import base numbers.
From S2P Require Import Prelude.
Open Scope Z_scope.

Record Field : Type := mk_Field { f_offset : Z; f_bits : Z }.
Record FieldValue : Type := mk_FieldValue { fv_mask : Z; fv_value : Z }.

(** What the drivers use of tock-registers: [Field::val], [Field::read],
    addition of field values and [FieldValue::modify], with their documented
    meaning. *)
Class Tock : Type := {
  val : Field → Z → FieldValue;
  read : Field → Z → Z;
  fv_add : FieldValue → FieldValue → FieldValue;
  fv_modify : FieldValue → Z → Z;
  val_mask f v : fv_mask (val f v) = Z.shiftl (Z.ones (f_bits f)) (f_offset f);
  val_value f v : fv_value (val f v) = Z.shiftl (Z.land v (Z.ones (f_bits f))) (f_offset f);
  read_spec f r : read f r = Z.land (Z.shiftr r (f_offset f)) (Z.ones (f_bits f));
  fv_add_mask a b : fv_mask (fv_add a b) = Z.lor (fv_mask a) (fv_mask b);
  fv_add_value a b : fv_value (fv_add a b) = Z.lor (fv_value a) (fv_value b);
  fv_modify_spec a old : fv_modify a old = Z.lor (Z.ldiff old (fv_mask a)) (fv_value a)
}.

Section Fields.
Context `{Tock}.
Definition SET (f : Field) : FieldValue := val f 1.
Definition CLEAR (f : Field) : FieldValue := val f 0.
(** [if c { val += f; }]. *)
Definition add_if (c : bool) (f v : FieldValue) : FieldValue := if c then fv_add v f else v.
Definition is_set (f : Field) (r : Z) : bool := negb (read f r =? 0).
End Fields.

(** ** Reading words that are sums of fields *)

Lemma ones_land_range x n : 0 ≤ n → 0 ≤ Z.land x (Z.ones n) < 2 ^ n.
Proof. intros. rewrite Z.land_ones by done. apply Z.mod_pos_bound. by apply pow2_pos. Qed.

Section FieldLemmas.
Context `{Tock}.

Lemma read_lor f a b : read f (Z.lor a b) = Z.lor (read f a) (read f b).
Proof. by rewrite !read_spec, Z.shiftr_lor, Z.land_lor_distr_l. Qed.

Lemma read_0 f : read f 0 = 0.
Proof. by rewrite read_spec, Z.shiftr_0_l. Qed.

Lemma read_add f a b : read f (fv_value (fv_add a b)) = Z.lor (read f (fv_value a)) (read f (fv_value b)).
Proof. by rewrite fv_add_value, read_lor. Qed.

Lemma read_val f v : 0 ≤ f_offset f → 0 ≤ f_bits f → 0 ≤ v < 2 ^ f_bits f → read f (fv_value (val f v)) = v.
Proof.
  intros Ho Hb Hv. rewrite read_spec, val_value.
  rewrite Z.shiftr_shiftl_l, Z.sub_diag, Z.shiftl_0_r by lia.
  rewrite !Z.land_ones by lia. rewrite Z.mod_mod by (pose proof (pow2_pos (f_bits f)); lia). by apply Z.mod_small.
Qed.

Lemma read_val_mod f v : 0 ≤ f_offset f → 0 ≤ f_bits f → read f (fv_value (val f v)) = v mod 2 ^ f_bits f.
Proof.
  intros Ho Hb. rewrite read_spec, val_value.
  rewrite Z.shiftr_shiftl_l, Z.sub_diag, Z.shiftl_0_r by lia.
  rewrite !Z.land_ones by lia. apply Z.mod_mod. pose proof (pow2_pos (f_bits f)). lia.
Qed.

(** Fields that do not overlap. *)
Definition apart_fields (f g : Field) : bool :=
  (f_offset f + f_bits f <=? f_offset g) || (f_offset g + f_bits g <=? f_offset f).
Definition field_ok (f : Field) : bool := (0 <=? f_offset f) && (0 <=? f_bits f).

Lemma read_val_apart f g v : field_ok f = true → field_ok g = true → apart_fields f g = true →
  read f (fv_value (val g v)) = 0.
Proof.
  unfold field_ok, apart_fields. intros Hf Hg Ha. bool_to_prop. rewrite read_spec, val_value.
  apply Z.bits_inj'. intros i Hi. rewrite Z.bits_0, Z.land_spec, Z.shiftr_spec, Z.shiftl_spec, Z.land_spec by lia.
  destruct (decide (i < f_bits f)); [|rewrite (Z.ones_spec_high (f_bits f)) by lia; apply andb_false_r].
  apply orb_prop in Ha as [Ha|Ha]; bool_to_prop.
  - rewrite (Z.testbit_neg_r v) by lia. done.
  - rewrite (Z.ones_spec_high (f_bits g)) by lia. by rewrite andb_false_r.
Qed.

(** [modify]: a field is replaced when the mask covers it, kept when the mask
    leaves it out. *)
Lemma read_modify_in f fv old : 0 ≤ f_bits f → read f (fv_mask fv) = Z.ones (f_bits f) →
  read f (fv_modify fv old) = read f (fv_value fv).
Proof.
  intros Hb Hm. rewrite fv_modify_spec, read_lor. rewrite !read_spec in *.
  rewrite Z.shiftr_ldiff. assert (Z.land (Z.ldiff (Z.shiftr old (f_offset f)) (Z.shiftr (fv_mask fv) (f_offset f))) (Z.ones (f_bits f)) = 0) as ->; [|done].
  rewrite <- Hm. apply Z.bits_inj'. intros i Hi. rewrite Z.bits_0, !Z.land_spec, Z.ldiff_spec.
  destruct (Z.testbit (Z.shiftr (fv_mask fv) (f_offset f)) i); [by rewrite andb_false_r|by rewrite andb_false_r].
Qed.

Lemma read_modify_out f fv old : read f (fv_mask fv) = 0 → read f (fv_value fv) = 0 →
  read f (fv_modify fv old) = read f old.
Proof.
  intros Hm Hv. rewrite fv_modify_spec, read_lor, Hv, Z.lor_0_r. rewrite !read_spec in *.
  rewrite Z.shiftr_ldiff. apply Z.bits_inj'. intros i Hi. rewrite !Z.land_spec, Z.ldiff_spec.
  apply (f_equal (λ z, Z.testbit z i)) in Hm. rewrite Z.land_spec, Z.bits_0 in Hm.
  destruct (Z.testbit (Z.ones (f_bits f)) i); [|by rewrite !andb_false_r].
  rewrite andb_true_r in Hm. by rewrite Hm, !andb_true_r.
Qed.

(** A register that implements some bits only. *)
Lemma read_land f x mask : 0 ≤ f_bits f → read f mask = Z.ones (f_bits f) → read f (Z.land x mask) = read f x.
Proof.
  intros Hb Hm. rewrite !read_spec in *. rewrite Z.shiftr_land, <- Z.land_assoc, Hm. done.
Qed.

Lemma read_range f x : 0 ≤ f_bits f → 0 ≤ read f x < 2 ^ f_bits f.
Proof. intros Hb. rewrite read_spec. by apply ones_land_range. Qed.

Lemma is_set_val f b : 0 ≤ f_offset f → 0 < f_bits f → is_set f (fv_value (val f (Z.b2z b))) = b.
Proof.
  intros Ho Hb. unfold is_set. assert (2 ^ 1 ≤ 2 ^ f_bits f) by (apply Z.pow_le_mono_r; lia).
  rewrite read_val by (destruct b; simpl; lia). by destruct b.
Qed.
(** Sums built flag by flag. *)
Lemma read_add_if f c g v :
  read f (fv_value (add_if c g v)) =
  Z.lor (read f (fv_value v)) (if c then read f (fv_value g) else 0).
Proof. destruct c; simpl; [by rewrite read_add|by rewrite Z.lor_0_r]. Qed.

Lemma read_add_if_apart f c g v : field_ok f = true → field_ok g = true → apart_fields f g = true →
  read f (fv_value (add_if c (SET g) v)) = read f (fv_value v).
Proof. intros Hf Hg Ha. rewrite read_add_if. unfold SET. rewrite read_val_apart by done. destruct c; apply Z.lor_0_r. Qed.

Lemma read_add_if_here f c v : field_ok f = true → f_bits f = 1 →
  read f (fv_value (add_if c (SET f) v)) = Z.lor (read f (fv_value v)) (Z.b2z c).
Proof.
  unfold field_ok. intros Hf Hb. bool_to_prop. rewrite read_add_if. unfold SET.
  rewrite read_val by (try rewrite Hb; simpl; lia). by destruct c.
Qed.

Lemma flag_here f : field_ok f = true → f_bits f = 1 → read f (fv_value (SET f)) = 1.
Proof. unfold field_ok. intros Hf Hb. bool_to_prop. apply read_val; try rewrite Hb; lia. Qed.
Lemma flag_apart f g : field_ok f = true → field_ok g = true → apart_fields f g = true →
  read f (fv_value (SET g)) = 0.
Proof. apply read_val_apart. Qed.
End FieldLemmas.

(** Read the fields of a word that is a sum of fields. *)
Ltac fields :=
  repeat (rewrite read_add);
  repeat match goal with
  | |- context [read ?f (fv_value (val ?g ?v))] =>
      first [ rewrite (read_val_apart f g v eq_refl eq_refl eq_refl) | rewrite (read_val f v) by (simpl; lia) ]
  end;
  rewrite ?Z.lor_0_l, ?Z.lor_0_r.

(** The documented operations, to run the code. *)
#[export] Instance tock : Tock := {|
  val f v := mk_FieldValue (Z.shiftl (Z.ones (f_bits f)) (f_offset f)) (Z.shiftl (Z.land v (Z.ones (f_bits f))) (f_offset f));
  read f r := Z.land (Z.shiftr r (f_offset f)) (Z.ones (f_bits f));
  fv_add a b := mk_FieldValue (Z.lor (fv_mask a) (fv_mask b)) (Z.lor (fv_value a) (fv_value b));
  fv_modify a old := Z.lor (Z.ldiff old (fv_mask a)) (fv_value a);
  val_mask _ _ := eq_refl;
  val_value _ _ := eq_refl;
  read_spec _ _ := eq_refl;
  fv_add_mask _ _ := eq_refl;
  fv_add_value _ _ := eq_refl;
  fv_modify_spec _ _ := eq_refl
|}.
