(* ===== verification/SysTimer.v ===== *)
(** * The system timer
    crates/someboot/src/timer.rs and the timer's part of the trait [ArchTrait]
    (crates/someboot/src/lib.rs), which each architecture implements, with what
    it promises; and the kernel's timers (os/time/timer.rs, [Timer]) on such a
    timer: whatever is scheduled and cancelled, the interrupt for the first
    deadline comes. *)

From stdpp Require Import base tactics option list numbers gmap.
From S2P Require Import Prelude Timer TimerProof.
Open Scope Z_scope.

Notation TMR V := (M V Empty_set).

(** ** [ArchTrait] *)

Class SysTimer (V : Type) : Type := {
  systimer_enable : TMR V unit;
  systimer_irq_enable : TMR V unit;
  systimer_irq_disable : TMR V unit;
  systimer_irq_is_enabled : TMR V bool;
  systimer_set_interval : Z → TMR V unit;
  systimer_ack : TMR V unit;
  systimer_freq : TMR V Z;
  systimer_tick : TMR V Z
}.

(** [op] runs without a panic to a state that meets [P]. *)
Definition runs {V A} (op : TMR V A) (v : V) (P : V → A → Prop) : Prop := ∃ v' a, op v = (v', Ok a) ∧ P v' a.

Lemma runs_bind {V A B} (op : TMR V A) (f : A → TMR V B) v (P : V → A → Prop) Q :
  runs op v P → (∀ v' a, P v' a → runs (f a) v' Q) → runs (mbind f op) v Q.
Proof.
  intros (v' & a & E & HP) Hf. destruct (Hf v' a HP) as (w & b & E' & HQ). exists w, b.
  split; [|done]. unfold mbind, M_bind. by rewrite E.
Qed.

(** ** timer.rs *)

Definition NANOS_PER_SEC : Z := 1000000000.

(** [Duration::from_nanos] and [as_nanos]. *)
Definition from_nanos (n : Z) : Duration := mk_Duration (n / NANOS_PER_SEC) (n mod NANOS_PER_SEC).
Definition as_nanos (d : Duration) : Z := secs d * NANOS_PER_SEC + nanos d.

Section Boot.
Context {V : Type} `{SysTimer V}.

(** The products are taken in 128 bits; the results are cut to 64. *)
Definition ticks_to_duration (ticks : Z) : TMR V Duration :=
  freq ← systimer_freq;
  if freq =? 0 then mret (mk_Duration 0 0)
  else n ← lift (umul 128 ticks NANOS_PER_SEC); mret (from_nanos ((n / freq) mod 2 ^ 64)).

Definition duration_to_ticks (duration : Duration) : TMR V Z :=
  freq ← systimer_freq;
  if freq =? 0 then mret 0
  else n ← lift (umul 128 (as_nanos duration) freq); mret ((n / NANOS_PER_SEC) mod 2 ^ 64).

Definition set_next_event (interval : Duration) : TMR V unit :=
  ticks ← duration_to_ticks interval; systimer_set_interval ticks.

Definition elapsed : TMR V Duration := ticks ← systimer_tick; ticks_to_duration ticks.

End Boot.

(** Splitting off the seconds before or after the division. *)
Lemma split_seconds t f c : 0 < f → 0 < c → 0 ≤ t → (t * c) / f = t / f * c + t mod f * c / f.
Proof.
  intros Hf Hc Ht. rewrite (Z.div_mod t f) at 1 by lia.
  replace ((f * (t / f) + t mod f) * c) with (t / f * c * f + t mod f * c) by ring. by rewrite Z.div_add_l by lia.
Qed.

(** The boot code and the kernel convert between ticks and durations alike
    as long as the results fit in 64 bits: beyond, the boot code cuts them off
    and the kernel saturates. *)
Theorem conversions_agree {V : Type} `{SysTimer V} v v' freq t d :
  systimer_freq v = (v', Ok freq) → 0 < freq < 2 ^ 64 →
  0 ≤ t → t * NANOS_PER_SEC / freq < 2 ^ 64 → t < 2 ^ 64 →
  0 ≤ secs d → 0 ≤ nanos d < NANOS_PER_SEC → as_nanos d * freq / NANOS_PER_SEC < 2 ^ 64 →
  ticks_to_duration t v = (v', Timer.ticks_to_duration freq t) ∧
  duration_to_ticks d v = (v', Ok (Timer.duration_to_ticks freq d)).
Proof.
  intros Ef Hf Ht Htf Ht64 Hs Hn Hdf. unfold ticks_to_duration, duration_to_ticks, mbind, M_bind. rewrite Ef.
  rewrite (proj2 (Z.eqb_neq freq 0)) by lia. unfold lift, mret, M_ret.
  assert (secs d * freq + nanos d * freq / NANOS_PER_SEC = as_nanos d * freq / NANOS_PER_SEC) as Ed.
  { unfold as_nanos. replace ((secs d * NANOS_PER_SEC + nanos d) * freq) with (secs d * freq * NANOS_PER_SEC + nanos d * freq) by ring.
    by rewrite Z.div_add_l by (unfold NANOS_PER_SEC; lia). }
  assert (0 ≤ nanos d * freq / NANOS_PER_SEC) by (apply Z.div_pos; unfold NANOS_PER_SEC; nia).
  split.
  - rewrite umul_ok by (unfold NANOS_PER_SEC; lia). unfold Timer.ticks_to_duration. rewrite (proj2 (Z.eqb_neq freq 0)) by lia.
    do 2 f_equal. rewrite Z.mod_small by (split; [apply Z.div_pos; unfold NANOS_PER_SEC; lia|done]).
    rewrite (split_seconds t freq NANOS_PER_SEC) by (unfold NANOS_PER_SEC; lia). unfold from_nanos.
    assert (0 ≤ t mod freq * NANOS_PER_SEC / freq < NANOS_PER_SEC) as Hr.
    { pose proof (Z.mod_pos_bound t freq ltac:(lia)). split; [apply Z.div_pos; unfold NANOS_PER_SEC; nia|].
      apply Z.div_lt_upper_bound; unfold NANOS_PER_SEC; nia. }
    f_equal.
    + symmetry. apply (Z.div_unique _ NANOS_PER_SEC _ (t mod freq * NANOS_PER_SEC / freq)); [left; exact Hr|ring].
    + change NANOS with NANOS_PER_SEC. rewrite (Z.mod_small _ (2 ^ 32)) by (unfold NANOS_PER_SEC in *; lia).
      symmetry. apply (Z.mod_unique _ NANOS_PER_SEC (t / freq)); [left; exact Hr|ring].
  - assert (as_nanos d * freq < 2 ^ 128) as Hfit.
    { pose proof (Z.mul_succ_div_gt (as_nanos d * freq) NANOS_PER_SEC eq_refl). unfold NANOS_PER_SEC in *. lia. }
    rewrite umul_ok by done. do 2 f_equal. unfold Timer.duration_to_ticks. rewrite Z.mod_small by (rewrite <- Ed; nia).
    unfold Timer.NANOS. change 1000000000 with NANOS_PER_SEC. unfold saturating_mul, saturating_add.
    rewrite (Z.mod_small (nanos d * freq / NANOS_PER_SEC)) by nia. nia.
Qed.

(** ** What a timer promises
    [st_line v t]: whether the interrupt is pending when the counter reads [t],
    if nobody touches the timer until then. The counter moves on whenever the
    timer is used, and while it is not ([st_wait]). An interval that is over
    before the interrupt is enabled may be missed. *)
Class SysTimerLaws (V : Type) `{SysTimer V} : Type := {
  st_ok : V → Prop;
  st_now : V → Z;
  st_freq : Z;
  st_line : V → Z → bool;
  st_wait : Z → V → V;
  (** The longest interval, and how late the interrupt may be. *)
  st_max : Z;
  st_slack : Z;
  st_tick_law v : st_ok v → runs systimer_tick v (λ v' t, t = st_now v' ∧
    st_ok v' ∧ st_now v ≤ st_now v' ∧ ∀ t, st_now v' ≤ t → st_line v' t = st_line v t);
  st_wait_law v t : st_ok v → st_now v ≤ t → st_now (st_wait t v) = t →
    st_ok (st_wait t v) ∧ ∀ u, t ≤ u → st_line (st_wait t v) u = st_line v u;
  st_freq_law v : st_ok v → runs systimer_freq v (λ v' f, f = st_freq ∧
    st_ok v' ∧ st_now v ≤ st_now v' ∧ ∀ t, st_now v' ≤ t → st_line v' t = st_line v t);
  st_set_law v v' n : st_ok v → 1 ≤ n → (_ ← systimer_set_interval n; systimer_irq_enable) v = (v', Ok tt) →
    st_ok v' ∧ st_now v ≤ st_now v';
  st_arm_law v n : st_ok v → 1 ≤ n ≤ st_max →
    runs (_ ← systimer_set_interval n; systimer_irq_enable) v (λ v' _,
      st_ok v' ∧ st_now v ≤ st_now v' ∧
      (st_now v' < st_now v + n → ∀ t, st_now v' + n + st_slack ≤ t → st_line v' t = true))
}.

(** Switching the timer off, which not every architecture can do: no new
    interrupt comes. *)
Class SysTimerIdle (V : Type) `{SysTimerLaws V} : Prop := {
  st_idle_law v : st_ok v →
    runs (_ ← systimer_set_interval usize_max; systimer_irq_disable) v (λ v' _,
      st_ok v' ∧ st_now v ≤ st_now v' ∧ ∀ t, st_now v' ≤ t → st_line v' t = st_line v' (st_now v'))
}.

(** ** The kernel's timers on a system timer *)

Section Kernel.
Context {V CB : Type} `{SysTimer V}.

(** The calls at the end of [arm_hardware_timer]; [h] is what they program. *)
Definition program (h : Hw) : TMR V unit :=
  _ ← systimer_set_interval (hw_interval h);
  if hw_irq h then systimer_irq_enable else systimer_irq_disable.

(** The public operations and the interrupt handler. *)
Inductive Op : Type :=
| ScheduleAt (dl : Z) (cb : CB)
| ScheduleAfter (delay : Z) (cb : CB)
| Cancel (handle : Z)
| Interrupt.

Definition run_op (op : Op) (now arm_now freq : Z) (m : TimerManager CB) : TimerManager CB :=
  match op with
  | ScheduleAt dl cb => (schedule_at arm_now freq dl cb m).1
  | ScheduleAfter delay cb => (schedule_after arm_now freq delay cb m).1
  | Cancel h => (cancel arm_now freq h m).1
  | Interrupt => (handle_irq now arm_now freq m).1
  end.

(** The manager, the timer and, once the timer has been programmed, its counter
    at that time. *)
Record World : Type := mk_World { w_mgr : TimerManager CB; w_dev : V; w_armed : option Z }.

(** What an operation left to program is programmed; a record that is the same
    as before may stand for no call at all, or for the same once more. *)
Inductive follow `{!SysTimerLaws V} (h h' : Hw) : V → option Z → V → option Z → Prop :=
| follow_keep v a : h' = h → follow h h' v a v a
| follow_program v a v' : program h' v = (v', Ok tt) → follow h h' v a v' (Some (st_now v')).

Inductive world_step `{!SysTimerLaws V} : World → World → Prop :=
| step_wait m v a t : st_now v ≤ t → st_now (st_wait t v) = t →
    world_step (mk_World m v a) (mk_World m (st_wait t v) a)
| step_op op m v a v1 v2 v3 now arm_now a' : few_timers m →
    systimer_tick v = (v1, Ok now) → systimer_tick v1 = (v2, Ok arm_now) →
    follow (hw m) (hw (run_op op now arm_now st_freq m)) v2 a v3 a' →
    world_step (mk_World m v a) (mk_World (run_op op now arm_now st_freq m) v3 a').

End Kernel.
Arguments Op : clear implicits.
Arguments World : clear implicits.

Section KernelProof.
Context {V CB : Type} `{SysTimerIdle V}.
Implicit Types (m : TimerManager CB) (h : Hw).

(** What an operation leaves in the record of the hardware timer. *)
Definition armed_at (t : Z) h : Prop :=
  hw_at h = t ∧ if hw_irq h then 1 ≤ hw_interval h else hw_interval h = usize_max.

Lemma arm_armed now freq m : armed_at now (hw (arm_hardware_timer now freq m).1).
Proof.
  unfold arm_hardware_timer, modify, armed_at. simpl. destruct (first_key (timers m)); simpl; split; try done.
  unfold min_delay. lia.
Qed.

Lemma expire_hw fuel now : ∀ acc m, hw (expire_loop fuel now acc m).1 = hw m.
Proof.
  induction fuel as [|fuel IH]; intros acc m; simpl; (destruct (first_key (timers m)) as [k|]; [|done]); case_if; try done.
  destruct (btree_remove k (timers m)) as [rest o]. by rewrite IH.
Qed.

Lemma run_op_hw (op : Op CB) now arm_now freq m :
  hw (run_op op now arm_now freq m) = hw m ∨ armed_at arm_now (hw (run_op op now arm_now freq m)).
Proof.
  assert (∀ dl cb, hw (schedule_at arm_now freq dl cb m).1 = hw m ∨ armed_at arm_now (hw (schedule_at arm_now freq dl cb m).1)) as Hat.
  { intros dl cb. unfold schedule_at, mbind, M_bind, next_timer_id.
    destruct (next_timer_id_loop _ _ _) as [[id nid]|]; [|by left]. simpl.
    destruct (match first_key _ with None => _ | Some _ => _ end); [right; apply arm_armed|by left]. }
  destruct op as [dl cb|delay cb|h|]; simpl.
  - apply Hat.
  - unfold schedule_after, mbind, M_bind, lift. destruct (checked_add 64 arm_now delay); simpl; [apply Hat|by left].
  - unfold cancel, mbind, M_bind. simpl. destruct (index m !! h) as [dl|]; [|by left]. simpl.
    destruct (match first_key _ with None => _ | Some _ => _ end); [right; apply arm_armed|by left].
  - unfold handle_irq, mbind, M_bind. simpl. pose proof (expire_hw (length (timers m)) now [] m) as Eh.
    destruct (expire_loop _ _ _ m) as [m1 [l|?|]]; simpl in Eh |- *; [right; apply arm_armed|by left|by left].
Qed.

Lemma run_op_ok (op : Op CB) now arm_now freq m : tm_ok freq m → few_timers m → tm_ok freq (run_op op now arm_now freq m).
Proof.
  intros Hm Hfew. destruct op as [dl cb|delay cb|h|]; simpl.
  - destruct (schedule_run freq arm_now dl cb m Hm Hfew) as (id & m' & -> & ? & _). done.
  - unfold schedule_after, mbind, M_bind, lift. destruct (checked_add 64 arm_now delay) as [dl|]; simpl; [|done].
    destruct (schedule_run freq arm_now dl cb m Hm Hfew) as (id & m' & -> & ? & _). done.
  - pose proof (cancel_run freq arm_now h m Hm) as Hc. destruct (index m !! h); [|by rewrite Hc].
    destruct Hc as (m' & v & -> & ? & _). done.
  - destruct (handle_irq_run now arm_now freq m (proj1 Hm)) as (m' & -> & _ & ?). done.
Qed.

(** The interval is one the timer can be set to, and programming it, until the
    counter was at [a], took less than the interval (the least delay of the
    kernel is there for this). *)
Definition in_reach h (a : Z) : Prop := hw_interval h ≤ st_max ∧ a < hw_at h + hw_interval h.

(** The timer does what the record says. *)
Definition obeys h (v : V) (a : Z) : Prop :=
  ∀ t, st_now v ≤ t → if hw_irq h then in_reach h a → a + hw_interval h + st_slack ≤ t → st_line v t = true else st_line v t = st_line v (st_now v).

Record world_ok (w : World V CB) : Prop := {
  wo_mgr : tm_ok st_freq (w_mgr w);
  wo_dev : st_ok (w_dev w);
  wo_form : if hw_irq (hw (w_mgr w)) then 1 ≤ hw_interval (hw (w_mgr w)) else hw_interval (hw (w_mgr w)) = usize_max;
  wo_at : hw_at (hw (w_mgr w)) ≤ st_now (w_dev w);
  wo_armed : match w_armed w with
    | Some a => hw_at (hw (w_mgr w)) ≤ a ≤ st_now (w_dev w) ∧ obeys (hw (w_mgr w)) (w_dev w) a
    | None => hw_irq (hw (w_mgr w)) = false
    end
}.

(** Time passes, and so it does while the timer is only read. *)
Lemma obeys_later h v v' a : obeys h v a → st_now v ≤ st_now v' → (∀ t, st_now v' ≤ t → st_line v' t = st_line v t) → obeys h v' a.
Proof.
  intros Ho Hn Hl t Ht. rewrite (Hl t) by done. pose proof (Ho t ltac:(lia)) as Hot. destruct (hw_irq h) eqn:E; [done|].
  rewrite (Hl (st_now v')), Hot by lia. specialize (Ho (st_now v') Hn). rewrite E in Ho. by rewrite Ho.
Qed.

Lemma world_ok_later m v v' a : world_ok (mk_World m v a) → st_ok v' → st_now v ≤ st_now v' →
  (∀ t, st_now v' ≤ t → st_line v' t = st_line v t) → world_ok (mk_World m v' a).
Proof.
  intros [Hm Hv Hf Hat Ha] Hv' Hn Hl. split; simpl in *; try done; [lia|]. destruct a as [a|]; [|done].
  destruct Ha as [Ha Ho]. split; [lia|]. by eapply obeys_later.
Qed.

Lemma tick_ok v v' now : st_ok v → systimer_tick v = (v', Ok now) →
  now = st_now v' ∧ st_ok v' ∧ st_now v ≤ st_now v' ∧ ∀ t, st_now v' ≤ t → st_line v' t = st_line v t.
Proof. intros Hv E. destruct (st_tick_law v Hv) as (w & t & E' & Ht). rewrite E in E'. by simplify_eq. Qed.

(** Programming the timer. *)
Lemma program_ok h v v' : st_ok v → hw_at h ≤ st_now v →
  (if hw_irq h then 1 ≤ hw_interval h else hw_interval h = usize_max) → program h v = (v', Ok tt) →
  st_ok v' ∧ st_now v ≤ st_now v' ∧ obeys h v' (st_now v').
Proof.
  intros Hv Hat Hform E. unfold program, obeys, in_reach in *. destruct (hw_irq h).
  - destruct (st_set_law v v' _ Hv Hform E) as [Hok Hn]. split_and!; [done|done|]. intros t _ [Hmax Hq].
    destruct (st_arm_law v (hw_interval h) Hv ltac:(auto)) as (w & [] & E' & _ & _ & Hl). rewrite E in E'. simplify_eq.
    apply Hl. lia.
  - rewrite Hform in *. destruct (st_idle_law v Hv) as (w & [] & E' & Hw & Hn & Hl). rewrite E in E'. simplify_eq.
    split_and!; [done|done|]. exact Hl.
Qed.

Lemma world_step_ok w w' : world_ok w → world_step w w' → world_ok w'.
Proof.
  intros Hw Hs. destruct Hs as [m v a t Ht Et|op m v a v1 v2 v3 now arm_now a' Hfew E1 E2 Hf].
  - destruct (st_wait_law v t (wo_dev _ Hw) Ht Et) as [Hv Hl]. eapply world_ok_later; [exact Hw|done|by rewrite Et|].
    intros u Hu. apply Hl. by rewrite Et in Hu.
  - destruct (tick_ok v v1 now (wo_dev _ Hw) E1) as (_ & Hv1 & Hn1 & Hl1).
    pose proof (world_ok_later _ _ _ _ Hw Hv1 Hn1 Hl1) as Hw1.
    destruct (tick_ok v1 v2 arm_now Hv1 E2) as (-> & Hv2 & Hn2 & Hl2).
    destruct (world_ok_later _ _ _ _ Hw1 Hv2 Hn2 Hl2) as [Hm _ Hform Hat Ha]. simpl in *.
    pose proof (run_op_ok op now (st_now v2) st_freq m Hm Hfew) as Hm'.
    assert ((if hw_irq (hw (run_op op now (st_now v2) st_freq m)) then 1 ≤ hw_interval (hw (run_op op now (st_now v2) st_freq m))
      else hw_interval (hw (run_op op now (st_now v2) st_freq m)) = usize_max) ∧ hw_at (hw (run_op op now (st_now v2) st_freq m)) ≤ st_now v2) as [Hf' Hat'].
    { destruct (run_op_hw op now (st_now v2) st_freq m) as [->|[Eat Hf']]; [done|split; [done|lia]]. }
    inversion Hf as [? ? Eh|? ? ? Ep]; subst.
    + split; simpl; rewrite ?Eh; try done.
    + destruct (program_ok _ _ _ Hv2 Hat' Hf' Ep) as (Hv3 & Hn3 & Ho). split; simpl; try done; [lia|]. split; [lia|done].
Qed.

Lemma world_reach_ok w w' : world_ok w → rtc world_step w w' → world_ok w'.
Proof. intros Hw. induction 1 as [|? ? ? Hs _ IH]; [done|]. apply IH. by eapply world_step_ok. Qed.
End KernelProof.

(** C29: On a system timer that keeps its promises, whatever is scheduled,
    cancelled and handled while time passes: as long as a timer is pending, the
    interrupt the hardware was programmed for last is up once the first deadline
    (or the least delay after the timer was programmed) has passed, with the
    time that programming took and the timer's own lateness, provided the
    interval is one the timer can be set to and programming it took less than
    the interval ([in_reach]); and an interrupt runs the callback of the first
    timer once it is due. Once the last timer is gone no new interrupt comes.
    The promises ([SysTimerIdle]) are those of RISC-V, x86_64 and AArch64, where
    intervals from [2^31] ticks on are out of reach and are lost
    (ArchTimer.v); LoongArch can not switch its timer off, where the kernel
    panics. *)
Theorem timers_never_lost {V CB : Type} `{SysTimerIdle V} (v : V) (w : World V CB) :
  st_ok v → rtc world_step (mk_World (manager_new (mk_Hw (st_now v) usize_max false)) v None) w →
  let m := w_mgr w in
  match timers m with
  | [] => w_armed w ≠ None → ∀ t, st_now (w_dev w) ≤ t → st_line (w_dev w) t = st_line (w_dev w) (st_now (w_dev w))
  | (k, cb) :: _ => ∃ a, w_armed w = Some a ∧ hw_at (hw m) ≤ a ≤ st_now (w_dev w) ∧
      (in_reach (hw m) a → ∀ t, st_now (w_dev w) ≤ t →
        Z.max (deadline k) (hw_at (hw m) + min_delay st_freq) + (a - hw_at (hw m)) + st_slack ≤ t → st_line (w_dev w) t = true) ∧
      ∀ now arm_now, deadline k ≤ now → ∃ m' cbs, handle_irq now arm_now st_freq m = (m', Ok (cb :: cbs))
  end.
Proof.
  intros Hv Hr m. assert (world_ok w) as [Hm Hd Hform Hat Ha].
  { eapply world_reach_ok; [|exact Hr]. split; simpl; try done. split; [|done]. split; simpl; try (done || lia).
    - constructor.
    - intros id d. rewrite lookup_empty. split; [done|by intros ?%not_elem_of_nil].
    - intros id [d Hd]. by rewrite lookup_empty in Hd. }
  fold m in Hm, Hform, Hat, Ha. destruct Hm as [Hmaps Hhw]. unfold hw_ok, first_key in Hhw. unfold obeys in Ha.
  destruct (timers m) as [|[k cb] l] eqn:El; simpl in Hhw.
  - rewrite Hhw in Ha. destruct (w_armed w) as [a|]; [|done]. destruct Ha as [_ Ho]. intros _ t Ht. by apply Ho.
  - destruct Hhw as [Hirq Hb]. rewrite Hirq in Ha. destruct (w_armed w) as [a|]; [|done]. destruct Ha as [Ha Ho].
    exists a. split_and!; [done|lia|lia| |].
    + intros Hin t Ht Hle. apply Ho; [done|done|lia].
    + intros now arm_now Hdue. destruct (handle_irq_run now arm_now st_freq m Hmaps) as (m' & E & _). rewrite El in E.
      rewrite filter_cons_True in E by done. by eexists _, _.
Qed.
