(* ===== verification/ArchTimer.v ===== *)
(** * The timers of RISC-V, AArch64 and LoongArch
    The timer's part of [ArchTrait] in crates/someboot/src/arch/riscv64/mod.rs
    (with sbi.rs), aarch64/mod.rs (with el1/mod.rs; el2/mod.rs does the same to
    the registers of the hypervisor) and loongarch64/mod.rs, each on a class
    for the registers and the firmware it uses. The first two switch the timer
    on and off as the kernel expects, for intervals below [2^31] ticks on
    AArch64; LoongArch panics when it is switched off. *)

From stdpp Require Import base tactics option list numbers.
From S2P Require Import Prelude Bits Tock Timer SysTimer.
Open Scope Z_scope.

(** ** RISC-V *)

Module Riscv.
Definition SIE_STIE : Z := Z.shiftl 1 5.

(** The register sie, the counter, and the calls of the firmware: the timer
    with its error code, and the frequency from the device tree. *)
Class RiscvTimer (V : Type) : Type := {
  sie : V → Z;
  csr_write_sie : Z → V → V;
  csr_time : V → V * Z;
  sbi_set_timer : Z → V → V * Z;
  timebase : V → option Z
}.

Section Riscv.
Context {V : Type} `{RiscvTimer V}.

(** The machine, and [TIMEBASE_FREQ]. *)
Record Riscv : Type := mk_Riscv { rv_hw : V; TIMEBASE_FREQ : Z }.
Notation RM := (TMR Riscv).
Definition with_hw {A} (f : V → V * A) : RM A := λ s, let '(v, a) := f (rv_hw s) in (mk_Riscv v (TIMEBASE_FREQ s), Ok a).

(** [csrs] and [csrc]. *)
Definition csr_set_sie (mask : Z) : RM unit := with_hw (λ v, (csr_write_sie (Z.lor (sie v) mask) v, tt)).
Definition csr_clear_sie (mask : Z) : RM unit := with_hw (λ v, (csr_write_sie (Z.ldiff (sie v) mask) v, tt)).

(** sbi.rs *)
Definition set_timer (stime_value : Z) : RM (option Z) :=
  error ← with_hw (sbi_set_timer stime_value); mret (if error =? 0 then None else Some error).
Definition detect_timebase_frequency : RM (option Z) := with_hw (λ v, (v, timebase v)).

Definition rv_systimer_enable : RM unit := _ ← set_timer u64_max; mret tt.
Definition rv_systimer_irq_enable : RM unit := csr_set_sie SIE_STIE.
Definition rv_systimer_irq_disable : RM unit := csr_clear_sie SIE_STIE.
Definition rv_systimer_irq_is_enabled : RM bool := with_hw (λ v, (v, negb (Z.land (sie v) SIE_STIE =? 0))).
Definition rv_systimer_tick : RM Z := with_hw csr_time.
Definition rv_systimer_set_interval (ticks : Z) : RM unit :=
  now ← rv_systimer_tick;
  next ← (if ticks =? usize_max then mret u64_max
          else n ← lift (uadd 64 now 1); mret (Z.max (saturating_add 64 now ticks) n));
  _ ← set_timer next; mret tt.
Definition rv_systimer_ack : RM unit := mret tt.
Definition rv_systimer_freq : RM Z :=
  s ← get;
  if negb (TIMEBASE_FREQ s =? 0) then mret (TIMEBASE_FREQ s)
  else
    o ← detect_timebase_frequency;
    let freq := default 10000000 o in
    _ ← modify (λ s, mk_Riscv (rv_hw s) freq);
    mret freq.

#[export] Instance riscv_systimer : SysTimer Riscv := {|
  systimer_enable := rv_systimer_enable;
  systimer_irq_enable := rv_systimer_irq_enable;
  systimer_irq_disable := rv_systimer_irq_disable;
  systimer_irq_is_enabled := rv_systimer_irq_is_enabled;
  systimer_set_interval := rv_systimer_set_interval;
  systimer_ack := rv_systimer_ack;
  systimer_freq := rv_systimer_freq;
  systimer_tick := rv_systimer_tick
|}.
End Riscv.
Arguments Riscv : clear implicits.

(** The behaviour of the processor and the firmware: sie keeps the timer's
    bit, the counter never gets to its end, [set_timer] succeeds and makes the
    interrupt pending from the given value of the counter on. *)
Class RiscvTimerLaws (V : Type) `{RiscvTimer V} : Type := {
  rv_now : V → Z;
  rv_pending : V → Z → bool;
  rv_wait : Z → V → V;
  rv_now_range v : 0 ≤ rv_now v < 2 ^ 64 - 1;
  write_sie_law x v : Z.testbit (sie (csr_write_sie x v)) 5 = Z.testbit x 5 ∧ rv_now v ≤ rv_now (csr_write_sie x v) ∧
    (∀ t, rv_pending (csr_write_sie x v) t = rv_pending v t) ∧ timebase (csr_write_sie x v) = timebase v;
  time_law v : (csr_time v).2 = rv_now (csr_time v).1 ∧ rv_now v ≤ rv_now (csr_time v).1 ∧ sie (csr_time v).1 = sie v ∧
    (∀ t, rv_pending (csr_time v).1 t = rv_pending v t) ∧ timebase (csr_time v).1 = timebase v;
  set_timer_law x v : (sbi_set_timer x v).2 = 0 ∧ rv_now v ≤ rv_now (sbi_set_timer x v).1 ∧ sie (sbi_set_timer x v).1 = sie v ∧
    (∀ t, rv_pending (sbi_set_timer x v).1 t = (x <=? t)) ∧ timebase (sbi_set_timer x v).1 = timebase v;
  rv_wait_law t v : rv_now v ≤ t → sie (rv_wait t v) = sie v ∧ (∀ u, rv_pending (rv_wait t v) u = rv_pending v u) ∧
    timebase (rv_wait t v) = timebase v
}.

Section RiscvLaws.
Context {V : Type} `{RiscvTimerLaws V} (freq : Z).

Definition rv_line (s : Riscv V) (t : Z) : bool := Z.testbit (sie (rv_hw s)) 5 && rv_pending (rv_hw s) t.
(** The frequency is the one that will be, or has been, found. *)
Definition rv_ok (s : Riscv V) : Prop :=
  default 10000000 (timebase (rv_hw s)) = freq ∧ (TIMEBASE_FREQ s = 0 ∨ TIMEBASE_FREQ s = freq).

Lemma rv_tick_run s : runs rv_systimer_tick s (λ s' t, t = rv_now (rv_hw s') ∧ (rv_ok s → rv_ok s') ∧
  rv_now (rv_hw s) ≤ rv_now (rv_hw s') ∧ sie (rv_hw s') = sie (rv_hw s) ∧ ∀ t, rv_pending (rv_hw s') t = rv_pending (rv_hw s) t).
Proof.
  pose proof (time_law (rv_hw s)) as (E & Hn & Es & Ep & Et). unfold runs, rv_systimer_tick, with_hw, rv_ok.
  destruct (csr_time (rv_hw s)) as [v' t]. simpl in *. eexists _, _. split; [done|]. simpl. by rewrite Et.
Qed.

Lemma rv_set_timer_run x s : runs (set_timer x) s (λ s' o, (rv_ok s → rv_ok s') ∧
  rv_now (rv_hw s) ≤ rv_now (rv_hw s') ∧ sie (rv_hw s') = sie (rv_hw s) ∧ ∀ t, rv_pending (rv_hw s') t = (x <=? t)).
Proof.
  pose proof (set_timer_law x (rv_hw s)) as (E & Hn & Es & Ep & Et). unfold runs, set_timer, with_hw, mbind, M_bind, rv_ok.
  destruct (sbi_set_timer x (rv_hw s)) as [v' e]. simpl in *. eexists _, _. split; [done|]. simpl. by rewrite Et.
Qed.

Lemma rv_set_interval_run n s : runs (rv_systimer_set_interval n) s (λ s' _, (rv_ok s → rv_ok s') ∧
  rv_now (rv_hw s) ≤ rv_now (rv_hw s') ∧ sie (rv_hw s') = sie (rv_hw s) ∧
  ∃ now next, rv_now (rv_hw s) ≤ now ≤ rv_now (rv_hw s') ∧ (∀ t, rv_pending (rv_hw s') t = (next <=? t)) ∧
    next = if n =? usize_max then u64_max else Z.max (Z.min (now + n) (2 ^ 64 - 1)) (now + 1)).
Proof.
  unfold rv_systimer_set_interval. eapply runs_bind; [apply rv_tick_run|]. intros s1 now (-> & Ho1 & Hn1 & Es1 & _).
  pose proof (rv_now_range (rv_hw s1)) as Hr.
  eapply (runs_bind _ _ _ (λ s' next, s' = s1 ∧ next = if n =? usize_max then u64_max
    else Z.max (Z.min (rv_now (rv_hw s1) + n) (2 ^ 64 - 1)) (rv_now (rv_hw s1) + 1))).
  - destruct (n =? usize_max); [by exists s1, u64_max|]. unfold mbind, M_bind, lift. rewrite uadd_ok by lia. by eexists _, _.
  - intros s2 next [-> Enext]. eapply runs_bind; [apply rv_set_timer_run|]. intros s3 o (Ho3 & Hn3 & Es3 & Hp3).
    exists s3, tt. split; [done|]. split_and!; [auto|lia|congruence|].
    exists (rv_now (rv_hw s1)), next. split_and!; [lia|lia|done|done].
Qed.

Lemma rv_irq_run x s : runs (with_hw (λ v, (csr_write_sie x v, tt))) s (λ s' _, (rv_ok s → rv_ok s') ∧
  rv_now (rv_hw s) ≤ rv_now (rv_hw s') ∧ Z.testbit (sie (rv_hw s')) 5 = Z.testbit x 5 ∧
  ∀ t, rv_pending (rv_hw s') t = rv_pending (rv_hw s) t).
Proof.
  pose proof (write_sie_law x (rv_hw s)) as (Ex & Hn & Ep & Et). unfold runs, with_hw, rv_ok.
  eexists _, _. split; [done|]. simpl. by rewrite Et.
Qed.

#[export] Instance riscv_timer_laws : SysTimerLaws (Riscv V).
Proof.
  refine {| st_ok := rv_ok; st_now := λ s, rv_now (rv_hw s); st_freq := freq; st_line := rv_line;
    st_wait := λ t s, mk_Riscv (rv_wait t (rv_hw s)) (TIMEBASE_FREQ s); st_max := usize_max; st_slack := 0 |}.
  - intros s Hs. destruct (rv_tick_run s) as (s' & t & E & -> & Ho & Hn & Es & Ep). exists s', (rv_now (rv_hw s')).
    split_and!; [done|done|auto|done|]. intros t _. unfold rv_line. by rewrite Es, Ep.
  - intros s t [Hf Hs] Ht Et. simpl in *. destruct (rv_wait_law t (rv_hw s) Ht) as (Es & Ep & Eb). unfold rv_ok, rv_line. simpl.
    split; [by rewrite Eb|]. intros u _. by rewrite Es, Ep.
  - intros s [Hf Hs]. simpl. unfold runs, rv_systimer_freq, mbind, M_bind, get. simpl.
    destruct (Z.eqb_spec (TIMEBASE_FREQ s) 0) as [E0|E0]; simpl.
    + eexists _, _. split; [done|]. simpl. split_and!; [done|split; [done|by right]|done|done].
    + exists s, (TIMEBASE_FREQ s). destruct Hs as [|Hs]; [done|]. split_and!; [done|done|split; [done|by right]|done|done].
  - intros s s' n Hs Hn E. simpl in E. destruct (rv_set_interval_run n s) as (s1 & [] & E1 & Ho1 & Hn1 & _).
    rewrite (bind_run _ _ _ _ _ E1) in E. destruct (rv_irq_run (Z.lor (sie (rv_hw s1)) SIE_STIE) s1) as (s2 & [] & E2 & Ho2 & Hn2 & _).
    assert ((s', Ok tt) = (s2, Ok tt)) as [= ->] by (rewrite <- E, <- E2; reflexivity). split; [auto|lia].
  - intros s n Hs Hn. simpl. eapply runs_bind; [apply rv_set_interval_run|].
    intros s1 _ (Ho1 & Hn1 & Es1 & now & next & Hnow & Hp1 & Enext).
    destruct (rv_irq_run (Z.lor (sie (rv_hw s1)) SIE_STIE) s1) as (s2 & [] & E2 & Ho2 & Hn2 & Eb & Hp2).
    exists s2, tt. split; [exact E2|]. split_and!; [auto|lia|]. intros _ t Ht. unfold rv_line.
    rewrite Eb, Z.lor_spec, orb_true_r, Hp2, Hp1. simpl. apply Z.leb_le. rewrite Enext. unfold usize_max, u64_max in *.
    pose proof (rv_now_range (rv_hw s)). destruct (Z.eqb_spec n 18446744073709551615); lia.
Defined.

#[export] Instance riscv_timer_idle : SysTimerIdle (Riscv V).
Proof.
  split. intros s Hs. simpl. eapply runs_bind; [apply rv_set_interval_run|].
  intros s1 _ (Ho1 & Hn1 & Es1 & _). destruct (rv_irq_run (Z.ldiff (sie (rv_hw s1)) SIE_STIE) s1) as (s2 & [] & E2 & Ho2 & Hn2 & Eb & _).
  exists s2, tt. split; [exact E2|]. split_and!; [auto|lia|]. intros t _. unfold rv_line.
  by rewrite Eb, Z.ldiff_spec, andb_false_r.
Qed.
End RiscvLaws.
End Riscv.

(** ** AArch64 *)

Module Aarch64.
(** CNTP_CTL_EL0 (crate aarch64-cpu); CNTHP_CTL_EL2 has the same bits. *)
Definition CNTP_CTL_ENABLE : Field := mk_Field 0 1.
Definition CNTP_CTL_IMASK : Field := mk_Field 1 1.

(** The control register, the write to the timer value, the counter and its
    frequency. *)
Class A64Timer (V : Type) : Type := {
  cntp_ctl : V → Z;
  write_cntp_ctl : Z → V → V;
  write_cntp_tval : Z → V → V;
  read_cntpct : V → V * Z;
  cntfrq : V → Z
}.

Section Aarch64.
Context {V : Type} `{A64Timer V} `{Tock}.
Notation AM := (TMR V).

Definition ctl_modify (fv : FieldValue) : AM unit := modify (λ v, write_cntp_ctl (fv_modify fv (cntp_ctl v)) v).

Definition systick_enable : AM unit := modify (write_cntp_ctl (fv_value (SET CNTP_CTL_ENABLE))).
Definition systick_irq_disable : AM unit := ctl_modify (SET CNTP_CTL_IMASK).
Definition systick_irq_enable : AM unit := ctl_modify (CLEAR CNTP_CTL_IMASK).
Definition systick_irq_is_enabled : AM bool := v ← get; mret (negb (is_set CNTP_CTL_IMASK (cntp_ctl v))).
Definition systick_set_interval (ticks : Z) : AM unit := modify (write_cntp_tval ticks).
Definition a64_systimer_ack : AM unit := mret tt.
Definition a64_systimer_freq : AM Z := v ← get; mret (cntfrq v).
Definition a64_systimer_tick : AM Z := λ v, let '(v, t) := read_cntpct v in (v, Ok t).

#[export] Instance aarch64_systimer : SysTimer V := {|
  systimer_enable := systick_enable;
  systimer_irq_enable := systick_irq_enable;
  systimer_irq_disable := systick_irq_disable;
  systimer_irq_is_enabled := systick_irq_is_enabled;
  systimer_set_interval := systick_set_interval;
  systimer_ack := a64_systimer_ack;
  systimer_freq := a64_systimer_freq;
  systimer_tick := a64_systimer_tick
|}.
End Aarch64.

(** The signed value of the low 32 bits. *)
Definition sext32 (x : Z) : Z := let w := x mod 2 ^ 32 in if w <? 2 ^ 31 then w else w - 2 ^ 32.

(** The architecture: a write to the timer value sets the compare value to the
    counter plus its low 32 bits, which are signed; the interrupt is up while
    the timer is enabled, not masked and the counter not below the compare
    value. The counter does not get near its end. *)
Class A64TimerLaws (V : Type) `{A64Timer V} : Type := {
  a64_now : V → Z;
  cval : V → Z;
  a64_wait : Z → V → V;
  a64_now_range v : 0 ≤ a64_now v < 2 ^ 63;
  write_ctl_law x v : Z.land (cntp_ctl (write_cntp_ctl x v)) 3 = Z.land x 3 ∧ cval (write_cntp_ctl x v) = cval v ∧
    a64_now v ≤ a64_now (write_cntp_ctl x v) ∧ cntfrq (write_cntp_ctl x v) = cntfrq v;
  write_tval_law x v : cntp_ctl (write_cntp_tval x v) = cntp_ctl v ∧ cntfrq (write_cntp_tval x v) = cntfrq v ∧
    ∃ t, a64_now v ≤ t ≤ a64_now (write_cntp_tval x v) ∧ cval (write_cntp_tval x v) = (t + sext32 x) mod 2 ^ 64;
  read_cntpct_law v : (read_cntpct v).2 = a64_now (read_cntpct v).1 ∧ a64_now v ≤ a64_now (read_cntpct v).1 ∧
    cntp_ctl (read_cntpct v).1 = cntp_ctl v ∧ cval (read_cntpct v).1 = cval v ∧ cntfrq (read_cntpct v).1 = cntfrq v;
  a64_wait_law t v : a64_now v ≤ t → cntp_ctl (a64_wait t v) = cntp_ctl v ∧ cval (a64_wait t v) = cval v ∧ cntfrq (a64_wait t v) = cntfrq v
}.

Section Aarch64Laws.
Context {V : Type} `{A64TimerLaws V} `{Tock} (freq : Z).

Definition a64_line (v : V) (t : Z) : bool :=
  is_set CNTP_CTL_ENABLE (cntp_ctl v) && negb (is_set CNTP_CTL_IMASK (cntp_ctl v)) && (cval v <=? t).
(** The timer is enabled. *)
Definition a64_ok (v : V) : Prop := is_set CNTP_CTL_ENABLE (cntp_ctl v) = true ∧ cntfrq v = freq.

(** The register keeps the two bits. *)
Lemma is_set_ctl f x y : (f = CNTP_CTL_ENABLE ∨ f = CNTP_CTL_IMASK) → Z.land x 3 = Z.land y 3 → is_set f x = is_set f y.
Proof.
  intros Hf E. unfold is_set. rewrite <- (read_land f x 3), <- (read_land f y 3), E; [done|..];
    destruct Hf as [-> | ->]; try done; by rewrite read_spec.
Qed.

Lemma ctl_modify_run b v : runs (ctl_modify (val CNTP_CTL_IMASK (Z.b2z b))) v (λ v' _, (a64_ok v → a64_ok v') ∧
  a64_now v ≤ a64_now v' ∧ cval v' = cval v ∧ is_set CNTP_CTL_IMASK (cntp_ctl v') = b).
Proof.
  eexists _, _. split; [done|]. set (x := fv_modify _ _). destruct (write_ctl_law x v) as (Ex & Ec & Hn & Ef).
  rewrite (is_set_ctl _ _ _ (or_intror eq_refl) Ex), Ec. split_and!; [|done|done|].
  - intros [He Hfr]. split; [|congruence]. rewrite (is_set_ctl _ _ _ (or_introl eq_refl) Ex). rewrite <- He. unfold is_set, x.
    rewrite read_modify_out; [done| |by apply read_val_apart]. by rewrite val_mask, read_spec.
  - unfold x, is_set. rewrite read_modify_in by (done || by rewrite val_mask, read_spec). apply (is_set_val _ b); done.
Qed.

Lemma a64_set_interval_run n v : runs (systick_set_interval n) v (λ v' _, (a64_ok v → a64_ok v') ∧
  ∃ t, a64_now v ≤ t ≤ a64_now v' ∧ cval v' = (t + sext32 n) mod 2 ^ 64 ∧ cntp_ctl v' = cntp_ctl v).
Proof.
  eexists _, _. split; [done|]. destruct (write_tval_law n v) as (Ec & Ef & t & Ht & Ev). split; [|by exists t].
  unfold a64_ok. by rewrite Ec, Ef.
Qed.

(** An interval below [2^31] ticks. *)
Lemma a64_arm n v : a64_ok v → 1 ≤ n < 2 ^ 31 → runs (_ ← systick_set_interval n; systick_irq_enable) v (λ v' _,
  a64_ok v' ∧ a64_now v ≤ a64_now v' ∧ ∀ t, a64_line v' t = (cval v' <=? t) ∧ a64_now v + n ≤ cval v' ≤ a64_now v' + n).
Proof.
  intros Hv Hn. eapply runs_bind; [apply a64_set_interval_run|]. intros v1 _ (Ho1 & t & Ht & Ec & _).
  destruct (ctl_modify_run false v1) as (v2 & [] & E2 & Ho2 & Hn2 & Ec2 & Em). exists v2, tt. split; [exact E2|].
  destruct (Ho2 (Ho1 Hv)) as [He Hf]. split_and!; [done|lia|]. intros u. unfold a64_line. rewrite He, Em, Ec2. split; [done|].
  pose proof (a64_now_range v1). pose proof (a64_now_range v). rewrite Ec. unfold sext32. rewrite (Z.mod_small n) by lia. rewrite (proj2 (Z.ltb_lt n _)) by lia.
  rewrite Z.mod_small by lia. lia.
Qed.

#[export] Instance aarch64_timer_laws : SysTimerLaws V.
Proof.
  refine {| st_ok := a64_ok; st_now := a64_now; st_freq := freq; st_line := a64_line;
    st_wait := a64_wait; st_max := 2 ^ 31 - 1; st_slack := 0 |}.
  - intros v [He Hf]. destruct (read_cntpct_law v) as (E & Hn & Ec & Ev & Ef). simpl. unfold runs, a64_systimer_tick, a64_ok, a64_line.
    destruct (read_cntpct v) as [v' t]. simpl in *. eexists _, _. split; [done|]. by rewrite Ec, Ev, Ef.
  - intros v t [He Hf] Ht Et. destruct (a64_wait_law t v Ht) as (Ec & Ev & Ef). unfold a64_ok, a64_line. by rewrite Ec, Ev, Ef.
  - intros v Hv. exists v, (cntfrq v). split; [done|]. split_and!; [apply Hv|done|done|done].
  - intros v v' n Hv Hn E. simpl in E. destruct (a64_set_interval_run n v) as (v1 & [] & E1 & Ho1 & t & Ht & _).
    rewrite (bind_run _ _ _ _ _ E1) in E. destruct (ctl_modify_run false v1) as (v2 & [] & E2 & Ho2 & Hn2 & _).
    assert ((v', Ok tt) = (v2, Ok tt)) as [= ->] by (rewrite <- E, <- E2; reflexivity). split; [auto|lia].
  - intros v n Hv Hn. simpl. destruct (a64_arm n v Hv ltac:(lia)) as (v' & [] & E & Ho & Hnow & Hl). exists v', tt. split; [exact E|].
    split_and!; [done|done|]. intros _ t Ht. destruct (Hl t) as [-> Hc]. apply Z.leb_le. lia.
Defined.

#[export] Instance aarch64_timer_idle : SysTimerIdle V.
Proof.
  split. intros v Hv. simpl. eapply runs_bind; [apply a64_set_interval_run|]. intros v1 _ (Ho1 & t & Ht & _).
  destruct (ctl_modify_run true v1) as (v2 & [] & E2 & Ho2 & Hn2 & _ & Em). exists v2, tt. split; [exact E2|].
  split_and!; [auto|lia|]. intros u _. unfold a64_line. by rewrite Em, !andb_false_r.
Qed.

(** The timer value is 32 bits and signed: programmed early after the start for
    an interval of [2^31] ticks or more, the timer is set to a time in the past,
    before the start of the counter, which is taken for one at its very end: the
    interrupt does not come. *)
Theorem a64_long_interval_lost (v : V) (n : Z) : a64_ok v → 2 ^ 31 ≤ n < 2 ^ 32 →
  runs (_ ← systick_set_interval n; systick_irq_enable) v (λ v' _,
    a64_now v' + n < 2 ^ 32 → ∀ t, t < 2 ^ 64 - 2 ^ 31 → a64_line v' t = false).
Proof.
  intros Hv Hn. eapply runs_bind; [apply a64_set_interval_run|]. intros v1 _ (Ho1 & t & Ht & Ec & _).
  destruct (ctl_modify_run false v1) as (v2 & [] & E2 & Ho2 & Hn2 & Ec2 & Em). exists v2, tt. split; [exact E2|].
  intros Hearly u Hu. unfold a64_line. rewrite (proj2 (Z.leb_gt (cval v2) u)); [by rewrite andb_false_r|].
  rewrite Ec2, Ec. unfold sext32. rewrite (Z.mod_small n) by lia. rewrite (proj2 (Z.ltb_ge n _)) by lia.
  pose proof (a64_now_range v). rewrite <- (Z.mod_add _ 1) by lia. rewrite Z.mod_small by lia. lia.
Qed.
End Aarch64Laws.
End Aarch64.

(** ** LoongArch *)

Module Loongarch.
Definition MIN_TICKS : Z := 4.

(** The functions of the crate loongArch64 on the registers TCFG and TICLR, the
    counter and its frequency. *)
Class LoongTimer (V : Type) : Type := {
  tcfg_set_en : bool → V → V;
  tcfg_en : V → bool;
  tcfg_set_periodic : bool → V → V;
  tcfg_set_init_val : Z → V → V;
  clear_timer_interrupt : V → V;
  time_read : V → V * Z;
  get_timer_freq : V → Z
}.

Section Loongarch.
Context {V : Type} `{LoongTimer V}.
Notation LM := (TMR V).

Definition la_systimer_enable : LM unit := modify (tcfg_set_en true).
Definition la_systimer_irq_enable : LM unit := modify (tcfg_set_en true).
Definition la_systimer_irq_disable : LM unit := modify (tcfg_set_en false).
Definition la_systimer_irq_is_enabled : LM bool := v ← get; mret (tcfg_en v).
Definition la_systimer_set_interval (ticks : Z) : LM unit :=
  let ticks := Z.max ticks MIN_TICKS in
  n ← lift (uadd 64 ticks 3);
  let ticks := Z.land n (unot 64 3) in
  _ ← modify (tcfg_set_en false);
  _ ← modify (tcfg_set_periodic false);
  _ ← modify (tcfg_set_init_val ticks);
  modify clear_timer_interrupt.
Definition la_systimer_ack : LM unit := modify clear_timer_interrupt.
Definition la_systimer_freq : LM Z := v ← get; mret (get_timer_freq v).
Definition la_systimer_tick : LM Z := λ v, let '(v, t) := time_read v in (v, Ok t).

#[export] Instance loongarch_systimer : SysTimer V := {|
  systimer_enable := la_systimer_enable;
  systimer_irq_enable := la_systimer_irq_enable;
  systimer_irq_disable := la_systimer_irq_disable;
  systimer_irq_is_enabled := la_systimer_irq_is_enabled;
  systimer_set_interval := la_systimer_set_interval;
  systimer_ack := la_systimer_ack;
  systimer_freq := la_systimer_freq;
  systimer_tick := la_systimer_tick
|}.
End Loongarch.

(** The processor: [la_due], the counter at which the interrupt came or will
    come. Enabling a timer that has nothing due starts the countdown at the
    initial value, a multiple of four within the timer's bits; clearing the
    interrupt of a disabled timer leaves nothing due. *)
Class LoongTimerLaws (V : Type) `{LoongTimer V} : Type := {
  la_now : V → Z;
  la_due : V → option Z;
  la_init_val : V → Z;
  la_wait : Z → V → V;
  la_bits : Z;
  la_bits_range : 2 < la_bits ≤ 62;
  set_en_law b v : tcfg_en (tcfg_set_en b v) = b ∧ la_now v ≤ la_now (tcfg_set_en b v) ∧
    la_init_val (tcfg_set_en b v) = la_init_val v ∧ get_timer_freq (tcfg_set_en b v) = get_timer_freq v ∧
    (b = true → la_due v = None → ∃ t, la_now v ≤ t ≤ la_now (tcfg_set_en b v) ∧ la_due (tcfg_set_en b v) = Some (t + la_init_val v));
  set_periodic_law b v : tcfg_en (tcfg_set_periodic b v) = tcfg_en v ∧ la_now v ≤ la_now (tcfg_set_periodic b v) ∧
    get_timer_freq (tcfg_set_periodic b v) = get_timer_freq v;
  set_init_val_law n v : tcfg_en (tcfg_set_init_val n v) = tcfg_en v ∧ la_now v ≤ la_now (tcfg_set_init_val n v) ∧
    get_timer_freq (tcfg_set_init_val n v) = get_timer_freq v ∧
    ((4 | n) → 0 ≤ n < 2 ^ la_bits → la_init_val (tcfg_set_init_val n v) = n);
  clear_law v : tcfg_en (clear_timer_interrupt v) = tcfg_en v ∧ la_now v ≤ la_now (clear_timer_interrupt v) ∧
    la_init_val (clear_timer_interrupt v) = la_init_val v ∧ get_timer_freq (clear_timer_interrupt v) = get_timer_freq v ∧
    (tcfg_en v = false → la_due (clear_timer_interrupt v) = None);
  time_read_law v : (time_read v).2 = la_now (time_read v).1 ∧ la_now v ≤ la_now (time_read v).1 ∧
    la_due (time_read v).1 = la_due v ∧ get_timer_freq (time_read v).1 = get_timer_freq v;
  la_wait_law t v : la_now v ≤ t → la_due (la_wait t v) = la_due v ∧ get_timer_freq (la_wait t v) = get_timer_freq v
}.

Section LoongarchLaws.
Context {V : Type} `{LoongTimerLaws V} (freq : Z).

Definition la_line (v : V) (t : Z) : bool := match la_due v with Some d => d <=? t | None => false end.
Definition la_ok (v : V) : Prop := get_timer_freq v = freq.

(** Rounding up to a multiple of four. *)
Lemma round_up_4 n : 0 ≤ n < 2 ^ 64 - 3 → let m := Z.land (n + 3) (unot 64 3) in (4 | m) ∧ n ≤ m ≤ n + 3.
Proof.
  intros Hn m. pose proof (mask_down_pow 64 (n + 3) 2) as E. unfold mask_down in E. change (2 ^ 2 - 1) with 3 in E.
  change (2 ^ 2) with 4 in E. unfold m. rewrite E by lia. pose proof (Z.div_mod (n + 3) 4 ltac:(lia)). pose proof (Z.mod_pos_bound (n + 3) 4 ltac:(lia)).
  split; [exists ((n + 3) / 4); lia|lia].
Qed.

Lemma la_set_interval_run n v : 1 ≤ n ≤ 2 ^ la_bits - 4 → la_ok v → runs (la_systimer_set_interval n) v (λ v' _,
  la_ok v' ∧ la_now v ≤ la_now v' ∧ la_due v' = None ∧ n ≤ la_init_val v' ≤ n + 3).
Proof.
  intros Hn Hv. pose proof la_bits_range as Hb. assert (2 ^ la_bits ≤ 2 ^ 62) as Hp by (apply Z.pow_le_mono_r; lia).
  assert (2 ^ 3 ≤ 2 ^ la_bits) as Hp3 by (apply Z.pow_le_mono_r; lia).
  unfold la_systimer_set_interval, mbind, M_bind, lift, modify, runs, MIN_TICKS. rewrite uadd_ok by lia.
  destruct (round_up_4 (Z.max n 4) ltac:(lia)) as [Hd Hm]. cbv zeta in Hd, Hm. set (m := Z.land _ _) in *.
  eexists _, _. split; [done|]. set (v1 := tcfg_set_en false v). set (v2 := tcfg_set_periodic false v1). set (v3 := tcfg_set_init_val m v2).
  destruct (set_en_law false v) as (E1 & N1 & _ & F1 & _). destruct (set_periodic_law false v1) as (E2 & N2 & F2).
  destruct (set_init_val_law m v2) as (E3 & N3 & F3 & I3). destruct (clear_law v3) as (E4 & N4 & I4 & F4 & D4).
  fold v1 in E1, N1, F1. fold v2 in E2, N2, F2. fold v3 in E3, N3, F3, I3.
  assert (m < 2 ^ la_bits) as Hmb.
  { destruct Hd as [q Hq]. destruct (Z.eq_dec la_bits 3) as [E3'|]; [rewrite E3' in *; lia|].
    replace la_bits with (2 + (la_bits - 2)) in * by lia. rewrite Z.pow_add_r in * by lia. lia. }
  assert (n ≤ m ≤ n + 3) as Hmn by (destruct Hd as [q Hq]; lia).
  split_and!; [unfold la_ok in *; congruence|lia|apply D4; congruence|rewrite I4, I3 by (done || lia); lia..].
Qed.

#[export] Instance loongarch_timer_laws : SysTimerLaws V.
Proof.
  refine {| st_ok := la_ok; st_now := la_now; st_freq := freq; st_line := la_line;
    st_wait := la_wait; st_max := 2 ^ la_bits - 4; st_slack := 3 |}.
  - intros v Hv. destruct (time_read_law v) as (E & Hn & Ed & Ef). simpl. unfold runs, la_systimer_tick, la_ok, la_line.
    destruct (time_read v) as [v' t]. simpl in *. eexists _, _. split; [done|]. by rewrite Ed, Ef.
  - intros v t Hv Ht Et. destruct (la_wait_law t v Ht) as (Ed & Ef). unfold la_ok, la_line. by rewrite Ed, Ef.
  - intros v Hv. exists v, (get_timer_freq v). done.
  - intros v v' n Hv Hn. simpl. unfold la_systimer_set_interval, la_systimer_irq_enable, mbind, M_bind, lift, modify.
    destruct (uadd 64 _ 3) as [m|e|]; [|done..]. intros [= <-]. set (v1 := tcfg_set_en false v).
    set (v2 := tcfg_set_periodic false v1). set (v3 := tcfg_set_init_val (Z.land m (unot 64 3)) v2). set (v4 := clear_timer_interrupt v3).
    destruct (set_en_law false v) as (_ & N1 & _ & F1 & _). destruct (set_periodic_law false v1) as (_ & N2 & F2).
    destruct (set_init_val_law (Z.land m (unot 64 3)) v2) as (_ & N3 & F3 & _). destruct (clear_law v3) as (_ & N4 & _ & F4 & _).
    destruct (set_en_law true v4) as (_ & N5 & _ & F5 & _). unfold la_ok in *. subst v1 v2 v3 v4. split; [congruence|lia].
  - intros v n Hv Hn. simpl. eapply runs_bind; [by apply la_set_interval_run|]. intros v1 _ (Ho1 & Hn1 & Hd1 & Hi1).
    destruct (set_en_law true v1) as (E2 & N2 & I2 & F2 & D2). destruct (D2 eq_refl Hd1) as (t & Ht & Ed).
    eexists _, tt. split; [done|]. split_and!; [unfold la_ok in *; congruence|lia|]. intros _ u Hu. unfold la_line. rewrite Ed.
    apply Z.leb_le. lia.
Defined.

End LoongarchLaws.

(** Switching the timer off, as the kernel does once no timer is pending, adds
    to the largest number of ticks there is: a panic. *)
Theorem loongarch_idle_panics {V : Type} `{LoongTimer V} (v : V) now :
  program (mk_Hw now usize_max false) v = (v, Stuck).
Proof. reflexivity. Qed.
End Loongarch.
