(* ===== verification/Once.v ===== *)
(** * Initialisation by the first CPU that comes
    The pattern of init_tsc_freq and init_idt_once in
    crates/someboot/src/arch/x86_64/trap.rs: a state that goes from 0 to 1 to 2,
    the CPU that makes it 1 initialises, the others wait until it is 2. What
    initialising does is a list of steps on the memory all CPUs share, and the
    CPUs take turns in any order. *)

From stdpp Require Import base tactics option list relations.
From S2P Require Import Prelude.
Open Scope Z_scope.

Section Once.
Context {Mem : Type} (body : list (Mem → Mem)).

(** Where a CPU is: before the first load, before the exchange, in the body with
    the steps that are left, in the loop that waits, returned. *)
Inductive Pc : Type := AtLoad | AtExchange | InBody (rest : list (Mem → Mem)) | Spinning | Returned.

(** The state word, the memory, the CPUs. *)
Record Shared : Type := mk_Shared { once_state : Z; memory : Mem; pcs : list Pc }.

(** One step of a CPU: the state word, the memory and its own place. *)
Definition once_step (st : Z) (mem : Mem) (pc : Pc) : Z * Mem * Pc :=
  match pc with
  | AtLoad => if st =? 2 then (st, mem, Returned) else (st, mem, AtExchange)
  | AtExchange => if st =? 0 then (1, mem, InBody body) else (st, mem, Spinning)
  | Spinning => if st =? 2 then (st, mem, Returned) else (st, mem, Spinning)
  | InBody (f :: rest) => (st, f mem, InBody rest)
  | InBody [] => (2, mem, Returned)
  | Returned => (st, mem, Returned)
  end.

(** CPU [i] takes a step. *)
Definition turn (i : nat) (w : Shared) : Shared :=
  match pcs w !! i with
  | Some pc =>
      let '(st, mem, pc) := once_step (once_state w) (memory w) pc in
      mk_Shared st mem (<[i := pc]> (pcs w))
  | None => w
  end.

Definition once_start (n : nat) (mem : Mem) : Shared := mk_Shared 0 mem (replicate n AtLoad).

(** Any schedule. *)
Definition run_schedule (l : list nat) (w : Shared) : Shared := foldl (λ w i, turn i w) w l.

Definition run_body (fs : list (Mem → Mem)) (mem : Mem) : Mem := foldl (λ m f, f m) mem fs.

(** ** The invariant *)

Definition idle (pc : Pc) : Prop := pc = AtLoad ∨ pc = AtExchange.
Definition waiting (pc : Pc) : Prop := idle pc ∨ pc = Spinning.
Definition settled (pc : Pc) : Prop := waiting pc ∨ pc = Returned.

(** Nobody has begun; one CPU is in the body and the others wait; all is done. *)
Inductive once_ok (mem0 : Mem) : Shared → Prop :=
| once_untouched l : (∀ i pc, l !! i = Some pc → idle pc) → once_ok mem0 (mk_Shared 0 mem0 l)
| once_running l k past rest : body = past ++ rest → l !! k = Some (InBody rest) →
    (∀ i pc, i ≠ k → l !! i = Some pc → waiting pc) → once_ok mem0 (mk_Shared 1 (run_body past mem0) l)
| once_ready l : (∀ i pc, l !! i = Some pc → settled pc) → once_ok mem0 (mk_Shared 2 (run_body body mem0) l).

Lemma once_start_ok n mem0 : once_ok mem0 (once_start n mem0).
Proof. constructor. intros i pc [-> _]%lookup_replicate. by left. Qed.

(** What holds of the others holds of all once it holds of the one that moved. *)
Lemma insert_all (P : Pc → Prop) (l : list Pc) i pc : P pc → (∀ j x, j ≠ i → l !! j = Some x → P x) →
  ∀ j x, <[i := pc]> l !! j = Some x → P x.
Proof.
  intros Hpc Hl j x. destruct (decide (i = j)) as [->|Hne].
  - intros [(_ & -> & _)|(Hn & _)]%list_lookup_insert_Some; [done|done].
  - rewrite list_lookup_insert_ne by done. by apply Hl.
Qed.

Lemma turn_ok mem0 i w : once_ok mem0 w → once_ok mem0 (turn i w).
Proof.
  intros Hw. unfold turn. destruct Hw as [l Hl|l k past rest Hbody Hk Hl|l Hl]; simpl; destruct (l !! i) as [pc|] eqn:Ei; try by econstructor.
  - destruct (Hl i pc Ei) as [-> | ->]; simpl.
    + constructor. apply insert_all; [by right|]. intros j x _. apply Hl.
    + apply (once_running mem0 _ i [] body); [done|by apply list_lookup_insert_eq, (lookup_lt_Some _ _ _ Ei)|].
      intros j x Hne. rewrite list_lookup_insert_ne by done. intros Hj. left. by eapply Hl.
  - destruct (decide (i = k)) as [->|Hne].
    + rewrite Hk in Ei. injection Ei as <-. destruct rest as [|f rest]; simpl.
      * replace past with body by (by rewrite Hbody, app_nil_r). constructor. apply insert_all; [by right|].
        intros j x Hj Hx. left. by eapply Hl.
      * replace (f (run_body past mem0)) with (run_body (past ++ [f]) mem0) by (unfold run_body; by rewrite foldl_app).
        apply (once_running mem0 _ k _ rest); [by rewrite <- app_assoc|by apply list_lookup_insert_eq, (lookup_lt_Some _ _ _ Hk)|].
        intros j x Hj. rewrite list_lookup_insert_ne by done. by apply Hl.
    + assert (∃ pc', once_step 1 (run_body past mem0) pc = (1, run_body past mem0, pc') ∧ waiting pc') as (pc' & -> & Hpc').
      { destruct (Hl i pc Hne Ei) as [[-> | ->] | ->]; simpl; eexists; (split; [done|]); first [by left; right|by right]. }
      apply (once_running mem0 _ k past rest); [done|by rewrite list_lookup_insert_ne|].
      intros j x Hj. destruct (decide (i = j)) as [->|]; [|rewrite list_lookup_insert_ne by done; by apply Hl].
      by intros [(_ & -> & _)|(Hn & _)]%list_lookup_insert_Some.
  - assert (∃ pc', once_step 2 (run_body body mem0) pc = (2, run_body body mem0, pc') ∧ settled pc') as (pc' & -> & Hpc').
    { destruct (Hl i pc Ei) as [[[-> | ->] | ->] | ->]; simpl; eexists; (split; [done|]); first [by right|by left; left; right|by left; right]. }
    constructor. apply insert_all; [done|]. intros j x _. apply Hl.
Qed.

Lemma schedule_ok mem0 l : ∀ w, once_ok mem0 w → once_ok mem0 (run_schedule l w).
Proof. induction l as [|i l IH]; intros w Hw; [done|]. apply IH. by apply turn_ok. Qed.

(** ** Progress: what a CPU has before it, were it alone *)

Definition work (pc : Pc) : nat :=
  match pc with
  | AtLoad => length body + 4 | AtExchange => length body + 3
  | InBody rest => length rest + 2 | Spinning => 1 | Returned => 0
  end.
Definition all_work (w : Shared) : nat := sum_list_with work (pcs w).

(** A CPU that a step brings forward; only waiting for another one does not. *)
Definition moves (i : nat) (w : Shared) : Prop :=
  ∃ pc, pcs w !! i = Some pc ∧ pc ≠ Returned ∧ (pc = Spinning → once_state w = 2).

Lemma sum_insert (l : list Pc) i pc pc' : l !! i = Some pc → (work pc' < work pc)%nat →
  (sum_list_with work (<[i := pc']> l) < sum_list_with work l)%nat.
Proof.
  revert i. induction l as [|x l IH]; intros [|i] Hi Hlt; simpl in *; try done.
  - injection Hi as ->. lia.
  - specialize (IH i Hi Hlt). lia.
Qed.

Lemma turn_moves i w : moves i w → (∃ mem0, once_ok mem0 w) → (all_work (turn i w) < all_work w)%nat.
Proof.
  intros (pc & Hi & Hr & Hs) [mem0 Hw]. unfold turn, all_work. rewrite Hi.
  destruct (once_step (once_state w) (memory w) pc) as [[st mem] pc'] eqn:E. simpl. apply (sum_insert _ _ pc); [done|].
  destruct pc as [| |[|f rest]| |]; simpl in E; try done.
  - destruct (once_state w =? 2); injection E as <- <- <-; simpl; lia.
  - destruct (once_state w =? 0); injection E as <- <- <-; simpl; lia.
  - injection E as <- <- <-. simpl. lia.
  - injection E as <- <- <-. simpl. lia.
  - rewrite (Hs eq_refl) in E. injection E as <- <- <-. simpl. lia.
Qed.

(** As long as a CPU has not returned, one can move. *)
Lemma some_moves mem0 w : once_ok mem0 w → (∃ i pc, pcs w !! i = Some pc ∧ pc ≠ Returned) → ∃ i, moves i w.
Proof.
  intros Hw (i & pc & Hi & Hr). destruct Hw as [l Hl|l k past rest _ Hk _|l Hl]; simpl in *.
  - exists i, pc. split_and!; [done|done|]. intros ->. by destruct (Hl i _ Hi).
  - exists k, (InBody rest). done.
  - exists i, pc. done.
Qed.

(** From everywhere a schedule brings every CPU back. *)
Lemma all_return mem0 w : once_ok mem0 w → ∃ l, ∀ i pc, pcs (run_schedule l w) !! i = Some pc → pc = Returned.
Proof.
  remember (all_work w) as n eqn:En. revert w En. induction n as [n IH] using lt_wf_ind. intros w -> Hw.
  destruct (decide (Exists (λ pc, work pc ≠ 0%nat) (pcs w))) as [Hx|Hx].
  - apply Exists_exists in Hx as (pc & [i Hi]%list_elem_of_lookup & Hne).
    destruct (some_moves mem0 w Hw) as [j Hj]; [exists i, pc; split; [done|]; by intros ->|].
    destruct (IH _ (turn_moves j w Hj (ex_intro _ mem0 Hw)) (turn j w) eq_refl (turn_ok _ _ _ Hw)) as [l Hl]. by exists (j :: l).
  - exists []. intros i pc Hi. simpl in Hi. destruct pc; try done; contradict Hx; apply Exists_exists;
      eexists; (split; [by apply list_elem_of_lookup; exists i|]); simpl; lia.
Qed.
End Once.

(** C30: Whatever turns any number of CPUs take: a CPU that has returned finds
    the memory as the steps of the body, each taken once and in order, have
    left it, and it stays so; two CPUs are never in the body together; and
    every CPU can still return, however far the others are. *)
Theorem once_initialised {Mem : Type} (body : list (Mem → Mem)) n mem0 l :
  let w := run_schedule body l (once_start n mem0) in
  (∀ i, pcs w !! i = Some Returned → once_state w = 2 ∧ memory w = run_body body mem0) ∧
  (∀ l', once_state w = 2 → memory (run_schedule body l' w) = run_body body mem0) ∧
  (∀ i j f g, pcs w !! i = Some (InBody f) → pcs w !! j = Some (InBody g) → i = j) ∧
  (∃ l', ∀ i pc, pcs (run_schedule body l' w) !! i = Some pc → pc = Returned).
Proof.
  intros w. assert (once_ok body mem0 w) as Hw by apply schedule_ok, once_start_ok. split_and!.
  - intros i Hi. destruct Hw as [l0 Hl|l0 k past rest _ Hk Hl|l0 Hl]; simpl in *; [..|done].
    + by destruct (Hl i _ Hi).
    + destruct (decide (i = k)) as [->|Hne]; [by rewrite Hk in Hi|]. by destruct (Hl i _ Hne Hi) as [[?|?]|?].
  - intros l' E2. assert (∀ v, once_ok body mem0 v → once_state v = 2 → memory v = run_body body mem0 ∧ ∀ j, once_state (turn body j v) = 2) as Hst.
    { intros v Hv. destruct Hv as [l0 Hl|l0 k past rest _ Hk Hl|l0 Hl]; simpl; try done. intros _. split; [done|]. intros j. unfold turn. simpl.
      destruct (l0 !! j) as [pc|] eqn:Ej; [|done]. by destruct (Hl j pc Ej) as [[[-> | ->] | ->] | ->]. }
    revert Hw E2. generalize w. induction l' as [|j l' IH]; intros v Hv Ev; [by apply Hst|].
    simpl. apply IH; [by apply turn_ok|by apply Hst].
  - intros i j f g Hi Hj. destruct Hw as [l0 Hl|l0 k past rest _ Hk Hl|l0 Hl]; simpl in *.
    + by destruct (Hl i _ Hi).
    + destruct (decide (i = k)) as [->|Hn1], (decide (j = k)) as [->|Hn2]; [done|..].
      * by destruct (Hl j _ Hn2 Hj) as [[?|?]|?].
      * by destruct (Hl i _ Hn1 Hi) as [[?|?]|?].
      * by destruct (Hl i _ Hn1 Hi) as [[?|?]|?].
    + by destruct (Hl i _ Hi) as [[[?|?]|?]|?].
  - by apply (all_return body mem0).
Qed.
