(* ===== verification/X86Timer.v ===== *)
(** * The local timer of x86_64
    crates/someboot/src/arch/x86_64/trap.rs: the frequency of the time stamp
    counter, the local APIC and its timer, in the mode with a deadline and in
    the mode that counts down, and the interrupt descriptors; with the timer's
    part of [ArchTrait] in mod.rs. *)

From stdpp Require Import base tactics option list numbers gmap.
From S2P Require Import Prelude Timer SysTimer Once.
Open Scope Z_scope.

(** ** The processor
    Model-specific registers, memory-mapped registers at an address, the time
    stamp counter and ports. *)
Class X86Hw (V : Type) : Type := {
  rdmsr : Z → V → Z;
  wrmsr : Z → Z → V → V;
  mmio_read : Z → V → Z;
  mmio_write : Z → Z → V → V;
  rdtsc : V → V * Z;
  outb : Z → Z → V → V
}.

(** What the crate x86 reads from CPUID. *)
Record TscInfo : Type := mk_TscInfo { numerator : Z; denominator : Z; tsc_frequency : option Z }.
Record CpuId : Type := mk_CpuId {
  tsc_info : option TscInfo;
  processor_base_mhz : option Z;
  hypervisor_tsc_khz : option Z;
  cpu_has_tsc_deadline : bool
}.

Definition IA32_APIC_BASE : Z := 0x1b.
Definition IA32_TSC_DEADLINE : Z := 0x6e0.
Definition IA32_EFER : Z := 0xc0000080.
Definition IA32_EFER_NXE : Z := Z.shiftl 1 11.

Definition LAPIC_REG_EOI : Z := 0x0b0.
Definition LAPIC_REG_SVR : Z := 0x0f0.
Definition LAPIC_REG_LVT_TIMER : Z := 0x320.
Definition LAPIC_REG_TIMER_INIT_COUNT : Z := 0x380.
Definition LAPIC_REG_TIMER_CUR_COUNT : Z := 0x390.
Definition LAPIC_REG_TIMER_DIV : Z := 0x3e0.
Definition LAPIC_LVT_MASKED : Z := Z.shiftl 1 16.
Definition LAPIC_LVT_TIMER_TSC_DEADLINE : Z := Z.shiftl 1 18.
Definition LAPIC_SVR_ENABLE : Z := Z.shiftl 1 8.
Definition LAPIC_BASE_MASK : Z := 0xfffff000.
Definition IA32_APIC_BASE_ENABLE : Z := Z.shiftl 1 11.
Definition LAPIC_TIMER_DIVIDE_BY_16 : Z := 3.
(** irq.rs *)
Definition LAPIC_TIMER_VECTOR : Z := 0x20.
Definition LAPIC_SPURIOUS_VECTOR : Z := 0xff.

(** ** The frequency *)

Notation Res := (outcome Empty_set).

Definition base_hz (c : CpuId) : option Z := (λ mhz, mhz * 1000000) <$> processor_base_mhz c.
Definition hypervisor_hz (c : CpuId) : option Z := (λ khz, khz * 1000) <$> hypervisor_tsc_khz c.
Definition or_else (o o' : option Z) : option Z := match o with Some _ => o | None => o' end.

(** The closure on the ratio of the counter and the crystal. *)
Definition from_tsc_info (c : CpuId) (info : TscInfo) : Res (option Z) :=
  match tsc_frequency info with
  | Some freq => Ok (Some freq)
  | None =>
      if negb (numerator info =? 0) && negb (denominator info =? 0) then
        match or_else (base_hz c) (hypervisor_hz c) with
        | None => Ok None
        | Some base =>
            p ← umul 64 base (denominator info);
            let crystal_hz := p / numerator info in
            q ← umul 64 crystal_hz (numerator info);
            Ok (Some (q / denominator info))
        end
      else Ok None
  end.

Definition tsc_freq_hz (c : CpuId) : Res Z :=
  o ← match tsc_info c with None => Ok None | Some info => from_tsc_info c info end;
  let o := or_else (or_else o (base_hz c)) (hypervisor_hz c) in
  Ok (match o with Some freq => if freq =? 0 then 1000000000 else freq | None => 1000000000 end).

(** ** The statics *)
Record Statics : Type := mk_Statics {
  TSC_FREQ_HZ : Z;
  APIC_COUNTS_PER_TSC_Q32 : Z;
  HAS_TSC_DEADLINE : bool;
  LAPIC_READY : bool;
  IDT : gmap Z (Z * bool)
}.
Definition statics0 : Statics := mk_Statics 0 0 false false ∅.

Definition set_freq (x : Z) (s : Statics) := mk_Statics x (APIC_COUNTS_PER_TSC_Q32 s) (HAS_TSC_DEADLINE s) (LAPIC_READY s) (IDT s).
Definition set_q32 (x : Z) (s : Statics) := mk_Statics (TSC_FREQ_HZ s) x (HAS_TSC_DEADLINE s) (LAPIC_READY s) (IDT s).
Definition set_deadline (x : bool) (s : Statics) := mk_Statics (TSC_FREQ_HZ s) (APIC_COUNTS_PER_TSC_Q32 s) x (LAPIC_READY s) (IDT s).
Definition set_ready (x : bool) (s : Statics) := mk_Statics (TSC_FREQ_HZ s) (APIC_COUNTS_PER_TSC_Q32 s) (HAS_TSC_DEADLINE s) x (IDT s).

(** The body of [init_tsc_freq], as the stores it makes. *)
Definition init_tsc_freq (c : CpuId) (freq_hz : Z) : list (Statics → Statics) :=
  [set_deadline (cpu_has_tsc_deadline c); set_freq freq_hz].

(** [set_gate]: the handler and whether it is a trap gate. *)
Definition set_gate (index handler : Z) (trap : bool) (s : Statics) : Statics :=
  mk_Statics (TSC_FREQ_HZ s) (APIC_COUNTS_PER_TSC_Q32 s) (HAS_TSC_DEADLINE s) (LAPIC_READY s) (<[index := (handler, trap)]> (IDT s)).
(** The body of [init_idt_once], given the addresses of the handlers. *)
Definition init_idt_once (breakpoint general_protection page_fault lapic_timer spurious : Z) : list (Statics → Statics) :=
  [set_gate 3 breakpoint true; set_gate 13 general_protection false; set_gate 14 page_fault false;
   set_gate LAPIC_TIMER_VECTOR lapic_timer false; set_gate LAPIC_SPURIOUS_VECTOR spurious false].

(** ** The local APIC *)

Section X86.
Context {V : Type} `{X86Hw V}.

Record X86 : Type := mk_X86 { x_hw : V; x_static : Statics }.
Notation XM := (TMR X86).

Definition static : XM Statics := s ← get; mret (x_static s).
Definition update_static (f : Statics → Statics) : XM unit := modify (λ s, mk_X86 (x_hw s) (f (x_static s))).
Definition x_rdmsr (msr : Z) : XM Z := s ← get; mret (rdmsr msr (x_hw s)).
Definition x_wrmsr (msr x : Z) : XM unit := modify (λ s, mk_X86 (wrmsr msr x (x_hw s)) (x_static s)).
Definition x_outb (port x : Z) : XM unit := modify (λ s, mk_X86 (outb port x (x_hw s)) (x_static s)).
Definition ticks_now : XM Z := λ s, let '(v, t) := rdtsc (x_hw s) in (mk_X86 v (x_static s), Ok t).

Definition lapic_ptr (offset : Z) : XM Z :=
  msr ← x_rdmsr IA32_APIC_BASE;
  lift (uadd 64 (Z.land msr LAPIC_BASE_MASK) offset).
Definition read_lapic_reg (offset : Z) : XM Z :=
  ptr ← lapic_ptr offset; s ← get; mret (mmio_read ptr (x_hw s)).
Definition write_lapic_reg (offset value : Z) : XM unit :=
  ptr ← lapic_ptr offset; modify (λ s, mk_X86 (mmio_write ptr value (x_hw s)) (x_static s)).

Definition has_tsc_deadline : XM bool := s ← static; mret (HAS_TSC_DEADLINE s).
Definition ensure_lapic_ready : XM unit := s ← static; if LAPIC_READY s then mret tt else stuck.
Definition tsc_freq : XM Z := s ← static; if TSC_FREQ_HZ s =? 0 then stuck else mret (TSC_FREQ_HZ s).

Definition timer_lvt_value (masked : bool) : XM Z :=
  let val := if masked then Z.lor LAPIC_TIMER_VECTOR LAPIC_LVT_MASKED else LAPIC_TIMER_VECTOR in
  d ← has_tsc_deadline;
  mret (if d : bool then Z.lor val LAPIC_LVT_TIMER_TSC_DEADLINE else val).

Definition set_lvt_masked (masked : bool) : XM unit :=
  val ← read_lapic_reg LAPIC_REG_LVT_TIMER;
  write_lapic_reg LAPIC_REG_LVT_TIMER (if masked then Z.lor val LAPIC_LVT_MASKED else Z.land val (unot 32 LAPIC_LVT_MASKED)).

Definition timer_enable : XM unit :=
  _ ← ensure_lapic_ready;
  _ ← set_lvt_masked false;
  val ← timer_lvt_value false;
  write_lapic_reg LAPIC_REG_LVT_TIMER val.
Definition timer_irq_enable : XM unit := _ ← ensure_lapic_ready; set_lvt_masked false.
Definition timer_irq_disable : XM unit := _ ← ensure_lapic_ready; set_lvt_masked true.
Definition timer_irq_is_enabled : XM bool :=
  _ ← ensure_lapic_ready;
  val ← read_lapic_reg LAPIC_REG_LVT_TIMER;
  mret (Z.land val LAPIC_LVT_MASKED =? 0).

(** The product is taken in 128 bits, of two words of 64. *)
Definition apic_counts (q32 ticks : Z) : Z :=
  let q32 := if q32 =? 0 then Z.shiftl 1 32 else q32 in
  Z.min (Z.max (Z.shiftr (ticks * q32) 32) 1) u32_max.
Definition ticks_to_apic_counts (ticks : Z) : XM Z := s ← static; mret (apic_counts (APIC_COUNTS_PER_TSC_Q32 s) ticks).

Definition timer_set_deadline_in_ticks (ticks : Z) : XM unit :=
  _ ← ensure_lapic_ready;
  d ← has_tsc_deadline;
  if (d : bool) then
    now ← ticks_now;
    x_wrmsr IA32_TSC_DEADLINE (saturating_add 64 now (Z.max ticks 1))
  else
    counts ← ticks_to_apic_counts (Z.max ticks 1);
    write_lapic_reg LAPIC_REG_TIMER_INIT_COUNT counts.

Definition timer_ack : XM unit :=
  s ← static; if LAPIC_READY s then write_lapic_reg LAPIC_REG_EOI 0 else mret tt.

(** [calibrate_apic_timer_ratio]: the loop waits for the counter. *)
Fixpoint wait_tsc_loop (fuel : nat) (start_tsc wait_tsc : Z) : XM unit :=
  match fuel with
  | O => stuck
  | S fuel =>
      t ← ticks_now;
      if wait_tsc <=? (t - start_tsc) mod 2 ^ 64 then mret tt else wait_tsc_loop fuel start_tsc wait_tsc
  end.

Definition ratio_q32 (elapsed_apic elapsed_tsc : Z) : Z :=
  if (elapsed_tsc =? 0) || (elapsed_apic =? 0) then Z.shiftl 1 32
  else (Z.shiftl elapsed_apic 32 / elapsed_tsc) mod 2 ^ 64.

Definition calibrate_apic_timer_ratio (fuel : nat) : XM unit :=
  freq ← tsc_freq;
  let wait_tsc := Z.max (freq / 100) 1 in
  _ ← write_lapic_reg LAPIC_REG_TIMER_INIT_COUNT u32_max;
  start_tsc ← ticks_now;
  _ ← wait_tsc_loop fuel start_tsc wait_tsc;
  end_tsc ← ticks_now;
  current ← read_lapic_reg LAPIC_REG_TIMER_CUR_COUNT;
  _ ← write_lapic_reg LAPIC_REG_TIMER_INIT_COUNT 0;
  let elapsed_tsc := (end_tsc - start_tsc) mod 2 ^ 64 in
  elapsed_apic ← lift (usub u32_max current);
  update_static (set_q32 (ratio_q32 elapsed_apic elapsed_tsc)).

Definition init_lapic (fuel : nat) : XM unit :=
  base ← x_rdmsr IA32_APIC_BASE;
  _ ← x_wrmsr IA32_APIC_BASE (Z.lor base IA32_APIC_BASE_ENABLE);
  _ ← write_lapic_reg LAPIC_REG_SVR (Z.lor LAPIC_SVR_ENABLE LAPIC_SPURIOUS_VECTOR);
  _ ← write_lapic_reg LAPIC_REG_TIMER_DIV LAPIC_TIMER_DIVIDE_BY_16;
  val ← timer_lvt_value true;
  _ ← write_lapic_reg LAPIC_REG_LVT_TIMER val;
  d ← has_tsc_deadline;
  _ ← (if (d : bool) then mret tt else calibrate_apic_timer_ratio fuel);
  _ ← timer_ack;
  update_static (set_ready true).

Definition mask_legacy_pic : XM unit := _ ← x_outb 0x21 0xff; x_outb 0xa1 0xff.
Definition enable_nxe : XM unit := efer ← x_rdmsr IA32_EFER; x_wrmsr IA32_EFER (Z.lor efer IA32_EFER_NXE).

(** [init_local]; the first CPU runs the body of [init_tsc_freq], which the
    others find done ([Once]). *)
Definition init_local (first : bool) (c : CpuId) (fuel : nat) : XM unit :=
  _ ← mask_legacy_pic;
  _ ← enable_nxe;
  _ ← (if first then freq ← lift (tsc_freq_hz c); update_static (run_body (init_tsc_freq c freq)) else mret tt);
  init_lapic fuel.

#[export] Instance x86_systimer : SysTimer X86 := {|
  systimer_enable := timer_enable;
  systimer_irq_enable := timer_irq_enable;
  systimer_irq_disable := timer_irq_disable;
  systimer_irq_is_enabled := timer_irq_is_enabled;
  systimer_set_interval := timer_set_deadline_in_ticks;
  systimer_ack := timer_ack;
  systimer_freq := tsc_freq;
  systimer_tick := ticks_now
|}.
End X86.
Arguments X86 : clear implicits.

(** ** The behaviour of the processor
    [lvt] is the timer's entry of the local vector table, of which the vector,
    the mask and the mode are kept as written. The deadline is armed until the
    counter reaches it; the interrupt comes if the entry is then in deadline
    mode and not masked, and stays pending. *)
Definition deadline_mode (l : Z) : Prop := Z.testbit l 17 = false ∧ Z.testbit l 18 = true.
Definition lvt_masked (l : Z) : bool := Z.testbit l 16.

Class X86Laws (V : Type) `{X86Hw V} : Type := {
  x_now : V → Z;
  apic_base : V → Z;
  lvt : V → Z;
  x_deadline : V → Z;
  x_pending : V → Z → bool;
  x_wait : Z → V → V;
  x_now_range v : 0 ≤ x_now v < 2 ^ 64 - 1;
  base_law v : Z.land (rdmsr IA32_APIC_BASE v) LAPIC_BASE_MASK = apic_base v ∧ 0 ≤ apic_base v < 2 ^ 32;
  lvt_read_law v : mmio_read (apic_base v + LAPIC_REG_LVT_TIMER) v = lvt v ∧ 0 ≤ lvt v < 2 ^ 32;
  lvt_write_law x v : let v' := mmio_write (apic_base v + LAPIC_REG_LVT_TIMER) x v in
    apic_base v' = apic_base v ∧ x_now v ≤ x_now v' ∧ x_deadline v' = x_deadline v ∧ Z.land (lvt v') 0x700ff = Z.land x 0x700ff;
  other_write_law off x v : off ∈ [LAPIC_REG_EOI; LAPIC_REG_SVR; LAPIC_REG_TIMER_INIT_COUNT; LAPIC_REG_TIMER_DIV] →
    let v' := mmio_write (apic_base v + off) x v in
    apic_base v' = apic_base v ∧ x_now v ≤ x_now v' ∧ lvt v' = lvt v;
  wrmsr_law msr x v : let v' := wrmsr msr x v in
    apic_base v' = (if msr =? IA32_APIC_BASE then Z.land x LAPIC_BASE_MASK else apic_base v) ∧ x_now v ≤ x_now v' ∧ lvt v' = lvt v ∧
    x_deadline v' = (if msr =? IA32_TSC_DEADLINE then x else x_deadline v);
  outb_law port x v : let v' := outb port x v in apic_base v' = apic_base v ∧ x_now v ≤ x_now v' ∧ lvt v' = lvt v;
  rdtsc_law v : let v' := (rdtsc v).1 in
    (rdtsc v).2 = x_now v' ∧ x_now v ≤ x_now v' ∧ (x_now v < 2 ^ 63 → x_now v < x_now v') ∧
    apic_base v' = apic_base v ∧ lvt v' = lvt v ∧ ∀ t, x_now v' ≤ t → x_pending v' t = x_pending v t;
  pending_law v t : deadline_mode (lvt v) → lvt_masked (lvt v) = false → x_now v < x_deadline v → x_deadline v ≤ t →
    x_pending v t = true;
  masked_law v t : lvt_masked (lvt v) = true → x_now v ≤ t → x_pending v t = x_pending v (x_now v);
  x_wait_law t v : x_now v ≤ t → let v' := x_wait t v in
    apic_base v' = apic_base v ∧ lvt v' = lvt v ∧ ∀ u, x_now v' ≤ u → x_pending v' u = x_pending v u
}.

Section X86Proof.
Context {V : Type} `{X86Laws V}.
Implicit Types s : X86 V.

Lemma lapic_ptr_run off s : 0 ≤ off < 0x1000 → lapic_ptr off s = (s, Ok (apic_base (x_hw s) + off)).
Proof.
  intros Ho. unfold lapic_ptr, x_rdmsr, mbind, M_bind, get, lift. simpl. destruct (base_law (x_hw s)) as [-> Hr].
  by rewrite uadd_ok by lia.
Qed.

Lemma write_lapic_run off x s : 0 ≤ off < 0x1000 →
  write_lapic_reg off x s = (mk_X86 (mmio_write (apic_base (x_hw s) + off) x (x_hw s)) (x_static s), Ok tt).
Proof. intros Ho. unfold write_lapic_reg, mbind, M_bind. by rewrite lapic_ptr_run. Qed.

Lemma read_lvt_run s : read_lapic_reg LAPIC_REG_LVT_TIMER s = (s, Ok (lvt (x_hw s))).
Proof.
  unfold read_lapic_reg, mbind, M_bind. rewrite lapic_ptr_run by done. simpl. by rewrite (proj1 (lvt_read_law _)).
Qed.

(** The bits of the entry that are kept. *)
Lemma lvt_bit i (x y : Z) : Z.testbit 0x700ff i = true → Z.land x 0x700ff = Z.land y 0x700ff → Z.testbit x i = Z.testbit y i.
Proof.
  intros Hi E. apply (f_equal (λ z, Z.testbit z i)) in E. by rewrite !Z.land_spec, Hi, !andb_true_r in E.
Qed.

Lemma set_lvt_masked_run masked s : runs (set_lvt_masked masked) s (λ s' _,
  x_static s' = x_static s ∧ x_now (x_hw s) ≤ x_now (x_hw s') ∧ x_deadline (x_hw s') = x_deadline (x_hw s) ∧
  lvt_masked (lvt (x_hw s')) = masked ∧ (deadline_mode (lvt (x_hw s)) → deadline_mode (lvt (x_hw s')))).
Proof.
  unfold runs, set_lvt_masked, mbind, M_bind. rewrite read_lvt_run, write_lapic_run by done. eexists _, _. split; [done|]. simpl.
  set (x := if masked then _ else _). destruct (lvt_write_law x (x_hw s)) as (_ & Hn & Hd & Hl). cbv zeta in Hl.
  split_and!; [done|done|done| |].
  - unfold lvt_masked. rewrite (lvt_bit 16 _ _ eq_refl Hl). unfold x. destruct masked; [by rewrite Z.lor_spec, orb_true_r|].
    by rewrite Z.land_spec, andb_false_r.
  - intros [H17 H18]. split; [rewrite (lvt_bit 17 _ _ eq_refl Hl)|rewrite (lvt_bit 18 _ _ eq_refl Hl)]; unfold x;
      destruct masked; rewrite ?Z.lor_spec, ?Z.land_spec, ?H17, ?H18; done.
Qed.

(** ** The timer in deadline mode *)
Section Deadline.
Context (freq : Z) (Hfreq : freq ≠ 0).

(** Initialised. *)
Definition x_ok s : Prop := LAPIC_READY (x_static s) = true ∧ HAS_TSC_DEADLINE (x_static s) = true ∧
  TSC_FREQ_HZ (x_static s) = freq ∧ deadline_mode (lvt (x_hw s)).

Lemma timer_irq_run (enable : bool) s : x_ok s → runs (if enable then timer_irq_enable else timer_irq_disable) s (λ s' _,
  x_ok s' ∧ x_now (x_hw s) ≤ x_now (x_hw s') ∧ x_deadline (x_hw s') = x_deadline (x_hw s) ∧ lvt_masked (lvt (x_hw s')) = negb enable).
Proof.
  intros (Hr & Hd & Hf & Hm). destruct (set_lvt_masked_run (negb enable) s) as (s' & [] & E & Es & Hn & Hdl & Hmask & Hmode).
  exists s', tt. split; [|unfold x_ok; rewrite Es; by auto 10].
  unfold timer_irq_enable, timer_irq_disable, ensure_lapic_ready, static, mbind, M_bind, get. destruct enable; simpl; by rewrite Hr.
Qed.

Lemma set_deadline_run n s : x_ok s → 1 ≤ n → runs (timer_set_deadline_in_ticks n) s (λ s' _,
  x_ok s' ∧ x_now (x_hw s) ≤ x_now (x_hw s') ∧ ∃ now, x_now (x_hw s) ≤ now ≤ x_now (x_hw s') ∧ x_deadline (x_hw s') = Z.min (now + n) (2 ^ 64 - 1)).
Proof.
  intros (Hr & Hd & Hf & Hm) Hn. destruct (rdtsc_law (x_hw s)) as (Et & Hnow & _ & _ & El & _). cbv zeta in *.
  unfold runs, timer_set_deadline_in_ticks, ensure_lapic_ready, has_tsc_deadline, static, ticks_now, x_wrmsr, mbind, M_bind, get. simpl.
  rewrite Hr. simpl. rewrite Hd. destruct (rdtsc (x_hw s)) as [v t]. simpl in *. eexists _, _. split; [done|]. simpl.
  destruct (wrmsr_law IA32_TSC_DEADLINE (saturating_add 64 t (Z.max n 1)) v) as (_ & Hn' & El' & Ed). cbv zeta in *.
  unfold x_ok. simpl. rewrite El', El. split_and!; try done; [lia|]. exists t. split_and!; [lia|lia|]. rewrite Ed. simpl.
  unfold saturating_add. lia.
Qed.

#[export] Instance x86_timer_laws : SysTimerLaws (X86 V).
Proof.
  refine {| st_ok := x_ok; st_now s := x_now (x_hw s); st_freq := freq; st_line s := x_pending (x_hw s);
    st_wait t s := mk_X86 (x_wait t (x_hw s)) (x_static s); st_max := usize_max; st_slack := 0 |}.
  - intros s (Hr & Hd & Hf & Hm). destruct (rdtsc_law (x_hw s)) as (Et & Hnow & _ & _ & El & Hp). cbv zeta in *.
    unfold runs. simpl. unfold ticks_now, x_ok. destruct (rdtsc (x_hw s)) as [v t]. simpl in *. eexists _, _. split; [done|]. simpl.
    by rewrite El.
  - intros s t (Hr & Hd & Hf & Hm) Ht Et. simpl in *. destruct (x_wait_law t (x_hw s) Ht) as (_ & El & Hp). cbv zeta in *.
    unfold x_ok. simpl. rewrite El. split; [done|]. intros u Hu. apply Hp. by rewrite Et.
  - intros s Hs. pose proof Hs as (Hr & Hd & Hf & Hm). exists s, freq. split; [|done]. simpl.
    unfold tsc_freq, static, mbind, M_bind, get. simpl. by rewrite Hf, (proj2 (Z.eqb_neq _ _)).
  - intros s s' n Hs Hn E. simpl in E. destruct (set_deadline_run n s Hs Hn) as (s1 & [] & E1 & Hs1 & Hn1 & _).
    rewrite (bind_run _ _ _ _ _ E1) in E. destruct (timer_irq_run true s1 Hs1) as (s2 & [] & E2 & Hs2 & Hn2 & _).
    assert ((s', Ok tt) = (s2, Ok tt)) as [= ->] by (rewrite <- E, <- E2; reflexivity). split; [done|lia].
  - intros s n Hs [Hn Hmax]. simpl. eapply runs_bind; [by apply set_deadline_run|]. intros s1 _ (Hs1 & Hn1 & now & Hnow & Hdl).
    destruct (timer_irq_run true s1 Hs1) as (s2 & [] & E2 & Hs2 & Hn2 & Hdl2 & Hmask). exists s2, tt. split; [exact E2|].
    split_and!; [done|lia|]. intros Hq t Ht. pose proof (x_now_range (x_hw s2)).
    apply pending_law; [apply Hs2|done|rewrite Hdl2, Hdl; lia..].
Defined.

#[export] Instance x86_timer_idle : SysTimerIdle (X86 V).
Proof.
  split. intros s Hs. simpl. eapply runs_bind; [by apply set_deadline_run|]. intros s1 _ (Hs1 & Hn1 & _).
  destruct (timer_irq_run false s1 Hs1) as (s2 & [] & E2 & Hs2 & Hn2 & _ & Hmask). exists s2, tt. split; [exact E2|].
  split_and!; [done|lia|]. intros t Ht. by apply masked_law.
Qed.
End Deadline.
End X86Proof.

(** ** Initialisation *)
Section Init.
Context {V : Type} `{X86Laws V}.
Implicit Types s : X86 V.

Lemma other_write_run off x s : off ∈ [LAPIC_REG_EOI; LAPIC_REG_SVR; LAPIC_REG_TIMER_INIT_COUNT; LAPIC_REG_TIMER_DIV] →
  runs (write_lapic_reg off x) s (λ s' _, x_static s' = x_static s ∧ x_now (x_hw s) ≤ x_now (x_hw s') ∧ lvt (x_hw s') = lvt (x_hw s)).
Proof.
  intros Hoff. unfold runs. rewrite write_lapic_run by (set_unfold in Hoff; unfold LAPIC_REG_EOI, LAPIC_REG_SVR, LAPIC_REG_TIMER_INIT_COUNT, LAPIC_REG_TIMER_DIV in Hoff; lia).
  eexists _, _. split; [done|]. simpl. by destruct (other_write_law off x (x_hw s) Hoff) as (_ & Hn & Hl).
Qed.

Lemma x_wrmsr_run msr x s : runs (x_wrmsr msr x) s (λ s' _, x_static s' = x_static s ∧ x_now (x_hw s) ≤ x_now (x_hw s')).
Proof. eexists _, _. split; [done|]. simpl. by destruct (wrmsr_law msr x (x_hw s)) as (_ & Hn & _). Qed.

Lemma x_outb_run port x s : runs (x_outb port x) s (λ s' _, x_static s' = x_static s ∧ x_now (x_hw s) ≤ x_now (x_hw s')).
Proof. eexists _, _. split; [done|]. simpl. by destruct (outb_law port x (x_hw s)) as (_ & Hn & _). Qed.

Lemma ticks_now_run s : runs ticks_now s (λ s' t, x_static s' = x_static s ∧ t = x_now (x_hw s') ∧ x_now (x_hw s) ≤ t ∧
  (x_now (x_hw s) < 2 ^ 63 → x_now (x_hw s) < t) ∧ lvt (x_hw s') = lvt (x_hw s) ∧ x_hw s' = (rdtsc (x_hw s)).1).
Proof.
  destruct (rdtsc_law (x_hw s)) as (Et & Hn & Hp & _ & El & _). cbv zeta in *. unfold runs, ticks_now.
  destruct (rdtsc (x_hw s)) as [v t]. simpl in *. eexists _, _. split; [done|]. simpl. by rewrite Et.
Qed.

(** The loop of the calibration ends once the counter has moved on. *)
Lemma wait_tsc_run start wait fuel : ∀ s, 0 ≤ start → start + wait < 2 ^ 63 → start ≤ x_now (x_hw s) →
  (Z.to_nat (start + wait - x_now (x_hw s)) < fuel)%nat → 0 < wait →
  runs (wait_tsc_loop fuel start wait) s (λ s' _, x_static s' = x_static s ∧ start + wait ≤ x_now (x_hw s') ∧ lvt (x_hw s') = lvt (x_hw s)).
Proof.
  induction fuel as [|fuel IH]; intros s Hs Hw Hn Hf Hpos; [lia|]. simpl. eapply runs_bind; [apply ticks_now_run|].
  intros s1 t (Es & -> & Hle & Hlt & El & _). pose proof (x_now_range (x_hw s1)). rewrite Z.mod_small by lia.
  destruct (Z.leb_spec wait (x_now (x_hw s1) - start)) as [Hd|Hd].
  - exists s1, tt. split; [done|]. split_and!; [done|lia|done].
  - destruct (IH s1) as (s2 & [] & E & Es2 & H2 & El2); try lia. exists s2, tt. split; [exact E|]. split_and!; [congruence|done|congruence].
Qed.

(** *** A processor without deadline mode
    An access to the timer and a reading of the counter take at most [B] ticks,
    the timer shows a number of 32 bits. *)
Section Calibration.
Context (B : Z) (Hcur : ∀ v, 0 ≤ mmio_read (apic_base v + LAPIC_REG_TIMER_CUR_COUNT) v ≤ u32_max)
  (Hwrite : ∀ p x v, x_now (mmio_write p x v) ≤ x_now v + B) (Hread : ∀ v, x_now (rdtsc v).1 ≤ x_now v + B).

(** The calibration ends and keeps the ratio of the two counters' ways. *)
Lemma calibrate_run fuel s freq : TSC_FREQ_HZ (x_static s) = freq → 0 < freq → x_now (x_hw s) + 2 * B + freq < 2 ^ 63 →
  (Z.to_nat freq < fuel)%nat →
  runs (calibrate_apic_timer_ratio fuel) s (λ s' _, ∃ ea et, 0 ≤ ea ≤ u32_max ∧ Z.max (freq / 100) 1 ≤ et < 2 ^ 64 ∧
    x_static s' = set_q32 (ratio_q32 ea et) (x_static s) ∧ lvt (x_hw s') = lvt (x_hw s)).
Proof.
  intros Ef Hf Hsmall Hfuel. unfold calibrate_apic_timer_ratio. set (wait := Z.max (freq / 100) 1).
  assert (1 ≤ wait ≤ freq) as Hwait by (subst wait; pose proof (Z.div_lt freq 100); lia).
  eapply (runs_bind _ _ _ (λ s1 f, s1 = s ∧ f = freq)).
  { exists s, freq. split; [|done]. unfold tsc_freq, static, mbind, M_bind, get. simpl. by rewrite Ef, (proj2 (Z.eqb_neq _ _)) by lia. }
  intros s0 f [-> ->]. cbv zeta. fold wait.
  eapply (runs_bind _ _ _ (λ s1 _, x_static s1 = x_static s ∧ x_now (x_hw s) ≤ x_now (x_hw s1) ≤ x_now (x_hw s) + B ∧ lvt (x_hw s1) = lvt (x_hw s))).
  { destruct (other_write_run LAPIC_REG_TIMER_INIT_COUNT u32_max s ltac:(set_solver)) as (s1 & [] & E1 & Es1 & Hn1 & El1).
    exists s1, tt. split; [exact E1|]. rewrite write_lapic_run in E1 by done. injection E1 as <-. split_and!; [done|done|apply Hwrite|done]. }
  intros s1 _ (Es1 & Hn1 & El1). eapply runs_bind; [apply ticks_now_run|]. intros s2 start (Es2 & -> & Hle2 & _ & El2 & Ev2).
  assert (x_now (x_hw s2) ≤ x_now (x_hw s1) + B) as Hb2 by (rewrite Ev2; apply Hread). pose proof (x_now_range (x_hw s)).
  eapply runs_bind; [apply wait_tsc_run; lia|]. intros s3 _ (Es3 & Hn3 & El3).
  eapply runs_bind; [apply ticks_now_run|]. intros s4 end_ (Es4 & -> & Hle4 & _ & El4 & _).
  eapply (runs_bind _ _ _ (λ s5 cur, s5 = s4 ∧ 0 ≤ cur ≤ u32_max)).
  { exists s4. eexists. split; [|split; [done|apply (Hcur (x_hw s4))]]. unfold read_lapic_reg, mbind, M_bind. by rewrite lapic_ptr_run. }
  intros s5 cur [-> Hc]. eapply runs_bind; [apply other_write_run; set_solver|]. intros s6 _ (Es6 & _ & El6).
  eapply (runs_bind _ _ _ (λ s7 ea, s7 = s6 ∧ ea = u32_max - cur)).
  { exists s6, (u32_max - cur). split; [|done]. unfold lift. by rewrite usub_ok by lia. }
  intros s7 ea [-> ->]. pose proof (x_now_range (x_hw s4)).
  eexists _, tt. split; [done|]. simpl. exists (u32_max - cur), (x_now (x_hw s4) - x_now (x_hw s2)).
  rewrite (Z.mod_small (_ - _)) by lia. split_and!; [lia|lia|lia|lia|congruence|congruence].
Qed.
End Calibration.
End Init.

(** ** The frequency and the counts *)

(** The ratio the processor reports cancels: what comes out is the base
    frequency, rounded down twice. *)
Lemma ratio_cancels base n d : 0 ≤ base → 0 < n → 0 < d →
  base - n / d - 1 ≤ (base * d / n) * n / d ≤ base.
Proof.
  intros Hb Hn Hd. pose proof (Z.mul_div_le (base * d) n Hn). pose proof (Z.mul_succ_div_gt (base * d) n Hn).
  set (c := base * d / n) in *. pose proof (Z.mul_div_le (c * n) d Hd). pose proof (Z.mul_succ_div_gt (c * n) d Hd).
  pose proof (Z.mul_div_le n d Hd). pose proof (Z.mul_succ_div_gt n d Hd). set (q := c * n / d) in *. set (r := n / d) in *. nia.
Qed.

(** The frequency that is taken for the time stamp counter is never zero,
    so that dividing by it does not panic; with a ratio and a base frequency it
    is the base frequency up to rounding, whatever the ratio; and only the
    first product can overflow. *)
Theorem tsc_freq_hz_spec (c : CpuId) :
  (∀ o, tsc_info c = Some o → 0 ≤ numerator o ∧ 0 ≤ denominator o) →
  (∀ b, or_else (base_hz c) (hypervisor_hz c) = Some b → 0 ≤ b) →
  match tsc_freq_hz c with
  | Ok freq => freq ≠ 0 ∧
      ∀ i b, tsc_info c = Some i → tsc_frequency i = None → numerator i ≠ 0 → denominator i ≠ 0 →
        or_else (base_hz c) (hypervisor_hz c) = Some b → numerator i / denominator i + 1 < b →
        b - numerator i / denominator i - 1 ≤ freq ≤ b
  | Err _ => False
  | Stuck => ∃ i b, tsc_info c = Some i ∧ or_else (base_hz c) (hypervisor_hz c) = Some b ∧ 2 ^ 64 ≤ b * denominator i
  end.
Proof.
  intros Hi Hb. unfold tsc_freq_hz, from_tsc_info. destruct (tsc_info c) as [i|] eqn:Ei; simpl.
  2:{ split; [|done]. repeat case_match; bool_to_prop; lia. }
  destruct (Hi i eq_refl) as [Hn Hd]. destruct (tsc_frequency i) as [f|] eqn:Ef; simpl.
  { split; [destruct (Z.eqb_spec f 0); lia|]. intros i' b [= <-]. congruence. }
  destruct (negb (numerator i =? 0) && negb (denominator i =? 0)) eqn:End; simpl.
  2:{ split; [repeat case_match; bool_to_prop; lia|]. intros i' b [= <-] _ H1 H2. exfalso.
      apply Z.eqb_neq in H1, H2. by rewrite H1, H2 in End. }
  apply andb_prop in End as [H1%negb_true_iff%Z.eqb_neq H2%negb_true_iff%Z.eqb_neq].
  destruct (or_else (base_hz c) (hypervisor_hz c)) as [b|] eqn:Eb; simpl.
  2:{ split; [|done]. repeat case_match; bool_to_prop; lia. }
  specialize (Hb b eq_refl). destruct (Z.lt_ge_cases (b * denominator i) (2 ^ 64)) as [Hfit|Hov].
  2:{ assert (umul (E:=Empty_set) 64 b (denominator i) = Stuck) as -> by (unfold umul; by rewrite (proj2 (Z.ltb_ge _ _))). by exists i, b. }
  pose proof (Z.mul_div_le (b * denominator i) (numerator i) ltac:(lia)) as Hle.
  rewrite umul_ok by lia. simpl. rewrite umul_ok by lia. simpl. pose proof (ratio_cancels b (numerator i) (denominator i) Hb ltac:(lia) ltac:(lia)) as Hr.
  destruct (Z.eqb_spec (b * denominator i / numerator i * numerator i / denominator i) 0) as [E0|Hne]; (split; [lia|]);
    intros i' b' [= <-] _ _ _ [= <-] Hbig; lia.
Qed.

(** The timer that counts down runs for the time that was asked for: with the
    ratio the calibration measured ([ea] counts in [et] ticks) the counts are
    not more than the ticks amount to, except that there is at least one, and
    short of it by at most one count and one in [2^32] ticks, unless more than
    32 bits hold. *)
Theorem apic_counts_accurate ea et n : 0 < ea ≤ u32_max → 0 < et ≤ ea * 2 ^ 32 → et < 2 ^ 64 → 1 ≤ n < 2 ^ 64 →
  let counts := apic_counts (ratio_q32 ea et) n in
  1 ≤ counts ≤ u32_max ∧ counts * et ≤ Z.max (n * ea) et ∧
  (counts = u32_max ∨ n * ea * 2 ^ 32 < (counts + 1) * et * 2 ^ 32 + n * et).
Proof.
  intros Hea Het Het64 Hn. unfold ratio_q32, apic_counts. rewrite (proj2 (Z.eqb_neq et 0)), (proj2 (Z.eqb_neq ea 0)) by lia. simpl.
  rewrite !Z.shiftl_mul_pow2, Z.shiftr_div_pow2 by lia. unfold u32_max in *.
  pose proof (Z.mul_div_le (ea * 2 ^ 32) et ltac:(lia)) as Hq1. pose proof (Z.mul_succ_div_gt (ea * 2 ^ 32) et ltac:(lia)) as Hq2.
  assert (0 ≤ ea * 2 ^ 32 / et < 2 ^ 64) as Hqr by (split; [apply Z.div_pos; lia|apply Z.div_lt_upper_bound; nia]).
  rewrite (Z.mod_small (ea * 2 ^ 32 / et)) by done. set (q := ea * 2 ^ 32 / et) in *.
  assert (1 ≤ q) as Hq by (subst q; apply Z.div_le_lower_bound; lia). rewrite (proj2 (Z.eqb_neq q 0)) by lia.
  pose proof (Z.mul_div_le (n * q) (2 ^ 32) eq_refl) as Hc1. pose proof (Z.mul_succ_div_gt (n * q) (2 ^ 32) eq_refl) as Hc2.
  set (c := n * q / 2 ^ 32) in *. split_and!; [lia|lia| |].
  - nia.
  - destruct (Z.le_gt_cases 4294967295 c); [left; lia|right]. nia.
Qed.

(** ** A CPU that has been initialised *)
Section InitLocal.
Context {V : Type} `{X86Laws V}.
Implicit Types s : X86 V.

Lemma init_lapic_deadline s fuel : HAS_TSC_DEADLINE (x_static s) = true → runs (init_lapic fuel) s (λ s' _,
  x_static s' = set_ready true (x_static s) ∧ x_now (x_hw s) ≤ x_now (x_hw s') ∧
  deadline_mode (lvt (x_hw s')) ∧ lvt_masked (lvt (x_hw s')) = true).
Proof.
  intros Hd. unfold init_lapic. eapply (runs_bind _ _ _ (λ s1 _, s1 = s)); [by eexists _, _|]. intros s0 base ->.
  eapply runs_bind; [apply x_wrmsr_run|]. intros s1 _ (Es1 & Hn1).
  eapply runs_bind; [apply other_write_run; set_solver|]. intros s2 _ (Es2 & Hn2 & _).
  eapply runs_bind; [apply other_write_run; set_solver|]. intros s3 _ (Es3 & Hn3 & _).
  assert (x_static s3 = x_static s) as E3 by congruence.
  set (x := Z.lor (Z.lor LAPIC_TIMER_VECTOR LAPIC_LVT_MASKED) LAPIC_LVT_TIMER_TSC_DEADLINE).
  eapply (runs_bind _ _ _ (λ s4 v, s4 = s3 ∧ v = x)).
  { exists s3, x. split; [|done]. unfold timer_lvt_value, has_tsc_deadline, static, mbind, M_bind, get. simpl. by rewrite E3, Hd. }
  intros s4 v [-> ->].
  eapply (runs_bind _ _ _ (λ s5 _, x_static s5 = x_static s3 ∧ x_now (x_hw s3) ≤ x_now (x_hw s5) ∧ Z.land (lvt (x_hw s5)) 0x700ff = Z.land x 0x700ff)).
  { eexists _, tt. split; [by apply write_lapic_run|]. simpl. by destruct (lvt_write_law x (x_hw s3)) as (_ & Hn & _ & Hl). }
  intros s5 _ (Es5 & Hn5 & Hl5).
  eapply (runs_bind _ _ _ (λ s6 d, s6 = s5 ∧ d = true)).
  { exists s5, true. split; [|done]. unfold has_tsc_deadline, static, mbind, M_bind, get. simpl. by rewrite Es5, E3, Hd. }
  intros s6 d [-> ->]. eapply (runs_bind _ _ _ (λ s6 _, s6 = s5)); [by eexists _, _|]. intros s6 _ ->.
  eapply (runs_bind _ _ _ (λ s7 _, x_static s7 = x_static s5 ∧ x_now (x_hw s5) ≤ x_now (x_hw s7) ∧ lvt (x_hw s7) = lvt (x_hw s5))).
  { destruct (LAPIC_READY (x_static s5)) eqn:Er.
    - destruct (other_write_run LAPIC_REG_EOI 0 s5 ltac:(set_solver)) as (s7 & [] & E & HP). exists s7, tt. split; [|done].
      unfold timer_ack, static, mbind, M_bind, get. simpl. by rewrite Er.
    - exists s5, tt. split; [|done]. unfold timer_ack, static, mbind, M_bind, get. simpl. by rewrite Er. }
  intros s7 _ (Es7 & Hn7 & El7). eexists _, tt. split; [done|]. simpl.
  unfold deadline_mode, lvt_masked. rewrite El7, (lvt_bit 16 _ _ eq_refl Hl5), (lvt_bit 17 _ _ eq_refl Hl5), (lvt_bit 18 _ _ eq_refl Hl5). by split_and!; [congruence|lia|..].
Qed.

Lemma tsc_freq_hz_nonzero c freq : tsc_freq_hz c = Ok freq → freq ≠ 0.
Proof.
  unfold tsc_freq_hz. destruct (match tsc_info c with None => _ | Some _ => _ end) as [o|?|]; simpl; [|done|done].
  intros [= <-]. destruct (or_else _ _) as [f|]; [|done]. by destruct (Z.eqb_spec f 0).
Qed.

(** A CPU with a deadline timer that has initialised itself can use the
    timer: it is in deadline mode and masked, so that nothing new comes from
    it, and the frequency is the one that was found. *)
Theorem init_local_ready s (c : CpuId) freq fuel : tsc_freq_hz c = Ok freq → cpu_has_tsc_deadline c = true →
  runs (init_local true c fuel) s (λ s' _, x_ok freq s' ∧ x_now (x_hw s) ≤ x_now (x_hw s') ∧
    (∀ t, x_now (x_hw s') ≤ t → x_pending (x_hw s') t = x_pending (x_hw s') (x_now (x_hw s'))) ∧
    tsc_freq s' = (s', Ok freq) ∧ timer_irq_is_enabled s' = (s', Ok false)).
Proof.
  intros Ef Hd. pose proof (tsc_freq_hz_nonzero c freq Ef) as Hne. unfold init_local.
  eapply (runs_bind _ _ _ (λ s1 _, x_static s1 = x_static s ∧ x_now (x_hw s) ≤ x_now (x_hw s1))).
  { unfold mask_legacy_pic. eapply runs_bind; [apply x_outb_run|]. intros s1 _ (Es1 & Hn1).
    destruct (x_outb_run 0xa1 0xff s1) as (s2 & [] & E & Es2 & Hn2). exists s2, tt. split; [exact E|]. split; [congruence|lia]. }
  intros s1 _ (Es1 & Hn1). eapply (runs_bind _ _ _ (λ s2 _, x_static s2 = x_static s1 ∧ x_now (x_hw s1) ≤ x_now (x_hw s2))).
  { unfold enable_nxe. eapply (runs_bind _ _ _ (λ s2 _, s2 = s1)); [by eexists _, _|]. intros s2 efer ->. apply x_wrmsr_run. }
  intros s2 _ (Es2 & Hn2).
  eapply (runs_bind _ _ _ (λ s3 _, x_static s3 = run_body (init_tsc_freq c freq) (x_static s2) ∧ x_hw s3 = x_hw s2)).
  { eexists _, tt. split; [|split]; [unfold mbind, M_bind, lift; by rewrite Ef|done|done]. }
  intros s3 _ (Es3 & Eh3). destruct (init_lapic_deadline s3 fuel) as (s' & [] & E & Es & Hn & Hmode & Hmask); [by rewrite Es3|].
  exists s', tt. split; [exact E|]. rewrite Es3 in Es. rewrite Eh3 in Hn. split_and!; [|lia|intros t Ht; by apply masked_law| |].
  - unfold x_ok. by rewrite Es.
  - unfold tsc_freq, static, mbind, M_bind, get. simpl. rewrite Es. simpl. by rewrite (proj2 (Z.eqb_neq freq 0)).
  - unfold timer_irq_is_enabled, ensure_lapic_ready, static, mbind, M_bind, get. simpl. rewrite Es. simpl.
    rewrite read_lvt_run. unfold mret, M_ret. do 2 f_equal. unfold lvt_masked in Hmask. apply Z.eqb_neq. intros E0.
    apply (f_equal (λ z, Z.testbit z 16)) in E0. by rewrite Z.land_spec, Hmask in E0.
Qed.
End InitLocal.
