(* ===== verification/TimerWitness.v ===== *)
(** * Machines that run: the kernel's timers on RISC-V, the start of an x86_64 CPU *)

From stdpp Require Import base tactics option list numbers gmap relations.
From S2P Require Import Prelude Timer TimerProof SysTimer ArchTimer Once X86Timer.
Import Riscv.
Open Scope Z_scope.

(** A machine whose counter moves by one whenever it is used, up to the last
    value but one. *)
Record Machine : Type := mk_Machine { mc_sie : Z; mc_clock : N; mc_target : Z }.

Definition clock (v : Machine) : Z := Z.min (Z.of_N (mc_clock v)) (2 ^ 64 - 2).
Definition advance (v : Machine) : Machine := mk_Machine (mc_sie v) (mc_clock v + 1) (mc_target v).

#[export] Instance Machine_Riscv : Riscv.RiscvTimer Machine := {|
  Riscv.sie := mc_sie;
  Riscv.csr_write_sie x v := mk_Machine x (mc_clock v + 1) (mc_target v);
  Riscv.csr_time v := (advance v, clock (advance v));
  Riscv.sbi_set_timer x v := (mk_Machine (mc_sie v) (mc_clock v + 1) x, 0);
  Riscv.timebase _ := None
|}.

#[export] Instance Machine_Laws : Riscv.RiscvTimerLaws Machine.
Proof.
  refine {| Riscv.rv_now := clock; Riscv.rv_pending v t := mc_target v <=? t;
    Riscv.rv_wait t v := mk_Machine (mc_sie v) (Z.to_N t) (mc_target v) |}; unfold clock; simpl; intros; split_and!; (done || lia).
Defined.

Definition freq : Z := 10000000.
#[local] Instance Machine_Timer : SysTimerLaws (Riscv.Riscv Machine) := Riscv.riscv_timer_laws freq.
#[local] Instance Machine_Idle : SysTimerIdle (Riscv.Riscv Machine) := Riscv.riscv_timer_idle freq.

Definition boot : Riscv.Riscv Machine := Riscv.mk_Riscv (mk_Machine 0 50 0) 0.
Definition w0 : World (Riscv.Riscv Machine) nat := mk_World (manager_new (mk_Hw (st_now boot) usize_max false)) boot None.

Definition run_now {A} (op : TMR (Riscv.Riscv Machine) A) (v : Riscv.Riscv Machine) : Riscv.Riscv Machine := (op v).1.
Definition dev2 : Riscv.Riscv Machine := run_now systimer_tick (run_now systimer_tick boot).
Definition mgr1 : TimerManager nat := run_op (ScheduleAt 5000 7%nat) (st_now (run_now systimer_tick boot)) (st_now dev2) st_freq (manager_new (mk_Hw (st_now boot) usize_max false)).
Definition dev3 : Riscv.Riscv Machine := run_now (program (hw mgr1)) dev2.

(** One timer, due at 5000: its interrupt is up at 6000. *)
Lemma timers_never_lost_witness : rtc world_step w0 (mk_World mgr1 dev3 (Some (st_now dev3))) ∧
  (fst <$> timers mgr1) = [mk_TimerKey 5000 1] ∧ st_line dev3 6000 = true.
Proof.
  assert (rtc world_step w0 (mk_World mgr1 dev3 (Some (st_now dev3)))) as Hr.
  { apply rtc_once. unfold w0, mgr1.
    apply (step_op (ScheduleAt 5000 7%nat) (manager_new (mk_Hw (st_now boot) usize_max false)) boot None (run_now systimer_tick boot) dev2 dev3
      (st_now (run_now systimer_tick boot)) (st_now dev2) (Some (st_now dev3)));
      [unfold few_timers; by vm_compute|reflexivity|reflexivity|].
    apply (follow_program _ _ dev2 None dev3). by vm_compute. }
  split; [exact Hr|]. split; [by vm_compute|].
  assert (st_ok boot) as Hok by (split; [reflexivity|by left]).
  destruct (timers_never_lost boot _ Hok Hr) as (a & [= <-] & _ & Hline & _).
  apply Hline; [split|..]; vm_compute; by intros.
Defined.

Lemma conversions_agree_witness :
  SysTimer.ticks_to_duration 123456789 boot = (Riscv.mk_Riscv (Riscv.rv_hw boot) freq, Timer.ticks_to_duration freq 123456789) ∧
  SysTimer.duration_to_ticks (mk_Duration 12 345678900) boot = (Riscv.mk_Riscv (Riscv.rv_hw boot) freq, Ok (Timer.duration_to_ticks freq (mk_Duration 12 345678900))).
Proof.
  apply (conversions_agree boot (Riscv.mk_Riscv (Riscv.rv_hw boot) freq) freq 123456789 (mk_Duration 12 345678900)); by vm_compute.
Defined.

(** ** A processor of x86_64
    The clock moves by one whenever the processor is used. [pc_latched]: an
    interrupt that has come. *)
Record Pc : Type := mk_Pc { pc_clock : N; pc_msr_base : Z; pc_lvt : Z; pc_dl : Z; pc_latched : bool }.

Definition pc_now (v : Pc) : Z := Z.min (Z.of_N (pc_clock v)) (2 ^ 63).
Definition pc_base (v : Pc) : Z := Z.land (pc_msr_base v) LAPIC_BASE_MASK.
Definition pc_entry (v : Pc) : Z := Z.land (pc_lvt v) 0x700ff.
Definition pc_fires (l dl t : Z) : bool := negb (Z.testbit l 17) && Z.testbit l 18 && negb (lvt_masked l) && (0 <? dl) && (dl <=? t).
Definition pc_pending (v : Pc) (t : Z) : bool := pc_latched v || pc_fires (pc_entry v) (pc_dl v) t.
(** The clock moves on; what has come by then is latched. *)
Definition pc_step (v : Pc) : Pc :=
  mk_Pc (pc_clock v + 1) (pc_msr_base v) (pc_lvt v) (pc_dl v) (pc_pending v (Z.min (Z.of_N (pc_clock v + 1)) (2 ^ 63))).

#[export] Instance Pc_X86 : X86Hw Pc := {|
  rdmsr msr v := if msr =? IA32_APIC_BASE then pc_msr_base v else 0;
  wrmsr msr x v := let v := pc_step v in
    mk_Pc (pc_clock v) (if msr =? IA32_APIC_BASE then x else pc_msr_base v) (pc_lvt v) (if msr =? IA32_TSC_DEADLINE then x else pc_dl v) (pc_latched v);
  mmio_read p v := if p =? pc_base v + LAPIC_REG_LVT_TIMER then pc_entry v else 0;
  mmio_write p x v := let w := pc_step v in
    mk_Pc (pc_clock w) (pc_msr_base w) (if p =? pc_base v + LAPIC_REG_LVT_TIMER then x else pc_lvt w) (pc_dl w) (pc_latched w);
  rdtsc v := (pc_step v, pc_now (pc_step v));
  outb _ _ v := pc_step v
|}.

Lemma land_bound x m : Z.land m (Z.ones 32) = m → 0 ≤ Z.land x m < 2 ^ 32.
Proof.
  intros Hm. rewrite <- Hm, Z.land_assoc, Z.land_ones by done. by apply Z.mod_pos_bound.
Qed.

Lemma pc_step_now v : pc_now v ≤ pc_now (pc_step v) ∧ (pc_now v < 2 ^ 63 → pc_now v < pc_now (pc_step v)).
Proof. unfold pc_now. simpl. lia. Qed.

Lemma pc_step_pending v t : pc_now (pc_step v) ≤ t → pc_pending (pc_step v) t = pc_pending v t.
Proof.
  intros Ht. unfold pc_pending at 1. change (pc_latched (pc_step v)) with (pc_pending v (pc_now (pc_step v))).
  change (pc_entry (pc_step v)) with (pc_entry v). change (pc_dl (pc_step v)) with (pc_dl v). unfold pc_pending, pc_fires.
  destruct (pc_latched v); [done|]. simpl. destruct (_ && (0 <? pc_dl v)); [|done]. simpl.
  destruct (Z.leb_spec (pc_dl v) (pc_now (pc_step v))), (Z.leb_spec (pc_dl v) t); (done || lia).
Qed.

#[export] Instance Pc_Laws : X86Laws Pc.
Proof.
  refine {| x_now := pc_now; apic_base := pc_base; lvt := pc_entry; x_deadline := pc_dl; x_pending := pc_pending;
    x_wait t v := mk_Pc (Z.to_N t) (pc_msr_base v) (pc_lvt v) (pc_dl v) (pc_latched v) |}.
  - intros v. unfold pc_now. lia.
  - intros v. split; [done|]. by apply land_bound.
  - intros v. simpl. rewrite Z.eqb_refl. split; [done|]. by apply land_bound.
  - intros x v. cbv zeta. split_and!; [done|apply pc_step_now|done|]. simpl. unfold pc_entry. simpl. rewrite Z.eqb_refl. by rewrite <- Z.land_assoc.
  - intros off x v Hoff. cbv zeta. split_and!; [done|apply pc_step_now|]. unfold pc_entry. simpl.
    rewrite (proj2 (Z.eqb_neq _ _)); [done|]. set_unfold in Hoff.
    unfold LAPIC_REG_EOI, LAPIC_REG_SVR, LAPIC_REG_TIMER_INIT_COUNT, LAPIC_REG_TIMER_DIV, LAPIC_REG_LVT_TIMER in *. lia.
  - intros msr x v. cbv zeta. split_and!; [|apply pc_step_now|done|done]. unfold pc_base. simpl. by destruct (msr =? IA32_APIC_BASE).
  - intros port x v. split_and!; [done|apply pc_step_now|done].
  - intros v. split_and!; [done|apply pc_step_now|apply pc_step_now|done|done|apply pc_step_pending].
  - intros v t [H17 H18] Hm Hd Ht. unfold pc_pending, pc_fires. rewrite H17, H18, Hm. simpl. unfold pc_now in Hd.
    rewrite (proj2 (Z.ltb_lt _ _)), (proj2 (Z.leb_le _ _)) by lia. apply orb_true_r.
  - intros v t Hm Ht. unfold pc_pending, pc_fires. by rewrite Hm, !andb_false_r.
  - intros t v Ht. done.
Defined.

(** A processor with a ratio of 125 to 2 and a base frequency of 3 GHz. *)
Definition cpu0 : CpuId := mk_CpuId (Some (mk_TscInfo 125 2 None)) (Some 3000) None true.
Definition pc0 : X86 Pc := mk_X86 (mk_Pc 0 0xfee00000 0x10000 0 false) statics0.

Lemma init_local_ready_witness : ∃ s', init_local true cpu0 0 pc0 = (s', Ok tt) ∧ x_ok 3000000000 s' ∧ tsc_freq s' = (s', Ok 3000000000).
Proof.
  destruct (init_local_ready pc0 cpu0 3000000000 0 eq_refl eq_refl) as (s' & [] & E & Hok & _ & _ & Ef & _). by exists s'.
Defined.

Lemma tsc_freq_hz_spec_witness : ∃ freq, tsc_freq_hz cpu0 = Ok freq ∧ 3000000000 - 125 / 2 - 1 ≤ freq ≤ 3000000000.
Proof.
  assert (tsc_freq_hz cpu0 = Ok 3000000000) as E by reflexivity.
  pose proof (tsc_freq_hz_spec cpu0) as H. rewrite E in H. exists 3000000000. split; [exact E|].
  destruct H as [_ H]; [intros o [= <-]; vm_compute; by split|intros b [= <-]; vm_compute; done|].
  by apply (H (mk_TscInfo 125 2 None) 3000000000).
Defined.

(** 62500000 counts in 3000000000 ticks: a second is all but a count of it. *)
Lemma apic_counts_accurate_witness :
  let counts := apic_counts (ratio_q32 62500000 3000000000) 3000000000 in
  1 ≤ counts ≤ u32_max ∧ counts * 3000000000 ≤ Z.max (3000000000 * 62500000) 3000000000 ∧
  (counts = u32_max ∨ 3000000000 * 62500000 * 2 ^ 32 < (counts + 1) * 3000000000 * 2 ^ 32 + 3000000000 * 3000000000).
Proof. apply (apic_counts_accurate 62500000 3000000000 3000000000); by vm_compute. Defined.

(** Two CPUs find the frequency, the second one begins while the first one is in
    the body. *)
Lemma once_initialised_witness :
  let w := run_schedule (init_tsc_freq cpu0 3000000000) [0; 1; 0; 1; 0; 1; 0; 0; 1]%nat (once_start 2 statics0) in
  pcs w = [Returned; Returned] ∧ TSC_FREQ_HZ (memory w) = 3000000000.
Proof.
  set (w := run_schedule _ _ _). split; [reflexivity|].
  destruct (once_initialised (init_tsc_freq cpu0 3000000000) 2 statics0 [0; 1; 0; 1; 0; 1; 0; 0; 1]%nat) as (H & _).
  fold w in H. destruct (H 1%nat eq_refl) as [_ ->]. reflexivity.
Defined.
