(* ===== verification/TrapEntry.v ===== *)
(** * The entries and exits of traps
    The assembly that builds a frame on the stack around a trap, as programs of
    a small machine: registers, control registers and a memory of double words
    at addresses below [2^64]. Here for RISC-V
    (crates/someboot/src/arch/riscv64/trap.rs, [__riscv64_trap_entry]): the code
    that was interrupted notices nothing, whatever the handler does to the
    registers and to the memory outside of the frame. *)

From stdpp Require Import base tactics option numbers list gmap.
From S2P Require Import Prelude.
Open Scope Z_scope.

(** ** The machine *)
Section Machine.
Context {Reg Csr : Type} `{EqDecision Reg} `{EqDecision Csr}.

Inductive Instr : Type :=
| Addi (rd rs : Reg) (imm : Z)
| Store (rs : Reg) (off : Z) (base : Reg)
| Load (rd : Reg) (off : Z) (base : Reg)
| CsrRead (rd : Reg) (csr : Csr)
| CsrWrite (csr : Csr) (rs : Reg)
| CsrSwap (rd : Reg) (csr : Csr)
| Move (rd rs : Reg)
| LoadImm (rd : Reg) (imm : Z)
| Call
| TrapReturn.

(** [resumed]: where, and with which status, the interrupted code went on. *)
Record Cpu : Type := mk_Cpu { regs : Reg → Z; csrs : Csr → Z; mem : Z → Z; resumed : option (Z * Z) }.

Definition fupd {K : Type} `{EqDecision K} (k : K) (x : Z) (f : K → Z) : K → Z := λ k', if decide (k = k') then x else f k'.
Definition set_reg (r : Reg) (x : Z) (c : Cpu) : Cpu := mk_Cpu (fupd r x (regs c)) (csrs c) (mem c) (resumed c).
Definition set_csr (r : Csr) (x : Z) (c : Cpu) : Cpu := mk_Cpu (regs c) (fupd r x (csrs c)) (mem c) (resumed c).
Definition set_mem (a x : Z) (c : Cpu) : Cpu := mk_Cpu (regs c) (csrs c) (fupd a x (mem c)) (resumed c).
Definition addr (base off : Z) : Z := (base + off) mod 2 ^ 64.

(** The handler, and the control registers a return reads. *)
Context (handler : Cpu → Cpu) (epc status : Csr).

Definition exec (i : Instr) (c : Cpu) : Cpu :=
  match i with
  | Addi rd rs imm => set_reg rd ((regs c rs + imm) mod 2 ^ 64) c
  | Store rs off base => set_mem (addr (regs c base) off) (regs c rs) c
  | Load rd off base => set_reg rd (mem c (addr (regs c base) off)) c
  | CsrRead rd csr => set_reg rd (csrs c csr) c
  | CsrWrite csr rs => set_csr csr (regs c rs) c
  | CsrSwap rd csr => set_csr csr (regs c rd) (set_reg rd (csrs c csr) c)
  | Move rd rs => set_reg rd (regs c rs) c
  | LoadImm rd imm => set_reg rd imm c
  | Call => handler c
  | TrapReturn => mk_Cpu (regs c) (csrs c) (mem c) (Some (csrs c epc, csrs c status))
  end.
Definition exec_all (l : list Instr) (c : Cpu) : Cpu := foldl (λ c i, exec i c) c l.

Lemma exec_app l1 l2 c : exec_all (l1 ++ l2) c = exec_all l2 (exec_all l1 c).
Proof. apply foldl_app. Qed.

(** ** Saving and restoring many registers *)

Notation saves sp l := ((λ p : Reg * Z, Store p.1 p.2 sp) <$> l).
Notation restores sp l := ((λ p : Reg * Z, Load p.1 p.2 sp) <$> l).

Definition offset_ok (o : Z) : Prop := 0 ≤ o < 2 ^ 63.
#[local] Instance offset_ok_dec o : Decision (offset_ok o).
Proof. unfold offset_ok. apply _. Defined.

Lemma fupd_same {K} `{EqDecision K} (k : K) x f : fupd k x f k = x.
Proof. unfold fupd. by rewrite decide_True. Qed.
Lemma fupd_other {K} `{EqDecision K} (k k' : K) x f : k ≠ k' → fupd k x f k' = f k'.
Proof. intros. unfold fupd. by rewrite decide_False. Qed.

Lemma regs_set r x c : regs (set_reg r x c) = fupd r x (regs c).
Proof. reflexivity. Qed.
Lemma mem_set r x c : mem (set_reg r x c) = mem c.
Proof. reflexivity. Qed.

(** Distinct offsets are distinct addresses. *)
Lemma addr_inj base o o' : offset_ok o → offset_ok o' → addr base o = addr base o' → o = o'.
Proof.
  unfold addr, offset_ok. intros Ho Ho' E. pose proof (Z.div_mod (base + o) (2 ^ 64) ltac:(lia)). pose proof (Z.div_mod (base + o') (2 ^ 64) ltac:(lia)).
  pose proof (Z.mod_pos_bound (base + o) (2 ^ 64) ltac:(lia)). nia.
Qed.

Lemma addr_addr b x y : addr (addr b x) y = addr b (x + y).
Proof. unfold addr. rewrite Z.add_mod_idemp_l by lia. f_equal. lia. Qed.
Lemma addr_range b x : 0 ≤ addr b x < 2 ^ 64.
Proof. unfold addr. apply Z.mod_pos_bound. lia. Qed.
Lemma addr_0 b : 0 ≤ b < 2 ^ 64 → addr b 0 = b.
Proof. intros Hb. unfold addr. rewrite Z.add_0_r. by apply Z.mod_small. Qed.

Lemma saves_run sp l : ∀ c, NoDup l.*2 → Forall offset_ok l.*2 →
  let c' := exec_all (saves sp l) c in
  regs c' = regs c ∧ csrs c' = csrs c ∧ resumed c' = resumed c ∧
  (∀ r o, (r, o) ∈ l → mem c' (addr (regs c sp) o) = regs c r) ∧
  (∀ a, (∀ o, o ∈ l.*2 → a ≠ addr (regs c sp) o) → mem c' a = mem c a).
Proof.
  induction l as [|[r o] l IH]; intros c Hnd Hok c'; [split_and!; try done; by intros r o ?%not_elem_of_nil|].
  simpl in Hnd, Hok. apply NoDup_cons in Hnd as [Ho Hnd]. apply Forall_cons in Hok as [Hoo Hok].
  destruct (IH (set_mem (addr (regs c sp) o) (regs c r) c) Hnd Hok) as (Er & Ec & Ep & Hin & Hout).
  unfold c'. simpl. split_and!; [done|done|done| |].
  - intros r' o' [[= -> ->]|Hl]%elem_of_cons; [|by apply Hin]. rewrite Hout; [apply fupd_same|].
    intros o' Ho'. simpl. intros E%addr_inj; [by subst|done|by eapply Forall_forall in Hok].
  - intros a Ha. rewrite Hout; [apply fupd_other; apply not_eq_sym, Ha; set_solver|intros o' Ho'; apply Ha; set_solver].
Qed.

Lemma restores_run sp l : ∀ c, NoDup l.*1 → sp ∉ l.*1 →
  let c' := exec_all (restores sp l) c in
  csrs c' = csrs c ∧ resumed c' = resumed c ∧ mem c' = mem c ∧
  (∀ r o, (r, o) ∈ l → regs c' r = mem c (addr (regs c sp) o)) ∧
  (∀ r, r ∉ l.*1 → regs c' r = regs c r).
Proof.
  induction l as [|[r o] l IH]; intros c Hnd Hsp c'; [split_and!; try done; by intros r o ?%not_elem_of_nil|].
  simpl in Hnd, Hsp. apply NoDup_cons in Hnd as [Hr Hnd]. apply not_elem_of_cons in Hsp as [Hne Hsp].
  destruct (IH (set_reg r (mem c (addr (regs c sp) o)) c) Hnd Hsp) as (Ec & Ep & Em & Hin & Hout).
  unfold c'. simpl. split_and!; [done|done|done| |].
  - intros r' o' [[= -> ->]|Hl]%elem_of_cons; [rewrite Hout by done; apply fupd_same|]. etrans; [exact (Hin _ _ Hl)|]. simpl.
    by rewrite fupd_other.
  - intros r' [Hne' Hr']%not_elem_of_cons. rewrite Hout by done. by apply fupd_other.
Qed.
(** ** Building a frame *)

(** The frame at [base] holds [fields], and nothing else of the machine but the
    memory and the scratch registers [ts] has changed since [c0]. *)
Record framed (sp : Reg) (ts : list Reg) (c0 c : Cpu) (base : Z) (fields : list (Z * Z)) : Prop := {
  fr_sp : regs c sp = base;
  fr_regs r : r ≠ sp → r ∉ ts → regs c r = regs c0 r;
  fr_csrs : csrs c = csrs c0;
  fr_fields o x : (o, x) ∈ fields → mem c (addr base o) = x
}.

Lemma framed_scratch sp ts t x c0 c base fields : t ≠ sp → t ∈ ts → framed sp ts c0 c base fields → framed sp ts c0 (set_reg t x c) base fields.
Proof.
  intros Ht Hts [Hsp Hr Hc Hf]. split; simpl; [by rewrite fupd_other| |done|done].
  intros r H1 H2. rewrite fupd_other by (by intros ->). by apply Hr.
Qed.

(** A register is stored at a new offset. *)
Lemma store_field sp ts t c0 c base fields o x : framed sp ts c0 c base fields → regs c t = x →
  Forall offset_ok fields.*1 → offset_ok o → o ∉ fields.*1 → framed sp ts c0 (exec (Store t o sp) c) base ((o, x) :: fields).
Proof.
  intros [Hsp Hr Hc Hf] Et Hok Ho Hn. split; simpl; [done|done|done|].
  intros o' x' Hin. rewrite Et, Hsp. apply elem_of_cons in Hin as [[= -> ->]|Hin]; [apply fupd_same|].
  assert (o' ∈ fields.*1) as Ho' by (apply list_elem_of_fmap; by exists (o', x')).
  rewrite fupd_other; [by apply Hf|]. intros E%addr_inj; [by subst|done|by eapply Forall_forall in Hok].
Qed.

(** A value is put into a scratch register and stored. *)
Lemma put_field sp ts t c0 c base fields o x i : t ≠ sp → t ∈ ts → framed sp ts c0 c base fields →
  exec i c = set_reg t x c → Forall offset_ok fields.*1 → offset_ok o → o ∉ fields.*1 →
  framed sp ts c0 (exec_all [i; Store t o sp] c) base ((o, x) :: fields).
Proof.
  intros Ht Hts Hc Ei Hok Ho Hn. unfold exec_all. cbn [foldl]. rewrite Ei. apply store_field; try done; [by apply framed_scratch|].
  apply fupd_same.
Qed.

(** The registers of [l] are stored. *)
Lemma saves_framed sp ts c0 c base fields l : framed sp ts c0 c base fields → (∀ r o, (r, o) ∈ l → r ≠ sp ∧ regs c r = regs c0 r) →
  NoDup (l.*2 ++ fields.*1) → Forall offset_ok (l.*2 ++ fields.*1) →
  framed sp ts c0 (exec_all (saves sp l) c) base (((λ p, (p.2, regs c0 p.1)) <$> l) ++ fields).
Proof.
  intros [Hsp Hr Hc Hf] Hl [Hnd [Hdis _]]%NoDup_app [Hok1 Hok2]%Forall_app.
  destruct (saves_run sp l c Hnd Hok1) as (Er & Ec & _ & Hin & Hout). rewrite Hsp in Hin, Hout. split.
  - by rewrite Er.
  - intros r H1 H2. rewrite Er. by apply Hr.
  - by rewrite Ec.
  - intros o x [Hx|Hx]%elem_of_app.
    + apply list_elem_of_fmap in Hx as ([r o'] & [= -> ->] & Hx). rewrite (Hin _ _ Hx). by apply (Hl r o').
    + rewrite Hout; [by apply Hf|]. assert (o ∈ fields.*1) as Ho by (apply list_elem_of_fmap; by exists (o, x)).
      intros o' Ho' E%addr_inj; [|by eapply Forall_forall in Hok2|by eapply Forall_forall in Hok1].
      subst. by apply (Hdis o').
Qed.

Lemma sub_add_addr base n : 0 ≤ base < 2 ^ 64 → (addr base (-n) + n) mod 2 ^ 64 = base.
Proof. intros Hb. unfold addr. rewrite Z.add_mod_idemp_l by lia. rewrite <- Z.add_assoc, Z.add_opp_diag_l, Z.add_0_r. by apply Z.mod_small. Qed.
End Machine.
Arguments Instr : clear implicits.
Arguments Cpu : clear implicits.
Notation saves sp l := ((λ p, Store p.1 p.2 sp) <$> l).
Notation restores sp l := ((λ p, Load p.1 p.2 sp) <$> l).

(** What is asked of a handler called with the frame of [size] bytes at the
    stack pointer: it leaves the stack pointer and the frame as they are. *)
Definition keeps_frame {Reg Csr} (sp : Reg) (size : Z) (handler : Cpu Reg Csr → Cpu Reg Csr) : Prop :=
  ∀ c, regs (handler c) sp = regs c sp ∧ ∀ o, 0 ≤ o < size → mem (handler c) (addr (regs c sp) o) = mem c (addr (regs c sp) o).

(** A decidable fact about constants. *)
Ltac decide_now := apply (bool_decide_unpack _); vm_compute; exact I.

(** ** RISC-V *)

Module Riscv.
Inductive Reg : Type :=
| RA | GP | TP | T0 | T1 | T2 | S0 | S1 | A0 | A1 | A2 | A3 | A4 | A5 | A6 | A7
| S2 | S3 | S4 | S5 | S6 | S7 | S8 | S9 | S10 | S11 | T3 | T4 | T5 | T6 | SP.
#[export] Instance Reg_eq_dec : EqDecision Reg.
Proof. intros a b. destruct a, b; (left; reflexivity) || (right; discriminate). Defined.

Inductive Csr : Type := Sstatus | Sepc | Scause | Stval.
#[export] Instance Csr_eq_dec : EqDecision Csr.
Proof. solve_decision. Defined.

(** [TrapFrame]: the fields in order, of eight bytes each. *)
Definition TrapFrame : list (Reg + Csr) :=
  (inl <$> [RA; GP; TP; T0; T1; T2; S0; S1; A0; A1; A2; A3; A4; A5; A6; A7; S2; S3; S4; S5; S6; S7; S8; S9; S10; S11;
    T3; T4; T5; T6; SP]) ++ (inr <$> [Sstatus; Sepc; Scause; Stval]).
(** [offset_of!]. *)
Definition offset_of (f : Reg + Csr) : Z := 8 * Z.of_nat (default 0%nat (fst <$> list_find (f =.) TrapFrame)).
Definition TF (r : Reg) : Z := offset_of (inl r).
Definition TFC (r : Csr) : Z := offset_of (inr r).
Definition TF_SIZE : Z := 8 * Z.of_nat (length TrapFrame).
Definition TF_ALLOC_SIZE : Z := Z.land (TF_SIZE + 15) (unot 64 15).

(** [__riscv64_trap_entry]. *)
Definition trap_entry : list (Instr Reg Csr) :=
  [Addi SP SP (-TF_ALLOC_SIZE); Store RA (TF RA) SP; Store GP (TF GP) SP; Store TP (TF TP) SP;
   Store T0 (TF T0) SP; Store T1 (TF T1) SP; Store T2 (TF T2) SP; Store S0 (TF S0) SP; Store S1 (TF S1) SP;
   Store A0 (TF A0) SP; Store A1 (TF A1) SP; Store A2 (TF A2) SP; Store A3 (TF A3) SP; Store A4 (TF A4) SP;
   Store A5 (TF A5) SP; Store A6 (TF A6) SP; Store A7 (TF A7) SP; Store S2 (TF S2) SP; Store S3 (TF S3) SP;
   Store S4 (TF S4) SP; Store S5 (TF S5) SP; Store S6 (TF S6) SP; Store S7 (TF S7) SP; Store S8 (TF S8) SP;
   Store S9 (TF S9) SP; Store S10 (TF S10) SP; Store S11 (TF S11) SP; Store T3 (TF T3) SP; Store T4 (TF T4) SP;
   Store T5 (TF T5) SP; Store T6 (TF T6) SP; Addi T0 SP TF_ALLOC_SIZE; Store T0 (TF SP) SP;
   CsrRead T0 Sstatus; Store T0 (TFC Sstatus) SP; CsrRead T0 Sepc; Store T0 (TFC Sepc) SP;
   CsrRead T0 Scause; Store T0 (TFC Scause) SP; CsrRead T0 Stval; Store T0 (TFC Stval) SP; Move A0 SP; Call;
   Load T0 (TFC Sepc) SP; CsrWrite Sepc T0; Load T0 (TFC Sstatus) SP; CsrWrite Sstatus T0; Load RA (TF RA) SP;
   Load GP (TF GP) SP; Load TP (TF TP) SP; Load T0 (TF T0) SP; Load T1 (TF T1) SP; Load T2 (TF T2) SP;
   Load S0 (TF S0) SP; Load S1 (TF S1) SP; Load A0 (TF A0) SP; Load A1 (TF A1) SP; Load A2 (TF A2) SP;
   Load A3 (TF A3) SP; Load A4 (TF A4) SP; Load A5 (TF A5) SP; Load A6 (TF A6) SP; Load A7 (TF A7) SP;
   Load S2 (TF S2) SP; Load S3 (TF S3) SP; Load S4 (TF S4) SP; Load S5 (TF S5) SP; Load S6 (TF S6) SP;
   Load S7 (TF S7) SP; Load S8 (TF S8) SP; Load S9 (TF S9) SP; Load S10 (TF S10) SP; Load S11 (TF S11) SP;
   Load T3 (TF T3) SP; Load T4 (TF T4) SP; Load T5 (TF T5) SP; Load T6 (TF T6) SP; Addi SP SP TF_ALLOC_SIZE;
   TrapReturn].

(** The registers that are saved and restored alike. *)
Definition saved : list (Reg * Z) :=
  (λ r, (r, TF r)) <$> [RA; GP; TP; T0; T1; T2; S0; S1; A0; A1; A2; A3; A4; A5; A6; A7; S2; S3; S4; S5; S6; S7; S8; S9; S10; S11;
    T3; T4; T5; T6].

Lemma trap_entry_eq : trap_entry =
  [Addi SP SP (-TF_ALLOC_SIZE)] ++ saves SP saved ++ [Addi T0 SP TF_ALLOC_SIZE; Store T0 (TF SP) SP] ++
  [CsrRead T0 Sstatus; Store T0 (TFC Sstatus) SP] ++ [CsrRead T0 Sepc; Store T0 (TFC Sepc) SP] ++
  [CsrRead T0 Scause; Store T0 (TFC Scause) SP] ++ [CsrRead T0 Stval; Store T0 (TFC Stval) SP] ++ [Move A0 SP; Call] ++
  [Load T0 (TFC Sepc) SP; CsrWrite Sepc T0; Load T0 (TFC Sstatus) SP; CsrWrite Sstatus T0] ++
  restores SP saved ++ [Addi SP SP TF_ALLOC_SIZE; TrapReturn].
Proof. reflexivity. Qed.
Section Proof.
Context (handler : Cpu Reg Csr → Cpu Reg Csr).
Notation run := (exec_all handler Sepc Sstatus).

Definition entry : list (Instr Reg Csr) :=
  [Addi SP SP (-TF_ALLOC_SIZE)] ++ saves SP saved ++ [Addi T0 SP TF_ALLOC_SIZE; Store T0 (TF SP) SP] ++
  [CsrRead T0 Sstatus; Store T0 (TFC Sstatus) SP] ++ [CsrRead T0 Sepc; Store T0 (TFC Sepc) SP] ++
  [CsrRead T0 Scause; Store T0 (TFC Scause) SP] ++ [CsrRead T0 Stval; Store T0 (TFC Stval) SP].

Definition fields (c0 : Cpu Reg Csr) : list (Z * Z) :=
  [(TFC Stval, csrs c0 Stval); (TFC Scause, csrs c0 Scause); (TFC Sepc, csrs c0 Sepc); (TFC Sstatus, csrs c0 Sstatus); (TF SP, regs c0 SP)] ++
  ((λ p : Reg * Z, (p.2, regs c0 p.1)) <$> saved).

Lemma saved_fields c0 c base : framed SP [T0] c0 c base [] → regs c T0 = regs c0 T0 →
  framed SP [T0] c0 (run (saves SP saved) c) base ((λ p : Reg * Z, (p.2, regs c0 p.1)) <$> saved).
Proof.
  intros Hc Et. enough (framed SP [T0] c0 (run (saves SP saved) c) base (((λ p : Reg * Z, (p.2, regs c0 p.1)) <$> saved) ++ [])) as H
    by by rewrite app_nil_r in H.
  apply saves_framed; [done| |decide_now..].
  intros r o Hin. assert (r ≠ SP) as Hr.
  { assert (Forall (λ p : Reg * Z, p.1 ≠ SP) saved) as Hall by decide_now. by apply (proj1 (Forall_forall _ _) Hall (r, o)). }
  split; [done|]. destruct (decide (r = T0)) as [->|]; [done|]. apply (fr_regs _ _ _ _ _ _ Hc); [done|]. by rewrite list_elem_of_singleton.
Qed.

Lemma put_csr c0 c base l x : framed SP [T0] c0 c base l → Forall offset_ok l.*1 → offset_ok (TFC x) → TFC x ∉ l.*1 →
  framed SP [T0] c0 (run [CsrRead T0 x; Store T0 (TFC x) SP] c) base ((TFC x, csrs c0 x) :: l).
Proof. intros Hc Hl Ho Hn. apply put_field; try done; [by left|]. rewrite <- (fr_csrs _ _ _ _ _ _ Hc). reflexivity. Qed.

Lemma entry_start c0 : let c1 := run [Addi SP SP (-TF_ALLOC_SIZE)] c0 in
  framed SP [T0] c0 c1 (addr (regs c0 SP) (-TF_ALLOC_SIZE)) [] ∧ regs c1 T0 = regs c0 T0.
Proof.
  split; [split; [apply fupd_same| |done|by intros ? ? ?%not_elem_of_nil]|reflexivity].
  intros r Hr _. simpl. by apply fupd_other.
Qed.

Lemma entry_run c0 : 0 ≤ regs c0 SP < 2 ^ 64 →
  framed SP [T0] c0 (run entry c0) (addr (regs c0 SP) (-TF_ALLOC_SIZE)) (fields c0).
Proof.
  intros Hsp. destruct (entry_start c0) as [H1 Et]. pose proof (sub_add_addr (regs c0 SP) TF_ALLOC_SIZE Hsp) as Eb.
  pose proof (saved_fields c0 _ _ H1 Et) as H2. unfold entry. rewrite !exec_app.
  set (base := addr (regs c0 SP) (-TF_ALLOC_SIZE)) in *. set (c2 := run (saves SP saved) _) in *. clearbody c2.
  assert (exec handler Sepc Sstatus (Addi T0 SP TF_ALLOC_SIZE) c2 = set_reg T0 (regs c0 SP) c2) as Ea.
  { unfold exec. by rewrite (fr_sp _ _ _ _ _ _ H2), Eb. }
  pose proof (put_field handler Sepc Sstatus SP [T0] T0 c0 c2 base _ (TF SP) _ _ ltac:(done) ltac:(by left) H2 Ea ltac:(decide_now) ltac:(decide_now) ltac:(decide_now)) as H3.
  set (c3 := run [_; _] c2) in *. clearbody c3.
  pose proof (put_csr c0 c3 base _ Sstatus H3 ltac:(decide_now) ltac:(decide_now) ltac:(decide_now)) as H4. set (c4 := run [_; _] c3) in *. clearbody c4.
  pose proof (put_csr c0 c4 base _ Sepc H4 ltac:(decide_now) ltac:(decide_now) ltac:(decide_now)) as H5. set (c5 := run [_; _] c4) in *. clearbody c5.
  pose proof (put_csr c0 c5 base _ Scause H5 ltac:(decide_now) ltac:(decide_now) ltac:(decide_now)) as H6. set (c6 := run [_; _] c5) in *. clearbody c6.
  exact (put_csr c0 c6 base _ Stval H6 ltac:(decide_now) ltac:(decide_now) ltac:(decide_now)).
Qed.

(** The way back. *)
Definition resume : list (Instr Reg Csr) := [Load T0 (TFC Sepc) SP; CsrWrite Sepc T0; Load T0 (TFC Sstatus) SP; CsrWrite Sstatus T0].

Lemma TF_range r : 0 ≤ TF r < TF_SIZE.
Proof. destruct r; vm_compute; by split. Qed.
Lemma TFC_range x : 0 ≤ TFC x < TF_SIZE.
Proof. destruct x; vm_compute; by split. Qed.

Lemma resume_run c base (c0 : Cpu Reg Csr) : regs c SP = base → (∀ x, mem c (addr base (TFC x)) = csrs c0 x) → let c' := run resume c in
  regs c' SP = base ∧ mem c' = mem c ∧ csrs c' Sepc = csrs c0 Sepc ∧ csrs c' Sstatus = csrs c0 Sstatus.
Proof.
  intros Esp Hx. unfold resume. cbn -[fupd addr TFC]. rewrite !fupd_same, !(fupd_other T0 SP), !(fupd_other Sstatus Sepc), !fupd_same, Esp, !Hx by done. done.
Qed.

Lemma last_run n (c : Cpu Reg Csr) : run [Addi SP SP n; TrapReturn] c =
  mk_Cpu (fupd SP ((regs c SP + n) mod 2 ^ 64) (regs c)) (csrs c) (mem c) (Some (csrs c Sepc, csrs c Sstatus)).
Proof. reflexivity. Qed.

Lemma saved_in r : r ≠ SP → (r, TF r) ∈ saved.
Proof.
  intros Hne. unfold saved. apply list_elem_of_fmap. exists r. split; [done|]. destruct r; first [decide_now|by exfalso].
Qed.

Lemma exit_run c2 base (c0 : Cpu Reg Csr) : base = addr (regs c0 SP) (-TF_ALLOC_SIZE) → 0 ≤ regs c0 SP < 2 ^ 64 → regs c2 SP = base →
  (∀ r, mem c2 (addr base (TF r)) = regs c0 r) → (∀ x, mem c2 (addr base (TFC x)) = csrs c0 x) →
  let c := run [Addi SP SP TF_ALLOC_SIZE; TrapReturn] (run (restores SP saved) (run resume c2)) in
  (∀ r, regs c r = regs c0 r) ∧ resumed c = Some (csrs c0 Sepc, csrs c0 Sstatus) ∧ mem c = mem c2.
Proof.
  intros Eb Hsp Esp Hr Hx. destruct (resume_run c2 base c0 Esp Hx) as (E3 & Em3 & Ep3 & Es3). set (c3 := run resume c2) in *. clearbody c3.
  destruct (restores_run handler Sepc Sstatus SP saved c3 ltac:(decide_now) ltac:(decide_now)) as (Ec4 & _ & Em4 & Hin & Hout).
  cbv zeta. rewrite last_run. set (c4 := run (restores SP saved) c3) in *. clearbody c4. simpl. rewrite Ec4, Ep3, Es3, Em4, Em3.
  split_and!; [|done|done]. intros r. destruct (decide (SP = r)) as [<-|Hne].
  - rewrite fupd_same, Hout, E3, Eb by decide_now. by apply sub_add_addr.
  - rewrite fupd_other by done. rewrite (Hin r (TF r)) by (by apply saved_in). by rewrite E3, Em3, Hr.
Qed.

(** Every field of the frame is described. *)
Lemma fields_reg c0 r : (TF r, regs c0 r) ∈ fields c0.
Proof. unfold fields, saved. destruct r; simpl; set_solver. Qed.
Lemma fields_csr c0 x : (TFC x, csrs c0 x) ∈ fields c0.
Proof. unfold fields, saved. destruct x; simpl; set_solver. Qed.
End Proof.

(** A trap on RISC-V is transparent: the handler gets, in [a0], a frame with
    every register and the control registers as they were; and whatever it
    does, as long as it keeps the stack pointer and the frame, the interrupted
    code goes on where it was, with its status and with every register as
    before, over the memory the handler left. *)
Theorem riscv_trap_transparent (handler : Cpu Reg Csr → Cpu Reg Csr) (c0 : Cpu Reg Csr) :
  0 ≤ regs c0 SP < 2 ^ 64 → keeps_frame SP TF_SIZE handler →
  ∃ c1, let c := exec_all handler Sepc Sstatus trap_entry c0 in
    (∀ r, mem c1 (addr (regs c1 A0) (TF r)) = regs c0 r) ∧ (∀ x, mem c1 (addr (regs c1 A0) (TFC x)) = csrs c0 x) ∧
    (∀ r, regs c r = regs c0 r) ∧ resumed c = Some (csrs c0 Sepc, csrs c0 Sstatus) ∧ mem c = mem (handler c1).
Proof.
  intros Hsp Hh. pose proof (entry_run handler c0 Hsp) as He.
  assert (trap_entry = entry ++ [Move A0 SP; Call] ++ resume ++ restores SP saved ++ [Addi SP SP TF_ALLOC_SIZE; TrapReturn]) as -> by reflexivity.
  rewrite !exec_app. revert He. generalize (exec_all handler Sepc Sstatus entry c0). intros ce He.
  set (base := addr (regs c0 SP) (-TF_ALLOC_SIZE)) in *.
  pose proof (fr_sp _ _ _ _ _ _ He) as Esp. exists (set_reg A0 base ce). cbv zeta.
  replace (exec_all handler Sepc Sstatus [Move A0 SP; Call] ce) with (handler (set_reg A0 base ce)) by (by rewrite <- Esp).
  destruct (Hh (set_reg A0 base ce)) as [Ehs Ehm]. rewrite regs_set, mem_set in *. rewrite fupd_same.
  rewrite (fupd_other A0 SP), Esp in Ehs, Ehm by done. revert Ehs Ehm. generalize (handler (set_reg A0 base ce)). intros c2 Ehs Ehm.
  assert (∀ r, mem ce (addr base (TF r)) = regs c0 r) as Hr0 by (intros r; apply (fr_fields _ _ _ _ _ _ He), (fields_reg handler)).
  assert (∀ x, mem ce (addr base (TFC x)) = csrs c0 x) as Hx0 by (intros x; apply (fr_fields _ _ _ _ _ _ He), (fields_csr handler)).
  split; [done|]. split; [done|].
  apply (exit_run handler c2 base c0); [done|done|done|intros r; rewrite Ehm; [done|apply TF_range]|intros x; rewrite Ehm; [done|apply TFC_range]].
Qed.

(** A handler that leaves other things in the registers and below the stack. *)
Definition noisy (c : Cpu Reg Csr) : Cpu Reg Csr :=
  mk_Cpu (λ r, if decide (r = SP) then regs c SP else 7) (λ _, 13) (mem c) (resumed c).
Definition some_cpu : Cpu Reg Csr := mk_Cpu (λ r, 8 * TF r + 0x80001000) (λ x, TFC x + 5) (λ _, 0) None.

Lemma riscv_trap_transparent_witness :
  let c := exec_all noisy Sepc Sstatus trap_entry some_cpu in
  regs c T0 = regs some_cpu T0 ∧ regs c SP = regs some_cpu SP ∧ resumed c = Some (csrs some_cpu Sepc, csrs some_cpu Sstatus).
Proof.
  destruct (riscv_trap_transparent noisy some_cpu) as (c1 & _ & _ & Hr & He & _).
  - vm_compute. by split.
  - intros c. split; [reflexivity|]. intros o _. reflexivity.
  - split; [apply Hr|]. split; [apply Hr|exact He].
Defined.
End Riscv.
