(* ===== verification/TrapLoongarch.v ===== *)
(** * The entries and exits of traps on LoongArch
    The macros and the vectors of crates/someboot/src/arch/loongarch64/trap.rs,
    with the frame of context.rs, as programs of the machine of TrapEntry.v: two
    registers are parked in scratch control registers while the frame is built. *)

From stdpp Require Import base tactics option numbers list gmap.
From S2P Require Import Prelude TrapEntry.
Open Scope Z_scope.

Module Loongarch.
Inductive Reg : Type :=
| ZERO | RA | TP | SP | A0 | A1 | A2 | A3 | A4 | A5 | A6 | A7 | T0 | T1 | T2 | T3 | T4 | T5 | T6 | T7 | T8
| R21 | FP | S0 | S1 | S2 | S3 | S4 | S5 | S6 | S7 | S8.
#[export] Instance Reg_eq_dec : EqDecision Reg.
Proof. intros a b. destruct a, b; (left; reflexivity) || (right; discriminate). Defined.

Inductive Csr : Type := PRMD | ERA | BADV | KS0 | KS1.
#[export] Instance Csr_eq_dec : EqDecision Csr.
Proof. solve_decision. Defined.

(** [GeneralRegisters] and [TrapFrame] (context.rs): the fields in order. *)
Definition TrapFrame : list (Reg + Csr) :=
  (inl <$> [ZERO; RA; TP; SP; A0; A1; A2; A3; A4; A5; A6; A7; T0; T1; T2; T3; T4; T5; T6; T7; T8; R21; FP;
    S0; S1; S2; S3; S4; S5; S6; S7; S8]) ++ (inr <$> [PRMD; ERA]).
Definition offset_of (f : Reg + Csr) : Z := 8 * Z.of_nat (default 0%nat (fst <$> list_find (f =.) TrapFrame)).
Definition TF_SP : Z := offset_of (inl SP).
Definition TF_T0 : Z := offset_of (inl T0).
Definition TF_T1 : Z := offset_of (inl T1).
Definition TF_PRMD : Z := offset_of (inr PRMD).
Definition TF_ERA : Z := offset_of (inr ERA).
Definition FRAME_SIZE : Z := 8 * Z.of_nat (length TrapFrame).

(** [BACKUP_T0T1] *)
Definition BACKUP_T0T1 : list (Instr Reg Csr) :=
  [CsrSwap T0 KS0; CsrSwap T1 KS1].
(** [RESTORE_T0T1] *)
Definition RESTORE_T0T1 : list (Instr Reg Csr) :=
  [CsrRead T0 KS0; CsrRead T1 KS1].
(** [SAVE_REGS_EXCEPT_T0T1] *)
Definition SAVE_REGS_EXCEPT_T0T1 : list (Instr Reg Csr) :=
  [Store ZERO 0 SP; Store RA 8 SP; Store TP 16 SP; Store A0 32 SP; Store A1 40 SP; Store A2 48 SP;
   Store A3 56 SP; Store A4 64 SP; Store A5 72 SP; Store A6 80 SP; Store A7 88 SP; Store T2 112 SP;
   Store T3 120 SP; Store T4 128 SP; Store T5 136 SP; Store T6 144 SP; Store T7 152 SP; Store T8 160 SP;
   Store R21 168 SP; Store FP 176 SP; Store S0 184 SP; Store S1 192 SP; Store S2 200 SP; Store S3 208 SP;
   Store S4 216 SP; Store S5 224 SP; Store S6 232 SP; Store S7 240 SP; Store S8 248 SP].
(** [RESTORE_REGS] *)
Definition RESTORE_REGS : list (Instr Reg Csr) :=
  [Load RA 8 SP; Load TP 16 SP; Load A0 32 SP; Load A1 40 SP; Load A2 48 SP; Load A3 56 SP; Load A4 64 SP;
   Load A5 72 SP; Load A6 80 SP; Load A7 88 SP; Load T0 96 SP; Load T1 104 SP; Load T2 112 SP;
   Load T3 120 SP; Load T4 128 SP; Load T5 136 SP; Load T6 144 SP; Load T7 152 SP; Load T8 160 SP;
   Load R21 168 SP; Load FP 176 SP; Load S0 184 SP; Load S1 192 SP; Load S2 200 SP; Load S3 208 SP;
   Load S4 216 SP; Load S5 224 SP; Load S6 232 SP; Load S7 240 SP; Load S8 248 SP].

(** What every vector begins with: the frame is built. *)
Definition build_frame : list (Instr Reg Csr) :=
  BACKUP_T0T1 ++ [Move T0 SP; Addi SP SP (-FRAME_SIZE)] ++ SAVE_REGS_EXCEPT_T0T1 ++ [Store T0 TF_SP SP] ++
  RESTORE_T0T1 ++ [Store T0 TF_T0 SP; Store T1 TF_T1 SP; CsrRead T0 PRMD; Store T0 TF_PRMD SP; CsrRead T0 ERA; Store T0 TF_ERA SP].

(** [handle_vint_64], to which the vectors 65 to 78 jump. *)
Definition handle_vint_64 : list (Instr Reg Csr) :=
  build_frame ++ [Move A0 SP; Call] ++
  [Load T0 TF_ERA SP; CsrSwap T0 ERA; Load T0 TF_PRMD SP; CsrSwap T0 PRMD] ++ RESTORE_REGS ++ [Load SP TF_SP SP; TrapReturn].

(** [handle_exc_1] to [handle_exc_7], up to the call of [do_page_fault]; stores
    and modifications are the vectors 2 and 4. *)
Definition page_fault_write (vector : Z) : Z := if (vector =? 2) || (vector =? 4) then 1 else 0.
Definition handle_page_fault (vector : Z) : list (Instr Reg Csr) :=
  build_frame ++ [Move A0 SP; LoadImm A1 (page_fault_write vector); CsrRead A2 BADV; Call].
(** [handle_exc_8], up to the call of [do_address_error]. *)
Definition handle_exc_8 : list (Instr Reg Csr) := build_frame ++ [Move A0 SP; CsrRead A1 BADV; Call].

Definition saved : list (Reg * Z) :=
  (λ r, (r, offset_of (inl r))) <$> [ZERO; RA; TP; A0; A1; A2; A3; A4; A5; A6; A7; T2; T3; T4; T5; T6; T7; T8; R21; FP;
    S0; S1; S2; S3; S4; S5; S6; S7; S8].
Definition restored : list (Reg * Z) :=
  (λ r, (r, offset_of (inl r))) <$> [RA; TP; A0; A1; A2; A3; A4; A5; A6; A7; T0; T1; T2; T3; T4; T5; T6; T7; T8; R21; FP;
    S0; S1; S2; S3; S4; S5; S6; S7; S8].
Lemma save_eq : SAVE_REGS_EXCEPT_T0T1 = saves SP saved.
Proof. reflexivity. Qed.
Lemma restore_eq : RESTORE_REGS = restores SP restored.
Proof. reflexivity. Qed.

Section Proof.
Context (handler : Cpu Reg Csr → Cpu Reg Csr).
Notation run := (exec_all handler ERA PRMD).

(** The interrupted machine, with the two registers that are backed up. *)
Definition backed_up (c0 : Cpu Reg Csr) : Cpu Reg Csr :=
  mk_Cpu (regs c0) (fupd KS1 (regs c0 T1) (fupd KS0 (regs c0 T0) (csrs c0))) (mem c0) (resumed c0).

Definition fields (c0 : Cpu Reg Csr) : list (Z * Z) :=
  [(TF_ERA, csrs c0 ERA); (TF_PRMD, csrs c0 PRMD); (TF_T1, regs c0 T1); (TF_T0, regs c0 T0); (TF_SP, regs c0 SP)] ++
  ((λ p : Reg * Z, (p.2, regs c0 p.1)) <$> saved).

Notation base_of c0 := (addr (regs c0 SP) (-FRAME_SIZE)).
Notation framed_la c0 c l := (framed SP [T0; T1] (backed_up c0) c (base_of c0) l).

Lemma la_start_run c0 : let c := run (BACKUP_T0T1 ++ [Move T0 SP; Addi SP SP (-FRAME_SIZE)]) c0 in
  framed_la c0 c [] ∧ regs c T0 = regs c0 SP.
Proof.
  intros c. unfold c, exec_all, BACKUP_T0T1. cbn -[fupd FRAME_SIZE addr]. split.
  - split; cbn -[fupd FRAME_SIZE addr].
    + rewrite fupd_same, !(fupd_other T0 SP), (fupd_other T1 SP), (fupd_other T0 SP) by done. done.
    + intros r Hr Ht. apply not_elem_of_cons in Ht as [H0 Ht]. apply not_elem_of_cons in Ht as [H1 _].
      by rewrite !fupd_other by done.
    + by rewrite (fupd_other T0 T1) by done.
    + by intros ? ? ?%not_elem_of_nil.
  - rewrite (fupd_other SP T0), fupd_same, (fupd_other T1 SP), (fupd_other T0 SP) by done. done.
Qed.

Lemma la_saved_fields c0 c : framed_la c0 c [] →
  framed_la c0 (run (saves SP saved) c) ((λ p : Reg * Z, (p.2, regs c0 p.1)) <$> saved) ∧ regs (run (saves SP saved) c) T0 = regs c T0.
Proof.
  intros Hc. split.
  - enough (framed_la c0 (run (saves SP saved) c) (((λ p : Reg * Z, (p.2, regs (backed_up c0) p.1)) <$> saved) ++ [])) as H
      by by rewrite app_nil_r in H.
    apply saves_framed; [done| |decide_now..]. intros r o Hin.
    assert (r ≠ SP ∧ r ∉ [T0; T1]) as [Hr Ht].
    { assert (Forall (λ p : Reg * Z, p.1 ≠ SP ∧ p.1 ∉ [T0; T1]) saved) as Hall by decide_now. by apply (proj1 (Forall_forall _ _) Hall (r, o)). }
    split; [done|]. by apply (fr_regs _ _ _ _ _ _ Hc).
  - destruct (saves_run handler ERA PRMD SP saved c ltac:(decide_now) ltac:(decide_now)) as (Er & _). by rewrite Er.
Qed.

Lemma restore_run (c : Cpu Reg Csr) : run RESTORE_T0T1 c = set_reg T1 (csrs c KS1) (set_reg T0 (csrs c KS0) c).
Proof. reflexivity. Qed.
Lemma run_one (i : Instr Reg Csr) c : run [i] c = exec handler ERA PRMD i c.
Proof. reflexivity. Qed.
Lemma regs_store t o (c : Cpu Reg Csr) : regs (exec handler ERA PRMD (Store t o SP) c) = regs c.
Proof. reflexivity. Qed.

Lemma la_put_csr c0 c l o x : framed_la c0 c l → x = ERA ∨ x = PRMD → Forall offset_ok l.*1 → offset_ok o → o ∉ l.*1 →
  framed_la c0 (run [CsrRead T0 x; Store T0 o SP] c) ((o, csrs c0 x) :: l).
Proof.
  intros Hc Hx Hl Ho Hn. apply put_field; try done; [by left|]. unfold exec. rewrite (fr_csrs _ _ _ _ _ _ Hc).
  by destruct Hx as [-> | ->].
Qed.

(** The backed up registers come back. *)
Lemma restored_scratch c0 c l : framed_la c0 c l → let c' := run RESTORE_T0T1 c in
  framed_la c0 c' l ∧ regs c' T0 = regs c0 T0 ∧ regs c' T1 = regs c0 T1.
Proof.
  intros Hc. cbv zeta. rewrite restore_run. split.
  - apply framed_scratch; [done|by right; left|]. by apply framed_scratch; [|left|].
  - rewrite !regs_set, (fr_csrs _ _ _ _ _ _ Hc), fupd_same, (fupd_other T1 T0), fupd_same by done. unfold backed_up. cbn [csrs].
    by rewrite fupd_same, (fupd_other KS1 KS0), fupd_same by done.
Qed.

Lemma build_frame_eq : build_frame = (BACKUP_T0T1 ++ [Move T0 SP; Addi SP SP (-FRAME_SIZE)]) ++ saves SP saved ++ [Store T0 TF_SP SP] ++
  RESTORE_T0T1 ++ [Store T0 TF_T0 SP] ++ [Store T1 TF_T1 SP] ++ [CsrRead T0 PRMD; Store T0 TF_PRMD SP] ++ [CsrRead T0 ERA; Store T0 TF_ERA SP].
Proof. reflexivity. Qed.

Lemma build_frame_split c0 : run build_frame c0 =
  run [CsrRead T0 ERA; Store T0 TF_ERA SP] (run [CsrRead T0 PRMD; Store T0 TF_PRMD SP] (exec handler ERA PRMD (Store T1 TF_T1 SP)
    (exec handler ERA PRMD (Store T0 TF_T0 SP) (run RESTORE_T0T1 (exec handler ERA PRMD (Store T0 TF_SP SP)
      (run (saves SP saved) (run (BACKUP_T0T1 ++ [Move T0 SP; Addi SP SP (-FRAME_SIZE)]) c0))))))).
Proof. rewrite build_frame_eq. unfold exec_all. rewrite !foldl_app. reflexivity. Qed.

Lemma build_frame_run c0 : framed_la c0 (run build_frame c0) (fields c0).
Proof.
  destruct (la_start_run c0) as [H1 E1]. destruct (la_saved_fields c0 _ H1) as [H2 E2]. rewrite E1 in E2. rewrite build_frame_split.
  revert H2 E2. generalize (run (saves SP saved) (run (BACKUP_T0T1 ++ [Move T0 SP; Addi SP SP (-FRAME_SIZE)]) c0)). intros c2 H2 E2. clear H1 E1.
  pose proof (store_field handler ERA PRMD SP [T0; T1] T0 _ c2 _ _ TF_SP _ H2 E2 ltac:(decide_now) ltac:(decide_now) ltac:(decide_now)) as H3.
  revert H3. generalize (exec handler ERA PRMD (Store T0 TF_SP SP) c2). intros c3 H3. clear H2 E2.
  destruct (restored_scratch c0 c3 _ H3) as (H5 & Et0 & Et1). revert H5 Et0 Et1. generalize (run RESTORE_T0T1 c3). intros c5 H5 Et0 Et1.
  pose proof (store_field handler ERA PRMD SP [T0; T1] T0 _ c5 _ _ TF_T0 _ H5 Et0 ltac:(decide_now) ltac:(decide_now) ltac:(decide_now)) as H6.
  rewrite <- (regs_store T0 TF_T0 c5) in Et1. revert H6 Et1. generalize (exec handler ERA PRMD (Store T0 TF_T0 SP) c5). intros c6 H6 Et1.
  pose proof (store_field handler ERA PRMD SP [T0; T1] T1 _ c6 _ _ TF_T1 _ H6 Et1 ltac:(decide_now) ltac:(decide_now) ltac:(decide_now)) as H7.
  revert H7. generalize (exec handler ERA PRMD (Store T1 TF_T1 SP) c6). intros c7 H7.
  pose proof (la_put_csr c0 c7 _ TF_PRMD PRMD H7 ltac:(by right) ltac:(decide_now) ltac:(decide_now) ltac:(decide_now)) as H8.
  revert H8. generalize (run [CsrRead T0 PRMD; Store T0 TF_PRMD SP] c7). intros c8 H8.
  exact (la_put_csr c0 c8 _ TF_ERA ERA H8 ltac:(by left) ltac:(decide_now) ltac:(decide_now) ltac:(decide_now)).
Qed.

Lemma la_fields_reg c0 r : (offset_of (inl r), regs c0 r) ∈ fields c0.
Proof. unfold fields, saved, TF_SP, TF_T0, TF_T1. destruct r; simpl; set_solver. Qed.
Lemma la_fields_csr c0 x : x = ERA ∨ x = PRMD → (offset_of (inr x), csrs c0 x) ∈ fields c0.
Proof. unfold fields, TF_ERA, TF_PRMD. intros [-> | ->]; set_solver. Qed.

(** The way back. *)
Definition resume : list (Instr Reg Csr) := [Load T0 TF_ERA SP; CsrSwap T0 ERA; Load T0 TF_PRMD SP; CsrSwap T0 PRMD].

Lemma la_offset_range f : 0 ≤ offset_of f < FRAME_SIZE.
Proof. destruct f as [r|x]; [destruct r|destruct x]; vm_compute; by split. Qed.

Lemma la_resume_run c base (c0 : Cpu Reg Csr) : regs c SP = base →
  mem c (addr base TF_ERA) = csrs c0 ERA → mem c (addr base TF_PRMD) = csrs c0 PRMD → let c' := run resume c in
  regs c' SP = base ∧ mem c' = mem c ∧ csrs c' ERA = csrs c0 ERA ∧ csrs c' PRMD = csrs c0 PRMD.
Proof.
  intros Esp He Hp. unfold resume. cbn -[fupd addr TF_ERA TF_PRMD].
  rewrite ?fupd_same, ?(fupd_other T0 SP), ?(fupd_other PRMD ERA), ?fupd_same, ?Esp, ?He, ?Hp by done. done.
Qed.

Lemma la_last_run o (c : Cpu Reg Csr) : run [Load SP o SP; TrapReturn] c =
  mk_Cpu (fupd SP (mem c (addr (regs c SP) o)) (regs c)) (csrs c) (mem c) (Some (csrs c ERA, csrs c PRMD)).
Proof. reflexivity. Qed.

Lemma la_saved_in r : r ≠ SP → r ≠ ZERO → (r, offset_of (inl r)) ∈ restored.
Proof.
  intros Hne Hz. unfold restored. apply list_elem_of_fmap. exists r. split; [done|]. destruct r; first [decide_now|by exfalso].
Qed.

Lemma la_exit_run c2 base (c0 : Cpu Reg Csr) : regs c2 SP = base →
  (∀ r, mem c2 (addr base (offset_of (inl r))) = regs c0 r) →
  mem c2 (addr base TF_ERA) = csrs c0 ERA → mem c2 (addr base TF_PRMD) = csrs c0 PRMD →
  let c := run [Load SP TF_SP SP; TrapReturn] (run (restores SP restored) (run resume c2)) in
  (∀ r, r ≠ ZERO → regs c r = regs c0 r) ∧ resumed c = Some (csrs c0 ERA, csrs c0 PRMD) ∧ mem c = mem c2.
Proof.
  intros Esp Hr He Hp. destruct (la_resume_run c2 base c0 Esp He Hp) as (E3 & Em3 & Ep3 & Es3). set (c3 := run resume c2) in *. clearbody c3.
  destruct (restores_run handler ERA PRMD SP restored c3 ltac:(decide_now) ltac:(decide_now)) as (Ec4 & _ & Em4 & Hin & Hout).
  cbv zeta. rewrite la_last_run. set (c4 := run (restores SP restored) c3) in *. clearbody c4. cbn [regs resumed mem]. rewrite Ec4, Ep3, Es3, Em4, Em3.
  split_and!; [|done|done]. intros r Hz. destruct (decide (SP = r)) as [<-|Hne].
  - rewrite fupd_same, Hout, E3 by decide_now. apply (Hr SP).
  - rewrite fupd_other by done. rewrite (Hin r _) by (by apply la_saved_in). by rewrite E3, Em3, Hr.
Qed.

(** The handler's view of the frame at [A0]. *)
Definition frame_at (c0 c : Cpu Reg Csr) : Prop :=
  (∀ r, mem c (addr (regs c A0) (offset_of (inl r))) = regs c0 r) ∧
  mem c (addr (regs c A0) TF_ERA) = csrs c0 ERA ∧ mem c (addr (regs c A0) TF_PRMD) = csrs c0 PRMD.

Lemma framed_at c0 ce c : framed_la c0 ce (fields c0) → regs c A0 = regs ce SP → mem c = mem ce → frame_at c0 c.
Proof.
  intros Hf Ea Em. unfold frame_at. rewrite Ea, Em, (fr_sp _ _ _ _ _ _ Hf).
  split; [intros r; apply (fr_fields _ _ _ _ _ _ Hf), la_fields_reg|].
  split; apply (fr_fields _ _ _ _ _ _ Hf); [apply (la_fields_csr c0 ERA)|apply (la_fields_csr c0 PRMD)]; first [by left|by right].
Qed.
End Proof.

(** C21: An interrupt on LoongArch is transparent: the handler gets, in [a0], a
    frame with every register, the program counter and the previous mode; and
    whatever it does, as long as it keeps the stack pointer and the frame, the
    interrupted code goes on where it was, in its mode and with every register
    but the constant zero as before, also the two that were parked in
    scratch control registers while the frame was built. *)
Theorem loongarch_vint_transparent (handler : Cpu Reg Csr → Cpu Reg Csr) (c0 : Cpu Reg Csr) :
  keeps_frame SP FRAME_SIZE handler →
  ∃ c1, let c := exec_all handler ERA PRMD handle_vint_64 c0 in
    frame_at c0 c1 ∧ (∀ r, r ≠ ZERO → regs c r = regs c0 r) ∧ resumed c = Some (csrs c0 ERA, csrs c0 PRMD) ∧ mem c = mem (handler c1).
Proof.
  intros Hh. pose proof (build_frame_run handler c0) as He.
  assert (handle_vint_64 = build_frame ++ [Move A0 SP; Call] ++ resume ++ restores SP restored ++ [Load SP TF_SP SP; TrapReturn]) as -> by reflexivity.
  rewrite !exec_app. revert He. generalize (exec_all handler ERA PRMD build_frame c0). intros ce He.
  pose proof (fr_sp _ _ _ _ _ _ He) as Esp. set (base := addr (regs c0 SP) (-FRAME_SIZE)) in *. exists (set_reg A0 base ce). cbv zeta.
  assert (exec_all handler ERA PRMD [Move A0 SP; Call] ce = handler (set_reg A0 base ce)) as -> by (by rewrite <- Esp).
  destruct (Hh (set_reg A0 base ce)) as [Ehs Ehm]. rewrite regs_set, mem_set in *.
  rewrite (fupd_other A0 SP), Esp in Ehs, Ehm by done.
  revert Ehs Ehm. generalize (handler (set_reg A0 base ce)). intros c2 Ehs Ehm.
  assert (∀ r, mem ce (addr base (offset_of (inl r))) = regs c0 r) as Hr0 by (intros r; apply (fr_fields _ _ _ _ _ _ He), (la_fields_reg handler)).
  assert (∀ x, x = ERA ∨ x = PRMD → mem ce (addr base (offset_of (inr x))) = csrs c0 x) as Hx0 by (intros x Hx; by apply (fr_fields _ _ _ _ _ _ He), (la_fields_csr handler)).
  split.
  - unfold frame_at. rewrite regs_set, mem_set, fupd_same. split; [done|]. split; apply Hx0; first [by left|by right].
  - apply (la_exit_run handler c2 base c0); [done|intros r|..]; rewrite Ehm; [done|apply la_offset_range|apply Hx0; by left|apply la_offset_range|apply Hx0; by right|apply la_offset_range].
Qed.

(** A page fault on LoongArch reaches [do_page_fault] with the frame, with
    whether it was a write and with the faulting address. *)
Theorem loongarch_page_fault_call (handler : Cpu Reg Csr → Cpu Reg Csr) (c0 : Cpu Reg Csr) (vector : Z) :
  ∃ c1, exec_all handler ERA PRMD (handle_page_fault vector) c0 = handler c1 ∧ frame_at c0 c1 ∧
    regs c1 A1 = page_fault_write vector ∧ regs c1 A2 = csrs c0 BADV.
Proof.
  pose proof (build_frame_run handler c0) as He. unfold handle_page_fault. rewrite exec_app. revert He.
  generalize (exec_all handler ERA PRMD build_frame c0). intros ce He.
  eexists (set_reg A2 (csrs ce BADV) (set_reg A1 (page_fault_write vector) (set_reg A0 (regs ce SP) ce))). split; [reflexivity|].
  split; [apply (framed_at handler c0 ce); [done| |reflexivity]|split].
  - rewrite !regs_set, (fupd_other A2 A0), (fupd_other A1 A0) by done. apply fupd_same.
  - rewrite !regs_set, (fupd_other A2 A1) by done. apply fupd_same.
  - rewrite regs_set, fupd_same. by rewrite (fr_csrs _ _ _ _ _ _ He).
Qed.

(** A handler that leaves other things in the registers. *)
Definition noisy (c : Cpu Reg Csr) : Cpu Reg Csr :=
  mk_Cpu (λ r, if decide (r = SP) then regs c SP else 7) (λ _, 13) (mem c) (resumed c).
Definition some_cpu : Cpu Reg Csr := mk_Cpu (λ r, 8 * offset_of (inl r) + 0x80001000) (λ x, match x with PRMD => 4 | ERA => 0x9000 | _ => 1 end) (λ _, 0) None.

Lemma loongarch_vint_transparent_witness :
  let c := exec_all noisy ERA PRMD handle_vint_64 some_cpu in
  regs c T0 = regs some_cpu T0 ∧ regs c SP = regs some_cpu SP ∧ resumed c = Some (0x9000, 4).
Proof.
  destruct (loongarch_vint_transparent noisy some_cpu) as (c1 & _ & Hr & He & _).
  - intros c. split; [reflexivity|]. intros o _. reflexivity.
  - split; [by apply Hr|]. split; [by apply Hr|exact He].
Defined.
End Loongarch.
