(* ===== verification/TrapAarch64.v ===== *)
(** * Traps and task switches on AArch64
    The assembly that crates/kasm-aarch64/src/trap.rs generates around a trap
    handler ([__trap_handle_irq]) and for switching tasks ([tcb_switch]), with
    and without the floating-point registers. The registers are pushed in pairs
    on the stack, where they make up a [Context]
    (crates/someboot/src/arch/aarch64/context.rs), and popped in the opposite order. *)

From stdpp Require Import base tactics option numbers list.
From S2P Require Import Prelude TrapEntry.
Open Scope Z_scope.

(** ** The machine *)

Inductive SysReg : Type := SPSR_EL1 | ELR_EL1 | FPCR | FPSR.
#[export] Instance SysReg_eq_dec : EqDecision SysReg.
Proof. solve_decision. Defined.

Record A64 : Type := mk_A64 {
  xr : nat → Z;
  qr : nat → Z;
  sp : Z;
  sysr : SysReg → Z;
  amem : Z → Z;
  (** Where the machine went on, and with which status. *)
  went : option (Z * Z)
}.

Definition set_x (n : nat) (v : Z) (c : A64) : A64 := mk_A64 (fupd n v (xr c)) (qr c) (sp c) (sysr c) (amem c) (went c).
Definition set_q (n : nat) (v : Z) (c : A64) : A64 := mk_A64 (xr c) (fupd n v (qr c)) (sp c) (sysr c) (amem c) (went c).
Definition set_sp (v : Z) (c : A64) : A64 := mk_A64 (xr c) (qr c) v (sysr c) (amem c) (went c).
Definition set_sys (r : SysReg) (v : Z) (c : A64) : A64 := mk_A64 (xr c) (qr c) (sp c) (fupd r v (sysr c)) (amem c) (went c).
Definition set_amem (m : Z → Z) (c : A64) : A64 := mk_A64 (xr c) (qr c) (sp c) (sysr c) m (went c).

(** Double words at consecutive addresses. *)
Fixpoint store_words (base : Z) (ws : list Z) (m : Z → Z) : Z → Z :=
  match ws with
  | [] => m
  | w :: ws => store_words (addr base 8) ws (fupd base w m)
  end.
Definition word_at (base : Z) (i : nat) (m : Z → Z) : Z := m (addr base (8 * Z.of_nat i)).

(** [[sp, #-n]!] and [[sp], #n]. *)
Definition push (ws : list Z) (c : A64) : A64 :=
  let base := addr (sp c) (-8 * Z.of_nat (length ws)) in set_sp base (set_amem (store_words base ws (amem c)) c).
Definition drop_words (n : nat) (c : A64) : A64 := set_sp (addr (sp c) (8 * Z.of_nat n)) c.

(** The halves of a vector register. *)
Definition q_words (v : Z) : list Z := [v mod 2 ^ 64; v / 2 ^ 64].
Definition q_of (lo hi : Z) : Z := lo + hi * 2 ^ 64.

Inductive RegKind : Type := Xreg | Qreg.
Inductive PairOp : Type := Stp | Ldp.
Inductive AInstr : Type :=
| Pair (op : PairOp) (k : RegKind) (a b : nat)
| Mrs (rd : nat) (r : SysReg)
| Msr (r : SysReg) (rs : nat)
| MovX (rd rs : nat)
| MovFromSp (rd : nat)
| MovToSp (rs : nat)
| SubX (rd rs : nat) (imm : Z)
| Str (rt base : nat) (off : Z)
| Ldr (rt base : nat) (off : Z)
| Bl
| Eret
| Ret.

Section Exec.
Context (handler : A64 → A64).

Definition aexec (i : AInstr) (c : A64) : A64 :=
  match i with
  | Pair Stp Xreg a b => push [xr c a; xr c b] c
  | Pair Stp Qreg a b => push (q_words (qr c a) ++ q_words (qr c b)) c
  | Pair Ldp Xreg a b => drop_words 2 (set_x b (word_at (sp c) 1 (amem c)) (set_x a (word_at (sp c) 0 (amem c)) c))
  | Pair Ldp Qreg a b =>
      drop_words 4 (set_q b (q_of (word_at (sp c) 2 (amem c)) (word_at (sp c) 3 (amem c)))
        (set_q a (q_of (word_at (sp c) 0 (amem c)) (word_at (sp c) 1 (amem c))) c))
  | Mrs rd r => set_x rd (sysr c r) c
  | Msr r rs => set_sys r (xr c rs) c
  | MovX rd rs => set_x rd (xr c rs) c
  | MovFromSp rd => set_x rd (sp c) c
  | MovToSp rs => set_sp (xr c rs) c
  | SubX rd rs imm => set_x rd ((xr c rs - imm) mod 2 ^ 64) c
  | Str rt base off => set_amem (fupd (addr (xr c base) off) (xr c rt) (amem c)) c
  | Ldr rt base off => set_x rt (amem c (addr (xr c base) off)) c
  | Bl => handler c
  | Eret => mk_A64 (xr c) (qr c) (sp c) (sysr c) (amem c) (Some (sysr c ELR_EL1, sysr c SPSR_EL1))
  | Ret => mk_A64 (xr c) (qr c) (sp c) (sysr c) (amem c) (Some (xr c 30%nat, sysr c SPSR_EL1))
  end.
Definition arun (l : list AInstr) (c : A64) : A64 := foldl (λ c i, aexec i c) c l.

Lemma arun_app l1 l2 c : arun (l1 ++ l2) c = arun l2 (arun l1 c).
Proof. apply foldl_app. Qed.
End Exec.

(** ** trap.rs *)

(** [reg_op_pair]: [n] pairs from register [p0]. *)
Definition reg_op_pair (op : PairOp) (reg : RegKind) (p0 n : nat) (reverse : bool) : list AInstr :=
  let ls := (λ i, Pair op reg (p0 + 2 * i) (S (p0 + 2 * i))) <$> seq 0 n in
  if reverse then list.reverse ls else ls.

Definition ctx_store_x_q (is_fp : bool) : list AInstr :=
  reg_op_pair Stp Xreg 1 15 true ++ [Mrs 9 SPSR_EL1; Pair Stp Xreg 9 0] ++
  if is_fp then reg_op_pair Stp Qreg 0 16 true ++ [Mrs 9 FPCR; Mrs 10 FPSR; Pair Stp Xreg 9 10] else [].

Definition ctx_restore_x_q (is_fp : bool) : list AInstr :=
  (if is_fp then [Pair Ldp Xreg 9 10; Msr FPCR 9; Msr FPSR 10] ++ reg_op_pair Ldp Qreg 0 16 false else []) ++
  [Pair Ldp Xreg 9 0; Msr SPSR_EL1 9] ++ reg_op_pair Ldp Xreg 1 15 false.

Definition trap_store_regs (is_fp : bool) : list AInstr :=
  ctx_store_x_q is_fp ++ [Mrs 10 ELR_EL1; MovFromSp 9; SubX 9 9 0x10; Pair Stp Xreg 9 10].
Definition trap_restore_regs (is_fp : bool) : list AInstr :=
  [Pair Ldp Xreg 0 10; Msr ELR_EL1 10] ++ ctx_restore_x_q is_fp.

(** [__trap_handle_irq]. *)
Definition trap_handle_irq (is_fp : bool) : list AInstr :=
  trap_store_regs is_fp ++ [MovFromSp 0; Bl] ++ trap_restore_regs is_fp ++ [Eret].

(** [tcb_switch], with the offsets it is given. *)
Definition tcb_switch (sp_addr lr_addr pc_addr : Z) (is_fp : bool) : list AInstr :=
  ctx_store_x_q is_fp ++
  [MovX 10 30; MovFromSp 9; SubX 9 9 0x10; Pair Stp Xreg 9 10;
   MovFromSp 8; Str 8 0 sp_addr; Ldr 9 8 lr_addr; Str 9 8 pc_addr; Ldr 8 1 sp_addr; MovToSp 8;
   Pair Ldp Xreg 9 30] ++
  ctx_restore_x_q is_fp ++ [Ret].

(** ** context.rs: [Context] as double words
    [sp] and [pc], the floating-point registers, [spsr], [x] and [lr]. *)
Definition x_words (x : nat → Z) : list Z := x <$> seq 0 31.
Definition fp_words (c : A64) : list Z := [sysr c FPCR; sysr c FPSR] ++ (seq 0 32 ≫= λ n, q_words (qr c n)).
Definition base_words (is_fp : bool) (c : A64) : list Z :=
  (if is_fp then fp_words c else []) ++ [sysr c SPSR_EL1] ++ x_words (xr c).
Definition Context (is_fp : bool) (sp_ pc : Z) (c : A64) : list Z := [sp_; pc] ++ base_words is_fp c.
Definition context_words (is_fp : bool) : nat := if is_fp then 100 else 34.

Example context_length is_fp sp_ pc c : length (Context is_fp sp_ pc c) = context_words is_fp.
Proof. by destruct is_fp. Qed.

(** ** Double words on the stack *)

Definition words_at (m : Z → Z) (base : Z) (l : list Z) : Prop := ∀ i w, l !! i = Some w → word_at base i m = w.
(** [a] is one of the [n] double words from [base]. *)
Definition in_words (base : Z) (n : nat) (a : Z) : Prop := ∃ i, (i < n)%nat ∧ a = addr base (8 * Z.of_nat i).

Lemma word_at_addr b n i m : word_at (addr b (8 * Z.of_nat n)) i m = word_at b (n + i) m.
Proof. unfold word_at. rewrite addr_addr. do 2 f_equal. lia. Qed.

Lemma words_at_app m base l1 l2 : words_at m base (l1 ++ l2) ↔ words_at m base l1 ∧ words_at m (addr base (8 * Z.of_nat (length l1))) l2.
Proof.
  split.
  - intros Hw. split; intros i w Hi; [by apply Hw, lookup_app_l_Some|]. rewrite word_at_addr. apply Hw.
    rewrite lookup_app_r by lia. by replace (length l1 + i - length l1)%nat with i by lia.
  - intros [H1 H2] i w [Hi|[Hle Hi]]%lookup_app_Some; [by apply H1|].
    rewrite <- (H2 _ _ Hi), word_at_addr. f_equal. lia.
Qed.

Lemma words_at_ext m m' base l : (∀ a, in_words base (length l) a → m' a = m a) → words_at m base l → words_at m' base l.
Proof. intros He Hw i w Hi. rewrite <- (Hw i w Hi). apply He. exists i. split; [by eapply lookup_lt_Some|done]. Qed.

Lemma in_words_S base n a : in_words (addr base 8) n a → in_words base (S n) a.
Proof. intros (i & Hi & ->). exists (S i). split; [lia|]. rewrite addr_addr. f_equal. lia. Qed.

Lemma store_words_out ws : ∀ base m a, 0 ≤ base < 2 ^ 64 → ¬ in_words base (length ws) a → store_words base ws m a = m a.
Proof.
  induction ws as [|w ws IH]; intros base m a Hb Ha; [done|]. simpl. rewrite IH; [|apply addr_range|by intros ?%in_words_S].
  apply fupd_other. intros <-. apply Ha. exists 0%nat. split; [simpl; lia|]. by rewrite addr_0.
Qed.

Lemma store_words_at ws : ∀ base m, 0 ≤ base < 2 ^ 64 → 8 * Z.of_nat (length ws) < 2 ^ 63 → words_at (store_words base ws m) base ws.
Proof.
  induction ws as [|w ws IH]; intros base m Hb Hl; [by intros [|i] w|]. intros [|i] w' Hi; simpl in Hl.
  - injection Hi as <-. unfold word_at. simpl. rewrite addr_0 by done. rewrite store_words_out; [apply fupd_same|apply addr_range|].
    intros (i & Hi & E). rewrite addr_addr in E. rewrite <- (addr_0 base Hb) in E at 1.
    apply addr_inj in E; unfold offset_ok; lia.
  - simpl. assert (8 * Z.of_nat (length ws) < 2 ^ 63) as Hl' by lia.
    pose proof (IH (addr base 8) (fupd base w m) (addr_range _ _) Hl' i w' Hi) as E.
    rewrite <- E. unfold word_at. rewrite addr_addr. do 2 f_equal. lia.
Qed.

Lemma push_spec ws l c : words_at (amem c) (sp c) l → 8 * Z.of_nat (length ws + length l) < 2 ^ 63 →
  0 ≤ sp c < 2 ^ 64 → words_at (amem (push ws c)) (sp (push ws c)) (ws ++ l).
Proof.
  intros Hw Hl Hsp. unfold push. cbn [sp amem set_sp set_amem]. set (base := addr (sp c) (-8 * Z.of_nat (length ws))).
  assert (addr base (8 * Z.of_nat (length ws)) = sp c) as Eb.
  { unfold base. rewrite addr_addr. replace (-8 * Z.of_nat (length ws) + 8 * Z.of_nat (length ws)) with 0 by lia. by apply addr_0. }
  apply words_at_app. split; [apply store_words_at; [apply addr_range|lia]|]. rewrite Eb.
  apply (words_at_ext (amem c)); [|done]. intros a (i & Hi & ->). apply store_words_out; [apply addr_range|].
  intros (j & Hj & E). rewrite <- Eb, addr_addr in E. apply addr_inj in E; unfold offset_ok; lia.
Qed.

(** What pushing leaves alone. *)
Record pushed (n : nat) (c c' : A64) : Prop := {
  pu_sp : sp c' = addr (sp c) (-8 * Z.of_nat n);
  pu_q : qr c' = qr c;
  pu_sys : sysr c' = sysr c;
  pu_went : went c' = went c;
  pu_mem a : ¬ in_words (addr (sp c) (-8 * Z.of_nat n)) n a → amem c' a = amem c a
}.

Lemma pushed_push ws c : pushed (length ws) c (push ws c).
Proof. split; try done. intros a Ha. apply store_words_out; [apply addr_range|done]. Qed.

Lemma in_words_below b n k a : in_words (addr b (-8 * Z.of_nat n)) n a → in_words (addr b (-8 * Z.of_nat (n + k))) (n + k) a.
Proof. intros (i & Hi & ->). exists (i + k)%nat. split; [lia|]. rewrite !addr_addr. f_equal. lia. Qed.
Lemma in_words_top b n k a : in_words (addr b (-8 * Z.of_nat (n + k))) k a → in_words (addr b (-8 * Z.of_nat (n + k))) (n + k) a.
Proof. intros (i & Hi & ->). exists i. split; [lia|done]. Qed.

Lemma pushed_trans n k c c1 c2 : pushed n c c1 → pushed k c1 c2 → pushed (n + k) c c2.
Proof.
  intros [S1 Q1 Y1 W1 M1] [S2 Q2 Y2 W2 M2].
  assert (addr (sp c1) (-8 * Z.of_nat k) = addr (sp c) (-8 * Z.of_nat (n + k))) as Eb by (rewrite S1, addr_addr; f_equal; lia).
  split; [congruence..|]. intros a Ha. rewrite M2, M1; [done| |].
  - by intros ?%(in_words_below _ _ k).
  - rewrite Eb. by intros ?%in_words_top.
Qed.

(** ** Many registers *)

(** The words of the registers from [p], two by two. *)
Definition pair_words (k : RegKind) (c : A64) (p : nat) : list Z :=
  match k with Xreg => [xr c p; xr c (S p)] | Qreg => q_words (qr c p) ++ q_words (qr c (S p)) end.
Definition kind_words (k : RegKind) : nat := match k with Xreg => 2 | Qreg => 4 end.
Definition pairs_from (p0 n : nat) : list nat := (λ i, p0 + 2 * i)%nat <$> seq 0 n.

Lemma pair_words_length k c p : length (pair_words k c p) = kind_words k.
Proof. by destruct k. Qed.
Lemma pairs_words_length k c ps : length (ps ≫= pair_words k c) = (length ps * kind_words k)%nat.
Proof. induction ps as [|p ps IH]; [done|]. rewrite bind_cons, length_app, IH, pair_words_length. simpl. lia. Qed.
Lemma reg_op_pair_eq op k p0 n b :
  reg_op_pair op k p0 n b = let ls := (λ p, Pair op k p (S p)) <$> pairs_from p0 n in if b then reverse ls else ls.
Proof. unfold reg_op_pair, pairs_from. by rewrite <- list_fmap_compose. Qed.

(** A machine below whose stack pointer [n] words have been pushed since [c0], in front of [l]. *)
Record stacked (n : nat) (l : list Z) (c0 c : A64) : Prop := {
  st_pushed : pushed n c0 c;
  st_words : words_at (amem c) (sp c) l;
  st_len : length l = n
}.

Section Pushes.
Context (handler : A64 → A64).
Notation run := (arun handler).

Lemma sp_range c c0 n : pushed n c0 c → 0 ≤ sp c < 2 ^ 64.
Proof. intros Hp. rewrite (pu_sp _ _ _ Hp). apply addr_range. Qed.

Lemma push_stacked n l c0 c ws : stacked n l c0 c → 8 * Z.of_nat (n + length ws) < 2 ^ 63 →
  stacked (n + length ws) (ws ++ l) c0 (push ws c).
Proof.
  intros [Hp Hw Hl] Hs. split.
  - eapply pushed_trans; [done|]. apply pushed_push.
  - apply push_spec; [done|lia|by eapply sp_range].
  - rewrite length_app. lia.
Qed.

(** A scratch register changes. *)
Lemma set_x_stacked n l c0 c r v : stacked n l c0 c → stacked n l c0 (set_x r v c).
Proof. intros [[] ? ?]. by split; [split|..]. Qed.

Lemma push_pairs_run k ps n l c0 : ∀ c, stacked n l c0 c → 8 * Z.of_nat (n + length ps * kind_words k) < 2 ^ 63 →
  let c' := run (reverse ((λ p, Pair Stp k p (S p)) <$> ps)) c in
  stacked (n + length ps * kind_words k) ((ps ≫= pair_words k c) ++ l) c0 c' ∧ xr c' = xr c ∧ qr c' = qr c.
Proof.
  induction ps as [|p ps IH]; intros c Hc Hs c'.
  - split; [|done]. by rewrite Nat.add_0_r.
  - unfold c'. rewrite fmap_cons, reverse_cons, arun_app. simpl in Hs.
    destruct (IH c Hc ltac:(lia)) as (Hst & Ex & Eq). revert Hst Ex Eq. clear c' IH.
    change (fmap (λ p, Pair Stp k p (S p)) ps) with ((λ p, Pair Stp k p (S p)) <$> ps).
    match goal with |- context [stacked _ _ _ ?r] => generalize r end. intros c1 Hst Ex Eq.
    assert (run [Pair Stp k p (S p)] c1 = push (pair_words k c p) c1) as ->.
    { unfold arun, pair_words. destruct k; cbn [foldl aexec]; by rewrite ?Ex, ?Eq. }
    pose proof (push_stacked _ _ _ _ (pair_words k c p) Hst) as Hp. rewrite pair_words_length in Hp.
    split; [|done]. replace (n + length (p :: ps) * kind_words k)%nat with (n + length ps * kind_words k + kind_words k)%nat by (simpl; lia).
    rewrite bind_cons, <- app_assoc. apply Hp. simpl. lia.
Qed.
End Pushes.

Definition file (k : RegKind) (c : A64) : nat → Z := match k with Xreg => xr c | Qreg => qr c end.
Definition other (k : RegKind) : RegKind := match k with Xreg => Qreg | Qreg => Xreg end.
Definition both (p : nat) : list nat := [p; S p].
Definition q_ok (c : A64) : Prop := ∀ r, 0 ≤ qr c r < 2 ^ 128.

(** What popping leaves alone. *)
Record popped (n : nat) (c c' : A64) : Prop := {
  po_sp : sp c' = addr (sp c) (8 * Z.of_nat n);
  po_sys : sysr c' = sysr c;
  po_mem : amem c' = amem c;
  po_went : went c' = went c
}.

Lemma popped_trans n k c c1 c2 : popped n c c1 → popped k c1 c2 → popped (n + k) c c2.
Proof.
  intros [S1 Y1 M1 W1] [S2 Y2 M2 W2]. split; [|congruence..]. rewrite S2, S1, addr_addr. f_equal. lia.
Qed.

Lemma q_back v : 0 ≤ v < 2 ^ 128 → q_of (v mod 2 ^ 64) (v / 2 ^ 64) = v.
Proof. intros _. unfold q_of. pose proof (Z.div_mod v (2 ^ 64) ltac:(lia)). lia. Qed.

Lemma fupd2 (f g : nat → Z) p : fupd (S p) (g (S p)) (fupd p (g p) f) p = g p ∧
  fupd (S p) (g (S p)) (fupd p (g p) f) (S p) = g (S p) ∧
  ∀ r, r ≠ p → r ≠ S p → fupd (S p) (g (S p)) (fupd p (g p) f) r = f r.
Proof.
  split_and!; [rewrite fupd_other by lia; apply fupd_same|apply fupd_same|]. intros r H1 H2. by rewrite !fupd_other by done.
Qed.

Section Pops.
Context (handler : A64 → A64) (c0 : A64) (Hq : q_ok c0).
Notation run := (arun handler).

Lemma pop_one_run k p l c : words_at (amem c) (sp c) (pair_words k c0 p ++ l) →
  let c' := aexec handler (Pair Ldp k p (S p)) c in
  popped (kind_words k) c c' ∧ words_at (amem c') (sp c') l ∧ file (other k) c' = file (other k) c ∧
  file k c' = fupd (S p) (file k c0 (S p)) (fupd p (file k c0 p) (file k c)).
Proof.
  intros [Hw Hl]%words_at_app. rewrite pair_words_length in Hl.
  destruct k; cbn [aexec]; (split; [by split|split; [exact Hl|split; [done|]]]); cbn [file set_x set_q drop_words set_sp xr qr amem sp].
  - by rewrite (Hw 0%nat _ eq_refl), (Hw 1%nat _ eq_refl).
  - rewrite (Hw 0%nat _ eq_refl), (Hw 1%nat _ eq_refl), (Hw 2%nat _ eq_refl), (Hw 3%nat _ eq_refl).
    by rewrite !q_back by apply Hq.
Qed.

Lemma pop_pairs_run k ps l : ∀ c, 0 ≤ sp c < 2 ^ 64 → words_at (amem c) (sp c) ((ps ≫= pair_words k c0) ++ l) →
  let c' := run ((λ p, Pair Ldp k p (S p)) <$> ps) c in
  popped (length ps * kind_words k) c c' ∧ words_at (amem c') (sp c') l ∧ file (other k) c' = file (other k) c ∧
  (∀ r, r ∈ (ps ≫= both) → file k c' r = file k c0 r) ∧ (∀ r, r ∉ (ps ≫= both) → file k c' r = file k c r).
Proof.
  induction ps as [|p ps IH]; intros c Hsp Hw.
  - split; [split; [|done..]; by rewrite addr_0|]. split; [done|]. split; [done|]. split; [|done]. by intros r ?%not_elem_of_nil.
  - rewrite bind_cons, <- app_assoc in Hw. destruct (pop_one_run k p _ c Hw) as (Hp & Hw' & Eo & Ef).
    rewrite fmap_cons. change (run (?i :: ?is_) c) with (run is_ (aexec handler i c)).
    revert Hp Hw' Eo Ef. generalize (aexec handler (Pair Ldp k p (S p)) c). intros c1 Hp Hw' Eo Ef.
    assert (0 ≤ sp c1 < 2 ^ 64) as Hsp1 by (rewrite (po_sp _ _ _ Hp); apply addr_range).
    destruct (IH c1 Hsp1 Hw') as (Hps & Hws & Eos & Hin & Hout).
    destruct (fupd2 (file k c) (file k c0) p) as (F1 & F2 & F3). rewrite <- Ef in F1, F2, F3.
    split; [|split; [done|split; [congruence|]]].
    { simpl. by eapply popped_trans. }
    setoid_rewrite bind_cons. split; intros r.
    + intros Hr. destruct (decide (r ∈ ps ≫= both)); [by apply Hin|]. rewrite Hout by done.
      apply elem_of_app in Hr as [Hr|Hr]; [|done]. unfold both in Hr. apply elem_of_cons in Hr as [->|Hr]; [done|].
      by apply list_elem_of_singleton in Hr as ->.
    + intros [Hr Hr']%not_elem_of_app. apply not_elem_of_cons in Hr as [H1 [H2 _]%not_elem_of_cons].
      rewrite Hout by done. by apply F3.
Qed.
End Pops.

(** ** Saving and restoring a context *)

Lemma pair_words_ext k c c' p : file k c = file k c' → pair_words k c p = pair_words k c' p.
Proof. destruct k; simpl; by intros ->. Qed.
Lemma x_pairs_words c : [sysr c SPSR_EL1; xr c 0%nat] ++ (pairs_from 1 15 ≫= pair_words Xreg c) = [sysr c SPSR_EL1] ++ x_words (xr c).
Proof. reflexivity. Qed.
Lemma q_pairs_words c : (pairs_from 0 16 ≫= pair_words Qreg c) = seq 0 32 ≫= λ n, q_words (qr c n).
Proof. reflexivity. Qed.

Section Ctx.
Context (handler : A64 → A64).
Notation run := (arun handler).

Lemma ctx_store_run is_fp c0 : 0 ≤ sp c0 < 2 ^ 64 → let c := run (ctx_store_x_q is_fp) c0 in
  stacked (length (base_words is_fp c0)) (base_words is_fp c0) c0 c ∧ qr c = qr c0 ∧ ∀ r, r ≠ 9%nat → r ≠ 10%nat → xr c r = xr c0 r.
Proof.
  intros Hsp. unfold ctx_store_x_q. rewrite !reg_op_pair_eq. cbv zeta. cbn iota. rewrite arun_app, arun_app.
  assert (stacked 0 [] c0 c0) as H0.
  { split; [split; [by rewrite addr_0|done..]|by intros i w ?|done]. }
  destruct (push_pairs_run handler Xreg (pairs_from 1 15) 0 [] c0 c0 H0 ltac:(by vm_compute)) as (H1 & Ex & Eq).
  rewrite app_nil_r in H1. revert H1 Ex Eq. generalize (arun handler (reverse ((λ p, Pair Stp Xreg p (S p)) <$> pairs_from 1 15)) c0).
  intros c1 H1 Ex Eq.
  assert (run [Mrs 9 SPSR_EL1; Pair Stp Xreg 9 0] c1 = push [sysr c0 SPSR_EL1; xr c0 0%nat] (set_x 9 (sysr c0 SPSR_EL1) c1)) as E2.
  { unfold arun. cbn [foldl aexec set_x xr]. rewrite fupd_same, (fupd_other 9%nat 0%nat) by done. by rewrite Ex, (pu_sys _ _ _ (st_pushed _ _ _ _ H1)). }
  rewrite E2. pose proof (push_stacked _ _ _ _ [sysr c0 SPSR_EL1; xr c0 0%nat] (set_x_stacked _ _ _ _ 9 (sysr c0 SPSR_EL1) H1) ltac:(by vm_compute)) as H2.
  rewrite x_pairs_words in H2. clear E2 H1.
  assert (∀ r, r ≠ 9%nat → xr (push [sysr c0 SPSR_EL1; xr c0 0%nat] (set_x 9 (sysr c0 SPSR_EL1) c1)) r = xr c0 r) as Ex2.
  { intros r Hr. cbn [push set_sp set_amem set_x xr]. rewrite fupd_other by done. by rewrite Ex. }
  assert (qr (push [sysr c0 SPSR_EL1; xr c0 0%nat] (set_x 9 (sysr c0 SPSR_EL1) c1)) = qr c0) as Eq2 by exact Eq.
  revert H2 Ex2 Eq2. generalize (push [sysr c0 SPSR_EL1; xr c0 0%nat] (set_x 9 (sysr c0 SPSR_EL1) c1)). clear Ex Eq c1. intros c2 H2 Ex Eq.
  destruct is_fp; [|split; [exact H2|]; split; [exact Eq|by auto]].
  rewrite arun_app. destruct (push_pairs_run handler Qreg (pairs_from 0 16) _ _ c0 c2 H2 ltac:(by vm_compute)) as (H3 & Ex3 & Eq3).
  assert ((pairs_from 0 16 ≫= pair_words Qreg c2) = pairs_from 0 16 ≫= pair_words Qreg c0) as Ew.
  { apply list_bind_ext; [|done]. intros p. by apply pair_words_ext. }
  rewrite Ew, q_pairs_words in H3. rewrite Eq in Eq3. clear Ew.
  assert (∀ r, r ≠ 9%nat → xr (arun handler (reverse ((λ p, Pair Stp Qreg p (S p)) <$> pairs_from 0 16)) c2) r = xr c0 r) as Ex4.
  { intros r Hr. rewrite Ex3. by apply Ex. }
  revert H3 Ex4 Eq3. generalize (arun handler (reverse ((λ p, Pair Stp Qreg p (S p)) <$> pairs_from 0 16)) c2). clear Ex3 Ex Eq H2 c2. intros c3 H3 Ex Eq.
  assert (run [Mrs 9 FPCR; Mrs 10 FPSR; Pair Stp Xreg 9 10] c3 = push [sysr c0 FPCR; sysr c0 FPSR] (set_x 10 (sysr c0 FPSR) (set_x 9 (sysr c0 FPCR) c3))) as ->.
  { unfold arun. cbn [foldl aexec set_x xr sysr]. rewrite !fupd_same, (fupd_other 10%nat 9%nat), fupd_same by done. by rewrite (pu_sys _ _ _ (st_pushed _ _ _ _ H3)). }
  pose proof (push_stacked _ _ _ _ [sysr c0 FPCR; sysr c0 FPSR] (set_x_stacked _ _ _ _ 10 (sysr c0 FPSR) (set_x_stacked _ _ _ _ 9 (sysr c0 FPCR) H3)) ltac:(by vm_compute)) as H4.
  split; [exact H4|]. split; [exact Eq|]. intros r H9 H10. cbn [push set_sp set_amem set_x xr]. rewrite !fupd_other by done. by apply Ex.
Qed.

Lemma ldp_run a b w1 w2 l c : words_at (amem c) (sp c) ([w1; w2] ++ l) →
  aexec handler (Pair Ldp Xreg a b) c = drop_words 2 (set_x b w2 (set_x a w1 c)) ∧
  words_at (amem (drop_words 2 (set_x b w2 (set_x a w1 c)))) (sp (drop_words 2 (set_x b w2 (set_x a w1 c)))) l.
Proof.
  intros [Hw Hl]%words_at_app. split; [|exact Hl]. cbn [aexec]. by rewrite (Hw 0%nat _ eq_refl), (Hw 1%nat _ eq_refl).
Qed.

(** The machine [c'] has the context of [c0] that [c] had on its stack. *)
Record restored (is_fp : bool) (c0 c c' : A64) : Prop := {
  re_sp : sp c' = addr (sp c) (8 * Z.of_nat (length (base_words is_fp c0)));
  re_mem : amem c' = amem c;
  re_went : went c' = went c;
  re_spsr : sysr c' SPSR_EL1 = sysr c0 SPSR_EL1;
  re_elr : sysr c' ELR_EL1 = sysr c ELR_EL1;
  re_x r : (r ≤ 30)%nat → xr c' r = xr c0 r;
  re_fp r : (r < 32)%nat → qr c' r = if is_fp then qr c0 r else qr c r;
  re_fpcr : sysr c' FPCR = if is_fp then sysr c0 FPCR else sysr c FPCR;
  re_fpsr : sysr c' FPSR = if is_fp then sysr c0 FPSR else sysr c FPSR
}.

(** The floating-point part. *)
Lemma fp_restore_run c0 c l : q_ok c0 → words_at (amem c) (sp c) (fp_words c0 ++ l) →
  let c' := run ([Pair Ldp Xreg 9 10; Msr FPCR 9; Msr FPSR 10] ++ reg_op_pair Ldp Qreg 0 16 false) c in
  sp c' = addr (sp c) (8 * 66) ∧ amem c' = amem c ∧ went c' = went c ∧ words_at (amem c') (sp c') l ∧
  sysr c' = fupd FPSR (sysr c0 FPSR) (fupd FPCR (sysr c0 FPCR) (sysr c)) ∧ ∀ r, (r < 32)%nat → qr c' r = qr c0 r.
Proof.
  intros Hq Hw. cbv zeta. rewrite arun_app, reg_op_pair_eq. cbv zeta. cbn iota. unfold fp_words in Hw. rewrite <- app_assoc in Hw.
  destruct (ldp_run 9 10 _ _ _ c Hw) as [E Hw1].
  change (arun handler [Pair Ldp Xreg 9 10; Msr FPCR 9; Msr FPSR 10] c) with
    (aexec handler (Msr FPSR 10) (aexec handler (Msr FPCR 9) (aexec handler (Pair Ldp Xreg 9 10) c))). rewrite E. clear E.
  set (c1 := drop_words 2 _) in Hw1 |- *. set (c2 := aexec handler (Msr FPSR 10) _).
  assert (sp c2 = addr (sp c) 16 ∧ amem c2 = amem c ∧ went c2 = went c ∧ sysr c2 = fupd FPSR (sysr c0 FPSR) (fupd FPCR (sysr c0 FPCR) (sysr c))) as (Es & Em & Ewt & Ey).
  { by split_and!. }
  change (amem c1) with (amem c2) in Hw1. change (sp c1) with (sp c2) in Hw1. clearbody c2. clear c1.
  rewrite <- q_pairs_words in Hw1.
  destruct (pop_pairs_run handler c0 Hq Qreg (pairs_from 0 16) l c2 ltac:(rewrite Es; apply addr_range) Hw1) as (Hp & Hl & _ & Hin & _).
  destruct Hp as [Ps Py Pm Pw]. split; [rewrite Ps, Es, addr_addr; reflexivity|]. split; [congruence|]. split; [congruence|]. split; [exact Hl|].
  split; [congruence|]. intros r Hr. apply Hin.
  assert (Forall (λ r, r ∈ (pairs_from 0 16 ≫= both)) (seq 0 32)) as Hall by decide_now.
  apply (proj1 (Forall_forall _ _) Hall r). apply elem_of_seq. lia.
Qed.

Lemma x_restore_run c0 c l : q_ok c0 → words_at (amem c) (sp c) (([sysr c0 SPSR_EL1] ++ x_words (xr c0)) ++ l) →
  let c' := run ([Pair Ldp Xreg 9 0; Msr SPSR_EL1 9] ++ reg_op_pair Ldp Xreg 1 15 false) c in
  sp c' = addr (sp c) (8 * 32) ∧ amem c' = amem c ∧ went c' = went c ∧ qr c' = qr c ∧
  sysr c' = fupd SPSR_EL1 (sysr c0 SPSR_EL1) (sysr c) ∧ ∀ r, (r ≤ 30)%nat → xr c' r = xr c0 r.
Proof.
  intros Hq Hw. cbv zeta. rewrite arun_app, reg_op_pair_eq. cbv zeta. cbn iota. rewrite <- x_pairs_words, <- app_assoc in Hw.
  destruct (ldp_run 9 0 _ _ _ c Hw) as [E Hw1].
  change (arun handler [Pair Ldp Xreg 9 0; Msr SPSR_EL1 9] c) with (aexec handler (Msr SPSR_EL1 9) (aexec handler (Pair Ldp Xreg 9 0) c)).
  rewrite E. clear E. set (c1 := drop_words 2 _) in Hw1 |- *. set (c2 := aexec handler (Msr SPSR_EL1 9) _).
  assert (sp c2 = addr (sp c) 16 ∧ amem c2 = amem c ∧ went c2 = went c ∧ qr c2 = qr c ∧
    sysr c2 = fupd SPSR_EL1 (sysr c0 SPSR_EL1) (sysr c) ∧ xr c2 0%nat = xr c0 0%nat) as (Es & Em & Ewt & Eq & Ey & Ex0).
  { by split_and!. }
  change (amem c1) with (amem c2) in Hw1. change (sp c1) with (sp c2) in Hw1. clearbody c2. clear c1.
  destruct (pop_pairs_run handler c0 Hq Xreg (pairs_from 1 15) l c2 ltac:(rewrite Es; apply addr_range) Hw1) as (Hp & Hl & Eo & Hin & Hout).
  destruct Hp as [Ps Py Pm Pw]. split; [rewrite Ps, Es, addr_addr; reflexivity|]. split; [congruence|]. split; [congruence|]. split; [exact (eq_trans Eo Eq)|].
  split; [congruence|]. intros r Hr. destruct (decide (r = 0%nat)) as [->|Hne].
  - rewrite <- Ex0. apply Hout. decide_now.
  - apply Hin. assert (Forall (λ r, r ∈ (pairs_from 1 15 ≫= both)) (seq 1 30)) as Hall by decide_now.
    apply (proj1 (Forall_forall _ _) Hall r). apply elem_of_seq. lia.
Qed.

Lemma ctx_restore_run is_fp c0 c l : q_ok c0 → words_at (amem c) (sp c) (base_words is_fp c0 ++ l) →
  restored is_fp c0 c (run (ctx_restore_x_q is_fp) c).
Proof.
  intros Hq Hw. unfold ctx_restore_x_q. rewrite arun_app. unfold base_words in Hw. rewrite <- app_assoc in Hw. destruct is_fp.
  - destruct (fp_restore_run c0 c _ Hq Hw) as (Es & Em & Ewt & Hw1 & Ey & Eq). cbv zeta in *.
    revert Es Em Ewt Hw1 Ey Eq. generalize (run ([Pair Ldp Xreg 9 10; Msr FPCR 9; Msr FPSR 10] ++ reg_op_pair Ldp Qreg 0 16 false) c).
    intros c1 Es Em Ewt Hw1 Ey Eq. destruct (x_restore_run c0 c1 l Hq Hw1) as (Es2 & Em2 & Ewt2 & Eq2 & Ey2 & Ex). cbv zeta in *.
    split; rewrite ?Ey2, ?Ey, ?Em2, ?Ewt2, ?Eq2, ?Es2, ?Es; try done. rewrite addr_addr. reflexivity.
  - change (run [] c) with c. destruct (x_restore_run c0 c l Hq Hw) as (Es2 & Em2 & Ewt2 & Eq2 & Ey2 & Ex). cbv zeta in *.
    split; rewrite ?Ey2, ?Em2, ?Ewt2, ?Eq2, ?Es2; try done.
Qed.
End Ctx.

(** ** Traps *)

(** What is asked of a handler: it gives the stack pointer back and does not
    write to the context it is lent. *)
Definition keeps_context (is_fp : bool) (handler : A64 → A64) : Prop :=
  ∀ c, sp (handler c) = sp c ∧ ∀ a, in_words (sp c) (context_words is_fp) a → amem (handler c) a = amem c a.

Lemma base_words_length is_fp c : (2 + length (base_words is_fp c))%nat = context_words is_fp.
Proof. by destruct is_fp. Qed.

(** The last pair completes the context; the field [sp] is its own address. *)
Lemma last_push_run handler is_fp c0 c pc (is_ : list AInstr) : 0 ≤ sp c0 < 2 ^ 64 →
  stacked (length (base_words is_fp c0)) (base_words is_fp c0) c0 c →
  arun handler is_ c = set_x 10 pc c →
  let c' := arun handler (is_ ++ [MovFromSp 9; SubX 9 9 0x10; Pair Stp Xreg 9 10]) c in
  stacked (context_words is_fp) (Context is_fp (sp c') pc c0) c0 c' ∧ qr c' = qr c ∧ ∀ r, r ≠ 9%nat → r ≠ 10%nat → xr c' r = xr c r.
Proof.
  intros Hsp Hst Ei c'. set (w := (sp c - 0x10) mod 2 ^ 64).
  assert (c' = push [w; pc] (set_x 9 w (set_x 9 (sp c) (set_x 10 pc c)))) as Ec.
  { unfold c'. rewrite arun_app, Ei. unfold arun. cbn [foldl aexec set_x xr sp]. fold w. by rewrite !fupd_same, !(fupd_other 9%nat 10%nat), fupd_same by done. }
  assert (sp c' = w) as Es by (rewrite Ec; reflexivity). rewrite Es. clearbody c'. subst c'.
  pose proof (push_stacked _ _ _ _ [w; pc] (set_x_stacked _ _ _ _ 9 w (set_x_stacked _ _ _ _ 9 (sp c) (set_x_stacked _ _ _ _ 10 pc Hst)))) as Hp.
  split; [|split; [done|]].
  - rewrite <- (base_words_length is_fp c0), Nat.add_comm. apply Hp. by destruct is_fp.
  - intros r H9 H10. cbn [push set_sp set_amem set_x xr]. by rewrite !fupd_other by done.
Qed.

Lemma trap_store_run handler is_fp c0 : 0 ≤ sp c0 < 2 ^ 64 → let c := arun handler (trap_store_regs is_fp) c0 in
  stacked (context_words is_fp) (Context is_fp (sp c) (sysr c0 ELR_EL1) c0) c0 c ∧ qr c = qr c0.
Proof.
  intros Hsp. unfold trap_store_regs. rewrite arun_app. destruct (ctx_store_run handler is_fp c0 Hsp) as (Hst & Eq & _). cbv zeta in *.
  revert Hst Eq. generalize (arun handler (ctx_store_x_q is_fp) c0). intros c Hst Eq.
  destruct (last_push_run handler is_fp c0 c (sysr c0 ELR_EL1) [Mrs 10 ELR_EL1] Hsp Hst) as (H1 & Eq1 & _).
  { unfold arun. cbn [foldl aexec]. by rewrite (pu_sys _ _ _ (st_pushed _ _ _ _ Hst)). }
  split; [exact H1|exact (eq_trans Eq1 Eq)].
Qed.

(** C22: A trap on AArch64 is transparent, with and without floating-point
    registers: the handler gets in [x0] the address of a [Context] with every
    register, the status and the program counter as they were; and whatever it
    does, as long as it keeps the stack pointer and the context, the
    interrupted code goes on where it was, with its status, its stack and every
    register as before, over the memory the handler left. *)
Theorem a64_trap_transparent is_fp (handler : A64 → A64) c0 :
  0 ≤ sp c0 < 2 ^ 64 → q_ok c0 → keeps_context is_fp handler →
  ∃ c1, let c := arun handler (trap_handle_irq is_fp) c0 in
    xr c1 0%nat = sp c1 ∧ words_at (amem c1) (xr c1 0%nat) (Context is_fp (sp c1) (sysr c0 ELR_EL1) c0) ∧
    (∀ r, (r ≤ 30)%nat → xr c r = xr c0 r) ∧ sp c = sp c0 ∧
    went c = Some (sysr c0 ELR_EL1, sysr c0 SPSR_EL1) ∧ amem c = amem (handler c1) ∧
    (is_fp = true → (∀ r, (r < 32)%nat → qr c r = qr c0 r) ∧ sysr c FPCR = sysr c0 FPCR ∧ sysr c FPSR = sysr c0 FPSR).
Proof.
  intros Hsp Hq Hh. unfold trap_handle_irq. rewrite !arun_app. destruct (trap_store_run handler is_fp c0 Hsp) as [Hst _]. cbv zeta in Hst.
  revert Hst. generalize (arun handler (trap_store_regs is_fp) c0). intros ce Hst. exists (set_x 0 (sp ce) ce). cbv zeta.
  change (arun handler [MovFromSp 0; Bl] ce) with (handler (set_x 0 (sp ce) ce)).
  destruct (Hh (set_x 0 (sp ce) ce)) as [Ehs Ehm]. cbn [set_x sp amem] in Ehs, Ehm.
  split; [apply fupd_same|]. cbn [set_x xr amem sp]. rewrite fupd_same. pose proof (st_words _ _ _ _ Hst) as Hw. split; [exact Hw|].
  revert Ehs Ehm. change (mk_A64 (fupd 0%nat (sp ce) (xr ce)) (qr ce) (sp ce) (sysr ce) (amem ce) (went ce)) with (set_x 0 (sp ce) ce).
  generalize (handler (set_x 0 (sp ce) ce)). intros c2 Ehs Ehm.
  apply (words_at_ext _ (amem c2)) in Hw; [|by rewrite (context_length is_fp)]. rewrite <- Ehs in Hw at 1. unfold Context in Hw.
  rewrite <- (app_nil_r (base_words is_fp c0)) in Hw.
  destruct (ldp_run handler 0 10 _ _ _ c2 Hw) as [E Hw3]. unfold trap_restore_regs. rewrite arun_app.
  change (arun handler [Pair Ldp Xreg 0 10; Msr ELR_EL1 10] c2) with (aexec handler (Msr ELR_EL1 10) (aexec handler (Pair Ldp Xreg 0 10) c2)).
  rewrite E. clear E. set (c3 := drop_words 2 _) in Hw3. set (c4 := aexec handler (Msr ELR_EL1 10) _).
  assert (sp c4 = addr (sp c2) 16 ∧ amem c4 = amem c2 ∧ sysr c4 ELR_EL1 = sysr c0 ELR_EL1) as (Es4 & Em4 & Ey4) by (by split_and!).
  change (amem c3) with (amem c4) in Hw3. change (sp c3) with (sp c4) in Hw3. clearbody c4. clear c3.
  destruct (ctx_restore_run handler is_fp c0 c4 [] Hq Hw3) as [Rs Rm Rw Rspsr Relr Rx Rq Rc Rr].
  revert Rs Rm Rw Rspsr Relr Rx Rq Rc Rr. generalize (arun handler (ctx_restore_x_q is_fp) c4). intros c5 Rs Rm Rw Rspsr Relr Rx Rq Rc Rr.
  change (arun handler [Eret] c5) with (mk_A64 (xr c5) (qr c5) (sp c5) (sysr c5) (amem c5) (Some (sysr c5 ELR_EL1, sysr c5 SPSR_EL1))).
  cbn [xr qr sp sysr amem went]. split; [exact Rx|]. split; [|split; [by rewrite Relr, Ey4, Rspsr|split; [congruence|]]].
  - rewrite Rs, Es4, Ehs, (pu_sp _ _ _ (st_pushed _ _ _ _ Hst)), !addr_addr, <- (base_words_length is_fp c0).
    rewrite <- (addr_0 (sp c0) Hsp) at 2. f_equal. lia.
  - intros ->. by split_and!.
Qed.

(** ** Task switches *)

Section Switch.
Context (is_fp : bool) (sp_addr : Z).

(** [offset_of!(Context, lr)] and [offset_of!(Context, pc)]. *)
Definition lr_addr : Z := 8 * Z.of_nat (context_words is_fp - 1).
Definition pc_addr : Z := 8.
Definition frame_of (c : A64) : Z := addr (sp c) (-8 * Z.of_nat (context_words is_fp)).
Definition slot_of (task : Z) : Z := addr task sp_addr.

(** The task whose control block is at [task] was switched away from in state [b]. *)
Definition suspended (m : Z → Z) (task : Z) (b : A64) : Prop :=
  m (slot_of task) = frame_of b ∧ words_at m (frame_of b) (Context is_fp (frame_of b) (xr b 30%nat) b).

(** The words a switch away from [prev] writes. *)
Definition switch_writes (c : A64) (a : Z) : Prop := in_words (frame_of c) (context_words is_fp) a ∨ a = slot_of (xr c 0%nat).

Lemma switch_store_run handler c0 : 0 ≤ sp c0 < 2 ^ 64 →
  let c := arun handler (ctx_store_x_q is_fp ++ [MovX 10 30; MovFromSp 9; SubX 9 9 0x10; Pair Stp Xreg 9 10]) c0 in
  stacked (context_words is_fp) (Context is_fp (frame_of c0) (xr c0 30%nat) c0) c0 c ∧ qr c = qr c0 ∧ ∀ r, r ≠ 9%nat → r ≠ 10%nat → xr c r = xr c0 r.
Proof.
  intros Hsp. cbv zeta. rewrite arun_app. destruct (ctx_store_run handler is_fp c0 Hsp) as (Hst & Eq & Ex). cbv zeta in *.
  revert Hst Eq Ex. generalize (arun handler (ctx_store_x_q is_fp) c0). intros c Hst Eq Ex.
  destruct (last_push_run handler is_fp c0 c (xr c0 30%nat) [MovX 10 30] Hsp Hst) as (H1 & Eq1 & Ex1).
  { unfold arun. cbn [foldl aexec]. by rewrite Ex by done. }
  rewrite (pu_sp _ _ _ (st_pushed _ _ _ _ H1)) in H1. split; [exact H1|]. split; [exact (eq_trans Eq1 Eq)|].
  intros r H9 H10. rewrite <- (Ex r H9 H10). by apply Ex1.
Qed.

(** The stack pointers change places. *)
Lemma switch_stacks handler c0 c S : stacked (context_words is_fp) (Context is_fp (frame_of c0) (xr c0 30%nat) c0) c0 c →
  xr c 0%nat = xr c0 0%nat → xr c 1%nat = xr c0 1%nat → ¬ in_words (frame_of c0) (context_words is_fp) (slot_of (xr c0 0%nat)) →
  amem c (slot_of (xr c0 1%nat)) = S → slot_of (xr c0 0%nat) ≠ slot_of (xr c0 1%nat) → ¬ in_words (frame_of c0) (context_words is_fp) (slot_of (xr c0 1%nat)) →
  let c' := arun handler [MovFromSp 8; Str 8 0 sp_addr; Ldr 9 8 lr_addr; Str 9 8 pc_addr; Ldr 8 1 sp_addr; MovToSp 8] c in
  sp c' = S ∧ (∀ a, amem c' a = fupd (slot_of (xr c0 0%nat)) (frame_of c0) (amem c) a).
Proof.
  intros Hst E0 E1 Hslot ES Hne Hslot1. pose proof (st_words _ _ _ _ Hst) as Hw. pose proof (pu_sp _ _ _ (st_pushed _ _ _ _ Hst)) as Es.
  fold (frame_of c0) in Es. rewrite Es in Hw.
  assert (amem c (addr (frame_of c0) lr_addr) = xr c0 30%nat) as Elr by (apply (Hw (context_words is_fp - 1)%nat); by destruct is_fp).
  assert (amem c (addr (frame_of c0) pc_addr) = xr c0 30%nat) as Epc by (apply (Hw 1%nat); reflexivity).
  assert (slot_of (xr c0 0%nat) ≠ addr (frame_of c0) lr_addr) as Hlr.
  { intros E. apply Hslot. exists (context_words is_fp - 1)%nat. split; [by destruct is_fp; vm_compute; lia|done]. }
  assert (addr (frame_of c0) pc_addr ≠ slot_of (xr c0 1%nat)) as Hpc1.
  { intros E. apply Hslot1. exists 1%nat. split; [by destruct is_fp; vm_compute; lia|by rewrite <- E]. }
  unfold arun. cbn [foldl aexec set_x set_amem set_sp xr qr sp sysr amem went].
  repeat first [rewrite fupd_same | rewrite (fupd_other 8%nat 0%nat) by done | rewrite (fupd_other 8%nat 1%nat) by done
    | rewrite (fupd_other 9%nat 8%nat) by done | rewrite (fupd_other 9%nat 1%nat) by done].
  rewrite E0, E1, Es. fold (slot_of (xr c0 0%nat)) (slot_of (xr c0 1%nat)). rewrite (fupd_other (slot_of (xr c0 0%nat))), Elr by done.
  rewrite (fupd_other (addr (frame_of c0) pc_addr) (slot_of _)), (fupd_other (slot_of (xr c0 0%nat))) by done. split; [done|].
  intros a. destruct (decide (addr (frame_of c0) pc_addr = a)) as [<-|]; [|by rewrite fupd_other].
  rewrite fupd_same. symmetry. destruct (decide (slot_of (xr c0 0%nat) = addr (frame_of c0) pc_addr)) as [E|]; [|by rewrite fupd_other].
  exfalso. apply Hslot. exists 1%nat. split; [by destruct is_fp; vm_compute; lia|done].
Qed.

(** C23: Switching tasks is a coroutine switch: the task that is left is
    suspended in the state it was in, and the one that is entered, suspended in
    state [b], goes on in it: with all its registers, its status, its stack and
    after its call of the switch, if the words the switch writes are not those
    of the suspended task. *)
Theorem tcb_switch_resumes handler c0 b : 0 ≤ sp c0 < 2 ^ 64 → 0 ≤ sp b < 2 ^ 64 → q_ok b →
  ¬ in_words (frame_of c0) (context_words is_fp) (slot_of (xr c0 0%nat)) →
  suspended (amem c0) (xr c0 1%nat) b → ¬ switch_writes c0 (slot_of (xr c0 1%nat)) →
  (∀ a, in_words (frame_of b) (context_words is_fp) a → ¬ switch_writes c0 a) →
  let c := arun handler (tcb_switch sp_addr lr_addr pc_addr is_fp) c0 in
  suspended (amem c) (xr c0 0%nat) c0 ∧
  (∀ r, (r ≤ 30)%nat → xr c r = xr b r) ∧ sp c = sp b ∧ went c = Some (xr b 30%nat, sysr b SPSR_EL1) ∧
  (is_fp = true → (∀ r, (r < 32)%nat → qr c r = qr b r) ∧ sysr c FPCR = sysr b FPCR ∧ sysr c FPSR = sysr b FPSR).
Proof.
  intros Hsp Hspb Hq Hslot [Hb1 Hb2] Hnext Hfree. cbv zeta.
  assert (tcb_switch sp_addr lr_addr pc_addr is_fp = (ctx_store_x_q is_fp ++ [MovX 10 30; MovFromSp 9; SubX 9 9 0x10; Pair Stp Xreg 9 10]) ++
    [MovFromSp 8; Str 8 0 sp_addr; Ldr 9 8 lr_addr; Str 9 8 pc_addr; Ldr 8 1 sp_addr; MovToSp 8] ++ [Pair Ldp Xreg 9 30] ++ ctx_restore_x_q is_fp ++ [Ret]) as ->
    by (unfold tcb_switch; by rewrite <- app_assoc).
  rewrite !(arun_app handler (_ ++ [MovX 10 30; _; _; _])), (arun_app handler [MovFromSp 8; _; _; _; _; _]), (arun_app handler [_]), (arun_app handler (ctx_restore_x_q is_fp)).
  destruct (switch_store_run handler c0 Hsp) as (Hst & _ & Ex). cbv zeta in *.
  revert Hst Ex. generalize (arun handler (ctx_store_x_q is_fp ++ [MovX 10 30; MovFromSp 9; SubX 9 9 0x10; Pair Stp Xreg 9 10]) c0). intros c1 Hst Ex.
  assert (∀ a, ¬ switch_writes c0 a → amem c1 a = amem c0 a) as Em1.
  { intros a Ha. apply (pu_mem _ _ _ (st_pushed _ _ _ _ Hst)). intros Hin. apply Ha. by left. }
  destruct (switch_stacks handler c0 c1 (frame_of b) Hst (Ex 0%nat ltac:(done) ltac:(done)) (Ex 1%nat ltac:(done) ltac:(done)) Hslot) as [Es2 Em2].
  { by rewrite Em1. }
  { intros E. apply Hnext. by right. }
  { intros Hin. apply Hnext. by left. }
  cbv zeta in *. revert Es2 Em2. generalize (arun handler [MovFromSp 8; Str 8 0 sp_addr; Ldr 9 8 lr_addr; Str 9 8 pc_addr; Ldr 8 1 sp_addr; MovToSp 8] c1). intros c2 Es2 Em2.
  assert (words_at (amem c2) (sp c2) (Context is_fp (frame_of b) (xr b 30%nat) b)) as Hw.
  { rewrite Es2. apply (words_at_ext (amem c0)); [|done]. rewrite context_length. intros a Ha. pose proof (Hfree a Ha) as Hn.
    rewrite Em2, fupd_other; [by apply Em1|]. intros <-. apply Hn. by right. }
  unfold Context in Hw. rewrite <- (app_nil_r (base_words is_fp b)) in Hw. destruct (ldp_run handler 9 30 _ _ _ c2 Hw) as [E3 Hw3].
  change (arun handler [Pair Ldp Xreg 9 30] c2) with (aexec handler (Pair Ldp Xreg 9 30) c2). rewrite E3. set (c3 := drop_words 2 _) in Hw3 |- *.
  assert (sp c3 = addr (sp c2) 16 ∧ amem c3 = amem c2) as (Es3 & Em3) by done. clearbody c3.
  destruct (ctx_restore_run handler is_fp b c3 [] Hq Hw3) as [Rs Rm Rw Rspsr Relr Rx Rq Rc Rr].
  revert Rs Rm Rw Rspsr Relr Rx Rq Rc Rr. generalize (arun handler (ctx_restore_x_q is_fp) c3). intros c5 Rs Rm Rw Rspsr Relr Rx Rq Rc Rr.
  change (arun handler [Ret] c5) with (mk_A64 (xr c5) (qr c5) (sp c5) (sysr c5) (amem c5) (Some (xr c5 30%nat, sysr c5 SPSR_EL1))).
  cbn [xr qr sp sysr amem went]. split; [|split; [exact Rx|split; [|split; [by rewrite Rx, Rspsr by done|intros ->; by split_and!]]]].
  - rewrite Rm, Em3. split; [rewrite Em2; apply fupd_same|]. pose proof (st_words _ _ _ _ Hst) as Hw1.
    rewrite (pu_sp _ _ _ (st_pushed _ _ _ _ Hst)) in Hw1. fold (frame_of c0) in Hw1.
    apply (words_at_ext (amem c1)); [|exact Hw1]. rewrite context_length. intros a Ha. rewrite Em2, fupd_other; [done|]. by intros <-.
  - rewrite Rs, Es3, Es2. unfold frame_of. rewrite !addr_addr, <- (base_words_length is_fp b).
    rewrite <- (addr_0 (sp b) Hspb) at 2. f_equal. lia.
Qed.
End Switch.

(** ** Concrete runs *)

(** A handler that leaves other things in the registers. *)
Definition noisy_handler (c : A64) : A64 := mk_A64 (λ _, 7) (λ _, 9) (sp c) (λ _, 13) (amem c) (went c).
Definition some_a64 (sp_ : Z) (m : Z → Z) : A64 :=
  mk_A64 (λ n, Z.of_nat n + sp_) (λ n, Z.of_nat n * 2 ^ 70) sp_ (λ r, match r with ELR_EL1 => 0x9000 | SPSR_EL1 => 5 | _ => 3 end) m None.

Lemma some_q_ok s m : q_ok (mk_A64 (xr s) (λ n, (Z.of_nat n * 2 ^ 70) mod 2 ^ 128) (sp s) (sysr s) m (went s)).
Proof. intros r. apply Z.mod_pos_bound. lia. Qed.
Definition a64_0 (sp_ : Z) (m : Z → Z) : A64 :=
  mk_A64 (xr (some_a64 sp_ m)) (λ n, (Z.of_nat n * 2 ^ 70) mod 2 ^ 128) sp_ (sysr (some_a64 sp_ m)) m None.

Lemma a64_trap_transparent_witness :
  let c := arun noisy_handler (trap_handle_irq true) (a64_0 0x80000 (λ _, 0)) in
  xr c 0%nat = 0x80000 ∧ xr c 10%nat = 0x8000a ∧ qr c 3%nat = 3 * 2 ^ 70 ∧ went c = Some (0x9000, 5).
Proof.
  destruct (a64_trap_transparent true noisy_handler (a64_0 0x80000 (λ _, 0))) as (c1 & _ & _ & Ex & _ & Ew & _ & Eq).
  - vm_compute. by split.
  - apply (some_q_ok (some_a64 0x80000 (λ _, 0))).
  - intros c. by split.
  - destruct (Eq eq_refl) as [Eq3 _]. split; [apply (Ex 0%nat); lia|]. split; [apply (Ex 10%nat); lia|].
    split; [apply (Eq3 3%nat); lia|exact Ew].
Defined.

(** Two tasks with control blocks at 0x1000 and 0x2000; the second was left
    with its stack at 0x20000. *)
Definition task_b : A64 := a64_0 0x20000 (λ _, 0).
Definition mem_ab : Z → Z :=
  fupd (slot_of 16 0x2000) (frame_of false task_b)
    (store_words (frame_of false task_b) (Context false (frame_of false task_b) (xr task_b 30%nat) task_b) (λ _, 0)).
Definition task_a : A64 :=
  mk_A64 (λ n, match n with O => 0x1000 | S O => 0x2000 | _ => 77 end) (λ _, 0) 0x10000 (λ _, 4) mem_ab None.

Lemma not_in_words base n a : 0 ≤ base → base + 8 * Z.of_nat n < 2 ^ 64 → a < base ∨ base + 8 * Z.of_nat n ≤ a → ¬ in_words base n a.
Proof. intros Hb Hs Ha (i & Hi & E). unfold addr in E. rewrite Z.mod_small in E by lia. lia. Qed.

Lemma tcb_switch_resumes_witness :
  let c := arun noisy_handler (tcb_switch 16 (lr_addr false) pc_addr false) task_a in
  xr c 19%nat = xr task_b 19%nat ∧ sp c = 0x20000 ∧ went c = Some (0x2001e, 5) ∧ suspended false 16 (amem c) 0x1000 task_a.
Proof.
  assert (frame_of false task_a = 0xfef0) as Ea by (vm_compute; reflexivity).
  assert (frame_of false task_b = 0x1fef0) as Eb by (vm_compute; reflexivity).
  destruct (tcb_switch_resumes false 16 noisy_handler task_a task_b) as (Hs & Ex & Esp & Ew & _).
  - vm_compute. by split.
  - vm_compute. by split.
  - apply (some_q_ok (some_a64 0x20000 (λ _, 0))).
  - rewrite Ea. apply not_in_words; vm_compute; intuition discriminate.
  - split.
    + vm_compute. reflexivity.
    + apply (words_at_ext (store_words (frame_of false task_b) (Context false (frame_of false task_b) (xr task_b 30%nat) task_b) (λ _, 0))).
      * intros a Ha. cbn [amem task_a]. unfold mem_ab. apply fupd_other. intros <-. revert Ha.
        rewrite context_length, Eb. apply not_in_words; vm_compute; intuition discriminate.
      * apply store_words_at; [rewrite Eb; lia|rewrite context_length; vm_compute; reflexivity].
  - intros [Hin|E]; [|by vm_compute in E]. revert Hin. rewrite Ea. apply not_in_words; vm_compute; intuition discriminate.
  - intros a (i & Hi & Ha) Hw. rewrite Eb in Ha. change (context_words false) with 34%nat in Hi.
    unfold addr in Ha. rewrite Z.mod_small in Ha by lia.
    destruct Hw as [Hin|E].
    + revert Hin. rewrite Ea. apply not_in_words; [done|by vm_compute|]. right. change (context_words false) with 34%nat. lia.
    + vm_compute in E. lia.
  - split; [apply (Ex 19%nat); lia|]. split; [exact Esp|]. split; [exact Ew|exact Hs].
Defined.
