(* ===== verification/Gic.v ===== *)
(** * The ARM interrupt controller: registers, ids and the GICv2 driver

    driver/intc/gic: define.rs (interrupt ids), version/mod.rs (bit vectors of
    registers, device-tree specifiers) and version/v2 (distributor, CPU and
    hypervisor interface). GICv3 is in the file GicV3, the proofs in GicProof.

    The controller is a state [D] behind a register file: [peek] is what a read
    returns, [touch] what a read does to the device, [poke] what a write does.
    The driver's methods are translated against these operations; the laws of
    the hardware are a class of the file GicProof. Bit fields are those of the
    crate tock-registers, which is the class [Tock]. *)

From stdpp Require Import base list numbers.
From S2P Require Import Prelude Bits Tock.
Open Scope Z_scope.

(** ** define.rs *)

Inductive Trigger : Type := Edge | Level.

#[export] Instance Trigger_eq_dec : EqDecision Trigger.
Proof. solve_decision. Defined.

Record IrqConfig : Type := mk_IrqConfig { irq_id : Z; irq_trigger : Trigger }.

Definition SGI_END : Z := 16.
Definition PPI_START : Z := 16.
Definition PPI_END : Z := 32.
Definition SPI_START : Z := 32.
Definition SPI_END : Z := 1020.
Definition SPECIAL_START : Z := 1020.
Definition SPECIAL_END : Z := 1024.

(** [IntId]: the constructors assert. *)
Definition IntId : Type := Z.
Definition intid_sgi {E} (n : Z) : outcome E IntId := if n <? SGI_END then Ok n else Stuck.
Definition intid_ppi {E} (n : Z) : outcome E IntId :=
  if n <? PPI_END - PPI_START then Ok (PPI_START + n) else Stuck.
Definition intid_spi {E} (n : Z) : outcome E IntId :=
  if n <? SPECIAL_START then Ok (SPI_START + n) else Stuck.

Definition is_sgi (id : IntId) : bool := (0 <=? id) && (id <? SGI_END).
Definition is_private (id : IntId) : bool := id <? SPI_START.
Definition is_special (id : IntId) : bool := (SPECIAL_START <=? id) && (id <? SPECIAL_END).

(** ** Device-tree specifiers: [fdt_parse_irq_config] *)

Inductive FdtError : Type := TooFewCells | InvalidType | NoneNotAllowed | InvalidTrigger.

Definition ESPI_BASE_INTID : Z := 4096.
Definition EPPI_BASE_INTID : Z := 1056.

(** The hardware id of a specifier's type and number. *)
Definition fdt_hwirq (irq_type irq_num : Z) : outcome FdtError Z :=
  if irq_type =? 0 then uadd 32 SPI_START irq_num
  else if irq_type =? 1 then uadd 32 PPI_START irq_num
  else if irq_type =? 2 then uadd 32 ESPI_BASE_INTID irq_num
  else if irq_type =? 3 then uadd 32 EPPI_BASE_INTID irq_num
  else if irq_type =? 4 then Ok irq_num
  else if irq_type =? 5 then
    if 16 <=? irq_num then x ← uadd 32 EPPI_BASE_INTID irq_num; usub x 16
    else uadd 32 16 irq_num
  else Err InvalidType.

Definition fdt_trigger (irq_type irq_flags : Z) : outcome FdtError Trigger :=
  if (irq_flags =? 1) || (irq_flags =? 2) || (irq_flags =? 3) then Ok Edge
  else if (irq_flags =? 4) || (irq_flags =? 8) then Ok Level
  else if irq_flags =? 0 then if irq_type =? 5 then Ok Level else Err NoneNotAllowed
  else Err InvalidTrigger.

Definition fdt_parse_irq_config (itr : list Z) : outcome FdtError IrqConfig :=
  match itr with
  | [n] => if n <? 16 then id ← intid_sgi n; Ok (mk_IrqConfig id Edge) else Err TooFewCells
  | irq_type :: irq_num :: flags :: _ =>
      let irq_flags := Z.land flags 0xf in
      hwirq ← fdt_hwirq irq_type irq_num;
      trigger ← fdt_trigger irq_type irq_flags;
      Ok (mk_IrqConfig hwirq trigger)
  | _ => Err TooFewCells
  end.

(** ** The register file *)

(** The frames: distributor, CPU interface, hypervisor interface, virtual CPU
    interface, the system registers of GICv3, and the redistributor of the n-th
    CPU. *)
Inductive Frame : Type := Gicd | Gicc | Gich | Gicv | Icc | Gicr (n : nat).

Inductive Reg : Type :=
| CTLR | TYPER | IGROUPR | ISENABLER | ICENABLER | ISPENDR | ICPENDR | ISACTIVER | ICACTIVER
| IPRIORITYR | ITARGETSR | ICFGR | NSACR | SGIR
| IGRPMODR | INMIR | IROUTER | SETSPI_NSR | SETSPI_SR | CLRSPI_NSR | CLRSPI_SR
| PMR | IAR | EOIR | RPR | HPPIR | AIAR | DIR
| HCR | VTR | MISR | EISR0 | EISR1 | ELRSR0 | ELRSR1 | APR | LR
| WAKER
| ICC_SRE_EL1 | ICC_SRE_EL2 | ICC_PMR_EL1 | ICC_IGRPEN0_EL1 | ICC_IGRPEN1_EL1 | ICC_CTLR_EL1
| ICC_IAR0_EL1 | ICC_IAR1_EL1 | ICC_EOIR0_EL1 | ICC_EOIR1_EL1 | ICC_DIR_EL1 | ICC_SGI1R_EL1.

#[export] Instance Frame_eq_dec : EqDecision Frame.
Proof. solve_decision. Defined.
#[export] Instance Reg_eq_dec : EqDecision Reg.
Proof. solve_decision. Defined.

Class RegFile (D : Type) : Type := {
  peek : Frame → Reg → Z → D → Z;
  touch : Frame → Reg → Z → D → D;
  poke : Frame → Reg → Z → Z → D → D
}.

(** Lengths of the register arrays in the [register_structs!] declarations.
    The redistributor's frame has registers 0 only, 32 priorities and 6
    configuration registers. *)
Definition reg_len (b : Frame) (r : Reg) : Z :=
  match b, r with
  | Gicr _, IPRIORITYR => 32
  | Gicr _, ICFGR => 6
  | Gicd, (IGROUPR | ISENABLER | ICENABLER | ISPENDR | ICPENDR | ISACTIVER | ICACTIVER | IGRPMODR | INMIR) => 0x20
  | Gicd, (IPRIORITYR | ITARGETSR) => 1024
  | Gicd, (ICFGR | NSACR) => 0x40
  | Gicd, IROUTER => 987
  | Gich, LR => 64
  | _, _ => 1
  end.

(** [a / b] rounded up. *)
Definition div_ceil (a b : Z) : Z := (a + b - 1) / b.

Section Registers.
Context {D E : Type} `{RegFile D} `{Tock}.
Notation GM := (M D E).

(** Array accesses check the index. *)
Definition rget (b : Frame) (r : Reg) (i : Z) : GM Z :=
  if (0 <=? i) && (i <? reg_len b r) then λ d, (touch b r i d, Ok (peek b r i d)) else stuck.
Definition rset (b : Frame) (r : Reg) (i v : Z) : GM unit :=
  if (0 <=? i) && (i <? reg_len b r) then modify (poke b r i v) else stuck.
Definition rmodify (b : Frame) (r : Reg) (fv : FieldValue) : GM unit :=
  old ← rget b r 0; rset b r 0 (fv_modify fv old).
Definition assertM (c : bool) : GM unit := if c then mret tt else stuck.

(** [for i in lo..hi], with [n] turns left. *)
Fixpoint for_range (n : nat) (i : Z) (body : Z → GM unit) : GM unit :=
  match n with
  | O => mret tt
  | S n => _ ← body i; for_range n (i + 1) body
  end.
Definition for_ (lo hi : Z) (body : Z → GM unit) : GM unit := for_range (Z.to_nat (hi - lo)) lo body.

(** [IrqVecWriteable] and [IrqVecReadable]. *)
Definition set_irq_bit (b : Frame) (r : Reg) (index : Z) : GM unit :=
  rset b r (index / 32) (Z.shiftl 1 (index mod 32)).
Definition clear_irq_bit (b : Frame) (r : Reg) (intid : Z) : GM unit :=
  let bit := Z.shiftl 1 (intid mod 32) in
  old ← rget b r (intid / 32);
  if Z.land old bit =? 0 then mret tt else rset b r (intid / 32) (Z.land old (unot 32 bit)).
Definition get_irq_bit (b : Frame) (r : Reg) (index : Z) : GM bool :=
  v ← rget b r (index / 32);
  mret (has v (Z.shiftl 1 (index mod 32))).
End Registers.

(** ** version/v2 *)

Module V2.
Section V2.
Context {D E : Type} `{RegFile D} `{Tock}.
Notation GM := (M D E).

(** *** gicd.rs *)

Definition CTLR_EnableGrp0 : Field := mk_Field 0 1.
Definition CTLR_EnableGrp1 : Field := mk_Field 1 1.
Definition TYPER_ITLinesNumber : Field := mk_Field 0 5.

Definition gicd_disable : GM unit := rmodify Gicd CTLR (fv_add (CLEAR CTLR_EnableGrp0) (CLEAR CTLR_EnableGrp1)).
Definition gicd_enable : GM unit := rmodify Gicd CTLR (fv_add (SET CTLR_EnableGrp0) (SET CTLR_EnableGrp1)).

(** Write [v] to the registers that hold [max_interrupts] interrupts, [per]
    interrupts each. *)
Definition set_all (r : Reg) (per v max_interrupts : Z) : GM unit :=
  for_ 0 (Z.min (div_ceil max_interrupts per) (reg_len Gicd r)) (λ i, rset Gicd r i v).

Definition irq_disable_all (max_interrupts : Z) : GM unit := set_all ICENABLER 32 u32_max max_interrupts.
Definition pending_clear_all (max_interrupts : Z) : GM unit := set_all ICPENDR 32 u32_max max_interrupts.
Definition active_clear_all (max_interrupts : Z) : GM unit := set_all ICACTIVER 32 u32_max max_interrupts.
Definition groups_all_to_0 (max_interrupts : Z) : GM unit := set_all IGROUPR 32 0 max_interrupts.
Definition configure_interrupt_config (max_interrupts : Z) : GM unit := set_all ICFGR 16 0 max_interrupts.

Definition set_default_sgi_ppi_priorities : GM unit := for_ 0 32 (λ i, rset Gicd IPRIORITYR i 0xA0).

Definition set_default_spi_priorities (max_interrupts : Z) : GM unit :=
  let total_regs := Z.min (div_ceil max_interrupts 4) (reg_len Gicd IPRIORITYR) in
  for_ 32 total_regs (λ i, rset Gicd IPRIORITYR i 0xA0).

Definition configure_interrupt_targets (max_interrupts : Z) : GM unit :=
  if max_interrupts <=? 32 then mret tt
  else
    let spi_start := 32 in
    let num_spis := max_interrupts - spi_start in
    let num_regs := div_ceil num_spis 4 in
    let target_reg_start := spi_start / 4 in
    let target_reg_end := Z.min (target_reg_start + num_regs) (reg_len Gicd ITARGETSR) in
    for_ target_reg_start target_reg_end (λ i, rset Gicd ITARGETSR i 1).

Definition max_spi_num : GM Z :=
  typer ← rget Gicd TYPER 0;
  mret ((read TYPER_ITLinesNumber typer + 1) * 32).

Definition set_cfg (id : IntId) (cfg : Trigger) : GM unit :=
  let reg_index := id / 16 in
  let mask := Z.shiftl 1 (id mod 16 * 2 + 1) in
  _ ← assertM (reg_index <? reg_len Gicd ICFGR);
  current ← rget Gicd ICFGR reg_index;
  rset Gicd ICFGR reg_index
    (match cfg with Level => Z.land current (unot 32 mask) | Edge => Z.lor current mask end).

Definition get_cfg (id : IntId) : GM Trigger :=
  let reg_index := id / 16 in
  let mask := Z.shiftl 1 (id mod 16 * 2 + 1) in
  _ ← assertM (reg_index <? reg_len Gicd ICFGR);
  current ← rget Gicd ICFGR reg_index;
  mret (if has current mask then Edge else Level).

(** *** [Gic] *)

Definition init : GM unit :=
  _ ← gicd_disable;
  max_spi ← max_spi_num;
  _ ← irq_disable_all max_spi;
  _ ← pending_clear_all max_spi;
  _ ← active_clear_all max_spi;
  _ ← groups_all_to_0 max_spi;
  _ ← set_default_spi_priorities max_spi;
  _ ← configure_interrupt_targets max_spi;
  _ ← configure_interrupt_config max_spi;
  gicd_enable.

Definition set_irq_enable (intid : IntId) (enable : bool) : GM unit :=
  if enable then set_irq_bit Gicd ISENABLER intid else set_irq_bit Gicd ICENABLER intid.
Definition is_irq_enable (id : IntId) : GM bool := get_irq_bit Gicd ISENABLER id.

Definition set_priority (id : IntId) (priority : Z) : GM unit :=
  _ ← assertM (id <? reg_len Gicd IPRIORITYR); rset Gicd IPRIORITYR id priority.
Definition get_priority (id : IntId) : GM Z :=
  _ ← assertM (id <? reg_len Gicd IPRIORITYR); rget Gicd IPRIORITYR id.

(** [TargetList]: one bit per CPU interface. *)
Definition TargetList : Type := Z.
Definition target_add (cpu : Z) (raw : TargetList) : outcome Empty_set TargetList :=
  if cpu <? 8 then Ok (Z.lor raw (Z.shiftl 1 cpu)) else Stuck.
Fixpoint target_new (list : list Z) (raw : TargetList) : outcome Empty_set TargetList :=
  match list with
  | [] => Ok raw
  | cpu :: list => raw ← target_add cpu raw; target_new list raw
  end.
Definition cpu_id_list (t : TargetList) : list Z := filter (λ i, has t (Z.shiftl 1 i) = true) (seqZ 0 8).

Definition set_target_cpu (id : IntId) (target_list : TargetList) : GM unit :=
  _ ← assertM (negb (is_private id));
  _ ← assertM (id <? reg_len Gicd ITARGETSR);
  rset Gicd ITARGETSR id target_list.
Definition get_target_cpu (id : IntId) : GM TargetList :=
  _ ← assertM (negb (is_private id));
  _ ← assertM (id <? reg_len Gicd ITARGETSR);
  rget Gicd ITARGETSR id.

Definition set_interrupt_group1 (id : IntId) (group1 : bool) : GM unit :=
  if group1 then set_irq_bit Gicd IGROUPR id else clear_irq_bit Gicd IGROUPR id.

Inductive SGITarget : Type := ToList (t : TargetList) | AllOther | Current.

Definition SGIR_SGIINTID : Field := mk_Field 0 4.
Definition SGIR_CPUTargetList : Field := mk_Field 16 8.
Definition SGIR_TargetListFilter : Field := mk_Field 24 2.

Definition send_sgi (sgi_id : IntId) (target : SGITarget) : GM unit :=
  _ ← assertM (sgi_id <? 16);
  let '(filter, target_list) :=
    match target with
    | ToList t => (0, t)
    | AllOther => (1, 0)
    | Current => (2, 0)
    end in
  rset Gicd SGIR 0 (fv_value
    (fv_add (fv_add (val SGIR_SGIINTID sgi_id) (val SGIR_CPUTargetList target_list)) (val SGIR_TargetListFilter filter))).

Definition set_active (id : IntId) (active : bool) : GM unit :=
  if active then set_irq_bit Gicd ISACTIVER id else set_irq_bit Gicd ICACTIVER id.
Definition is_active (id : IntId) : GM bool := get_irq_bit Gicd ISACTIVER id.
Definition set_pending (id : IntId) (pending : bool) : GM unit :=
  if pending then set_irq_bit Gicd ISPENDR id else set_irq_bit Gicd ICPENDR id.
Definition is_pending (id : IntId) : GM bool := get_irq_bit Gicd ISPENDR id.

(** rdif.rs: [setup_irq_by_fdt]; a malformed specifier panics. *)
Definition setup_irq_by_fdt (irq_prop : list Z) : GM IntId :=
  match fdt_parse_irq_config irq_prop with
  | Ok config => _ ← set_cfg (irq_id config) (irq_trigger config); mret (irq_id config)
  | _ => stuck
  end.

(** *** Acknowledging: [Ack] *)

Inductive Ack : Type := AckSGI (intid : IntId) (cpu_id : Z) | AckOther (intid : IntId).

Definition ack_is_special (a : Ack) : bool := match a with AckOther id => is_special id | AckSGI _ _ => false end.

(** The fields have the same layout in IAR, AIAR, EOIR and DIR. *)
Definition IAR_InterruptID : Field := mk_Field 0 10.
Definition IAR_CPUID : Field := mk_Field 10 3.

(** [From<Ack> for u32]. *)
Definition u32_of_ack (a : Ack) : Z :=
  fv_value match a with
  | AckOther intid => val IAR_InterruptID intid
  | AckSGI intid cpu_id => fv_add (val IAR_InterruptID intid) (val IAR_CPUID cpu_id)
  end.

(** [From<u32> for Ack]. *)
Definition ack_of_u32 (value : Z) : Ack :=
  let intid := read IAR_InterruptID value in
  if is_sgi intid then AckSGI intid (read IAR_CPUID value) else AckOther intid.

(** *** [CpuInterface] and [TrapOp] *)

Definition PMR_Priority : Field := mk_Field 0 8.
Definition CTLR_EOImodeNS : Field := mk_Field 9 1.

Definition init_current_cpu : GM unit :=
  _ ← rset Gicc CTLR 0 0;
  _ ← rset Gicc PMR 0 (fv_value (val PMR_Priority 0xFF));
  _ ← rset Gicc CTLR 0 (fv_value (SET CTLR_EnableGrp0));
  set_default_sgi_ppi_priorities.

Definition set_eoi_mode_ns (is_two_step : bool) : GM unit :=
  rmodify Gicc CTLR (if is_two_step then SET CTLR_EOImodeNS else CLEAR CTLR_EOImodeNS).
Definition eoi_mode_ns : GM bool := v ← rget Gicc CTLR 0; mret (is_set CTLR_EOImodeNS v).

Definition ack : GM Ack := v ← rget Gicc IAR 0; mret (ack_of_u32 v).
Definition eoi (a : Ack) : GM unit := rset Gicc EOIR 0 (u32_of_ack a).
Definition dir (a : Ack) : GM unit := rset Gicc DIR 0 (u32_of_ack a).

Definition get_highest_priority_pending : GM Z := v ← rget Gicc HPPIR 0; mret (Z.land v 0x3FF).
Definition get_running_priority : GM Z := v ← rget Gicc RPR 0; mret (Z.land v 0xFF).
Definition set_priority_mask (mask : Z) : GM unit := rset Gicc PMR 0 (fv_value (val PMR_Priority mask)).

(** The CPU interface's accessors are those of the distributor for private ids. *)
Definition private_only {X} (id : IntId) (f : GM X) : GM X := _ ← assertM (is_private id); f.
Definition cpu_set_irq_enable (id : IntId) (enable : bool) : GM unit := private_only id (set_irq_enable id enable).
Definition cpu_is_irq_enable (id : IntId) : GM bool := private_only id (is_irq_enable id).
Definition cpu_set_priority (id : IntId) (p : Z) : GM unit := private_only id (set_priority id p).
Definition cpu_get_priority (id : IntId) : GM Z := private_only id (get_priority id).
Definition cpu_set_active (id : IntId) (b : bool) : GM unit := private_only id (set_active id b).
Definition cpu_is_active (id : IntId) : GM bool := private_only id (is_active id).
Definition cpu_set_pending (id : IntId) (b : bool) : GM unit := private_only id (set_pending id b).
Definition cpu_is_pending (id : IntId) : GM bool := private_only id (is_pending id).

(** *** [HypervisorInterface] *)

Inductive VirtualInterruptState : Type := Invalid | Pending | Active | PendingAndActive.
Inductive VirtualInterruptType : Type :=
| Software (cpu_id : option Z) (eoi_maintenance : bool)
| Hardware (physical_id : Z).

Record VirtualInterruptConfig : Type := mk_Virq {
  virtual_id : IntId;
  vpriority : Z;
  vstate : VirtualInterruptState;
  group1 : bool;
  interrupt_type : VirtualInterruptType
}.

Definition LR_VirtualID : Field := mk_Field 0 10.
Definition LR_PhysicalID : Field := mk_Field 10 10.
Definition LR_CPUID : Field := mk_Field 10 3.
Definition LR_EOI : Field := mk_Field 19 1.
Definition LR_Priority : Field := mk_Field 23 5.
Definition LR_State : Field := mk_Field 28 2.
Definition LR_Grp1 : Field := mk_Field 30 1.
Definition LR_HW : Field := mk_Field 31 1.
Definition HCR_En : Field := mk_Field 0 1.
Definition VTR_ListRegs : Field := mk_Field 0 6.

Definition state_val (s : VirtualInterruptState) : Z :=
  match s with Invalid => 0 | Pending => 1 | Active => 2 | PendingAndActive => 3 end.
Definition state_of (v : Z) : VirtualInterruptState :=
  if v =? 1 then Pending else if v =? 2 then Active else if v =? 3 then PendingAndActive else Invalid.

(** The word [set_virtual_interrupt] writes. *)
Definition lr_encode (c : VirtualInterruptConfig) : Z :=
  let lr := fv_add (fv_add (val LR_VirtualID (virtual_id c)) (val LR_Priority (vpriority c)))
              (val LR_State (state_val (vstate c))) in
  let lr := if group1 c then fv_add lr (SET LR_Grp1) else lr in
  fv_value match interrupt_type c with
  | Hardware physical_id => fv_add lr (fv_add (SET LR_HW) (val LR_PhysicalID physical_id))
  | Software cpu_id eoi_maintenance =>
      let lr := match cpu_id with
                | Some cpu => if is_sgi (virtual_id c) then fv_add lr (val LR_CPUID cpu) else lr
                | None => lr
                end in
      if eoi_maintenance then fv_add lr (SET LR_EOI) else lr
  end.

(** What [get_virtual_interrupt] makes of it. *)
Definition lr_decode (lr : Z) : VirtualInterruptConfig :=
  mk_Virq (read LR_VirtualID lr) (Z.shiftl (read LR_Priority lr) 3 mod 2 ^ 8) (state_of (read LR_State lr))
    (is_set LR_Grp1 lr)
    (if is_set LR_HW lr then Hardware (read LR_PhysicalID lr)
     else Software (let c := read LR_CPUID lr in if c =? 0 then None else Some c) (is_set LR_EOI lr)).

Definition set_virtual_interrupt (lr_index : Z) (c : VirtualInterruptConfig) : GM unit :=
  _ ← assertM (lr_index <? 64); rset Gich LR lr_index (lr_encode c).
Definition get_virtual_interrupt (lr_index : Z) : GM VirtualInterruptConfig :=
  _ ← assertM (lr_index <? 64); v ← rget Gich LR lr_index; mret (lr_decode v).

Definition hyp_init_current_cpu : GM unit :=
  _ ← rset Gich HCR 0 0;
  _ ← for_ 0 64 (λ i, rset Gich LR i 0);
  rset Gich APR 0 0.
Definition hyp_enable : GM unit := rmodify Gich HCR (SET HCR_En).
Definition hyp_disable : GM unit := rmodify Gich HCR (CLEAR HCR_En).
(** The interrupt enables of HCR: [UIE], [LRENPIE], [NPIE], [VGrp0EIE],
    [VGrp0DIE], [VGrp1EIE], [VGrp1DIE] are the bits 1 to 7. *)
Definition set_hcr_bit (bit : Z) (enable : bool) : GM unit :=
  rmodify Gich HCR (if enable then SET (mk_Field bit 1) else CLEAR (mk_Field bit 1)).

Definition is_list_register_empty (lr_index : Z) : GM bool :=
  if 64 <=? lr_index then mret true
  else v ← rget Gich LR lr_index; mret (read LR_State v =? 0).
(** [clear_list_register]; [false] is the error. *)
Definition clear_list_register (lr_index : Z) : GM bool :=
  if 64 <=? lr_index then mret false else _ ← rset Gich LR lr_index 0; mret true.
Definition get_list_register_count : GM Z := v ← rget Gich VTR 0; mret (read VTR_ListRegs v + 1).
Definition get_maintenance_status : GM Z := rget Gich MISR 0.
Definition get_eoi_status : GM (Z * Z) := a ← rget Gich EISR0 0; b ← rget Gich EISR1 0; mret (a, b).
Definition get_empty_lr_status : GM (Z * Z) := a ← rget Gich ELRSR0 0; b ← rget Gich ELRSR1 0; mret (a, b).
Definition gicv_aiar : GM (option Ack) :=
  v ← rget Gicv AIAR 0;
  mret (if read IAR_InterruptID v =? 1023 then None else Some (ack_of_u32 v)).
End V2.
End V2.
