(* ===== verification/GicV3.v ===== *)
(** * The ARM interrupt controller: GICv3

    driver/intc/gic/src/version/v3: the distributor with affinity routing, the
    redistributors (one frame per CPU, in memory order, the last one flagged)
    and the CPU interface in system registers. The id register of the running
    CPU, its exception level and the number of frames a search may visit are
    parameters. *)

From stdpp Require Import base list numbers.
From S2P Require Import Prelude Bits Tock Gic.
Open Scope Z_scope.

(** The error strings. *)
Inductive V3Error : Type := RwpTimeout.

Inductive SecurityState : Type := Secure | NonSecure | Single.

#[export] Instance SecurityState_eq_dec : EqDecision SecurityState.
Proof. solve_decision. Defined.

Record Affinity : Type := mk_Affinity { aff0 : Z; aff1 : Z; aff2 : Z; aff3 : Z }.

#[export] Instance Affinity_eq_dec : EqDecision Affinity.
Proof. solve_decision. Defined.

(** [Affinity::affinity]. *)
Definition affinity (a : Affinity) : Z :=
  Z.lor (Z.lor (Z.lor (aff0 a) (Z.shiftl (aff1 a) 8)) (Z.shiftl (aff2 a) 16)) (Z.shiftl (aff3 a) 24).

(** *** [TargetList] *)

Record TargetList : Type := mk_TargetList { tl_aff3 : Z; tl_aff2 : Z; tl_aff1 : Z; target_list : Z }.

(** [1 << aff0] on [u16] panics for 16 and more. *)
Definition one_shl16 (n : Z) : outcome V3Error Z := if n <? 16 then Ok (Z.shiftl 1 n) else Stuck.

Definition same_cluster (a : Affinity) (t : TargetList) : bool :=
  (aff3 a =? tl_aff3 t) && (aff2 a =? tl_aff2 t) && (aff1 a =? tl_aff1 t).

Definition target_add (a : Affinity) (t : TargetList) : outcome V3Error TargetList :=
  if same_cluster a t then
    b ← one_shl16 (aff0 a);
    Ok (mk_TargetList (tl_aff3 t) (tl_aff2 t) (tl_aff1 t) (Z.lor (target_list t) b))
  else Stuck.

Fixpoint target_add_all (l : list Affinity) (t : TargetList) : outcome V3Error TargetList :=
  match l with
  | [] => Ok t
  | a :: l => t ← target_add a t; target_add_all l t
  end.

(** [TargetList::new]: the first element sets the upper levels. *)
Definition target_new (l : list Affinity) : outcome V3Error TargetList :=
  match l with
  | [] => Ok (mk_TargetList 0 0 0 0)
  | a :: _ => target_add_all l (mk_TargetList (aff3 a) (aff2 a) (aff1 a) 0)
  end.

Definition affinity_list (t : TargetList) : list Affinity :=
  (λ i, mk_Affinity i (tl_aff1 t) (tl_aff2 t) (tl_aff3 t)) <$>
    filter (λ i, has (target_list t) (Z.shiftl 1 i) = true) (seqZ 0 16).

Inductive SGITarget : Type := All | List (t : TargetList).

Section V3.
Context {D : Type} `{RegFile D} `{Tock}.
(** [MPIDR_EL1], [CurrentEL], and a bound on the redistributors. *)
Context (mpidr current_el : Z) (fuel : nat).
Notation GM := (M D V3Error).

(** The fields of [MPIDR_EL1], which the crate aarch64-cpu declares. *)
Definition MPIDR_Aff0 : Field := mk_Field 0 8.
Definition MPIDR_Aff1 : Field := mk_Field 8 8.
Definition MPIDR_Aff2 : Field := mk_Field 16 8.
Definition MPIDR_Aff3 : Field := mk_Field 32 8.

(** [Affinity::from_mpidr]. *)
Definition from_mpidr (v : Z) : Affinity :=
  mk_Affinity (read MPIDR_Aff0 v) (read MPIDR_Aff1 v) (read MPIDR_Aff2 v) (read MPIDR_Aff3 v).

(** ** gicd.rs *)

Definition CTLR_DS : Field := mk_Field 6 1.
Definition CTLR_RWP : Field := mk_Field 31 1.
Definition TYPER_ITLinesNumber : Field := mk_Field 0 5.
Definition TYPER_CPUNumber : Field := mk_Field 5 3.
Definition TYPER_SecurityExtn : Field := mk_Field 10 1.
Definition TYPER_IDbits : Field := mk_Field 19 5.
Definition SPI_INTID : Field := mk_Field 0 13.

Definition is_single_security_state : GM bool := v ← rget Gicd CTLR 0; mret (is_set CTLR_DS v).
Definition has_security_extensions : GM bool := v ← rget Gicd TYPER 0; mret (is_set TYPER_SecurityExtn v).

Definition detect_security_state_via_nsacr : GM SecurityState :=
  single ← is_single_security_state;
  if (single : bool) then mret Single
  else
    original_value ← rget Gicd NSACR 0;
    let test_pattern := 0x55555555 in
    _ ← rset Gicd NSACR 0 test_pattern;
    read_value ← rget Gicd NSACR 0;
    _ ← rset Gicd NSACR 0 original_value;
    mret (if read_value =? test_pattern then Secure else if read_value =? 0 then NonSecure else Secure).

Definition get_security_state : GM SecurityState :=
  single ← is_single_security_state;
  if (single : bool) then mret Single
  else
    ext ← has_security_extensions;
    if negb ext then mret Single else detect_security_state_via_nsacr.

(** [1u32 << n]. *)
Definition one_shl32 (n : Z) : outcome V3Error Z := if n <? 32 then Ok (Z.shiftl 1 n) else Stuck.
Definition max_intid : GM Z := v ← rget Gicd TYPER 0; lift (one_shl32 (read TYPER_IDbits v + 1)).
Definition max_spi_num : GM Z := v ← rget Gicd TYPER 0; mret ((read TYPER_ITLinesNumber v + 1) * 32).
Definition max_cpu_num : GM Z := v ← rget Gicd TYPER 0; mret (read TYPER_CPUNumber v + 1).

Definition irq_disable_all (max_interrupts : Z) : GM unit := V2.set_all ICENABLER 32 u32_max max_interrupts.
Definition pending_clear_all (max_interrupts : Z) : GM unit := V2.set_all ICPENDR 32 u32_max max_interrupts.
Definition active_clear_all (max_interrupts : Z) : GM unit := V2.set_all ICACTIVER 32 u32_max max_interrupts.
Definition groups_all_to_1 (max_interrupts : Z) : GM unit := V2.set_all IGROUPR 32 u32_max max_interrupts.
Definition configure_interrupt_config (max_interrupts : Z) : GM unit := V2.set_all ICFGR 16 0 max_interrupts.

(** [irq_enable], [irq_disable], [set_pending] and [clear_pending] write one
    bit for a shared interrupt and do nothing for the others. *)
Definition set_spi_bit (r : Reg) (intid : Z) : GM unit :=
  if 32 <=? intid then
    let reg_idx := intid / 32 in
    if reg_idx <? reg_len Gicd r then rset Gicd r reg_idx (Z.shiftl 1 (intid mod 32)) else mret tt
  else mret tt.
Definition irq_enable (intid : Z) : GM unit := set_spi_bit ISENABLER intid.
Definition irq_disable (intid : Z) : GM unit := set_spi_bit ICENABLER intid.
Definition gicd_set_pending (intid : Z) : GM unit := set_spi_bit ISPENDR intid.
Definition gicd_clear_pending (intid : Z) : GM unit := set_spi_bit ICPENDR intid.

Definition gicd_set_priority (intid priority : Z) : GM unit :=
  if (32 <=? intid) && (intid <? reg_len Gicd IPRIORITYR) then rset Gicd IPRIORITYR intid priority else mret tt.
Definition gicd_get_priority (intid : Z) : GM Z :=
  if (32 <=? intid) && (intid <? reg_len Gicd IPRIORITYR) then rget Gicd IPRIORITYR intid else mret 0.

Definition set_default_priorities (max_interrupts : Z) : GM unit :=
  for_ 32 (Z.min max_interrupts (reg_len Gicd IPRIORITYR)) (λ i, rset Gicd IPRIORITYR i 0xA0).

(** Set or clear one bit by reading and writing back. *)
Definition update_bit (b : Frame) (r : Reg) (i bit : Z) (on : bool) : GM unit :=
  current ← rget b r i;
  rset b r i (if on then Z.lor current bit else Z.land current (unot 32 bit)).

Definition set_interrupt_group (intid group : Z) (group_modifier : bool) : GM unit :=
  if 32 <=? intid then
    let reg_idx := intid / 32 in
    let bit := Z.shiftl 1 (intid mod 32) in
    _ ← (if reg_idx <? reg_len Gicd IGROUPR then update_bit Gicd IGROUPR reg_idx bit (negb (group =? 0)) else mret tt);
    if reg_idx <? reg_len Gicd IGRPMODR then update_bit Gicd IGRPMODR reg_idx bit group_modifier else mret tt
  else mret tt.

Definition set_nmi (intid : Z) (nmi : bool) : GM unit :=
  if (32 <=? intid) && (intid <? 1020) then
    let reg_idx := intid / 32 in
    if reg_idx <? reg_len Gicd INMIR then update_bit Gicd INMIR reg_idx (Z.shiftl 1 (intid mod 32)) nmi else mret tt
  else mret tt.
Definition is_nmi (intid : Z) : GM bool :=
  if (32 <=? intid) && (intid <? 1020) && (intid / 32 <? reg_len Gicd INMIR) then get_irq_bit Gicd INMIR intid
  else mret false.

(** [generate_spi_*] and [clear_spi_*]. *)
Definition write_spi (r : Reg) (intid : Z) : GM unit :=
  if (32 <=? intid) && (intid <? 1020) then rset Gicd r 0 (fv_value (val SPI_INTID intid)) else mret tt.

(** [set_interrupt_config] has the body of the GICv2 [set_cfg]. *)
Definition set_interrupt_config (id : IntId) (trigger : Trigger) : GM unit := V2.set_cfg id trigger.

(** The word of a routing register, and back. *)
Definition route_value (aff : option Affinity) : Z :=
  match aff with
  | Some a =>
      Z.land
        (Z.lor (Z.lor (Z.lor (Z.lor 0 (aff0 a)) (Z.shiftl (aff1 a) 8)) (Z.shiftl (aff2 a) 16)) (Z.shiftl (aff3 a) 32))
        (unot 64 (Z.shiftl 1 31))
  | None => Z.lor 0 (Z.shiftl 1 31)
  end.
Definition route_of (v : Z) : option Affinity :=
  if has v (Z.shiftl 1 31) then None
  else Some (mk_Affinity (Z.land v 0xFF) (Z.land (Z.shiftr v 8) 0xFF) (Z.land (Z.shiftr v 16) 0xFF)
               (Z.land (Z.shiftr v 32) 0xFF)).

Definition in_spi_range (intid : Z) : bool := (SPI_START <=? intid) && (intid <? SPI_END).

Definition set_interrupt_route (intid : Z) (aff : option Affinity) : GM unit :=
  if negb (in_spi_range intid) then mret tt
  else
    let router_idx := intid - 32 in
    if reg_len Gicd IROUTER <=? router_idx then mret tt
    else rset Gicd IROUTER router_idx (route_value aff).

Definition get_interrupt_route (intid : Z) : GM (option Affinity) :=
  if in_spi_range intid then
    let router_idx := intid - 32 in
    if router_idx <? reg_len Gicd IROUTER then v ← rget Gicd IROUTER router_idx; mret (route_of v)
    else mret None
  else mret None.

Definition set_all_routing_to_current (max_interrupts : Z) : GM unit :=
  for_ SPI_START max_interrupts (λ i, set_interrupt_route i (Some (from_mpidr mpidr))).

Definition reset_registers : GM unit :=
  max_spis ← max_spi_num;
  _ ← pending_clear_all max_spis;
  _ ← active_clear_all max_spis;
  _ ← irq_disable_all max_spis;
  _ ← groups_all_to_1 max_spis;
  _ ← set_default_priorities max_spis;
  _ ← configure_interrupt_config max_spis;
  set_all_routing_to_current max_spis.

(** [wait_for_rwp] of the distributor: [n] polls are left. *)
Fixpoint poll_rwp (n : nat) : GM unit :=
  v ← rget Gicd CTLR 0;
  if is_set CTLR_RWP v then
    match n with
    | O | S O => fail RwpTimeout
    | S n => poll_rwp n
    end
  else mret tt.
Definition wait_for_rwp : GM unit := poll_rwp (Z.to_nat 10000).

(** ** gicr.rs *)

Definition RD_TYPER_Last : Field := mk_Field 4 1.
Definition RD_TYPER_Affinity : Field := mk_Field 32 32.
Definition RCtrl_RWP : Field := mk_Field 3 1.
Definition WAKER_ProcessorSleep : Field := mk_Field 1 1.
Definition WAKER_ChildrenAsleep : Field := mk_Field 2 1.

(** A loop over [RedistributorIter]: [next] reads the flag of the frame it
    returns. The body answers whether the loop goes on. *)
Fixpoint for_rd {X} (n : nat) (rd : nat) (none : GM X) (body : nat → GM (option X)) : GM X :=
  match n with
  | O => stuck
  | S n =>
      t ← rget (Gicr rd) TYPER 0;
      let is_last := 0 <? read RD_TYPER_Last t in
      o ← body rd;
      match o with
      | Some x => mret x
      | None => if is_last then none else for_rd n (S rd) none body
      end
  end.

(** The frame with the wanted affinity, in [Index::index] and [current_rd]. *)
Definition find_rd (want : Z) : GM nat :=
  for_rd fuel 0 stuck (λ rd,
    t ← rget (Gicr rd) TYPER 0;
    mret (if read RD_TYPER_Affinity t =? want then Some rd else None)).
Definition rd_index (a : Affinity) : GM nat := find_rd (affinity a).
Definition current_rd : GM nat := find_rd (Z.land mpidr 0xFFFFFF).

(** [LPI::wait_for_rwp]: [n] retries are left. *)
Fixpoint poll_rd_rwp (n : nat) (rd : nat) : GM unit :=
  v ← rget (Gicr rd) CTLR 0;
  if is_set RCtrl_RWP v then
    match n with
    | O => fail RwpTimeout
    | S n => poll_rd_rwp n rd
    end
  else mret tt.
Definition rd_wait_for_rwp (rd : nat) : GM unit := poll_rd_rwp (Z.to_nat 1001) rd.

(** [while WAKER.is_set(ChildrenAsleep)]. *)
Fixpoint poll_awake (n : nat) (rd : nat) : GM unit :=
  match n with
  | O => stuck
  | S n => v ← rget (Gicr rd) WAKER 0; if is_set WAKER_ChildrenAsleep v then poll_awake n rd else mret tt
  end.
Definition wake (rd : nat) : GM unit :=
  _ ← rset (Gicr rd) WAKER 0 (fv_value (CLEAR WAKER_ProcessorSleep));
  _ ← poll_awake fuel rd;
  rd_wait_for_rwp rd.

Definition init_sgi_ppi (rd : nat) (s : SecurityState) : GM unit :=
  _ ← rset (Gicr rd) ICPENDR 0 u32_max;
  _ ← rset (Gicr rd) ICENABLER 0 u32_max;
  _ ← rset (Gicr rd) ICACTIVER 0 u32_max;
  _ ← rset (Gicr rd) IGROUPR 0 (match s with Secure => 0xFFFF0000 | Single | NonSecure => u32_max end);
  _ ← rset (Gicr rd) IGRPMODR 0 0;
  for_ 0 32 (λ i, rset (Gicr rd) IPRIORITYR i 0xA0).

Definition id_bit (id : IntId) : Z := Z.shiftl 1 (id mod 32).

Definition set_enable_interrupt (rd : nat) (irq : IntId) (enable : bool) : GM unit :=
  rset (Gicr rd) (if enable then ISENABLER else ICENABLER) 0 (id_bit irq).
Definition is_interrupt_enabled (rd : nat) (irq : IntId) : GM bool :=
  v ← rget (Gicr rd) ISENABLER 0; mret (has v (id_bit irq)).
Definition rd_set_priority (rd : nat) (id : IntId) (p : Z) : GM unit := rset (Gicr rd) IPRIORITYR id p.
Definition rd_get_priority (rd : nat) (id : IntId) : GM Z := rget (Gicr rd) IPRIORITYR id.
Definition rd_set_pending (rd : nat) (id : IntId) (pending : bool) : GM unit :=
  rset (Gicr rd) (if pending then ISPENDR else ICPENDR) 0 (id_bit id).
Definition rd_is_pending (rd : nat) (id : IntId) : GM bool :=
  v ← rget (Gicr rd) ISPENDR 0; mret (has v (id_bit id)).
Definition rd_set_active (rd : nat) (id : IntId) (active : bool) : GM unit :=
  rset (Gicr rd) (if active then ISACTIVER else ICACTIVER) 0 (id_bit id).
Definition rd_is_active (rd : nat) (id : IntId) : GM bool :=
  v ← rget (Gicr rd) ISACTIVER 0; mret (has v (id_bit id)).
Definition set_group (rd : nat) (id : IntId) (group1 : bool) : GM unit :=
  update_bit (Gicr rd) IGROUPR 0 (id_bit id) group1.
Definition is_group1 (rd : nat) (id : IntId) : GM bool :=
  v ← rget (Gicr rd) IGROUPR 0; mret (has v (id_bit id)).
Definition set_group_modifier (rd : nat) (id : IntId) (modifier : bool) : GM unit :=
  update_bit (Gicr rd) IGRPMODR 0 (id_bit id) modifier.

Definition cfg_bit (id : IntId) : Z := id mod 16 * 2 + 1.
Definition cfg_reg (id : IntId) : Z := if is_sgi id then 0 else 1.

Definition set_cfgr (rd : nat) (id : IntId) (trigger : Trigger) : GM unit :=
  let clean := unot 32 (Z.shiftl 1 (cfg_bit id)) in
  let bit := Z.shiftl (match trigger with Edge => 1 | Level => 0 end) (cfg_bit id) in
  mask ← rget (Gicr rd) ICFGR (cfg_reg id);
  rset (Gicr rd) ICFGR (cfg_reg id) (Z.lor (Z.land mask clean) bit).
Definition get_cfgr (rd : nat) (id : IntId) : GM Trigger :=
  v ← rget (Gicr rd) ICFGR (cfg_reg id);
  mret (if has v (Z.shiftl 1 (cfg_bit id)) then Edge else Level).

(** ** mod.rs: [Gic] *)

Definition CTLR_EnableGrp0 : Field := mk_Field 0 1.
Definition CTLR_EnableGrp1NS : Field := mk_Field 1 1.
Definition CTLR_EnableGrp1S : Field := mk_Field 2 1.
Definition CTLR_S_ARE_S : Field := mk_Field 4 1.
Definition CTLR_S_ARE_NS : Field := mk_Field 5 1.
Definition CTLR_NS_EnableGrp1 : Field := mk_Field 0 1.
Definition CTLR_NS_EnableGrp1A : Field := mk_Field 1 1.
Definition CTLR_NS_ARE_NS : Field := mk_Field 4 1.
Definition CTLR_ONE_EnableGrp1 : Field := mk_Field 1 1.
Definition CTLR_ONE_ARE : Field := mk_Field 4 1.

Definition disable (s : SecurityState) : GM unit :=
  old ← rget Gicd CTLR 0;
  let v := fv_value match s with
           | Secure => fv_add (fv_add (CLEAR CTLR_EnableGrp0) (CLEAR CTLR_EnableGrp1S)) (CLEAR CTLR_EnableGrp1NS)
           | NonSecure => fv_add (CLEAR CTLR_NS_EnableGrp1) (CLEAR CTLR_NS_EnableGrp1A)
           | Single => fv_add (CLEAR CTLR_EnableGrp0) (CLEAR CTLR_ONE_EnableGrp1)
           end in
  rset Gicd CTLR 0 (Z.land old (unot 32 v)).

(** [panic!] on an error. *)
Definition or_panic {X} (f : GM X) : GM X := λ d,
  match f d with (d, Err _) => (d, Stuck) | r => r end.

(** The control word of [init]. *)
Definition init_ctrl (s : SecurityState) : Z :=
  fv_value match s with
  | Secure => fv_add (fv_add (fv_add (SET CTLR_EnableGrp0) (SET CTLR_EnableGrp1NS)) (SET CTLR_S_ARE_S)) (SET CTLR_S_ARE_NS)
  | NonSecure => fv_add (fv_add (SET CTLR_NS_EnableGrp1) (SET CTLR_NS_EnableGrp1A)) (SET CTLR_NS_ARE_NS)
  | Single => fv_add (fv_add (SET CTLR_EnableGrp0) (SET CTLR_ONE_EnableGrp1)) (SET CTLR_ONE_ARE)
  end.

(** [init]; the answer is the security state it keeps in the driver. *)
Definition init : GM SecurityState :=
  s ← get_security_state;
  _ ← disable s;
  _ ← or_panic wait_for_rwp;
  _ ← reset_registers;
  _ ← rset Gicd CTLR 0 (init_ctrl s);
  _ ← or_panic wait_for_rwp;
  mret s.

(** Private ids go to the redistributor of the running CPU. *)
Definition set_irq_enable (id : IntId) (enable : bool) : GM unit :=
  if is_private id then rd ← current_rd; set_enable_interrupt rd id enable
  else if enable then irq_enable id else irq_disable id.
Definition is_irq_enable (id : IntId) : GM bool :=
  if is_private id then rd ← current_rd; is_interrupt_enabled rd id else get_irq_bit Gicd ISENABLER id.
Definition set_priority (id : IntId) (p : Z) : GM unit :=
  if is_private id then rd ← current_rd; rd_set_priority rd id p else gicd_set_priority id p.
Definition get_priority (id : IntId) : GM Z :=
  if is_private id then rd ← current_rd; rd_get_priority rd id else gicd_get_priority id.
Definition set_active (id : IntId) (active : bool) : GM unit :=
  if is_private id then rd ← current_rd; rd_set_active rd id active
  else if active then set_irq_bit Gicd ISACTIVER id else set_irq_bit Gicd ICACTIVER id.
Definition is_active (id : IntId) : GM bool :=
  if is_private id then rd ← current_rd; rd_is_active rd id else get_irq_bit Gicd ISACTIVER id.
Definition set_pending (id : IntId) (pending : bool) : GM unit :=
  if is_private id then rd ← current_rd; rd_set_pending rd id pending
  else if pending then gicd_set_pending id else gicd_clear_pending id.
Definition is_pending (id : IntId) : GM bool :=
  if is_private id then rd ← current_rd; rd_is_pending rd id else get_irq_bit Gicd ISPENDR id.

Definition set_cfg (id : IntId) (cfg : Trigger) : GM unit :=
  if is_private id then for_rd fuel 0 (mret tt) (λ rd, _ ← set_cfgr rd id cfg; mret None)
  else set_interrupt_config id cfg.
Definition get_cfg (id : IntId) : GM Trigger :=
  if is_private id then rd ← current_rd; get_cfgr rd id else V2.get_cfg id.

Definition set_target_cpu (id : IntId) (a : option Affinity) : GM unit :=
  _ ← assertM (negb (is_private id)); set_interrupt_route id a.
Definition get_target_cpu (id : IntId) : GM (option Affinity) :=
  _ ← assertM (negb (is_private id)); get_interrupt_route id.

(** rdif.rs: [setup_irq_by_fdt]; a malformed specifier panics. *)
Definition setup_irq_by_fdt (irq_prop : list Z) : GM IntId :=
  match fdt_parse_irq_config irq_prop with
  | Ok config => _ ← set_cfg (irq_id config) (irq_trigger config); mret (irq_id config)
  | _ => stuck
  end.

(** ** mod.rs: [CpuInterface] and the system registers *)

(** The accessors of the CPU interface take private ids only. *)
Definition cpu_set_irq_enable (rd : nat) (id : IntId) (enable : bool) : GM unit :=
  _ ← assertM (is_private id); set_enable_interrupt rd id enable.
Definition cpu_is_irq_enable (rd : nat) (id : IntId) : GM bool :=
  _ ← assertM (is_private id); is_interrupt_enabled rd id.
Definition cpu_set_priority (rd : nat) (id : IntId) (p : Z) : GM unit :=
  _ ← assertM (is_private id); rd_set_priority rd id p.
Definition cpu_get_priority (rd : nat) (id : IntId) : GM Z :=
  _ ← assertM (is_private id); rd_get_priority rd id.
Definition cpu_set_active (rd : nat) (id : IntId) (active : bool) : GM unit :=
  _ ← assertM (is_private id); rd_set_active rd id active.
Definition cpu_is_active (rd : nat) (id : IntId) : GM bool :=
  _ ← assertM (is_private id); rd_is_active rd id.
Definition cpu_set_pending (rd : nat) (id : IntId) (pending : bool) : GM unit :=
  _ ← assertM (is_private id); rd_set_pending rd id pending.
Definition cpu_is_pending (rd : nat) (id : IntId) : GM bool :=
  _ ← assertM (is_private id); rd_is_pending rd id.
Definition cpu_set_cfg (rd : nat) (id : IntId) (cfg : Trigger) : GM unit :=
  _ ← assertM (is_private id); set_cfgr rd id cfg.
Definition cpu_get_cfg (rd : nat) (id : IntId) : GM Trigger :=
  _ ← assertM (is_private id); get_cfgr rd id.

Definition SRE_SRE : Field := mk_Field 0 1.
Definition SRE_DFB : Field := mk_Field 1 1.
Definition SRE_DIB : Field := mk_Field 2 1.
Definition SRE_ENABLE : Field := mk_Field 3 1.
Definition ICC_PMR_PRIORITY : Field := mk_Field 0 8.
Definition ICC_IGRPEN_ENABLE : Field := mk_Field 0 1.
Definition ICC_CTLR_CBPR : Field := mk_Field 0 1.
Definition ICC_CTLR_EOIMODE : Field := mk_Field 1 1.
Definition ICC_INTID : Field := mk_Field 0 24.
Definition SGI1R_TARGETLIST : Field := mk_Field 0 16.
Definition SGI1R_AFF1 : Field := mk_Field 16 8.
Definition SGI1R_INTID : Field := mk_Field 24 4.
Definition SGI1R_AFF2 : Field := mk_Field 32 8.
Definition SGI1R_IRM : Field := mk_Field 40 1.
Definition SGI1R_AFF3 : Field := mk_Field 48 8.

Definition icc_write (r : Reg) (fv : FieldValue) : GM unit := rset Icc r 0 (fv_value fv).

Definition init_current_cpu (rd : nat) (s : SecurityState) : GM unit :=
  _ ← wake rd;
  _ ← init_sgi_ppi rd s;
  _ ← rd_wait_for_rwp rd;
  _ ← (if current_el =? 2
       then icc_write ICC_SRE_EL2 (fv_add (fv_add (fv_add (SET SRE_SRE) (SET SRE_DFB)) (SET SRE_DIB)) (SET SRE_ENABLE))
       else icc_write ICC_SRE_EL1 (fv_add (fv_add (SET SRE_SRE) (SET SRE_DFB)) (SET SRE_DIB)));
  _ ← icc_write ICC_PMR_EL1 (val ICC_PMR_PRIORITY 0xFF);
  _ ← match s with
      | Single =>
          _ ← icc_write ICC_IGRPEN0_EL1 (SET ICC_IGRPEN_ENABLE);
          _ ← icc_write ICC_IGRPEN1_EL1 (SET ICC_IGRPEN_ENABLE);
          rmodify Icc ICC_CTLR_EL1 (SET ICC_CTLR_CBPR)
      | Secure =>
          _ ← icc_write ICC_IGRPEN0_EL1 (SET ICC_IGRPEN_ENABLE);
          icc_write ICC_IGRPEN1_EL1 (SET ICC_IGRPEN_ENABLE)
      | NonSecure =>
          _ ← icc_write ICC_IGRPEN1_EL1 (SET ICC_IGRPEN_ENABLE);
          rmodify Icc ICC_CTLR_EL1 (SET ICC_CTLR_CBPR)
      end;
  if current_el =? 2 then rmodify Icc ICC_CTLR_EL1 (SET ICC_CTLR_EOIMODE) else mret tt.

Definition set_eoi_mode (is_two_step : bool) : GM unit :=
  rmodify Icc ICC_CTLR_EL1 (if is_two_step then SET ICC_CTLR_EOIMODE else CLEAR ICC_CTLR_EOIMODE).
Definition eoi_mode : GM bool := v ← rget Icc ICC_CTLR_EL1 0; mret (is_set ICC_CTLR_EOIMODE v).
Definition ack0 : GM IntId := v ← rget Icc ICC_IAR0_EL1 0; mret (read ICC_INTID v).
Definition ack1 : GM IntId := v ← rget Icc ICC_IAR1_EL1 0; mret (read ICC_INTID v).
Definition eoi0 (id : IntId) : GM unit := icc_write ICC_EOIR0_EL1 (val ICC_INTID id).
Definition eoi1 (id : IntId) : GM unit := icc_write ICC_EOIR1_EL1 (val ICC_INTID id).
Definition dir (id : IntId) : GM unit := icc_write ICC_DIR_EL1 (val ICC_INTID id).
Definition set_priority_mask (mask : Z) : GM unit := icc_write ICC_PMR_EL1 (val ICC_PMR_PRIORITY mask).

(** The word [send_sgi] writes. *)
Definition sgi1r (sgi_num : Z) (t : SGITarget) : Z :=
  fv_value match t with
  | All => fv_add (val SGI1R_INTID sgi_num) (SET SGI1R_IRM)
  | List t =>
      fv_add (fv_add (fv_add (fv_add (val SGI1R_INTID sgi_num) (val SGI1R_AFF3 (tl_aff3 t)))
        (val SGI1R_AFF2 (tl_aff2 t))) (val SGI1R_AFF1 (tl_aff1 t))) (val SGI1R_TARGETLIST (target_list t))
  end.
Definition send_sgi (id : IntId) (t : SGITarget) : GM unit :=
  _ ← assertM (is_sgi id); rset Icc ICC_SGI1R_EL1 0 (sgi1r id t).
End V3.
