(* ===== verification/GicProof.v ===== *)
(** * The ARM interrupt controller: the hardware's laws and GICv2

    The class [GicHw] states what the architecture promises of the registers
    the driver configures; the theorems about the drivers are proved against
    it, and a register file in a finite map is an instance. *)

From stdpp Require Import base list numbers gmap.
From S2P Require Import Prelude Bits Tock Gic.
Open Scope Z_scope.

(** ** The hardware *)

(** Registers that read back what was written, where they have bits. *)
Definition plain (r : Reg) : bool :=
  match r with IGROUPR | IPRIORITYR | ITARGETSR | ICFGR | IGRPMODR | IROUTER | LR => true | _ => false end.

(** Writing ones to the second register of a pair clears bits of the first. *)
Definition clears (r : Reg) : option Reg :=
  match r with ICENABLER => Some ISENABLER | ICACTIVER => Some ISACTIVER | _ => None end.
Definition sets (r : Reg) : bool := match r with ISENABLER | ISACTIVER => true | _ => false end.

(** Registers whose value only the driver changes. *)
Definition stable (r : Reg) : bool := plain r || sets r || bool_decide (r = TYPER).

(** Registers whose writes have no other effect on those. *)
Definition config (r : Reg) : bool :=
  plain r || sets r || match r with CTLR | ICENABLER | ICACTIVER | ISPENDR | ICPENDR => true | _ => false end.

(** [wm b r i] has the bits that the device implements. *)
Class GicHw (D : Type) `{RegFile D} (wm : Frame → Reg → Z → Z) : Prop := {
  hw_touch b r i d : stable r = true ∨ r = CTLR → touch b r i d = d;
  hw_plain b r i v d : plain r = true →
    peek b r i (poke b r i v d) = Z.lor (Z.land v (wm b r i)) (Z.ldiff (peek b r i d) (wm b r i));
  hw_sets b r i v d : sets r = true →
    peek b r i (poke b r i v d) = Z.lor (peek b r i d) (Z.land v (wm b r i));
  hw_clears b r s i v d : clears r = Some s →
    peek b s i (poke b r i v d) = Z.ldiff (peek b s i d) (Z.land v (wm b s i));
  hw_other b r i v d b' r' i' : config r = true → stable r' = true →
    (b', r', i') ≠ (b, r, i) → ¬ (b' = b ∧ i' = i ∧ clears r = Some r') →
    peek b' r' i' (poke b r i v d) = peek b' r' i' d
}.

(** ** Bits *)

Lemma unot32_bit x n i : 0 ≤ n < 32 → 0 ≤ i < 32 →
  Z.testbit (Z.land x (unot 32 (Z.shiftl 1 n))) i = Z.testbit x i && negb (n =? i).
Proof.
  intros Hn Hi. rewrite Z.land_spec. f_equal.
  replace (unot 32 (Z.shiftl 1 n)) with (Z.ldiff (Z.ones 32) (Z.shiftl 1 n)).
  - rewrite Z.ldiff_spec, Z.ones_spec_low, Z.shiftl_1_l, Z.pow2_bits_eqb by lia. done.
  - unfold unot. rewrite Z.shiftl_1_l. rewrite <- Z.sub_nocarry_ldiff; [reflexivity|].
    apply Z.bits_inj'. intros j Hj. rewrite Z.ldiff_spec, Z.pow2_bits_eqb, Z.bits_0 by lia.
    destruct (Z.eqb_spec n j) as [->|]; [|done]. by rewrite Z.ones_spec_low by lia.
Qed.

Lemma bit_place id : 0 ≤ id → 0 ≤ id mod 32 < 32 ∧ id = id / 32 * 32 + id mod 32.
Proof. intros. pose proof (Z.mod_pos_bound id 32). pose proof (Z.div_mod id 32). lia. Qed.

(** Two ids share register and bit only if they are equal. *)
Lemma bit_place_inj id id' : 0 ≤ id → 0 ≤ id' → id' / 32 = id / 32 → id mod 32 = id' mod 32 → id' = id.
Proof. intros H1 H2 ? ?. destruct (bit_place id H1), (bit_place id' H2). lia. Qed.

Section Hw.
Context {D E : Type} `{RegFile D} `{Tock} (wm : Frame → Reg → Z → Z) {HW : GicHw D wm}.
Notation GM := (M D E).

(** ** Reading and writing *)

Lemma rget_run b r i (d : D) : stable r = true ∨ r = CTLR → 0 ≤ i < reg_len b r →
  rget (E := E) b r i d = (d, Ok (peek b r i d)).
Proof.
  intros Hs Hi. unfold rget. rewrite (proj2 (Z.leb_le _ _)), (proj2 (Z.ltb_lt _ _)) by lia. simpl.
  by rewrite (hw_touch b r i d Hs).
Qed.

Lemma rset_run b r i v (d : D) : 0 ≤ i < reg_len b r → rset (E := E) b r i v d = (poke b r i v d, Ok tt).
Proof. intros Hi. unfold rset. by rewrite (proj2 (Z.leb_le _ _)), (proj2 (Z.ltb_lt _ _)) by lia. Qed.

Lemma rset_out b r i v (d : D) : reg_len b r ≤ i → rset (E := E) b r i v d = (d, Stuck).
Proof. intros Hi. unfold rset. by rewrite (proj2 (Z.ltb_ge _ _) Hi), andb_false_r. Qed.

Lemma rget_out b r i (d : D) : reg_len b r ≤ i → rget (E := E) b r i d = (d, Stuck).
Proof. intros Hi. unfold rget. by rewrite (proj2 (Z.ltb_ge _ _) Hi), andb_false_r. Qed.

(** What a loop of writes leaves. *)
Fixpoint pokes (b : Frame) (r : Reg) (v : Z) (n : nat) (i : Z) (d : D) : D :=
  match n with O => d | S n => pokes b r v n (i + 1) (poke b r i v d) end.

Lemma for_range_run b r v n : ∀ i (d : D), 0 ≤ i → i + Z.of_nat n ≤ reg_len b r →
  for_range (E := E) n i (λ i, rset b r i v) d = (pokes b r v n i d, Ok tt).
Proof.
  induction n as [|n IH]; intros i d Hi Hn; [done|]. simpl.
  rewrite (bind_run _ _ _ _ _ (rset_run b r i v d ltac:(lia))). apply IH; lia.
Qed.

Lemma for_run b r v lo hi (d : D) : 0 ≤ lo → hi ≤ reg_len b r →
  for_ (E := E) lo hi (λ i, rset b r i v) d = (pokes b r v (Z.to_nat (hi - lo)) lo d, Ok tt).
Proof.
  intros Hlo Hhi. unfold for_. destruct (decide (lo ≤ hi)); [apply for_range_run; lia|].
  by replace (Z.to_nat (hi - lo)) with O by lia.
Qed.

(** The loop changes the register of index [j] when it comes by. *)
Lemma pokes_peek b r v b' r' j g :
  (∀ i d, peek b' r' j (poke b r i v d) = if decide (i = j) then g (peek b' r' j d) else peek b' r' j d) →
  ∀ n i (d : D), peek b' r' j (pokes b r v n i d) =
    if decide (i ≤ j < i + Z.of_nat n) then g (peek b' r' j d) else peek b' r' j d.
Proof.
  intros Hg. induction n as [|n IH]; intros i d; simpl; [by rewrite decide_False by lia|].
  rewrite IH, !Hg. destruct (decide (i = j)) as [->|Hne].
  - rewrite decide_False, decide_True by lia. done.
  - apply decide_ext. lia.
Qed.

Lemma pokes_other b r v b' r' j n i (d : D) : config r = true → stable r' = true →
  (b', r') ≠ (b, r) → clears r ≠ Some r' → peek b' r' j (pokes b r v n i d) = peek b' r' j d.
Proof.
  intros Hc Hs Hne Hcl. rewrite (pokes_peek b r v b' r' j id).
  - by destruct (decide _).
  - intros i' d'. rewrite (hw_other b r i' v d' b' r' j Hc Hs); [by destruct (decide _)|congruence|naive_solver].
Qed.

Lemma pokes_plain b r v j n i (d : D) : plain r = true →
  peek b r j (pokes b r v n i d) =
    if decide (i ≤ j < i + Z.of_nat n)
    then Z.lor (Z.land v (wm b r j)) (Z.ldiff (peek b r j d) (wm b r j)) else peek b r j d.
Proof.
  intros Hp. assert (Hs : stable r = true) by (unfold stable; by rewrite Hp).
  assert (Hc : config r = true) by (unfold config; by rewrite Hp).
  apply (pokes_peek b r v b r j (λ x, Z.lor (Z.land v (wm b r j)) (Z.ldiff x (wm b r j)))).
  intros i' d'. destruct (decide (i' = j)) as [->|Hne]; [by apply hw_plain|].
  apply (hw_other b r i' v d' b r j Hc Hs); [congruence|]. naive_solver.
Qed.

Lemma pokes_clears b r s v j n i (d : D) : clears r = Some s →
  peek b s j (pokes b r v n i d) =
    if decide (i ≤ j < i + Z.of_nat n) then Z.ldiff (peek b s j d) (Z.land v (wm b s j)) else peek b s j d.
Proof.
  intros Hr. assert (Hs : stable s = true ∧ config r = true ∧ r ≠ s) by (destruct r; simpl in Hr; simplify_eq; done).
  destruct Hs as (Hs & Hc & Hrs).
  apply (pokes_peek b r v b s j (λ x, Z.ldiff x (Z.land v (wm b s j)))).
  intros i' d'. destruct (decide (i' = j)) as [->|Hne]; [by apply hw_clears|].
  apply (hw_other b r i' v d' b s j Hc Hs); [congruence|]. naive_solver.
Qed.

(** ** The distributor of GICv2 as settings per interrupt *)

Record View : Type := mk_View {
  v_enabled : Z → bool;
  v_active : Z → bool;
  v_edge : Z → bool;
  v_priority : Z → Z;
  v_target : Z → Z
}.

(** Bit [id] of a bit vector of registers. *)
Definition vec_bit (r : Reg) (d : D) (id : Z) : bool := Z.testbit (peek Gicd r (id / 32) d) (id mod 32).
Definition cfg_is_edge (d : D) (id : Z) : bool := Z.testbit (peek Gicd ICFGR (id / 16) d) (id mod 16 * 2 + 1).

Definition view (d : D) : View :=
  mk_View (vec_bit ISENABLER d) (vec_bit ISACTIVER d) (cfg_is_edge d)
    (λ id, peek Gicd IPRIORITYR id d) (λ id, peek Gicd ITARGETSR id d).

(** Views agree on the ids the controller has. *)
Definition view_eq (v v' : View) : Prop := ∀ id, 0 ≤ id < 1024 →
  v_enabled v id = v_enabled v' id ∧ v_active v id = v_active v' id ∧ v_edge v id = v_edge v' id ∧
  v_priority v id = v_priority v' id ∧ v_target v id = v_target v' id.

#[local] Instance view_eq_equiv : Equivalence view_eq.
Proof.
  split.
  - intros v id _. done.
  - intros v v' Hv id Hid. destruct (Hv id Hid) as (? & ? & ? & ? & ?). done.
  - intros v1 v2 v3 H1 H2 id Hid. destruct (H1 id Hid) as (? & ? & ? & ? & ?), (H2 id Hid) as (? & ? & ? & ? & ?).
    split_and!; congruence.
Qed.

(** The configuring operations. *)
Inductive Cmd : Type :=
| CEnable (id : IntId) (b : bool)
| CActive (id : IntId) (b : bool)
| CCfg (id : IntId) (t : Trigger)
| CPriority (id : IntId) (p : Z)
| CTarget (id : IntId) (t : V2.TargetList).

Definition run_cmd (c : Cmd) : GM unit :=
  match c with
  | CEnable id b => V2.set_irq_enable id b
  | CActive id b => V2.set_active id b
  | CCfg id t => V2.set_cfg id t
  | CPriority id p => V2.set_priority id p
  | CTarget id t => V2.set_target_cpu id t
  end.

Fixpoint run_cmds (cs : list Cmd) : GM unit :=
  match cs with
  | [] => mret tt
  | c :: cs => _ ← run_cmd c; run_cmds cs
  end.

(** A byte register keeps the bits it does not have. *)
Definition merge (m v old : Z) : Z := Z.lor (Z.land v m) (Z.ldiff old m).

(** What an operation does to the settings: those of one interrupt. *)
Definition upd {X} (f : Z → X) (id : Z) (x : X) (id' : Z) : X := if decide (id' = id) then x else f id'.

Definition effect (c : Cmd) (v : View) : View :=
  match c with
  | CEnable id b => mk_View (upd (v_enabled v) id b) (v_active v) (v_edge v) (v_priority v) (v_target v)
  | CActive id b => mk_View (v_enabled v) (upd (v_active v) id b) (v_edge v) (v_priority v) (v_target v)
  | CCfg id t =>
      mk_View (v_enabled v) (v_active v) (upd (v_edge v) id (bool_decide (t = Edge))) (v_priority v) (v_target v)
  | CPriority id p =>
      mk_View (v_enabled v) (v_active v) (v_edge v)
        (upd (v_priority v) id (merge (wm Gicd IPRIORITYR id) p (v_priority v id))) (v_target v)
  | CTarget id t =>
      mk_View (v_enabled v) (v_active v) (v_edge v) (v_priority v)
        (upd (v_target v) id (merge (wm Gicd ITARGETSR id) t (v_target v id)))
  end.

(** The interrupt exists and the device has its bit. *)
Definition implemented (c : Cmd) : Prop :=
  match c with
  | CEnable id _ => 0 ≤ id < 1024 ∧ Z.testbit (wm Gicd ISENABLER (id / 32)) (id mod 32) = true
  | CActive id _ => 0 ≤ id < 1024 ∧ Z.testbit (wm Gicd ISACTIVER (id / 32)) (id mod 32) = true
  | CCfg id _ => 0 ≤ id < 1024 ∧ Z.testbit (wm Gicd ICFGR (id / 16)) (id mod 16 * 2 + 1) = true
  | CPriority id _ => 0 ≤ id < 1024
  | CTarget id _ => 32 ≤ id < 1024
  end.

Lemma effect_proper c v v' : view_eq v v' → implemented c → view_eq (effect c v) (effect c v').
Proof.
  intros Hv Hc id Hid. pose proof (Hv id Hid) as (H1 & H2 & H3 & H4 & H5).
  assert (Hat : ∀ i, 0 ≤ i < 1024 → v_priority v i = v_priority v' i ∧ v_target v i = v_target v' i)
    by (intros i Hi; destruct (Hv i Hi) as (? & ? & ? & ? & ?); done).
  destruct c as [i b|i b|i t|i p|i t]; simpl in *; unfold upd; split_and!; try done;
    try (destruct (decide (id = i)); done).
  - destruct (decide (id = i)); [|done]. by rewrite (proj1 (Hat i ltac:(lia))).
  - destruct (decide (id = i)); [|done]. by rewrite (proj2 (Hat i ltac:(lia))).
Qed.

(** Writes to other registers of the distributor. *)
Lemma poke_frame b r i v r' j (d : D) : config r = true → stable r' = true → r' ≠ r → clears r ≠ Some r' →
  peek b r' j (poke b r i v d) = peek b r' j d.
Proof. intros Hc Hs Hne Hcl. apply (hw_other b r i v d b r' j Hc Hs); [congruence|naive_solver]. Qed.

Lemma peek_other_index b r i v j (d : D) : config r = true → stable r = true → j ≠ i →
  peek b r j (poke b r i v d) = peek b r j d.
Proof. intros Hc Hs Hne. apply (hw_other b r i v d b r j Hc Hs); [congruence|]. naive_solver. Qed.

Lemma vec_bit_frame r i v r' (d : D) id : config r = true → stable r' = true → r' ≠ r → clears r ≠ Some r' →
  vec_bit r' (poke Gicd r i v d) id = vec_bit r' d id.
Proof. intros. unfold vec_bit. by rewrite poke_frame. Qed.

Lemma edge_frame r i v (d : D) id : config r = true → r ≠ ICFGR →
  cfg_is_edge (poke Gicd r i v d) id = cfg_is_edge d id.
Proof. intros Hc Hne. unfold cfg_is_edge. rewrite poke_frame; [done|done|done|congruence|by destruct r]. Qed.

(** Writing one bit to a set register. *)
Lemma vec_bit_set r (d : D) id id' : sets r = true → 0 ≤ id → 0 ≤ id' →
  Z.testbit (wm Gicd r (id / 32)) (id mod 32) = true →
  vec_bit r (poke Gicd r (id / 32) (Z.shiftl 1 (id mod 32)) d) id' = upd (vec_bit r d) id true id'.
Proof.
  intros Hr Hid Hid' Hw. destruct (bit_place id Hid) as [Hm _], (bit_place id' Hid') as [Hm' _].
  unfold vec_bit, upd. destruct (decide (id' / 32 = id / 32)) as [E1|E1].
  - rewrite E1, hw_sets, Z.lor_spec, Z.land_spec, Z.shiftl_1_l, Z.pow2_bits_eqb by (done || lia).
    destruct (decide (id' = id)) as [->|Hne]; [by rewrite Z.eqb_refl, Hw, orb_true_r|].
    rewrite (proj2 (Z.eqb_neq _ _)); [by rewrite orb_false_r|]. intros ?. by apply Hne, bit_place_inj.
  - rewrite decide_False by (intros ->; done).
    rewrite peek_other_index; [done|unfold config; by rewrite Hr, orb_true_r| |done].
    unfold stable. by rewrite Hr, orb_true_r.
Qed.

(** Writing one bit to a clear register. *)
Lemma vec_bit_clear r s (d : D) id id' : clears r = Some s → 0 ≤ id → 0 ≤ id' →
  Z.testbit (wm Gicd s (id / 32)) (id mod 32) = true →
  vec_bit s (poke Gicd r (id / 32) (Z.shiftl 1 (id mod 32)) d) id' = upd (vec_bit s d) id false id'.
Proof.
  intros Hr Hid Hid' Hw. destruct (bit_place id Hid) as [Hm _], (bit_place id' Hid') as [Hm' _].
  assert (Hs : stable s = true ∧ config r = true ∧ r ≠ s) by (destruct r; simpl in Hr; simplify_eq; done).
  destruct Hs as (Hs & Hc & Hrs).
  unfold vec_bit, upd. destruct (decide (id' / 32 = id / 32)) as [E1|E1].
  - rewrite E1, (hw_clears Gicd r s), Z.ldiff_spec, Z.land_spec, Z.shiftl_1_l, Z.pow2_bits_eqb by (done || lia).
    destruct (decide (id' = id)) as [->|Hne]; [by rewrite Z.eqb_refl, Hw, andb_false_r|].
    rewrite (proj2 (Z.eqb_neq _ _)); [by rewrite andb_true_r|]. intros ?. by apply Hne, bit_place_inj.
  - rewrite decide_False by (intros ->; done).
    rewrite (hw_other Gicd r _ _ _ Gicd s _ Hc Hs); [done|congruence|naive_solver].
Qed.

(** Replacing one bit of a register that is read and written back. *)
Definition put_bit (on : bool) (k x : Z) : Z :=
  if on then Z.lor x (Z.shiftl 1 k) else Z.land x (unot 32 (Z.shiftl 1 k)).

Lemma put_bit_at on k x i : 0 ≤ k < 32 → 0 ≤ i < 32 →
  Z.testbit (put_bit on k x) i = if decide (i = k) then on else Z.testbit x i.
Proof.
  intros Hk Hi. unfold put_bit. destruct on.
  - rewrite Z.lor_spec, Z.shiftl_1_l, Z.pow2_bits_eqb by lia.
    destruct (decide (i = k)) as [->|]; [by rewrite Z.eqb_refl, orb_true_r|].
    by rewrite (proj2 (Z.eqb_neq _ _)), orb_false_r by lia.
  - rewrite unot32_bit by done. destruct (decide (i = k)) as [->|]; [by rewrite Z.eqb_refl, andb_false_r|].
    by rewrite (proj2 (Z.eqb_neq _ _)), andb_true_r by lia.
Qed.

Lemma merge_bit m v old i : Z.testbit (merge m v old) i = if Z.testbit m i then Z.testbit v i else Z.testbit old i.
Proof.
  unfold merge. rewrite Z.lor_spec, Z.land_spec, Z.ldiff_spec.
  destruct (Z.testbit m i); simpl; [by rewrite andb_true_r, andb_false_r, orb_false_r|].
  by rewrite andb_false_r, andb_true_r.
Qed.

(** Writing back a register with one bit replaced changes this bit only. *)
Lemma poke_put_bit b r i on k (d : D) j : plain r = true → 0 ≤ k < 32 → 0 ≤ j < 32 →
  Z.testbit (wm b r i) k = true →
  Z.testbit (peek b r i (poke b r i (put_bit on k (peek b r i d)) d)) j =
    if decide (j = k) then on else Z.testbit (peek b r i d) j.
Proof.
  intros Hr Hk Hj Hw. rewrite hw_plain by done. fold (merge (wm b r i) (put_bit on k (peek b r i d)) (peek b r i d)).
  rewrite merge_bit, put_bit_at by done. destruct (decide (j = k)) as [->|]; [by rewrite Hw|].
  by destruct (Z.testbit (wm b r i) j).
Qed.

Lemma cfg_place id : 0 ≤ id → 0 ≤ id mod 16 * 2 + 1 < 32 ∧ id = id / 16 * 16 + id mod 16.
Proof. intros. pose proof (Z.mod_pos_bound id 16). pose proof (Z.div_mod id 16). lia. Qed.

Lemma edge_put (d : D) id on id' : 0 ≤ id → 0 ≤ id' →
  Z.testbit (wm Gicd ICFGR (id / 16)) (id mod 16 * 2 + 1) = true →
  cfg_is_edge (poke Gicd ICFGR (id / 16) (put_bit on (id mod 16 * 2 + 1) (peek Gicd ICFGR (id / 16) d)) d) id' =
    upd (cfg_is_edge d) id on id'.
Proof.
  intros Hid Hid' Hw. destruct (cfg_place id Hid) as [Hm Hd], (cfg_place id' Hid') as [Hm' Hd'].
  unfold cfg_is_edge, upd. destruct (decide (id' / 16 = id / 16)) as [E1|E1].
  - rewrite E1, poke_put_bit by done. rewrite E1 in Hd'.
    destruct (decide (id' = id)) as [->|Hne]; [by rewrite decide_True|]. rewrite decide_False by lia. done.
  - rewrite decide_False by (intros ->; done). by rewrite peek_other_index.
Qed.

(** The body of [set_cfg] for both triggers. *)
Lemma set_cfg_run id t (d : D) : 0 ≤ id < 1024 →
  V2.set_cfg (E := E) id t d =
    (poke Gicd ICFGR (id / 16) (put_bit (bool_decide (t = Edge)) (id mod 16 * 2 + 1) (peek Gicd ICFGR (id / 16) d)) d, Ok tt).
Proof.
  intros Hid. assert (Hr : 0 ≤ id / 16 < reg_len Gicd ICFGR) by (simpl; split; [apply Z.div_pos; lia|apply Z.div_lt_upper_bound; lia]).
  unfold V2.set_cfg. rewrite (bind_run _ _ d d tt).
  - rewrite (bind_run _ _ _ _ _ (rget_run Gicd ICFGR (id / 16) d (or_introl eq_refl) Hr)), rset_run by done.
    by destruct t.
  - unfold assertM. by rewrite (proj2 (Z.ltb_lt _ _)) by lia.
Qed.

Lemma assert_run (c : bool) (d : D) : c = true → assertM (E := E) c d = (d, Ok tt).
Proof. by intros ->. Qed.

Lemma vec_index id : 0 ≤ id < 1024 → 0 ≤ id / 32 < 32.
Proof. intros. split; [apply Z.div_pos; lia|apply Z.div_lt_upper_bound; lia]. Qed.

Lemma run_cmd_view c (d : D) : implemented c → ∃ d', run_cmd c d = (d', Ok tt) ∧ view_eq (view d') (effect c (view d)).
Proof.
  destruct c as [i b|i b|i t|i p|i t]; simpl; intros Hi.
  - destruct Hi as [Hi Hw]. pose proof (vec_index i Hi). unfold V2.set_irq_enable, set_irq_bit.
    destruct b; rewrite rset_run by done; (eexists; split; [reflexivity|]); intros id Hid; simpl;
      rewrite !poke_frame, edge_frame, (vec_bit_frame _ _ _ ISACTIVER) by done; split_and!; try done.
    + apply vec_bit_set; done || lia.
    + apply (vec_bit_clear ICENABLER ISENABLER); done || lia.
  - destruct Hi as [Hi Hw]. pose proof (vec_index i Hi). unfold V2.set_active, set_irq_bit.
    destruct b; rewrite rset_run by done; (eexists; split; [reflexivity|]); intros id Hid; simpl;
      rewrite !poke_frame, edge_frame, (vec_bit_frame _ _ _ ISENABLER) by done; split_and!; try done.
    + apply vec_bit_set; done || lia.
    + apply (vec_bit_clear ICACTIVER ISACTIVER); done || lia.
  - destruct Hi as [Hi Hw]. rewrite set_cfg_run by done. eexists. split; [reflexivity|]. intros id Hid. simpl.
    rewrite !poke_frame, (vec_bit_frame _ _ _ ISENABLER), (vec_bit_frame _ _ _ ISACTIVER) by done. split_and!; try done.
    apply edge_put; done || lia.
  - unfold V2.set_priority. rewrite (bind_run _ _ d d tt) by (apply assert_run, Z.ltb_lt; simpl; lia).
    rewrite rset_run by (simpl; lia). eexists. split; [reflexivity|]. intros id Hid. simpl.
    rewrite (poke_frame _ _ _ _ ITARGETSR), edge_frame, !vec_bit_frame by done. split_and!; try done.
    unfold upd. destruct (decide (id = i)) as [->|]; [by apply hw_plain|by apply peek_other_index].
  - unfold V2.set_target_cpu.
    rewrite (bind_run _ _ d d tt) by (apply assert_run; unfold is_private, SPI_START; apply negb_true_iff, Z.ltb_ge; lia).
    rewrite (bind_run _ _ d d tt) by (apply assert_run, Z.ltb_lt; simpl; lia).
    rewrite rset_run by (simpl; lia). eexists. split; [reflexivity|]. intros id Hid. simpl.
    rewrite (poke_frame _ _ _ _ IPRIORITYR), edge_frame, !vec_bit_frame by done. split_and!; try done.
    unfold upd. destruct (decide (id = i)) as [->|]; [by apply hw_plain|by apply peek_other_index].
Qed.

(** The accessors read the settings. *)
Definition reads (d : D) (v : View) (id : IntId) : Prop :=
  V2.is_irq_enable (E := E) id d = (d, Ok (v_enabled v id)) ∧
  V2.is_active (E := E) id d = (d, Ok (v_active v id)) ∧
  V2.get_cfg (E := E) id d = (d, Ok (if v_edge v id then Edge else Level)) ∧
  V2.get_priority (E := E) id d = (d, Ok (v_priority v id)) ∧
  (32 ≤ id → V2.get_target_cpu (E := E) id d = (d, Ok (v_target v id))).

Lemma get_irq_bit_run r id (d : D) : stable r = true → reg_len Gicd r = 0x20 → 0 ≤ id < 1024 →
  get_irq_bit (E := E) Gicd r id d = (d, Ok (vec_bit r d id)).
Proof.
  intros Hs Hr Hid. pose proof (vec_index id Hid). unfold get_irq_bit.
  rewrite (bind_run _ _ _ _ _ (rget_run Gicd r (id / 32) d (or_introl Hs) ltac:(lia))).
  unfold vec_bit. rewrite has_bit by (destruct (bit_place id); lia). done.
Qed.

Lemma reads_view (d : D) v id : view_eq (view d) v → 0 ≤ id < 1024 → reads d v id.
Proof.
  intros Hv Hid. unfold reads. destruct (Hv id Hid) as (<- & <- & <- & <- & <-). split_and!; simpl.
  - by apply get_irq_bit_run.
  - by apply get_irq_bit_run.
  - unfold V2.get_cfg. assert (Hr : 0 ≤ id / 16 < 0x40) by (split; [apply Z.div_pos; lia|apply Z.div_lt_upper_bound; lia]).
    rewrite (bind_run _ _ d d tt) by (apply assert_run, Z.ltb_lt; simpl; lia).
    rewrite (bind_run _ _ _ _ _ (rget_run Gicd ICFGR (id / 16) d (or_introl eq_refl) ltac:(simpl; lia))).
    unfold cfg_is_edge. rewrite has_bit by (destruct (cfg_place id); lia). done.
  - unfold V2.get_priority. rewrite (bind_run _ _ d d tt) by (apply assert_run, Z.ltb_lt; simpl; lia).
    apply rget_run; [by left|simpl; lia].
  - intros H32. unfold V2.get_target_cpu.
    rewrite (bind_run _ _ d d tt) by (apply assert_run; unfold is_private, SPI_START; apply negb_true_iff, Z.ltb_ge; lia).
    rewrite (bind_run _ _ d d tt) by (apply assert_run, Z.ltb_lt; simpl; lia).
    apply rget_run; [by left|simpl; lia].
Qed.

Lemma run_cmds_view cs : ∀ (d : D) v, Forall implemented cs → view_eq (view d) v →
  ∃ d', run_cmds cs d = (d', Ok tt) ∧ view_eq (view d') (foldl (λ v c, effect c v) v cs).
Proof.
  induction cs as [|c cs IH]; intros d v Hcs Hv; [by exists d|]. apply Forall_cons in Hcs as [Hc Hcs].
  destruct (run_cmd_view c d Hc) as (d1 & E1 & H1). simpl. rewrite (bind_run _ _ _ _ _ E1).
  apply IH; [done|]. rewrite H1. by apply effect_proper.
Qed.


(** The specifier of an interrupt in the device tree. *)
Definition fdt_cells (c : IrqConfig) : list Z :=
  let flag := match irq_trigger c with Edge => 1 | Level => 4 end in
  if irq_id c <? 16 then [irq_id c]
  else if irq_id c <? 32 then [1; irq_id c - 16; flag]
  else [0; irq_id c - 32; flag].

(** Specifiers are read back; software interrupts are edge-triggered. *)
Lemma fdt_roundtrip c : 0 ≤ irq_id c < 1020 → (irq_id c < 16 → irq_trigger c = Edge) →
  fdt_parse_irq_config (fdt_cells c) = Ok c.
Proof.
  destruct c as [id t]. unfold fdt_cells. simpl. intros Hid Ht. destruct (Z.ltb_spec id 16).
  - unfold fdt_parse_irq_config, intid_sgi, SGI_END. rewrite (proj2 (Z.ltb_lt _ _)) by lia. simpl. by rewrite Ht.
  - destruct (Z.ltb_spec id 32); unfold fdt_parse_irq_config, fdt_hwirq, SPI_START, PPI_START; simpl;
      rewrite uadd_ok by lia; simpl; destruct t; simpl; do 2 f_equal; lia.
Qed.

(** Setting up an interrupt from its specifier leaves it with its trigger and
    touches no other. *)
Theorem gic2_setup_by_fdt c (d : D) : 0 ≤ irq_id c < 1020 → (irq_id c < 16 → irq_trigger c = Edge) →
  implemented (CCfg (irq_id c) (irq_trigger c)) →
  ∃ d', V2.setup_irq_by_fdt (E := E) (fdt_cells c) d = (d', Ok (irq_id c)) ∧
    ∀ id, 0 ≤ id < 1024 → reads d' (effect (CCfg (irq_id c) (irq_trigger c)) (view d)) id.
Proof.
  intros Hid Ht Hi. destruct (run_cmd_view _ d Hi) as (d' & Er & Hv). simpl in Er.
  exists d'. unfold V2.setup_irq_by_fdt. rewrite fdt_roundtrip by done. rewrite (bind_run _ _ _ _ _ Er).
  split; [done|]. intros id Hid'. by apply reads_view.
Qed.

(** *** Initialisation *)

(** The interrupts the distributor says it has; the register arrays hold 1024. *)
Definition spi_lines (d : D) : Z := (read V2.TYPER_ITLinesNumber (peek Gicd TYPER 0 d) + 1) * 32.

Lemma spi_lines_range d : 32 ≤ spi_lines d ≤ 1024 ∧ (32 | spi_lines d).
Proof.
  unfold spi_lines. rewrite read_spec. simpl.
  pose proof (ones_land_range (Z.shiftr (peek Gicd TYPER 0 d) 0) 5 ltac:(lia)). split; [lia|]. by eexists.
Qed.

Lemma set_all_run r per v n (d : D) : 0 < per → 0 ≤ n → reg_len Gicd r * per = 1024 → n ≤ 1024 → (per | n) →
  V2.set_all (E := E) r per v n d = (pokes Gicd r v (Z.to_nat (n / per)) 0 d, Ok tt).
Proof.
  intros Hper Hn Hlen Hle [k ->]. unfold V2.set_all, div_ceil.
  replace ((k * per + per - 1) / per) with k by (apply Z.div_unique with (per - 1); lia).
  rewrite Z.min_l by nia. rewrite for_run by nia. rewrite Z.sub_0_r, Z.div_mul by lia. done.
Qed.

Lemma rmodify_run b fv (d : D) :
  rmodify (E := E) b CTLR fv d = (poke b CTLR 0 (fv_modify fv (peek b CTLR 0 d)) d, Ok tt).
Proof.
  assert (Hl : 0 ≤ 0 < reg_len b CTLR) by (by destruct b).
  unfold rmodify. rewrite (bind_run _ _ _ _ _ (rget_run b CTLR 0 d (or_intror eq_refl) Hl)). by apply rset_run.
Qed.

(** The device after [init]. *)
Definition init_end (d : D) : D :=
  let n := spi_lines d in
  let d := poke Gicd CTLR 0 (fv_modify (fv_add (CLEAR V2.CTLR_EnableGrp0) (CLEAR V2.CTLR_EnableGrp1)) (peek Gicd CTLR 0 d)) d in
  let d := pokes Gicd ICENABLER u32_max (Z.to_nat (n / 32)) 0 d in
  let d := pokes Gicd ICPENDR u32_max (Z.to_nat (n / 32)) 0 d in
  let d := pokes Gicd ICACTIVER u32_max (Z.to_nat (n / 32)) 0 d in
  let d := pokes Gicd IGROUPR 0 (Z.to_nat (n / 32)) 0 d in
  let d := pokes Gicd IPRIORITYR 0xA0 (Z.to_nat (n / 4 - 32)) 32 d in
  let d := pokes Gicd ITARGETSR 1 (Z.to_nat ((n - 32) / 4)) 8 d in
  let d := pokes Gicd ICFGR 0 (Z.to_nat (n / 16)) 0 d in
  poke Gicd CTLR 0 (fv_modify (fv_add (SET V2.CTLR_EnableGrp0) (SET V2.CTLR_EnableGrp1)) (peek Gicd CTLR 0 d)) d.

Lemma div_ceil_exact n k : 0 < k → (k | n) → div_ceil n k = n / k.
Proof. intros Hk [m ->]. unfold div_ceil. rewrite Z.div_mul by lia. symmetry. apply Z.div_unique with (k - 1); lia. Qed.

Lemma spi_lines_ctlr (d : D) v : spi_lines (poke Gicd CTLR 0 v d) = spi_lines d.
Proof. unfold spi_lines. by rewrite poke_frame. Qed.

Lemma configure_targets_run n (d : D) : 32 ≤ n ≤ 1024 → (4 | n - 32) →
  V2.configure_interrupt_targets (E := E) n d = (pokes Gicd ITARGETSR 1 (Z.to_nat ((n - 32) / 4)) 8 d, Ok tt).
Proof.
  intros Hn H4. unfold V2.configure_interrupt_targets. destruct (Z.leb_spec n 32) as [Hle|Hgt].
  { by replace n with 32 by lia. }
  rewrite div_ceil_exact by (done || lia). change (32 / 4) with 8.
  assert (0 ≤ (n - 32) / 4 ≤ 248) by (split; [apply Z.div_pos|apply Z.div_le_upper_bound]; lia).
  rewrite Z.min_l by (simpl; lia). rewrite for_run by (simpl; lia). by replace (8 + (n - 32) / 4 - 8) with ((n - 32) / 4) by lia.
Qed.

Lemma init_run (d : D) : V2.init (E := E) d = (init_end d, Ok tt).
Proof.
  destruct (spi_lines_range d) as [Hn H32].
  assert (H4 : (4 | spi_lines d) ∧ (4 | spi_lines d - 32) ∧ (16 | spi_lines d)).
  { destruct H32 as [k ->]. split_and!; [exists (8 * k)|exists (8 * k - 8)|exists (2 * k)]; lia. }
  destruct H4 as (H4 & H4' & H16).
  assert (Hmax : ∀ d0 v, d0 = poke Gicd CTLR 0 v d → V2.max_spi_num (E := E) d0 = (d0, Ok (spi_lines d))).
  { intros d0 v ->. unfold V2.max_spi_num.
    rewrite (bind_run _ _ _ _ _ (rget_run Gicd TYPER 0 _ (or_introl eq_refl) ltac:(simpl; lia))).
    rewrite poke_frame by done. done. }
  unfold V2.init, V2.gicd_disable. rewrite (bind_run _ _ _ _ _ (rmodify_run _ _ _)). rewrite (bind_run _ _ _ _ _ (Hmax _ _ eq_refl)).
  unfold V2.irq_disable_all, V2.pending_clear_all, V2.active_clear_all, V2.groups_all_to_0.
  assert (Hall : ∀ r per v d0, 0 < per → reg_len Gicd r * per = 1024 → (per | spi_lines d) →
    V2.set_all (E := E) r per v (spi_lines d) d0 = (pokes Gicd r v (Z.to_nat (spi_lines d / per)) 0 d0, Ok tt))
    by (intros; apply set_all_run; done || lia).
  rewrite (bind_run _ _ _ _ _ (Hall ICENABLER 32 _ _ ltac:(lia) eq_refl H32)).
  rewrite (bind_run _ _ _ _ _ (Hall ICPENDR 32 _ _ ltac:(lia) eq_refl H32)).
  rewrite (bind_run _ _ _ _ _ (Hall ICACTIVER 32 _ _ ltac:(lia) eq_refl H32)).
  rewrite (bind_run _ _ _ _ _ (Hall IGROUPR 32 _ _ ltac:(lia) eq_refl H32)).
  unfold V2.set_default_spi_priorities. rewrite (div_ceil_exact _ 4 ltac:(lia) H4).
  assert (Hq : 8 ≤ spi_lines d / 4 ≤ 256) by (split; [apply Z.div_le_lower_bound|apply Z.div_le_upper_bound]; lia).
  rewrite Z.min_l by (simpl; lia). rewrite (bind_run _ _ _ _ _ (for_run Gicd IPRIORITYR 0xA0 32 (spi_lines d / 4) _ ltac:(lia) ltac:(simpl; lia))).
  erewrite bind_run; [|apply (configure_targets_run (spi_lines d)); [lia|done]].
  unfold V2.configure_interrupt_config.
  rewrite (bind_run _ _ _ _ _ (Hall ICFGR 16 _ _ ltac:(lia) eq_refl H16)).
  unfold V2.gicd_enable. apply rmodify_run.
Qed.

(** Bits [id] of a vector of registers that a loop of writes covers. *)
Lemma vec_bit_pokes_clears r s n (d : D) id : clears r = Some s → 0 ≤ id < n → n ≤ 1024 → (32 | n) →
  Z.testbit (wm Gicd s (id / 32)) (id mod 32) = true →
  vec_bit s (pokes Gicd r u32_max (Z.to_nat (n / 32)) 0 d) id = false.
Proof.
  intros Hr Hid Hn [k ->] Hw. destruct (bit_place id) as [Hm Hp]; [lia|]. unfold vec_bit.
  rewrite (pokes_clears Gicd r s u32_max _ _ _ _ Hr).
  rewrite decide_True by (rewrite Z.div_mul by lia; assert (id / 32 < k) by (apply Z.div_lt_upper_bound; lia);
    assert (0 ≤ id / 32) by (apply Z.div_pos; lia); lia).
  change u32_max with (Z.ones 32).
  rewrite Z.ldiff_spec, Z.land_spec, Hw, Z.ones_spec_low by lia. apply andb_false_r.
Qed.

Lemma plain_zeroed r per n (d : D) id k : plain r = true → 0 < per → 0 ≤ id < n → (per | n) →
  Z.testbit (wm Gicd r (id / per)) k = true →
  Z.testbit (peek Gicd r (id / per) (pokes Gicd r 0 (Z.to_nat (n / per)) 0 d)) k = false.
Proof.
  intros Hr Hper Hid [m ->] Hw. rewrite pokes_plain by done. rewrite Z.div_mul by lia.
  assert (0 ≤ id / per < m) by (split; [apply Z.div_pos; lia|apply Z.div_lt_upper_bound; lia]).
  rewrite decide_True by lia. fold (merge (wm Gicd r (id / per)) 0 (peek Gicd r (id / per) d)).
  rewrite merge_bit, Hw. apply Z.bits_0.
Qed.

Lemma vec_bit_pokes_other r v n i s (d : D) id : config r = true → stable s = true → s ≠ r → clears r ≠ Some s →
  vec_bit s (pokes Gicd r v n i d) id = vec_bit s d id.
Proof. intros. unfold vec_bit. rewrite pokes_other; [done|done|done|congruence|done]. Qed.

(** The device implements the bits of interrupt [id]. *)
Definition full_bits (id : Z) : Prop :=
  Z.testbit (wm Gicd ISENABLER (id / 32)) (id mod 32) = true ∧
  Z.testbit (wm Gicd ISACTIVER (id / 32)) (id mod 32) = true ∧
  Z.testbit (wm Gicd IGROUPR (id / 32)) (id mod 32) = true ∧
  Z.testbit (wm Gicd ICFGR (id / 16)) (id mod 16 * 2 + 1) = true.

(** What [init] of the GICv2 distributor establishes: every interrupt of the
    device is disabled, inactive, in group 0 and level-triggered. The default
    priority reaches the ids from 32 to a quarter of their number only, and the
    default target the ids from 8 to a quarter past it; the other interrupts keep
    what they had. *)
Theorem gic2_init_spec (d : D) : ∃ d', V2.init (E := E) d = (d', Ok tt) ∧
  ∀ id, 0 ≤ id < spi_lines d → full_bits id →
    v_enabled (view d') id = false ∧ v_active (view d') id = false ∧
    vec_bit IGROUPR d' id = false ∧ v_edge (view d') id = false ∧
    v_priority (view d') id =
      (let old := v_priority (view d) id in
       if decide (32 ≤ id < spi_lines d / 4) then merge (wm Gicd IPRIORITYR id) 0xA0 old else old) ∧
    v_target (view d') id =
      (let old := v_target (view d) id in
       if decide (8 ≤ id < spi_lines d / 4) then merge (wm Gicd ITARGETSR id) 1 old else old).
Proof.
  exists (init_end d). split; [apply init_run|]. intros id Hid (Hw1 & Hw2 & Hw3 & Hw4).
  destruct (spi_lines_range d) as [Hn H32].
  assert (H16 : (16 | spi_lines d)) by (destruct H32 as [k ->]; exists (2 * k); lia).
  assert (Hq : (spi_lines d - 32) / 4 = spi_lines d / 4 - 8)
    by (replace (spi_lines d - 32) with (spi_lines d + (-8) * 4) by lia; rewrite Z.div_add by lia; lia).
  assert (8 ≤ spi_lines d / 4) by (apply Z.div_le_lower_bound; lia).
  unfold init_end. simpl. split_and!.
  - rewrite vec_bit_frame, !(vec_bit_pokes_other _ _ _ _ ISENABLER) by done.
    apply (vec_bit_pokes_clears ICENABLER ISENABLER); done || lia.
  - rewrite vec_bit_frame, !(vec_bit_pokes_other _ _ _ _ ISACTIVER) by done.
    apply (vec_bit_pokes_clears ICACTIVER ISACTIVER); done || lia.
  - rewrite vec_bit_frame, !(vec_bit_pokes_other _ _ _ _ IGROUPR) by done.
    unfold vec_bit. apply plain_zeroed; done || lia.
  - rewrite edge_frame by done. unfold cfg_is_edge. apply plain_zeroed; done || lia.
  - rewrite poke_frame, !(pokes_other _ _ _ Gicd IPRIORITYR) by done.
    rewrite pokes_plain, !(pokes_other _ _ _ Gicd IPRIORITYR), poke_frame by done. apply decide_ext. lia.
  - rewrite poke_frame, !(pokes_other _ _ _ Gicd ITARGETSR) by done.
    rewrite pokes_plain, !(pokes_other _ _ _ Gicd ITARGETSR), poke_frame by done. apply decide_ext. lia.
Qed.

(** *** Acknowledging *)

Definition ack_valid (a : V2.Ack) : Prop :=
  match a with
  | V2.AckSGI id cpu => 0 ≤ id < 16 ∧ 0 ≤ cpu < 8
  | V2.AckOther id => 16 ≤ id < 1024
  end.

Lemma ack_of_u32_of_ack a : ack_valid a → V2.ack_of_u32 (V2.u32_of_ack a) = a.
Proof.
  unfold V2.ack_of_u32, V2.u32_of_ack, is_sgi, SGI_END. destruct a as [id cpu|id]; simpl.
  - intros [Hid Hcpu]. fields. rewrite (proj2 (Z.leb_le _ _)), (proj2 (Z.ltb_lt _ _)) by lia. done.
  - intros Hid. fields. by rewrite (proj2 (Z.ltb_ge _ _)), andb_false_r by lia.
Qed.

Lemma ack_of_u32_valid v : ack_valid (V2.ack_of_u32 v).
Proof.
  unfold V2.ack_of_u32. set (id := read V2.IAR_InterruptID v).
  assert (Hid : 0 ≤ id < 1024) by (unfold id; rewrite read_spec; apply (ones_land_range _ 10); lia).
  assert (Hcpu : 0 ≤ read V2.IAR_CPUID v < 8) by (rewrite read_spec; apply (ones_land_range _ 3); lia).
  unfold is_sgi, SGI_END. destruct (Z.leb_spec 0 id), (Z.ltb_spec id 16); simpl; lia.
Qed.

(** The end of interrupt names what was acknowledged. The value read from
    the acknowledge register is taken apart into the interrupt and, for a software
    interrupt, its sender; [eoi] and [dir] put the same fields back, so the
    register they write reads as the same acknowledgement. *)
Theorem gic2_ack_eoi_roundtrip v (d : D) :
  let a := V2.ack_of_u32 v in
  ack_valid a ∧
  V2.eoi (E := E) a d = (poke Gicc EOIR 0 (V2.u32_of_ack a) d, Ok tt) ∧
  V2.dir (E := E) a d = (poke Gicc DIR 0 (V2.u32_of_ack a) d, Ok tt) ∧
  V2.ack_of_u32 (V2.u32_of_ack a) = a ∧
  read V2.IAR_InterruptID (V2.u32_of_ack a) = read V2.IAR_InterruptID v ∧
  (is_sgi (read V2.IAR_InterruptID v) = true → read V2.IAR_CPUID (V2.u32_of_ack a) = read V2.IAR_CPUID v).
Proof.
  intros a. pose proof (ack_of_u32_valid v) as Hv. fold a in Hv.
  split_and!; [done|by apply rset_run|by apply rset_run|by apply ack_of_u32_of_ack| |];
    unfold a, V2.ack_of_u32, V2.u32_of_ack in *; set (id := read V2.IAR_InterruptID v) in *.
  - destruct (is_sgi id); simpl in Hv; fields; done.
  - intros Hs. rewrite Hs in *. simpl in Hv. fields. done.
Qed.

(** *** List registers of the hypervisor interface *)

(** What survives: five bits of priority, moved up by three; the sender of
    software interrupts only. *)
Definition virq_normal (c : V2.VirtualInterruptConfig) : V2.VirtualInterruptConfig :=
  V2.mk_Virq (V2.virtual_id c) (V2.vpriority c mod 32 * 8) (V2.vstate c) (V2.group1 c)
    match V2.interrupt_type c with
    | V2.Hardware p => V2.Hardware p
    | V2.Software cpu e =>
        V2.Software (match cpu with
                     | Some x => if is_sgi (V2.virtual_id c) && negb (x =? 0) then Some x else None
                     | None => None
                     end) e
    end.

Definition virq_valid (c : V2.VirtualInterruptConfig) : Prop :=
  0 ≤ V2.virtual_id c < 1024 ∧
  match V2.interrupt_type c with
  | V2.Hardware p => 0 ≤ p < 1024
  | V2.Software cpu _ => match cpu with Some x => 0 ≤ x < 8 | None => True end
  end.

Lemma shift3_mod p : Z.shiftl (p mod 32) 3 mod 2 ^ 8 = p mod 32 * 8.
Proof. pose proof (Z.mod_pos_bound p 32). rewrite Z.shiftl_mul_pow2 by lia. apply Z.mod_small. lia. Qed.

Lemma state_of_val st : V2.state_of (V2.state_val st) = st ∧ 0 ≤ V2.state_val st < 4.
Proof. by destruct st. Qed.

Lemma lr_roundtrip c : virq_valid c → V2.lr_decode (V2.lr_encode c) = virq_normal c.
Proof.
  destruct c as [id p st g ty]. unfold virq_valid, V2.lr_decode, V2.lr_encode, virq_normal, is_set, SET. simpl.
  intros [Hid Hty]. destruct (state_of_val st) as [Hst Hr].
  assert (Hp : ∀ x, read V2.LR_Priority (fv_value (val V2.LR_Priority x)) = x mod 32) by (intros; apply read_val_mod; simpl; lia).
  assert (He : ∀ e : bool, is_set V2.LR_EOI (fv_value (val V2.LR_EOI (Z.b2z e))) = e)
    by (intros []; unfold is_set; fields; done).
  destruct ty as [cpu e|pid].
  - set (sg := is_sgi id). destruct g, e, cpu as [x|]; try destruct sg; fields; rewrite ?Hp; fields;
      rewrite ?shift3_mod, ?Hst; simpl; try done; destruct (Z.eqb_spec x 0); simplify_eq; done.
  - destruct g; fields; rewrite ?Hp; fields; rewrite ?shift3_mod, ?Hst; done.
Qed.
End Hw.

(** ** What modelling showed *)

Section Findings.
Context {D : Type} `{RegFile D} `{Tock} (wm : Frame → Reg → Z → Z) {HW : GicHw D wm}.

(** Moving one interrupt to group 1 on GICv2 moves the others of its register
    to group 0: [set_irq_bit] writes the single bit. *)
Theorem gic2_group1_overwrites {E} id id' (d : D) : 0 ≤ id < 1024 → 0 ≤ id' < 1024 → id' / 32 = id / 32 → id' ≠ id →
  Z.testbit (wm Gicd IGROUPR (id / 32)) (id' mod 32) = true →
  ∃ d', V2.set_interrupt_group1 (E := E) id true d = (d', Ok tt) ∧ vec_bit IGROUPR d' id' = false.
Proof.
  intros Hid Hid' Hreg Hne Hw. pose proof (vec_index id Hid).
  eexists. split; [by apply rset_run|]. unfold vec_bit. rewrite Hreg, hw_plain by done.
  match goal with |- context [Z.lor (Z.land ?v ?m) (Z.ldiff ?o ?m)] => fold (merge m v o) end.
  destruct (bit_place id ltac:(lia)) as [Hm _].
  rewrite merge_bit, Hw, Z.shiftl_1_l, Z.pow2_bits_eqb by lia. apply Z.eqb_neq. intros Hmod.
  apply Hne, bit_place_inj; lia.
Qed.

End Findings.

(** ** An instance *)

(** A register file as a function. *)
Definition Flat : Type := Frame → Reg → Z → Z.
Definition flat_wm : Frame → Reg → Z → Z := λ _ _ _, Z.ones 64.

#[export] Instance flat_regs : RegFile Flat := {
  peek b r i d := d b r i;
  touch _ _ _ d := d;
  poke b r i v d := λ b' r' i',
    if decide ((b', i') = (b, i)) then
      if decide (r' = r) then
        if sets r then Z.lor (d b r i) (Z.land v (Z.ones 64)) else merge (Z.ones 64) v (d b r i)
      else if decide (clears r = Some r') then Z.ldiff (d b r' i) (Z.land v (Z.ones 64))
      else d b' r' i'
    else d b' r' i'
}.

#[export] Instance flat_hw : GicHw Flat flat_wm.
Proof.
  split; simpl; unfold flat_wm.
  - done.
  - intros b r i v d Hp. rewrite !decide_True by done. destruct r; done.
  - intros b r i v d Hs. rewrite !decide_True by done. by rewrite Hs.
  - intros b r s i v d Hc. rewrite decide_True by done. rewrite decide_False by (destruct r; simpl in Hc; simplify_eq; done).
    by rewrite decide_True.
  - intros b r i v d b' r' i' _ _ Hne Hcl. destruct (decide ((b', i') = (b, i))) as [[= -> ->]|]; [|done].
    destruct (decide (r' = r)) as [->|]; [done|]. destruct (decide (clears r = Some r')); [|done]. naive_solver.
Qed.

(** All registers 0, eight groups of 32 lines, and two CPUs. *)
Definition flat0 : Flat := λ b r _,
  match b, r with
  | Gicd, TYPER => 7
  | Gicr 0, TYPER => 0
  | Gicr 1, TYPER => Z.lor (Z.shiftl 1 32) 16
  | _, _ => 0
  end.


Lemma gic2_init_spec_witness :
  ∃ d', V2.init (E := Empty_set) flat0 = (d', Ok tt) ∧ v_enabled (view d') 100 = false ∧
    v_priority (view d') 40 = 0xA0 ∧ v_priority (view d') 100 = 0.
Proof.
  destruct (gic2_init_spec (E := Empty_set) flat_wm flat0) as (d' & Er & Hv). exists d'. split; [exact Er|].
  destruct (Hv 100) as (H1 & _ & _ & _ & H5 & _); [split; [lia|reflexivity]|repeat split|].
  destruct (Hv 40) as (_ & _ & _ & _ & H6 & _); [split; [lia|reflexivity]|repeat split|].
  split; [exact H1|]. split; [exact H6|exact H5].
Defined.

Lemma gic2_ack_eoi_roundtrip_witness :
  V2.ack_of_u32 0x802 = V2.AckSGI 2 2 ∧ V2.ack_of_u32 (V2.u32_of_ack (V2.AckSGI 2 2)) = V2.AckSGI 2 2.
Proof.
  destruct (gic2_ack_eoi_roundtrip (E := Empty_set) 0x802 flat0) as (_ & _ & _ & H1 & _). split; [reflexivity|exact H1].
Defined.
