(* ===== verification/Gic3Proof.v ===== *)
(** * The ARM interrupt controller: proofs about GICv3

    Routing of shared interrupts, the search for a CPU's redistributor, private
    interrupts and the targets of software interrupts, against the hardware of
    the file GicProof. *)

From stdpp Require Import base list numbers gmap.
From S2P Require Import Prelude Bits Tock Gic GicV3 GicProof.
Open Scope Z_scope.

Section Hw3.
Context {D : Type} `{RegFile D} `{Tock} (wm : Frame → Reg → Z → Z) {HW : GicHw D wm}.
Notation GM := (M D V3Error).

(** *** Routing *)

Definition u8 (x : Z) : Prop := 0 ≤ x < 256.
Definition aff_ok (a : Affinity) : Prop := u8 (aff0 a) ∧ u8 (aff1 a) ∧ u8 (aff2 a) ∧ u8 (aff3 a).

(** A byte of a word made of bytes at different places. *)
Lemma byte_bit x k i : u8 x → 0 ≤ k → 0 ≤ i → Z.testbit (Z.shiftl x k) i = (k <=? i) && (i <? k + 8) && Z.testbit x (i - k).
Proof.
  intros Hx Hk Hi. rewrite Z.shiftl_spec by done. destruct (Z.leb_spec k i); simpl; [|apply Z.testbit_neg_r; lia].
  destruct (Z.ltb_spec i (k + 8)); simpl; [done|]. apply (testbit_above x 8); [exact Hx|lia].
Qed.

Lemma unot64_bit x n i : 0 ≤ n < 64 → 0 ≤ i < 64 →
  Z.testbit (Z.land x (unot 64 (Z.shiftl 1 n))) i = Z.testbit x i && negb (n =? i).
Proof.
  intros Hn Hi. rewrite Z.land_spec. f_equal.
  replace (unot 64 (Z.shiftl 1 n)) with (Z.ldiff (Z.ones 64) (Z.shiftl 1 n)).
  - rewrite Z.ldiff_spec, Z.ones_spec_low, Z.shiftl_1_l, Z.pow2_bits_eqb by lia. done.
  - unfold unot. rewrite Z.shiftl_1_l. rewrite <- Z.sub_nocarry_ldiff; [reflexivity|].
    apply Z.bits_inj'. intros j Hj. rewrite Z.ldiff_spec, Z.pow2_bits_eqb, Z.bits_0 by lia.
    destruct (Z.eqb_spec n j) as [->|]; [|done]. by rewrite Z.ones_spec_low by lia.
Qed.

Lemma route_bit a i : aff_ok a → 0 ≤ i < 64 →
  Z.testbit (route_value (Some a)) i =
    ((i <? 8) && Z.testbit (aff0 a) i) || ((8 <=? i) && (i <? 16) && Z.testbit (aff1 a) (i - 8)) ||
    ((16 <=? i) && (i <? 24) && Z.testbit (aff2 a) (i - 16)) || ((32 <=? i) && (i <? 40) && Z.testbit (aff3 a) (i - 32)).
Proof.
  intros (Ha0 & Ha1 & Ha2 & Ha3) Hi. unfold route_value. rewrite unot64_bit by lia.
  rewrite Z.lor_0_l, !Z.lor_spec, !byte_bit by (done || lia). change (8 + 8) with 16. change (16 + 8) with 24.
  change (32 + 8) with 40.
  replace (Z.testbit (aff0 a) i) with ((i <? 8) && Z.testbit (aff0 a) i) at 1.
  - destruct (Z.eqb_spec 31 i) as [<-|]; simpl; [|by rewrite andb_true_r]. done.
  - destruct (Z.ltb_spec i 8); [done|]. symmetry. apply (testbit_above _ 8); [exact Ha0|lia].
Qed.

Lemma land_ff_bit x k i : 0 ≤ k → 0 ≤ i → Z.testbit (Z.land (Z.shiftr x k) 0xFF) i = (i <? 8) && Z.testbit x (i + k).
Proof.
  intros Hk Hi. rewrite Z.land_spec, Z.shiftr_spec by done. change 0xFF with (Z.ones 8).
  destruct (Z.ltb_spec i 8); [rewrite Z.ones_spec_low by lia; apply andb_true_r|].
  rewrite Z.ones_spec_high by lia. apply andb_false_r.
Qed.

Lemma route_byte a k x : aff_ok a → 0 ≤ k → k ≤ 56 → u8 x →
  (∀ i, 0 ≤ i < 8 → Z.testbit (route_value (Some a)) (i + k) = Z.testbit x i) →
  Z.land (Z.shiftr (route_value (Some a)) k) 0xFF = x.
Proof.
  intros Ha Hk Hk' Hx Hbits. apply Z.bits_inj'. intros i Hi. rewrite land_ff_bit by done.
  destruct (Z.ltb_spec i 8); simpl; [by apply Hbits|]. symmetry. apply (testbit_above x 8); [exact Hx|lia].
Qed.

Ltac route_cases i :=
  repeat match goal with
  | |- context [Z.ltb ?a ?b] => destruct (Z.ltb_spec a b); try lia
  | |- context [Z.leb ?a ?b] => destruct (Z.leb_spec a b); try lia
  end; simpl; rewrite ?orb_false_r; try (f_equal; lia).

Lemma route_roundtrip a : (∀ x, a = Some x → aff_ok x) → route_of (route_value a) = a.
Proof.
  intros Ha. destruct a as [a|]; [|done]. specialize (Ha a eq_refl). pose proof Ha as (Ha0 & Ha1 & Ha2 & Ha3).
  assert (Hm : has (route_value (Some a)) (Z.shiftl 1 31) = false) by (rewrite has_bit, route_bit by (done || lia); done).
  unfold route_of. rewrite Hm.
  replace (Z.land (route_value (Some a)) 0xFF) with (Z.land (Z.shiftr (route_value (Some a)) 0) 0xFF) by (by rewrite Z.shiftr_0_r).
  rewrite (route_byte a 0 (aff0 a)), (route_byte a 8 (aff1 a)), (route_byte a 16 (aff2 a)), (route_byte a 32 (aff3 a));
    try done; try (intros i Hi; rewrite route_bit by (done || lia); route_cases i).
  by destruct a.
Qed.

Lemma route_of_ext x y : (∀ i, 0 ≤ i < 40 → Z.testbit x i = Z.testbit y i) → route_of x = route_of y.
Proof.
  intros Hb. assert (Hbyte : ∀ k, 0 ≤ k ≤ 32 → Z.land (Z.shiftr x k) 0xFF = Z.land (Z.shiftr y k) 0xFF).
  { intros k Hk. apply Z.bits_inj'. intros i Hi. rewrite !land_ff_bit by lia.
    destruct (Z.ltb_spec i 8); simpl; [apply Hb; lia|done]. }
  unfold route_of. rewrite !has_bit, Hb by lia. destruct (Z.testbit y 31); [done|].
  rewrite <- (Z.shiftr_0_r x) at 1. rewrite <- (Z.shiftr_0_r y) at 1. by rewrite !Hbyte by lia.
Qed.

Lemma spi_range_ok id : 32 ≤ id < 1020 → in_spi_range id = true ∧ is_private id = false.
Proof.
  intros. unfold in_spi_range, is_private, SPI_START, SPI_END. split; [|apply Z.ltb_ge; lia].
  by rewrite (proj2 (Z.leb_le _ _)), (proj2 (Z.ltb_lt _ _)) by lia.
Qed.

Lemma assert3 (c : bool) (d : D) {X} (f : M D V3Error X) : c = true → (assertM c ≫= λ _ : unit, f) d = f d.
Proof. by intros ->. Qed.

Lemma get_route_run id (d : D) : 32 ≤ id < 1019 →
  get_target_cpu id d = (d, Ok (route_of (peek Gicd IROUTER (id - 32) d))).
Proof.
  intros Hid. destruct (spi_range_ok id ltac:(lia)) as [Hr Hp].
  unfold get_target_cpu, get_interrupt_route. rewrite assert3 by (by rewrite Hp).
  rewrite Hr, (proj2 (Z.ltb_lt _ _)) by (simpl; lia).
  by rewrite (bind_run _ _ _ _ _ (rget_run wm Gicd IROUTER (id - 32) d (or_introl eq_refl) ltac:(simpl; lia))).
Qed.

(** Routing of shared interrupts on GICv3. A target set for an interrupt
    below 1019, a CPU or any CPU, is the target read back, and the targets of the
    others do not change. The last shared interrupt, 1019, has no register in the
    driver's array: its target cannot be set, and reads as any CPU. *)
Theorem gic3_route_roundtrip id a (d : D) :
  (∀ x, a = Some x → aff_ok x) → (∀ i, 0 ≤ i < 40 → Z.testbit (wm Gicd IROUTER (id - 32)) i = true) →
  (32 ≤ id < 1019 → ∃ d', set_target_cpu id a d = (d', Ok tt) ∧ get_target_cpu id d' = (d', Ok a) ∧
    ∀ id', 32 ≤ id' < 1019 → id' ≠ id → (get_target_cpu id' d').2 = (get_target_cpu id' d).2) ∧
  (id = 1019 → set_target_cpu id a d = (d, Ok tt) ∧ get_target_cpu id d = (d, Ok None)).
Proof.
  intros Ha Hw. split.
  - intros Hid. destruct (spi_range_ok id ltac:(lia)) as [Hr Hp].
    exists (poke Gicd IROUTER (id - 32) (route_value a) d). split_and!.
    + unfold set_target_cpu, set_interrupt_route. rewrite assert3 by (by rewrite Hp).
      rewrite Hr, (proj2 (Z.leb_gt _ _)) by (simpl; lia). apply rset_run. simpl. lia.
    + rewrite get_route_run by done. do 2 f_equal.
      transitivity (route_of (route_value a)); [|by apply route_roundtrip].
      apply route_of_ext. intros i Hi. rewrite (hw_plain Gicd IROUTER) by done.
      fold (merge (wm Gicd IROUTER (id - 32)) (route_value a) (peek Gicd IROUTER (id - 32) d)).
      by rewrite merge_bit, Hw.
    + intros id' Hid' Hne. rewrite !get_route_run by done. simpl.
      rewrite (peek_other_index wm) by (done || lia). done.
  - intros ->. split.
    + unfold set_target_cpu, set_interrupt_route. by rewrite assert3.
    + unfold get_target_cpu, get_interrupt_route. by rewrite assert3.
Qed.

(** *** Redistributors *)

(** The frames [0 .. n] in memory; the last one has the flag. *)
Definition rd_affinity (d : D) (k : nat) : Z := read RD_TYPER_Affinity (peek (Gicr k) TYPER 0 d).
Definition rd_layout (n : nat) (d : D) : Prop :=
  ∀ k, (k ≤ n)%nat → (0 < read RD_TYPER_Last (peek (Gicr k) TYPER 0 d) ↔ k = n).

Lemma rd_typer_run k (d : D) : rget (E := V3Error) (Gicr k) TYPER 0 d = (d, Ok (peek (Gicr k) TYPER 0 d)).
Proof. apply (rget_run wm); [by left|simpl; lia]. Qed.

(** The search visits the frames in order and stops at the first match, or
    after the last. *)
Lemma find_rd_run n want : ∀ fuel k (d : D), rd_layout n d → (k ≤ n)%nat → (n < fuel + k)%nat →
  for_rd fuel k stuck (λ rd, t ← rget (Gicr rd) TYPER 0;
      mret (if read RD_TYPER_Affinity t =? want then Some rd else None)) d =
    (d, match list_find (λ j, rd_affinity d j = want) (seq k (n + 1 - k)) with Some (_, j) => Ok j | None => Stuck end).
Proof.
  induction fuel as [|fuel IH]; intros k d Hl Hk Hf; [lia|].
  replace (n + 1 - k)%nat with (S (n - k)) by lia. simpl.
  rewrite (bind_run _ _ _ _ _ (rd_typer_run k d)). cbv zeta.
  rewrite (bind_run _ _ d d (if rd_affinity d k =? want then Some k else None))
    by (rewrite (bind_run _ _ _ _ _ (rd_typer_run k d)); done).
  destruct (Z.eqb_spec (rd_affinity d k) want) as [He|He].
  - by rewrite decide_True.
  - rewrite decide_False by done. destruct (Z.ltb_spec 0 (read RD_TYPER_Last (peek (Gicr k) TYPER 0 d))) as [Hlast|Hlast].
    + apply Hl in Hlast as ->; [|done]. by rewrite Nat.sub_diag.
    + assert (k ≠ n) by (intros ->; pose proof (proj2 (Hl n ltac:(lia)) eq_refl); lia).
      rewrite IH by (done || lia). replace (n + 1 - S k)%nat with (n - k)%nat by lia.
      by destruct (list_find _ (seq (S k) (n - k))) as [[? ?]|].
Qed.

(** The running CPU is the [k]-th of [n + 1]. *)
Definition runs_on (mpidr : Z) (n k : nat) (d : D) : Prop :=
  rd_layout n d ∧ (k ≤ n)%nat ∧ ∀ j, (j ≤ n)%nat → rd_affinity d j = Z.land mpidr 0xFFFFFF ↔ j = k.

Lemma current_rd_run mpidr fuel n k (d : D) : runs_on mpidr n k d → (n < fuel)%nat →
  current_rd mpidr fuel d = (d, Ok k).
Proof.
  intros (Hl & Hk & Hu) Hf. unfold current_rd, find_rd. rewrite (find_rd_run n) by (done || lia). f_equal.
  destruct (list_find _ _) as [[p j]|] eqn:E.
  - apply list_find_Some in E as (Hj & Ha & _). apply lookup_seq in Hj. f_equal. apply Hu; [lia|done].
  - exfalso. eapply (list_find_None (λ j, rd_affinity d j = Z.land mpidr 0xFFFFFF)) in E.
    rewrite Forall_forall in E. apply (E k); [apply elem_of_seq; lia|by apply Hu].
Qed.

Lemma poke_typer b r i v k (d : D) : config r = true → r ≠ TYPER → clears r ≠ Some TYPER →
  peek (Gicr k) TYPER 0 (poke b r i v d) = peek (Gicr k) TYPER 0 d.
Proof. intros Hc Hr Hcl. apply (hw_other b r i v d (Gicr k) TYPER 0 Hc eq_refl); [congruence|naive_solver]. Qed.

Lemma runs_on_poke mpidr n k b r i v (d : D) : config r = true → r ≠ TYPER → clears r ≠ Some TYPER →
  runs_on mpidr n k d → runs_on mpidr n k (poke b r i v d).
Proof.
  intros Hc Hr Hcl (Hl & Hk & Hu). split_and!; [|done|].
  - intros j Hj. rewrite poke_typer by done. by apply Hl.
  - intros j Hj. unfold rd_affinity. rewrite poke_typer by done. by apply Hu.
Qed.

Lemma private_id id : 0 ≤ id < 32 → is_private id = true ∧ id_bit id = Z.shiftl 1 id.
Proof. intros. unfold is_private, id_bit, SPI_START. by rewrite (proj2 (Z.ltb_lt _ _)), Z.mod_small by lia. Qed.

(** The bit of a private interrupt after writing to the set or clear register. *)
Lemma private_bit k id (b : bool) (d : D) j id' : 0 ≤ id < 32 → 0 ≤ id' < 32 →
  Z.testbit (wm (Gicr k) ISENABLER 0) id = true →
  Z.testbit (peek (Gicr j) ISENABLER 0
    (poke (Gicr k) (if b then ISENABLER else ICENABLER) 0 (Z.shiftl 1 id) d)) id' =
  if decide ((j, id') = (k, id)) then b else Z.testbit (peek (Gicr j) ISENABLER 0 d) id'.
Proof.
  intros Hid Hid' Hw. destruct (decide (j = k)) as [->|Hne].
  - destruct b; [rewrite hw_sets, Z.lor_spec by done|rewrite (hw_clears _ ICENABLER ISENABLER), Z.ldiff_spec by done];
      rewrite Z.land_spec, Z.shiftl_1_l, Z.pow2_bits_eqb by lia;
      (destruct (decide _) as [[= ->]|Hn]; [rewrite Z.eqb_refl, Hw|rewrite (proj2 (Z.eqb_neq _ _)) by congruence]);
      simpl; by rewrite ?orb_true_r, ?orb_false_r, ?andb_true_r, ?andb_false_r.
  - rewrite decide_False by congruence.
    rewrite (hw_other (Gicr k) (if b then ISENABLER else ICENABLER)); [done|by destruct b|done| |naive_solver].
    intros [= ? _]. by destruct Hne.
Qed.

(** A private interrupt on GICv3. Enabling or disabling it writes the
    redistributor whose affinity is the running CPU's: the driver finds it among
    the frames, the accessor then answers what was set, and no other private
    interrupt, of this or another CPU, changes. *)
Theorem gic3_private_enable mpidr fuel n k id (b : bool) (d : D) :
  runs_on mpidr n k d → (n < fuel)%nat → 0 ≤ id < 32 → Z.testbit (wm (Gicr k) ISENABLER 0) id = true →
  ∃ d', set_irq_enable mpidr fuel id b d = (d', Ok tt) ∧ is_irq_enable mpidr fuel id d' = (d', Ok b) ∧
    ∀ j id', 0 ≤ id' < 32 → (j, id') ≠ (k, id) →
      (is_interrupt_enabled j id' d').2 = (is_interrupt_enabled j id' d).2.
Proof.
  intros Hr Hf Hid Hw. destruct (private_id id Hid) as [Hp Hb].
  set (d' := poke (Gicr k) (if b then ISENABLER else ICENABLER) 0 (Z.shiftl 1 id) d).
  assert (Hr' : runs_on mpidr n k d') by (apply runs_on_poke; [by destruct b..|done]).
  assert (Hread : ∀ j id' d0, 0 ≤ id' < 32 →
    is_interrupt_enabled j id' d0 = (d0, Ok (Z.testbit (peek (Gicr j) ISENABLER 0 d0) id'))).
  { intros j id' d0 Hid'. unfold is_interrupt_enabled.
    rewrite (bind_run _ _ _ _ _ (rget_run wm (Gicr j) ISENABLER 0 d0 (or_introl eq_refl) ltac:(simpl; lia))).
    rewrite (proj2 (private_id id' Hid')), has_bit by lia. done. }
  exists d'. split_and!.
  - unfold set_irq_enable. rewrite Hp, (bind_run _ _ _ _ _ (current_rd_run _ _ _ _ _ Hr Hf)).
    unfold set_enable_interrupt. rewrite Hb. apply rset_run. destruct b; simpl; lia.
  - unfold is_irq_enable. rewrite Hp, (bind_run _ _ _ _ _ (current_rd_run _ _ _ _ _ Hr' Hf)), Hread by done.
    unfold d'. by rewrite private_bit, decide_True.
  - intros j id' Hid' Hne. rewrite !Hread by done. simpl. unfold d'. by rewrite private_bit, decide_False.
Qed.

(** *** Trigger of a private interrupt *)

Definition rd_edge (d : D) (k : nat) (id : Z) : bool := Z.testbit (peek (Gicr k) ICFGR (cfg_reg id) d) (cfg_bit id).

Lemma cfg_place3 id : 0 ≤ id < 32 → 0 ≤ cfg_bit id < 32 ∧ 0 ≤ cfg_reg id < 6 ∧ cfg_bit id = 2 * (id - 16 * cfg_reg id) + 1.
Proof.
  intros Hid. unfold cfg_bit, cfg_reg, is_sgi, SGI_END.
  destruct (Z.leb_spec 0 id), (Z.ltb_spec id 16); simpl; try lia.
  - rewrite Z.mod_small by lia. lia.
  - replace (id mod 16) with (id - 16) by (apply (Z.mod_unique_pos _ _ 1); lia). lia.
Qed.

Lemma clean_or_bit x k t i : 0 ≤ k < 32 → 0 ≤ i < 32 →
  Z.testbit (Z.lor (Z.land x (unot 32 (Z.shiftl 1 k))) (Z.shiftl (match t with Edge => 1 | Level => 0 end) k)) i =
    if decide (i = k) then bool_decide (t = Edge) else Z.testbit x i.
Proof.
  intros Hk Hi. rewrite Z.lor_spec, unot32_bit by done.
  assert (Hb : Z.testbit (Z.shiftl (match t with Edge => 1 | Level => 0 end) k) i = bool_decide (t = Edge) && (k =? i)).
  { destruct t; simpl; [rewrite Z.shiftl_1_l; apply Z.pow2_bits_eqb; lia|by rewrite Z.shiftl_0_l, Z.bits_0]. }
  rewrite Hb. destruct (decide (i = k)) as [->|Hne].
  - by rewrite Z.eqb_refl, andb_true_r, andb_false_r.
  - by rewrite (proj2 (Z.eqb_neq _ _)), andb_false_r, andb_true_r, orb_false_r by lia.
Qed.

(** One frame. *)
Lemma set_cfgr_run k id t (d : D) : 0 ≤ id < 32 → Z.testbit (wm (Gicr k) ICFGR (cfg_reg id)) (cfg_bit id) = true →
  ∃ d', set_cfgr k id t d = (d', Ok tt) ∧
    (∀ j, peek (Gicr j) TYPER 0 d' = peek (Gicr j) TYPER 0 d) ∧
    ∀ j id', 0 ≤ id' < 32 → rd_edge d' j id' = if decide ((j, id') = (k, id)) then bool_decide (t = Edge) else rd_edge d j id'.
Proof.
  intros Hid Hw. destruct (cfg_place3 id Hid) as (Hb & Hr & He).
  eexists. split; [|split].
  - unfold set_cfgr.
    rewrite (bind_run _ _ _ _ _ (rget_run wm (Gicr k) ICFGR (cfg_reg id) d (or_introl eq_refl) ltac:(simpl; lia))).
    by rewrite rset_run by (simpl; lia).
  - intros j. by apply poke_typer.
  - intros j id' Hid'. destruct (cfg_place3 id' Hid') as (Hb' & Hr' & He'). unfold rd_edge.
    destruct (decide (j = k ∧ cfg_reg id' = cfg_reg id)) as [[-> Ereg]|Hne].
    + rewrite Ereg, hw_plain by done.
      match goal with |- context [Z.lor (Z.land ?v ?m) (Z.ldiff ?o ?m)] => fold (merge m v o) end.
      rewrite merge_bit, clean_or_bit by done. destruct (decide (id' = id)) as [->|Hn].
      * by rewrite !decide_True, Hw.
      * rewrite (decide_False (P := cfg_bit id' = cfg_bit id)) by lia. rewrite decide_False by congruence.
        by destruct (Z.testbit (wm (Gicr k) ICFGR (cfg_reg id)) (cfg_bit id')).
    + rewrite decide_False by (intros [= -> ->]; by apply Hne).
      rewrite (hw_other (Gicr k) ICFGR); [done|done|done| |naive_solver]. intros [= -> E]. by apply Hne.
Qed.

Lemma set_cfg_frames n id t : ∀ fuel k (d : D), rd_layout n d → (k ≤ n)%nat → (n < fuel + k)%nat → 0 ≤ id < 32 →
  (∀ j, (j ≤ n)%nat → Z.testbit (wm (Gicr j) ICFGR (cfg_reg id)) (cfg_bit id) = true) →
  ∃ d', for_rd fuel k (mret tt) (λ rd, _ ← set_cfgr rd id t; mret None) d = (d', Ok tt) ∧
    (∀ j, peek (Gicr j) TYPER 0 d' = peek (Gicr j) TYPER 0 d) ∧
    ∀ j id', 0 ≤ id' < 32 → rd_edge d' j id' =
      if decide (id' = id ∧ (k ≤ j ≤ n)%nat) then bool_decide (t = Edge) else rd_edge d j id'.
Proof.
  induction fuel as [|fuel IH]; intros k d Hl Hk Hf Hid Hw; [lia|]. simpl.
  rewrite (bind_run _ _ _ _ _ (rd_typer_run k d)). cbv zeta.
  destruct (set_cfgr_run k id t d Hid (Hw k Hk)) as (d1 & E1 & Ht1 & He1).
  rewrite (bind_run _ _ d d1 None) by (by rewrite (bind_run _ _ _ _ _ E1)).
  destruct (Z.ltb_spec 0 (read RD_TYPER_Last (peek (Gicr k) TYPER 0 d))) as [Hlast|Hlast].
  - apply Hl in Hlast as ->; [|done]. exists d1. split_and!; [done|done|]. intros j id' Hid'. rewrite He1 by done.
    apply decide_ext. split; [intros [= -> ->]; lia|]. intros [-> ?]. f_equal. lia.
  - assert (k ≠ n) by (intros ->; pose proof (proj2 (Hl n ltac:(lia)) eq_refl); lia).
    destruct (IH (S k) d1) as (d' & E' & Ht' & He'); [|lia|lia|done|done|].
    { intros j Hj. rewrite Ht1. by apply Hl. }
    exists d'. split_and!; [done|intros j; by rewrite Ht'|]. intros j id' Hid'. rewrite He', He1 by done.
    destruct (decide (id' = id ∧ (S k ≤ j ≤ n)%nat)) as [[-> ?]|Hn]; [by rewrite decide_True by lia|].
    apply decide_ext. split; [intros [= -> ->]; lia|]. intros [-> ?]. f_equal. lia.
Qed.

(** The trigger of a private interrupt is set on every CPU: after
    [set_cfg] each redistributor of the machine answers with the new trigger, and
    the other private interrupts keep theirs; [get_cfg] on the running CPU reads
    it back. *)
Theorem gic3_private_cfg_everywhere mpidr fuel n k id t (d : D) :
  runs_on mpidr n k d → (n < fuel)%nat → 0 ≤ id < 32 →
  (∀ j, (j ≤ n)%nat → Z.testbit (wm (Gicr j) ICFGR (cfg_reg id)) (cfg_bit id) = true) →
  ∃ d', set_cfg fuel id t d = (d', Ok tt) ∧ get_cfg mpidr fuel id d' = (d', Ok t) ∧
    (∀ j, (j ≤ n)%nat → get_cfgr j id d' = (d', Ok t)) ∧
    ∀ j id', 0 ≤ id' < 32 → id' ≠ id → (get_cfgr j id' d').2 = (get_cfgr j id' d).2.
Proof.
  intros (Hl & Hk & Hu) Hf Hid Hw. destruct (private_id id Hid) as [Hp _].
  destruct (set_cfg_frames n id t fuel 0 d Hl) as (d' & E & Ht & He); [lia|lia|done|done|].
  assert (Hr' : runs_on mpidr n k d').
  { split_and!; [|done|].
    - intros j Hj. rewrite Ht. by apply Hl.
    - intros j Hj. unfold rd_affinity. rewrite Ht. by apply Hu. }
  assert (Hread : ∀ j id' d0, 0 ≤ id' < 32 → get_cfgr j id' d0 = (d0, Ok (if rd_edge d0 j id' then Edge else Level))).
  { intros j id' d0 Hid'. destruct (cfg_place3 id' Hid') as (? & ? & _). unfold get_cfgr.
    rewrite (bind_run _ _ _ _ _ (rget_run wm (Gicr j) ICFGR (cfg_reg id') d0 (or_introl eq_refl) ltac:(simpl; lia))).
    rewrite has_bit by lia. done. }
  assert (Hset : ∀ j, (j ≤ n)%nat → get_cfgr j id d' = (d', Ok t)).
  { intros j Hj. rewrite Hread, He, decide_True by (done || lia). by destruct t. }
  exists d'. split_and!; [| |exact Hset|].
  - unfold set_cfg. by rewrite Hp.
  - unfold get_cfg. rewrite Hp, (bind_run _ _ _ _ _ (current_rd_run _ _ _ _ _ Hr' Hf)). by apply Hset.
  - intros j id' Hid' Hne. rewrite !Hread by done. simpl. by rewrite He, decide_False by naive_solver.
Qed.
End Hw3.

(** ** Software interrupts of GICv3 *)

Lemma target_add_all_spec l : ∀ t t', Forall aff_ok l → 0 ≤ target_list t → target_add_all l t = Ok t' →
  tl_aff3 t' = tl_aff3 t ∧ tl_aff2 t' = tl_aff2 t ∧ tl_aff1 t' = tl_aff1 t ∧ 0 ≤ target_list t' ∧
  Forall (λ a, aff3 a = tl_aff3 t ∧ aff2 a = tl_aff2 t ∧ aff1 a = tl_aff1 t ∧ 0 ≤ aff0 a < 16) l ∧
  ∀ i, 0 ≤ i → Z.testbit (target_list t') i = Z.testbit (target_list t) i || bool_decide (i ∈ aff0 <$> l).
Proof.
  induction l as [|a l IH]; intros t t' Hl H0; simpl.
  { intros [= <-]. split_and!; try done. intros i _. by rewrite orb_false_r. }
  apply Forall_cons in Hl as [[Ha _] Hl]. unfold target_add. destruct (same_cluster a t) eqn:Es; [|done].
  unfold one_shl16. destruct (Z.ltb_spec (aff0 a) 16) as [Hlt|]; [|done]. simpl. intros Ht.
  assert (Hpos : 0 ≤ Z.lor (target_list t) (Z.shiftl 1 (aff0 a)))
    by (apply Z.lor_nonneg; split; [done|]; apply Z.shiftl_nonneg; lia).
  eapply IH in Ht as (E3 & E2 & E1 & Hp & Hf & Hb); [|done|done].
  simpl in *. unfold same_cluster in Es. bool_to_prop. unfold u8 in Ha.
  split_and!; [done|done|done|done|constructor; [split_and!; lia|done]|].
  intros i Hi. rewrite Hb, Z.lor_spec, Z.shiftl_1_l, Z.pow2_bits_eqb by lia. rewrite <- orb_assoc. f_equal.
  destruct (Z.eqb_spec (aff0 a) i) as [<-|Hne]; simpl; symmetry.
  - rewrite bool_decide_eq_true. apply elem_of_cons. by left.
  - apply bool_decide_ext. rewrite elem_of_cons. naive_solver.
Qed.

Lemma target_new_spec l t : Forall aff_ok l → target_new l = Ok t →
  0 ≤ target_list t ∧
  (∀ a, a ∈ l → tl_aff3 t = aff3 a ∧ tl_aff2 t = aff2 a ∧ tl_aff1 t = aff1 a ∧ 0 ≤ aff0 a < 16) ∧
  ∀ i, 0 ≤ i → Z.testbit (target_list t) i = bool_decide (i ∈ aff0 <$> l).
Proof.
  intros Hl. destruct l as [|a0 l].
  { intros [= <-]. split_and!; [done|intros a []%not_elem_of_nil|]. intros i _. apply Z.bits_0. }
  unfold target_new. intros Ht. eapply target_add_all_spec in Ht as (E3 & E2 & E1 & Hp & Hf & Hb); [|done|done].
  split_and!; [done| |].
  - intros a Hin. rewrite Forall_forall in Hf. destruct (Hf a Hin) as (-> & -> & -> & ?). done.
  - intros i Hi. rewrite Hb by done. simpl target_list. by rewrite Z.bits_0.
Qed.

Section Sgi3.
Context {D : Type} `{RegFile D} `{Tock}.

(** The targets of a software interrupt on GICv3. The word [send_sgi]
    writes for a target list holds the interrupt, the cluster of the list and one
    bit per CPU of it: the CPUs it names are exactly those the list was made from. *)
Theorem gic3_sgi_targets l t id (d : D) : Forall aff_ok l → 0 ≤ id < 16 → target_new l = Ok t →
  (∀ a, a ∈ affinity_list t ↔ a ∈ l) ∧
  ∃ w, send_sgi id (List t) d = (poke Icc ICC_SGI1R_EL1 0 w d, Ok tt) ∧
    read SGI1R_INTID w = id ∧ read SGI1R_IRM w = 0 ∧
    ∀ a, a ∈ l → Z.testbit (read SGI1R_TARGETLIST w) (aff0 a) = true ∧
      read SGI1R_AFF1 w = aff1 a ∧ read SGI1R_AFF2 w = aff2 a ∧ read SGI1R_AFF3 w = aff3 a.
Proof.
  intros Hl Hid Ht.
  destruct (target_new_spec l t Hl Ht) as (Hpos & Hs & Hb).
  assert (Hrange : 0 ≤ target_list t < 2 ^ 16).
  { split; [done|]. destruct (decide (target_list t = 0)) as [->|]; [done|].
    apply Z.log2_lt_pow2; [lia|]. apply Z.nle_gt. intros Hlog.
    pose proof (Z.bit_log2 (target_list t) ltac:(lia)) as Hbit. rewrite Hb in Hbit by lia.
    apply bool_decide_eq_true, list_elem_of_fmap in Hbit as (a & Ha & Hin). destruct (Hs a Hin) as (_ & _ & _ & ?). lia. }
  assert (Hu : ∀ a, a ∈ l → aff_ok a) by (rewrite Forall_forall in Hl; exact Hl).
  split.
  - intros a. unfold affinity_list. rewrite list_elem_of_fmap. split.
    + intros (i & -> & [Hi Hseq]%list_elem_of_filter). apply elem_of_seqZ in Hseq.
      rewrite has_bit, Hb in Hi by lia. apply bool_decide_eq_true, list_elem_of_fmap in Hi as (a & -> & Hin).
      destruct (Hs a Hin) as (-> & -> & -> & _). by destruct a.
    + intros Hin. destruct (Hs a Hin) as (-> & -> & -> & ?). exists (aff0 a). split; [by destruct a|].
      apply list_elem_of_filter. split; [|apply elem_of_seqZ; lia]. rewrite has_bit, Hb by lia.
      apply bool_decide_eq_true, list_elem_of_fmap. by exists a.
  - exists (sgi1r id (List t)). split_and!.
    + unfold send_sgi, is_sgi, SGI_END. rewrite (proj2 (Z.leb_le _ _)), (proj2 (Z.ltb_lt _ _)) by lia. done.
    + unfold sgi1r. fields. done.
    + unfold sgi1r. fields. done.
    + intros a Hin. destruct (Hs a Hin) as (E3 & E2 & E1 & ?). destruct (Hu a Hin) as (? & ? & ? & ?). unfold u8 in *.
      unfold sgi1r. rewrite E3, E2, E1. fields. split_and!; try done. rewrite Hb by lia.
      apply bool_decide_eq_true, list_elem_of_fmap. by exists a.
Qed.
End Sgi3.

(** ** What modelling showed *)

Section Findings.
Context {D : Type} `{RegFile D} `{Tock} (wm : Frame → Reg → Z → Z) {HW : GicHw D wm}.

(** [disable] of GICv3 writes back the control register as it was: the values
    of cleared fields are 0. *)
Theorem gic3_disable_keeps_ctlr s (d : D) : 0 ≤ peek Gicd CTLR 0 d < 2 ^ 32 →
  disable s d = (poke Gicd CTLR 0 (peek Gicd CTLR 0 d) d, Ok tt).
Proof.
  intros Hc. assert (Hv : ∀ f, fv_value (CLEAR f) = 0) by (intros f; unfold CLEAR; by rewrite val_value, Z.land_0_l, Z.shiftl_0_l).
  unfold disable. rewrite (bind_run _ _ _ _ _ (rget_run wm Gicd CTLR 0 d (or_intror eq_refl) ltac:(simpl; lia))). cbv zeta.
  replace (Z.land (peek Gicd CTLR 0 d) (unot 32 _)) with (peek Gicd CTLR 0 d); [by apply rset_run|].
  assert (Hz : unot 32 0 = Z.ones 32) by done.
  destruct s; rewrite !fv_add_value, !Hv, ?Z.lor_0_l, Hz, Z.land_ones, Z.mod_small by lia; done.
Qed.

(** A CPU with a non-zero level 3 is never found: the driver looks for 24
    bits, the redistributor has 32. *)
Theorem gic3_aff3_not_found mpidr fuel n k (d : D) : rd_layout n d → (n < fuel)%nat → (k ≤ n)%nat →
  aff_ok (from_mpidr mpidr) → 0 < aff3 (from_mpidr mpidr) → rd_affinity d k = affinity (from_mpidr mpidr) →
  (current_rd mpidr fuel d).2 ≠ Ok k.
Proof.
  intros Hl Hf Hk (Ha0 & Ha1 & Ha2 & Ha3) Hpos Hk' Hfound. unfold current_rd, find_rd in Hfound.
  rewrite (find_rd_run wm n) in Hfound by (done || lia). simpl in Hfound.
  destruct (list_find _ _) as [[p j]|] eqn:E in Hfound; [|done]. injection Hfound as ->.
  apply list_find_Some in E as (_ & Haff & _). rewrite Hk' in Haff.
  assert (Hlow : affinity (from_mpidr mpidr) < 2 ^ 24).
  { rewrite Haff. change 0xFFFFFF with (Z.ones 24). rewrite Z.land_ones by lia. apply Z.mod_pos_bound. lia. }
  set (a := from_mpidr mpidr) in *.
  assert (Hle : Z.shiftl (aff3 a) 24 ≤ affinity a).
  { unfold affinity. rewrite Z.lor_comm. apply Z.ldiff_le; [|].
    - apply Z.lor_nonneg. rewrite Z.shiftl_nonneg. unfold u8 in *. split; [lia|].
      rewrite !Z.lor_nonneg, !Z.shiftl_nonneg. lia.
    - apply Z.bits_inj'. intros i Hi. rewrite Z.ldiff_spec, Z.lor_spec, Z.bits_0.
      destruct (Z.testbit (Z.shiftl (aff3 a) 24) i); done. }
  rewrite Z.shiftl_mul_pow2 in Hle by lia. change (2 ^ 24) with 16777216 in *. lia.
Qed.
End Findings.

(** ** Witnesses *)

Lemma gic3_route_roundtrip_witness :
  ∃ d', set_target_cpu 50 (Some (mk_Affinity 1 2 3 4)) flat0 = (d', Ok tt) ∧
    get_target_cpu 50 d' = (d', Ok (Some (mk_Affinity 1 2 3 4))).
Proof.
  destruct (gic3_route_roundtrip flat_wm 50 (Some (mk_Affinity 1 2 3 4)) flat0) as [H1 _].
  - intros x [= <-]. unfold aff_ok, u8. simpl. lia.
  - intros i Hi. apply Z.ones_spec_low. lia.
  - destruct H1 as (d' & E1 & E2 & _); [lia|]. exists d'. split; [exact E1|exact E2].
Defined.

Lemma flat0_runs_on : runs_on 1 1 1 flat0.
Proof.
  split; [|split].
  - intros [|[|k]] Hk; [| |lia]; vm_compute; split; intros Hx; congruence.
  - lia.
  - intros [|[|k]] Hk; [| |lia]; vm_compute; split; intros Hx; congruence.
Qed.

Lemma gic3_private_enable_witness :
  ∃ d', set_irq_enable 1 2 20 true flat0 = (d', Ok tt) ∧ is_irq_enable 1 2 20 d' = (d', Ok true).
Proof.
  destruct (gic3_private_enable flat_wm 1 2 1 1 20 true flat0) as (d' & E1 & E2 & _);
    [exact flat0_runs_on|lia|lia|reflexivity|]. exists d'. split; [exact E1|exact E2].
Defined.

Lemma gic3_private_cfg_everywhere_witness :
  ∃ d', set_cfg 2 20 Edge flat0 = (d', Ok tt) ∧ get_cfgr 0 20 d' = (d', Ok Edge) ∧ get_cfgr 1 20 d' = (d', Ok Edge).
Proof.
  destruct (gic3_private_cfg_everywhere flat_wm 1 2 1 1 20 Edge flat0) as (d' & E1 & _ & E2 & _);
    [exact flat0_runs_on|lia|lia|intros j _; reflexivity|].
  exists d'. split; [exact E1|]. split; apply E2; lia.
Defined.

Lemma gic3_sgi_targets_witness :
  ∃ w, send_sgi 3 (List (mk_TargetList 0 0 1 5)) flat0 = (poke Icc ICC_SGI1R_EL1 0 w flat0, Ok tt) ∧ read SGI1R_INTID w = 3.
Proof.
  destruct (gic3_sgi_targets [mk_Affinity 0 1 0 0; mk_Affinity 2 1 0 0] (mk_TargetList 0 0 1 5) 3 flat0)
    as (_ & w & E1 & E2 & _); [|lia|reflexivity|].
  - repeat constructor; simpl; lia.
  - exists w. split; [exact E1|exact E2].
Defined.
