(* ===== verification/Nvme.v ===== *)
(** * The NVMe driver

    driver/block/nvme: registers and doorbells (registers.rs), commands
    (command.rs, queue.rs), the rings of a queue pair in DMA memory (queue.rs),
    the controller (nvme.rs) and its face as a block device (block.rs).

    The controller is a state [V] behind registers. It sees memory and not the
    CPU's cache: a register write may make it work at once, and it works while
    the driver spins ([nv_idle]). Loops that
    wait for the controller take the number of polls as an argument. *)

From stdpp Require Import base list numbers gmap.
From S2P Require Import Prelude Bytes Tock Dma Block.
Open Scope Z_scope.

(** ** err.rs *)

Inductive NvError : Type :=
| NvNoMemory
| NvLayout
| NvDma (e : DmaError)
| NvUnknown.

Definition nv_of_dma (e : DmaError) : NvError :=
  match e with NoMemory => NvNoMemory | LayoutError => NvLayout | e => NvDma e end.

(** ** queue.rs: commands *)

Record CommandSet : Type := mk_CommandSet {
  cdw0 : Z;
  nsid : Z;
  cdw2 : Z * Z;
  metadata : Z;
  prp1 : Z;
  prp2 : Z;
  cdw10 : Z;
  cdw11 : Z;
  cdw12 : Z;
  cdw13 : Z;
  cdw14 : Z;
  cdw15 : Z
}.

(** [CommandSet::default]. *)
Definition cs_default : CommandSet := mk_CommandSet 0 0 (0, 0) 0 0 0 0 0 0 0 0 0.

(** [to_submission]: the bytes of the C layout. *)
Definition to_submission (c : CommandSet) : list Z :=
  le_bytes 4 (cdw0 c) ++ le_bytes 4 (nsid c) ++ le_bytes 4 (cdw2 c).1 ++ le_bytes 4 (cdw2 c).2 ++
  le_bytes 8 (metadata c) ++ le_bytes 8 (prp1 c) ++ le_bytes 8 (prp2 c) ++
  le_bytes 4 (cdw10 c) ++ le_bytes 4 (cdw11 c) ++ le_bytes 4 (cdw12 c) ++ le_bytes 4 (cdw13 c) ++
  le_bytes 4 (cdw14 c) ++ le_bytes 4 (cdw15 c).

(** command.rs: [Opcode::new]. *)
Definition opcode (generic function data_transfer : Z) : Z :=
  Z.lor (Z.lor (Z.shiftl generic 7) (Z.shiftl function 2)) data_transfer.
Definition CREATE_IO_SQ : Z := opcode 0 0 1.
Definition CREATE_IO_CQ : Z := opcode 0 1 1.
Definition IDENTIFY : Z := opcode 0 1 2.
Definition SET_FEATURES : Z := opcode 0 2 1.
Definition NVM_WRITE : Z := opcode 0 0 1.
Definition NVM_READ : Z := opcode 0 0 2.

Inductive Feature : Type := NumberOfQueues (nsq ncq : Z) | InterruptVectorConfiguration.
Definition to_cdw10 (f : Feature) : Z := match f with NumberOfQueues _ _ => 7 | InterruptVectorConfiguration => 9 end.

Definition CDW0_Opcode : Field := mk_Field 0 8.
Definition CDW0_CommandId : Field := mk_Field 16 16.

(** [next_id]: the counter before and after. *)
Definition next_id (ids : Z) : Z * Z := if ids =? 0xFFFF then (0, 0) else (ids + 1, ids).

Section Commands.
Context `{Tock}.

(** The commands take the id the counter gave. *)
Definition cdw0_from_opcode (op id : Z) : Z :=
  fv_value (fv_add (val CDW0_Opcode op) (val CDW0_CommandId id)).

Definition set_features (id : Z) (f : Feature) : CommandSet :=
  mk_CommandSet (cdw0_from_opcode SET_FEATURES id) 0 (0, 0) 0 0 0 (to_cdw10 f)
    (match f with NumberOfQueues nsq ncq => Z.lor nsq (Z.shiftl ncq 16 mod 2 ^ 32) | InterruptVectorConfiguration => 0 end)
    0 0 0 0.

Definition queue_dword (qid size : Z) : outcome NvError Z :=
  s ← usub size 1;
  Ok (Z.lor (Z.land qid 0xffff) (Z.shiftl (Z.land s 0xffff) 16)).

Definition create_io_completion_queue (id qid size paddr : Z) (contiguous irqs : bool) (vector : Z) : outcome NvError CommandSet :=
  dw10 ← queue_dword qid size;
  Ok (mk_CommandSet (cdw0_from_opcode CREATE_IO_CQ id) 0 (0, 0) 0 paddr 0 dw10
    (Z.lor (Z.lor (if contiguous then 1 else 0) (if irqs then 2 else 0)) (Z.shiftl vector 16 mod 2 ^ 32)) 0 0 0 0).

Definition create_io_submission_queue (id qid size paddr : Z) (contiguous : bool) (priority cqid nvm_set_id : Z) :
    outcome NvError CommandSet :=
  dw10 ← queue_dword qid size;
  Ok (mk_CommandSet (cdw0_from_opcode CREATE_IO_SQ id) 0 (0, 0) 0 paddr 0 dw10
    (Z.lor (Z.lor (if contiguous then 1 else 0) (Z.shiftl priority 1 mod 2 ^ 32)) (Z.shiftl cqid 16 mod 2 ^ 32))
    nvm_set_id 0 0 0).

(** [nvm_cmd_read] and [nvm_cmd_write]; [blk_num] is a [u16]. *)
Definition nvm_cmd (op id ns paddr starting_lba blk_num : Z) : CommandSet :=
  mk_CommandSet (cdw0_from_opcode op id) ns (0, 0) 0 paddr 0
    (Z.land starting_lba 0xFFFFFFFF) (Z.shiftr starting_lba 32) blk_num 0 0 0.
Definition nvm_cmd_read : Z → Z → Z → Z → Z → CommandSet := nvm_cmd NVM_READ.
Definition nvm_cmd_write : Z → Z → Z → Z → Z → CommandSet := nvm_cmd NVM_WRITE.
End Commands.

(** ** command.rs: what identify returns *)

Record NamespaceData : Type := mk_NamespaceData {
  namespace_size : Z;
  namespace_capacity : Z;
  namespace_nused : Z;
  ns_lba_size : Z;
  ns_metadata_size : Z
}.

(** [IdentifyNamespaceDataStructure::parse]. The page has 4096 bytes. [2u32.pow]
    panics when it overflows. *)
Definition parse_namespace (data : list Z) : outcome NvError (option NamespaceData) :=
  if word_at 0 4 data =? 0 then Ok None
  else
    let formatted := word_at 26 1 data in
    let has_metadata := Z.land (Z.shiftr formatted 4) 1 =? 1 in
    let idx := Z.land formatted 0xF in
    let '(fmt_metadata, fmt_size) :=
      if 0 <? idx then
        let o := (128 + 4 * Z.to_nat idx)%nat in (word_at o 2 data, word_at (o + 2) 1 data)
      else (0, 9) in
    lba ← (if fmt_size <? 32 then Ok (2 ^ fmt_size) else Stuck);
    Ok (Some (mk_NamespaceData (word_at 0 4 data) (word_at 4 4 data) (word_at 8 4 data) lba
      (if has_metadata then word_at 27 1 data else fmt_metadata))).

(** [IdentifyActiveNamespaceList::parse]: ids up to the first 0; [n] words are
    left. *)
Fixpoint parse_ids (n : nat) (data : list Z) : list Z :=
  match n with
  | O => []
  | S n => let id := word_at 0 4 data in if id =? 0 then [] else id :: parse_ids n (drop 4 data)
  end.
Definition parse_namespace_list (data : list Z) : list Z := parse_ids (length data / 4) data.

Record ControllerInfo : Type := mk_ControllerInfo {
  vendor_id : Z;
  product_id : Z;
  sqes_max : Z;
  sqes_min : Z;
  cqes_max : Z;
  cqes_min : Z;
  max_cmd : Z;
  number_of_namespaces : Z
}.

(** [IdentifyController::parse], at the offsets of [ControllerData]. *)
Definition parse_controller (data : list Z) : ControllerInfo :=
  let sqes := word_at 512 1 data in
  let cqes := word_at 513 1 data in
  mk_ControllerInfo (word_at 0 2 data) (word_at 2 2 data)
    (Z.shiftr sqes 4) (Z.land sqes 0xF) (Z.shiftr cqes 4) (Z.land cqes 0xF)
    (word_at 514 2 data) (word_at 516 4 data).

(** ** The controller's registers *)

Class NvmeHw (V : Type) : Type := {
  nv_read : Z → V → Z;
  nv_write : Z → Z → V * gmap Z Z → V * gmap Z Z;
  nv_idle : V * gmap Z Z → V * gmap Z Z
}.

Definition CAP : Z := 0x000.
Definition VS : Z := 0x008.
Definition CC : Z := 0x014.
Definition CSTS : Z := 0x01c.
Definition AQA : Z := 0x024.
Definition ASQ : Z := 0x028.
Definition ACQ : Z := 0x030.

Definition CAP_DSTRD : Field := mk_Field 32 4.
Definition VS_Major : Field := mk_Field 16 8.
Definition VS_Minor : Field := mk_Field 8 8.
Definition VS_Tertiary : Field := mk_Field 0 8.
Definition CC_Enable : Field := mk_Field 0 1.
Definition CC_IOSQES : Field := mk_Field 16 4.
Definition CC_IOCQES : Field := mk_Field 20 4.
Definition CSTS_RDY : Field := mk_Field 0 1.
Definition AQA_SQ : Field := mk_Field 0 12.
Definition AQA_CQ : Field := mk_Field 16 12.

(** ** The driver *)

Record SubmitQueue : Type := mk_SubmitQueue { sq_queue : DCommon; sq_tail : Z }.
Record CompleteQueue : Type := mk_CompleteQueue { cq_queue : DCommon; cq_head : Z; cq_phase : bool }.
Record NvmeQueue : Type := mk_NvmeQueue { qid : Z; sq : SubmitQueue; cq : CompleteQueue }.

Record NvmeCompletion : Type := mk_NvmeCompletion {
  cqe_result : Z;
  cqe_sq_head : Z;
  cqe_sq_id : Z;
  cqe_command_id : Z;
  cqe_status : Z
}.

Definition completion_of (bs : list Z) : NvmeCompletion :=
  mk_NvmeCompletion (word_at 0 8 bs) (word_at 8 2 bs) (word_at 10 2 bs) (word_at 12 2 bs) (word_at 14 2 bs).

(** [CompletionStatus]. *)
Definition phase (status : Z) : bool := 0 <? Z.land status 1.
Definition is_success (status : Z) : bool := Z.land status (Z.shiftl 1 1) =? 0.

Section Driver.
Context {V A : Type} `{NvmeHw V} `{DmaOp A} `{Tock}.
(** [DeviceDma::mask], and the polls a loop may take. *)
Context (mask : Z) (fuel : nat).

Record NvSt : Type := mk_NvSt { nv_hw : V; nv_mach : Mach; nv_alloc : A; nv_ids : Z }.
Notation NM := (M NvSt NvError).

(** Calls of the DMA interface, with the error converted. *)
Definition dma {X} (f : M (Mach * A) DmaError X) : NM X := λ s,
  let '((m, a), r) := f (nv_mach s, nv_alloc s) in
  (mk_NvSt (nv_hw s) m a (nv_ids s),
   match r with Ok x => Ok x | Err e => Err (nv_of_dma e) | Stuck => Stuck end).

Definition reg_read (o : Z) : NM Z := λ s, (s, Ok (nv_read o (nv_hw s))).
Definition reg_write (o v : Z) : NM unit := λ s,
  let '(h, g) := nv_write o v (nv_hw s, ram (nv_mach s)) in
  (mk_NvSt h (mk_Mach g (cache (nv_mach s))) (nv_alloc s) (nv_ids s), Ok tt).
Definition idle : NM unit := λ s,
  let '(h, g) := nv_idle (nv_hw s, ram (nv_mach s)) in
  (mk_NvSt h (mk_Mach g (cache (nv_mach s))) (nv_alloc s) (nv_ids s), Ok tt).

Definition take_id : NM Z := λ s,
  let '(ids, id) := next_id (nv_ids s) in (mk_NvSt (nv_hw s) (nv_mach s) (nv_alloc s) ids, Ok id).

(** *** registers.rs *)

Definition version : NM (Z * Z * Z) :=
  v ← reg_read VS; mret (read VS_Major v, read VS_Minor v, read VS_Tertiary v).

(** [spin_for_true] on the ready bit. *)
Fixpoint spin_ready (n : nat) (want : bool) : NM unit :=
  match n with
  | O => stuck
  | S n =>
      v ← reg_read CSTS;
      if Bool.eqb (is_set CSTS_RDY v) want then mret tt else _ ← idle; spin_ready n want
  end.

Definition reg_reset : NM unit := _ ← reg_write CC (fv_value (CLEAR CC_Enable)); spin_ready fuel false.
Definition setup_cc (sqes cqes : Z) : NM unit :=
  _ ← reg_write CC (fv_value (fv_add (fv_add (SET CC_Enable) (val CC_IOSQES sqes)) (val CC_IOCQES cqes)));
  spin_ready fuel true.
Definition ready_for_read_controller_info : NM unit :=
  _ ← reg_write CC (fv_value (SET CC_Enable)); spin_ready fuel true.

Definition set_admin_queue_size (sq_len cq_len : Z) : NM unit :=
  a ← lift (usub sq_len 1);
  b ← lift (usub cq_len 1);
  reg_write AQA (fv_value (fv_add (val AQA_SQ a) (val AQA_CQ b))).
Definition base_address (addr : Z) : Z := Z.land addr (unot 64 0xfff).

(** The doorbell of queue [y]; [k] is 0 for the tail of the submission queue
    and 1 for the head of the completion queue. *)
Definition doorbell (k y dstrd : Z) : Z := 0x1000 + (2 * y + k) * Z.shiftl 4 dstrd.
Definition ring_doorbell (k y v : Z) : NM unit :=
  cap ← reg_read CAP;
  reg_write (doorbell k y (read CAP_DSTRD cap)) v.

(** *** queue.rs *)

(** An element of the submission queue has 64 bytes, of the completion queue 16
    and the alignment of a [u64]. *)
Definition sq_len (q : SubmitQueue) : Z := array_len 64 (sq_queue q).
Definition cq_len (q : CompleteQueue) : Z := array_len 16 (cq_queue q).

Definition queue_new (id page_size nsq ncq : Z) : NM NvmeQueue :=
  s ← dma (new_zero_with_align mask 64 1 nsq page_size ToDevice);
  c ← dma (new_zero_with_align mask 16 8 ncq page_size FromDevice);
  mret (mk_NvmeQueue id (mk_SubmitQueue s 0) (mk_CompleteQueue c 0 false)).

(** [SubmitQueue::submit]; the answer is the new tail. *)
Definition submit (q : SubmitQueue) (data : CommandSet) : NM SubmitQueue :=
  _ ← dma (array_set 64 (sq_queue q) (sq_tail q) (to_submission data));
  let tail := sq_tail q + 1 in
  mret (mk_SubmitQueue (sq_queue q) (if sq_len q <=? tail then 0 else tail)).

(** [CompleteQueue::complete]. *)
Definition complete (q : CompleteQueue) : NM (option NvmeCompletion) :=
  o ← dma (array_read 16 (cq_queue q) (cq_head q));
  mret (match o with
        | None => None
        | Some bs => let e := completion_of bs in
                     if negb (Bool.eqb (phase (cqe_status e)) (cq_phase q)) then Some e else None
        end).

Definition advance (q : CompleteQueue) : CompleteQueue :=
  let next_head := cq_head q + 1 in
  if cq_len q <=? next_head then mk_CompleteQueue (cq_queue q) 0 (negb (cq_phase q))
  else mk_CompleteQueue (cq_queue q) next_head (cq_phase q).

Fixpoint spin_for_complete (n : nat) (q : CompleteQueue) : NM (CompleteQueue * NvmeCompletion) :=
  match n with
  | O => stuck
  | S n =>
      o ← complete q;
      match o with
      | Some e => mret (advance q, e)
      | None => _ ← idle; spin_for_complete n q
      end
  end.

(** [command_sync]: the queue, and the result of the command. *)
Definition command_sync (q : NvmeQueue) (data : CommandSet) : NM (NvmeQueue * outcome NvError unit) :=
  s ← submit (sq q) data;
  _ ← ring_doorbell 0 (qid q) (sq_tail s);
  '(c, e) ← spin_for_complete fuel (cq q);
  _ ← ring_doorbell 1 (qid q) (cq_head c);
  mret (mk_NvmeQueue (qid q) s c, if is_success (cqe_status e) then Ok tt else Err NvUnknown).

(** *** nvme.rs *)

Record Nvme : Type := mk_Nvme {
  admin_queue : NvmeQueue;
  io_queues : list NvmeQueue;
  num_ns : Z;
  sqes : Z;
  cqes : Z
}.

Record Config : Type := mk_Config { page_size : Z; io_queue_pair_count : Z }.

Record Namespace : Type := mk_Namespace { ns_id : Z; lba_size : Z; lba_count : Z; metadata_size : Z }.

(** An error as a value: the methods keep [self] on every path. *)
Definition attempt {X} (f : NM X) : NM (outcome NvError X) := λ s,
  match f s with
  | (s', Stuck) => (s', Stuck)
  | (s', r) => (s', Ok r)
  end.

(** [?] on a value. *)
Definition try_ {X Y} (nv : Nvme) (r : outcome NvError X) (k : X → NM (Nvme * outcome NvError Y)) :
    NM (Nvme * outcome NvError Y) :=
  match r with
  | Ok x => k x
  | Err e => mret (nv, Err e)
  | Stuck => stuck
  end.

Definition with_admin (q : NvmeQueue) (nv : Nvme) : Nvme := mk_Nvme q (io_queues nv) (num_ns nv) (sqes nv) (cqes nv).
Definition with_io (qs : list NvmeQueue) (nv : Nvme) : Nvme :=
  mk_Nvme (admin_queue nv) qs (num_ns nv) (sqes nv) (cqes nv).

Definition configure_admin_queue (nv : Nvme) : NM unit :=
  _ ← set_admin_queue_size (sq_len (sq (admin_queue nv))) (cq_len (cq (admin_queue nv)));
  _ ← reg_write ASQ (base_address (dc_dma (sq_queue (sq (admin_queue nv)))));
  reg_write ACQ (base_address (dc_dma (cq_queue (cq (admin_queue nv))))).

Definition admin_command (nv : Nvme) (c : CommandSet) : NM (Nvme * outcome NvError unit) :=
  '(q, r) ← command_sync (admin_queue nv) c; mret (with_admin q nv, r).

(** [get_identfy] for a command with namespace [ns] and [T::CNS]: the bytes. *)
Definition get_identfy (nv : Nvme) (ns cns : Z) : NM (Nvme * outcome NvError (list Z)) :=
  id ← take_id;
  b ← attempt (dma (new_zero_with_align mask 1 1 0x1000 0x1000 FromDevice));
  try_ nv b (λ buff,
    '(nv, r) ← admin_command nv
      (mk_CommandSet (cdw0_from_opcode IDENTIFY id) ns (0, 0) 0 (dc_dma buff) 0 cns 0 0 0 0 0);
    match r with
    | Ok _ => data ← dma (array_to_vec 1 buff); _ ← dma (dc_drop buff); mret (nv, Ok (concat data))
    | Err e => _ ← dma (dc_drop buff); mret (nv, Err e)
    | Stuck => stuck
    end).

(** The loop of [config_io_queue]; queue [i] is next, [n] are left. *)
Fixpoint create_io_queues (n : nat) (i : Z) (cfg : Config) (nv : Nvme) : NM (Nvme * outcome NvError unit) :=
  match n with
  | O => mret (nv, Ok tt)
  | S n =>
      q ← attempt (queue_new (i + 1) (page_size cfg) (2 ^ sqes nv) (2 ^ cqes nv));
      try_ nv q (λ q,
        id ← take_id;
        c ← lift (create_io_completion_queue id (qid q) (cq_len (cq q)) (dc_dma (cq_queue (cq q))) true false 0);
        '(nv, r) ← admin_command nv c;
        try_ nv r (λ _,
          id ← take_id;
          c ← lift (create_io_submission_queue id (qid q) (sq_len (sq q)) (dc_dma (sq_queue (sq q))) true 0 (qid q) 0);
          '(nv, r) ← admin_command nv c;
          try_ nv r (λ _, create_io_queues n (i + 1) cfg (with_io (io_queues nv ++ [q]) nv))))
  end.

Definition config_io_queue (nv : Nvme) (cfg : Config) : NM (Nvme * outcome NvError unit) :=
  let num := io_queue_pair_count cfg in
  n ← lift (usub (num mod 2 ^ 32) 1);
  id ← take_id;
  '(nv, r) ← admin_command nv (set_features id (NumberOfQueues n n));
  try_ nv r (λ _, create_io_queues (Z.to_nat num) 0 cfg nv).

(** The loop that waits for namespace 1. *)
Fixpoint wait_namespace (n : nat) (nv : Nvme) : NM (Nvme * outcome NvError unit) :=
  match n with
  | O => stuck
  | S n =>
      '(nv, r) ← get_identfy nv 1 0;
      try_ nv r (λ data,
        o ← lift (parse_namespace data);
        match o with Some _ => mret (nv, Ok tt) | None => wait_namespace n nv end)
  end.

Definition init (nv : Nvme) (cfg : Config) : NM (Nvme * outcome NvError unit) :=
  _ ← reg_reset;
  _ ← configure_admin_queue nv;
  _ ← ready_for_read_controller_info;
  '(nv, r) ← get_identfy nv 0 1;
  try_ nv r (λ data,
    let c := parse_controller data in
    let nv := mk_Nvme (admin_queue nv) (io_queues nv) (num_ns nv) (sqes_min c) (cqes_min c) in
    _ ← reg_reset;
    _ ← configure_admin_queue nv;
    _ ← setup_cc (sqes nv) (cqes nv);
    '(nv, r) ← get_identfy nv 0 1;
    try_ nv r (λ data,
      let c := parse_controller data in
      let nv := mk_Nvme (admin_queue nv) (io_queues nv) (number_of_namespaces c) (sqes nv) (cqes nv) in
      '(nv, r) ← config_io_queue nv cfg;
      try_ nv r (λ _, wait_namespace fuel nv))).

(** [new_with_bar]. *)
Definition nvme_new (cfg : Config) : NM (Nvme * outcome NvError unit) :=
  q ← queue_new 0 (page_size cfg) 64 64;
  if 0 <? io_queue_pair_count cfg then init (mk_Nvme q [] 0 6 4) cfg else stuck.

Fixpoint list_namespaces (ids : list Z) (nv : Nvme) : NM (Nvme * outcome NvError (list Namespace)) :=
  match ids with
  | [] => mret (nv, Ok [])
  | id :: ids =>
      '(nv, r) ← get_identfy nv id 0;
      try_ nv r (λ data,
        o ← lift (parse_namespace data);
        n ← lift (unwrap o);
        '(nv, r) ← list_namespaces ids nv;
        try_ nv r (λ rest,
          mret (nv, Ok (mk_Namespace id (ns_lba_size n) (namespace_size n) (ns_metadata_size n) :: rest))))
  end.
Definition namespace_list (nv : Nvme) : NM (Nvme * outcome NvError (list Namespace)) :=
  '(nv, r) ← get_identfy nv 0 2;
  try_ nv r (λ data, list_namespaces (parse_namespace_list data) nv).

(** The first I/O queue, or the panic of the index. *)
Definition io_command (nv : Nvme) (c : CommandSet) : NM (Nvme * outcome NvError unit) :=
  match io_queues nv with
  | [] => stuck
  | q :: qs => '(q, r) ← command_sync q c; mret (with_io (q :: qs) nv, r)
  end.

Definition block_write_sync (nv : Nvme) (ns : Namespace) (block_start : Z) (buff : list Z) :
    NM (Nvme * outcome NvError unit) :=
  _ ← (if is_multiple_of (Z.of_nat (length buff)) (lba_size ns) then mret tt else stuck);
  b ← attempt (dma (new_zero_with_align mask 1 1 (Z.of_nat (length buff)) (lba_size ns) ToDevice));
  try_ nv b (λ dma_buff,
    _ ← dma (copy_from_slice 1 dma_buff ((λ x, [x]) <$> buff));
    id ← take_id;
    '(nv, r) ← io_command nv (nvm_cmd_write id (ns_id ns) (dc_dma dma_buff) block_start
                 ((array_len 1 dma_buff / lba_size ns) mod 2 ^ 16));
    _ ← dma (dc_drop dma_buff);
    mret (nv, r)).

(** [block_read_sync] into the slice of [len] bytes at [addr]. *)
Definition block_read_sync (nv : Nvme) (ns : Namespace) (block_start addr len : Z) : NM (Nvme * outcome NvError unit) :=
  _ ← (if is_multiple_of len (lba_size ns) then mret tt else stuck);
  b ← attempt (dma (new_zero_with_align mask 1 1 len (lba_size ns) FromDevice));
  try_ nv b (λ dma_buff,
    id ← take_id;
    '(nv, r) ← io_command nv (nvm_cmd_read id (ns_id ns) (dc_dma dma_buff) block_start
                 ((array_len 1 dma_buff / lba_size ns) mod 2 ^ 16));
    match r with
    | Ok _ =>
        data ← dma (array_to_vec 1 dma_buff);
        _ ← dma (store addr (concat data));
        _ ← dma (dc_drop dma_buff);
        mret (nv, Ok tt)
    | Err e => _ ← dma (dc_drop dma_buff); mret (nv, Err e)
    | Stuck => stuck
    end).

(** *** block.rs *)

Record NvmeBlock : Type := mk_NvmeBlock {
  nb_nvme : Nvme;
  nb_namespace : Namespace;
  nb_irq_enabled : bool;
  nb_pending_irq : IdList;
  nb_completed : list Z;
  nb_next_request_id : Z;
  nb_next_queue_id : Z
}.

(** [with_namespace] and [from_nvme]. *)
Definition with_namespace (nv : Nvme) (ns : Namespace) : NvmeBlock := mk_NvmeBlock nv ns true id_none [] 1 0.
Definition from_nvme (nv : Nvme) : NM (Nvme * outcome NvError NvmeBlock) :=
  '(nv, r) ← namespace_list nv;
  try_ nv r (λ l, mret (nv, match l with ns :: _ => Ok (with_namespace nv ns) | [] => Err NvUnknown end)).

Definition nb_handle_irq (b : NvmeBlock) : NvmeBlock * IdList :=
  if nb_irq_enabled b then
    (mk_NvmeBlock (nb_nvme b) (nb_namespace b) true id_none (nb_completed b) (nb_next_request_id b) (nb_next_queue_id b),
     nb_pending_irq b)
  else (b, id_none).

(** [submit_request] of the queue [id]: the request id, or the error. *)
Definition nb_submit (id : Z) (b : NvmeBlock) (r : Request) : NM (NvmeBlock * outcome BlkError Z) :=
  let ns := nb_namespace b in
  if lba_count ns <=? block_id r then mret (b, Err (InvalidBlockIndex (block_id r)))
  else
    let req_id := nb_next_request_id b in
    next ← lift (uadd 64 req_id 1);
    let upd nv completed irq := mk_NvmeBlock nv ns (nb_irq_enabled b) irq completed next (nb_next_queue_id b) in
    let done_ (x : Nvme * outcome NvError unit) :=
      match x.2 with
      | Ok _ =>
          irq ← lift (if nb_irq_enabled b then id_insert id (nb_pending_irq b) else Ok (nb_pending_irq b));
          mret (upd x.1 (req_id :: nb_completed b) irq, Ok req_id)
      | Err e => mret (upd x.1 (nb_completed b) (nb_pending_irq b), Err (Other e))
      | Stuck => stuck
      end in
    match req_kind r with
    | Read buffer =>
        if buf_size buffer <? lba_size ns then mret (upd (nb_nvme b) (nb_completed b) (nb_pending_irq b), Err NotSupported)
        else x ← block_read_sync (nb_nvme b) ns (block_id r) (virt buffer) (lba_size ns); done_ x
    | Write buffer =>
        if negb (Z.of_nat (length buffer) =? lba_size ns)
        then mret (upd (nb_nvme b) (nb_completed b) (nb_pending_irq b), Err NotSupported)
        else x ← block_write_sync (nb_nvme b) ns (block_id r) buffer; done_ x
    end.

(** [poll_request]. *)
Definition nb_poll (b : NvmeBlock) (id : Z) : NvmeBlock * outcome BlkError unit :=
  if bool_decide (id ∈ nb_completed b) then
    (mk_NvmeBlock (nb_nvme b) (nb_namespace b) (nb_irq_enabled b) (nb_pending_irq b)
       (filter (λ i, i ≠ id) (nb_completed b)) (nb_next_request_id b) (nb_next_queue_id b), Ok tt)
  else (b, Err Retry).
End Driver.
