(* ===== verification/NvmeProof.v ===== *)
(** * The NVMe driver: proofs

    The wire format of commands, and the protocol of a queue pair: every command
    a driver sends on a queue is executed by the controller exactly once, in
    order, and its result is the one the driver gets. *)

From stdpp Require Import base list numbers gmap.
From S2P Require Import Prelude Bytes Tock Dma DmaProof Block Nvme.
Open Scope Z_scope.

(** ** Commands on the wire *)

(** The controller's view of 64 bytes: the layout of the specification. *)
Definition of_submission (bs : list Z) : CommandSet :=
  mk_CommandSet (word_at 0 4 bs) (word_at 4 4 bs) (word_at 8 4 bs, word_at 12 4 bs)
    (word_at 16 8 bs) (word_at 24 8 bs) (word_at 32 8 bs)
    (word_at 40 4 bs) (word_at 44 4 bs) (word_at 48 4 bs) (word_at 52 4 bs) (word_at 56 4 bs) (word_at 60 4 bs).

(** Fields in the range of their types. *)
Definition u32 (v : Z) : Prop := 0 ≤ v < 2 ^ 32.
Definition u64 (v : Z) : Prop := 0 ≤ v < 2 ^ 64.
Definition cs_ok (c : CommandSet) : Prop :=
  u32 (cdw0 c) ∧ u32 (nsid c) ∧ u32 (cdw2 c).1 ∧ u32 (cdw2 c).2 ∧
  u64 (metadata c) ∧ u64 (prp1 c) ∧ u64 (prp2 c) ∧
  u32 (cdw10 c) ∧ u32 (cdw11 c) ∧ u32 (cdw12 c) ∧ u32 (cdw13 c) ∧ u32 (cdw14 c) ∧ u32 (cdw15 c).

Lemma length_to_submission c : length (to_submission c) = 64%nat.
Proof. unfold to_submission. by rewrite !length_app, !length_le_bytes. Qed.

(** A command the driver writes is the command the controller decodes: each
    field is at the offset the specification gives it, and they fill the 64
    bytes of an entry. *)
Lemma to_submission_decodes c : cs_ok c → of_submission (to_submission c) = c.
Proof.
  destruct c as [f1 f2 [f3 f3'] f4 f5 f6 f7 f8 f9 f10 f11 f12].
  unfold cs_ok, u32, u64. simpl. intros Hok. destruct_and! Hok.
  unfold of_submission, to_submission. simpl cdw0; simpl nsid; simpl cdw2; simpl metadata; simpl prp1; simpl prp2;
  simpl cdw10; simpl cdw11; simpl cdw12; simpl cdw13; simpl cdw14; simpl cdw15. cbn [fst snd].
  f_equal; [| |f_equal|..]; words.
Qed.

(** ** The controller's side of the protocol *)

(** A queue pair as the controller sees it: the entry it takes next, the entry
    it fills next and the phase it writes. *)
Record Ring : Type := mk_Ring {
  r_sq : Z;
  r_sqn : Z;
  r_sqh : Z;
  r_cq : Z;
  r_cqn : Z;
  r_cqt : Z;
  r_phase : bool
}.

Definition next_of (n i : Z) : Z := if n <=? i + 1 then 0 else i + 1.
Definition ring_next (r : Ring) : Ring :=
  mk_Ring (r_sq r) (r_sqn r) (next_of (r_sqn r) (r_sqh r)) (r_cq r) (r_cqn r) (next_of (r_cqn r) (r_cqt r))
    (if r_cqn r <=? r_cqt r + 1 then negb (r_phase r) else r_phase r).

Definition sq_slot (r : Ring) : Z := r_sq r + r_sqh r * 64.
Definition cq_slot (r : Ring) (i : Z) : Z := r_cq r + i * 16.

Section Controller.
Context {V : Type} `{NvmeHw V} `{Tock}.
Definition stride (v : V) : Z := read CAP_DSTRD (nv_read CAP v).

(** What the NVMe specification says of a controller that has nothing to do
    ([quiet]). When the tail doorbell of queue [y] announces one command, the
    controller fetches it, executes it, and within [delay] steps posts one
    completion with the current phase in the next entry of the completion queue;
    besides that entry it writes only memory the command names ([reach]). [log]
    is the history of the commands of a queue and their status. The head doorbell
    releases entries and has no other effect. *)
Class NvmeCtl (delay : nat) : Type := {
  quiet : V → Prop;
  ring : Z → V → option Ring;
  log : Z → V → list (list Z * Z);
  reach : list Z → Z → Prop;
  ctl_exec y v g r : quiet v → ring y v = Some r → 2 ≤ r_sqn r →
    let cmd := ram_load (sq_slot r) 64 g in
    let slot := cq_slot r (r_cqt r) in
    let s0 := nv_write (doorbell 0 y (stride v)) (next_of (r_sqn r) (r_sqh r)) (v, g) in
    (∀ x, reach cmd x → in_area slot 16 x = false) →
    ∃ k st, let s1 := Nat.iter k nv_idle s0 in
      (k ≤ delay)%nat ∧
      (∀ j, (j < k)%nat → ram_load slot 16 (Nat.iter j nv_idle s0).2 = ram_load slot 16 g) ∧
      quiet s1.1 ∧ stride s1.1 = stride v ∧
      ring y s1.1 = Some (ring_next r) ∧ log y s1.1 = log y v ++ [(cmd, st)] ∧
      (∀ y', y' ≠ y → ring y' s1.1 = ring y' v ∧ log y' s1.1 = log y' v) ∧
      word_at 14 2 (ram_load slot 16 s1.2) = st ∧ phase st = r_phase r ∧
      (∀ x, in_area slot 16 x = false → ¬ reach cmd x → ram_at s1.2 x = ram_at g x);
  ctl_ack y v g r : quiet v → ring y v = Some r →
    let s1 := nv_write (doorbell 1 y (stride v)) (r_cqt r) (v, g) in
    s1.2 = g ∧ quiet s1.1 ∧ stride s1.1 = stride v ∧ ∀ y', ring y' s1.1 = ring y' v ∧ log y' s1.1 = log y' v
}.
End Controller.
Arguments NvmeCtl V {_ _} delay.

Section Protocol.
Context {V A : Type} `{NvmeHw V} `{DmaOp A} `{Tock} (delay fuel : nat) {CL : NvmeCtl V delay}.
Hypothesis (Hfuel : (delay < fuel)%nat).

(** ** The invariant of a queue pair *)

(** Driver and controller agree on the queue. *)
Record q_rel (q : NvmeQueue) (r : Ring) : Prop := mk_q_rel {
  qr_sq : plain ToDevice (sq_queue (sq q));
  qr_cq : plain FromDevice (cq_queue (cq q));
  qr_sq_base : r_sq r = dc_cpu (sq_queue (sq q));
  qr_cq_base : r_cq r = dc_cpu (cq_queue (cq q));
  qr_sqn : r_sqn r = sq_len (sq q);
  qr_cqn : r_cqn r = cq_len (cq q);
  qr_tail : r_sqh r = sq_tail (sq q);
  qr_head : r_cqt r = cq_head (cq q);
  qr_phase : r_phase r = negb (cq_phase (cq q));
  qr_sq_bound : 2 ≤ r_sqn r ∧ 0 ≤ r_sqh r < r_sqn r;
  qr_cq_bound : 0 ≤ r_cqt r < r_cqn r;
  qr_apart : r_sq r + r_sqn r * 64 ≤ r_cq r ∨ r_cq r + r_cqn r * 16 ≤ r_sq r
}.

(** Entries the controller has filled in this round have its phase, the others
    the opposite one. *)
Definition slot_phase (g : gmap Z Z) (a : Z) : bool := phase (word_at 14 2 (ram_load a 16 g)).
Definition phases (r : Ring) (g : gmap Z Z) : Prop := ∀ i, 0 ≤ i < r_cqn r →
  slot_phase g (cq_slot r i) = if i <? r_cqt r then r_phase r else negb (r_phase r).

Definition q_inv (q : NvmeQueue) (v : V) (g : gmap Z Z) : Prop :=
  ∃ r, ring (qid q) v = Some r ∧ q_rel q r ∧ phases r g.

(** The memory of a queue pair. *)
Definition q_area (q : NvmeQueue) (x : Z) : Prop :=
  in_area (dc_cpu (sq_queue (sq q))) (sq_len (sq q) * 64) x = true ∨
  in_area (dc_cpu (cq_queue (cq q))) (cq_len (cq q) * 16) x = true.

(** The same queue, with other indices. *)
Definition same_queue (q q' : NvmeQueue) : Prop :=
  qid q' = qid q ∧ sq_queue (sq q') = sq_queue (sq q) ∧ cq_queue (cq q') = cq_queue (cq q).

Lemma same_queue_area q q' x : same_queue q q' → q_area q' x ↔ q_area q x.
Proof. intros (_ & Hs & Hc). unfold q_area, sq_len, cq_len. by rewrite Hs, Hc. Qed.

Lemma phases_ext q r g g' : q_rel q r → (∀ x, q_area q x → ram_at g' x = ram_at g x) → phases r g → phases r g'.
Proof.
  intros Hr Hx Hp i Hi. rewrite <- Hp by done. unfold slot_phase. do 2 f_equal. apply ram_load_ext.
  intros x Hin. apply Hx. right. unfold cq_slot in Hin. rewrite (qr_cq_base _ _ Hr), (qr_cqn _ _ Hr) in *.
  apply in_area_spec. lia.
Qed.

(** A queue no step touches keeps its invariant. *)
Lemma q_inv_frame q v g v' g' : ring (qid q) v' = ring (qid q) v → (∀ x, q_area q x → ram_at g' x = ram_at g x) →
  q_inv q v g → q_inv q v' g'.
Proof.
  intros Hv Hg (r & Hr & Hq & Hp). exists r. rewrite Hv. split_and!; [done..|]. by eapply phases_ext.
Qed.

(** ** One command *)

Notation St := (@NvSt V A).

Lemma submit_run q r data v m (a : A) ids : q_rel q r →
  ∃ m' s', submit (sq q) data (mk_NvSt v m a ids : St) = (mk_NvSt v m' a ids, Ok s') ∧
    sq_queue s' = sq_queue (sq q) ∧ sq_tail s' = next_of (r_sqn r) (r_sqh r) ∧
    ram_load (sq_slot r) 64 (ram m') = to_submission data ∧
    ∀ x, in_area (sq_slot r) 64 x = false → ram_at (ram m') x = ram_at (ram m) x.
Proof.
  intros Hr. destruct (qr_sq _ _ Hr) as [Hb Hd]. pose proof (qr_sq_bound _ _ Hr) as [_ Hi].
  rewrite (qr_tail _ _ Hr), (qr_sqn _ _ Hr) in Hi.
  pose proof (store_flush_seen (dc_cpu (sq_queue (sq q)) + sq_tail (sq q) * 64) (to_submission data) 64 m) as Hs.
  rewrite length_to_submission in Hs. destruct Hs as [Hs1 Hs2]; [done|].
  unfold sq_slot. rewrite (qr_sq_base _ _ Hr), (qr_tail _ _ Hr), (qr_sqn _ _ Hr).
  do 2 eexists. split_and!.
  - unfold submit, dma, mbind, M_bind. cbn [nv_mach nv_alloc].
    rewrite array_set_run by (rewrite ?Hd; try done; unfold sq_len in Hi; lia). reflexivity.
  - done.
  - done.
  - exact Hs1.
  - intros x Hx. apply (Hs2 x Hx).
Qed.

Lemma ring_doorbell_run k y val v m (a : A) ids :
  let s1 := nv_write (doorbell k y (stride v)) val (v, ram m) in
  ring_doorbell k y val (mk_NvSt v m a ids : St) = (mk_NvSt s1.1 (mk_Mach s1.2 (cache m)) a ids, Ok tt).
Proof.
  intros s1. unfold ring_doorbell, reg_read, reg_write, mbind, M_bind. simpl. unfold s1, stride.
  by destruct (nv_write _ _ _).
Qed.

Lemma idle_run v m (a : A) ids :
  idle (mk_NvSt v m a ids : St) =
    (mk_NvSt (nv_idle (v, ram m)).1 (mk_Mach (nv_idle (v, ram m)).2 (cache m)) a ids, Ok tt).
Proof. unfold idle. simpl. by destruct (nv_idle _). Qed.

(** Reading the entry at the head: the cache line is dropped. *)
Lemma complete_run q r v m (a : A) ids : q_rel q r →
  let bs := ram_load (cq_slot r (r_cqt r)) 16 (ram m) in
  ∃ c, complete (cq q) (mk_NvSt v m a ids : St) =
    (mk_NvSt v (mk_Mach (ram m) c) a ids,
     Ok (if Bool.eqb (phase (word_at 14 2 bs)) (r_phase r) then Some (completion_of bs) else None)).
Proof.
  intros Hr bs. destruct (qr_cq _ _ Hr) as [Hb Hd]. pose proof (qr_cq_bound _ _ Hr) as [_ Hi].
  rewrite (qr_head _ _ Hr), (qr_cqn _ _ Hr) in Hi.
  eexists. unfold complete, dma, mbind, M_bind. cbn [nv_mach nv_alloc].
  rewrite array_read_run by (rewrite ?Hd; try done; unfold cq_len in Hi; lia). unfold mret, M_ret. simpl.
  assert (dev_load (dc_cpu (cq_queue (cq q)) + cq_head (cq q) * 16) 16 m = bs) as ->
    by (unfold bs, cq_slot; by rewrite (qr_cq_base _ _ Hr), (qr_head _ _ Hr)).
  rewrite (qr_phase _ _ Hr). unfold invalidate. do 2 f_equal.
  by destruct (phase _), (cq_phase (cq q)).
Qed.

(** The loop ends with the entry the controller posts after [k] steps. *)
Lemma spin_run q r bs k : ∀ n v m (a : A) ids, q_rel q r → (k < n)%nat →
  (∀ j, (j < k)%nat → slot_phase (Nat.iter j nv_idle (v, ram m)).2 (cq_slot r (r_cqt r)) = negb (r_phase r)) →
  ram_load (cq_slot r (r_cqt r)) 16 (Nat.iter k nv_idle (v, ram m)).2 = bs → phase (word_at 14 2 bs) = r_phase r →
  ∃ c, spin_for_complete n (cq q) (mk_NvSt v m a ids : St) =
    (mk_NvSt (Nat.iter k nv_idle (v, ram m)).1 (mk_Mach (Nat.iter k nv_idle (v, ram m)).2 c) a ids,
     Ok (advance (cq q), completion_of bs)).
Proof.
  induction k as [|k IH]; intros [|n] v m a ids Hr Hn Hj Hb Hp; try lia; cbn [spin_for_complete].
  - destruct (complete_run q r v m a ids Hr) as [c E]. exists c.
    rewrite (bind_run _ _ _ _ _ E). simpl in Hb. rewrite Hb, Hp. by destruct (r_phase r).
  - destruct (complete_run q r v m a ids Hr) as [c E]. rewrite (bind_run _ _ _ _ _ E).
    specialize (Hj 0%nat ltac:(lia)) as Hj0. unfold slot_phase in Hj0. simpl in Hj0. rewrite Hj0.
    assert (Bool.eqb (negb (r_phase r)) (r_phase r) = false) as -> by by destruct (r_phase r).
    rewrite (bind_run _ _ _ _ _ (idle_run _ _ _ _)). cbn [ram cache].
    destruct (nv_idle (v, ram m)) as [v1 g1] eqn:E1. cbn [fst snd].
    rewrite Nat.iter_succ_r in *. rewrite E1 in *.
    destruct (IH n v1 (mk_Mach g1 c) a ids Hr ltac:(lia)) as [c' Hc]; [|done..|by exists c'].
    intros j Hjk. specialize (Hj (S j) ltac:(lia)). by rewrite Nat.iter_succ_r, E1 in Hj.
Qed.

(** The invariant with the indices of both sides one further. *)
Lemma q_rel_next q r s' : q_rel q r → sq_queue s' = sq_queue (sq q) → sq_tail s' = next_of (r_sqn r) (r_sqh r) →
  q_rel (mk_NvmeQueue (qid q) s' (advance (cq q))) (ring_next r).
Proof.
  intros [Hs Hc Hsb Hcb Hsn Hcn Ht Hh Hp Hsr Hcr Ha] Hq Hn.
  assert (Hcq : cq_queue (advance (cq q)) = cq_queue (cq q)) by (unfold advance; by destruct (_ <=? _)).
  split; cbn [sq cq qid ring_next r_sq r_sqn r_sqh r_cq r_cqn r_cqt r_phase]; try done.
  - by rewrite Hq.
  - by rewrite Hcq.
  - by rewrite Hq.
  - by rewrite Hcq.
  - unfold sq_len. by rewrite Hq.
  - unfold cq_len. by rewrite Hcq.
  - unfold next_of, advance. rewrite Hcn, Hh. by destruct (_ <=? _).
  - unfold advance. rewrite Hcn, Hh, Hp. by destruct (_ <=? _).
  - unfold next_of. destruct (Z.leb_spec (r_sqn r) (r_sqh r + 1)); lia.
  - unfold next_of. destruct (Z.leb_spec (r_cqn r) (r_cqt r + 1)); lia.
Qed.

(** Posting an entry moves the border between the phases. *)
Lemma phases_next q r g g' : q_rel q r → phases r g →
  (∀ i, 0 ≤ i < r_cqn r → i ≠ r_cqt r → slot_phase g' (cq_slot r i) = slot_phase g (cq_slot r i)) →
  slot_phase g' (cq_slot r (r_cqt r)) = r_phase r → phases (ring_next r) g'.
Proof.
  intros Hr Hp Ho Hn i Hi. cbn [ring_next r_sq r_sqn r_sqh r_cq r_cqn r_cqt r_phase] in *.
  change (cq_slot (ring_next r) i) with (cq_slot r i). pose proof (qr_cq_bound _ _ Hr) as Hb.
  unfold next_of. destruct (decide (i = r_cqt r)) as [->|Hne].
  - rewrite Hn. destruct (Z.leb_spec (r_cqn r) (r_cqt r + 1)).
    + rewrite (proj2 (Z.ltb_ge _ _)), negb_involutive by lia. done.
    + by rewrite (proj2 (Z.ltb_lt _ _)) by lia.
  - rewrite Ho, Hp by done. destruct (Z.leb_spec (r_cqn r) (r_cqt r + 1)).
    + rewrite (proj2 (Z.ltb_lt i (r_cqt r))), (proj2 (Z.ltb_ge i 0)), negb_involutive by lia. done.
    + assert ((i <? r_cqt r + 1) = (i <? r_cqt r)) as -> by (apply eq_true_iff_eq; rewrite !Z.ltb_lt; lia). done.
Qed.

(** The driver takes bit 1 of the status word, the lowest bit of the status
    code, for the whole of it. *)
Definition outcome_of (st : Z) : outcome NvError unit := if Z.testbit st 1 then Err NvUnknown else Ok tt.

Lemma outcome_of_eq st : outcome_of st = if is_success st then Ok tt else Err NvUnknown.
Proof.
  unfold outcome_of, is_success. change (Z.shiftl 1 1) with (2 ^ 1).
  assert ((Z.land st (2 ^ 1) =? 0) = negb (Z.testbit st 1)) as ->; [|by destruct (Z.testbit st 1)].
  destruct (Z.testbit st 1) eqn:E; simpl.
  - apply Z.eqb_neq. intros Hz. apply (f_equal (λ x, Z.testbit x 1)) in Hz.
    by rewrite Z.land_spec, Z.pow2_bits_true, E, Z.bits_0 in Hz by lia.
  - apply Z.eqb_eq. apply Z.bits_inj_0. intros n. rewrite Z.land_spec, Z.pow2_bits_eqb by lia.
    destruct (Z.eqb_spec 1 n) as [<-|]; [by rewrite E|apply andb_false_r].
Qed.

(** Where the entries are. *)
Lemma cq_slot_area q r i x : q_rel q r → 0 ≤ i < r_cqn r → in_area (cq_slot r i) 16 x = true →
  q_area q x ∧ in_area (sq_slot r) 64 x = false.
Proof.
  intros Hr Hi Hx%in_area_spec. unfold cq_slot in Hx.
  pose proof (qr_sq_bound _ _ Hr). pose proof (qr_apart _ _ Hr). split.
  - right. apply in_area_spec. rewrite <- (qr_cq_base _ _ Hr), <- (qr_cqn _ _ Hr). lia.
  - apply not_true_iff_false. rewrite in_area_spec. unfold sq_slot. lia.
Qed.

Lemma sq_slot_area q r x : q_rel q r → in_area (sq_slot r) 64 x = true → q_area q x.
Proof.
  intros Hr Hx%in_area_spec. pose proof (qr_sq_bound _ _ Hr). left. apply in_area_spec.
  rewrite <- (qr_sq_base _ _ Hr), <- (qr_sqn _ _ Hr). unfold sq_slot in Hx. lia.
Qed.

Lemma slot_phase_ext g g' a : (∀ x, in_area a 16 x = true → ram_at g x = ram_at g' x) → slot_phase g a = slot_phase g' a.
Proof. intros Hx. unfold slot_phase. do 2 f_equal. apply ram_load_ext. intros x ?. by apply Hx, in_area_spec. Qed.

(** The steps of [command_sync], when the controller posts after [k] steps. *)
Lemma command_sync_steps q r data v m m1 s' k (a : A) ids : q_rel q r →
  let s0 := nv_write (doorbell 0 (qid q) (stride v)) (sq_tail s') (v, ram m1) in
  let s1 := Nat.iter k nv_idle s0 in
  let s2 := nv_write (doorbell 1 (qid q) (stride s1.1)) (cq_head (advance (cq q))) s1 in
  let st := word_at 14 2 (ram_load (cq_slot r (r_cqt r)) 16 s1.2) in
  submit (sq q) data (mk_NvSt v m a ids : St) = (mk_NvSt v m1 a ids, Ok s') → (k < fuel)%nat →
  (∀ j, (j < k)%nat → slot_phase (Nat.iter j nv_idle s0).2 (cq_slot r (r_cqt r)) = negb (r_phase r)) →
  phase st = r_phase r →
  ∃ c, command_sync fuel q data (mk_NvSt v m a ids : St) =
    (mk_NvSt s2.1 (mk_Mach s2.2 c) a ids, Ok (mk_NvmeQueue (qid q) s' (advance (cq q)), outcome_of st)).
Proof.
  intros Hr s0 s1 s2 st E1 Hk Hj Hst. rewrite outcome_of_eq.
  destruct (spin_run q r (ram_load (cq_slot r (r_cqt r)) 16 s1.2) k fuel s0.1 (mk_Mach s0.2 (cache m1)) a ids Hr)
    as [c E3]; cbn [ram]; rewrite <- ?surjective_pairing; [lia|done..|].
  cbn [ram] in E3. rewrite <- surjective_pairing in E3. exists c.
  unfold command_sync. rewrite (bind_run _ _ _ _ _ E1).
  rewrite (bind_run _ _ _ _ _ (ring_doorbell_run _ _ _ _ _ _ _)), (bind_run _ _ _ _ _ E3).
  rewrite (bind_run _ _ _ _ _ (ring_doorbell_run _ _ _ _ _ _ _)). cbn [ram cache].
  by rewrite <- surjective_pairing.
Qed.

(** One command: executed once, its status reported, the queue ready for the
    next, and other memory untouched. *)
Lemma command_sync_run q data v m (a : A) ids : quiet v → q_inv q v (ram m) →
  (∀ x, reach (to_submission data) x → ¬ q_area q x) →
  ∃ v' m' q' st,
    command_sync fuel q data (mk_NvSt v m a ids : St) = (mk_NvSt v' m' a ids, Ok (q', outcome_of st)) ∧
    quiet v' ∧ q_inv q' v' (ram m') ∧ same_queue q q' ∧
    log (qid q) v' = log (qid q) v ++ [(to_submission data, st)] ∧
    (∀ y, y ≠ qid q → ring y v' = ring y v ∧ log y v' = log y v) ∧
    (∀ x, ¬ q_area q x → ¬ reach (to_submission data) x → ram_at (ram m') x = ram_at (ram m) x).
Proof.
  intros Hv (r & Hring & Hr & Hp) Hreach.
  destruct (submit_run q r data v m a ids Hr) as (m1 & s' & E1 & Hsq & Htl & Hcmd & Hm1).
  pose proof (qr_sq_bound _ _ Hr) as [Hn _]. pose proof (qr_cq_bound _ _ Hr) as Hc.
  assert (Hslot := cq_slot_area q r). assert (Hp1 : phases r (ram m1)).
  { intros i Hi. rewrite <- Hp by done. apply slot_phase_ext. intros x Hx. by apply Hm1, (Hslot i). }
  destruct (ctl_exec (qid q) v (ram m1) r Hv Hring Hn)
    as (k & st & Hk & Hj & Hv2 & Hst & Hring2 & Hlog & Hoth & Hw & Hph & Hout).
  { intros x Hx. rewrite Hcmd in Hx. apply not_true_iff_false. intros Hin. by apply (Hreach x Hx), (Hslot (r_cqt r)). }
  rewrite Hcmd in Hlog, Hout. rewrite <- Htl in *.
  pose proof (q_rel_next q r s' Hr Hsq Htl) as Hr2.
  destruct (ctl_ack (qid q) _ (Nat.iter k nv_idle (nv_write (doorbell 0 (qid q) (stride v)) (sq_tail s') (v, ram m1))).2
    _ Hv2 Hring2) as (Hg3 & Hv3 & _ & Hoth3).
  destruct (command_sync_steps q r data v m m1 s' k a ids Hr E1) as [c E]; [lia| |by rewrite Hw|].
  { intros j Hjk. unfold slot_phase. rewrite Hj by done. rewrite (Hp1 (r_cqt r) Hc : phase _ = _). by rewrite Z.ltb_irrefl. }
  rewrite (qr_head _ _ Hr2 : r_cqt (ring_next r) = cq_head (advance (cq q))), <- surjective_pairing in Hg3, Hv3, Hoth3.
  do 4 eexists. split; [exact E|]. cbn [ram]. rewrite Hg3, Hw. split_and!.
  - done.
  - exists (ring_next r). cbn [qid]. rewrite (proj1 (Hoth3 (qid q))). split_and!; [done..|].
    apply (phases_next q r (ram m1)); [done..| |by unfold slot_phase; rewrite Hw].
    intros i Hi Hne. apply slot_phase_ext. intros x Hx. apply Hout.
    + apply in_area_spec in Hx. apply not_true_iff_false. rewrite in_area_spec. unfold cq_slot in *. lia.
    + intros Hrx. by apply (Hreach x Hrx), (Hslot i).
  - split_and!; [done..|]. cbn [cq]. unfold advance. by destruct (_ <=? _).
  - by rewrite (proj2 (Hoth3 (qid q))).
  - intros y Hy. destruct (Hoth3 y) as [-> ->]. by apply Hoth.
  - intros x Hx Hrx. rewrite Hout; [|apply not_true_iff_false; intros Hin; by apply Hx, (Hslot (r_cqt r))|done].
    apply Hm1. apply not_true_iff_false. intros Hin. by eapply Hx, sq_slot_area.
Qed.

(** ** Any sequence of commands on several queues *)

(** Commands sent one after the other, each on the queue of its index. *)
Fixpoint run_script (qs : list NvmeQueue) (script : list (nat * CommandSet)) :
    M St NvError (list NvmeQueue * list (outcome NvError unit)) :=
  match script with
  | [] => mret (qs, [])
  | (i, c) :: script =>
      q ← lift (unwrap (qs !! i));
      '(q, r) ← command_sync fuel q c;
      '(qs, rs) ← run_script (<[i := q]> qs) script;
      mret (qs, r :: rs)
  end.

(** Distinct queues in disjoint memory, each in step with the controller. *)
Definition qs_inv (qs : list NvmeQueue) (v : V) (g : gmap Z Z) : Prop :=
  (∀ i q, qs !! i = Some q → q_inv q v g) ∧
  (∀ i j q q', i ≠ j → qs !! i = Some q → qs !! j = Some q' → qid q ≠ qid q' ∧ ∀ x, q_area q x → ¬ q_area q' x).

(** A command that names no memory of a queue. *)
Definition spares (qs : list NvmeQueue) (c : CommandSet) : Prop :=
  ∀ q x, q ∈ qs → reach (to_submission c) x → ¬ q_area q x.

(** What the history of queue [i] gains. *)
Definition sent_on (i : nat) (script : list (nat * CommandSet)) (sts : list Z) : list (list Z * Z) :=
  omap (λ p : (nat * CommandSet) * Z, if decide (p.1.1 = i) then Some (to_submission p.1.2, p.2) else None) (zip script sts).

Lemma same_queue_lookup (qs : list NvmeQueue) (i : nat) q q' : qs !! i = Some q → same_queue q q' →
  ∀ j qj', <[i := q']> qs !! j = Some qj' → ∃ qj, qs !! j = Some qj ∧ same_queue qj qj'.
Proof.
  intros Hi Hs j qj' Hj. destruct (decide (j = i)) as [->|Hne].
  - rewrite list_lookup_insert_eq in Hj by (by eapply lookup_lt_Some). simplify_eq. by exists q.
  - rewrite list_lookup_insert_ne in Hj by done. exists qj'. by split.
Qed.

Lemma qs_inv_next (qs : list NvmeQueue) (i : nat) q q' v g v' g' c : qs !! i = Some q → qs_inv qs v g → spares qs c → same_queue q q' →
  q_inv q' v' g' → (∀ y, y ≠ qid q → ring y v' = ring y v) →
  (∀ x, ¬ q_area q x → ¬ reach (to_submission c) x → ram_at g' x = ram_at g x) →
  qs_inv (<[i := q']> qs) v' g'.
Proof.
  intros Hi [Hq Hd] Hsp Hs Hq' Hring Hout. split.
  - intros j qj Hj. destruct (decide (j = i)) as [->|Hne].
    { rewrite list_lookup_insert_eq in Hj by (by eapply lookup_lt_Some). by simplify_eq. }
    rewrite list_lookup_insert_ne in Hj by done.
    destruct (Hd j i qj q Hne Hj Hi) as [Hid Hdis]. eapply q_inv_frame, Hq, Hj.
    + by apply Hring.
    + intros x Hx. apply Hout; [by apply Hdis|]. intros Hr. eapply Hsp; [|exact Hr|exact Hx]. by eapply list_elem_of_lookup_2.
  - intros j k qj qk Hne Hj Hk.
    destruct (same_queue_lookup qs i q q' Hi Hs j qj Hj) as (qj0 & Hj0 & Hsj).
    destruct (same_queue_lookup qs i q q' Hi Hs k qk Hk) as (qk0 & Hk0 & Hsk).
    destruct (Hd j k qj0 qk0 Hne Hj0 Hk0) as [Hid Hdis]. destruct (proj1 Hsj), (proj1 Hsk).
    split; [done|]. intros x Hx Hx'. rewrite (same_queue_area _ _ x Hsj) in Hx. rewrite (same_queue_area _ _ x Hsk) in Hx'.
    by apply (Hdis x).
Qed.

Lemma spares_next (qs : list NvmeQueue) (i : nat) q q' c : qs !! i = Some q → same_queue q q' → spares qs c → spares (<[i := q']> qs) c.
Proof.
  intros Hi Hs Hsp qj' x [j Hj]%list_elem_of_lookup_1 Hr. destruct (same_queue_lookup qs i q q' Hi Hs j qj' Hj) as (qj & Hj0 & Hsj).
  rewrite (same_queue_area _ _ x Hsj). eapply Hsp; [|done]. by eapply list_elem_of_lookup_2.
Qed.

(** C31: The queue protocol of the NVMe driver. On a controller that follows
    the specification, any sequence of commands, sent on any of the queues,
    comes to an end without panic: the spin loops finish within the
    controller's delay. The controller executes on each queue exactly the
    commands the driver sent there, once each and in order, byte for byte; the
    results the driver returns are those of the status words, in order, read
    off bit 1 ([outcome_of]); and all queues are in step with the controller
    again, so that the rings may wrap around any number of times. *)
Theorem nvme_commands_exactly_once script : ∀ qs v m (a : A) ids,
  quiet v → qs_inv qs v (ram m) → Forall (λ p, (p.1 < length qs)%nat ∧ spares qs p.2) script →
  ∃ v' m' qs' sts,
    run_script qs script (mk_NvSt v m a ids) = (mk_NvSt v' m' a ids, Ok (qs', outcome_of <$> sts)) ∧
    length sts = length script ∧ quiet v' ∧ qs_inv qs' v' (ram m') ∧
    ∀ i q, qs !! i = Some q → log (qid q) v' = log (qid q) v ++ sent_on i script sts.
Proof.
  induction script as [|[i c] script IH]; intros qs v m a ids Hv Hqs Hall.
  { exists v, m, qs, []. split_and!; try done. intros i q _. by rewrite app_nil_r. }
  apply Forall_cons in Hall as [[Hi Hsp] Hall]. simpl in Hi, Hsp.
  destruct (lookup_lt_is_Some_2 qs i Hi) as [q Hq].
  destruct (command_sync_run q c v m a ids Hv) as (v1 & m1 & q1 & st & E & Hv1 & Hq1 & Hs & Hlog & Hoth & Hout).
  { by eapply Hqs. }
  { intros x Hr. eapply Hsp; [|done]. by eapply list_elem_of_lookup_2. }
  destruct (IH (<[i := q1]> qs) v1 m1 a ids Hv1) as (v2 & m2 & qs2 & sts & E2 & Hl & Hv2 & Hqs2 & Hlog2).
  { eapply qs_inv_next; try done. intros y Hy. by apply Hoth. }
  { eapply Forall_impl; [exact Hall|]. intros [j d] [Hj Hd]. rewrite length_insert. split; [done|]. by eapply spares_next. }
  exists v2, m2, qs2, (st :: sts). split_and!; try done.
  - cbn [run_script]. rewrite Hq. rewrite (bind_lift _ _ _ q) by done. rewrite (bind_run _ _ _ _ _ E).
    by rewrite (bind_run _ _ _ _ _ E2).
  - simpl. by rewrite Hl.
  - intros j qj Hj. unfold sent_on. cbn [zip_with omap list_omap fst snd]. destruct (decide (i = j)) as [<-|Hne].
    + simplify_eq. rewrite <- (proj1 Hs), (Hlog2 i q1) by (apply list_lookup_insert_eq; by eapply lookup_lt_Some).
      rewrite (proj1 Hs), Hlog, <- app_assoc. done.
    + rewrite (Hlog2 j qj) by (by rewrite list_lookup_insert_ne). f_equal.
      apply Hoth. destruct Hqs as [_ Hd]. by apply (Hd j i).
Qed.
End Protocol.

(** ** What the fields mean *)

(** The specification counts the blocks of a read or write from 0: the value of
    the field is one less than the number of blocks. *)
Definition nlb_blocks (bs : list Z) : Z := word_at 48 2 bs + 1.

(** The driver writes the number itself: a command for [n] blocks makes the
    controller transfer [n + 1]. *)
Theorem nvm_cmd_one_block_more `{Tock} op id ns paddr lba n : 0 ≤ n < 2 ^ 16 →
  nlb_blocks (to_submission (nvm_cmd op id ns paddr lba n)) = n + 1.
Proof.
  intros Hn. unfold nlb_blocks, to_submission, nvm_cmd.
  cbn [cdw0 nsid cdw2 metadata prp1 prp2 cdw10 cdw11 cdw12 cdw13 cdw14 cdw15].
  repeat (rewrite word_at_skip by lia; cbn [Nat.sub]).
  assert (He : le_bytes 4 n = le_bytes 2 n ++ [0; 0]).
  { simpl. assert (n / 256 / 256 = 0) as ->; [|done]. rewrite Z.div_div by lia. apply Z.div_small. lia. }
  rewrite He, <- app_assoc, word_at_here by (simpl; lia). done.
Qed.

(** A status with an error whose code is even is taken for success: here status
    code 2, invalid field in command. *)
Theorem error_taken_for_success : is_success (Z.shiftl 2 1) = true ∧ outcome_of (Z.shiftl 2 1) = Ok tt.
Proof. split; reflexivity. Qed.

(** The counter of command ids gives 0 twice when it wraps, and never 0xFFFF. *)
Theorem next_id_zero_twice : next_id 0xFFFF = (0, 0) ∧ next_id 0 = (1, 0) ∧ ∀ ids, (next_id ids).2 ≠ 0xFFFF.
Proof.
  split_and!; [done..|]. intros ids. unfold next_id. destruct (Z.eqb_spec ids 0xFFFF); simpl; [done|lia].
Qed.

(** ** A controller *)

(** Queues with their histories, and the queue whose doorbell rang. A command for
    a namespace fails, any other succeeds. *)
Record Sim : Type := mk_Sim { sim_q : gmap Z (Ring * list (list Z * Z)); sim_pending : option Z }.

Definition sim_status (r : Ring) (cmd : list Z) : Z :=
  (if r_phase r then 1 else 0) + (if word_at 4 4 cmd =? 0 then 0 else 2).

#[export] Instance sim_hw : NvmeHw Sim := {
  nv_read _ _ := 0;
  nv_write o _ s :=
    if (o - 0x1000) mod 8 =? 0 then (mk_Sim (sim_q s.1) (Some ((o - 0x1000) / 8)), s.2) else s;
  nv_idle s :=
    match sim_pending s.1 with
    | None => s
    | Some y =>
        match sim_q s.1 !! y with
        | None => s
        | Some (r, l) =>
            let cmd := ram_load (sq_slot r) 64 s.2 in
            let st := sim_status r cmd in
            (mk_Sim (<[y := (ring_next r, l ++ [(cmd, st)])]> (sim_q s.1)) None,
             write_map (cq_slot r (r_cqt r)) (replicate 14 0 ++ le_bytes 2 st) s.2)
        end
    end
}.

Lemma sim_status_range r cmd : 0 ≤ sim_status r cmd < 4 ∧ phase (sim_status r cmd) = r_phase r.
Proof. unfold sim_status. by destruct (r_phase r), (_ =? 0). Qed.

#[export] Instance sim_ctl : NvmeCtl Sim 1.
Proof.
  refine {| quiet v := sim_pending v = None;
            ring y v := fst <$> sim_q v !! y;
            log y v := default [] (snd <$> sim_q v !! y);
            reach _ _ := False |}.
  - intros y [q p] g r Hp Hr _ cmd slot s0 _. simpl in Hp, Hr. subst p.
    destruct (q !! y) as [[r' l]|] eqn:Eq; simplify_eq/=.
    assert (Es0 : s0 = (mk_Sim q (Some y), g)).
    { unfold s0, doorbell, stride. simpl. unfold read; simpl. rewrite ?Z.shiftl_0_r.
      replace (4096 + (2 * y + 0) * 4 - 4096) with (y * 8) by lia. rewrite Z_mod_mult. simpl.
      by rewrite Z_div_mult by lia. }
    destruct (sim_status_range r cmd) as [Hst Hph].
    exists 1%nat, (sim_status r cmd). rewrite Es0. simpl. rewrite Eq. simpl.
    assert (Hb : ram_load slot 16 (write_map slot (replicate 14 0 ++ le_bytes 2 (sim_status r cmd)) g) =
      replicate 14 0 ++ le_bytes 2 (sim_status r cmd)) by (by apply ram_load_write).
    split_and!; try done.
    + intros [|j] Hj; [done|lia].
    + by rewrite lookup_insert_eq.
    + by rewrite lookup_insert_eq.
    + intros y' Hy. by rewrite lookup_insert_ne by done.
    + change (word_at 14 2 (ram_load slot 16 (write_map slot (replicate 14 0 ++ le_bytes 2 (sim_status r cmd)) g)) = sim_status r cmd).
      rewrite Hb. change (word_at 0 2 (le_bytes 2 (sim_status r cmd)) = sim_status r cmd). apply word_at_last. simpl. lia.
    + intros x Hx _. change (ram_at (write_map slot (replicate 14 0 ++ le_bytes 2 (sim_status r cmd)) g) x = ram_at g x).
      rewrite ram_at_write, length_app, length_replicate, length_le_bytes. by rewrite (Hx : in_area slot (Z.of_nat (14 + 2)) x = false).
  - intros y v g r Hv Hr s1.
    assert (s1 = (v, g)) as ->; [|done].
    unfold s1, doorbell, stride. simpl. unfold read; simpl. rewrite ?Z.shiftl_0_r.
    replace (4096 + (2 * y + 1) * 4 - 4096) with (4 + y * 8) by lia. by rewrite Z_mod_plus_full.
Defined.

(** Two queues of two and four entries in fresh memory. *)
Definition ring_buffer (addr size : Z) (dir : DmaDirection) : DCommon :=
  mk_DCommon (mk_DmaMapHandle (mk_DmaHandle addr addr (mk_Layout size 0x1000)) None) dir.
Definition queue_at (id addr n : Z) : NvmeQueue :=
  mk_NvmeQueue id (mk_SubmitQueue (ring_buffer addr (n * 64) ToDevice) 0)
    (mk_CompleteQueue (ring_buffer (addr + 0x1000) (n * 16) FromDevice) 0 false).
Definition ring_at (addr n : Z) : Ring := mk_Ring addr n 0 (addr + 0x1000) n 0 true.
Definition sim0 : Sim := mk_Sim {[0 := (ring_at 0x10000 2, []); 1 := (ring_at 0x20000 4, [])]} None.

Lemma queue_at_inv id addr n : ring id sim0 = Some (ring_at addr n) → 2 ≤ n ≤ 64 → q_inv 1 (queue_at id addr n) sim0 ∅.
Proof.
  intros Hr Hn. exists (ring_at addr n). split; [done|]. split.
  - split; simpl; try done; unfold sq_len, cq_len, array_len, dc_size; simpl; try lia;
    unfold h_size; simpl; rewrite Z.div_mul by lia; done.
  - intros i Hi. simpl in *. rewrite (proj2 (Z.ltb_ge i 0)) by lia. unfold slot_phase.
    assert (ram_load (cq_slot (ring_at addr n) i) 16 ∅ = replicate 16 0) as ->; [|done].
    reflexivity.
Qed.

Lemma queue_at_area id addr n x : q_area (queue_at id addr n) x → 2 ≤ n ≤ 64 → addr ≤ x < addr + 0x2000.
Proof.
  unfold q_area, sq_len, cq_len, array_len, dc_size, h_size, queue_at, dc_cpu. simpl.
  rewrite !Z.div_mul, !in_area_spec by lia. lia.
Qed.

Lemma nvme_commands_exactly_once_witness :
  let qs := [queue_at 0 0x10000 2; queue_at 1 0x20000 4] in
  let flush := mk_CommandSet 0 0 (0, 0) 0 0 0 0 0 0 0 0 0 in
  let read_ := nvm_cmd_read 7 1 0x30000 5 1 in
  ∃ v' m' qs' sts,
    run_script 2 qs [(0%nat, flush); (1%nat, read_); (0%nat, read_); (0%nat, flush)]
      (mk_NvSt sim0 (mk_Mach ∅ ∅) (0x40000, [] : list DmaHandle) 0) =
      (mk_NvSt v' m' (0x40000, []) 0, Ok (qs', outcome_of <$> sts)) ∧
    log 0 v' = sent_on 0 [(0%nat, flush); (1%nat, read_); (0%nat, read_); (0%nat, flush)] sts.
Proof.
  intros qs flush read_.
  destruct (nvme_commands_exactly_once (A := Bump) 1 2 ltac:(lia) [(0%nat, flush); (1%nat, read_); (0%nat, read_); (0%nat, flush)]
    qs sim0 (mk_Mach ∅ ∅) (0x40000, []) 0) as (v' & m' & qs' & sts & E & _ & _ & _ & Hl).
  - reflexivity.
  - split.
    + intros [|[|i]] q [= <-]; apply queue_at_inv; try reflexivity; lia.
    + intros [|[|i]] [|[|j]] q q' Hij [= <-] [= <-]; try done; (split; [discriminate|]);
        intros x Hx%queue_at_area Hy%queue_at_area; lia.
  - repeat constructor; simpl; try lia; intros q x _ [].
  - exists v', m', qs', sts. split; [exact E|]. exact (Hl 0%nat _ eq_refl).
Defined.
