(* ===== verification/Eth.v ===== *)
(** * Network queues

    driver/interface/rdif-eth/src/lib.rs (errors, queue configuration, sets of
    queue numbers, the traits [Interface], [ITxQueue] and [IRxQueue]) and
    driver/eth/rd-net/src/lib.rs: the queues that lend DMA buffers to a device
    and take them back.

    A queue works on the device and on memory, [Host]; the traits are classes
    over the state of the driver. *)

From Stdlib Require Import String.
From stdpp Require Import base list numbers strings gmap.
From S2P Require Import Io Prelude Heap Dma.
Open Scope Z_scope.

(** ** rdif-eth: errors *)

Inductive OtherError : Type :=
| Unknown (msg : string)
| DmaFailed (e : DmaError)
| DriverError (msg : string).

Inductive NetError : Type :=
| NotSupported
| Retry
| NetNoMemory
| LinkDown
| Other (e : OtherError).

(** [From<DmaError>]. *)
Definition net_of_dma (e : DmaError) : NetError :=
  match e with NoMemory => NetNoMemory | e => Other (DmaFailed e) end.

(** [From<NetError> for io::ErrorKind]. *)
Definition io_of_net (e : NetError) : io.ErrorKind OtherError :=
  match e with
  | NotSupported => io.Unsupported
  | Retry => io.Interrupted
  | NetNoMemory => io.OutOfMemory
  | LinkDown => io.NotAvailable
  | Other e => io.Other e
  end.

(** [other_error] of rd-net. *)
Definition other_error (msg : string) : NetError := Other (Unknown msg).

(** ** rdif-eth: configuration and events *)

Record QueueConfig : Type := mk_QueueConfig {
  qc_dma_mask : Z;
  qc_align : Z;
  qc_buf_size : Z;
  qc_ring_size : Z
}.

Definition IdList : Type := Z.
Definition id_none : IdList := 0.
(** [1 << id] of a [u64]. *)
Definition id_bit {E} (id : Z) : outcome E Z := if id <? 64 then Ok (Z.shiftl 1 id) else Stuck.
Definition id_contains {E} (l : IdList) (id : Z) : outcome E bool :=
  b ← id_bit id; Ok (negb (Z.land l b =? 0)).
Definition id_insert {E} (id : Z) (l : IdList) : outcome E IdList := b ← id_bit id; Ok (Z.lor l b).
Definition id_remove {E} (id : Z) (l : IdList) : outcome E IdList :=
  b ← id_bit id; Ok (Z.land l (unot 64 b)).
Definition id_iter (l : IdList) : list Z :=
  filter (λ i, Z.land l (Z.shiftl 1 i) ≠ 0) (seqZ 0 64).

Record Event : Type := mk_Event { tx_queue : IdList; rx_queue : IdList }.
Definition event_none : Event := mk_Event id_none id_none.

(** ** The device and memory *)

Record Host (V A : Type) : Type := mk_Host { nic : V; mem : Mach * A }.
Arguments mk_Host {V A}.
Arguments nic {V A}.
Arguments mem {V A}.

(** An operation on DMA memory, with its error as [?] converts it. *)
Definition on_mem {V A X} (f : M (Mach * A) DmaError X) : M (Host V A) NetError X := λ h,
  let '(d, r) := f (mem h) in
  (mk_Host (nic h) d, match r with Ok x => Ok x | Err e => Err (net_of_dma e) | Stuck => Stuck end).

(** ** rdif-eth: the traits *)

Class ITxQueue (Q V A : Type) : Type := {
  tx_id : Q → Z;
  tx_config : Q → QueueConfig;
  tx_submit : Z → Z → M (Q * Host V A) NetError unit;
  tx_reclaim : M (Q * Host V A) NetError (option Z);
  tx_drop : Q → M (Host V A) NetError unit
}.

Class IRxQueue (Q V A : Type) : Type := {
  rx_id : Q → Z;
  rx_config : Q → QueueConfig;
  rx_submit : Z → Z → M (Q * Host V A) NetError unit;
  rx_reclaim : M (Q * Host V A) NetError (option (Z * Z));
  rx_drop : Q → M (Host V A) NetError unit
}.

Class Interface (I TQ RQ V A : Type) : Type := {
  mac_address : I → list Z;
  new_tx_queue : M (I * Host V A) NetError (option TQ);
  new_rx_queue : M (I * Host V A) NetError (option RQ);
  enable_irq : M (I * Host V A) NetError unit;
  disable_irq : M (I * Host V A) NetError unit;
  is_irq_enabled : I → bool;
  handle_irq : M (I * Host V A) NetError Event
}.

(** ** rd-net: a queue and its buffers *)

(** [TxQueue] and [RxQueue] have the same fields. [nq_pool] is the list of the
    free buffers of [DArrayPool]. *)
Record NetQueue (Q : Type) : Type := mk_NetQueue {
  interface : Q;
  nq_pool : list DCommon;
  inflight : gmap Z DCommon;
  config : QueueConfig;
  waker : Z
}.
Arguments mk_NetQueue {Q}.
Arguments interface {Q}.
Arguments nq_pool {Q}.
Arguments inflight {Q}.
Arguments config {Q}.
Arguments waker {Q}.

Section Queue.
Context {Q V A : Type} `{DmaOp A}.

Notation QM := (M (NetQueue Q * Host V A) NetError).

Definition call_queue {X} (f : M (Q * Host V A) NetError X) : QM X := λ s,
  let '(q, h) := s in
  let '((i, h'), r) := f (interface q, h) in
  ((mk_NetQueue i (nq_pool q) (inflight q) (config q) (waker q), h'), r).

Definition set_inflight (m : gmap Z DCommon) : QM unit :=
  modify (λ s, (mk_NetQueue (interface s.1) (nq_pool s.1) m (config s.1) (waker s.1), s.2)).

(** An operation of the pool, whose layout is that of [make_pool]. *)
Definition on_pool {X} (f : M (list DCommon * (Mach * A)) DmaError X) : QM X := λ s,
  let '((p, d), r) := f (nq_pool s.1, mem s.2) in
  ((mk_NetQueue (interface s.1) p (inflight s.1) (config s.1) (waker s.1), mk_Host (nic s.2) d),
   match r with Ok x => Ok x | Err e => Err (net_of_dma e) | Stuck => Stuck end).

Definition alloc_buff (dir : DmaDirection) : QM DCommon := λ s,
  let c := config s.1 in
  on_pool (pool_alloc (qc_dma_mask c) (qc_buf_size c) (Z.max (qc_align c) 1) dir) s.
Definition put_buff (c : DCommon) : QM unit := on_pool (buff_drop c).

Definition on_buff {X} (f : M (Mach * A) DmaError X) : QM X := λ s,
  let '(h, r) := on_mem f s.2 in ((s.1, h), r).

(** [inflight.insert]: a buffer that was there is dropped. *)
Definition insert_inflight (bus_addr : Z) (c : DCommon) : QM unit :=
  s ← get;
  let old := inflight s.1 !! bus_addr in
  _ ← set_inflight (<[bus_addr := c]> (inflight s.1));
  match old with Some o => put_buff o | None => mret tt end.

(** [inflight.remove]. *)
Definition remove_inflight (bus_addr : Z) : QM (option DCommon) :=
  s ← get;
  _ ← set_inflight (delete bus_addr (inflight s.1));
  mret (inflight s.1 !! bus_addr).

(** [capacity]. *)
Definition capacity (q : NetQueue Q) : Z := saturating_sub (qc_ring_size (config q)) 1.

(** Fields are dropped in their order; a [DBuff] that outlives its pool frees
    its memory itself. *)
Fixpoint free_all (l : list DCommon) : QM unit :=
  match l with
  | [] => mret tt
  | c :: l => _ ← on_buff (dc_drop c); free_all l
  end.
Definition drop_queue (drop_interface : Q → M (Host V A) NetError unit) : QM unit :=
  s ← get;
  _ ← call_queue (λ s, let '(h, r) := drop_interface s.1 s.2 in ((s.1, h), r));
  _ ← free_all (nq_pool s.1);
  free_all ((map_to_list (inflight s.1)).*2).
End Queue.

(** ** rd-net: sending *)

Section Tx.
Context {Q V A : Type} `{ITxQueue Q V A} `{DmaOp A}.

Notation TxQueue := (NetQueue Q).
Notation TM := (M (TxQueue * Host V A) NetError).

(** The loop of [reclaim_bounded]; [n] is what is left of the limit. *)
Fixpoint reclaim_loop (n : nat) (reclaimed : Z) : TM Z :=
  match n with
  | O => mret reclaimed
  | S n =>
      o ← call_queue tx_reclaim;
      match o with
      | None => mret reclaimed
      | Some bus_addr =>
          b ← remove_inflight bus_addr;
          match b with
          | None => fail (other_error "reclaimed unknown tx buffer")
          | Some buff => _ ← put_buff buff; reclaim_loop n (reclaimed + 1)
          end
      end
  end.
Definition reclaim_bounded (limit : Z) : TM Z := reclaim_loop (Z.to_nat limit) 0.

(** [TxPending]; its queue is borrowed. *)
Record TxPending : Type := mk_TxPending { tp_len : Z; tp_bus_addr : Z; tp_buff : option DCommon }.

Definition prepare_send (len : Z) (f : list Z → list Z) : TM TxPending :=
  s ← get;
  if qc_buf_size (config s.1) <? len then fail (other_error "tx packet too large")
  else
    _ ← reclaim_bounded (Z.max (capacity s.1) 1);
    buff ← alloc_buff ToDevice;
    _ ← on_buff (write_with 1 buff len f);
    mret (mk_TxPending len (dc_dma buff) (Some buff)).

Definition try_submit (p : TxPending) : TM TxPending :=
  s ← get;
  _ ← reclaim_bounded (Z.max (capacity s.1) 1);
  _ ← call_queue (tx_submit (tp_bus_addr p) (tp_len p));
  match tp_buff p with
  | None => stuck
  | Some buff => _ ← insert_inflight (tp_bus_addr p) buff; mret (mk_TxPending (tp_len p) (tp_bus_addr p) None)
  end.

(** A [TxPending] that goes out of scope. *)
Definition drop_pending (p : TxPending) : TM unit :=
  match tp_buff p with Some buff => put_buff buff | None => mret tt end.
End Tx.

(** ** rd-net: receiving *)

Section Rx.
Context {Q V A : Type} `{IRxQueue Q V A} `{DmaOp A}.

Notation RxQueue := (NetQueue Q).
Notation RM := (M (RxQueue * Host V A) NetError).

(** An error drops the buffer. *)
Definition submit_buffer (buff : DCommon) : RM unit := λ s,
  let bus_addr := dc_dma buff in
  let len := Z.min (qc_buf_size (config s.1)) (array_len 1 buff) in
  match call_queue (rx_submit bus_addr len) s with
  | (s', Ok _) => insert_inflight bus_addr buff s'
  | (s', Err e) => (_ ← put_buff buff; fail e) s'
  | (s', Stuck) => (s', Stuck)
  end.

(** [Retry] ends the loop below, other errors the call. *)
Definition or_retry (m k : RM unit) : RM unit := λ s,
  match m s with
  | (s', Ok _) => k s'
  | (s', Err Retry) => (s', Ok tt)
  | r => r
  end.

(** The loop of [prefill]: each turn but the last adds a buffer. *)
Fixpoint prefill_loop (fuel : nat) : RM unit :=
  match fuel with
  | O => stuck
  | S fuel =>
      s ← get;
      if Z.of_nat (size (inflight s.1)) <? capacity s.1 then
        buff ← alloc_buff FromDevice;
        or_retry (submit_buffer buff) (prefill_loop fuel)
      else mret tt
  end.
Definition prefill : RM unit := s ← get; prefill_loop (S (Z.to_nat (capacity s.1))).

Definition reclaim_packet : RM (option (DCommon * Z)) :=
  o ← call_queue rx_reclaim;
  match o with
  | None => mret None
  | Some (bus_addr, len) =>
      b ← remove_inflight bus_addr;
      match b with
      | None => fail (other_error "reclaimed unknown rx buffer")
      | Some buff =>
          s ← get;
          mret (Some (buff, Z.min (Z.min len (qc_buf_size (config s.1))) (array_len 1 buff)))
      end
  end.

(** [RxPacket] is the buffer and the length; errors are no packet. *)
Definition try_receive : RM (option (DCommon * Z)) := λ s,
  match reclaim_packet s with
  | (s', Ok o) => (s', Ok o)
  | (s', Err _) => (s', Ok None)
  | (s', Stuck) => (s', Stuck)
  end.

(** [let _ = submit_buffer(buff)]. *)
Definition give_back (buff : DCommon) : RM unit := λ s,
  match submit_buffer buff s with
  | (s', Ok _) | (s', Err _) => (s', Ok tt)
  | (s', Stuck) => (s', Stuck)
  end.

(** [RxPacket::consume], which passes the bytes to the caller; and [Drop]. *)
Definition consume (p : DCommon * Z) : RM (list Z) :=
  ret ← on_buff (read_with 1 p.1 p.2);
  _ ← give_back p.1;
  mret ret.
Definition drop_packet (p : DCommon * Z) : RM unit := give_back p.1.

Definition receive : RM (option (list Z)) :=
  o ← try_receive;
  match o with
  | None => mret None
  | Some p => r ← consume p; mret (Some r)
  end.
End Rx.

(** ** rd-net: the device *)

(** [NetInner]. A waker is a number, and [woken] the wakers that were woken, in
    order; the maps are [QueueWakerMap]. *)
Record NetInner (I : Type) : Type := mk_NetInner {
  ni_interface : I;
  tx_wakers : gmap Z Z;
  rx_wakers : gmap Z Z;
  wakers : Z;
  woken : list Z
}.
Arguments mk_NetInner {I}.
Arguments ni_interface {I}.
Arguments tx_wakers {I}.
Arguments rx_wakers {I}.
Arguments wakers {I}.
Arguments woken {I}.

Section Net.
Context {I TQ RQ V A : Type} `{Interface I TQ RQ V A} `{ITxQueue TQ V A} `{IRxQueue RQ V A} `{DmaOp A}.

Notation NM := (M (NetInner I * Host V A) NetError).

Definition net_new (i : I) : NetInner I := mk_NetInner i ∅ ∅ 0 [].

Definition call_interface {X} (f : M (I * Host V A) NetError X) : NM X := λ s,
  let '(n, h) := s in
  let '((i, h'), r) := f (ni_interface n, h) in
  ((mk_NetInner i (tx_wakers n) (rx_wakers n) (wakers n) (woken n), h'), r).

Definition net_mem {X} (f : M (Host V A) NetError X) : NM X := λ s,
  let '(h, r) := f s.2 in ((s.1, h), r).

(** [QueueWakerMap::register] and [wake]. *)
Definition register_tx (id : Z) : NM Z := λ s,
  let n := s.1 in
  ((mk_NetInner (ni_interface n) (<[id := wakers n]> (tx_wakers n)) (rx_wakers n) (wakers n + 1) (woken n), s.2), Ok (wakers n)).
Definition register_rx (id : Z) : NM Z := λ s,
  let n := s.1 in
  ((mk_NetInner (ni_interface n) (tx_wakers n) (<[id := wakers n]> (rx_wakers n)) (wakers n + 1) (woken n), s.2), Ok (wakers n)).
Definition wake (map : NetInner I → gmap Z Z) (id : Z) : NM unit :=
  modify (λ s, match map s.1 !! id with
    | Some w => (mk_NetInner (ni_interface s.1) (tx_wakers s.1) (rx_wakers s.1) (wakers s.1) (woken s.1 ++ [w]), s.2)
    | None => s end).

(** [irq_guard], and [Drop for IrqGuard]. *)
Definition irq_guard : NM bool :=
  s ← get;
  let enabled := is_irq_enabled (ni_interface s.1) in
  _ ← if enabled then call_interface disable_irq else mret tt;
  mret enabled.
Definition drop_irq_guard (enabled : bool) : NM unit :=
  if enabled then call_interface enable_irq else mret tt.

(** A block whose guard is dropped on every way out. *)
Definition finally {X} (m : NM X) (last : NM unit) : NM X := λ s,
  match m s with
  | (s', Stuck) => (s', Stuck)
  | (s', r) => let '(s'', g) := last s' in (s'', match g with Ok _ => r | Err e => Err e | Stuck => Stuck end)
  end.
Definition guarded {X} (m : NM X) : NM X :=
  enabled ← irq_guard;
  finally m (drop_irq_guard enabled).

Definition make_pool (c : QueueConfig) (dir : DmaDirection) : NM (list DCommon) := λ s,
  match from_size_align (qc_buf_size c) (Z.max (qc_align c) 1) with
  | Ok l =>
      match fill_pool (qc_dma_mask c) (l_size l) (l_align l) dir (Z.to_nat (qc_ring_size c)) ([], mem s.2) with
      | ((p, d), Stuck) => ((s.1, mk_Host (nic s.2) d), Stuck)
      | ((p, d), _) => ((s.1, mk_Host (nic s.2) d), Ok p)
      end
  | _ => (s, Err (other_error "invalid queue layout"))
  end.

(** The queue that was created is dropped when the pool can not be made. *)
Definition or_drop {X} (drop : M (Host V A) NetError unit) (m : NM X) : NM X := λ s,
  match m s with
  | (s', Err e) => (_ ← net_mem drop; fail e) s'
  | r => r
  end.

Definition create_tx_queue : NM (NetQueue TQ) :=
  guarded (
    o ← call_interface new_tx_queue;
    queue ← lift (ok_or o (other_error "failed to create tx queue"));
    let config := tx_config queue in
    pool ← or_drop (tx_drop queue) (make_pool config ToDevice);
    waker ← register_tx (tx_id queue);
    mret (mk_NetQueue queue pool ∅ config waker)).

(** On a queue that is in hand, from the state of the device. *)
Definition with_queue {X} (q : NetQueue RQ) (m : M (NetQueue RQ * Host V A) NetError X) : NM (NetQueue RQ * outcome NetError X) :=
  λ s, let '((q', h), r) := m (q, s.2) in ((s.1, h), match r with Stuck => Stuck | _ => Ok (q', r) end).

(** The block of [create_rx_queue] that holds the guard. *)
Definition open_rx_queue : NM (NetQueue RQ) :=
  guarded (
    o ← call_interface new_rx_queue;
    queue ← lift (ok_or o (other_error "failed to create rx queue"));
    let config := rx_config queue in
    pool ← or_drop (rx_drop queue) (make_pool config FromDevice);
    waker ← register_rx (rx_id queue);
    mret (mk_NetQueue queue pool ∅ config waker)).

Definition create_rx_queue : NM (NetQueue RQ) :=
  rx ← open_rx_queue;
  p ← with_queue rx prefill;
  let '(rx', r) := p in
  match r with
  | Ok _ => mret rx'
  | Err e => d ← with_queue rx' (drop_queue rx_drop); fail e
  | Stuck => stuck
  end.

(** [IrqHandler::handle]. *)
Fixpoint wake_all (map : NetInner I → gmap Z Z) (ids : list Z) : NM unit :=
  match ids with
  | [] => mret tt
  | id :: ids => _ ← wake map id; wake_all map ids
  end.
Definition IrqHandler_handle : NM unit :=
  event ← call_interface handle_irq;
  _ ← wake_all tx_wakers (id_iter (tx_queue event));
  wake_all rx_wakers (id_iter (rx_queue event)).
End Net.
