(* ===== verification/E1000.v ===== *)
(** * The Intel E1000 driver

    driver/eth/intel/src/e1000: registers (registers.rs), descriptors
    (descriptor.rs), the two rings and the interface of rdif-eth (mod.rs).

    The card is a state [V] behind registers; it sees memory and not the CPU's
    cache, and may work at any access to a register. *)

From Stdlib Require Import String.
From stdpp Require Import base list numbers gmap.
From S2P Require Import Prelude Bytes Heap Dma Eth.
Open Scope Z_scope.

(** ** registers.rs *)

Definition CTRL : Z := 0x0000.
Definition ICR : Z := 0x00C0.
Definition IMS : Z := 0x00D0.
Definition IMC : Z := 0x00D8.
Definition RCTL : Z := 0x0100.
Definition TCTL : Z := 0x0400.
Definition TIPG : Z := 0x0410.
Definition RDBAL : Z := 0x2800.
Definition RDBAH : Z := 0x2804.
Definition RDLEN : Z := 0x2808.
Definition RDH : Z := 0x2810.
Definition RDT : Z := 0x2818.
Definition TDBAL : Z := 0x3800.
Definition TDBAH : Z := 0x3804.
Definition TDLEN : Z := 0x3808.
Definition TDH : Z := 0x3810.
Definition TDT : Z := 0x3818.
Definition RAL0 : Z := 0x5400.
Definition RAH0 : Z := 0x5404.

(** The card: registers, at 4-byte offsets. *)
Class E1000Regs (V : Type) : Type := {
  reg_read : Z → V * gmap Z Z → (V * gmap Z Z) * Z;
  reg_write : Z → Z → V * gmap Z Z → V * gmap Z Z
}.

Section Regs.
Context {V A : Type} `{E1000Regs V}.
Notation HM := (M (Host V A) NetError).

(** [Regs::read], [Regs::write]. *)
Definition regs_read (offset : Z) : HM Z := λ h,
  let m := (mem h).1 in
  let '((v, g), x) := reg_read offset (nic h, ram m) in
  (mk_Host v (mk_Mach g (cache m), (mem h).2), Ok x).
Definition regs_write (offset value : Z) : HM unit := λ h,
  let m := (mem h).1 in
  let '(v, g) := reg_write offset value (nic h, ram m) in
  (mk_Host v (mk_Mach g (cache m), (mem h).2), Ok tt).

(** The polls of [reset], at most [n] more. *)
Fixpoint wait_reset (n : nat) : HM unit :=
  match n with
  | O => mret tt
  | S n =>
      x ← regs_read CTRL;
      if Z.land x (Z.shiftl 1 26) =? 0 then mret tt else wait_reset n
  end.
Definition reset (polls : nat) : HM unit :=
  x ← regs_read CTRL;
  _ ← regs_write CTRL (Z.lor x (Z.shiftl 1 26));
  wait_reset polls.

Definition disable_all_irq : HM unit :=
  _ ← regs_write IMC u32_max;
  _ ← regs_read ICR;
  mret tt.

Definition enable_default_irq : HM unit :=
  regs_write IMS (Z.lor (Z.lor (Z.shiftl 1 0) (Z.shiftl 1 2)) (Z.shiftl 1 7)).

Definition mac_addr : HM (list Z) :=
  low ← regs_read RAL0;
  high ← regs_read RAH0;
  mret [Z.land low 0xff; Z.land (Z.shiftr low 8) 0xff; Z.land (Z.shiftr low 16) 0xff;
        Z.land (Z.shiftr low 24) 0xff; Z.land high 0xff; Z.land (Z.shiftr high 8) 0xff].
End Regs.

(** ** descriptor.rs *)

Record TxDesc : Type := mk_TxDesc {
  td_addr : Z;
  td_length : Z;
  td_cso : Z;
  td_cmd : Z;
  td_status : Z;
  td_css : Z;
  td_special : Z
}.
Definition CMD_EOP : Z := Z.shiftl 1 0.
Definition CMD_IFCS : Z := Z.shiftl 1 1.
Definition CMD_RS : Z := Z.shiftl 1 3.
Definition STATUS_DD : Z := Z.shiftl 1 0.

Definition tx_desc_new (addr length : Z) : TxDesc :=
  mk_TxDesc addr length 0 (Z.lor (Z.lor CMD_EOP CMD_IFCS) CMD_RS) 0 0 0.
Definition tx_is_done (d : TxDesc) : bool := negb (Z.land (td_status d) STATUS_DD =? 0).

Record RxDesc : Type := mk_RxDesc {
  rd_addr : Z;
  rd_length : Z;
  rd_checksum : Z;
  rd_status : Z;
  rd_errors : Z;
  rd_special : Z
}.
Definition rx_desc_new (addr : Z) : RxDesc := mk_RxDesc addr 0 0 0 0 0.
Definition rx_is_done (d : RxDesc) : bool := negb (Z.land (rd_status d) STATUS_DD =? 0).

(** [repr(C)]: 16 bytes, 8-byte aligned. *)
Definition DESC_SIZE : Z := 16.
Definition tx_bytes (d : TxDesc) : list Z :=
  le_bytes 8 (td_addr d) ++ le_bytes 2 (td_length d) ++ le_bytes 1 (td_cso d) ++ le_bytes 1 (td_cmd d) ++
  le_bytes 1 (td_status d) ++ le_bytes 1 (td_css d) ++ le_bytes 2 (td_special d).
Definition tx_of_bytes (bs : list Z) : TxDesc :=
  mk_TxDesc (word_at 0 8 bs) (word_at 8 2 bs) (word_at 10 1 bs) (word_at 11 1 bs) (word_at 12 1 bs)
    (word_at 13 1 bs) (word_at 14 2 bs).
Definition rx_bytes (d : RxDesc) : list Z :=
  le_bytes 8 (rd_addr d) ++ le_bytes 2 (rd_length d) ++ le_bytes 2 (rd_checksum d) ++ le_bytes 1 (rd_status d) ++
  le_bytes 1 (rd_errors d) ++ le_bytes 2 (rd_special d).
Definition rx_of_bytes (bs : list Z) : RxDesc :=
  mk_RxDesc (word_at 0 8 bs) (word_at 8 2 bs) (word_at 10 2 bs) (word_at 12 1 bs) (word_at 13 1 bs) (word_at 14 2 bs).

(** ** mod.rs *)

Definition QUEUE_SIZE : Z := 256.
Definition QUEUE_ID0 : Z := 0.
Definition MAX_PACKET : Z := 2048.

Record E1000 : Type := mk_E1000 {
  dma_mask : Z;
  mac : list Z;
  irq_enabled : bool;
  tx_created : bool;
  rx_created : bool
}.

(** [E1000TxQueue] and [E1000RxQueue] have the same fields. *)
Record E1000Queue : Type := mk_E1000Queue {
  desc : DCommon;
  q_dma_mask : Z;
  bus_addrs : list (option Z);
  next_submit : Z;
  next_reclaim : Z
}.

Definition check_vid_did (vid did : Z) : bool :=
  (vid =? 0x8086) && ((did =? 0x100e) || (did =? 0x100f)).

Section E1000.
Context {V A : Type} `{E1000Regs V} `{DmaOp A}.
Notation HM := (M (Host V A) NetError).
Notation EM := (M (E1000 * Host V A) NetError).
Notation QM := (M (E1000Queue * Host V A) NetError).

(** [E1000::new], with the registers mapped. *)
Definition e1000_new (mask : Z) : HM E1000 :=
  _ ← reset 20000;
  _ ← disable_all_irq;
  x ← regs_read CTRL;
  _ ← regs_write CTRL (Z.lor x (Z.shiftl 1 6));
  mac ← mac_addr;
  mret (mk_E1000 mask mac false false false).

Definition on_host {X} (f : HM X) : EM X := λ s, let '(h, r) := f s.2 in ((s.1, h), r).
Definition set_flags (irq tx rx : bool) : EM unit :=
  modify (λ s, (mk_E1000 (dma_mask s.1) (mac s.1) irq tx rx, s.2)).

(** [array_zero_with_align(QUEUE_SIZE, 16, Bidirectional).ok()?] *)
Definition new_ring (mask : Z) : HM (option DCommon) := λ h,
  match new_zero_with_align mask DESC_SIZE 8 QUEUE_SIZE 16 Bidirectional (mem h) with
  | (d, Ok c) => (mk_Host (nic h) d, Ok (Some c))
  | (d, Err _) => (mk_Host (nic h) d, Ok None)
  | (d, Stuck) => (mk_Host (nic h) d, Stuck)
  end.

(** The base, the length and the two ends of a ring. *)
Definition program_ring (bal bah len head tail : Z) (desc_base : Z) : HM unit :=
  _ ← regs_write bal (desc_base mod 2 ^ 32);
  _ ← regs_write bah (Z.shiftr desc_base 32 mod 2 ^ 32);
  _ ← regs_write len (QUEUE_SIZE * DESC_SIZE);
  _ ← regs_write head 0;
  regs_write tail 0.

Definition queue_new (d : DCommon) (mask : Z) : E1000Queue :=
  mk_E1000Queue d mask (replicate (Z.to_nat QUEUE_SIZE) None) 0 0.

Definition e1000_create_tx_queue : EM (option E1000Queue) :=
  s ← get;
  if tx_created s.1 then mret None
  else
    o ← on_host (new_ring (dma_mask s.1));
    match o with
    | None => mret None
    | Some d =>
        _ ← on_host (program_ring TDBAL TDBAH TDLEN TDH TDT (dc_dma d));
        _ ← on_host (regs_write TCTL (Z.lor (Z.lor (Z.lor (Z.shiftl 1 1) (Z.shiftl 1 3)) (Z.shiftl 0x10 4)) (Z.shiftl 0x40 12)));
        _ ← on_host (regs_write TIPG (Z.lor (Z.lor 10 (Z.shiftl 8 10)) (Z.shiftl 6 20)));
        _ ← set_flags (irq_enabled s.1) true (rx_created s.1);
        mret (Some (queue_new d (dma_mask s.1)))
    end.

Definition e1000_create_rx_queue : EM (option E1000Queue) :=
  s ← get;
  if rx_created s.1 then mret None
  else
    o ← on_host (new_ring (dma_mask s.1));
    match o with
    | None => mret None
    | Some d =>
        _ ← on_host (program_ring RDBAL RDBAH RDLEN RDH RDT (dc_dma d));
        _ ← on_host (regs_write RCTL (Z.lor (Z.lor (Z.shiftl 1 1) (Z.shiftl 1 15)) (Z.shiftl 1 26)));
        _ ← set_flags (irq_enabled s.1) (tx_created s.1) true;
        mret (Some (queue_new d (dma_mask s.1)))
    end.

Definition e1000_enable_irq : EM unit :=
  _ ← on_host enable_default_irq;
  s ← get;
  set_flags true (tx_created s.1) (rx_created s.1).
Definition e1000_disable_irq : EM unit :=
  _ ← on_host disable_all_irq;
  s ← get;
  set_flags false (tx_created s.1) (rx_created s.1).

Definition e1000_handle_irq : EM Event :=
  icr ← on_host (regs_read ICR);
  tx ← lift (if Z.land icr (Z.shiftl 1 0) =? 0 then Ok id_none else id_insert QUEUE_ID0 id_none);
  rx ← lift (if Z.land icr (Z.shiftl 1 7) =? 0 then Ok id_none else id_insert QUEUE_ID0 id_none);
  mret (mk_Event tx rx).

(** ** The rings *)

Definition queue_config (q : E1000Queue) : QueueConfig :=
  mk_QueueConfig (q_dma_mask q) 16 MAX_PACKET QUEUE_SIZE.

Definition q_host {X} (f : HM X) : QM X := λ s, let '(h, r) := f s.2 in ((s.1, h), r).
Definition set_submit (idx : Z) (bus_addr : Z) (next : Z) : QM unit :=
  modify (λ s, (mk_E1000Queue (desc s.1) (q_dma_mask s.1) (<[Z.to_nat idx := Some bus_addr]> (bus_addrs s.1)) next
                  (next_reclaim s.1), s.2)).

(** The common part of the two [submit]: [bytes] is the new descriptor, [head]
    and [tail] are the registers of the ring. *)
Definition ring_submit (head tail : Z) (bytes : list Z) (bus_addr : Z) : QM unit :=
  s ← get;
  let idx := next_submit s.1 in
  let next := (idx + 1) mod QUEUE_SIZE in
  hw_head ← q_host (regs_read head);
  if next =? hw_head then fail Retry
  else
    _ ← q_host (on_mem (array_set DESC_SIZE (desc s.1) idx bytes));
    _ ← lift (unwrap (bus_addrs s.1 !! Z.to_nat idx));
    _ ← set_submit idx bus_addr next;
    q_host (regs_write tail next).

Definition e1000_tx_submit (bus_addr len : Z) : QM unit :=
  if MAX_PACKET <? len then fail (Other (DriverError "tx packet too large"))
  else ring_submit TDH TDT (tx_bytes (tx_desc_new bus_addr (len mod 2 ^ 16))) bus_addr.
Definition e1000_rx_submit (bus_addr len : Z) : QM unit :=
  if MAX_PACKET <? len then fail (Other (DriverError "rx buffer too large"))
  else ring_submit RDH RDT (rx_bytes (rx_desc_new bus_addr)) bus_addr.

(** The common part of the two [reclaim]: the address is taken out of its slot. *)
Definition ring_reclaim (is_done : list Z → bool) : QM (option (Z * list Z)) :=
  s ← get;
  let idx := next_reclaim s.1 in
  o ← q_host (on_mem (array_read DESC_SIZE (desc s.1) idx));
  match o with
  | None => mret None
  | Some d =>
      if is_done d then
        slot ← lift (unwrap (bus_addrs s.1 !! Z.to_nat idx));
        _ ← modify (λ s, (mk_E1000Queue (desc s.1) (q_dma_mask s.1) (<[Z.to_nat idx := None]> (bus_addrs s.1))
              (next_submit s.1) ((idx + 1) mod QUEUE_SIZE), s.2));
        mret ((λ a, (a, d)) <$> slot)
      else mret None
  end.

Definition e1000_tx_reclaim : QM (option Z) :=
  o ← ring_reclaim (λ d, tx_is_done (tx_of_bytes d));
  mret (fst <$> o).
Definition e1000_rx_reclaim : QM (option (Z * Z)) :=
  o ← ring_reclaim (λ d, rx_is_done (rx_of_bytes d));
  mret ((λ p, (p.1, rd_length (rx_of_bytes p.2))) <$> o).

Definition queue_drop (q : E1000Queue) : HM unit := on_mem (dc_drop (desc q)).

#[export] Instance E1000_tx : ITxQueue E1000Queue V A := {|
  tx_id _ := QUEUE_ID0;
  tx_config := queue_config;
  tx_submit := e1000_tx_submit;
  tx_reclaim := e1000_tx_reclaim;
  tx_drop := queue_drop
|}.
#[export] Instance E1000_rx : IRxQueue E1000Queue V A := {|
  rx_id _ := QUEUE_ID0;
  rx_config := queue_config;
  rx_submit := e1000_rx_submit;
  rx_reclaim := e1000_rx_reclaim;
  rx_drop := queue_drop
|}.
#[export] Instance E1000_interface : Interface E1000 E1000Queue E1000Queue V A := {|
  mac_address := mac;
  new_tx_queue := e1000_create_tx_queue;
  new_rx_queue := e1000_create_rx_queue;
  enable_irq := e1000_enable_irq;
  disable_irq := e1000_disable_irq;
  is_irq_enabled := irq_enabled;
  handle_irq := e1000_handle_irq
|}.
End E1000.
