(* ===== verification/E1000Proof.v ===== *)
(** * Receiving with the E1000

    The rings of the driver and the card, the buffers rd-net lends to it, and
    the cache between them: every packet the card takes in is handed to the
    caller of [receive] once, in order and byte for byte. *)

From Stdlib Require Import String.
From stdpp Require Import base list numbers relations.
From S2P Require Import Prelude Bytes Heap Dma DmaProof Eth E1000.
From stdpp Require Import gmap.
Open Scope Z_scope.

(** ** Descriptors in memory *)

Lemma length_rx_bytes d : length (rx_bytes d) = 16%nat.
Proof. unfold rx_bytes. by rewrite !length_app, !length_le_bytes. Qed.

Definition rx_fits (d : RxDesc) : Prop :=
  0 ≤ rd_addr d < 2 ^ 64 ∧ 0 ≤ rd_length d < 2 ^ 16 ∧ 0 ≤ rd_checksum d < 2 ^ 16 ∧ 0 ≤ rd_status d < 2 ^ 8 ∧
  0 ≤ rd_errors d < 2 ^ 8 ∧ 0 ≤ rd_special d < 2 ^ 16.

Lemma rx_of_bytes_bytes d : rx_fits d → rx_of_bytes (rx_bytes d) = d.
Proof.
  destruct d as [a l c s e p]. unfold rx_fits, rx_of_bytes, rx_bytes.
  cbn [rd_addr rd_length rd_checksum rd_status rd_errors rd_special]. intros (? & ? & ? & ? & ? & ?). f_equal; words.
Qed.

(** A new descriptor names its buffer and is not done. *)
Lemma rx_new_of_bytes a : 0 ≤ a < 2 ^ 64 →
  rd_addr (rx_of_bytes (rx_bytes (rx_desc_new a))) = a ∧ rx_is_done (rx_of_bytes (rx_bytes (rx_desc_new a))) = false.
Proof. intros Ha. rewrite rx_of_bytes_bytes; [done|]. unfold rx_fits. simpl. lia. Qed.

(** ** The card *)

(** The receive ring as the card sees it; [rx_log] are the packets it has put
    into memory. *)
Record RxRing : Type := mk_RxRing {
  rx_on : bool;
  rx_base : Z;
  rx_len : Z;
  rx_head : Z;
  rx_tail : Z;
  rx_log : list (list Z)
}.

Definition rx_slot (r : RxRing) : Z := rx_base r + DESC_SIZE * rx_head r.
Definition rx_took (r : RxRing) (pkt : list Z) : RxRing :=
  mk_RxRing (rx_on r) (rx_base r) (rx_len r) ((rx_head r + 1) mod (rx_len r / DESC_SIZE)) (rx_tail r) (rx_log r ++ [pkt]).

(** A packet that fits a buffer goes where the descriptor at the head says; the
    descriptor is written back with its length and marked done. [bus] takes
    an address of the card to one of memory. *)
Inductive rx_step (bus : Z → Z) : RxRing * gmap Z Z → RxRing * gmap Z Z → Prop :=
| rx_packet r g pkt d : rx_on r = true → rx_head r ≠ rx_tail r → Z.of_nat (length pkt) ≤ MAX_PACKET →
    length d = Z.to_nat DESC_SIZE → rx_is_done (rx_of_bytes d) = true →
    rd_length (rx_of_bytes d) = Z.of_nat (length pkt) →
    let a := rd_addr (rx_of_bytes (ram_load (bus (rx_slot r)) DESC_SIZE g)) in
    rx_step bus (r, g) (rx_took r pkt, write_map (bus (rx_slot r)) d (write_map (bus a) pkt g)).
Notation rx_steps bus := (rtc (rx_step bus)).

(** The registers of the receive unit. *)
Definition rx_set (offset x : Z) (r : RxRing) : RxRing :=
  if offset =? RDBAL then mk_RxRing (rx_on r) (rx_base r / 2 ^ 32 * 2 ^ 32 + x) (rx_len r) (rx_head r) (rx_tail r) (rx_log r)
  else if offset =? RDBAH then mk_RxRing (rx_on r) (x * 2 ^ 32 + rx_base r mod 2 ^ 32) (rx_len r) (rx_head r) (rx_tail r) (rx_log r)
  else if offset =? RDLEN then mk_RxRing (rx_on r) (rx_base r) x (rx_head r) (rx_tail r) (rx_log r)
  else if offset =? RDH then mk_RxRing (rx_on r) (rx_base r) (rx_len r) x (rx_tail r) (rx_log r)
  else if offset =? RDT then mk_RxRing (rx_on r) (rx_base r) (rx_len r) (rx_head r) x (rx_log r)
  else if offset =? RCTL then mk_RxRing (Z.testbit x 1) (rx_base r) (rx_len r) (rx_head r) (rx_tail r) (rx_log r)
  else r.

(** The card receives at any access to its registers and at no other time the
    driver could see; reading the head tells where it is. *)
Class E1000Card (V : Type) `{E1000Regs V} (bus : Z → Z) (view : V → RxRing) : Prop := {
  card_read off v g : off = RDH ∨ off = ICR →
    let s := reg_read off (v, g) in
    rx_steps bus (view v, g) (view s.1.1, s.1.2) ∧ (off = RDH → s.2 = rx_head (view s.1.1));
  card_write off x v g : off ∈ [RDBAL; RDBAH; RDLEN; RDH; RDT; RCTL; IMC; IMS] →
    let s := reg_write off x (v, g) in
    ∃ r g', rx_steps bus (view v, g) (r, g') ∧ rx_steps bus (rx_set off x r, g') (view s.1, s.2)
}.

(** What the ring relies on besides [DmaOpLaws]: memory as the card sees it
    keeps the blocks in use, and [bus] takes a block's bus addresses to its
    addresses. *)
Class DmaBus (A : Type) `{DmaOp A} (aok : A → Prop) (busy : A → DmaHandle → Prop) (bus : Z → Z) : Prop := {
  op_keeps_ram mask l m a m' a' o h' x : aok a → alloc_coherent_op mask l (m, a) = ((m', a'), o) →
    busy a h' → in_area (cpu_addr h') (h_size h') x = true → dev_at m' x = dev_at m x;
  op_bus a h i : aok a → busy a h → 0 ≤ i < h_size h → bus (dma_addr h + i) = cpu_addr h + i;
  op_dma_pos a h : aok a → busy a h → 0 ≤ dma_addr h
}.

(** ** The invariant of the receive ring *)

Section Ring.
Context (bus : Z → Z).

Definition ring_at (q : E1000Queue) (k : nat) : Z := (next_reclaim q + Z.of_nat k) mod QUEUE_SIZE.
Definition slot_at (q : E1000Queue) (k : nat) : Z := dc_cpu (desc q) + DESC_SIZE * ring_at q k.
Definition desc_at (q : E1000Queue) (g : gmap Z Z) (k : nat) : RxDesc := rx_of_bytes (ram_load (slot_at q k) DESC_SIZE g).

(** Areas of memory that do not meet. *)
Definition areas_apart (a n b m : Z) : Prop := a + n ≤ b ∨ b + m ≤ a.

(** The card owns the buffers [posted], from the next to reclaim; it has filled
    the first ones with the packets [ready]. *)
Record rx_inv (q : E1000Queue) (r : RxRing) (g : gmap Z Z) (posted : list Z) (ready : list (list Z)) : Prop := {
  ri_plain : plain Bidirectional (desc q);
  ri_size : dc_size (desc q) = QUEUE_SIZE * DESC_SIZE;
  ri_bus i : 0 ≤ i < QUEUE_SIZE * DESC_SIZE → bus (dc_dma (desc q) + i) = dc_cpu (desc q) + i;
  ri_on : rx_on r = true;
  ri_base : rx_base r = dc_dma (desc q);
  ri_len : rx_len r = QUEUE_SIZE * DESC_SIZE;
  ri_slots : length (bus_addrs q) = Z.to_nat QUEUE_SIZE;
  ri_next : 0 ≤ next_reclaim q < QUEUE_SIZE;
  ri_room : (length ready ≤ length posted ≤ 255)%nat;
  ri_submit : next_submit q = ring_at q (length posted);
  ri_tail : rx_tail r = next_submit q;
  ri_head : rx_head r = ring_at q (length ready);
  ri_addr k a : posted !! k = Some a → bus_addrs q !! Z.to_nat (ring_at q k) = Some (Some a);
  ri_empty k a : posted !! k = Some a → ready !! k = None → rd_addr (desc_at q g k) = a ∧ rx_is_done (desc_at q g k) = false;
  ri_full k a p : posted !! k = Some a → ready !! k = Some p →
    rx_is_done (desc_at q g k) = true ∧ rd_length (desc_at q g k) = Z.of_nat (length p) ∧
    Z.of_nat (length p) ≤ MAX_PACKET ∧ ram_load (bus a) (Z.of_nat (length p)) g = p;
  ri_apart k a : posted !! k = Some a → areas_apart (bus a) MAX_PACKET (dc_cpu (desc q)) (QUEUE_SIZE * DESC_SIZE);
  ri_apart' j k a b : posted !! j = Some a → posted !! k = Some b → j ≠ k → areas_apart (bus a) MAX_PACKET (bus b) MAX_PACKET
}.

(** Memory of the card: the slots of the posted buffers, and the buffers. *)
Definition owned (q : E1000Queue) (posted : list Z) (x : Z) : Prop :=
  ∃ k a, posted !! k = Some a ∧ (in_area (slot_at q k) DESC_SIZE x = true ∨ in_area (bus a) MAX_PACKET x = true).

(** Slots are apart. *)
Lemma ring_at_range q k : 0 ≤ ring_at q k < QUEUE_SIZE.
Proof. unfold ring_at. apply Z.mod_pos_bound. done. Qed.

Lemma ring_at_inj q j k : (j < 256)%nat → (k < 256)%nat → ring_at q j = ring_at q k → j = k.
Proof.
  unfold ring_at, QUEUE_SIZE. intros Hj Hk E.
  pose proof (Z.div_mod (next_reclaim q + Z.of_nat j) 256). pose proof (Z.div_mod (next_reclaim q + Z.of_nat k) 256). lia.
Qed.

Lemma slot_other q j k x : (j < 256)%nat → (k < 256)%nat → j ≠ k →
  in_area (slot_at q j) DESC_SIZE x = true → in_area (slot_at q k) DESC_SIZE x = false.
Proof.
  intros Hj Hk Hne Hx%in_area_spec. apply in_area_out.
  pose proof (ring_at_inj q j k Hj Hk). unfold slot_at, DESC_SIZE in *. lia.
Qed.

Lemma slot_in_desc q k x : in_area (slot_at q k) DESC_SIZE x = true →
  dc_cpu (desc q) ≤ x < dc_cpu (desc q) + QUEUE_SIZE * DESC_SIZE.
Proof.
  intros Hx%in_area_spec. pose proof (ring_at_range q k). unfold slot_at, DESC_SIZE, QUEUE_SIZE in *. lia.
Qed.

(** The invariant looks only at the memory of the card. *)
Lemma rx_inv_frame q r g g' posted ready : rx_inv q r g posted ready →
  (∀ x, owned q posted x → ram_at g' x = ram_at g x) → rx_inv q r g' posted ready.
Proof.
  intros Hi Hg.
  assert (∀ k a, posted !! k = Some a → desc_at q g' k = desc_at q g k) as Hd.
  { intros k a Hk. unfold desc_at. f_equal. apply ram_load_ext. intros x Hx. apply Hg. exists k, a. split; [done|].
    left. by apply in_area_spec. }
  destruct Hi. split; try done.
  - intros k a Hk Hr. rewrite (Hd k a Hk). eauto.
  - intros k a p Hk Hr. rewrite (Hd k a Hk). destruct (ri_full0 k a p Hk Hr) as (H1 & H2 & H3 & H4). split_and!; try done.
    rewrite <- H4 at 2. apply ram_load_ext. intros x Hx. apply Hg. exists k, a. split; [done|]. right. apply in_area_spec. lia.
Qed.

Lemma ring_at_S q k : (ring_at q k + 1) mod QUEUE_SIZE = ring_at q (S k).
Proof. unfold ring_at, QUEUE_SIZE. rewrite Zplus_mod_idemp_l. f_equal. lia. Qed.

Lemma areas_apart_in a n b m x : areas_apart a n b m → a ≤ x < a + n → b ≤ x < b + m → False.
Proof. unfold areas_apart. lia. Qed.

(** The memory after a packet was received in slot [n]. *)
Lemma rx_write_at q n a d pkt g x : length d = 16%nat →
  ram_at (write_map (slot_at q n) d (write_map (bus a) pkt g)) x =
  if in_area (slot_at q n) DESC_SIZE x then default 0 (d !! Z.to_nat (x - slot_at q n))
  else if in_area (bus a) (Z.of_nat (length pkt)) x then default 0 (pkt !! Z.to_nat (x - bus a)) else ram_at g x.
Proof. intros Hd. rewrite !ram_at_write, Hd. done. Qed.

Lemma rx_inv_step q r g r' g' posted ready : rx_inv q r g posted ready → rx_step bus (r, g) (r', g') →
  ∃ p, rx_inv q r' g' posted (ready ++ [p]) ∧ rx_log r' = rx_log r ++ [p] ∧
    ∀ x, ¬ owned q posted x → ram_at g' x = ram_at g x.
Proof.
  intros Hi Hs. remember (r, g) as s eqn:Es. remember (r', g') as s' eqn:Es'.
  destruct Hs as [r0 g0 pkt d Hon Hne Hlen Hd Hdone Hl a]. injection Es as -> ->. injection Es' as <- <-.
  pose proof Hi as [Hplain Hsize Hbus Hon' Hbase Hrlen Hslots Hnext Hroom Hsub Htail Hhead Haddr Hempty Hfull Hap Hap'].
  set (n := length ready) in *.
  assert (n < length posted)%nat as Hn.
  { destruct (decide (n = length posted)) as [E|]; [|lia]. destruct Hne. by rewrite Htail, Hsub, Hhead, E. }
  destruct (lookup_lt_is_Some_2 posted n Hn) as [b Hb].
  assert (ready !! n = None) as Hrn by (by apply lookup_ge_None).
  pose proof (ring_at_range q n) as Hrange.
  assert (bus (rx_slot r) = slot_at q n) as Eslot.
  { unfold rx_slot, slot_at. rewrite Hbase, Hhead. apply Hbus. unfold QUEUE_SIZE, DESC_SIZE in *. lia. }
  destruct (Hempty n b Hb Hrn) as [Eb _]. unfold desc_at in Eb. unfold a. rewrite Eslot, Eb. clear a.
  assert (length d = 16%nat) as Hd16 by done.
  (* what a reader of other places sees *)
  assert (∀ k x, (k < 256)%nat → k ≠ n → in_area (slot_at q k) DESC_SIZE x = true →
    ram_at (write_map (slot_at q n) d (write_map (bus b) pkt g)) x = ram_at g x) as Hother.
  { intros k x Hk Hkn Hx. rewrite rx_write_at by done. rewrite (slot_other q k n x) by (done || lia).
    rewrite in_area_out; [done|]. apply slot_in_desc in Hx. specialize (Hap n b Hb). unfold areas_apart in Hap. lia. }
  assert (∀ x, bus b ≤ x < bus b + MAX_PACKET → in_area (slot_at q n) DESC_SIZE x = false) as Hbuf.
  { intros x Hx. destruct (in_area (slot_at q n) DESC_SIZE x) eqn:E; [|done]. apply slot_in_desc in E.
    destruct (areas_apart_in _ _ _ _ x (Hap n b Hb) Hx E). }
  exists pkt. split; [|split; [done|]].
  - split; try done; simpl.
    + rewrite length_app. simpl. lia.
    + rewrite length_app, Hhead, Hrlen. simpl. rewrite Nat.add_1_r. apply ring_at_S.
    + intros k c Hk Hkr. apply lookup_ge_None in Hkr. rewrite length_app in Hkr. simpl in Hkr.
      pose proof (lookup_lt_Some _ _ _ Hk).
      destruct (Hempty k c Hk) as [H1 H2]; [apply lookup_ge_None; lia|]. unfold desc_at in *.
      rewrite (ram_load_ext _ _ _ g); [done|]. intros x Hx. apply (Hother k); [lia|lia|by apply in_area_spec].
    + intros k c p Hk Hp. pose proof (lookup_lt_Some _ _ _ Hk). apply lookup_app_Some in Hp as [Hp|[Hge Hp]].
      * pose proof (lookup_lt_Some _ _ _ Hp) as Hkn. destruct (Hfull k c p Hk Hp) as (H1 & H2 & H3 & H4).
        unfold desc_at in *. rewrite (ram_load_ext _ DESC_SIZE _ g).
        2:{ intros x Hx. apply (Hother k); [lia|lia|by apply in_area_spec]. }
        split_and!; try done. rewrite <- H4 at 2. apply ram_load_ext. intros x Hx. rewrite rx_write_at by done.
        rewrite in_area_out.
        2:{ specialize (Hap k c Hk). unfold areas_apart in Hap. pose proof (slot_in_desc q n).
            unfold slot_at, DESC_SIZE, QUEUE_SIZE in *. lia. }
        rewrite in_area_out; [done|]. specialize (Hap' k n c b Hk Hb ltac:(lia)). unfold areas_apart in Hap'. lia.
      * fold n in Hge. destruct (k - length ready)%nat eqn:Ek; [|done]. injection Hp as <-. fold n in Ek.
        assert (k = n) as -> by lia. assert (c = b) as -> by congruence. unfold desc_at.
        rewrite ram_load_write by (unfold DESC_SIZE; lia). split_and!; try done.
        apply load_bytes. intros x Hx. rewrite rx_write_at, Hbuf by (done || lia).
        by rewrite (proj2 (in_area_spec _ _ _)).
  - intros x Hx. rewrite rx_write_at by done.
    destruct (in_area (slot_at q n) DESC_SIZE x) eqn:E1; [destruct Hx; exists n, b; auto|].
    destruct (in_area (bus b) (Z.of_nat (length pkt)) x) eqn:E2; [|done]. destruct Hx. exists n, b. split; [done|]. right.
    apply in_area_spec in E2. apply in_area_spec. lia.
Qed.

Lemma rx_inv_steps q r g s' posted ready : rx_steps bus (r, g) s' → rx_inv q r g posted ready →
  ∃ ps, rx_inv q s'.1 s'.2 posted (ready ++ ps) ∧ rx_log s'.1 = rx_log r ++ ps ∧
    ∀ x, ¬ owned q posted x → ram_at s'.2 x = ram_at g x.
Proof.
  intros Hs. remember (r, g) as s eqn:Es. revert r g ready Es.
  induction Hs as [s|s [r1 g1] s' H1 _ IH]; intros r g ready -> Hi.
  - exists []. simpl. by rewrite !app_nil_r.
  - destruct (rx_inv_step _ _ _ _ _ _ _ Hi H1) as (p & Hi1 & L1 & F1).
    destruct (IH r1 g1 (ready ++ [p]) eq_refl Hi1) as (ps & Hi2 & L2 & F2). exists (p :: ps).
    rewrite <- app_assoc in Hi2. split; [done|]. rewrite L2, L1, <- app_assoc. split; [done|].
    intros x Hx. by rewrite F2, F1.
Qed.

(** ** Taking a buffer out, and putting one in *)

Definition pop (q : E1000Queue) : E1000Queue :=
  mk_E1000Queue (desc q) (q_dma_mask q) (<[Z.to_nat (next_reclaim q) := None]> (bus_addrs q)) (next_submit q)
    ((next_reclaim q + 1) mod QUEUE_SIZE).
Definition push (q : E1000Queue) (b : Z) : E1000Queue :=
  mk_E1000Queue (desc q) (q_dma_mask q) (<[Z.to_nat (next_submit q) := Some b]> (bus_addrs q))
    ((next_submit q + 1) mod QUEUE_SIZE) (next_reclaim q).

Lemma ring_at_pop q k : ring_at (pop q) k = ring_at q (S k).
Proof. unfold ring_at, pop. simpl. rewrite Zplus_mod_idemp_l. f_equal. lia. Qed.

Lemma ring_at_0 q : 0 ≤ next_reclaim q < QUEUE_SIZE → ring_at q 0 = next_reclaim q.
Proof. intros Hn. unfold ring_at. rewrite Z.add_0_r. by apply Z.mod_small. Qed.

Lemma ring_nat_inj q j k : (j < 256)%nat → (k < 256)%nat → Z.to_nat (ring_at q j) = Z.to_nat (ring_at q k) → j = k.
Proof.
  intros Hj Hk E. apply (ring_at_inj q); [done..|]. pose proof (ring_at_range q j). pose proof (ring_at_range q k). lia.
Qed.

Lemma rx_inv_pop q r g b p posted ready : rx_inv q r g (b :: posted) (p :: ready) → rx_inv (pop q) r g posted ready.
Proof.
  intros [Hplain Hsize Hbus Hon' Hbase Hrlen Hslots Hnext Hroom Hsub Htail Hhead Haddr Hempty Hfull Hap Hap'].
  simpl in Hroom, Hsub, Hhead.
  assert (∀ k, slot_at (pop q) k = slot_at q (S k)) as Eslot by (intros k; unfold slot_at; by rewrite ring_at_pop).
  assert (∀ k, desc_at (pop q) g k = desc_at q g (S k)) as Edesc by (intros k; unfold desc_at; by rewrite Eslot).
  split; try done.
  - unfold pop. cbn [bus_addrs]. by rewrite length_insert.
  - apply Z.mod_pos_bound. done.
  - lia.
  - simpl. by rewrite ring_at_pop.
  - by rewrite ring_at_pop.
  - intros k a Hk. rewrite ring_at_pop. unfold pop. cbn [bus_addrs]. pose proof (lookup_lt_Some _ _ _ Hk).
    rewrite list_lookup_insert_ne; [by apply Haddr|]. rewrite <- (ring_at_0 q Hnext). intros E.
    apply ring_nat_inj in E; lia.
  - intros k a Hk Hr. rewrite Edesc. by apply Hempty.
  - intros k a pk Hk Hr. rewrite Edesc. by apply (Hfull (S k)).
  - intros k a Hk. by apply (Hap (S k)).
  - intros j k a c Hj Hk Hne. apply (Hap' (S j) (S k)); [done..|lia].
Qed.

Lemma rx_inv_push q r g b posted ready : rx_inv q r g posted ready → (length posted ≤ 254)%nat →
  rd_addr (desc_at q g (length posted)) = b → rx_is_done (desc_at q g (length posted)) = false →
  areas_apart (bus b) MAX_PACKET (dc_cpu (desc q)) (QUEUE_SIZE * DESC_SIZE) →
  (∀ a, a ∈ posted → areas_apart (bus a) MAX_PACKET (bus b) MAX_PACKET) →
  rx_inv (push q b) (rx_set RDT (ring_at q (S (length posted))) r) g (posted ++ [b]) ready.
Proof.
  intros [Hplain Hsize Hbus Hon' Hbase Hrlen Hslots Hnext Hroom Hsub Htail Hhead Haddr Hempty Hfull Hap Hap'] Hl Eb Ed Ha Ha'.
  split; try done.
  - unfold push. cbn [bus_addrs]. by rewrite length_insert.
  - rewrite length_app. simpl. lia.
  - simpl. rewrite Hsub, ring_at_S, length_app, Nat.add_1_r. done.
  - simpl. by rewrite Hsub, ring_at_S.
  - intros k a Hk. change (ring_at (push q b) k) with (ring_at q k). unfold push. cbn [bus_addrs]. rewrite Hsub.
    apply lookup_app_Some in Hk as [Hk|[Hge Hk]].
    + pose proof (lookup_lt_Some _ _ _ Hk). rewrite list_lookup_insert_ne; [by apply Haddr|].
      intros E. apply ring_nat_inj in E; lia.
    + destruct (k - length posted)%nat eqn:E; [|done]. injection Hk as <-. replace k with (length posted) by lia.
      apply list_lookup_insert_eq. rewrite Hslots. pose proof (ring_at_range q (length posted)). lia.
  - intros k a Hk Hr. apply lookup_app_Some in Hk as [Hk|[Hge Hk]]; [by apply Hempty|].
    destruct (k - length posted)%nat eqn:E; [|done]. injection Hk as <-. replace k with (length posted) by lia. done.
  - intros k a p Hk Hp. apply lookup_app_Some in Hk as [Hk|[Hge Hk]]; [by apply Hfull|].
    apply lookup_lt_Some in Hp. lia.
  - intros k a Hk. apply lookup_app_Some in Hk as [Hk|[Hge Hk]]; [by apply (Hap k)|].
    destruct (k - length posted)%nat eqn:E; [|done]. by injection Hk as <-.
  - intros j k a c Hj Hk Hne. apply lookup_app_Some in Hj as [Hj|[Hgj Hj]]; apply lookup_app_Some in Hk as [Hk|[Hgk Hk]].
    + by apply (Hap' j k).
    + destruct (k - length posted)%nat eqn:E; [|done]. injection Hk as <-. by apply Ha', (list_elem_of_lookup_2 _ j).
    + destruct (j - length posted)%nat eqn:E; [|done]. injection Hj as <-.
      destruct (Ha' c (list_elem_of_lookup_2 _ k _ Hk)); [by right|by left].
    + destruct (j - length posted)%nat eqn:E1; [|done]. destruct (k - length posted)%nat eqn:E2; [|done]. lia.
Qed.
End Ring.

(** ** The driver on the ring *)

Section Driver.
Context {V A : Type} `{ER : E1000Regs V} `{DO : DmaOp A} (bus : Z → Z) (view : V → RxRing) {CC : E1000Card V bus view}.
Notation Hst := (Host V A).

(** The invariant of the queue on the host. *)
Definition rxq (q : E1000Queue) (h : Hst) (posted : list Z) (ready : list (list Z)) : Prop :=
  rx_inv bus q (view (nic h)) (ram (mem h).1) posted ready.

Lemma rxq_frame q v m m' (a a' : A) posted ready : rxq q (mk_Host v (m, a)) posted ready →
  (∀ x, owned bus q posted x → dev_at m' x = dev_at m x) → rxq q (mk_Host v (m', a')) posted ready.
Proof. unfold rxq. simpl. intros Hi Hx. by apply (rx_inv_frame bus q _ (ram m)). Qed.

Lemma regs_write_run off x (q : E1000Queue) v m (a : A) s : reg_write off x (v, ram m) = s →
  q_host (regs_write off x) (q, mk_Host v (m, a)) = ((q, mk_Host s.1 (mk_Mach s.2 (cache m), a)), Ok tt).
Proof. intros E. unfold q_host, regs_write. simpl. rewrite E. by destruct s. Qed.

Lemma ring_len q : dc_size (desc q) = QUEUE_SIZE * DESC_SIZE → array_len DESC_SIZE (desc q) = QUEUE_SIZE.
Proof. intros E. unfold array_len. by rewrite E. Qed.

Lemma ring_reclaim_run q (v : V) m (a : A) isd b : plain Bidirectional (desc q) → dc_size (desc q) = QUEUE_SIZE * DESC_SIZE →
  0 ≤ next_reclaim q < QUEUE_SIZE → bus_addrs q !! Z.to_nat (next_reclaim q) = Some b →
  let bs := ram_load (slot_at q 0) DESC_SIZE (ram m) in
  let h' := mk_Host v (invalidate (dc_cpu (desc q) + next_reclaim q * DESC_SIZE) DESC_SIZE m, a) in
  ring_reclaim isd (q, mk_Host v (m, a)) =
  (if isd bs then ((pop q, h'), Ok ((λ x, (x, bs)) <$> b)) else ((q, h'), Ok None)).
Proof.
  intros [Hb Hd] Hsize Hnext Haddr bs h'.
  assert (q_host (on_mem (array_read DESC_SIZE (desc q) (next_reclaim q))) (q, mk_Host v (m, a)) = ((q, h'), Ok (Some bs))) as E.
  { unfold q_host, on_mem. simpl. rewrite array_read_run by (rewrite ?Hd, ?ring_len; done || lia). simpl.
    unfold bs, slot_at. rewrite ring_at_0 by done. by rewrite (Z.mul_comm DESC_SIZE). }
  unfold ring_reclaim. rewrite (bind_run get _ _ (q, mk_Host v (m, a)) _ eq_refl). cbn [fst].
  rewrite (bind_run _ _ _ _ _ E). destruct (isd bs); [|done].
  rewrite (bind_lift _ _ _ b) by (by rewrite Haddr). done.
Qed.

(** Reclaiming hands out the oldest packet, if there is one. *)
Lemma reclaim_run q h b posted ready : rxq q h (b :: posted) ready →
  ∃ h', nic h' = nic h ∧ (mem h').2 = (mem h).2 ∧
    match ready with
    | [] => e1000_rx_reclaim (q, h) = ((q, h'), Ok None) ∧ rxq q h' (b :: posted) []
    | p :: ready => e1000_rx_reclaim (q, h) = ((pop q, h'), Ok (Some (b, Z.of_nat (length p)))) ∧
        rxq (pop q) h' posted ready ∧ Z.of_nat (length p) ≤ MAX_PACKET ∧ ram_load (bus b) (Z.of_nat (length p)) (ram (mem h').1) = p
    end.
Proof.
  intros Hi. destruct h as [v [m a]]. unfold rxq in *. simpl in Hi.
  pose proof (ri_next _ _ _ _ _ _ Hi) as Hnext.
  pose proof (ri_addr _ _ _ _ _ _ Hi 0 b eq_refl) as Haddr. rewrite ring_at_0 in Haddr by done.
  pose proof (ring_reclaim_run q v m a (λ d, rx_is_done (rx_of_bytes d)) _ (ri_plain _ _ _ _ _ _ Hi) (ri_size _ _ _ _ _ _ Hi) Hnext Haddr) as E.
  cbv zeta beta in E. set (h' := mk_Host v (invalidate _ _ _, a)) in E.
  exists h'. split; [done|]. split; [done|]. unfold e1000_rx_reclaim. destruct ready as [|p ready].
  - destruct (ri_empty _ _ _ _ _ _ Hi 0 b eq_refl eq_refl) as [_ Hnd]. unfold desc_at in Hnd. rewrite Hnd in E.
    by rewrite (bind_run _ _ _ _ _ E).
  - destruct (ri_full _ _ _ _ _ _ Hi 0 b p eq_refl eq_refl) as (Hd & Hl & Hmax & Hp). unfold desc_at in Hd, Hl. rewrite Hd in E.
    rewrite (bind_run _ _ _ _ _ E). split; [|split; [by eapply rx_inv_pop|done]].
    rewrite <- Hl. reflexivity.
Qed.

(** Submitting a buffer that meets no other one never fails, and the card may
    receive meanwhile. *)
Lemma ring_submit_run q h b len posted ready : rxq q h posted ready → (length posted ≤ 254)%nat → len ≤ MAX_PACKET →
  0 ≤ b < 2 ^ 64 → areas_apart (bus b) MAX_PACKET (dc_cpu (desc q)) (QUEUE_SIZE * DESC_SIZE) →
  (∀ a, a ∈ posted → areas_apart (bus a) MAX_PACKET (bus b) MAX_PACKET) →
  ∃ h' ps, e1000_rx_submit b len (q, h) = ((push q b, h'), Ok tt) ∧ (mem h').2 = (mem h).2 ∧
    rxq (push q b) h' (posted ++ [b]) (ready ++ ps) ∧ rx_log (view (nic h')) = rx_log (view (nic h)) ++ ps.
Proof.
  intros Hi Hl Hlen Hb Ha Ha'. destruct h as [v [m a]]. unfold rxq in *. simpl in Hi.
  pose proof (card_read RDH v (ram m) (or_introl eq_refl)) as Hread.
  destruct (reg_read RDH (v, ram m)) as [[v1 g1] x] eqn:E1. simpl in Hread. destruct Hread as [Hs1 Hx].
  specialize (Hx eq_refl). destruct (rx_inv_steps _ _ _ _ _ _ _ Hs1 Hi) as (ps1 & Hi1 & L1 & _). simpl in Hi1, L1.
  set (m1 := mk_Mach g1 (cache m)). set (n := length posted).
  pose proof (ri_submit _ _ _ _ _ _ Hi1) as Hsub. fold n in Hsub.
  pose proof (ring_at_range q n) as Hrange.
  set (next := (next_submit q + 1) mod QUEUE_SIZE).
  assert (next = ring_at q (S n)) as Hnext by (unfold next; by rewrite Hsub, ring_at_S).
  assert ((next =? x) = false) as Hne.
  { apply Z.eqb_neq. rewrite Hx, (ri_head _ _ _ _ _ _ Hi1), Hnext. intros E.
    pose proof (ri_room _ _ _ _ _ _ Hi1). apply ring_at_inj in E; lia. }
  set (bytes := rx_bytes (rx_desc_new b)).
  set (m2 := flush (dc_cpu (desc q) + next_submit q * DESC_SIZE) DESC_SIZE (cpu_store (dc_cpu (desc q) + next_submit q * DESC_SIZE) bytes m1)).
  destruct (ri_plain _ _ _ _ _ _ Hi1) as [Hbounce Hdir].
  assert (q_host (on_mem (array_set DESC_SIZE (desc q) (next_submit q) bytes)) (q, mk_Host v1 (m1, a)) =
    ((q, mk_Host v1 (m2, a)), Ok tt)) as E2.
  { unfold q_host, on_mem. simpl. rewrite array_set_run; [done|done|by rewrite Hdir|].
    rewrite ring_len by apply (ri_size _ _ _ _ _ _ Hi1). lia. }
  assert (dc_cpu (desc q) + next_submit q * DESC_SIZE = slot_at q n) as Eslot by (unfold slot_at; rewrite Hsub; lia).
  pose proof (store_flush_seen (slot_at q n) bytes DESC_SIZE m1) as Hseen.
  unfold bytes in Hseen at 1. rewrite length_rx_bytes in Hseen. specialize (Hseen ltac:(done)). rewrite <- Eslot in Hseen.
  fold m2 in Hseen. destruct Hseen as [Hbytes Hframe]. rewrite Eslot in Hbytes, Hframe.
  (* memory of the posted buffers is as before *)
  assert (∀ x, owned bus q posted x → ram_at (ram m2) x = ram_at g1 x) as Hown.
  { intros y (k & c & Hk & Hy). apply (Hframe y). pose proof (lookup_lt_Some _ _ _ Hk). destruct Hy as [Hy|Hy].
    - eapply slot_other; [..|exact Hy]; lia.
    - destruct (in_area (slot_at q n) DESC_SIZE y) eqn:Ey; [|done]. apply slot_in_desc in Ey.
      pose proof (ri_apart _ _ _ _ _ _ Hi1 k c Hk). apply in_area_spec in Hy. unfold areas_apart in *. lia. }
  assert (rx_inv bus q (view v1) (ram m2) posted (ready ++ ps1)) as Hi2 by (by apply (rx_inv_frame bus q _ g1)).
  assert (desc_at q (ram m2) n = rx_desc_new b) as Hdesc.
  { unfold desc_at. change (ram_load (slot_at q n) DESC_SIZE (ram m2)) with (dev_load (slot_at q n) (Z.of_nat (length bytes)) m2).
    rewrite Hbytes. apply rx_of_bytes_bytes. unfold rx_fits. simpl. lia. }
  destruct (card_write RDT next v1 (ram m2)) as (r & g3 & Hs3 & Hs4); [apply list_elem_of_In; simpl; tauto|].
  destruct (reg_write RDT next (v1, ram m2)) as [v4 g4] eqn:E4. simpl in Hs4.
  destruct (rx_inv_steps _ _ _ _ _ _ _ Hs3 Hi2) as (ps3 & Hi3 & L3 & F3). simpl in Hi3, L3, F3.
  assert (desc_at q g3 n = rx_desc_new b) as Hdesc3.
  { rewrite <- Hdesc. unfold desc_at. f_equal. apply ram_load_ext. intros y Hy. apply F3. intros (k & c & Hk & Hy').
    pose proof (lookup_lt_Some _ _ _ Hk). apply in_area_spec in Hy. destruct Hy' as [Hy'|Hy'].
    - rewrite (slot_other q n k y) in Hy' by (done || lia). done.
    - apply slot_in_desc in Hy. apply in_area_spec in Hy'. pose proof (ri_apart _ _ _ _ _ _ Hi3 k c Hk). unfold areas_apart in *. lia. }
  pose proof (rx_inv_push bus q r g3 b posted _ Hi3 Hl) as Hpush. fold n in Hpush. rewrite Hdesc3 in Hpush.
  specialize (Hpush eq_refl eq_refl Ha Ha'). rewrite <- Hnext in Hpush.
  destruct (rx_inv_steps _ _ _ _ _ _ _ Hs4 Hpush) as (ps4 & Hi4 & L4 & _). simpl in Hi4, L4.
  exists (mk_Host v4 (mk_Mach g4 (cache m2), a)), (ps1 ++ ps3 ++ ps4). rewrite <- !app_assoc in Hi4. split; [|split; [done|split; [done|]]].
  - unfold e1000_rx_submit. rewrite (proj2 (Z.ltb_ge _ _)) by done. unfold ring_submit.
    rewrite (bind_run get _ _ (q, mk_Host v (m, a)) _ eq_refl). cbn [fst]. fold next.
    rewrite (bind_run (q_host (regs_read RDH)) _ (q, mk_Host v (m, a)) (q, mk_Host v1 (m1, a)) x).
    2:{ unfold q_host, regs_read. simpl. by rewrite E1. }
    rewrite Hne, (bind_run _ _ _ _ _ E2).
    destruct (lookup_lt_is_Some_2 (bus_addrs q) (Z.to_nat (next_submit q))) as [o Ho].
    { rewrite (ri_slots _ _ _ _ _ _ Hi1), Hsub. lia. }
    rewrite (bind_lift _ _ _ o) by (by rewrite Ho).
    assert (set_submit (next_submit q) b next (q, mk_Host v1 (m2, a)) = ((push q b, mk_Host v1 (m2, a)), Ok tt)) as E5 by done.
    rewrite (bind_run _ _ _ _ _ E5).
    by rewrite (regs_write_run _ _ _ _ _ _ _ E4).
  - simpl. rewrite L4. change (rx_log (rx_set RDT next r)) with (rx_log r). rewrite L3, L1, <- !app_assoc. done.
Qed.
End Driver.
