(* ===== verification/EthProof.v ===== *)
(** * Receiving packets: from the card to the caller

    The queue of rd-net on the ring of the E1000: creation, the buffers in
    flight, and [receive]. *)

From Stdlib Require Import String.
From stdpp Require Import base list numbers relations.
From S2P Require Import Prelude Bytes Heap Dma DmaProof Eth E1000 E1000Proof.
From stdpp Require Import gmap.
Open Scope Z_scope.

Section Net.
Context {V A : Type} `{ER : E1000Regs V} `{DO : DmaOp A} (bus : Z → Z) (view : V → RxRing) {CC : E1000Card V bus view}.
Context (aok : A → Prop) (busy : A → DmaHandle → Prop) {DL : DmaOpLaws A aok busy} {DB : DmaBus A aok busy bus}.
Notation Hst := (Host V A).
Notation Rx := (NetQueue E1000Queue).
Notation block c := (handle (dc_handle c)).

(** ** The buffers in flight *)

Definition buff_ok (c : DCommon) : Prop :=
  plain FromDevice c ∧ dc_size c = MAX_PACKET ∧ bus (dc_dma c) = dc_cpu c ∧ 0 ≤ dc_dma c < 2 ^ 64.

(** The ring and the map of rd-net hold the same buffers. *)
Record net_inv (s : Rx * Hst) (held : list DCommon) (ready : list (list Z)) : Prop := {
  ni_ring : rxq bus view (interface s.1) s.2 (dc_dma <$> held) ready;
  ni_config : config s.1 = queue_config (interface s.1);
  ni_buffs : Forall buff_ok held;
  ni_lookup a c : inflight s.1 !! a = Some c ↔ c ∈ held ∧ dc_dma c = a;
  ni_size : size (inflight s.1) = length held
}.

Lemma array_len_1 c : array_len 1 c = dc_size c.
Proof. unfold array_len. apply Z.div_1_r. Qed.

(** Buffers of the ring are apart, so their addresses differ. *)
Lemma held_distinct q (h : Hst) held ready c c' : rxq bus view q h (dc_dma <$> held) ready → ∀ j k, held !! j = Some c → held !! k = Some c' →
  dc_dma c = dc_dma c' → j = k.
Proof.
  intros Hi j k Hj Hk E. destruct (decide (j = k)) as [|Hne]; [done|].
  pose proof (ri_apart' _ _ _ _ _ _ Hi j k (dc_dma c) (dc_dma c')) as Ha. rewrite !list_lookup_fmap, Hj, Hk in Ha.
  specialize (Ha eq_refl eq_refl Hne). rewrite E in Ha. unfold areas_apart, MAX_PACKET in Ha. lia.
Qed.

Lemma read_with_run c len m (a : A) : plain FromDevice c → 0 ≤ len ≤ dc_size c →
  read_with 1 c len (m, a) = ((invalidate (dc_cpu c) len m, a), Ok (ram_load (dc_cpu c) len (ram m))).
Proof.
  intros [Hb Hd] Hl. unfold read_with, assert_. rewrite array_len_1, (proj2 (Z.leb_le _ _)) by lia.
  rewrite (bind_run (mret tt) _ (m, a) (m, a) tt eq_refl), Z.mul_1_r.
  assert (array_prepare_read c 0 len (m, a) = ((invalidate (dc_cpu c) len m, a), Ok tt)) as E.
  { unfold array_prepare_read, assert_, range_in, saturating_sub. rewrite Z.sub_0_r, !(proj2 (Z.leb_le _ _)) by lia.
    simpl. rewrite (bind_run (mret tt) _ (m, a) (m, a) tt eq_refl). rewrite prepare_read_plain by (rewrite ?Hd; done).
    by rewrite Z.add_0_r. }
  rewrite (bind_run _ _ _ _ _ E). unfold load. do 3 f_equal. apply load_ext. intros x Hx.
  simpl. by rewrite cpu_at_invalidate, (proj2 (in_area_spec _ _ _)).
Qed.

(** What [interface.submit] and [interface.reclaim] do to the queue. *)
Definition with_interface (q : E1000Queue) (s : Rx) : Rx := mk_NetQueue q (nq_pool s) (inflight s) (config s) (waker s).
Definition with_inflight (m : gmap Z DCommon) (s : Rx) : Rx := mk_NetQueue (interface s) (nq_pool s) m (config s) (waker s).

(** Lending a buffer that meets no other one. *)
Lemma submit_buffer_run s held ready c : net_inv s held ready → (length held ≤ 254)%nat → buff_ok c →
  areas_apart (dc_cpu c) MAX_PACKET (dc_cpu (desc (interface s.1))) (QUEUE_SIZE * DESC_SIZE) →
  (∀ c', c' ∈ held → areas_apart (dc_cpu c') MAX_PACKET (dc_cpu c) MAX_PACKET) →
  ∃ s' ps, submit_buffer c s = (s', Ok tt) ∧ net_inv s' (held ++ [c]) (ready ++ ps) ∧
    rx_log (view (nic s'.2)) = rx_log (view (nic s.2)) ++ ps ∧ nq_pool s'.1 = nq_pool s.1 ∧ (mem s'.2).2 = (mem s.2).2 ∧
    desc (interface s'.1) = desc (interface s.1) ∧ config s'.1 = config s.1.
Proof.
  intros [Hring Hconf Hbuffs Hlook Hsize] Hl Hc Ha Ha'. destruct s as [s h]. simpl in *.
  pose proof Hc as (Hplain & Hsz & Hbus & Hpos). rewrite Forall_forall in Hbuffs.
  assert (∀ b, b ∈ dc_dma <$> held → areas_apart (bus b) MAX_PACKET (bus (dc_dma c)) MAX_PACKET) as Hap.
  { intros b Hb. apply list_elem_of_fmap in Hb as (c' & -> & Hc'). destruct (Hbuffs c' Hc') as (_ & _ & -> & _). rewrite Hbus. by apply Ha'. }
  destruct (ring_submit_run bus view (interface s) h (dc_dma c) (Z.min MAX_PACKET (dc_size c)) _ ready Hring) as (h' & ps & E & Hmem & Hring' & Hlog).
  { by rewrite length_fmap. } { lia. } { done. } { by rewrite Hbus. } { done. }
  assert (inflight s !! dc_dma c = None) as Hnone.
  { destruct (inflight s !! dc_dma c) as [c'|] eqn:El; [|done]. exfalso.
    apply Hlook in El as [Hin Hd]. specialize (Hap (dc_dma c')).
    rewrite <- Hd in Hap. unfold areas_apart, MAX_PACKET in Hap.
    destruct Hap; [by apply list_elem_of_fmap_2|lia..]. }
  set (s1 := with_interface (push (interface s) (dc_dma c)) s).
  assert (call_queue (rx_submit (dc_dma c) (Z.min (qc_buf_size (config s)) (array_len 1 c))) (s, h) = ((s1, h'), Ok tt)) as E1.
  { unfold call_queue. rewrite Hconf, array_len_1.
    change (rx_submit (dc_dma c) (Z.min (qc_buf_size (queue_config (interface s))) (dc_size c)) (interface s, h)) with
      (e1000_rx_submit (dc_dma c) (Z.min MAX_PACKET (dc_size c)) (interface s, h)). rewrite E. unfold s1, with_interface. by rewrite Hconf. }
  exists (with_inflight (<[dc_dma c := c]> (inflight s)) s1, h'), ps. split; [|split; [|done]].
  - unfold submit_buffer. cbv zeta. cbn [fst]. rewrite E1. unfold insert_inflight. rewrite (bind_run get _ _ (s1, h') _ eq_refl).
    cbn [fst snd]. change (inflight s1) with (inflight s). rewrite Hnone. done.
  - split; cbn [fst snd interface config inflight with_inflight with_interface s1].
    + rewrite fmap_app. done.
    + rewrite Hconf. done.
    + apply Forall_app. split; [by apply Forall_forall|]. by constructor.
    + intros b c'. rewrite lookup_insert_Some, Hlook, elem_of_app, list_elem_of_singleton. split.
      * intros [[<- <-]|[Hne [Hin Hd]]]; [split; [by right|done]|split; [by left|done]].
      * intros [[Hin| ->] <-]; [|by left]. right. split; [|by split]. intros Ed.
        assert (inflight s !! dc_dma c = Some c') as El by (apply Hlook; by split). by rewrite Hnone in El.
    + rewrite map_size_insert_None by done. rewrite Hsize, length_app. simpl. lia.
Qed.

(** ** Receiving *)

Lemma reclaim_packet_run s h c held ready : net_inv (s, h) (c :: held) ready →
  ∃ s' h', nic h' = nic h ∧ (mem h').2 = (mem h).2 ∧
  match ready with
  | [] => reclaim_packet (s, h) = ((s', h'), Ok None) ∧ net_inv (s', h') (c :: held) []
  | p :: ready => reclaim_packet (s, h) = ((s', h'), Ok (Some (c, Z.of_nat (length p)))) ∧
      net_inv (s', h') held ready ∧ Z.of_nat (length p) ≤ MAX_PACKET ∧
      ram_load (dc_cpu c) (Z.of_nat (length p)) (ram (mem h').1) = p ∧
      desc (interface s') = desc (interface s)
  end.
Proof.
  intros [Hring Hconf Hbuffs Hlook Hsize]. simpl in *.
  destruct (reclaim_run bus view (interface s) h (dc_dma c) (dc_dma <$> held) ready Hring) as (h' & Hn & Hm & Hr).
  pose proof Hbuffs as Hall. apply Forall_cons in Hbuffs as [(Hplain & Hsz & Hbus & Hpos) Hbuffs].
  destruct ready as [|p ready]; destruct Hr as [E Hr].
  - exists s, h'. split; [done|]. split; [done|]. split; [|by split].
    unfold reclaim_packet. assert (call_queue rx_reclaim (s, h) = ((s, h'), Ok None)) as E1.
    { unfold call_queue. change (rx_reclaim (interface s, h)) with (e1000_rx_reclaim (interface s, h)). rewrite E. by destruct s. }
    by rewrite (bind_run _ _ _ _ _ E1).
  - destruct Hr as (Hring' & Hmax & Hp). set (s1 := with_interface (pop (interface s)) s).
    exists (with_inflight (delete (dc_dma c) (inflight s)) s1), h'. split; [done|]. split; [done|].
    assert (inflight s !! dc_dma c = Some c) as El by (apply Hlook; split; [by left|done]).
    assert (call_queue rx_reclaim (s, h) = ((s1, h'), Ok (Some (dc_dma c, Z.of_nat (length p))))) as E1.
    { unfold call_queue. change (rx_reclaim (interface s, h)) with (e1000_rx_reclaim (interface s, h)). by rewrite E. }
    split; [|split; [|by rewrite <- Hbus]].
    + unfold reclaim_packet. rewrite (bind_run _ _ _ _ _ E1).
      assert (remove_inflight (dc_dma c) (s1, h') = ((with_inflight (delete (dc_dma c) (inflight s)) s1, h'), Ok (Some c))) as E2.
      { unfold remove_inflight. rewrite (bind_run get _ (s1, h') _ _ eq_refl). cbn [fst].
        change (inflight s1) with (inflight s). rewrite El. done. }
      rewrite (bind_run _ _ _ _ _ E2). rewrite (bind_run get _ _ _ _ eq_refl). cbn [fst config with_inflight s1 with_interface].
      rewrite Hconf, array_len_1, Hsz. cbn [qc_buf_size queue_config]. by rewrite !Z.min_l by lia.
    + split; cbn [fst snd interface config inflight with_inflight with_interface s1]; [done|by rewrite Hconf|done|..].
      * intros a c'. rewrite lookup_delete_Some, Hlook, elem_of_cons. split.
        -- intros [Hne [[->|Hin] <-]]; [done|]. by split.
        -- intros [Hin <-]. split; [|split; [by right|done]]. intros Ed.
           apply list_elem_of_lookup_1 in Hin as [k Hk].
           pose proof (held_distinct _ _ (c :: held) _ c c' Hring 0 (S k) eq_refl Hk Ed). done.
      * rewrite map_size_delete_Some by (by rewrite El). rewrite Hsize. done.
Qed.

(** [receive] answers with the oldest packet, if there is one, and gives the
    buffer back to the card. *)
Lemma receive_run s h c held ready : net_inv (s, h) (c :: held) ready → (length held ≤ 254)%nat →
  ∃ s', receive (s, h) = (s', Ok (head ready)) ∧
  match ready with
  | [] => net_inv s' (c :: held) [] ∧ rx_log (view (nic s'.2)) = rx_log (view (nic h))
  | p :: ready => ∃ ps, net_inv s' (held ++ [c]) (ready ++ ps) ∧ rx_log (view (nic s'.2)) = rx_log (view (nic h)) ++ ps
  end.
Proof.
  intros Hi Hl. destruct (reclaim_packet_run s h c held ready Hi) as (s1 & h1 & Hn & Hm & Hr).
  unfold receive. destruct ready as [|p ready]; destruct Hr as [E Hr].
  - exists (s1, h1). simpl. rewrite Hn. split; [|done].
    assert (try_receive (s, h) = ((s1, h1), Ok None)) as E1 by (unfold try_receive; by rewrite E).
    by rewrite (bind_run _ _ _ _ _ E1).
  - destruct Hr as (Hi1 & Hmax & Hp & Hd).
    assert (try_receive (s, h) = ((s1, h1), Ok (Some (c, Z.of_nat (length p))))) as E1 by (unfold try_receive; by rewrite E).
    destruct Hi as [Hring _ Hbuffs _ _]. apply Forall_cons in Hbuffs as [Hc Hbuffs]. pose proof Hc as (Hplain & Hsz & Hbus & _).
    destruct h1 as [v [m a]]. set (h2 := mk_Host v (invalidate (dc_cpu c) (Z.of_nat (length p)) m, a)).
    assert (on_buff (read_with 1 c (Z.of_nat (length p))) (s1, mk_Host v (m, a)) = ((s1, h2), Ok p)) as E2.
    { unfold on_buff, on_mem. simpl. rewrite read_with_run by (done || lia). simpl in Hp. by rewrite Hp. }
    assert (net_inv (s1, h2) held ready) as Hi2 by (by destruct Hi1; split).
    rewrite Forall_forall in Hbuffs.
    destruct (submit_buffer_run (s1, h2) held ready c Hi2 Hl Hc) as (s3 & ps & E3 & Hi3 & L3 & _).
    + simpl. rewrite Hd. rewrite <- Hbus. by apply (ri_apart _ _ _ _ _ _ Hring 0).
    + intros c' Hin. destruct (Hbuffs c' Hin) as (_ & _ & <- & _). rewrite <- Hbus.
      apply list_elem_of_lookup_1 in Hin as [k Hk].
      apply (ri_apart' _ _ _ _ _ _ Hring (S k) 0); [simpl; rewrite list_lookup_fmap, Hk; done|done|done].
    + exists s3. split; [|exists ps; split; [done|by rewrite L3, <- Hn]].
      rewrite (bind_run _ _ _ _ _ E1).
      assert (consume (c, Z.of_nat (length p)) (s1, mk_Host v (m, a)) = (s3, Ok p)) as E4.
      { unfold consume. cbn [fst snd]. rewrite (bind_run _ _ _ _ _ E2).
        assert (give_back c (s1, h2) = (s3, Ok tt)) as E5 by (unfold give_back; by rewrite E3).
        by rewrite (bind_run _ _ _ _ _ E5). }
      by rewrite (bind_run _ _ _ _ _ E4).
Qed.

(** ** Allocating *)

(** A new buffer is not bounced, and memory of blocks in use is kept as the
    card sees it. *)
Lemma pool_array_ram mask size align dir m a m' a' r : 0 < size < 2 ^ 64 → aok a →
  pool_array mask size align dir (m, a) = ((m', a'), r) →
  (∀ c, r = Ok c → plain dir c) ∧
  ∀ h x, busy a h → in_area (cpu_addr h) (h_size h) x = true → dev_at m' x = dev_at m x.
Proof.
  intros Hsize Ha E. unfold pool_array, new_zero_with_align in E.
  rewrite (bind_lift _ _ _ size) in E by (rewrite umul_ok by lia; f_equal; lia).
  unfold from_size_align in E. destruct (is_power_of_two (Z.max align 1) && _); [|by injection E as <- <- <-].
  erewrite bind_lift in E by reflexivity. unfold dc_new_zero, alloc_coherent in E.
  unfold mbind at 1, M_bind at 1 in E.
  destruct (alloc_coherent_op mask (mk_Layout size (Z.max align 1)) (m, a)) as [[m1 a1] [h|]] eqn:E1.
  2:{ injection E as <- <- <-. split; [done|]. intros h x Hb Hx. by eapply op_keeps_ram. }
  destruct (op_fresh _ _ _ _ _ _ _ Ha E1) as (_ & Hl & Hap & _).
  assert (h_size h = size) as Hsz by (unfold h_size; by rewrite Hl).
  destruct (check_handle mask h) as [u|e|]; simpl in E; injection E as <- <- <-.
  - split; [by intros c [= <-]|]. intros h' x Hb Hx. rewrite <- (op_keeps_ram _ _ _ _ _ _ _ _ x Ha E1 Hb Hx).
    unfold flush_invalidate. rewrite dev_at_invalidate, dev_at_flush. specialize (Hap h' Hb). apply in_area_spec in Hx.
    rewrite in_area_out; [done|]. destruct Hap; lia.
  - split; [done|]. intros h' x Hb Hx. by eapply op_keeps_ram.
  - split; [done|]. intros h' x Hb Hx. by eapply op_keeps_ram.
Qed.

Context (mask : Z).
Notation PInv held p d := (pool_inv aok busy mask MAX_PACKET 16 held (p, d)).

(** Buffers of the pool and of the ring, and the block of the ring itself. *)
Definition lent (ring : DmaHandle) (held p : list DCommon) (d : Mach * A) : Prop :=
  PInv held p d ∧ busy d.2 ring ∧ Forall (λ c, plain FromDevice c ∧ apart (block c) ring) (held ++ p).

Lemma max_packet_fits : 0 < MAX_PACKET < 2 ^ 64.
Proof. done. Qed.

Lemma lent_grow ring held p m a m' a' c : lent ring held p (m, a) →
  pool_array mask MAX_PACKET 16 FromDevice (m, a) = ((m', a'), Ok c) → lent ring (c :: held) p (m', a').
Proof.
  intros (Hp & Hb & Hf) E. pose proof Hp as (Ha & _).
  pose proof (pool_array_run aok busy mask MAX_PACKET 16 FromDevice max_packet_fits ltac:(done) m a Ha) as Hr.
  rewrite E in Hr. destruct Hr as (Ha' & Hg & Hap & Hmono).
  destruct (pool_array_ram _ _ _ _ _ _ _ _ _ max_packet_fits Ha E) as [Hpl _].
  split; [|split; [by apply Hmono|]].
  - by apply (pool_inv_add aok busy mask MAX_PACKET 16 max_packet_fits held p m a).
  - simpl. constructor; [|done]. split; [by apply Hpl|by apply Hap].
Qed.

Lemma lent_perm ring held p held' p' d : held ++ p ≡ₚ held' ++ p' → lent ring held p d → lent ring held' p' d.
Proof.
  intros Hperm (Hp & Hb & Hf). split; [|split; [done|by rewrite <- Hperm]].
  by apply (pool_inv_perm aok busy mask MAX_PACKET 16 held held' p p').
Qed.

Lemma lent_fail ring held p m a m' a' : lent ring held p (m, a) → aok a' → (∀ h, busy a h → busy a' h) →
  lent ring held p (m', a').
Proof.
  intros ((Ha & Hn & Hg & Hd) & Hb & Hf) Ha' Hmono. split; [|split; [by apply Hmono|done]].
  split; [done|]. split; [done|]. split; [|done]. intros h Hh. destruct (Hg h Hh) as (? & ? & ? & ?). split; [by apply Hmono|done].
Qed.

Lemma fill_pool_lent ring cap : ∀ p d, lent ring [] p d →
  ∃ p' d', fill_pool mask MAX_PACKET 16 FromDevice cap (p, d) = ((p', d'), Ok tt) ∧ lent ring [] p' d'.
Proof.
  induction cap as [|cap IH]; intros p [m a] Hl; [by eexists _, _|]. simpl. pose proof Hl as ((Ha & _) & _).
  pose proof (pool_array_run aok busy mask MAX_PACKET 16 FromDevice max_packet_fits ltac:(done) m a Ha) as Hr.
  destruct (pool_array mask MAX_PACKET 16 FromDevice (m, a)) as [[m' a'] [c|e|]] eqn:E; [| |done].
  - apply IH. apply (lent_perm ring [c] p); [simpl; by rewrite (Permutation_app_comm p)|]. by eapply lent_grow.
  - apply IH. destruct Hr. by eapply lent_fail.
Qed.

(** Taking a buffer for the ring. *)
Lemma alloc_buff_run ring (s : Rx) (h : Hst) held : lent ring held (nq_pool s) (mem h) →
  config s = mk_QueueConfig mask 16 MAX_PACKET QUEUE_SIZE →
  ∃ p d r, alloc_buff FromDevice (s, h) = ((mk_NetQueue (interface s) p (inflight s) (config s) (waker s), mk_Host (nic h) d), r) ∧
    (∀ b x, busy (mem h).2 b → in_area (cpu_addr b) (h_size b) x = true → dev_at d.1 x = dev_at (mem h).1 x) ∧
    match r with
    | Ok c => lent ring (c :: held) p d ∧ length p = pred (length (nq_pool s))
    | Err _ => nq_pool s = []
    | Stuck => False
    end.
Proof.
  intros Hl Hc. unfold alloc_buff, on_pool. cbn [fst snd]. rewrite Hc. cbn [qc_dma_mask qc_buf_size qc_align]. rewrite Z.max_l by lia.
  unfold pool_alloc. cbn [fst snd]. destruct (nq_pool s) as [|c p] eqn:Ep.
  - unfold dev. cbn [fst snd]. destruct h as [v [m a]]. cbn [mem fst snd] in *. pose proof Hl as ((Ha & _) & _).
    pose proof (pool_array_run aok busy mask MAX_PACKET 16 FromDevice max_packet_fits ltac:(done) m a Ha) as Hr.
    destruct (pool_array mask MAX_PACKET 16 FromDevice (m, a)) as [[m' a'] r] eqn:E.
    destruct (pool_array_ram _ _ _ _ _ _ _ _ _ max_packet_fits Ha E) as [_ Hk].
    exists [], (m', a'), (match r with Ok x => Ok x | Err e => Err (net_of_dma e) | Stuck => Stuck end).
    split; [done|]. split; [done|]. destruct r as [c|e|]; [|done..]. split; [by eapply lent_grow|done].
  - exists p, (mem h), (Ok c). split; [done|]. split; [done|]. split; [|done].
    apply (lent_perm ring held (c :: p)); [|done]. simpl. symmetry. apply Permutation_middle.
Qed.

(** ** Filling the ring *)

Definition ring_of (s : Rx) : DmaHandle := block (desc (interface s)).

Record full_inv (s : Rx * Hst) (held : list DCommon) (ready : list (list Z)) : Prop := {
  fi_net : net_inv s held ready;
  fi_lent : lent (ring_of s.1) held (nq_pool s.1) (mem s.2);
  fi_mask : q_dma_mask (interface s.1) = mask
}.

Lemma full_config s held ready : full_inv s held ready → config s.1 = mk_QueueConfig mask 16 MAX_PACKET QUEUE_SIZE.
Proof. intros [[_ Hc _ _ _] _ Hm]. by rewrite Hc, <- Hm. Qed.

Lemma lent_buff_ok ring c held p d : lent ring (c :: held) p d → buff_ok c.
Proof.
  intros ((Ha & Hn & Hg & Hd) & Hb & Hf). simpl in Hf. apply Forall_cons in Hf as [[Hpl _] _].
  destruct (Hg (block c)) as (Hbusy & Hsz & [Hm1 Hm2] & _); [simpl; apply elem_of_cons; by left|].
  simpl in Hbusy. split; [done|]. split; [done|]. pose proof (op_bus d.2 (block c) 0 Ha Hbusy) as Hbus.
  pose proof (op_dma_pos d.2 (block c) Ha Hbusy). unfold MAX_PACKET in *. split; [|unfold dc_dma; lia].
  rewrite !Z.add_0_r in Hbus. apply Hbus. lia.
Qed.

Lemma lent_apart ring c held p d : lent ring (c :: held) p d →
  areas_apart (dc_cpu c) MAX_PACKET (cpu_addr ring) (h_size ring) ∧
  ∀ c', c' ∈ held → areas_apart (dc_cpu c') MAX_PACKET (dc_cpu c) MAX_PACKET.
Proof.
  intros ((Ha & Hn & Hg & Hd) & Hb & Hf). simpl in Hf. apply Forall_cons in Hf as [[_ Hap] _].
  assert (∀ c', c' ∈ c :: held → h_size (block c') = MAX_PACKET ∧ block c' ∈ (λ c, block c) <$> (c :: held) ++ p) as Hsz.
  { intros c' Hc'. assert (block c' ∈ (λ c, block c) <$> (c :: held) ++ p) as Hin.
    { apply list_elem_of_fmap. exists c'. split; [done|]. apply elem_of_app. by left. }
    split; [|done]. by destruct (Hg _ Hin) as (_ & ? & _). }
  destruct (Hsz c) as [Hs Hin]; [by apply elem_of_cons; left|]. unfold areas_apart, apart, dc_cpu in *. split.
  - rewrite Hs in Hap. lia.
  - intros c' Hc'. destruct (Hsz c') as [Hs' Hin']; [by apply elem_of_cons; right|].
    destruct (Hd (block c') (block c)) as [H1|H1]; [done|done| |lia|lia].
    simpl in Hn. apply NoDup_cons in Hn as [Hnot _]. intros Heq. apply Hnot. rewrite <- Heq.
    apply list_elem_of_fmap. exists c'. split; [done|]. apply elem_of_app. by left.
Qed.

(** Memory of the ring is memory of blocks in use. *)
Lemma owned_busy s h held ready x : full_inv (s, h) held ready → owned bus (interface s) (dc_dma <$> held) x →
  ∃ b, busy (mem h).2 b ∧ in_area (cpu_addr b) (h_size b) x = true.
Proof.
  intros [[Hring _ Hbuffs _ _] (Hp & Hb & Hf) _] (k & a & Hk & Hx). simpl in *. destruct Hx as [Hx|Hx].
  - exists (ring_of s). split; [done|]. apply slot_in_desc in Hx. pose proof (ri_size _ _ _ _ _ _ Hring) as Hs.
    unfold dc_size in Hs. apply in_area_spec. unfold ring_of. rewrite Hs. exact Hx.
  - rewrite list_lookup_fmap in Hk. destruct (held !! k) as [c|] eqn:Ek; [|done]. injection Hk as <-.
    pose proof (list_elem_of_lookup_2 _ _ _ Ek) as Hc. rewrite Forall_forall in Hbuffs. destruct (Hbuffs c Hc) as (_ & Hs & Hbus & _).
    destruct Hp as (_ & _ & Hg & _). destruct (Hg (block c)) as (Hbusy & _).
    { apply list_elem_of_fmap. exists c. split; [done|]. apply elem_of_app. by left. }
    exists (block c). split; [done|]. rewrite Hbus in Hx. unfold dc_size in Hs. by rewrite Hs.
Qed.

Lemma prefill_loop_run k : ∀ s h held ready fuel, full_inv (s, h) held ready → (length held + k = 255)%nat → (k < fuel)%nat →
  ∃ s' r, prefill_loop fuel (s, h) = (s', r) ∧ match r with
    | Ok _ => ∃ held' ps, full_inv s' held' (ready ++ ps) ∧ length held' = 255%nat ∧
        rx_log (view (nic s'.2)) = rx_log (view (nic h)) ++ ps
    | Err _ => (length (nq_pool s) < k)%nat
    | Stuck => False
    end.
Proof.
  induction k as [|k IH]; intros s h held ready fuel Hi Hk Hf; (destruct fuel as [|fuel]; [lia|]); cbn [prefill_loop];
    rewrite (bind_run get _ (s, h) _ _ eq_refl); cbn [fst];
    pose proof (full_config _ _ _ Hi) as Hconf; pose proof Hi as [Hnet Hlent Hmask]; pose proof (ni_size _ _ _ Hnet) as Hsize; simpl in Hconf, Hsize;
    unfold capacity, saturating_sub; rewrite Hsize, Hconf; cbn [qc_ring_size]; unfold QUEUE_SIZE.
  - rewrite (proj2 (Z.ltb_ge _ _)) by lia. exists (s, h), (Ok tt). split; [done|]. exists held, []. rewrite !app_nil_r.
    split; [done|]. split; [lia|done].
  - rewrite (proj2 (Z.ltb_lt _ _)) by lia.
    destruct (alloc_buff_run (ring_of s) s h held Hlent Hconf) as (p & d & r & E & Hram & Hr).
    destruct r as [c|e|]; [| |done].
    2:{ exists (mk_NetQueue (interface s) p (inflight s) (config s) (waker s), mk_Host (nic h) d), (Err e).
        split; [unfold mbind, M_bind; by rewrite E|]. rewrite Hr. simpl. lia. }
    destruct Hr as [Hr Hpool]. rewrite (bind_run _ _ _ _ _ E). set (s1 := mk_NetQueue _ p _ _ _) in *. set (h1 := mk_Host (nic h) d) in *.
    pose proof (lent_buff_ok _ _ _ _ _ Hr) as Hc. destruct (lent_apart _ _ _ _ _ Hr) as [Ha Ha'].
    assert (net_inv (s1, h1) held ready) as Hnet1.
    { destruct Hnet as [H1 H2 H3 H4 H5]. split; try done. simpl in *. destruct h as [v [m a]], d as [m' a'].
      apply (rxq_frame bus view (interface s) v m m' a a'); [done|]. intros x Hx.
      destruct (owned_busy s (mk_Host v (m, a)) held ready x Hi Hx) as (b & Hb & Hbx). by apply (Hram b). }
    assert (h_size (ring_of s) = QUEUE_SIZE * DESC_SIZE) as Hrs.
    { apply (ri_size _ _ _ _ _ _ (ni_ring _ _ _ Hnet)). }
    destruct (submit_buffer_run (s1, h1) held ready c Hnet1 ltac:(lia) Hc) as (s2 & ps & E2 & Hnet2 & L2 & Hp2 & Hm2 & Hd2 & Hcf2).
    { rewrite Hrs in Ha. exact Ha. } { done. }
    destruct s2 as [s2 h2]. cbn [fst snd] in *. unfold or_retry. rewrite E2.
    destruct (IH s2 h2 (held ++ [c]) (ready ++ ps) fuel) as (s' & r & E3 & Hr3); [|rewrite length_app; simpl; lia|lia|].
    + split; [done| |].
      * cbn [fst snd]. unfold ring_of. rewrite Hd2, Hp2. apply (lent_perm _ (c :: held) p).
        { rewrite <- (Permutation_cons_append held c). done. }
        destruct Hr as ((Hx1 & Hx2 & Hx3 & Hx4) & Hb & Hff). split; [|split; [by rewrite Hm2|done]].
        split; [|split; [done|split; [|done]]]; cbn [fst snd] in *; rewrite Hm2; done.
      * pose proof (ni_config _ _ _ Hnet2) as Hc2. cbn [fst] in Hc2. rewrite Hcf2 in Hc2. cbn [config s1] in Hc2.
        rewrite Hconf in Hc2. cbn [fst]. by injection Hc2.
    + exists s', r. split; [done|]. destruct r as [u|e|]; [|rewrite Hp2 in Hr3; simpl in Hr3; lia|done]. destruct Hr3 as (held' & ps' & H1 & H2 & H3).
      exists held', (ps ++ ps'). rewrite <- app_assoc in H1. split; [done|]. split; [done|]. rewrite H3, L2, <- app_assoc. done.
Qed.

(** ** Creating the queue *)

(** A card that is off, or has no descriptors, does nothing. *)
Definition still (r : RxRing) : Prop := rx_on r = false ∨ rx_head r = rx_tail r.

Lemma still_steps r g s : still r → rtc (rx_step bus) (r, g) s → s = (r, g).
Proof. intros Hr Hs. inversion Hs as [|? y ? Hy]; [done|]. inversion Hy; subst. destruct Hr; congruence. Qed.

Lemma host_eta (h : Hst) : mk_Host (nic h) (mk_Mach (ram (mem h).1) (cache (mem h).1), (mem h).2) = h.
Proof. by destruct h as [v [[g c] a]]. Qed.

Lemma still_read off (h : Hst) : off = RDH ∨ off = ICR → still (view (nic h)) →
  ∃ v x, regs_read off h = (mk_Host v (mem h), Ok x) ∧ view v = view (nic h).
Proof.
  intros Ho Hs. pose proof (card_read off (nic h) (ram (mem h).1) Ho) as Hr. unfold regs_read.
  destruct (reg_read off (nic h, ram (mem h).1)) as [[v g] x]. simpl in Hr. destruct Hr as [Hr _].
  apply (still_steps _ _ _ Hs) in Hr. injection Hr as Hv Hg. exists v, x. split; [|done]. rewrite Hg.
  by destruct h as [? [[] ?]].
Qed.

Lemma still_write off x (h : Hst) : off ∈ [RDBAL; RDBAH; RDLEN; RDH; RDT; RCTL; IMC; IMS] →
  still (view (nic h)) → still (rx_set off x (view (nic h))) →
  ∃ v, regs_write off x h = (mk_Host v (mem h), Ok tt) ∧ view v = rx_set off x (view (nic h)).
Proof.
  intros Ho Hs Hs'. destruct (card_write off x (nic h) (ram (mem h).1) Ho) as (r & g & H1 & H2). unfold regs_write.
  apply (still_steps _ _ _ Hs) in H1. injection H1 as -> ->. apply (still_steps _ _ _ Hs') in H2.
  destruct (reg_write off x (nic h, ram (mem h).1)) as [v g]. simpl in H2. injection H2 as Hv Hg.
  exists v. split; [|done]. rewrite Hg. by destruct h as [? [[] ?]].
Qed.

Lemma irq_run (e : E1000) (h : Hst) : still (view (nic h)) →
  (∃ v e', e1000_disable_irq (e, h) = ((e', mk_Host v (mem h)), Ok tt) ∧ view v = view (nic h) ∧
     rx_created e' = rx_created e ∧ dma_mask e' = dma_mask e) ∧
  (∃ v e', e1000_enable_irq (e, h) = ((e', mk_Host v (mem h)), Ok tt) ∧ view v = view (nic h)).
Proof.
  intros Hs. split.
  - destruct (still_write IMC u32_max h ltac:(apply list_elem_of_In; simpl; tauto) Hs Hs) as (v & E1 & V1).
    change (rx_set IMC u32_max (view (nic h))) with (view (nic h)) in V1.
    destruct (still_read ICR (mk_Host v (mem h)) (or_intror eq_refl)) as (v2 & x & E2 & V2); [simpl; by rewrite V1|].
    simpl in V2. exists v2, (mk_E1000 (dma_mask e) (mac e) false (tx_created e) (rx_created e)).
    split; [|split; [by rewrite V2|done]].
    unfold e1000_disable_irq. assert (disable_all_irq h = (mk_Host v2 (mem h), Ok tt)) as E.
    { unfold disable_all_irq. rewrite (bind_run _ _ _ _ _ E1), (bind_run _ _ _ _ _ E2). done. }
    assert (on_host disable_all_irq (e, h) = ((e, mk_Host v2 (mem h)), Ok tt)) as E3 by (unfold on_host; simpl; by rewrite E).
    by rewrite (bind_run _ _ _ _ _ E3).
  - set (x := Z.lor (Z.lor (Z.shiftl 1 0) (Z.shiftl 1 2)) (Z.shiftl 1 7)).
    destruct (still_write IMS x h ltac:(apply list_elem_of_In; simpl; tauto) Hs Hs) as (v & E1 & V1).
    exists v, (mk_E1000 (dma_mask e) (mac e) true (tx_created e) (rx_created e)). split; [|done].
    unfold e1000_enable_irq. assert (on_host enable_default_irq (e, h) = ((e, mk_Host v (mem h)), Ok tt)) as E3
      by (unfold on_host, enable_default_irq; simpl; unfold x in E1; by rewrite E1).
    by rewrite (bind_run _ _ _ _ _ E3).
Qed.

Lemma rx_set_regs x r :
  rx_set RDBAL x r = mk_RxRing (rx_on r) (rx_base r / 2 ^ 32 * 2 ^ 32 + x) (rx_len r) (rx_head r) (rx_tail r) (rx_log r) ∧
  rx_set RDBAH x r = mk_RxRing (rx_on r) (x * 2 ^ 32 + rx_base r mod 2 ^ 32) (rx_len r) (rx_head r) (rx_tail r) (rx_log r) ∧
  rx_set RDLEN x r = mk_RxRing (rx_on r) (rx_base r) x (rx_head r) (rx_tail r) (rx_log r) ∧
  rx_set RDH x r = mk_RxRing (rx_on r) (rx_base r) (rx_len r) x (rx_tail r) (rx_log r) ∧
  rx_set RDT x r = mk_RxRing (rx_on r) (rx_base r) (rx_len r) (rx_head r) x (rx_log r) ∧
  rx_set RCTL x r = mk_RxRing (Z.testbit x 1) (rx_base r) (rx_len r) (rx_head r) (rx_tail r) (rx_log r).
Proof. by split_and!. Qed.

(** A card that is off takes new values and stays off. *)
Lemma off_write off x (h : Hst) r : off ∈ [RDBAL; RDBAH; RDLEN; RDH; RDT] → view (nic h) = r → rx_on r = false →
  ∃ v, regs_write off x h = (mk_Host v (mem h), Ok tt) ∧ view v = rx_set off x r.
Proof.
  intros Ho <- Hoff. assert (rx_on (rx_set off x (view (nic h))) = false) as Hoff'.
  { apply list_elem_of_In in Ho. simpl in Ho.
    destruct Ho as [<-|[<-|[<-|[<-|[<-|[]]]]]]; exact Hoff. }
  apply still_write; [|by left|by left]. apply list_elem_of_In in Ho. apply list_elem_of_In. simpl in *. tauto.
Qed.

(** The registers of a new ring. *)
Lemma program_run base (h : Hst) : 0 ≤ base < 2 ^ 64 → rx_on (view (nic h)) = false →
  ∃ v, program_ring RDBAL RDBAH RDLEN RDH RDT base h = (mk_Host v (mem h), Ok tt) ∧
    view v = mk_RxRing false base (QUEUE_SIZE * DESC_SIZE) 0 0 (rx_log (view (nic h))).
Proof.
  intros Hb Hoff. unfold program_ring. destruct (view (nic h)) as [on b0 l0 h0 t0 log] eqn:V0. simpl in Hoff. subst on.
  destruct (off_write RDBAL (base mod 2 ^ 32) h _ ltac:(apply list_elem_of_In; simpl; tauto) V0 eq_refl) as (v1 & E1 & V1).
  rewrite (proj1 (rx_set_regs _ _)) in V1. rewrite (bind_run _ _ _ _ _ E1).
  destruct (off_write RDBAH (Z.shiftr base 32 mod 2 ^ 32) (mk_Host v1 (mem h)) _ ltac:(apply list_elem_of_In; simpl; tauto) V1 eq_refl) as (v2 & E2 & V2).
  rewrite (proj1 (proj2 (rx_set_regs _ _))) in V2. rewrite (bind_run _ _ _ _ _ E2).
  destruct (off_write RDLEN (QUEUE_SIZE * DESC_SIZE) (mk_Host v2 (mem h)) _ ltac:(apply list_elem_of_In; simpl; tauto) V2 eq_refl) as (v3 & E3 & V3).
  rewrite (proj1 (proj2 (proj2 (rx_set_regs _ _)))) in V3. rewrite (bind_run _ _ _ _ _ E3).
  destruct (off_write RDH 0 (mk_Host v3 (mem h)) _ ltac:(apply list_elem_of_In; simpl; tauto) V3 eq_refl) as (v4 & E4 & V4).
  rewrite (proj1 (proj2 (proj2 (proj2 (rx_set_regs _ _))))) in V4. rewrite (bind_run _ _ _ _ _ E4).
  destruct (off_write RDT 0 (mk_Host v4 (mem h)) _ ltac:(apply list_elem_of_In; simpl; tauto) V4 eq_refl) as (v5 & E5 & V5).
  rewrite (proj1 (proj2 (proj2 (proj2 (proj2 (rx_set_regs _ _)))))) in V5. exists v5. split; [exact E5|]. rewrite V5.
  cbn [rx_on rx_base rx_len rx_head rx_tail rx_log]. f_equal.
  rewrite Z.shiftr_div_pow2 by lia. rewrite (Z.mod_small (base / 2 ^ 32)) by (split; [apply Z.div_pos; lia|apply Z.div_lt_upper_bound; lia]).
  rewrite (Z.add_comm (b0 / 2 ^ 32 * 2 ^ 32)), Z.mod_add, Z.mod_mod by lia. pose proof (Z.div_mod base (2 ^ 32)). lia.
Qed.

Lemma new_ring_run (h : Hst) : aok (mem h).2 → ∃ d o, new_ring mask h = (mk_Host (nic h) d, Ok o) ∧
  match o with
  | None => True
  | Some c => plain Bidirectional c ∧ dc_size c = QUEUE_SIZE * DESC_SIZE ∧ busy d.2 (block c) ∧ in_mask mask (block c) ∧ aok d.2
  end.
Proof.
  intros Ha. unfold new_ring. change (new_zero_with_align mask DESC_SIZE 8 QUEUE_SIZE 16 Bidirectional (mem h))
    with (pool_array mask (QUEUE_SIZE * DESC_SIZE) 16 Bidirectional (mem h)). destruct h as [v [m a]]. simpl in *.
  pose proof (pool_array_run aok busy mask (QUEUE_SIZE * DESC_SIZE) 16 Bidirectional ltac:(done) ltac:(done) m a Ha) as Hr.
  change (256 * 16) with (QUEUE_SIZE * DESC_SIZE).
  destruct (pool_array mask (QUEUE_SIZE * DESC_SIZE) 16 Bidirectional (m, a)) as [[m' a'] r] eqn:E.
  destruct (pool_array_ram mask (QUEUE_SIZE * DESC_SIZE) 16 Bidirectional m a m' a' r ltac:(done) Ha E) as [Hpl _].
  destruct r as [c|e|]; [|exists (m', a'), None; done|done].
  exists (m', a'), (Some c). split; [done|]. destruct Hr as (Ha' & (Hb & Hs & Hm & _) & _). split; [by apply Hpl|]. done.
Qed.

Lemma create_ring_run e h : aok (mem h).2 → rx_on (view (nic h)) = false → rx_created e = false → dma_mask e = mask →
  ∃ e' h' o, e1000_create_rx_queue (e, h) = ((e', h'), Ok o) ∧
  match o with
  | None => True
  | Some q => rxq bus view q h' [] [] ∧ still (view (nic h')) ∧ rx_log (view (nic h')) = rx_log (view (nic h)) ∧
      lent (block (desc q)) [] [] (mem h') ∧ q_dma_mask q = mask
  end.
Proof.
  intros Ha Hoff Hcr Hmask. unfold e1000_create_rx_queue. rewrite (bind_run get _ (e, h) _ _ eq_refl). cbn [fst]. rewrite Hcr, Hmask.
  destruct (new_ring_run h Ha) as (d & o & E & Hc).
  assert (on_host (new_ring mask) (e, h) = ((e, mk_Host (nic h) d), Ok o)) as E1 by (unfold on_host; cbn [fst snd]; by rewrite E).
  rewrite (bind_run _ _ _ _ _ E1). destruct o as [c|]; [|by eexists _, _, None].
  destruct Hc as (Hplain & Hsz & Hbusy & [Hm1 Hm2] & Ha'). pose proof (op_dma_pos d.2 (block c) Ha' Hbusy) as Hpos.
  fold (dc_size c) in Hm2. rewrite Hsz in Hm2.
  assert (0 ≤ dc_dma c < 2 ^ 64) as Hbase by (unfold dc_dma; split; [done|]; specialize (Hm2 eq_refl); unfold QUEUE_SIZE, DESC_SIZE in Hm2; lia).
  destruct (program_run (dc_dma c) (mk_Host (nic h) d) Hbase Hoff) as (v & E2 & V2). cbn [mem nic] in E2, V2.
  assert (on_host (program_ring RDBAL RDBAH RDLEN RDH RDT (dc_dma c)) (e, mk_Host (nic h) d) = ((e, mk_Host v d), Ok tt)) as E2'
    by (unfold on_host; cbn [fst snd]; by rewrite E2).
  rewrite (bind_run _ _ _ _ _ E2').
  set (on := Z.lor (Z.lor (Z.shiftl 1 1) (Z.shiftl 1 15)) (Z.shiftl 1 26)).
  assert (rx_set RCTL on (view v) = mk_RxRing true (dc_dma c) (QUEUE_SIZE * DESC_SIZE) 0 0 (rx_log (view (nic h)))) as Hset by by rewrite V2.
  destruct (still_write RCTL on (mk_Host v d) ltac:(apply list_elem_of_In; simpl; tauto)) as (v3 & E3 & V3);
    [left; cbn [nic]; by rewrite V2|right; cbn [nic]; by rewrite Hset|]. cbn [nic mem] in E3, V3. rewrite Hset in V3.
  assert (on_host (regs_write RCTL on) (e, mk_Host v d) = ((e, mk_Host v3 d), Ok tt)) as E3' by (unfold on_host; cbn [fst snd]; by rewrite E3).
  rewrite (bind_run _ _ _ _ _ E3'). eexists _, (mk_Host v3 d), (Some (queue_new c mask)). split; [reflexivity|].
  split; [|split; [right; cbn [nic]; by rewrite V3|split; [cbn [nic]; by rewrite V3|split; [|done]]]].
  - unfold rxq. cbn [nic mem]. rewrite V3. split; try done.
    + intros i Hi. apply (op_bus d.2 (block c) i Ha' Hbusy). fold (dc_size c). by rewrite Hsz.
    + simpl. lia.
  - split; [|split; [done|constructor]]. split; [done|]. split; [constructor|]. split; [intros x Hx|intros x y Hx]; by apply not_elem_of_nil in Hx.
Qed.

Notation NSt := (NetInner E1000 * Hst)%type.

Lemma guarded_inv {X} (body : M NSt NetError X) n h s' x : still (view (nic h)) → guarded body (n, h) = (s', Ok x) →
  ∃ n1 v1 n2 h2, view v1 = view (nic h) ∧ rx_created (ni_interface n1) = rx_created (ni_interface n) ∧
    dma_mask (ni_interface n1) = dma_mask (ni_interface n) ∧
    body (n1, mk_Host v1 (mem h)) = ((n2, h2), Ok x) ∧
    (still (view (nic h2)) → ∃ n3 v3, s' = (n3, mk_Host v3 (mem h2)) ∧ view v3 = view (nic h2)).
Proof.
  intros Hs E. unfold guarded in E. apply bind_ok_inv in E as (s1 & enabled & E1 & E2).
  unfold irq_guard in E1. rewrite (bind_run get _ (n, h) _ _ eq_refl) in E1. cbn [fst] in E1.
  assert (∃ n1 v1, s1 = (n1, mk_Host v1 (mem h)) ∧ view v1 = view (nic h) ∧
    rx_created (ni_interface n1) = rx_created (ni_interface n) ∧ dma_mask (ni_interface n1) = dma_mask (ni_interface n)) as (n1 & v1 & -> & Hv & Hc & Hm).
  { destruct (irq_run (ni_interface n) h Hs) as [(v & e' & Ed & Hvv & Hc & Hm) _].
    destruct (is_irq_enabled (ni_interface n)).
    - assert (call_interface disable_irq (n, h) = ((mk_NetInner e' (tx_wakers n) (rx_wakers n) (wakers n) (woken n), mk_Host v (mem h)), Ok tt)) as Ec.
      { unfold call_interface. change (disable_irq (ni_interface n, h)) with (e1000_disable_irq (ni_interface n, h)). by rewrite Ed. }
      rewrite (bind_run _ _ _ _ _ Ec) in E1. injection E1 as <- <-. by eexists _, v.
    - injection E1 as <- <-. exists n, (nic h). by destruct h. }
  exists n1, v1. unfold finally in E2. destruct (body (n1, mk_Host v1 (mem h))) as [[n2 h2] r] eqn:Eb.
  destruct r as [y|e|]; [|destruct (drop_irq_guard enabled (n2, h2)) as [s'' [?|?|]]; discriminate|discriminate].
  destruct (drop_irq_guard enabled (n2, h2)) as [s'' g] eqn:Eg. destruct g as [u|e|]; [|discriminate..].
  injection E2 as -> ->. exists n2, h2. split; [done|]. split; [done|]. split; [done|]. split; [done|]. intros Hs2.
  unfold drop_irq_guard in Eg. destruct enabled.
  - destruct (irq_run (ni_interface n2) h2 Hs2) as [_ (v & e' & Ee & Hvv)].
    unfold call_interface in Eg. change (enable_irq (ni_interface n2, h2)) with (e1000_enable_irq (ni_interface n2, h2)) in Eg.
    rewrite Ee in Eg. injection Eg as <- _. by eexists _, v.
  - injection Eg as <- _. exists n2, (nic h2). by destruct h2.
Qed.

Lemma prefill_eq s : (prefill s : Rx * Hst * _) = prefill_loop (S (Z.to_nat (capacity s.1))) s.
Proof. done. Qed.

Lemma make_pool_run q n v d0 p d : q_dma_mask q = mask →
  fill_pool mask MAX_PACKET 16 FromDevice (Z.to_nat QUEUE_SIZE) ([], d0) = ((p, d), Ok tt) →
  (make_pool (queue_config q) FromDevice : M NSt NetError _) (n, mk_Host v d0) = ((n, mk_Host v d), Ok p).
Proof.
  intros Hq Ef. unfold make_pool. cbn [fst snd mem nic qc_buf_size qc_align qc_dma_mask qc_ring_size queue_config]. rewrite Hq.
  assert (from_size_align MAX_PACKET (Z.max 16 1) = (Ok (mk_Layout MAX_PACKET 16) : outcome DmaError Layout)) as -> by done.
  cbn [l_size l_align]. by rewrite Ef.
Qed.

(** The queue without its packets, when the guard is dropped. *)
Lemma open_rx_queue_inv e h s1 rx1 : aok (mem h).2 → rx_on (view (nic h)) = false → rx_created e = false → dma_mask e = mask →
  open_rx_queue (net_new e, h) = (s1, Ok rx1) →
  full_inv (rx1, s1.2) [] [] ∧ rx_log (view (nic s1.2)) = rx_log (view (nic h)).
Proof.
  intros Ha Hoff Hcr Hmask E1. unfold open_rx_queue in E1.
  destruct (guarded_inv _ _ _ _ _ (or_introl Hoff) E1) as (n1 & v1 & n2 & h2 & V1 & Hc1 & Hm1 & Eb & Hlast). clear E1.
  simpl in Hc1, Hm1. rewrite Hcr in Hc1. rewrite Hmask in Hm1.
  apply bind_ok_inv in Eb as (s3 & o & E3 & Eb).
  destruct (create_ring_run (ni_interface n1) (mk_Host v1 (mem h))) as (e3 & h3 & o3 & E3' & Ho); [done|cbn [nic]; by rewrite V1|done|done|].
  unfold call_interface in E3. change (new_rx_queue (ni_interface n1, mk_Host v1 (mem h))) with (e1000_create_rx_queue (ni_interface n1, mk_Host v1 (mem h))) in E3.
  rewrite E3' in E3. injection E3 as <- <-.
  apply bind_ok_inv in Eb as (s4 & queue & E4 & Eb). destruct o3 as [q|]; [|discriminate]. injection E4 as <- <-.
  destruct Ho as (Hring & Hstill & Hlog & Hlent & Hqm). cbn [nic] in Hlog. rewrite V1 in Hlog.
  apply bind_ok_inv in Eb as (s5 & pool & E5 & Eb).
  destruct h3 as [v3 d3]. cbn [nic mem] in *.
  destruct (fill_pool_lent (block (desc q)) (Z.to_nat QUEUE_SIZE) [] d3 Hlent) as (p & d & Ef & Hlent').
  pose proof (make_pool_run q (mk_NetInner e3 (tx_wakers n1) (rx_wakers n1) (wakers n1) (woken n1)) v3 d3 p d Hqm Ef) as Ep.
  assert (or_drop (rx_drop q) (make_pool (rx_config q) FromDevice) ((mk_NetInner e3 (tx_wakers n1) (rx_wakers n1) (wakers n1) (woken n1)), mk_Host v3 d3) =
    (((mk_NetInner e3 (tx_wakers n1) (rx_wakers n1) (wakers n1) (woken n1)), mk_Host v3 d), Ok p)) as Eq.
  { assert (rx_config q = queue_config q) as -> by done. unfold or_drop. by rewrite Ep. }
  rewrite Eq in E5. injection E5 as <- <-.
  apply bind_ok_inv in Eb as (s6 & w & E6 & Eb). injection E6 as <- <-. injection Eb as <- <- <-.
  destruct Hlast as (n4 & v4 & -> & V4); [done|]. cbn [nic mem] in V4.
  set (rx1 := mk_NetQueue q p ∅ (queue_config q) (wakers n1)) in *.
  split; [|cbn [snd nic]; by rewrite V4]. cbn [snd].
  split; [split|done|done].
  - unfold rxq in *. cbn [fst snd interface nic mem] in *. rewrite V4. apply (rx_inv_frame bus q _ (ram d3.1)); [done|].
    intros x (k & a & Hk & _). done.
  - done.
  - constructor.
  - intros a c. simpl. rewrite lookup_empty. split; [done|]. by intros [?%not_elem_of_nil _].
  - apply map_size_empty.
Qed.

(** The rest is [prefill], which fails only if the pool is short of buffers. *)
Lemma create_rx_queue_run e h s1 rx1 : aok (mem h).2 → rx_on (view (nic h)) = false → rx_created e = false → dma_mask e = mask →
  open_rx_queue (net_new e, h) = (s1, Ok rx1) →
  ∃ s' r, create_rx_queue (net_new e, h) = (s', r) ∧ match r with
    | Ok rx => ∃ held ps, full_inv (rx, s'.2) held ps ∧ length held = 255%nat ∧
        rx_log (view (nic s'.2)) = rx_log (view (nic h)) ++ ps
    | _ => (length (nq_pool rx1) < 255)%nat
    end.
Proof.
  intros Ha Hoff Hcr Hmask E1. destruct (open_rx_queue_inv e h s1 rx1 Ha Hoff Hcr Hmask E1) as [Hfull L].
  unfold create_rx_queue. rewrite (bind_run _ _ _ _ _ E1). destruct s1 as [n1 h1]. cbn [snd] in *.
  pose proof (ni_config _ _ _ (fi_net _ _ _ Hfull)) as Hc. cbn [fst] in Hc.
  assert (255 < S (Z.to_nat (capacity rx1)))%nat as Hfuel by (unfold capacity; rewrite Hc; vm_compute; lia).
  destruct (prefill_loop_run 255 rx1 h1 [] [] _ Hfull eq_refl Hfuel) as ([rx8 h8] & r & E10 & Hr).
  pose proof (prefill_eq (rx1, h1)) as E11. cbn [fst] in E11. rewrite E10 in E11.
  destruct r as [u|e0|]; [| |done].
  - assert (with_queue rx1 prefill (n1, h1) = ((n1, h8), Ok (rx8, Ok u))) as E7 by (unfold with_queue; cbn [fst snd]; by rewrite E11).
    rewrite (bind_run _ _ _ _ _ E7). eexists _, (Ok rx8). split; [done|]. destruct Hr as (held & ps & H1 & H2 & H3).
    exists held, ps. cbn [snd] in *. by rewrite H3, L.
  - eexists _, _. split; [apply surjective_pairing|].
    assert (with_queue rx1 prefill (n1, h1) = ((n1, h8), Ok (rx8, Err e0))) as E7 by (unfold with_queue; cbn [fst snd]; by rewrite E11).
    rewrite (bind_run _ _ _ _ _ E7). destruct (with_queue rx8 (drop_queue rx_drop) (n1, h8)) as [s9 r9] eqn:E9.
    unfold mbind, M_bind. rewrite E9. by destruct r9.
Qed.

(** A queue that was created has lent all its buffers. *)
Lemma create_rx_queue_inv e h n' h' rx : aok (mem h).2 → rx_on (view (nic h)) = false → rx_created e = false → dma_mask e = mask →
  create_rx_queue (net_new e, h) = ((n', h'), Ok rx) →
  ∃ held ps, full_inv (rx, h') held ps ∧ length held = 255%nat ∧ rx_log (view (nic h')) = rx_log (view (nic h)) ++ ps.
Proof.
  intros Ha Hoff Hcr Hmask E. pose proof E as E0. unfold create_rx_queue in E0. apply bind_ok_inv in E0 as (s1 & rx1 & E1 & _).
  destruct (create_rx_queue_run e h s1 rx1 Ha Hoff Hcr Hmask E1) as (s' & r & E' & Hr). rewrite E in E'. injection E' as <- <-. exact Hr.
Qed.

(** ** What the caller sees *)

(** The card receives between the calls, and any number of calls to [receive];
    the list are the packets they returned. *)
Inductive rx_trace : Rx * Hst → list (list Z) → Rx * Hst → Prop :=
| rt_nil s : rx_trace s [] s
| rt_card q v m a v' g' l s' : rtc (rx_step bus) (view v, ram m) (view v', g') →
    rx_trace (q, mk_Host v' (mk_Mach g' (cache m), a)) l s' → rx_trace (q, mk_Host v (m, a)) l s'
| rt_packet s s1 p l s' : receive s = (s1, Ok (Some p)) → rx_trace s1 l s' → rx_trace s (p :: l) s'
| rt_empty s s1 l s' : receive s = (s1, Ok None) → rx_trace s1 l s' → rx_trace s l s'.

Lemma rx_trace_inv s l s' : rx_trace s l s' → ∀ held ready, net_inv s held ready → length held = 255%nat →
  ∃ held' waiting more, net_inv s' held' waiting ∧ length held' = 255%nat ∧ ready ++ more = l ++ waiting ∧
    rx_log (view (nic s'.2)) = rx_log (view (nic s.2)) ++ more.
Proof.
  induction 1 as [s|q v m a v' g' l s' Hst _ IH|s s1 p l s' E _ IH|s s1 l s' E _ IH]; intros held ready Hi Hl.
  - exists held, ready, []. by rewrite !app_nil_r.
  - destruct (ni_ring _ _ _ Hi) as []. pose proof (ni_ring _ _ _ Hi) as Hring. unfold rxq in Hring. cbn [fst snd nic mem] in Hring.
    destruct (rx_inv_steps _ _ _ _ _ _ _ Hst Hring) as (ps & Hring' & Hlog & _). cbn [fst snd] in *.
    destruct (IH held (ready ++ ps)) as (held' & w & more & H1 & H2 & H3 & H4); [|done|].
    { destruct Hi. by split. }
    exists held', w, (ps ++ more). split; [done|]. split; [done|]. split; [by rewrite app_assoc|].
    cbn [nic snd] in *. by rewrite H4, Hlog, app_assoc.
  - destruct held as [|c held]; [done|]. destruct s as [q h]. destruct (receive_run q h c held ready Hi ltac:(simpl in Hl; lia)) as (s2 & E2 & Hr).
    rewrite E in E2. injection E2 as <- Hp. destruct ready as [|p' ready]; [done|]. injection Hp as <-. destruct Hr as (ps & Hi2 & L2).
    destruct (IH _ _ Hi2) as (held' & w & more & H1 & H2 & H3 & H4); [rewrite length_app; simpl in *; lia|].
    exists held', w, (ps ++ more). split; [done|]. split; [done|]. split; [simpl; by rewrite <- H3, app_assoc|].
    cbn [snd]. by rewrite H4, L2, app_assoc.
  - destruct held as [|c held]; [done|]. destruct s as [q h]. destruct (receive_run q h c held ready Hi ltac:(simpl in Hl; lia)) as (s2 & E2 & Hr).
    rewrite E in E2. injection E2 as <- Hp. destruct ready as [|p' ready]; [|done]. destruct Hr as [Hi2 L2].
    destruct (IH _ _ Hi2 Hl) as (held' & w & more & H1 & H2 & H3 & H4).
    exists held', w, more. split; [done|]. split; [done|]. split; [done|]. cbn [snd]. by rewrite H4, L2.
Qed.
End Net.

(** C32: After [create_rx_queue] succeeded on an E1000 whose receiver was off,
    the calls to [receive] return the packets the card has put into memory,
    each once, in order and byte for byte, however card and driver take turns
    and whatever the cache held: what was returned is a prefix of what was
    taken in, and the next call ends, without panic, with the first packet
    behind that prefix or with [None] if there is none. Only 255 packets can
    wait; with fewer the card always has a buffer to receive into. *)
Theorem receive_in_order {V A : Type} `{ER : E1000Regs V} `{DO : DmaOp A} (bus : Z → Z) (view : V → RxRing)
    {CC : E1000Card V bus view} (aok : A → Prop) (busy : A → DmaHandle → Prop) {DL : DmaOpLaws A aok busy}
    {DB : DmaBus A aok busy bus} e (h : Host V A) n' h' rx l s :
  rx_on (view (nic h)) = false → aok (mem h).2 → rx_created e = false →
  create_rx_queue (net_new e, h) = ((n', h'), Ok rx) →
  rx_trace bus view (rx, h') l s →
  ∃ waiting, rx_log (view (nic s.2)) = rx_log (view (nic h)) ++ l ++ waiting ∧ (length waiting ≤ 255)%nat ∧
    ((length waiting < 255)%nat → rx_on (view (nic s.2)) = true ∧ rx_head (view (nic s.2)) ≠ rx_tail (view (nic s.2))) ∧
    ∃ s', receive s = (s', Ok (head waiting)).
Proof.
  intros Hoff Ha Hcr E Ht.
  destruct (create_rx_queue_inv bus view aok busy (dma_mask e) e h n' h' rx Ha Hoff Hcr eq_refl E) as (held & ps & [Hi _ _] & Hl & L).
  destruct (rx_trace_inv bus view _ _ _ Ht _ _ Hi Hl) as (held' & w & more & Hi' & Hl' & Hw & L'). exists w.
  pose proof (ni_ring _ _ _ _ _ Hi') as Hring. pose proof (ri_room _ _ _ _ _ _ Hring) as Hroom. rewrite length_fmap, Hl' in Hroom.
  split; [cbn [snd] in L'; by rewrite L', L, <- app_assoc, Hw|]. split; [lia|]. split.
  - intros Hlt. split; [apply (ri_on _ _ _ _ _ _ Hring)|]. rewrite (ri_head _ _ _ _ _ _ Hring), (ri_tail _ _ _ _ _ _ Hring), (ri_submit _ _ _ _ _ _ Hring).
    rewrite length_fmap, Hl'. intros Eq. apply ring_at_inj in Eq; lia.
  - destruct held' as [|c held']; [done|]. destruct s as [q hq].
    destruct (receive_run bus view q hq c held' w Hi' ltac:(simpl in Hl'; lia)) as (s' & Er & _). by exists s'.
Qed.

(** ** A concrete run *)

(** A card that works only between the calls; its state is the ring. *)
#[local] Instance sim_regs : E1000Regs RxRing := {|
  reg_read off s := (s, if off =? RDH then rx_head s.1 else 0);
  reg_write off x s := (rx_set off x s.1, s.2)
|}.

#[local] Instance sim_card : E1000Card RxRing (λ x, x) (λ r, r).
Proof.
  split.
  - intros off v g Ho s. split; [apply rtc_refl|]. intros ->. done.
  - intros off x v g Ho s. exists v, g. split; apply rtc_refl.
Qed.

(** Blocks of the bump allocator, seen by the card where the CPU sees them. *)
Definition bump_at (a : Bump) : Prop :=
  bump_ok a ∧ 0 ≤ a.1 ∧ Forall (λ h, dma_addr h = cpu_addr h ∧ 0 ≤ cpu_addr h) a.2.

#[local] Instance bump_at_laws : DmaOpLaws Bump bump_at bump_busy.
Proof.
  split.
  - intros mask l m a m' a' h (Ha & Hp & Hf) E. destruct (op_fresh _ _ _ _ _ _ _ Ha E) as (H1 & H2 & H3 & H4).
    split; [|done]. split; [done|]. destruct a as [p hs]. simpl in E. injection E as _ <- <-. simpl in *. split; [lia|].
    constructor; [simpl; lia|done].
  - intros mask l m a m' a' (Ha & _) E. done.
  - intros mask l m a m' a' o h' x (Ha & _). by apply op_keeps.
  - intros a h (Ha & Hp & Hf) Hb. destruct (op_dealloc_busy a h Ha Hb) as [H1 H2]. split; [|done]. split; [done|]. split; [done|].
    simpl. rewrite Forall_forall in *. intros x Hx. apply Hf. by apply list_elem_of_filter in Hx as [_ ?].
Qed.

#[local] Instance bump_bus : DmaBus Bump bump_at bump_busy (λ x, x).
Proof.
  split.
  - intros mask l m a m' a' o h' x _ E _ _. simpl in E. by injection E as <- _ _.
  - intros a h i (_ & _ & Hf) Hb _. rewrite Forall_forall in Hf. destruct (Hf h Hb) as [-> _]. done.
  - intros a h (_ & _ & Hf) Hb. rewrite Forall_forall in Hf. destruct (Hf h Hb) as [-> ?]. done.
Qed.

Definition sim_host : Host RxRing Bump := mk_Host (mk_RxRing false 0 0 0 0 []) (mk_Mach ∅ ∅, (0x1000, [])).
Definition sim_e1000 : E1000 := mk_E1000 u32_max [] true false false.
Definition sim_packet : list Z := [0x52; 0x54; 0; 0x12; 0x34; 0x56].
Definition sim_desc : list Z := rx_bytes (mk_RxDesc 0 6 0 1 0 0).

Lemma sim_start_ok : match (create_rx_queue (net_new sim_e1000, sim_host) : _ * outcome NetError (NetQueue E1000Queue)) with
  | ((_, h), Ok _) => (rx_on (nic h), rx_log (nic h), rx_head (nic h), rx_tail (nic h)) = (true, [], 0, 255)
  | _ => False
  end.
Proof. with_strategy transparent [gmap_empty] lazy. reflexivity. Qed.

(** The queue is created, and the card has 255 descriptors. *)
Lemma sim_created : ∃ n h (rx : NetQueue E1000Queue), create_rx_queue (net_new sim_e1000, sim_host) = ((n, h), Ok rx) ∧
  (rx_on (nic h), rx_log (nic h), rx_head (nic h), rx_tail (nic h)) = (true, [], 0, 255).
Proof.
  pose proof sim_start_ok as Hc. destruct (create_rx_queue _) as [[n h] [rx|e|]] eqn:E; [|destruct Hc..].
  exists n, h, rx. by split.
Qed.

(** The first packet the card takes in is the first one [receive] returns. *)
Lemma receive_in_order_witness : ∃ n h (rx : NetQueue E1000Queue), create_rx_queue (net_new sim_e1000, sim_host) = ((n, h), Ok rx) ∧
  ∃ v g, rx_step (λ x, x) (nic h, ram (mem h).1) (v, g) ∧
  ∃ s', receive (rx, mk_Host v (mk_Mach g (cache (mem h).1), (mem h).2)) = (s', Ok (Some sim_packet)).
Proof.
  destruct sim_created as (n & [v [m a]] & rx & E & Hc). exists n, (mk_Host v (m, a)), rx. split; [exact E|].
  cbn [nic mem fst snd] in *. injection Hc as Hon Hlog0 Hhead Htail.
  assert (∃ g, rx_step (λ x, x) (v, ram m) (rx_took v sim_packet, g)) as [g Hst].
  { eexists. apply (rx_packet (λ x, x) v (ram m) sim_packet sim_desc); [exact Hon|by rewrite Hhead, Htail|done..]. }
  exists (rx_took v sim_packet), g. split; [exact Hst|].
  pose proof (rt_nil (λ x, x) (λ r, r) (rx, mk_Host (rx_took v sim_packet) (mk_Mach g (cache m), a))) as Ht.
  apply (rt_card (λ x, x) (λ r, r) rx v m a _ _ _ _ (rtc_once _ _ Hst)) in Ht.
  assert (bump_at (mem sim_host).2) as Ha by (repeat split; [constructor|done|constructor]).
  destruct (receive_in_order (λ x, x) (λ r, r) bump_at bump_busy sim_e1000 sim_host n _ rx [] _ eq_refl Ha eq_refl E Ht)
    as (w & Hlog & _ & _ & s' & Er).
  cbn [nic snd rx_took rx_log] in Hlog. rewrite Hlog0 in Hlog. cbn [rx_log app nic sim_host] in Hlog. rewrite <- Hlog in Er.
  exists s'. exact Er.
Defined.
