(* ===== verification/Serial.v ===== *)
(** * Serial ports

    driver/interface/rdif-serial/src/lib.rs: configurations, errors, senders and
    receivers, and the registers the drivers [Pl011] and [Ns16550] use. Reading a
    register of a serial port can change it: [ur_read] returns the port after the
    read. *)

From stdpp Require Import base list numbers.
From S2P Require Import Prelude Tock.
Open Scope Z_scope.

(** ** rdif-serial *)

Inductive ConfigError : Type :=
| InvalidBaudrate | UnsupportedDataBits | UnsupportedStopBits | UnsupportedParity | RegisterError | Timeout.

Inductive TransferError : Type := Overrun (byte : Z) | ParityError | Framing | Break | Closed.
Record TransBytesError : Type := mk_TransBytesError { bytes_transferred : Z; kind : TransferError }.

Inductive DataBits : Type := Five | Six | Seven | Eight.
Inductive StopBits : Type := One | Two.
Inductive Parity : Type := ParityNone | Even | Odd | Mark | Space.

(** bitflags: [contains], [insert] and [remove]. *)
Definition contains (v f : Z) : bool := Z.land v f =? f.
Definition insert_flag (v f : Z) : Z := Z.lor v f.
Definition remove_flag (v f : Z) : Z := Z.ldiff v f.

(** [InterruptMask]. *)
Definition RX_AVAILABLE : Z := 0x01.
Definition TX_EMPTY : Z := 0x02.

Record Config : Type := mk_Config {
  baudrate : option Z;
  data_bits : option DataBits;
  stop_bits : option StopBits;
  parity : option Parity
}.

Record SetBackError : Type := mk_SetBackError { want : Z; actual : Z }.

(** What a receiver gives: a byte or an error. *)
Definition RxByte : Type := (Z + TransferError)%type.
(** What [read_bytes] gives: the bytes it stored, and its result. *)
Definition RxBytes : Type := (list Z * (Z + TransBytesError))%type.

Section Transfer.
Context {V : Type}.

(** [TSender::write_bytes] and [RawSender::write_bytes]. *)
Fixpoint write_bytes (write_byte : Z → V → V * bool) (bytes : list Z) (v : V) : V * Z :=
  match bytes with
  | [] => (v, 0)
  | b :: bytes =>
      let '(v, ok) := write_byte b v in
      if ok then let '(v, written) := write_bytes write_byte bytes v in (v, written + 1)
      else (v, 0)
  end.

(** [TReciever::read_bytes] and [RawReciever::read_bytes] for a buffer of [n]
    bytes; [count] are stored. *)
Fixpoint read_bytes (read_byte : V → V * option RxByte) (n : nat) (count : Z) (v : V) : V * RxBytes :=
  match n with
  | O => (v, ([], inl count))
  | S n =>
      match read_byte v with
      | (v, Some (inl b)) =>
          let '(v, (bs, r)) := read_bytes read_byte n (count + 1) v in (v, (b :: bs, r))
      | (v, Some (inr e)) => (v, ([], inr (mk_TransBytesError count e)))
      | (v, None) => (v, ([], inl count))
      end
  end.
End Transfer.

(** ** The registers of a port *)

Class UartHw (V : Type) : Type := {
  ur_read : Z → V → V * Z;
  ur_write : Z → Z → V → V;
  ur_idle : V → V
}.

(** driver/serial/src/lib.rs: [Sender] and [Reciever], with the base address. *)
Inductive Handle : Type := PortHandle (base : Z) | MmioHandle (base : Z) | Pl011Handle (base : Z).

Section Ports.
Context {V : Type} `{UartHw V} `{Tock}.
Notation UM := (M V ConfigError).

Definition reg_read (o : Z) : UM Z := λ v, let '(v, x) := ur_read o v in (v, Ok x).
Definition reg_write (o x : Z) : UM unit := modify (ur_write o x).
Definition reg_modify (o : Z) (fv : FieldValue) : UM unit := x ← reg_read o; reg_write o (fv_modify fv x).
Definition spin : UM unit := modify ur_idle.

(** An optional setting. *)
Definition when_some {X} (o : option X) (f : X → UM unit) : UM unit :=
  match o with Some x => f x | None => mret tt end.
End Ports.
