(* ===== verification/Pl011.v ===== *)
(** * The PL011

    driver/serial/src/pl011.rs. *)

From stdpp Require Import base list numbers.
From S2P Require Import Prelude Tock Serial.
Open Scope Z_scope.

(** ** Registers *)

Definition UARTDR : Z := 0x000.
Definition UARTFR : Z := 0x018.
Definition UARTIBRD : Z := 0x024.
Definition UARTFBRD : Z := 0x028.
Definition UARTLCR_H : Z := 0x02c.
Definition UARTCR : Z := 0x030.
Definition UARTIFLS : Z := 0x034.
Definition UARTIMSC : Z := 0x038.
Definition UARTMIS : Z := 0x040.
Definition UARTICR : Z := 0x044.

Definition DR_DATA : Field := mk_Field 0 8.
Definition DR_FE : Field := mk_Field 8 1.
Definition DR_PE : Field := mk_Field 9 1.
Definition DR_BE : Field := mk_Field 10 1.
Definition DR_OE : Field := mk_Field 11 1.
Definition FR_BUSY : Field := mk_Field 3 1.
Definition FR_RXFE : Field := mk_Field 4 1.
Definition FR_TXFF : Field := mk_Field 5 1.
Definition BAUD_DIVINT : Field := mk_Field 0 16.
Definition BAUD_DIVFRAC : Field := mk_Field 0 6.
Definition LCR_PEN : Field := mk_Field 1 1.
Definition LCR_EPS : Field := mk_Field 2 1.
Definition LCR_STP2 : Field := mk_Field 3 1.
Definition LCR_FEN : Field := mk_Field 4 1.
Definition LCR_WLEN : Field := mk_Field 5 2.
Definition LCR_SPS : Field := mk_Field 7 1.
Definition CR_UARTEN : Field := mk_Field 0 1.
Definition CR_LBE : Field := mk_Field 7 1.
Definition CR_TXE : Field := mk_Field 8 1.
Definition CR_RXE : Field := mk_Field 9 1.
Definition IS_RX : Field := mk_Field 4 1.
Definition IS_TX : Field := mk_Field 5 1.
Definition TXIFLSEL : Field := mk_Field 0 3.
Definition RXIFLSEL : Field := mk_Field 3 3.

Record Pl011 : Type := mk_Pl011 {
  base : Z;
  clock_freq : Z;
  tx : option Z;
  rx : option Z;
  irq : option Z
}.

Definition new (base clock_freq : Z) : Pl011 := mk_Pl011 base clock_freq (Some base) (Some base) (Some base).

Section Driver.
Context {V : Type} `{UartHw V} `{Tock}.
(** Polls a wait may take. *)
Context (fuel : nat).
Notation UM := (M V ConfigError).

Definition detect_clock_frequency : UM Z :=
  x ← reg_read UARTIBRD;
  let ibrd := read BAUD_DIVINT x in
  if (0 <? ibrd) && (ibrd <=? 0xFFFF) then
    a ← lift (umul 32 16 ibrd);
    estimated_clock ← lift (umul 32 a 115200);
    if (1000000 <=? estimated_clock) && (estimated_clock <=? 100000000) then mret estimated_clock
    else mret 24000000
  else mret 24000000.

(** The two parts of the divisor. A zero baud rate divides by zero. *)
Definition baud_parts (clock_freq baudrate : Z) : outcome ConfigError (Z * Z) :=
  d ← umul 32 16 baudrate;
  if d =? 0 then Stuck
  else
    let bauddiv := clock_freq / d in
    let remainder := clock_freq mod d in
    a ← umul 32 remainder 64;
    b ← uadd 32 a (d / 2);
    Ok (bauddiv, b / d).

Definition set_baudrate_internal (clock_freq baudrate : Z) : UM unit :=
  p ← lift (baud_parts clock_freq baudrate);
  if (p.1 =? 0) || (0xFFFF <? p.1) then fail InvalidBaudrate
  else
    _ ← reg_write UARTIBRD (fv_value (val BAUD_DIVINT p.1));
    reg_write UARTFBRD (fv_value (val BAUD_DIVFRAC p.2)).

Definition wlen_of (bits : DataBits) : Z := match bits with Five => 0 | Six => 1 | Seven => 2 | Eight => 3 end.
Definition set_data_bits_internal (bits : DataBits) : UM unit := reg_modify UARTLCR_H (val LCR_WLEN (wlen_of bits)).

Definition set_stop_bits_internal (bits : StopBits) : UM unit :=
  reg_modify UARTLCR_H (match bits with One => CLEAR LCR_STP2 | Two => SET LCR_STP2 end).

Definition parity_fields (p : Parity) : FieldValue :=
  match p with
  | ParityNone => CLEAR LCR_PEN
  | Odd => fv_add (fv_add (SET LCR_PEN) (CLEAR LCR_EPS)) (CLEAR LCR_SPS)
  | Even => fv_add (fv_add (SET LCR_PEN) (SET LCR_EPS)) (CLEAR LCR_SPS)
  | Mark => fv_add (fv_add (SET LCR_PEN) (CLEAR LCR_EPS)) (SET LCR_SPS)
  | Space => fv_add (fv_add (SET LCR_PEN) (SET LCR_EPS)) (SET LCR_SPS)
  end.
Definition set_parity_internal (p : Parity) : UM unit := reg_modify UARTLCR_H (parity_fields p).

Fixpoint wait_not_busy (n : nat) : UM unit :=
  match n with
  | O => stuck
  | S n => fr ← reg_read UARTFR; if is_set FR_BUSY fr then _ ← spin; wait_not_busy n else mret tt
  end.

(** [init], which is [open]. *)
Definition init : UM unit :=
  _ ← reg_modify UARTCR (CLEAR CR_UARTEN);
  _ ← wait_not_busy fuel;
  _ ← reg_modify UARTLCR_H (CLEAR LCR_FEN);
  _ ← reg_modify UARTLCR_H (SET LCR_FEN);
  _ ← reg_write UARTIMSC 0;
  reg_modify UARTCR (fv_add (fv_add (SET CR_UARTEN) (SET CR_TXE)) (SET CR_RXE)).
Definition close : UM unit := reg_modify UARTCR (CLEAR CR_UARTEN).

Definition set_config (clock_freq : Z) (c : Config) : UM unit :=
  cr ← reg_read UARTCR;
  let original_enable := is_set CR_UARTEN cr in
  _ ← reg_modify UARTCR (CLEAR CR_UARTEN);
  _ ← wait_not_busy fuel;
  _ ← reg_modify UARTLCR_H (CLEAR LCR_FEN);
  _ ← when_some (baudrate c) (set_baudrate_internal clock_freq);
  _ ← when_some (data_bits c) set_data_bits_internal;
  _ ← when_some (stop_bits c) set_stop_bits_internal;
  _ ← when_some (parity c) set_parity_internal;
  _ ← reg_modify UARTLCR_H (SET LCR_FEN);
  if original_enable then reg_modify UARTCR (SET CR_UARTEN) else mret tt.

(** The getters. *)
Definition get_baudrate (clock_freq : Z) : UM Z :=
  i ← reg_read UARTIBRD;
  f ← reg_read UARTFBRD;
  a ← lift (umul 32 (read BAUD_DIVINT i) 64);
  divisor ← lift (uadd 32 a (read BAUD_DIVFRAC f));
  if divisor =? 0 then mret 0
  else
    n ← lift (umul 32 clock_freq 64);
    d ← lift (umul 32 16 divisor);
    mret (n / d).

Definition data_bits_of (lcr : Z) : DataBits :=
  let wlen := read LCR_WLEN lcr in
  if wlen =? 0 then Five else if wlen =? 1 then Six else if wlen =? 2 then Seven else Eight.
Definition stop_bits_of (lcr : Z) : StopBits := if is_set LCR_STP2 lcr then Two else One.
Definition parity_of (lcr : Z) : Parity :=
  if negb (is_set LCR_PEN lcr) then ParityNone
  else if is_set LCR_SPS lcr then (if is_set LCR_EPS lcr then Space else Mark)
  else if is_set LCR_EPS lcr then Even else Odd.
Definition get_data_bits : UM DataBits := x ← reg_read UARTLCR_H; mret (data_bits_of x).
Definition get_stop_bits : UM StopBits := x ← reg_read UARTLCR_H; mret (stop_bits_of x).
Definition get_parity : UM Parity := x ← reg_read UARTLCR_H; mret (parity_of x).

Definition enable_loopback : UM unit := reg_modify UARTCR (SET CR_LBE).
Definition disable_loopback : UM unit := reg_modify UARTCR (CLEAR CR_LBE).
Definition is_loopback_enabled : UM bool := x ← reg_read UARTCR; mret (is_set CR_LBE x).

Definition set_irq_mask (mask : Z) : UM unit :=
  reg_write UARTIMSC
    ((if contains mask RX_AVAILABLE then fv_value (SET IS_RX) else 0) +
     (if contains mask TX_EMPTY then fv_value (SET IS_TX) else 0)).
Definition mask_of (x : Z) : Z :=
  Z.lor (if is_set IS_RX x then RX_AVAILABLE else 0) (if is_set IS_TX x then TX_EMPTY else 0).
Definition get_irq_mask : UM Z := x ← reg_read UARTIMSC; mret (mask_of x).

Definition enable_fifo (enable : bool) : UM unit :=
  reg_modify UARTLCR_H (if enable then SET LCR_FEN else CLEAR LCR_FEN).
Definition iflsel (level : Z) : Z :=
  if level <=? 2 then 0 else if level <=? 4 then 1 else if level <=? 8 then 2 else if level <=? 12 then 3 else 4.
Definition set_fifo_trigger_level (rx_level tx_level : Z) : UM unit :=
  reg_write UARTIFLS (fv_value (fv_add (val RXIFLSEL (iflsel rx_level)) (val TXIFLSEL (iflsel tx_level)))).

(** [Pl011Sender], [Pl011Reciever] and [Pl011IrqHandler]. *)
Definition write_byte (byte : Z) (v : V) : V * bool :=
  let '(v, fr) := ur_read UARTFR v in
  if is_set FR_TXFF fr then (v, false) else (ur_write UARTDR byte v, true).

Definition decode (dr : Z) : RxByte :=
  let data := read DR_DATA dr in
  if is_set DR_FE dr then inr Framing
  else if is_set DR_PE dr then inr ParityError
  else if is_set DR_OE dr then inr (Overrun data)
  else if is_set DR_BE dr then inr Break
  else inl data.

Definition read_byte (v : V) : V * option RxByte :=
  let '(v, fr) := ur_read UARTFR v in
  if is_set FR_RXFE fr then (v, None)
  else let '(v, dr) := ur_read UARTDR v in (v, Some (decode dr)).

(** [read_bytes] of the receiver: an overrun counts as a byte, and is reported
    when the port runs empty. *)
Fixpoint pl_read_bytes (n : nat) (count : Z) (overrun_data : option Z) (v : V) : V * RxBytes :=
  match n with
  | O => (v, ([], inl count))
  | S n =>
      match read_byte v with
      | (v, Some (inl b)) =>
          let '(v, (bs, r)) := pl_read_bytes n (count + 1) overrun_data v in (v, (b :: bs, r))
      | (v, Some (inr (Overrun b))) =>
          let '(v, (bs, r)) := pl_read_bytes n (count + 1) (Some b) v in (v, (b :: bs, r))
      | (v, Some (inr e)) => (v, ([], inr (mk_TransBytesError count e)))
      | (v, None) =>
          (v, ([], match overrun_data with
                   | Some data => inr (mk_TransBytesError (saturating_sub count 1) (Overrun data))
                   | None => inl count
                   end))
      end
  end.

Definition clean_interrupt_status (v : V) : V * Z :=
  let '(v, mis) := ur_read UARTMIS v in
  (ur_write UARTICR mis v, mask_of mis).
End Driver.

(** The handles: each can be taken once and be set back. *)
Definition irq_handler (p : Pl011) : Pl011 * option Z := (mk_Pl011 (base p) (clock_freq p) (tx p) (rx p) None, irq p).
Definition take_tx (p : Pl011) : Pl011 * option Handle :=
  (mk_Pl011 (base p) (clock_freq p) None (rx p) (irq p), Pl011Handle <$> tx p).
Definition take_rx (p : Pl011) : Pl011 * option Handle :=
  (mk_Pl011 (base p) (clock_freq p) (tx p) None (irq p), Pl011Handle <$> rx p).
Definition set_tx (h : Handle) (p : Pl011) : Pl011 * outcome SetBackError unit :=
  match h with
  | Pl011Handle b =>
      if base p =? b then (mk_Pl011 (base p) (clock_freq p) (Some b) (rx p) (irq p), Ok tt)
      else (p, Err (mk_SetBackError (base p) b))
  | _ => (p, Err (mk_SetBackError (base p) 0))
  end.
Definition set_rx (h : Handle) (p : Pl011) : Pl011 * outcome SetBackError unit :=
  match h with
  | Pl011Handle b =>
      if base p =? b then (mk_Pl011 (base p) (clock_freq p) (tx p) (Some b) (irq p), Ok tt)
      else (p, Err (mk_SetBackError (base p) b))
  | _ => (p, Err (mk_SetBackError (base p) 0))
  end.
