(* ===== verification/Ns16550.v ===== *)
(** * The 16550

    driver/serial/src/ns16550: registers.rs, mod.rs and the two ways to reach the
    registers (mmio.rs, pio.rs). *)

From stdpp Require Import base list numbers.
From S2P Require Import Prelude Tock Serial.
Open Scope Z_scope.

(** ** registers.rs *)
Definition UART_RBR : Z := 0.
Definition UART_THR : Z := 0.
Definition UART_DLL : Z := 0.
Definition UART_IER : Z := 1.
Definition UART_DLH : Z := 1.
Definition UART_IIR : Z := 2.
Definition UART_FCR : Z := 2.
Definition UART_LCR : Z := 3.
Definition UART_MCR : Z := 4.
Definition UART_LSR : Z := 5.

Definition IER_RECEIVED_DATA_AVAILABLE : Z := 0x01.
Definition IER_TRANSMITTER_HOLDING_EMPTY : Z := 0x02.
Definition IER_RECEIVER_LINE_STATUS : Z := 0x04.
Definition IIR_NO_INTERRUPT_PENDING : Z := 0x01.
Definition IIR_INTERRUPT_ID_MASK : Z := 0x0E.
Definition IIR_RECEIVER_LINE_STATUS : Z := 0x06.
Definition IIR_RECEIVED_DATA_AVAILABLE : Z := 0x04.
Definition IIR_CHARACTER_TIMEOUT : Z := 0x0C.
Definition IIR_TRANSMITTER_HOLDING_EMPTY : Z := 0x02.
Definition IIR_FIFO_ENABLE_MASK : Z := 0xC0.
Definition FCR_ENABLE_FIFO : Z := 0x01.
Definition FCR_CLEAR_RECEIVER_FIFO : Z := 0x02.
Definition FCR_CLEAR_TRANSMITTER_FIFO : Z := 0x04.
Definition FCR_TRIGGER_LEVEL_MASK : Z := 0xC0.
Definition FCR_TRIGGER_1_BYTE : Z := 0x00.
Definition FCR_TRIGGER_4_BYTES : Z := 0x40.
Definition FCR_TRIGGER_8_BYTES : Z := 0x80.
Definition FCR_TRIGGER_14_BYTES : Z := 0xC0.
Definition LCR_WORD_LENGTH_MASK : Z := 0x03.
Definition LCR_STOP_BITS : Z := 0x04.
Definition LCR_PARITY_ENABLE : Z := 0x08.
Definition LCR_EVEN_PARITY : Z := 0x10.
Definition LCR_STICK_PARITY : Z := 0x20.
Definition LCR_DIVISOR_LATCH_ACCESS : Z := 0x80.
Definition MCR_DATA_TERMINAL_READY : Z := 0x01.
Definition MCR_REQUEST_TO_SEND : Z := 0x02.
Definition MCR_LOOPBACK_ENABLE : Z := 0x10.
Definition LSR_DATA_READY : Z := 0x01.
Definition LSR_OVERRUN_ERROR : Z := 0x02.
Definition LSR_PARITY_ERROR : Z := 0x04.
Definition LSR_FRAMING_ERROR : Z := 0x08.
Definition LSR_BREAK_INTERRUPT : Z := 0x10.
Definition LSR_TRANSMITTER_HOLDING_EMPTY : Z := 0x20.

(** mmio.rs: the address of a register. *)
Definition mmio_addr (base width reg : Z) : Z := base + reg * width.

Record Ns16550 : Type := mk_Ns16550 {
  base : Z;
  clock_freq : Z;
  irq : option Z;
  tx : option Handle;
  rx : option Handle
}.

Definition new_mmio (base clock_freq : Z) : Ns16550 :=
  mk_Ns16550 base clock_freq (Some base) (Some (MmioHandle base)) (Some (MmioHandle base)).
Definition new_port (port clock_freq : Z) : Ns16550 :=
  mk_Ns16550 port clock_freq (Some port) (Some (PortHandle port)) (Some (PortHandle port)).

Section Driver.
Context {V : Type} `{UartHw V}.
Notation UM := (M V ConfigError).

Definition modify_flags (o : Z) (f : Z → Z) : UM unit := x ← reg_read o; reg_write o (f x).

Definition set_baudrate_internal (clock_freq baudrate : Z) : UM unit :=
  if (baudrate =? 0) || (clock_freq =? 0) then fail InvalidBaudrate
  else
    d ← lift (umul 32 16 baudrate);
    let divisor := clock_freq / d in
    if (divisor =? 0) || (0xFFFF <? divisor) then fail InvalidBaudrate
    else
      x ← reg_read UART_LCR;
      let lcr := insert_flag x LCR_DIVISOR_LATCH_ACCESS in
      _ ← reg_write UART_LCR lcr;
      _ ← reg_write UART_DLL (Z.land divisor 0xFF);
      _ ← reg_write UART_DLH (Z.land (Z.shiftr divisor 8) 0xFF);
      reg_write UART_LCR (remove_flag lcr LCR_DIVISOR_LATCH_ACCESS).

Definition word_length (bits : DataBits) : Z := match bits with Five => 0 | Six => 1 | Seven => 2 | Eight => 3 end.
Definition with_word_length (bits : DataBits) (lcr : Z) : Z :=
  insert_flag (remove_flag lcr LCR_WORD_LENGTH_MASK) (word_length bits).
Definition set_data_bits_internal (bits : DataBits) : UM unit := modify_flags UART_LCR (with_word_length bits).

Definition with_stop_bits (bits : StopBits) (lcr : Z) : Z :=
  match bits with One => remove_flag lcr LCR_STOP_BITS | Two => insert_flag lcr LCR_STOP_BITS end.
Definition set_stop_bits_internal (bits : StopBits) : UM unit := modify_flags UART_LCR (with_stop_bits bits).

Definition parity_flags (p : Parity) : Z :=
  match p with
  | ParityNone => 0
  | Odd => LCR_PARITY_ENABLE
  | Even => Z.lor LCR_PARITY_ENABLE LCR_EVEN_PARITY
  | Mark => Z.lor LCR_PARITY_ENABLE LCR_STICK_PARITY
  | Space => Z.lor (Z.lor LCR_PARITY_ENABLE LCR_EVEN_PARITY) LCR_STICK_PARITY
  end.
Definition with_parity (p : Parity) (lcr : Z) : Z :=
  insert_flag (remove_flag lcr (Z.lor (Z.lor LCR_PARITY_ENABLE LCR_EVEN_PARITY) LCR_STICK_PARITY)) (parity_flags p).
Definition set_parity_internal (p : Parity) : UM unit := modify_flags UART_LCR (with_parity p).

Definition set_config (clock_freq : Z) (c : Config) : UM unit :=
  _ ← when_some (baudrate c) (set_baudrate_internal clock_freq);
  _ ← when_some (data_bits c) set_data_bits_internal;
  _ ← when_some (stop_bits c) set_stop_bits_internal;
  when_some (parity c) set_parity_internal.

Definition get_baudrate (clock_freq : Z) : UM Z :=
  dll ← reg_read UART_DLL;
  dlh ← reg_read UART_DLH;
  let divisor := Z.lor dll (Z.shiftl dlh 8) in
  if divisor =? 0 then mret 0
  else d ← lift (umul 32 16 divisor); mret (clock_freq / d).

Definition data_bits_of (lcr : Z) : DataBits :=
  let wlen := Z.land lcr LCR_WORD_LENGTH_MASK in
  if wlen =? 0 then Five else if wlen =? 1 then Six else if wlen =? 2 then Seven else Eight.
Definition stop_bits_of (lcr : Z) : StopBits := if contains lcr LCR_STOP_BITS then Two else One.
Definition parity_of (lcr : Z) : Parity :=
  if negb (contains lcr LCR_PARITY_ENABLE) then ParityNone
  else if contains lcr LCR_STICK_PARITY then (if contains lcr LCR_EVEN_PARITY then Space else Mark)
  else if contains lcr LCR_EVEN_PARITY then Even else Odd.
Definition get_data_bits : UM DataBits := x ← reg_read UART_LCR; mret (data_bits_of x).
Definition get_stop_bits : UM StopBits := x ← reg_read UART_LCR; mret (stop_bits_of x).
Definition get_parity : UM Parity := x ← reg_read UART_LCR; mret (parity_of x).

(** [init], which is [open]. *)
Definition init : UM unit :=
  _ ← reg_write UART_IER 0;
  modify_flags UART_MCR (λ x, insert_flag x (Z.lor MCR_DATA_TERMINAL_READY MCR_REQUEST_TO_SEND)).
Definition close : UM unit :=
  _ ← reg_write UART_IER 0;
  modify_flags UART_MCR (λ x, remove_flag x (Z.lor MCR_DATA_TERMINAL_READY MCR_REQUEST_TO_SEND)).

Definition enable_loopback : UM unit := modify_flags UART_MCR (λ x, insert_flag x MCR_LOOPBACK_ENABLE).
Definition disable_loopback : UM unit := modify_flags UART_MCR (λ x, remove_flag x MCR_LOOPBACK_ENABLE).
Definition is_loopback_enabled : UM bool := x ← reg_read UART_MCR; mret (contains x MCR_LOOPBACK_ENABLE).

Definition ier_of (mask : Z) : Z :=
  let ier := if contains mask RX_AVAILABLE
             then insert_flag (insert_flag 0 IER_RECEIVED_DATA_AVAILABLE) IER_RECEIVER_LINE_STATUS else 0 in
  if contains mask TX_EMPTY then insert_flag ier IER_TRANSMITTER_HOLDING_EMPTY else ier.
Definition set_irq_mask (mask : Z) : UM unit := reg_write UART_IER (ier_of mask).
Definition mask_of (ier : Z) : Z :=
  Z.lor (if contains ier IER_RECEIVED_DATA_AVAILABLE then RX_AVAILABLE else 0)
    (if contains ier IER_TRANSMITTER_HOLDING_EMPTY then TX_EMPTY else 0).
Definition get_irq_mask : UM Z := x ← reg_read UART_IER; mret (mask_of x).

Definition is_16550_plus : UM bool := x ← reg_read UART_IIR; mret (contains x IIR_FIFO_ENABLE_MASK).

(** [&&] does not read the register when the FIFO is to be disabled. *)
Definition enable_fifo (enable : bool) : UM unit :=
  on ← (if enable then is_16550_plus else mret false);
  if (on : bool) then
    reg_write UART_FCR (insert_flag (insert_flag (insert_flag FCR_ENABLE_FIFO FCR_CLEAR_RECEIVER_FIFO)
      FCR_CLEAR_TRANSMITTER_FIFO) FCR_TRIGGER_1_BYTE)
  else reg_write UART_FCR 0.

Definition trigger_value (level : Z) : Z :=
  if level <=? 3 then FCR_TRIGGER_1_BYTE else if level <=? 7 then FCR_TRIGGER_4_BYTES
  else if level <=? 11 then FCR_TRIGGER_8_BYTES else FCR_TRIGGER_14_BYTES.
Definition set_fifo_trigger_level (level : Z) : UM unit :=
  on ← is_16550_plus;
  if negb on then mret tt
  else
    x ← reg_read UART_FCR;
    reg_write UART_FCR (insert_flag (remove_flag x FCR_TRIGGER_LEVEL_MASK) (trigger_value level)).
Definition is_fifo_enabled : UM bool :=
  on ← is_16550_plus;
  if negb on then mret false else x ← reg_read UART_IIR; mret (contains x IIR_FIFO_ENABLE_MASK).

(** [Ns16550Sender], [Ns16550Reciever] and [Ns16550IrqHandler]. *)
Definition write_byte (byte : Z) (v : V) : V * bool :=
  let '(v, lsr) := ur_read UART_LSR v in
  if contains lsr LSR_TRANSMITTER_HOLDING_EMPTY then (ur_write UART_THR byte v, true) else (v, false).

(** The error of the highest priority, of a byte that is read in any case. *)
Definition decode (lsr b : Z) : RxByte :=
  if contains lsr LSR_OVERRUN_ERROR then inr (Overrun b)
  else if contains lsr LSR_PARITY_ERROR then inr ParityError
  else if contains lsr LSR_FRAMING_ERROR then inr Framing
  else if contains lsr LSR_BREAK_INTERRUPT then inr Break
  else inl b.

Definition read_byte (v : V) : V * option RxByte :=
  let '(v, lsr) := ur_read UART_LSR v in
  if contains lsr LSR_OVERRUN_ERROR || contains lsr LSR_PARITY_ERROR || contains lsr LSR_FRAMING_ERROR ||
     contains lsr LSR_BREAK_INTERRUPT || contains lsr LSR_DATA_READY
  then let '(v, b) := ur_read UART_RBR v in (v, Some (decode lsr b))
  else (v, None).

Definition clean_interrupt_status (v : V) : V * Z :=
  let '(v, iir) := ur_read UART_IIR v in
  (v, if contains iir IIR_NO_INTERRUPT_PENDING then 0
      else
        let interrupt_id := Z.land iir IIR_INTERRUPT_ID_MASK in
        if (interrupt_id =? IIR_RECEIVER_LINE_STATUS) || (interrupt_id =? IIR_RECEIVED_DATA_AVAILABLE) ||
           (interrupt_id =? IIR_CHARACTER_TIMEOUT) then RX_AVAILABLE
        else if interrupt_id =? IIR_TRANSMITTER_HOLDING_EMPTY then TX_EMPTY
        else 0).
End Driver.

Definition irq_handler (p : Ns16550) : Ns16550 * option Z := (mk_Ns16550 (base p) (clock_freq p) None (tx p) (rx p), irq p).
Definition take_tx (p : Ns16550) : Ns16550 * option Handle := (mk_Ns16550 (base p) (clock_freq p) (irq p) None (rx p), tx p).
Definition take_rx (p : Ns16550) : Ns16550 * option Handle := (mk_Ns16550 (base p) (clock_freq p) (irq p) (tx p) None, rx p).

(** The base address of a handle of this driver. *)
Definition handle_base (h : Handle) : option Z :=
  match h with PortHandle b | MmioHandle b => Some b | Pl011Handle _ => None end.
Definition check_handle (h : Handle) (p : Ns16550) : outcome SetBackError unit :=
  match handle_base h with
  | Some actual => if actual =? base p then Ok tt else Err (mk_SetBackError (base p) actual)
  | None => Err (mk_SetBackError (base p) 0)
  end.
Definition set_tx (h : Handle) (p : Ns16550) : Ns16550 * outcome SetBackError unit :=
  match check_handle h p with
  | Ok _ => (mk_Ns16550 (base p) (clock_freq p) (irq p) (Some h) (rx p), Ok tt)
  | r => (p, r)
  end.
Definition set_rx (h : Handle) (p : Ns16550) : Ns16550 * outcome SetBackError unit :=
  match check_handle h p with
  | Ok _ => (mk_Ns16550 (base p) (clock_freq p) (irq p) (tx p) (Some h), Ok tt)
  | r => (p, r)
  end.
