(* ===== verification/SerialDyn.v ===== *)
(** * The serial port as the kernel sees it

    driver/interface/rdif-serial/src/serial.rs: [SerialDyn] splits a port into a
    sender, a receiver and an interrupt handler that can each be taken once and
    come back when they are dropped. The handler moves received bytes into a
    queue of 64 entries, from which the receiver reads before it asks the port. *)

From stdpp Require Import base list numbers.
From S2P Require Import Prelude Tock Serial Pl011 Ns16550.
Open Scope Z_scope.

(** ** What a driver gives: [TSender], [TReciever], [TIrqHandler], [InterfaceRaw] *)

Class SerialPort (V : Type) : Type := {
  sp_write_byte : Z → V → V * bool;
  sp_read_byte : V → V * option RxByte;
  sp_read_bytes : nat → V → V * RxBytes;
  sp_clean_irq : V → V * Z;
  sp_set_irq_mask : Z → V → V;
  sp_get_irq_mask : V → V * Z
}.

Section SerialDyn.
Context {V : Type} `{SerialPort V}.

(** [SerialDyn]: the port, the queue [RcvBuff], and which parts are there to be
    taken. *)
Record SerialDyn : Type := mk_SerialDyn {
  inner : V;
  fifo : list RxByte;
  has_tx : bool;
  has_rx : bool;
  has_irq : bool
}.

Definition new (v : V) : SerialDyn := mk_SerialDyn v [] true true true.

Definition with_inner (v : V) (s : SerialDyn) : SerialDyn := mk_SerialDyn v (fifo s) (has_tx s) (has_rx s) (has_irq s).
Definition with_fifo (q : list RxByte) (s : SerialDyn) : SerialDyn :=
  mk_SerialDyn (inner s) q (has_tx s) (has_rx s) (has_irq s).

(** *** Taking and dropping the parts *)

Definition take_tx (s : SerialDyn) : SerialDyn * bool :=
  (mk_SerialDyn (inner s) (fifo s) false (has_rx s) (has_irq s), has_tx s).
Definition take_rx (s : SerialDyn) : SerialDyn * bool :=
  (mk_SerialDyn (inner s) (fifo s) (has_tx s) false (has_irq s), has_rx s).
Definition irq_handler (s : SerialDyn) : SerialDyn * bool :=
  (mk_SerialDyn (inner s) (fifo s) (has_tx s) (has_rx s) false, has_irq s).
Definition drop_tx (s : SerialDyn) : SerialDyn := mk_SerialDyn (inner s) (fifo s) true (has_rx s) (has_irq s).
Definition drop_rx (s : SerialDyn) : SerialDyn := mk_SerialDyn (inner s) (fifo s) (has_tx s) true (has_irq s).
Definition drop_irq (s : SerialDyn) : SerialDyn := mk_SerialDyn (inner s) (fifo s) (has_tx s) (has_rx s) true.

(** *** Interrupt mask *)

Definition enable_interrupts (mask : Z) (s : SerialDyn) : SerialDyn :=
  let '(v, x) := sp_get_irq_mask (inner s) in with_inner (sp_set_irq_mask (Z.lor x mask) v) s.
Definition disable_interrupts (mask : Z) (s : SerialDyn) : SerialDyn :=
  let '(v, x) := sp_get_irq_mask (inner s) in with_inner (sp_set_irq_mask (Z.ldiff x mask) v) s.

(** *** The sender *)

Definition sender_write_byte (byte : Z) (s : SerialDyn) : SerialDyn * bool :=
  let '(v, ok) := sp_write_byte byte (inner s) in (with_inner v s, ok).
Definition sender_write_bytes (bytes : list Z) (s : SerialDyn) : SerialDyn * Z :=
  let '(v, n) := write_bytes sp_write_byte bytes (inner s) in (with_inner v s, n).

(** *** The queue *)

Definition FIFO_CAPACITY : nat := 64.

(** [Deque::push_back] fails when the queue is full; the result is dropped. *)
Definition fifo_push (b : RxByte) (s : SerialDyn) : SerialDyn :=
  if bool_decide (length (fifo s) < FIFO_CAPACITY)%nat then with_fifo (fifo s ++ [b]) s else s.
Definition fifo_pop (s : SerialDyn) : SerialDyn * option RxByte :=
  match fifo s with [] => (s, None) | b :: q => (with_fifo q s, Some b) end.

(** *** The receiver *)

Definition port_read_byte (s : SerialDyn) : SerialDyn * option RxByte :=
  let '(v, o) := sp_read_byte (inner s) in (with_inner v s, o).

Definition reciever_read_byte (s : SerialDyn) : SerialDyn * option RxByte :=
  match fifo_pop s with
  | (s, Some b) => (s, Some b)
  | (s, None) => port_read_byte s
  end.

(** The loop over the queue: the bytes stored and how it ended. *)
Fixpoint read_fifo (n : nat) (s : SerialDyn) : SerialDyn * (list Z * option TransferError) :=
  match n with
  | O => (s, ([], None))
  | S n =>
      match fifo_pop s with
      | (s, Some (inl b)) => let '(s, (bs, e)) := read_fifo n s in (s, (b :: bs, e))
      | (s, Some (inr e)) => (s, ([], Some e))
      | (s, None) => (s, ([], None))
      end
  end.

Definition reciever_read_bytes (n : nat) (s : SerialDyn) : SerialDyn * RxBytes :=
  let '(s, (bs, e)) := read_fifo n s in
  let count := Z.of_nat (length bs) in
  match e with
  | Some e => (s, (bs, inr (mk_TransBytesError count e)))
  | None =>
      if (length bs =? n)%nat then (s, (bs, inl count))
      else
        let '(v, (bs', r)) := sp_read_bytes (n - length bs) (inner s) in
        (with_inner v s,
         (bs ++ bs',
          match r with
          | inl m => inl (count + m)
          | inr e => inr (mk_TransBytesError (count + bytes_transferred e) (kind e))
          end))
  end.

(** *** The interrupt handler *)

(** [while let Some(b) = self.rcv.read_byte()]. *)
Fixpoint drain (fuel : nat) (s : SerialDyn) : option SerialDyn :=
  match fuel with
  | O => None
  | S fuel =>
      match port_read_byte s with
      | (s, Some b) => drain fuel (fifo_push b s)
      | (s, None) => Some s
      end
  end.

Definition handle_irq (fuel : nat) (s : SerialDyn) : option (SerialDyn * Z) :=
  let '(v, status) := sp_clean_irq (inner s) in
  let s := with_inner v s in
  if contains status RX_AVAILABLE then s ← drain fuel s; Some (s, status) else Some (s, status).
End SerialDyn.
Arguments SerialDyn V : clear implicits.

(** ** The drivers as ports *)

Section Ports.
Context {V : Type} `{UartHw V} `{Tock}.

Definition pl011_port : SerialPort V := {|
  sp_write_byte := Pl011.write_byte;
  sp_read_byte := Pl011.read_byte;
  sp_read_bytes n := Pl011.pl_read_bytes n 0 None;
  sp_clean_irq := Pl011.clean_interrupt_status;
  sp_set_irq_mask mask v := (Pl011.set_irq_mask mask v).1;
  sp_get_irq_mask v := let '(v, x) := ur_read Pl011.UARTIMSC v in (v, Pl011.mask_of x)
|}.

Definition ns16550_port : SerialPort V := {|
  sp_write_byte := Ns16550.write_byte;
  sp_read_byte := Ns16550.read_byte;
  sp_read_bytes n := read_bytes Ns16550.read_byte n 0;
  sp_clean_irq := Ns16550.clean_interrupt_status;
  sp_set_irq_mask mask v := (Ns16550.set_irq_mask mask v).1;
  sp_get_irq_mask v := let '(v, x) := ur_read Ns16550.UART_IER v in (v, Ns16550.mask_of x)
|}.
End Ports.
