(* ===== verification/SerialProof.v ===== *)
(** * Serial ports: the path of a received byte

    Bytes reach the reader in the order they arrived, whether the interrupt
    handler or the reader took them from the port, also when interrupts come in
    the middle of a read, but for one place; the only loss is at a full queue. The drivers keep the law this rests on ([SerialLaws]). *)

From stdpp Require Import base list numbers.
From S2P Require Import Prelude Tock Serial SerialDyn.
Open Scope Z_scope.

(** ** The interface *)

Definition byte_of (e : RxByte) : option Z :=
  match e with inl b | inr (Overrun b) => Some b | _ => None end.

(** What a read of many bytes tells of the entries [p] it took: every entry is a
    byte in the buffer, except that the last may be the error that is reported. *)
Definition accounts (p : list RxByte) (out : RxBytes) : Prop :=
  ∃ q, byte_of <$> q = Some <$> out.1 ∧
    (p = q ∨ ∃ e n, p = q ++ [inr e] ∧ out.2 = inr (mk_TransBytesError n e)).

(** What [SerialDyn] needs of a driver: it gives the entries of its receive queue
    from the front. *)
Class SerialLaws (V : Type) (SP : SerialPort V) (ok : V → Prop) : Type := {
  rx_queue : V → list RxByte;
  law_read_byte v : ok v → ok (sp_read_byte v).1 ∧ (sp_read_byte v).2 = head (rx_queue v) ∧
    rx_queue (sp_read_byte v).1 = tail (rx_queue v);
  law_read_bytes n v : ok v → ok (sp_read_bytes n v).1 ∧
    ∃ p, (length p ≤ n)%nat ∧ rx_queue v = p ++ rx_queue (sp_read_bytes n v).1 ∧ accounts p (sp_read_bytes n v).2;
  law_clean v : ok v → ok (sp_clean_irq v).1 ∧ rx_queue (sp_clean_irq v).1 = rx_queue v
}.
Arguments rx_queue {V SP ok SerialLaws} v.

(** The default [read_bytes] keeps the law when [read_byte] does. *)
Section Default.
Context {V : Type} (read_byte : V → V * option RxByte) (ok : V → Prop) (queue : V → list RxByte).
Hypothesis (Hread : ∀ v, ok v →
  ok (read_byte v).1 ∧ (read_byte v).2 = head (queue v) ∧ queue (read_byte v).1 = tail (queue v)).

Lemma accounts_nil r : (∀ n e, r = inr (mk_TransBytesError n e) → True) → accounts [] ([], r).
Proof. exists []. split; [done|]. by left. Qed.

Lemma accounts_cons e b p out : byte_of e = Some b → accounts p out → accounts (e :: p) (b :: out.1, out.2).
Proof.
  intros Hb (q & Hq & Hp). exists (e :: q). split.
  - rewrite !fmap_cons. by rewrite Hb, Hq.
  - destruct Hp as [->|(e' & n & -> & Hr)]; [by left|]. right. by exists e', n.
Qed.

Lemma accounts_error e n : accounts [inr e] ([], inr (mk_TransBytesError n e)).
Proof. exists []. split; [done|]. right. by exists e, n. Qed.

Lemma read_bytes_law n : ∀ count v, ok v →
  ok (read_bytes read_byte n count v).1 ∧
  ∃ p, (length p ≤ n)%nat ∧ queue v = p ++ queue (read_bytes read_byte n count v).1 ∧
    accounts p (read_bytes read_byte n count v).2.
Proof.
  induction n as [|n IH]; intros count v Hv; cbn [read_bytes].
  { split; [done|]. exists []. split_and!; [simpl; lia|done|by apply accounts_nil]. }
  destruct (Hread v Hv) as (Hok & Hh & Ht). destruct (read_byte v) as [v1 o]. cbn [fst snd] in *. subst o.
  destruct (queue v) as [|[b|e] q] eqn:Eq; cbn [head tail] in *.
  - split; [done|]. exists []. simpl. rewrite Ht. split_and!; [lia|done|by apply accounts_nil].
  - destruct (IH (count + 1) v1 Hok) as (Hok' & p & Hp & Hq & Ha).
    destruct (read_bytes read_byte n (count + 1) v1) as [v2 [bs r]]. cbn [fst snd] in *.
    split; [done|]. exists (inl b :: p). split_and!; [simpl; lia|by rewrite <- Ht, Hq|].
    by apply (accounts_cons (inl b) b p (bs, r)).
  - split; [done|]. exists [inr e]. split_and!; [simpl; lia|by rewrite <- Ht|apply accounts_error].
Qed.
End Default.

(** ** Receiver and interrupt handler *)

Section Order.
Context {V : Type} {SP : SerialPort V} (ok : V → Prop) {SL : SerialLaws V SP ok}.

Notation SD := (SerialDyn V).

(** Everything received and not yet read. *)
Definition pending (s : SD) : list RxByte := fifo s ++ rx_queue (inner s).
Definition sd_ok (s : SD) : Prop := ok (inner s) ∧ (length (fifo s) ≤ FIFO_CAPACITY)%nat.

Lemma accounts_app q out p out' n : byte_of <$> q = Some <$> out → accounts p out' →
  accounts (q ++ p)
    (out ++ out'.1, match out'.2 with inl m => inl (n + m)
                    | inr e => inr (mk_TransBytesError (n + bytes_transferred e) (kind e)) end).
Proof.
  intros Hq (q' & Hq' & Hp). exists (q ++ q'). cbn [fst snd]. rewrite !fmap_app, Hq, Hq'. split; [done|].
  destruct Hp as [->|(e & k & -> & Hr)]; [by left|]. right. rewrite Hr. cbn [kind bytes_transferred].
  exists e, (n + k). by rewrite app_assoc.
Qed.

(** The handler empties the port into the queue as far as it fits, and ends. *)
Lemma drain_spec fuel : ∀ s, sd_ok s → (length (rx_queue (inner s)) < fuel)%nat →
  ∃ s', drain fuel s = Some s' ∧ sd_ok s' ∧ rx_queue (inner s') = [] ∧ fifo s' = take FIFO_CAPACITY (pending s).
Proof.
  induction fuel as [|fuel IH]; intros s Hs Hl; [lia|]. cbn [drain]. unfold port_read_byte.
  destruct (law_read_byte (inner s) (proj1 Hs)) as (Hok & Hh & Ht).
  destruct (sp_read_byte (inner s)) as [v1 o]. cbn [fst snd] in *. subst o.
  destruct (rx_queue (inner s)) as [|b q] eqn:Eq; cbn [head tail] in *.
  - eexists. split; [done|]. unfold pending. rewrite Eq. cbn [with_inner inner fifo]. split_and!; try done.
    + split; [done|apply Hs].
    + rewrite app_nil_r, take_ge; [done|apply Hs].
  - destruct (IH (fifo_push b (with_inner v1 s))) as (s' & E & Hok' & Hq' & Hf').
    + unfold fifo_push. case_bool_decide; cbn [with_inner with_fifo inner fifo] in *; (split; [done|]); [|apply Hs].
      cbn [with_inner with_fifo inner fifo]. rewrite length_app. simpl. lia.
    + unfold fifo_push. case_bool_decide; cbn [with_inner with_fifo inner fifo] in *; rewrite Ht; simpl in Hl; lia.
    + exists s'. split; [done|]. split; [done|]. split; [done|]. rewrite Hf'. unfold pending, fifo_push. rewrite Eq.
      case_bool_decide as Hc; cbn [with_inner with_fifo inner fifo] in *; rewrite Ht; [by rewrite <- app_assoc|].
      destruct Hs as [_ Hs]. rewrite !take_app_ge by lia.
      by replace (FIFO_CAPACITY - length (fifo s))%nat with 0%nat by lia.
Qed.

Lemma handle_irq_spec fuel s : sd_ok s → (length (rx_queue (inner s)) < fuel)%nat →
  ∃ s' status, handle_irq fuel s = Some (s', status) ∧ sd_ok s' ∧
    pending s' = if contains status RX_AVAILABLE then take FIFO_CAPACITY (pending s) else pending s.
Proof.
  intros Hs Hl. unfold handle_irq. destruct (law_clean (inner s) (proj1 Hs)) as [Hok Hq].
  destruct (sp_clean_irq (inner s)) as [v status]. cbn [fst] in *.
  assert (Hs' : sd_ok (with_inner v s)) by (split; [done|apply Hs]).
  destruct (contains status RX_AVAILABLE) eqn:Ec.
  - destruct (drain_spec fuel (with_inner v s) Hs') as (s' & E & Hok' & Hnil & Hf); [cbn [with_inner inner]; by rewrite Hq|].
    exists s', status. rewrite E. split; [done|]. split; [done|]. unfold pending at 1. rewrite Ec, Hnil, app_nil_r, Hf.
    unfold pending. cbn [with_inner inner fifo]. by rewrite Hq.
  - exists (with_inner v s), status. rewrite Ec. split_and!; try done. unfold pending. cbn [with_inner inner fifo]. by rewrite Hq.
Qed.

(** ** The reader, one access at a time

    The receiver and the handler share the queue and the port without a lock, so
    an interrupt can come between any two accesses of a read. [Byte] and
    [Bytes n bs] are about to look at the queue, [BytePort] and [BytesPort n bs]
    have found it empty and are about to look at the port; [bs] are the bytes in
    the reader's buffer so far. *)
Inductive Reader : Type :=
| Idle
| Byte
| BytePort
| Bytes (n : nat) (bs : list Z)
| BytesPort (n : nat) (bs : list Z).

(** A byte arrives; the handler runs, with the number of entries it has to drop;
    the reader does something of its own, or is done with a call. *)
Inductive Event : Type :=
| Arrive (e : RxByte)
| Irq (lost : nat)
| Silent
| ReadByte (o : option RxByte)
| ReadBytes (n : nat) (out : RxBytes).

Definition reader_step (rd : Reader) (s : SD) : SD * Reader * Event :=
  match rd with
  | Idle => (s, Idle, Silent)
  | Byte =>
      match fifo_pop s with
      | (s, Some b) => (s, Idle, ReadByte (Some b))
      | (s, None) => (s, BytePort, Silent)
      end
  | BytePort => let '(s, o) := port_read_byte s in (s, Idle, ReadByte o)
  | Bytes n bs =>
      if (length bs =? n)%nat then (s, Idle, ReadBytes n (bs, inl (Z.of_nat (length bs))))
      else match fifo_pop s with
      | (s, Some (inl b)) => (s, Bytes n (bs ++ [b]), Silent)
      | (s, Some (inr e)) => (s, Idle, ReadBytes n (bs, inr (mk_TransBytesError (Z.of_nat (length bs)) e)))
      | (s, None) => (s, BytesPort n bs, Silent)
      end
  | BytesPort n bs =>
      let '(v, (bs', r)) := sp_read_bytes (n - length bs) (inner s) in
      (with_inner v s, Idle, ReadBytes n (bs ++ bs',
        match r with
        | inl m => inl (Z.of_nat (length bs) + m)
        | inr e => inr (mk_TransBytesError (Z.of_nat (length bs) + bytes_transferred e) (kind e))
        end))
  end.

(** Without an interruption the accesses make up the calls of the code. *)
Fixpoint reader_run (fuel : nat) (rd : Reader) (s : SD) : option (SD * Event) :=
  match fuel with
  | O => None
  | S fuel => match reader_step rd s with (s, Idle, ev) => Some (s, ev) | (s, rd, _) => reader_run fuel rd s end
  end.

Lemma reader_run_byte s : reader_run 2 Byte s = Some ((reciever_read_byte s).1, ReadByte (reciever_read_byte s).2).
Proof.
  unfold reciever_read_byte, fifo_pop. destruct s as [v [|b q] t r i]; cbn [reader_run reader_step fifo_pop fifo]; [|done].
  by destruct (port_read_byte _) as [s o].
Qed.

Lemma reader_run_loop n : ∀ s bs, reader_run (S (S n)) (Bytes (length bs + n) bs) s =
  Some (let '(s, (bs', e)) := read_fifo n s in
        let count := Z.of_nat (length (bs ++ bs')) in
        match e with
        | Some e => (s, ReadBytes (length bs + n) (bs ++ bs', inr (mk_TransBytesError count e)))
        | None =>
            if (length bs' =? n)%nat then (s, ReadBytes (length bs + n) (bs ++ bs', inl count))
            else
              let '(v, (bs2, r)) := sp_read_bytes (n - length bs') (inner s) in
              (with_inner v s, ReadBytes (length bs + n) ((bs ++ bs') ++ bs2,
                match r with
                | inl m => inl (count + m)
                | inr e => inr (mk_TransBytesError (count + bytes_transferred e) (kind e))
                end))
        end).
Proof.
  induction n as [|n IH]; intros s bs.
  { cbn [reader_run reader_step read_fifo]. rewrite Nat.add_0_r, Nat.eqb_refl, app_nil_r. done. }
  cbn [reader_run]. cbn [reader_step]. rewrite (proj2 (Nat.eqb_neq _ _)) by lia. cbn [read_fifo].
  destruct (fifo_pop s) as [s1 [[b|e]|]] eqn:Ep.
  - specialize (IH s1 (bs ++ [b])). rewrite length_app in IH. simpl length in IH.
    replace (length bs + 1 + n)%nat with (length bs + S n)%nat in IH by lia.
    match type of IH with ?x = _ => match goal with |- ?y = _ => change y with x end end. rewrite IH.
    destruct (read_fifo n s1) as [s2 [bs' e]]. rewrite <- app_assoc. simpl app. destruct e as [e|]; [done|].
    simpl length. done.
  - by rewrite app_nil_r.
  - cbn [reader_run]. cbn [reader_step length]. rewrite app_nil_r. replace (length bs + S n - length bs)%nat with (S n) by lia.
    rewrite (proj2 (Nat.eqb_neq 0 _)) by lia. rewrite Nat.sub_0_r.
    by destruct (sp_read_bytes (S n) (inner s1)) as [v [bs2 r]].
Qed.

Lemma reader_run_bytes n s : reader_run (S (S n)) (Bytes n []) s = Some ((reciever_read_bytes n s).1, ReadBytes n (reciever_read_bytes n s).2).
Proof.
  pose proof (reader_run_loop n s []) as E. simpl length in E. rewrite Nat.add_0_l in E. rewrite E. unfold reciever_read_bytes.
  destruct (read_fifo n s) as [s1 [bs e]]. simpl app. destruct e as [e|]; [done|]. destruct (length bs =? n)%nat; [done|].
  by destruct (sp_read_bytes _ _) as [v [bs2 r]].
Qed.

(** ** Any interleaving *)

Definition at_port (rd : Reader) : bool := match rd with BytePort | BytesPort _ _ => true | _ => false end.

(** Bytes arrive at any time. An interrupt comes at any time, but for the one
    place where the code loses the order: from the reader's look at the empty
    queue to the end of its read from the port, it is here one that moves
    nothing, and the read from the port is one access. *)
Inductive step : SD * Reader → Event → SD * Reader → Prop :=
| step_arrive s v e rd : ok v → rx_queue v = rx_queue (inner s) ++ [e] → step (s, rd) (Arrive e) (with_inner v s, rd)
| step_irq fuel s s' status rd : handle_irq fuel s = Some (s', status) → (length (rx_queue (inner s)) < fuel)%nat →
    (at_port rd = true → fifo s' = []) →
    step (s, rd) (Irq (if contains status RX_AVAILABLE then length (pending s) - FIFO_CAPACITY else 0)) (s', rd)
| step_call s rd : rd = Byte ∨ (∃ n, rd = Bytes n []) → step (s, Idle) Silent (s, rd)
| step_reader s rd s' rd' ev : reader_step rd s = (s', rd', ev) → step (s, rd) ev (s', rd').

Inductive trace : SD * Reader → list Event → SD * Reader → Prop :=
| trace_nil s : trace s [] s
| trace_cons s ev s1 evs s2 : step s ev s1 → trace s1 evs s2 → trace s (ev :: evs) s2.

Definition arrived (evs : list Event) : list RxByte := omap (λ ev, match ev with Arrive e => Some e | _ => None end) evs.
Definition lost_by (ev : Event) : nat := match ev with Irq n => n | _ => 0 end.
Definition lost (evs : list Event) : nat := sum_list_with lost_by evs.

(** What the reader learns of the entries [p] an event took. *)
Definition explains (ev : Event) (p : list RxByte) : Prop :=
  match ev with
  | Arrive _ | Irq _ | Silent => p = []
  | ReadByte o => p = match o with Some e => [e] | None => [] end
  | ReadBytes n out => (length p ≤ n)%nat ∧ accounts p out
  end.

(** What the reader has in its buffer, and all that was not reported yet. *)
Definition held (rd : Reader) : list RxByte := match rd with Bytes _ bs | BytesPort _ bs => inl <$> bs | _ => [] end.
Definition unread (x : SD * Reader) : list RxByte := held x.2 ++ pending x.1.
Definition sys_ok (x : SD * Reader) : Prop := sd_ok x.1 ∧
  match x.2 with
  | BytePort => fifo x.1 = []
  | Bytes n bs => (length bs ≤ n)%nat
  | BytesPort n bs => fifo x.1 = [] ∧ (length bs ≤ n)%nat
  | _ => True
  end.

Lemma held_bytes (bs : list Z) : byte_of <$> (inl <$> bs) = Some <$> bs.
Proof. rewrite <- list_fmap_compose. by apply list_fmap_ext. Qed.

Lemma fifo_pop_spec s : sd_ok s → match fifo_pop s with
  | (s', Some b) => sd_ok s' ∧ pending s = b :: pending s'
  | (s', None) => s' = s ∧ fifo s = []
  end.
Proof.
  intros [Hv Hf]. unfold fifo_pop, pending, sd_ok. destruct s as [v [|b q] t r i]; cbn [fifo inner with_fifo] in *; [done|].
  simpl in Hf. split; [split; [done|lia]|done].
Qed.

Lemma reader_step_spec rd s : sys_ok (s, rd) → let '(s', rd', ev) := reader_step rd s in
  sys_ok (s', rd') ∧ lost_by ev = 0%nat ∧ arrived [ev] = [] ∧ ∃ p, explains ev p ∧ p ++ unread (s', rd') = unread (s, rd).
Proof.
  intros [Hs Hrd]. simpl in Hs, Hrd. unfold sys_ok, unread. destruct rd as [| | |n bs|n bs]; cbn [reader_step].
  - split_and!; try done. by exists [].
  - pose proof (fifo_pop_spec s Hs) as Hp. destruct (fifo_pop s) as [s' [b|]]; simpl.
    + destruct Hp as [Hok Hp]. split_and!; try done. exists [b]. by rewrite Hp.
    + destruct Hp as [-> Hf]. split_and!; try done. by exists [].
  - unfold port_read_byte. destruct (law_read_byte (inner s) (proj1 Hs)) as (Hok & Hh & Ht).
    destruct (sp_read_byte (inner s)) as [v o]. simpl in *. split_and!; try done; [split; [done|apply Hs]|].
    exists (match o with Some e => [e] | None => [] end). split; [done|]. unfold pending. simpl. rewrite Hrd, Ht, Hh.
    by destruct (rx_queue (inner s)).
  - destruct (Nat.eqb_spec (length bs) n) as [En|En]; simpl.
    { split_and!; try done. exists (inl <$> bs). split; [|done]. rewrite length_fmap. split; [lia|].
      exists (inl <$> bs). split; [apply held_bytes|by left]. }
    pose proof (fifo_pop_spec s Hs) as Hp. destruct (fifo_pop s) as [s' [[b|e]|]]; simpl.
    + destruct Hp as [Hok Hp]. split_and!; try done; [rewrite length_app; simpl; lia|]. exists [].
      rewrite Hp, fmap_app, <- app_assoc. done.
    + destruct Hp as [Hok Hp]. split_and!; try done. exists ((inl <$> bs) ++ [inr e]). rewrite Hp, <- app_assoc. split; [|done].
      split; [rewrite length_app, length_fmap; simpl; lia|]. exists (inl <$> bs). split; [apply held_bytes|].
      right. by eexists _, _.
    + destruct Hp as [-> Hf]. split_and!; try done. by exists [].
  - destruct Hrd as [Hf Hn]. destruct (law_read_bytes (n - length bs) (inner s) (proj1 Hs)) as (Hok & p & Hl & Hq & Ha).
    destruct (sp_read_bytes (n - length bs) (inner s)) as [v [bs' r]]. simpl in *.
    split_and!; try done; [split; [done|apply Hs]|]. exists ((inl <$> bs) ++ p). split.
    + split; [rewrite length_app, length_fmap; lia|]. by apply (accounts_app _ bs p (bs', r) (Z.of_nat (length bs)) (held_bytes bs)).
    + unfold pending. simpl. by rewrite Hf, Hq, <- app_assoc.
Qed.

Lemma step_spec x ev x' : sys_ok x → step x ev x' →
  sys_ok x' ∧ ∃ p, explains ev p ∧ p ++ unread x' = take (length (unread x) - lost_by ev) (unread x) ++ arrived [ev].
Proof.
  intros Hx Hstep. destruct Hstep as [s v e rd Hv Hq|fuel s s' status rd E Hl Hport|s rd Hrd|s rd s' rd' ev E]; destruct Hx as [Hs Hrd']; simpl in Hs, Hrd'.
  - split; [split; [split; [done|apply Hs]|exact Hrd']|]. exists []. split; [done|]. simpl. rewrite Nat.sub_0_r, take_ge by lia.
    unfold unread, pending. cbn [with_inner fifo inner fst snd]. by rewrite Hq, !app_assoc.
  - destruct (handle_irq_spec fuel s Hs Hl) as (s1 & st & E1 & Hok & Hp). rewrite E in E1. injection E1 as <- <-.
    split. { split; [done|]. simpl. destruct rd; try done; [by apply Hport|]. split; [by apply Hport|apply Hrd']. }
    exists []. split; [done|]. unfold unread. cbn [lost_by arrived omap list_omap app fst snd]. rewrite Hp, app_nil_r, length_app.
    destruct (contains status RX_AVAILABLE); [|by rewrite Nat.sub_0_r, take_ge by (rewrite length_app; lia)].
    destruct (decide (length (pending s) ≤ FIFO_CAPACITY)%nat).
    + rewrite !take_ge; [done|rewrite length_app; lia|lia].
    + rewrite take_app_ge by lia. do 2 f_equal. lia.
  - split; [split; [done|]; by destruct Hrd as [->|[n ->]]; simpl; try lia|]. exists []. split; [done|]. simpl.
    rewrite Nat.sub_0_r, take_ge, app_nil_r by lia. by destruct Hrd as [->|[n ->]].
  - pose proof (reader_step_spec rd s (conj Hs Hrd')) as H. rewrite E in H. destruct H as (Hok & -> & -> & p & Hex & Hp).
    split; [done|]. exists p. split; [done|]. by rewrite Nat.sub_0_r, take_ge, app_nil_r by lia.
Qed.

Lemma sublist_same_length {A} (l k : list A) : l `sublist_of` k → length l = length k → l = k.
Proof.
  induction 1 as [|x l k Hs IH|x l k Hs IH]; intros Hl; simpl in *; [done| |].
  - by rewrite IH by lia.
  - apply sublist_length in Hs. lia.
Qed.

Lemma lost_bound x ev x' : sys_ok x → step x ev x' → (lost_by ev ≤ length (unread x))%nat.
Proof.
  intros Hx Hstep. destruct Hstep as [s v e rd Hv Hq|fuel s s' status rd E Hl Hport|s rd Hrd|s rd s' rd' ev E]; simpl; try lia.
  - unfold unread. rewrite length_app. simpl. destruct (contains _ _); lia.
  - pose proof (reader_step_spec rd s Hx) as H. rewrite E in H. destruct H as (_ & -> & _). lia.
Qed.

(** C33: No received byte is reordered, invented or duplicated. Bytes arrive,
    and interrupts come, between any two accesses of the reader to the queue
    and the port, except that from its look at the empty queue to the end of
    its read from the port no interrupt moves bytes into the queue (that one
    reorders them: [Pl011Proof.interrupt_reorders]). Then what the reader got,
    in the order it got it, followed by what it has in its buffer and what is
    still in the queue and in the port, is what arrived, in order, less the
    entries that an interrupt found no room for in the queue of 64; so nothing
    is lost while fewer entries wait. The handler always ends. The accesses of
    a read that is not interrupted are the calls [read_byte] and [read_bytes]. *)
Theorem serial_in_order s evs s' rd' : sd_ok s → trace (s, Idle) evs (s', rd') →
  (∃ ps, Forall2 explains evs ps ∧
    (concat ps ++ held rd' ++ pending s') `sublist_of` (pending s ++ arrived evs) ∧
    (length (concat ps ++ held rd' ++ pending s') + lost evs = length (pending s ++ arrived evs))%nat ∧
    (lost evs = 0%nat → concat ps ++ held rd' ++ pending s' = pending s ++ arrived evs)) ∧
  (∀ fuel, (length (rx_queue (inner s')) < fuel)%nat → is_Some (handle_irq fuel s')) ∧
  (∀ n, reader_run 2 Byte s' = Some ((reciever_read_byte s').1, ReadByte (reciever_read_byte s').2) ∧
    reader_run (S (S n)) (Bytes n []) s' = Some ((reciever_read_bytes n s').1, ReadBytes n (reciever_read_bytes n s').2)).
Proof.
  intros Hs Htr. assert (sys_ok (s, Idle)) as Hx by done.
  change (pending s) with (unread (s, Idle)). change (held rd' ++ pending s') with (unread (s', rd')).
  assert (∀ P Q R : Prop, R → Q → P → P ∧ Q ∧ R) as Hand by tauto.
  apply Hand; clear Hand; [intros n; split; [apply reader_run_byte|apply reader_run_bytes]| |].
  { assert (sys_ok (s', rd')) as [Hs' _]. { induction Htr; [done|]. apply IHHtr. by eapply step_spec. }
    intros fuel Hl. destruct (handle_irq_spec fuel s' Hs' Hl) as (? & ? & -> & _). by eexists. }
  revert Htr Hx. generalize (s, Idle) (s', rd'). clear s s' rd' Hs. intros s s' Htr Hs.
  cut (∃ ps, Forall2 explains evs ps ∧
    (concat ps ++ unread s') `sublist_of` (unread s ++ arrived evs) ∧
    (length (concat ps ++ unread s') + lost evs = length (unread s ++ arrived evs))%nat).
  { intros (ps & Hf & Hsub & Hlen). exists ps. split_and!; try done. intros H0.
    apply sublist_same_length; [done|lia]. }
  induction Htr as [s|s ev s1 evs s2 Hstep Htr IH].
  { exists []. simpl. rewrite app_nil_r. split_and!; [done..|lia]. }
  destruct (step_spec s ev s1 Hs Hstep) as (Hs1 & p & Hex & Hp).
  destruct (IH Hs1) as (ps & Hf & Hsub & Hlen). exists (p :: ps).
  pose proof (lost_bound s ev s1 Hs Hstep) as Hb.
  assert (Harr : arrived (ev :: evs) = arrived [ev] ++ arrived evs) by by destruct ev.
  rewrite Harr. cbn [concat]. rewrite <- app_assoc. split_and!; [by constructor| |].
  - etrans; [by apply sublist_app|]. rewrite !(app_assoc _ _ (arrived evs)), Hp.
    apply sublist_app; [|done]. apply sublist_app; [apply sublist_take|done].
  - apply (f_equal length) in Hp. rewrite !length_app, ?length_take in *. unfold lost in *. cbn [sum_list_with]. lia.
Qed.
End Order.
