(* ===== verification/Pl011Proof.v ===== *)
(** * The PL011: proofs

    Configuration reads back, the divisor is the closest one, and the receiver
    and sender keep the laws of a serial port. *)

From stdpp Require Import base list numbers.
From S2P Require Import Prelude Tock Serial SerialDyn SerialProof Pl011.
Open Scope Z_scope.

(** ** The port *)

(** Registers that hold what is written, and the bits they have. *)
Definition pl_mask (o : Z) : option Z :=
  if o =? UARTIBRD then Some 0xFFFF
  else if o =? UARTFBRD then Some 0x3F
  else if o =? UARTLCR_H then Some 0xFF
  else if o =? UARTCR then Some 0xFF87
  else if o =? UARTIFLS then Some 0x3F
  else if o =? UARTIMSC then Some 0x7FF
  else None.

(** The manual's description: storage registers; flags that tell of the two
    queues and of a character on the wire ([pl_busy] counts the steps it takes);
    the data register gives the word at the front of the receive queue and
    takes a byte to send when the transmit queue has room. *)
Class Pl011Hw (V : Type) `{UartHw V} `{Tock} : Type := {
  pl_reg : Z → V → Z;
  pl_rx : V → list Z;
  pl_tx : V → list Z;
  pl_busy : V → nat;
  pl_read o v mask : pl_mask o = Some mask → ur_read o v = (v, pl_reg o v);
  pl_write o v x mask : pl_mask o = Some mask →
    pl_reg o (ur_write o x v) = Z.land x mask ∧ pl_busy (ur_write o x v) = pl_busy v ∧
    ∀ o', o' ≠ o → pl_reg o' (ur_write o x v) = pl_reg o' v;
  pl_idle v : pl_busy (ur_idle v) = pred (pl_busy v) ∧ ∀ o, pl_reg o (ur_idle v) = pl_reg o v;
  pl_flags v : ∃ fr, ur_read UARTFR v = (v, fr) ∧ is_set FR_RXFE fr = bool_decide (pl_rx v = []) ∧
    is_set FR_BUSY fr = bool_decide (0 < pl_busy v)%nat ∧
    (is_set FR_TXFF fr = false → ∀ b, pl_tx (ur_write UARTDR b v) = pl_tx v ++ [b]);
  pl_pop v w q : pl_rx v = w :: q → (ur_read UARTDR v).2 = w ∧ pl_rx (ur_read UARTDR v).1 = q;
  pl_irq v : pl_rx (ur_read UARTMIS v).1 = pl_rx v ∧ ∀ x, pl_rx (ur_write UARTICR x v) = pl_rx v
}.

Section Driver.
Context {V : Type} `{UartHw V} `{Tock} {PL : Pl011Hw V}.
Context (fuel : nat).

(** ** Receiving *)

#[local] Existing Instance pl011_port.

Lemma read_byte_law v :
  (read_byte v).2 = head (decode <$> pl_rx v) ∧ decode <$> pl_rx (read_byte v).1 = tail (decode <$> pl_rx v).
Proof.
  unfold read_byte. destruct (pl_flags v) as (fr & -> & Hrx & _). rewrite Hrx.
  case_bool_decide as He; [cbn [fst snd]; by rewrite He|]. destruct (pl_rx v) as [|w q] eqn:Eq; [done|].
  destruct (pl_pop v w q Eq) as [Hw Hq]. destruct (ur_read UARTDR v) as [v1 w1]. cbn [fst snd] in *. subst.
  by rewrite fmap_cons.
Qed.

(** The receiver's own [read_bytes], with its bookkeeping of overruns. *)
Lemma pl_read_bytes_law n : ∀ count od v, ∃ p, (length p ≤ n)%nat ∧
  decode <$> pl_rx v = p ++ (decode <$> pl_rx (pl_read_bytes n count od v).1) ∧
  accounts p (pl_read_bytes n count od v).2.
Proof.
  induction n as [|n IH]; intros count od v; cbn [pl_read_bytes].
  { exists []. split_and!; [simpl; lia|done|by apply accounts_nil]. }
  destruct (read_byte_law v) as [Hh Ht]. destruct (read_byte v) as [v1 o]. cbn [fst snd] in *. subst o.
  destruct (decode <$> pl_rx v) as [|e q] eqn:Eq; cbn [head tail] in *.
  { exists []. simpl. rewrite Ht. split_and!; [lia|done|by apply accounts_nil]. }
  destruct (IH (count + 1) od v1) as (p1 & Hp1 & Hq1 & Ha1).
  destruct e as [b|e].
  { destruct (pl_read_bytes n (count + 1) od v1) as [v2 [bs r]]. cbn [fst snd] in *.
    exists (inl b :: p1). split_and!; [simpl; lia|by rewrite <- Ht, Hq1|]. by apply (accounts_cons _ b p1 (bs, r)). }
  destruct e as [b| | | |].
  2-5: eexists [_]; split_and!; [simpl; lia|by rewrite <- Ht|apply accounts_error].
  destruct (IH (count + 1) (Some b) v1) as (p2 & Hp2 & Hq2 & Ha2).
  destruct (pl_read_bytes n (count + 1) (Some b) v1) as [v2 [bs r]]. cbn [fst snd] in *.
  exists (inr (Overrun b) :: p2). split_and!; [simpl; lia|by rewrite <- Ht, Hq2|].
  by apply (accounts_cons _ b p2 (bs, r)).
Qed.

#[local] Instance pl011_laws : SerialLaws V pl011_port (λ _, True).
Proof.
  refine {| rx_queue v := decode <$> pl_rx v |}.
  - intros v _. split; [done|]. apply read_byte_law.
  - intros n v _. split; [done|]. apply pl_read_bytes_law.
  - intros v _. split; [done|]. simpl. unfold clean_interrupt_status.
    destruct (pl_irq v) as [Hm _]. destruct (ur_read UARTMIS v) as [v1 mis]. cbn [fst] in *.
    destruct (pl_irq v1) as [_ Hc]. by rewrite Hc, Hm.
Defined.

(** ** Sending *)

(** The bytes the port accepts are a prefix of those to send, and their number
    is the result. *)
Lemma write_bytes_run bs : ∀ v,
  let '(v', n) := write_bytes write_byte bs v in
  0 ≤ n ≤ Z.of_nat (length bs) ∧ pl_tx v' = pl_tx v ++ take (Z.to_nat n) bs.
Proof.
  induction bs as [|b bs IH]; intros v; cbn [write_bytes].
  { split; [simpl; lia|]. by rewrite take_nil, app_nil_r. }
  unfold write_byte at 1. destruct (pl_flags v) as (fr & -> & _ & _ & Htx).
  destruct (is_set FR_TXFF fr).
  { split; [simpl; lia|]. by rewrite take_0, app_nil_r. }
  specialize (IH (ur_write UARTDR b v)). destruct (write_bytes write_byte bs (ur_write UARTDR b v)) as [v1 n].
  destruct IH as [Hn Ht]. split; [simpl; lia|]. rewrite Ht, Htx by done.
  replace (Z.to_nat (n + 1)) with (S (Z.to_nat n)) by lia. simpl. by rewrite <- app_assoc.
Qed.

(** ** Configuration *)

Notation run := (λ v, (v, Ok tt) : V * outcome ConfigError unit).

Lemma reg_read_run o v mask : pl_mask o = Some mask → reg_read o v = (v, Ok (pl_reg o v)).
Proof. intros Hm. unfold reg_read. by rewrite (pl_read o v mask Hm). Qed.

(** A register after [modify]. *)
Definition put (mask : Z) (fv : FieldValue) (x : Z) : Z := Z.land (fv_modify fv x) mask.

(** Only register [o] differs. *)
Definition only (o : Z) (v v' : V) : Prop := pl_busy v' = pl_busy v ∧ ∀ o', o' ≠ o → pl_reg o' v' = pl_reg o' v.

Lemma reg_write_run o x v mask : pl_mask o = Some mask →
  ∃ v', reg_write o x v = run v' ∧ pl_reg o v' = Z.land x mask ∧ only o v v'.
Proof. intros Hm. destruct (pl_write o v x mask Hm) as (Hx & Hb & Ho). by exists (ur_write o x v). Qed.

Lemma reg_modify_run o fv v mask : pl_mask o = Some mask →
  ∃ v', reg_modify o fv v = run v' ∧ pl_reg o v' = put mask fv (pl_reg o v) ∧ only o v v'.
Proof.
  intros Hm. unfold reg_modify. rewrite (bind_run _ _ _ _ _ (reg_read_run o v mask Hm)). by apply reg_write_run.
Qed.

(** Waiting ends after the character on the wire. *)
Lemma wait_run n : ∀ v, (pl_busy v < n)%nat →
  ∃ v', wait_not_busy n v = run v' ∧ ∀ o, pl_reg o v' = pl_reg o v.
Proof.
  induction n as [|n IH]; intros v Hn; [lia|]. cbn [wait_not_busy].
  destruct (pl_flags v) as (fr & Hfr & _ & Hb & _).
  assert (E : reg_read (V := V) UARTFR v = (v, Ok fr)) by (unfold reg_read; by rewrite Hfr).
  rewrite (bind_run _ _ _ _ _ E), Hb. case_bool_decide; [|by exists v].
  destruct (pl_idle v) as [Hi Hr].
  destruct (IH (ur_idle v)) as (v' & E' & Hv'); [lia|]. exists v'. split; [exact E'|]. intros o. by rewrite Hv', Hr.
Qed.

(** *** Fields of the line control register *)

Lemma put_in f mask fv x : 0 ≤ f_bits f → read f mask = Z.ones (f_bits f) → read f (fv_mask fv) = Z.ones (f_bits f) →
  read f (put mask fv x) = read f (fv_value fv).
Proof. intros Hb Hm Hf. unfold put. rewrite read_land by done. by apply read_modify_in. Qed.

Lemma put_out f mask fv x : 0 ≤ f_bits f → read f mask = Z.ones (f_bits f) → read f (fv_mask fv) = 0 →
  read f (fv_value fv) = 0 → read f (put mask fv x) = read f x.
Proof. intros Hb Hm Hf Hv. unfold put. rewrite read_land by done. by apply read_modify_out. Qed.

(** Read a constant: by the laws of [Tock]. *)
Ltac const := unfold SET, CLEAR; rewrite ?fv_add_mask, ?fv_add_value, ?val_mask, ?val_value, ?read_spec; reflexivity.
(** Read every field of modified registers. *)
Ltac put_fields :=
  repeat match goal with
  | |- context [read ?f (put ?m ?fv ?x)] =>
      first [ rewrite (put_in f m fv x) by (first [done | const]) | rewrite (put_out f m fv x) by (first [done | const]) ]
  end.

Lemma fen_keeps b x : let y := put 0xFF (val LCR_FEN (Z.b2z b)) x in
  data_bits_of y = data_bits_of x ∧ stop_bits_of y = stop_bits_of x ∧ parity_of y = parity_of x ∧ is_set LCR_FEN y = b.
Proof.
  unfold data_bits_of, stop_bits_of, parity_of, is_set.
  destruct b; cbv zeta; cbn [Z.b2z]; put_fields; split_and!; try done;
  rewrite val_value, read_spec; reflexivity.
Qed.

Lemma data_bits_put bits x : let y := put 0xFF (val LCR_WLEN (wlen_of bits)) x in
  data_bits_of y = bits ∧ stop_bits_of y = stop_bits_of x ∧ parity_of y = parity_of x.
Proof.
  unfold data_bits_of, stop_bits_of, parity_of, is_set. destruct bits; cbv zeta; cbn [wlen_of]; put_fields;
  (split; [|done]); rewrite val_value, read_spec; reflexivity.
Qed.

Lemma stop_bits_put bits x : let y := put 0xFF (match bits with One => CLEAR LCR_STP2 | Two => SET LCR_STP2 end) x in
  data_bits_of y = data_bits_of x ∧ stop_bits_of y = bits ∧ parity_of y = parity_of x.
Proof.
  unfold data_bits_of, stop_bits_of, parity_of, is_set. destruct bits; cbv zeta; put_fields;
  (split; [done|]); (split; [|done]); const || (unfold SET, CLEAR; rewrite val_value, read_spec; reflexivity).
Qed.

Lemma parity_put p x : let y := put 0xFF (parity_fields p) x in
  data_bits_of y = data_bits_of x ∧ stop_bits_of y = stop_bits_of x ∧ parity_of y = p.
Proof.
  unfold data_bits_of, stop_bits_of, parity_of, is_set. destruct p; cbv zeta; cbn [parity_fields]; put_fields;
  (split; [done|]); (split; [done|]); unfold SET, CLEAR; rewrite ?fv_add_value, !val_value, !read_spec; reflexivity.
Qed.

(** *** The divisor *)

(** The divisor in 64ths, and the rate it gives. *)
Lemma baud_parts_spec clk b : 0 ≤ clk → 0 < b < 2 ^ 21 → ∃ i f,
  baud_parts clk b = Ok (i, f) ∧ i = clk / (16 * b) ∧ 0 ≤ f ≤ 64 ∧
  2 * Z.abs ((64 * i + f) * (16 * b) - 64 * clk) ≤ 16 * b.
Proof.
  intros Hc Hb. set (d := 16 * b). pose proof (Z.div_mod clk d ltac:(lia)) as Hd.
  pose proof (Z.mod_pos_bound clk d ltac:(lia)) as Hr.
  exists (clk / d), ((clk mod d * 64 + d / 2) / d).
  pose proof (Z.div_mod d 2 ltac:(lia)) as Hd2. pose proof (Z.mod_pos_bound d 2 ltac:(lia)) as Hr2.
  pose proof (Z.div_mod (clk mod d * 64 + d / 2) d ltac:(lia)) as Hf.
  pose proof (Z.mod_pos_bound (clk mod d * 64 + d / 2) d ltac:(lia)) as Hfr.
  split_and!; try done.
  - unfold baud_parts. rewrite umul_ok by lia. fold d. cbn [mbind outcome_bind].
    rewrite (proj2 (Z.eqb_neq d 0)) by lia. rewrite umul_ok by lia. cbn [mbind outcome_bind].
    rewrite uadd_ok by lia. done.
  - apply Z.div_pos; lia.
  - apply Z.lt_succ_r, Z.div_lt_upper_bound; lia.
  - nia.
Qed.

(** The registers of the divisor [i] + [f] / 64; 64 sixty-fourths are written as
    0. *)
Definition divisor_set (i f : Z) (v : V) : Prop :=
  read BAUD_DIVINT (pl_reg UARTIBRD v) = i ∧ read BAUD_DIVFRAC (pl_reg UARTFBRD v) = f mod 64.

Lemma read_divisor i f : 0 ≤ i ≤ 0xFFFF →
  read BAUD_DIVINT (Z.land (fv_value (val BAUD_DIVINT i)) 0xFFFF) = i ∧
  read BAUD_DIVFRAC (Z.land (fv_value (val BAUD_DIVFRAC f)) 0x3F) = f mod 64.
Proof.
  intros Hi. rewrite !read_land by (done || (rewrite read_spec; reflexivity)).
  rewrite read_val by (simpl; lia). by rewrite read_val_mod.
Qed.

Lemma set_baudrate_run clk b i f v : baud_parts clk b = Ok (i, f) →
  if (i =? 0) || (0xFFFF <? i) then set_baudrate_internal clk b v = (v, Err InvalidBaudrate)
  else 0 ≤ i → ∃ v', set_baudrate_internal clk b v = run v' ∧ divisor_set i f v' ∧ pl_busy v' = pl_busy v ∧
    ∀ o, o ≠ UARTIBRD → o ≠ UARTFBRD → pl_reg o v' = pl_reg o v.
Proof.
  intros E. unfold set_baudrate_internal. rewrite (bind_lift _ _ _ (i, f)) by done. cbn [fst snd].
  destruct ((i =? 0) || (0xFFFF <? i)) eqn:Ec; [done|]. intros Hi. bool_to_prop.
  destruct (reg_write_run UARTIBRD (fv_value (val BAUD_DIVINT i)) v 0xFFFF eq_refl) as (v1 & E1 & Hi1 & Hb1 & Ho1).
  destruct (reg_write_run UARTFBRD (fv_value (val BAUD_DIVFRAC f)) v1 0x3F eq_refl) as (v2 & E2 & Hf2 & Hb2 & Ho2).
  rewrite (bind_run _ _ _ _ _ E1), E2. exists v2. destruct (read_divisor i f ltac:(lia)) as [Hri Hrf].
  split; [done|]. split; [split; [by rewrite Ho2, Hi1 by done|by rewrite Hf2]|]. split; [by rewrite Hb2|].
  intros o Hn1 Hn2. by rewrite Ho2, Ho1 by done.
Qed.

(** The configuration of the line in the registers. *)
Definition line_of (x : Z) : DataBits * StopBits * Parity := (data_bits_of x, stop_bits_of x, parity_of x).
Definition line (v : V) : DataBits * StopBits * Parity := line_of (pl_reg UARTLCR_H v).

(** An optional setting of the line that changes it by [upd]. *)
Lemma pl_line_setting_run {X} (o : option X) (g : X → M V ConfigError unit) fv upd v :
  (∀ x w, g x w = reg_modify UARTLCR_H (fv x) w) → (∀ x y, line_of (put 0xFF (fv x) y) = upd x (line_of y)) →
  ∃ v', when_some o g v = run v' ∧ only UARTLCR_H v v' ∧
    line v' = match o with Some x => upd x (line v) | None => line v end.
Proof.
  intros Hg Hu. destruct o as [x|]; cbn [when_some]; [|by exists v].
  rewrite Hg. destruct (reg_modify_run UARTLCR_H (fv x) v 0xFF eq_refl) as (v' & E & Hp & Ho). exists v'.
  split; [done|]. split; [done|]. unfold line. by rewrite Hp, Hu.
Qed.

Definition line_with (c : Config) (l : DataBits * StopBits * Parity) : DataBits * StopBits * Parity :=
  (default l.1.1 (data_bits c), default l.1.2 (stop_bits c), default l.2 (parity c)).

(** The three settings of the line. *)
Lemma pl_set_line_run c v : ∃ v1 v2 v3,
  when_some (data_bits c) set_data_bits_internal v = run v1 ∧
  when_some (stop_bits c) set_stop_bits_internal v1 = run v2 ∧
  when_some (parity c) set_parity_internal v2 = run v3 ∧
  only UARTLCR_H v v3 ∧ line v3 = line_with c (line v).
Proof.
  destruct (pl_line_setting_run (data_bits c) set_data_bits_internal (λ b, val LCR_WLEN (wlen_of b))
    (λ b l, (b, l.1.2, l.2)) v) as (v1 & E1 & [Hb1 Ho1] & H1); [done| |].
  { intros b y. unfold line_of. by destruct (data_bits_put b y) as (-> & -> & ->). }
  destruct (pl_line_setting_run (stop_bits c) set_stop_bits_internal
    (λ b, match b with One => CLEAR LCR_STP2 | Two => SET LCR_STP2 end)
    (λ b l, (l.1.1, b, l.2)) v1) as (v2 & E2 & [Hb2 Ho2] & H2); [done| |].
  { intros b y. unfold line_of. by destruct (stop_bits_put b y) as (-> & -> & ->). }
  destruct (pl_line_setting_run (parity c) set_parity_internal parity_fields (λ p l, (l.1.1, l.1.2, p)) v2)
    as (v3 & E3 & [Hb3 Ho3] & H3); [done| |].
  { intros p y. unfold line_of. by destruct (parity_put p y) as (-> & -> & ->). }
  exists v1, v2, v3. split; [done|]. split; [done|]. split; [done|]. split.
  - split; [by rewrite Hb3, Hb2|]. intros o Ho. by rewrite Ho3, Ho2, Ho1.
  - rewrite H3, H2, H1. unfold line_with. destruct (line v) as [[d st] p].
    by destruct (data_bits c), (stop_bits c), (parity c).
Qed.

(** *** The whole configuration *)

Definition enabled (v : V) : bool := is_set CR_UARTEN (pl_reg UARTCR v).
Definition fifo_on (v : V) : bool := is_set LCR_FEN (pl_reg UARTLCR_H v).

Lemma is_set_put_val f mask b x : 0 ≤ f_offset f → 0 < f_bits f → read f mask = Z.ones (f_bits f) →
  read f (fv_mask (val f (Z.b2z b))) = Z.ones (f_bits f) → is_set f (put mask (val f (Z.b2z b)) x) = b.
Proof. intros Ho Hb Hm Hf. unfold is_set. rewrite put_in by (done || lia). by apply (is_set_val f b). Qed.

(** Disabling the port: what [set_config] does first. *)
Lemma stop_run v : (pl_busy v < fuel)%nat → ∃ v1 v2 v3,
  reg_modify UARTCR (CLEAR CR_UARTEN) v = run v1 ∧ wait_not_busy fuel v1 = run v2 ∧
  reg_modify UARTLCR_H (CLEAR LCR_FEN) v2 = run v3 ∧
  line v3 = line v ∧ enabled v3 = false ∧ fifo_on v3 = false ∧
  ∀ o, o ≠ UARTCR → o ≠ UARTLCR_H → pl_reg o v3 = pl_reg o v.
Proof.
  intros Hf. destruct (reg_modify_run UARTCR (CLEAR CR_UARTEN) v 0xFF87 eq_refl) as (v1 & E1 & H1 & Hb1 & Ho1).
  destruct (wait_run fuel v1) as (v2 & E2 & H2); [by rewrite Hb1|].
  destruct (reg_modify_run UARTLCR_H (CLEAR LCR_FEN) v2 0xFF eq_refl) as (v3 & E3 & H3 & _ & Ho3).
  exists v1, v2, v3. do 3 (split; [done|]).
  destruct (fen_keeps false (pl_reg UARTLCR_H v2)) as (Hd & Hs & Hp & Hfen).
  change (val LCR_FEN (Z.b2z false)) with (CLEAR LCR_FEN) in *. split_and!.
  - unfold line. rewrite H3. unfold line_of. by rewrite Hd, Hs, Hp, H2, Ho1 by done.
  - unfold enabled. rewrite Ho3, H2, H1 by done. by apply (is_set_put_val CR_UARTEN 0xFF87 false); try done; const.
  - unfold fifo_on. by rewrite H3.
  - intros o Hn1 Hn2. by rewrite Ho3, H2, Ho1.
Qed.

(** Enabling it again: what it does last. *)
Lemma start_run (en : bool) v : enabled v = false → ∃ v',
  (_ ← reg_modify UARTLCR_H (SET LCR_FEN); if en then reg_modify UARTCR (SET CR_UARTEN) else mret tt) v = run v' ∧
  line v' = line v ∧ enabled v' = en ∧ fifo_on v' = true ∧
  ∀ o, o ≠ UARTCR → o ≠ UARTLCR_H → pl_reg o v' = pl_reg o v.
Proof.
  intros He. destruct (reg_modify_run UARTLCR_H (SET LCR_FEN) v 0xFF eq_refl) as (v1 & E1 & H1 & _ & Ho1).
  rewrite (bind_run _ _ _ _ _ E1). destruct (fen_keeps true (pl_reg UARTLCR_H v)) as (Hd & Hs & Hp & Hfen).
  change (val LCR_FEN (Z.b2z true)) with (SET LCR_FEN) in *.
  assert (Hl : line v1 = line v) by (unfold line; rewrite H1; unfold line_of; by rewrite Hd, Hs, Hp).
  destruct en.
  - destruct (reg_modify_run UARTCR (SET CR_UARTEN) v1 0xFF87 eq_refl) as (v2 & E2 & H2 & _ & Ho2).
    exists v2. split_and!; [done|..].
    + unfold line in *. by rewrite Ho2.
    + unfold enabled. rewrite H2. by apply (is_set_put_val CR_UARTEN 0xFF87 true); try done; const.
    + unfold fifo_on. by rewrite Ho2, H1.
    + intros o Hn1 Hn2. by rewrite Ho2, Ho1.
  - exists v1. split_and!; [done..| | |].
    + unfold enabled. by rewrite Ho1.
    + unfold fifo_on. by rewrite H1.
    + intros o Hn1 Hn2. by rewrite Ho1.
Qed.

(** The rate can be made: the divisor fits its register. *)
Definition rate_ok (clk : Z) (c : Config) : bool :=
  match baudrate c with
  | Some b => negb ((clk / (16 * b) =? 0) || (0xFFFF <? clk / (16 * b)))
  | None => true
  end.

(** The divisor in the registers, in 64ths. *)
Definition divisor (v : V) : Z := 64 * read BAUD_DIVINT (pl_reg UARTIBRD v) + read BAUD_DIVFRAC (pl_reg UARTFBRD v).

(** The divisor closest to the rate is [i] and [f] 64ths. It is in the registers
    if its fraction, rounded, is below 64; if that is 64, the registers have 0
    for it, and the divisor is less by one. Without a rate the registers stay. *)
Definition rate_set (clk : Z) (c : Config) (v v' : V) : Prop :=
  match baudrate c with
  | Some b => ∃ i f, i = clk / (16 * b) ∧ 0 ≤ f ≤ 64 ∧ 2 * Z.abs ((64 * i + f) * (16 * b) - 64 * clk) ≤ 16 * b ∧
      divisor_set i f v' ∧ divisor v' = if f =? 64 then 64 * i else 64 * i + f
  | None => pl_reg UARTIBRD v' = pl_reg UARTIBRD v ∧ pl_reg UARTFBRD v' = pl_reg UARTFBRD v
  end.

Lemma divisor_set_eq i f v : 0 ≤ f ≤ 64 → divisor_set i f v → divisor v = if f =? 64 then 64 * i else 64 * i + f.
Proof.
  intros Hf [Hi Hfr]. unfold divisor. rewrite Hi, Hfr. destruct (Z.eqb_spec f 64) as [->|]; [change (64 mod 64) with 0; lia|].
  by rewrite Z.mod_small by lia.
Qed.

(** Setting the rate, after nothing but the control and line registers changed. *)
Lemma pl_rate_run clk c v v3 : 0 ≤ clk → (∀ b, baudrate c = Some b → 0 < b < 2 ^ 21) →
  (∀ o, o ≠ UARTCR → o ≠ UARTLCR_H → pl_reg o v3 = pl_reg o v) →
  if rate_ok clk c
  then ∃ v4, when_some (baudrate c) (set_baudrate_internal clk) v3 = run v4 ∧ rate_set clk c v v4 ∧
    ∀ o, o ≠ UARTIBRD → o ≠ UARTFBRD → pl_reg o v4 = pl_reg o v3
  else when_some (baudrate c) (set_baudrate_internal clk) v3 = (v3, Err InvalidBaudrate).
Proof.
  intros Hc Hb Ho3. unfold rate_ok, rate_set. destruct (baudrate c) as [b|]; cbn [when_some].
  - destruct (baud_parts_spec clk b Hc (Hb b eq_refl)) as (i & f & E & -> & Hfr & Hacc).
    pose proof (set_baudrate_run clk b (clk / (16 * b)) f v3 E) as Hr. destruct (_ || _); cbn [negb]; [done|].
    specialize (Hb b eq_refl). destruct Hr as (v4 & E4 & Hd & _ & Ho); [apply Z.div_pos; lia|].
    exists v4. split; [done|]. split; [|done].
    exists (clk / (16 * b)), f. split_and!; [done|apply Hfr|apply Hfr|done|done|by apply divisor_set_eq].
  - exists v3. split; [done|]. split; [split; by apply Ho3|done].
Qed.

(** C39: Configuring a PL011 with a rate below [2^21] baud, or none. A rate of 0
    panics, it divides by zero. Else [set_config] ends without panic, after at
    most the polls the character on the wire takes. When the rate can be made
    (the integer part of the divisor is from 1 to 0xFFFF), each given setting of
    the line is the one the getters then return, the others keep their value,
    the divisor is the closest one, but less by one when its fraction rounds up
    to 64, which the register can not hold ([rate_set]); the queues are on, and
    the port is enabled if and only if it was before. When the rate cannot be
    made, the error says so and no setting has changed; but the port is left
    disabled and with its queues off. *)
Theorem pl011_set_config clk c v : (pl_busy v < fuel)%nat → 0 ≤ clk →
  (∀ b, baudrate c = Some b → 0 ≤ b < 2 ^ 21) →
  if decide (baudrate c = Some 0) then (set_config fuel clk c v).2 = Stuck
  else if rate_ok clk c then ∃ v',
    set_config fuel clk c v = (v', Ok tt) ∧
    get_data_bits v' = (v', Ok (default (line v).1.1 (data_bits c))) ∧
    get_stop_bits v' = (v', Ok (default (line v).1.2 (stop_bits c))) ∧
    get_parity v' = (v', Ok (default (line v).2 (parity c))) ∧
    rate_set clk c v v' ∧ enabled v' = enabled v ∧ fifo_on v' = true
  else ∃ v',
    set_config fuel clk c v = (v', Err InvalidBaudrate) ∧
    line v' = line v ∧ (∀ o, o ≠ UARTCR → o ≠ UARTLCR_H → pl_reg o v' = pl_reg o v) ∧
    enabled v' = false ∧ fifo_on v' = false.
Proof.
  intros Hf Hc Hb. unfold set_config.
  rewrite (bind_run _ _ _ _ _ (reg_read_run UARTCR v 0xFF87 eq_refl)). fold (enabled v).
  destruct (stop_run v Hf) as (v1 & v2 & v3 & E1 & E2 & E3 & Hl3 & Hen3 & Hff3 & Ho3).
  rewrite (bind_run _ _ _ _ _ E1), (bind_run _ _ _ _ _ E2), (bind_run _ _ _ _ _ E3).
  case_decide as Hzero; [unfold mbind at 1, M_bind at 1; by rewrite Hzero|].
  assert (∀ b, baudrate c = Some b → 0 < b < 2 ^ 21) as Hb'.
  { intros b Eb. destruct (Z.eq_dec b 0) as [->|]; [done|]. specialize (Hb b Eb). lia. }
  pose proof (pl_rate_run clk c v v3 Hc Hb' Ho3) as Hrate.
  destruct (rate_ok clk c).
  2:{ exists v3. split_and!; try done. unfold mbind at 1, M_bind at 1. by rewrite Hrate. }
  destruct Hrate as (v4 & E4 & Hr4 & Ho4). rewrite (bind_run _ _ _ _ _ E4).
  destruct (pl_set_line_run c v4) as (v5 & v6 & v7 & E5 & E6 & E7 & [_ Ho7] & Hl7).
  rewrite (bind_run _ _ _ _ _ E5), (bind_run _ _ _ _ _ E6), (bind_run _ _ _ _ _ E7).
  destruct (start_run (enabled v) v7) as (v' & E' & Hl' & Hen' & Hff' & Ho').
  { unfold enabled. rewrite Ho7, Ho4 by done. exact Hen3. }
  exists v'. split; [exact E'|].
  assert (Hline : line v' = line_with c (line v)).
  { rewrite Hl', Hl7. f_equal. rewrite <- Hl3. unfold line. by rewrite Ho4. }
  unfold get_data_bits, get_stop_bits, get_parity.
  rewrite !(bind_run _ _ _ _ _ (reg_read_run UARTLCR_H v' 0xFF eq_refl)).
  unfold line at 1, line_of, line_with in Hline. injection Hline as -> -> ->.
  split_and!; try done. unfold rate_set, divisor, divisor_set in *.
  destruct (baudrate c); by rewrite !Ho', !Ho7 by done.
Qed.
End Driver.

(** ** Where the divisor goes wrong *)

(** The fraction can round up to 64 sixty-fourths, which its six bits write as 0
    without a carry: 750001 baud on a 24 MHz clock sets the divisor to 1, which
    is 1.5 megabaud. *)
Theorem pl011_fraction_wraps :
  baud_parts 24000000 750001 = Ok (1, 64) ∧ 64 mod 64 = 0 ∧ 24000000 / 16 = 1500000.
Proof. vm_compute. split_and!; reflexivity. Qed.

(** A rate of 0 divides by zero. *)
Theorem pl011_rate_zero_panics clk : baud_parts clk 0 = Stuck.
Proof. reflexivity. Qed.

(** ** A simulated port *)

(** Registers as a function, the two queues of 16 entries, and the steps until
    the character on the wire is sent. *)
Record Sim : Type := mk_Sim { s_reg : Z → Z; s_rx : list Z; s_tx : list Z; s_room : nat; s_busy : nat }.

Definition sim_flags (s : Sim) : Z :=
  (if (0 <? s_busy s)%nat then 8 else 0) + (if bool_decide (s_rx s = []) then 16 else 0) + (if (s_room s =? 0)%nat then 32 else 0).

#[export] Instance sim_hw : UartHw Sim := {
  ur_read o s :=
    if o =? UARTFR then (s, sim_flags s)
    else if o =? UARTDR then (mk_Sim (s_reg s) (tail (s_rx s)) (s_tx s) (s_room s) (s_busy s), default 0 (head (s_rx s)))
    else (s, s_reg s o);
  ur_write o x s :=
    if o =? UARTDR then mk_Sim (s_reg s) (s_rx s) (s_tx s ++ [x]) (pred (s_room s)) (s_busy s)
    else match pl_mask o with
         | Some mask => mk_Sim (λ o', if o' =? o then Z.land x mask else s_reg s o') (s_rx s) (s_tx s) (s_room s) (s_busy s)
         | None => s
         end;
  ur_idle s := mk_Sim (s_reg s) (s_rx s) (s_tx s) (s_room s) (pred (s_busy s))
}.

Lemma mask_plain o mask : pl_mask o = Some mask → o ≠ UARTFR ∧ o ≠ UARTDR.
Proof. intros Hm. split; intros ->; discriminate. Qed.

Lemma sim_flag_bits s (a b c : bool) : s = (if a then 8 else 0) + (if b then 16 else 0) + (if c then 32 else 0) →
  is_set FR_BUSY s = a ∧ is_set FR_RXFE s = b ∧ is_set FR_TXFF s = c.
Proof. intros ->. by destruct a, b, c. Qed.

#[export] Instance sim_laws : Pl011Hw Sim.
Proof.
  refine {| pl_reg o s := s_reg s o; pl_rx := s_rx; pl_tx := s_tx; pl_busy := s_busy |}.
  - intros o v mask Hm. destruct (mask_plain o mask Hm) as [H1 H2]. simpl.
    by rewrite (proj2 (Z.eqb_neq _ _) H1), (proj2 (Z.eqb_neq _ _) H2).
  - intros o v x mask Hm. destruct (mask_plain o mask Hm) as [H1 H2]. simpl.
    rewrite (proj2 (Z.eqb_neq _ _) H2), Hm. simpl. rewrite Z.eqb_refl. split_and!; [done..|].
    intros o' Ho. by rewrite (proj2 (Z.eqb_neq _ _) Ho).
  - done.
  - intros v. exists (sim_flags v). split; [done|].
    destruct (sim_flag_bits (sim_flags v) _ _ _ eq_refl) as (Hb & Hr & Ht). split_and!; [done| |done].
    rewrite Hb. apply eq_true_iff_eq. by rewrite Nat.ltb_lt, bool_decide_eq_true.
  - intros v w q Hq. simpl. by rewrite Hq.
  - intros v. done.
Defined.

(** The clock guess of a port that firmware left with a large divisor, and the
    reading of a rate with a clock of 100 MHz, overflow. *)
Definition sim_at (r : Z → Z) : Sim := mk_Sim r [] [] 16 0.
Theorem pl011_rate_overflows :
  (detect_clock_frequency (sim_at (λ o, if o =? UARTIBRD then 2331 else 0))).2 = Stuck ∧
  (get_baudrate 100000000 (sim_at (λ o, if o =? UARTIBRD then 54 else 0))).2 = Stuck.
Proof. vm_compute. split; reflexivity. Qed.

Definition cfg_115200 : Config := mk_Config (Some 115200) (Some Seven) None (Some Even).

Lemma pl011_set_config_witness :
  let v := mk_Sim (λ o, if o =? UARTLCR_H then 0x18 else if o =? UARTCR then 0x301 else 0) [] [] 16 2 in
  (∃ v', set_config 3 24000000 cfg_115200 v = (v', Ok tt) ∧ get_stop_bits v' = (v', Ok Two) ∧
     get_parity v' = (v', Ok Even) ∧ enabled v' = true) ∧
  (∃ v', set_config 3 1000000 cfg_115200 v = (v', Err InvalidBaudrate) ∧ enabled v' = false).
Proof.
  intros v. split.
  - destruct (pl011_set_config 3 24000000 cfg_115200 v) as (v' & E & _ & Hs & Hp & _ & He & _).
    + simpl. lia.
    + lia.
    + intros b [= <-]. lia.
    + exists v'. split; [exact E|]. split; [exact Hs|]. split; [exact Hp|exact He].
  - destruct (pl011_set_config 3 1000000 cfg_115200 v) as (v' & E & _ & _ & He & _).
    + simpl. lia.
    + lia.
    + intros b [= <-]. lia.
    + exists v'. split; [exact E|exact He].
Defined.

(** ** The queue on a simulated port *)

#[local] Existing Instance pl011_port.
#[local] Existing Instance pl011_laws.

(** A port with received words and the receive interrupt pending. *)
Definition sim_rx (rx : list Z) : Sim := mk_Sim (λ o, if o =? UARTMIS then 0x10 else 0) rx [] 16 0.

Lemma serial_in_order_witness :
  let s := SerialDyn.new (sim_rx [0x41; 0x42; 0x143]) in
  let evs := [Silent; Irq 0; ReadByte (Some (inl 0x41)); Silent; Silent; Arrive (inl 0x44);
    ReadBytes 4 ([0x42], inr (mk_TransBytesError 1 Framing))] in
  ∃ s', trace (λ _, True) (s, Idle) evs (s', Idle) ∧
    ∃ ps, Forall2 explains evs ps ∧ concat ps ++ pending (λ _, True) s' = pending (λ _, True) s ++ arrived evs.
Proof.
  intros s evs.
  set (s1 := match handle_irq 4 s with Some (s', _) => s' | None => s end).
  set (s2 := (fifo_pop s1).1). set (s3 := (fifo_pop s2).1).
  set (s4 := with_inner (mk_Sim (s_reg (inner s3)) [0x44] (s_tx (inner s3)) (s_room (inner s3)) (s_busy (inner s3))) s3).
  set (s5 := (fifo_pop s4).1).
  assert (Htr : trace (λ _, True) (s, Idle) evs (s5, Idle)).
  { refine (trace_cons _ _ _ (s, Byte) _ _ (step_call _ s Byte _) _); [by left|].
    refine (trace_cons _ _ _ (s1, Byte) _ _ (step_irq _ 4 s s1 RX_AVAILABLE Byte _ _ _) _); [reflexivity|simpl; lia|done|].
    refine (trace_cons _ _ _ (s2, Idle) _ _ (step_reader _ s1 Byte s2 Idle _ _) _); [reflexivity|].
    refine (trace_cons _ _ _ (s2, Bytes 4 []) _ _ (step_call _ s2 _ _) _); [right; by exists 4%nat|].
    refine (trace_cons _ _ _ (s3, Bytes 4 [0x42]) _ _ (step_reader _ s2 _ s3 _ _ _) _); [reflexivity|].
    refine (trace_cons _ _ _ (s4, Bytes 4 [0x42]) _ _ (step_arrive _ s3 _ (inl 0x44) _ _ _) _); [done|reflexivity|].
    refine (trace_cons _ _ _ (s5, Idle) _ _ (step_reader _ s4 _ s5 Idle _ _) _); [reflexivity|]. apply trace_nil. }
  exists s5. split; [exact Htr|].
  destruct (serial_in_order (λ _ : Sim, True) s evs s5 Idle) as [(ps & Hf & _ & _ & Hall) _]; [split; [exact I|simpl; lia]|exact Htr|].
  exists ps. split; [exact Hf|]. apply Hall. reflexivity.
Defined.

(** Without a lock between receiver and handler, an interrupt between the two
    looks of [read_byte], at the queue and at the port, lets a byte overtake: the
    handler moves 0x41 and 0x42 to the queue, 0x43 arrives, and the reader gets
    0x43 first. *)
Theorem interrupt_reorders :
  let s := SerialDyn.new (sim_rx [0x41; 0x42]) in
  fifo_pop s = (s, None) ∧
  ∃ s1, handle_irq 3 s = Some (s1, RX_AVAILABLE) ∧
    let s2 := with_inner (sim_rx [0x43]) s1 in
    (port_read_byte s2).2 = Some (inl 0x43) ∧ fifo (port_read_byte s2).1 = [inl 0x41; inl 0x42].
Proof. split; [reflexivity|]. eexists. split; [reflexivity|]. split; reflexivity. Qed.
