(* ===== verification/Ns16550Proof.v ===== *)
(** * The 16550: proofs

    Configuration reads back, the receiver keeps the laws of a serial port, and
    where the driver reads the wrong register. *)

From stdpp Require Import base list numbers.
From S2P Require Import Prelude Tock Serial SerialDyn SerialProof Ns16550.
Open Scope Z_scope.

#[export] Instance DataBits_eq_dec : EqDecision DataBits.
Proof. solve_decision. Defined.
#[export] Instance StopBits_eq_dec : EqDecision StopBits.
Proof. solve_decision. Defined.
#[export] Instance Parity_eq_dec : EqDecision Parity.
Proof. solve_decision. Defined.

(** ** The port *)

Definition dlab (lcr : Z) : bool := contains lcr LCR_DIVISOR_LATCH_ACCESS.
Definition byte (x : Z) : Prop := 0 ≤ x < 256.
(** The error bits of the line status register. *)
Definition LSR_ERRORS : Z := 0x1E.

(** The data sheet's description. The registers 0 and 1 are the divisor while
    the divisor latch bit of the line control register is set. Reading the line
    status gives the errors of the byte at the front of the receive queue; reading
    register 0 takes that byte. The identification register tells whether the
    FIFOs are on. *)
Class Ns16550Hw (V : Type) `{UartHw V} : Type := {
  ns_lcr : V → Z;
  ns_ier : V → Z;
  ns_div : V → Z;
  ns_fcr : V → Z;
  ns_rx : V → list (Z * Z);
  ns_lcr_range v : byte (ns_lcr v);
  ns_read_lcr v : ur_read UART_LCR v = (v, ns_lcr v);
  ns_write_lcr v x : byte x →
    let v' := ur_write UART_LCR x v in ns_lcr v' = x ∧ ns_div v' = ns_div v ∧ ns_rx v' = ns_rx v;
  ns_write_dll v x : byte x → dlab (ns_lcr v) = true →
    let v' := ur_write UART_DLL x v in ns_lcr v' = ns_lcr v ∧ ns_div v' = ns_div v / 256 * 256 + x ∧ ns_rx v' = ns_rx v;
  ns_write_dlh v x : byte x → dlab (ns_lcr v) = true →
    let v' := ur_write UART_DLH x v in ns_lcr v' = ns_lcr v ∧ ns_div v' = x * 256 + ns_div v mod 256 ∧ ns_rx v' = ns_rx v;
  ns_write_fcr v x : ns_fcr (ur_write UART_FCR x v) = x;
  ns_read_iir v : let '(v', x) := ur_read UART_IIR v in
    ns_lcr v' = ns_lcr v ∧ ns_rx v' = ns_rx v ∧ ns_fcr v' = ns_fcr v ∧
    contains x IIR_FIFO_ENABLE_MASK = Z.testbit (ns_fcr v) 0;
  ns_read_rbr v b e q : dlab (ns_lcr v) = false → ns_rx v = (b, e) :: q →
    let '(v', x) := ur_read UART_RBR v in x = b ∧ ns_rx v' = q ∧ ns_lcr v' = ns_lcr v;
  ns_read_ier v : dlab (ns_lcr v) = false → ur_read UART_IER v = (v, ns_ier v);
  ns_read_lsr v : let '(v', x) := ur_read UART_LSR v in
    ns_lcr v' = ns_lcr v ∧
    match ns_rx v with
    | [] => ns_rx v' = [] ∧ contains x LSR_DATA_READY = false ∧ Z.land x LSR_ERRORS = 0
    | (b, e) :: q => ns_rx v' = (b, 0) :: q ∧ contains x LSR_DATA_READY = true ∧ Z.land x LSR_ERRORS = Z.land e LSR_ERRORS
    end
}.

(** ** Bytes *)

(** A property of all bytes, by computation. *)
Lemma all_bytes (P : Z → Prop) `{∀ x, Decision (P x)} :
  forallb (λ x, bool_decide (P x)) (seqZ 0 256) = true → ∀ x, byte x → P x.
Proof.
  intros Ha x Hx. rewrite forallb_forall in Ha. apply (bool_decide_unpack (P x)), Is_true_eq_left, Ha, list_elem_of_In.
  apply elem_of_seqZ. unfold byte in Hx. lia.
Qed.

Lemma contains_land x m f : Z.land m f = f → contains (Z.land x m) f = contains x f.
Proof. intros Hm. unfold contains. by rewrite <- Z.land_assoc, Hm. Qed.

(** The error of a received byte depends on its error bits. *)
Lemma decode_land x y b : Z.land x LSR_ERRORS = Z.land y LSR_ERRORS → decode x b = decode y b.
Proof.
  intros He. unfold decode.
  rewrite <- (contains_land x LSR_ERRORS LSR_OVERRUN_ERROR), <- (contains_land x LSR_ERRORS LSR_PARITY_ERROR),
    <- (contains_land x LSR_ERRORS LSR_FRAMING_ERROR), <- (contains_land x LSR_ERRORS LSR_BREAK_INTERRUPT) by reflexivity.
  by rewrite He, !contains_land.
Qed.

Section Driver.
Context {V : Type} `{UartHw V} `{Tock} {NS : Ns16550Hw V}.

(** ** Receiving *)

#[local] Existing Instance ns16550_port.

Definition rx_of (p : Z * Z) : RxByte := decode p.2 p.1.
Definition ns_ok (v : V) : Prop := dlab (ns_lcr v) = false.

Lemma ns_read_byte_law v : ns_ok v →
  ns_ok (read_byte v).1 ∧ (read_byte v).2 = head (rx_of <$> ns_rx v) ∧
  rx_of <$> ns_rx (read_byte v).1 = tail (rx_of <$> ns_rx v).
Proof.
  intros Hv. unfold read_byte. pose proof (ns_read_lsr v) as Hl.
  destruct (ur_read UART_LSR v) as [v1 x]. destruct Hl as [Hlcr Hl]. destruct (ns_rx v) as [|[b e] q].
  - destruct Hl as (Hrx & Hd & He). rewrite Hd.
    rewrite <- !(contains_land x LSR_ERRORS) by reflexivity. rewrite He. simpl.
    unfold ns_ok. by rewrite Hlcr, Hrx.
  - destruct Hl as (Hrx & Hd & He). rewrite Hd, !orb_true_r.
    pose proof (ns_read_rbr v1 b 0 q ltac:(by rewrite Hlcr) Hrx) as Hr.
    destruct (ur_read UART_RBR v1) as [v2 b']. destruct Hr as (-> & Hq & Hlcr2). cbn [fst snd].
    unfold ns_ok. rewrite Hlcr2, Hlcr, Hq. split_and!; [done| |done]. simpl. unfold rx_of. simpl.
    by rewrite (decode_land x e).
Qed.

#[local] Instance ns16550_laws : SerialLaws V ns16550_port ns_ok.
Proof.
  refine {| rx_queue v := rx_of <$> ns_rx v |}.
  - intros v Hv. by apply ns_read_byte_law.
  - intros n v Hv. apply (read_bytes_law read_byte ns_ok (λ v, rx_of <$> ns_rx v)); [apply ns_read_byte_law|done].
  - intros v Hv. simpl. unfold clean_interrupt_status. pose proof (ns_read_iir v) as Hi.
    destruct (ur_read UART_IIR v) as [v1 x]. destruct Hi as (Hl & Hr & _). cbn [fst].
    unfold ns_ok. by rewrite Hl, Hr.
Defined.

(** ** Configuration *)

Notation run := (λ v, (v, Ok tt) : V * outcome ConfigError unit).

Definition line_of (x : Z) : DataBits * StopBits * Parity := (data_bits_of x, stop_bits_of x, parity_of x).
Definition line (v : V) : DataBits * StopBits * Parity := line_of (ns_lcr v).

(** What a change [f] of the line control register does, for all its values. *)
Definition line_change (f : Z → Z) (upd : DataBits * StopBits * Parity → DataBits * StopBits * Parity) (x : Z) : Prop :=
  0 ≤ f x < 256 ∧ dlab (f x) = dlab x ∧ line_of (f x) = upd (line_of x).

#[local] Instance line_change_dec f upd x : Decision (line_change f upd x).
Proof. unfold line_change. apply _. Defined.

Lemma word_length_change b x : byte x → line_change (with_word_length b) (λ l, (b, l.1.2, l.2)) x.
Proof. revert x. apply (all_bytes (line_change _ _)). destruct b; vm_compute; reflexivity. Qed.
Lemma stop_bits_change b x : byte x → line_change (with_stop_bits b) (λ l, (l.1.1, b, l.2)) x.
Proof. revert x. apply (all_bytes (line_change _ _)). destruct b; vm_compute; reflexivity. Qed.
Lemma parity_change p x : byte x → line_change (with_parity p) (λ l, (l.1.1, l.1.2, p)) x.
Proof. revert x. apply (all_bytes (line_change _ _)). destruct p; vm_compute; reflexivity. Qed.
(** Opening and closing the divisor latch. *)
Lemma latch_change x : byte x →
  let y := insert_flag x LCR_DIVISOR_LATCH_ACCESS in let z := remove_flag y LCR_DIVISOR_LATCH_ACCESS in
  0 ≤ y < 256 ∧ dlab y = true ∧ 0 ≤ z < 256 ∧ dlab z = false ∧ line_of z = line_of x.
Proof.
  revert x. apply (all_bytes (λ x, let y := insert_flag x LCR_DIVISOR_LATCH_ACCESS in
    let z := remove_flag y LCR_DIVISOR_LATCH_ACCESS in
    0 ≤ y < 256 ∧ dlab y = true ∧ 0 ≤ z < 256 ∧ dlab z = false ∧ line_of z = line_of x)).
  vm_compute. reflexivity.
Qed.

(** An optional setting of the line. *)
Lemma ns_line_setting_run {X} (o : option X) (g : X → M V ConfigError unit) f upd v :
  ns_ok v → (∀ x w, g x w = modify_flags UART_LCR (f x) w) → (∀ x y, byte y → line_change (f x) (upd x) y) →
  ∃ v', when_some o g v = run v' ∧ ns_ok v' ∧ ns_div v' = ns_div v ∧ ns_rx v' = ns_rx v ∧
    line v' = match o with Some x => upd x (line v) | None => line v end.
Proof.
  intros Hv Hg Hu. destruct o as [x|]; cbn [when_some]; [|by exists v].
  rewrite Hg. destruct (Hu x (ns_lcr v) (ns_lcr_range v)) as (Hb & Hd & Hl).
  destruct (ns_write_lcr v (f x (ns_lcr v)) Hb) as (Hx & Hdiv & Hrx).
  exists (ur_write UART_LCR (f x (ns_lcr v)) v). split_and!; try done.
  - unfold modify_flags. assert (E : reg_read (V := V) UART_LCR v = (v, Ok (ns_lcr v))) by (unfold reg_read; by rewrite ns_read_lcr).
    by rewrite (bind_run _ _ _ _ _ E).
  - unfold ns_ok. by rewrite Hx, Hd.
  - unfold line. by rewrite Hx, Hl.
Qed.

(** The divisor is written in two halves. *)
Lemma ns_rate_run clk b v : ns_ok v → 0 < clk → 0 < b < 2 ^ 28 →
  if (clk / (16 * b) =? 0) || (0xFFFF <? clk / (16 * b))
  then set_baudrate_internal clk b v = (v, Err InvalidBaudrate)
  else ∃ v', set_baudrate_internal clk b v = run v' ∧ ns_ok v' ∧ line v' = line v ∧ ns_rx v' = ns_rx v ∧
    ns_div v' = clk / (16 * b).
Proof.
  intros Hv Hc Hb. unfold set_baudrate_internal.
  rewrite (proj2 (Z.eqb_neq b 0)), (proj2 (Z.eqb_neq clk 0)) by lia. cbn [orb].
  rewrite (bind_lift _ _ _ (16 * b)) by (by rewrite umul_ok by lia).
  destruct ((clk / (16 * b) =? 0) || _) eqn:Ec; [done|]. bool_to_prop.
  assert (E : reg_read (V := V) UART_LCR v = (v, Ok (ns_lcr v))) by (unfold reg_read; by rewrite ns_read_lcr).
  rewrite (bind_run _ _ _ _ _ E). clear E.
  destruct (latch_change (ns_lcr v) (ns_lcr_range v)) as (Hy & Hdy & Hz & Hdz & Hlz).
  set (y := insert_flag (ns_lcr v) LCR_DIVISOR_LATCH_ACCESS) in *. set (d := clk / (16 * b)) in *.
  assert (0 ≤ d) by (apply Z.div_pos; lia).
  assert (Hlo : Z.land d 0xFF = d mod 256) by (change 0xFF with (Z.ones 8); by rewrite Z.land_ones).
  assert (Hhi : Z.land (Z.shiftr d 8) 0xFF = d / 256).
  { change 0xFF with (Z.ones 8). rewrite Z.land_ones, Z.shiftr_div_pow2 by done. apply Z.mod_small.
    change (2 ^ 8) with 256. split; [apply Z.div_pos; lia|apply Z.div_lt_upper_bound; lia]. }
  rewrite Hlo, Hhi. pose proof (Z.mod_pos_bound d 256 ltac:(lia)).
  assert (0 ≤ d / 256 < 256) by (split; [apply Z.div_pos; lia|apply Z.div_lt_upper_bound; lia]).
  destruct (ns_write_lcr v y Hy) as (L1 & L1d & L1r). set (v1 := ur_write UART_LCR y v) in *.
  destruct (ns_write_dll v1 (d mod 256)) as (L2 & L2d & L2r); [done|by rewrite L1|].
  set (v2 := ur_write UART_DLL (d mod 256) v1) in *.
  destruct (ns_write_dlh v2 (d / 256)) as (L3 & L3d & L3r); [done|by rewrite L2, L1|].
  set (v3 := ur_write UART_DLH (d / 256) v2) in *.
  destruct (ns_write_lcr v3 (remove_flag y LCR_DIVISOR_LATCH_ACCESS) Hz) as (L4 & L4d & L4r).
  exists (ur_write UART_LCR (remove_flag y LCR_DIVISOR_LATCH_ACCESS) v3). split; [reflexivity|]. split_and!.
  - unfold ns_ok. by rewrite L4.
  - unfold line. by rewrite L4, Hlz.
  - by rewrite L4r, L3r, L2r, L1r.
  - rewrite L4d, L3d, L2d. pose proof (Z.div_mod d 256).
    assert ((ns_div v1 / 256 * 256 + d mod 256) mod 256 = d mod 256) as -> by (rewrite Z.add_comm, Z.mod_add, Z.mod_mod; lia). lia.
Qed.

Definition line_with (c : Config) (l : DataBits * StopBits * Parity) : DataBits * StopBits * Parity :=
  (default l.1.1 (data_bits c), default l.1.2 (stop_bits c), default l.2 (parity c)).
Definition rate_ok (clk : Z) (c : Config) : bool :=
  match baudrate c with
  | Some b => negb ((clk / (16 * b) =? 0) || (0xFFFF <? clk / (16 * b)))
  | None => true
  end.

Lemma opt_rate_run clk c v : ns_ok v → 0 < clk → (∀ b, baudrate c = Some b → 0 < b < 2 ^ 28) →
  if rate_ok clk c
  then ∃ v', when_some (baudrate c) (set_baudrate_internal clk) v = run v' ∧ ns_ok v' ∧ line v' = line v ∧
    ns_rx v' = ns_rx v ∧ ns_div v' = match baudrate c with Some b => clk / (16 * b) | None => ns_div v end
  else when_some (baudrate c) (set_baudrate_internal clk) v = (v, Err InvalidBaudrate).
Proof.
  intros Hv Hc Hb. unfold rate_ok. destruct (baudrate c) as [b|]; cbn [when_some]; [|by exists v].
  pose proof (ns_rate_run clk b v Hv Hc (Hb b eq_refl)) as Hr. by destruct (_ || _).
Qed.

Lemma ns_set_line_run c v : ns_ok v → ∃ v',
  (_ ← when_some (data_bits c) set_data_bits_internal;
   _ ← when_some (stop_bits c) set_stop_bits_internal; when_some (parity c) set_parity_internal) v = run v' ∧
  ns_ok v' ∧ ns_div v' = ns_div v ∧ ns_rx v' = ns_rx v ∧ line v' = line_with c (line v).
Proof.
  intros Hv.
  destruct (ns_line_setting_run (data_bits c) set_data_bits_internal with_word_length (λ b l, (b, l.1.2, l.2)) v Hv)
    as (v1 & E1 & Hv1 & D1 & R1 & L1); [done|intros; by apply word_length_change|].
  destruct (ns_line_setting_run (stop_bits c) set_stop_bits_internal with_stop_bits (λ b l, (l.1.1, b, l.2)) v1 Hv1)
    as (v2 & E2 & Hv2 & D2 & R2 & L2); [done|intros; by apply stop_bits_change|].
  destruct (ns_line_setting_run (parity c) set_parity_internal with_parity (λ p l, (l.1.1, l.1.2, p)) v2 Hv2)
    as (v3 & E3 & Hv3 & D3 & R3 & L3); [done|intros; by apply parity_change|].
  exists v3. rewrite (bind_run _ _ _ _ _ E1), (bind_run _ _ _ _ _ E2).
  split_and!; [done|done|by rewrite D3, D2, D1|by rewrite R3, R2, R1|].
  rewrite L3, L2, L1. unfold line_with. destruct (line v) as [[d st] p].
  by destruct (data_bits c), (stop_bits c), (parity c).
Qed.

(** Configuring a 16550. When the rate can be made, each given setting is the
    one the getters then return, the others keep their value, the divisor is the
    quotient of the clock, received bytes stay, and the divisor latch is closed
    again. When the rate cannot be made, the error says so and nothing has
    changed. *)
Theorem ns16550_set_config clk c v : ns_ok v → 0 < clk → (∀ b, baudrate c = Some b → 0 < b < 2 ^ 28) →
  if rate_ok clk c then ∃ v',
    set_config clk c v = (v', Ok tt) ∧ ns_ok v' ∧ ns_rx v' = ns_rx v ∧
    get_data_bits v' = (v', Ok (default (line v).1.1 (data_bits c))) ∧
    get_stop_bits v' = (v', Ok (default (line v).1.2 (stop_bits c))) ∧
    get_parity v' = (v', Ok (default (line v).2 (parity c))) ∧
    ns_div v' = match baudrate c with Some b => clk / (16 * b) | None => ns_div v end
  else set_config clk c v = (v, Err InvalidBaudrate).
Proof.
  intros Hv Hc Hb. unfold set_config. pose proof (opt_rate_run clk c v Hv Hc Hb) as Hrate.
  destruct (rate_ok clk c); [|by unfold mbind at 1, M_bind at 1; rewrite Hrate].
  destruct Hrate as (v1 & E1 & Hv1 & Hl1 & Hr1 & Hd1). rewrite (bind_run _ _ _ _ _ E1).
  destruct (ns_set_line_run c v1 Hv1) as (v2 & E2 & Hv2 & Hd2 & Hr2 & Hl2). exists v2. split; [exact E2|].
  rewrite Hl1 in Hl2. unfold get_data_bits, get_stop_bits, get_parity.
  assert (E : reg_read (V := V) UART_LCR v2 = (v2, Ok (ns_lcr v2))) by (unfold reg_read; by rewrite ns_read_lcr).
  rewrite !(bind_run _ _ _ _ _ E). unfold line at 1, line_of, line_with in Hl2. injection Hl2 as -> -> ->.
  split_and!; try done; [by rewrite Hr2|by rewrite Hd2].
Qed.

(** ** Wrong registers *)

Lemma is_16550_plus_run v : ∃ v', is_16550_plus v = (v', Ok (Z.testbit (ns_fcr v) 0)) ∧
  ns_fcr v' = ns_fcr v ∧ ns_rx v' = ns_rx v ∧ ns_lcr v' = ns_lcr v.
Proof.
  unfold is_16550_plus, reg_read, mbind, M_bind. pose proof (ns_read_iir v) as Hi.
  destruct (ur_read UART_IIR v) as [v1 x]. destruct Hi as (Hl & Hr & Hf & ->). by exists v1.
Qed.

(** The rate is read without opening the divisor latch: it is computed from a
    received byte and the interrupt mask, and the byte is gone. *)
Theorem ns16550_baudrate_takes_byte clk b e q v : ns_ok v → ns_rx v = (b, e) :: q →
  ns_rx (get_baudrate clk v).1 = q.
Proof.
  intros Hv Hq. unfold get_baudrate, reg_read, mbind, M_bind.
  pose proof (ns_read_rbr v b e q Hv Hq) as Hr. change UART_DLL with UART_RBR. change UART_DLH with UART_IER.
  destruct (ur_read UART_RBR v) as [v1 x]. destruct Hr as (-> & Hq1 & Hl).
  rewrite ns_read_ier by (by rewrite Hl). destruct (_ =? 0); [done|]. unfold lift.
  by destruct (umul _ _ _).
Qed.

(** The FIFOs of a 16550 can not be turned on: [enable_fifo] looks for them in
    bits that are set only while they are on. *)
Theorem ns16550_fifo_stays_off v : Z.testbit (ns_fcr v) 0 = false → Z.testbit (ns_fcr (enable_fifo true v).1) 0 = false.
Proof.
  intros Hf. unfold enable_fifo. destruct (is_16550_plus_run v) as (v1 & E & Hf1 & _).
  rewrite (bind_run _ _ _ _ _ E), Hf. unfold reg_write, modify. simpl. by rewrite ns_write_fcr.
Qed.
End Driver.

(** ** A simulated port *)

Record Sim : Type := mk_Sim { n_lcr : Z; n_ier : Z; n_mcr : Z; n_div : Z; n_fcr : Z; n_rx : list (Z * Z) }.

Definition sim_lsr (s : Sim) : Z :=
  match n_rx s with [] => 0x60 | (b, e) :: _ => Z.lor 0x61 (Z.land e LSR_ERRORS) end.

#[export] Instance sim_hw : UartHw Sim := {
  ur_read o s :=
    if o =? 0 then
      if dlab (n_lcr s mod 256) then (s, n_div s mod 256)
      else (mk_Sim (n_lcr s) (n_ier s) (n_mcr s) (n_div s) (n_fcr s) (tail (n_rx s)), default 0 (fst <$> head (n_rx s)))
    else if o =? 1 then (s, if dlab (n_lcr s mod 256) then n_div s / 256 else n_ier s)
    else if o =? 2 then (s, if Z.testbit (n_fcr s) 0 then 0xC1 else 1)
    else if o =? 3 then (s, n_lcr s mod 256)
    else if o =? 4 then (s, n_mcr s)
    else (mk_Sim (n_lcr s) (n_ier s) (n_mcr s) (n_div s) (n_fcr s)
            (match n_rx s with [] => [] | (b, _) :: q => (b, 0) :: q end), sim_lsr s);
  ur_write o x s :=
    if o =? 0 then
      if dlab (n_lcr s mod 256) then mk_Sim (n_lcr s) (n_ier s) (n_mcr s) (n_div s / 256 * 256 + x) (n_fcr s) (n_rx s) else s
    else if o =? 1 then
      if dlab (n_lcr s mod 256) then mk_Sim (n_lcr s) (n_ier s) (n_mcr s) (x * 256 + n_div s mod 256) (n_fcr s) (n_rx s)
      else mk_Sim (n_lcr s) x (n_mcr s) (n_div s) (n_fcr s) (n_rx s)
    else if o =? 2 then mk_Sim (n_lcr s) (n_ier s) (n_mcr s) (n_div s) x (n_rx s)
    else if o =? 3 then mk_Sim x (n_ier s) (n_mcr s) (n_div s) (n_fcr s) (n_rx s)
    else if o =? 4 then mk_Sim (n_lcr s) (n_ier s) x (n_div s) (n_fcr s) (n_rx s)
    else s;
  ur_idle s := s
}.

#[export] Instance sim_laws : Ns16550Hw Sim.
Proof.
  refine {| ns_lcr s := n_lcr s mod 256; ns_ier := n_ier; ns_div := n_div; ns_fcr := n_fcr; ns_rx := n_rx |}.
  - intros v. apply Z.mod_pos_bound. lia.
  - done.
  - intros v x Hx. simpl. by rewrite Z.mod_small.
  - intros v x _ Hd. simpl. by rewrite Hd.
  - intros v x _ Hd. simpl. by rewrite Hd.
  - done.
  - intros v. change (ur_read UART_IIR v) with (v, if Z.testbit (n_fcr v) 0 then 0xC1 else 1). cbv beta iota.
    split_and!; [done..|]. by destruct (Z.testbit (n_fcr v) 0).
  - intros v b e q Hd Hq. simpl. rewrite Hd, Hq. done.
  - intros v Hd. simpl. by rewrite Hd.
  - intros v. simpl. split; [done|]. unfold sim_lsr. destruct (n_rx v) as [|[b e] q]; [done|]. split; [done|].
    unfold contains, LSR_DATA_READY. rewrite Z.land_lor_distr_l, <- !Z.land_assoc. simpl. rewrite Z.land_0_r. split; [done|].
    rewrite Z.land_lor_distr_l, <- Z.land_assoc. by rewrite Z.land_diag.
Defined.

Lemma ns16550_set_config_witness :
  let v := mk_Sim 0x03 0 0 1 0 [(0x41, 0)] in
  let c := mk_Config (Some 9600) None (Some Two) (Some Odd) in
  (∃ v', set_config 1843200 c v = (v', Ok tt) ∧ ns_div v' = 12 ∧ get_data_bits v' = (v', Ok Eight) ∧
     get_parity v' = (v', Ok Odd) ∧ ns_rx v' = [(0x41, 0)]) ∧
  set_config 100000 c v = (v, Err InvalidBaudrate).
Proof.
  intros v c. split.
  - destruct (ns16550_set_config 1843200 c v) as (v' & E & _ & Hr & Hd & _ & Hp & Hq).
    + reflexivity.
    + lia.
    + intros b [= <-]. lia.
    + exists v'. split; [exact E|]. split; [exact Hq|]. split; [exact Hd|]. split; [exact Hp|exact Hr].
  - apply (ns16550_set_config 100000 c v).
    + reflexivity.
    + lia.
    + intros b [= <-]. lia.
Defined.

(** A port whose rate is set to 9600 tells another rate, and loses the byte that
    was received. *)
Theorem ns16550_rate_reads_wrong :
  let v := mk_Sim 0x03 0 0 12 0 [(0x41, 0)] in
  (get_baudrate 1843200 v).2 = Ok 1772 ∧ ns_rx (get_baudrate 1843200 v).1 = [].
Proof. vm_compute. split; reflexivity. Qed.

(** Setting the trigger level of the FIFOs while an interrupt is pending turns
    them off: the identification register is read where the control register was
    meant, whose bit 0 is clear then. *)
Theorem ns16550_trigger_turns_off (v : Sim) x level :
  is_16550_plus (V := Sim) v = (v, Ok true) → ur_read UART_IIR v = (v, x) → Z.testbit x 0 = false → 0 ≤ level →
  Z.testbit (ns_fcr (set_fifo_trigger_level level v).1) 0 = false.
Proof.
  intros Hp Hx Hb Hl. unfold set_fifo_trigger_level. rewrite (bind_run _ _ _ _ _ Hp). cbn [negb].
  assert (E : reg_read (V := Sim) UART_FCR v = (v, Ok x)) by (unfold reg_read; change UART_FCR with UART_IIR; by rewrite Hx).
  rewrite (bind_run _ _ _ _ _ E). unfold reg_write, modify. cbn [fst].
  rewrite ns_write_fcr. unfold insert_flag, remove_flag. rewrite Z.lor_spec, Z.ldiff_spec, Hb. cbn [andb orb].
  unfold trigger_value. by repeat destruct (_ <=? _).
Qed.
