(* ===== verification/AddrAlloc.v ===== *)
(** * Address ranges for PCI windows

    driver/interface/rdif-pcie/src/addr_alloc: ranges and constraints (mod.rs),
    the balanced interval tree (allocation_engine/interval_tree.rs), the
    address allocator on it (address_allocator.rs), the id allocator
    (id_allocator.rs), and the BAR allocator of bar_alloc.rs. A node that may
    be absent is a [tree]; the rotations and the recursion are those of the
    code, including the cached heights and the places where it panics. *)

From stdpp Require Import base list numbers gmap.
From S2P Require Import Prelude.
Open Scope Z_scope.

(** ** mod.rs *)

Record RangeInclusive : Type := mk_Range { ra_start : Z; ra_end : Z }.

#[export] Instance RangeInclusive_eq_dec : EqDecision RangeInclusive.
Proof. solve_decision. Defined.

Inductive NodeState : Type := Free | Allocated.

#[export] Instance NodeState_eq_dec : EqDecision NodeState.
Proof. solve_decision. Defined.

Inductive Error : Type :=
| Overflow
| OutOfRange (id : Z)
| AlreadyReleased (id : Z)
| NeverAllocated (id : Z)
| ResourceNotAvailable
| InvalidRange (start end_ : Z)
| InvalidAlignment
| Overlap (a b : RangeInclusive)
| InvalidStateTransition (r : RangeInclusive) (s : NodeState)
| UnalignedAddress
| Underflow
| InvalidSize (size : Z).

Notation Result := (outcome Error).

(** [RangeInclusive::new], [len], [overlaps], [contains]. *)
Definition range_new (start end_ : Z) : Result RangeInclusive :=
  if (end_ <? start) || ((start =? 0) && (end_ =? u64_max))
  then Err (InvalidRange start end_)
  else Ok (mk_Range start end_).
Definition len (r : RangeInclusive) : Z := ra_end r - ra_start r + 1.
Definition overlaps (r o : RangeInclusive) : bool :=
  Z.max (ra_start r) (ra_start o) <=? Z.min (ra_end r) (ra_end o).
Definition contains (r o : RangeInclusive) : bool :=
  (ra_start r <=? ra_start o) && (ra_end o <=? ra_end r).

(** The derived [Ord]: start, then end. *)
Definition range_cmp (a b : RangeInclusive) : comparison :=
  match Z.compare (ra_start a) (ra_start b) with
  | Eq => Z.compare (ra_end a) (ra_end b)
  | c => c
  end.

Inductive AllocPolicy : Type := FirstMatch | LastMatch | ExactMatch (start : Z).

#[export] Instance AllocPolicy_eq_dec : EqDecision AllocPolicy.
Proof. solve_decision. Defined.

Record Constraint : Type := mk_Constraint { csize : Z; calign : Z; cpolicy : AllocPolicy }.

(** [Constraint::new]. *)
Definition constraint_new (size align : Z) (policy : AllocPolicy) : Result Constraint :=
  if size =? 0 then Err (InvalidSize size)
  else if negb (is_power_of_two align) || (align =? 0) then Err InvalidAlignment
  else match policy with
       | ExactMatch start =>
           if start mod align =? 0 then Ok (mk_Constraint size align policy) else Err UnalignedAddress
       | _ => Ok (mk_Constraint size align policy)
       end.

(** ** interval_tree.rs *)

Definition align_down (address alignment : Z) : Result Z :=
  if is_power_of_two alignment then Ok (mask_down 64 address alignment)
  else Err InvalidAlignment.

Definition align_up (address alignment : Z) : Result Z :=
  if alignment =? 0 then Err InvalidAlignment
  else match checked_add 64 address (alignment - 1) with
       | Some a => align_down a alignment
       | None => Err Overflow
       end.

(** [Option<Box<InnerNode>>]. *)
Inductive tree : Type :=
| E
| T (key : RangeInclusive) (node_state : NodeState) (left right : tree) (h : Z).

#[export] Instance tree_eq_dec : EqDecision tree.
Proof. solve_decision. Defined.

Definition height (t : tree) : Z := match t with E => 0 | T _ _ _ _ h => h end.

(** [InnerNode::new]. *)
Definition leaf (key : RangeInclusive) (s : NodeState) : tree := T key s E E 1.

(** A node after [update_cached_height]. *)
Definition node (k : RangeInclusive) (s : NodeState) (l r : tree) : tree :=
  T k s l r (Z.max (height l) (height r) + 1).

(** [search], [search_superset]. *)
Fixpoint search (key : RangeInclusive) (t : tree) : option (RangeInclusive * NodeState) :=
  match t with
  | E => None
  | T k s l r _ =>
      match range_cmp k key with
      | Eq => Some (k, s)
      | Lt => search key r
      | Gt => search key l
      end
  end.

Fixpoint search_superset (key : RangeInclusive) (t : tree) : option (RangeInclusive * NodeState) :=
  match t with
  | E => None
  | T k s l r _ =>
      if contains k key then Some (k, s)
      else if ra_end key <? ra_start k then search_superset key l
      else search_superset key r
  end.

(** The rotations. *)
Definition rotate_left (t : tree) : option tree :=
  match t with
  | T k s l (T k' s' l' r' _) _ => Some (node k' s' (node k s l l') r')
  | _ => None
  end.
Definition rotate_right (t : tree) : option tree :=
  match t with
  | T k s (T k' s' l' r' _) r _ => Some (node k' s' l' (node k s r' r))
  | _ => None
  end.

Definition or_empty (o : option tree) : tree := default E o.

Definition rotate_left_successor (t : tree) : option tree :=
  match t with
  | T k s (T _ _ ll lr _ as l) r h =>
      rotate_right (if height ll <? height lr
                    then node k s (or_empty (rotate_left l)) r
                    else T k s l r h)
  | _ => None
  end.
Definition rotate_right_successor (t : tree) : option tree :=
  match t with
  | T k s l (T _ _ rl rr _ as r) h =>
      rotate_left (if height rr <? height rl
                   then node k s l (or_empty (rotate_right r))
                   else T k s l r h)
  | _ => None
  end.

(** [rotate]. *)
Definition rotate (t : tree) : Result tree :=
  match t with
  | E => Stuck
  | T _ _ l r _ =>
      let d := height l - height r in
      if (-1 <=? d) && (d <=? 1) then Ok t
      else if d =? 2 then unwrap (rotate_left_successor t)
      else if d =? -2 then unwrap (rotate_right_successor t)
      else Stuck
  end.

(** [get_new_root]: the key and state of the minimum, and the rest. *)
Fixpoint get_new_root (t : tree) : Result (RangeInclusive * NodeState * tree) :=
  match t with
  | E => Stuck
  | T k s E r _ => Ok (k, s, r)
  | T k s l r _ =>
      '(k', s', l') ← get_new_root l;
      t' ← rotate (node k s l' r);
      Ok (k', s', t')
  end.

(** [combine_subtrees], [delete_root]. *)
Definition combine_subtrees (l r : tree) : Result tree :=
  '(k, s, rest) ← get_new_root r;
  rotate (node k s l rest).

Definition delete_root (t : tree) : Result tree :=
  match t with
  | E => Stuck
  | T _ _ E E _ => Ok E
  | T _ _ l E _ => Ok l
  | T _ _ E r _ => Ok r
  | T _ _ l r _ => combine_subtrees l r
  end.

(** [InnerNode::insert]. *)
Fixpoint node_insert (key : RangeInclusive) (st : NodeState) (t : tree) : Result tree :=
  match t with
  | E => Ok (leaf key st)
  | T k s l r h =>
      if 50 <? h + 1 then Err Overflow
      else if overlaps k key then Err (Overlap key k)
      else match range_cmp k key with
           | Eq => Stuck
           | Lt => r' ← node_insert key st r; rotate (node k s l r')
           | Gt => l' ← node_insert key st l; rotate (node k s l' r)
           end
  end.

(** [InnerNode::mark_as_allocated]. *)
Fixpoint node_mark (key : RangeInclusive) (t : tree) : Result tree :=
  match t with
  | E => Err ResourceNotAvailable
  | T k s l r h =>
      match range_cmp k key with
      | Eq => if bool_decide (s = Free) then Ok (T k Allocated l r h)
              else Err (InvalidStateTransition k s)
      | Lt => r' ← node_mark key r; Ok (T k s l r' h)
      | Gt => l' ← node_mark key l; Ok (T k s l' r h)
      end
  end.

(** [InnerNode::delete]. *)
Fixpoint node_delete (key : RangeInclusive) (t : tree) : Result tree :=
  match t with
  | E => Stuck
  | T k s l r h =>
      match range_cmp k key with
      | Eq => delete_root t
      | Lt => match r with
              | E => Ok t
              | _ => r' ← node_delete key r; rotate (node k s l r')
              end
      | Gt => match l with
              | E => Ok t
              | _ => l' ← node_delete key l; rotate (node k s l' r)
              end
      end
  end.

(** [check_constraint]. *)
Definition check_constraint (c : Constraint) (k : RangeInclusive) (s : NodeState) : Result RangeInclusive :=
  if negb (bool_decide (s = Free)) || (len k <? csize c) then Err ResourceNotAvailable
  else
    range_start ←
      match cpolicy c with
      | FirstMatch => align_up (ra_start k) (calign c)
      | LastMatch =>
          t ← ok_or (checked_sub (ra_end k) (csize c)) Underflow;
          candidate ← ok_or (checked_add 64 t 1) Overflow;
          aligned ← align_down candidate (calign c);
          if aligned <? ra_start k then Err UnalignedAddress else Ok aligned
      | ExactMatch _ => Stuck
      end;
    key ← range_new range_start (ra_end k);
    if csize c <=? len key then Ok key else Err ResourceNotAvailable.

(** [first_match], [last_match]: an error of [check_constraint] counts as
    "not available". *)
Definition candidate (c : Constraint) (k : RangeInclusive) (s : NodeState) :
    Result (RangeInclusive * RangeInclusive) :=
  match check_constraint c k s with
  | Ok r => Ok (k, r)
  | Err _ => Err ResourceNotAvailable
  | Stuck => Stuck
  end.

Definition or_else {A} (r : Result A) (f : Result A) : Result A :=
  match r with Err ResourceNotAvailable => f | _ => r end.

Fixpoint first_match (c : Constraint) (t : tree) : Result (RangeInclusive * RangeInclusive) :=
  match t with
  | E => Err ResourceNotAvailable
  | T k s l r _ => or_else (or_else (first_match c l) (candidate c k s)) (first_match c r)
  end.
Fixpoint last_match (c : Constraint) (t : tree) : Result (RangeInclusive * RangeInclusive) :=
  match t with
  | E => Err ResourceNotAvailable
  | T k s l r _ => or_else (or_else (last_match c r) (candidate c k s)) (last_match c l)
  end.

(** [find_candidate]: the key of the node and the range in it. *)
Definition find_candidate (c : Constraint) (t : tree) : Result (RangeInclusive * RangeInclusive) :=
  match cpolicy c with
  | FirstMatch => first_match c t
  | LastMatch => last_match c t
  | ExactMatch start =>
      next ← ok_or (checked_add 64 start 1) Overflow;
      probe ← range_new start next;
      '(k, _) ← ok_or (search_superset probe t) ResourceNotAvailable;
      n ← ok_or (checked_sub (csize c) 1) Underflow;
      end_ ← ok_or (checked_add 64 start n) Overflow;
      r ← range_new start end_;
      if contains k r then Ok (k, r) else Err ResourceNotAvailable
  end.

(** *** [IntervalTree]: the state is the root *)

Notation TM := (M tree Error).

Definition tree_new (key : RangeInclusive) : tree := leaf key Free.

(** [insert]: [root.take()] leaves no tree behind when the insertion fails. *)
Definition tree_insert (key : RangeInclusive) (st : NodeState) : TM unit := λ t,
  match node_insert key st t with
  | Ok t' => (t', Ok tt)
  | Err e => (E, Err e)
  | Stuck => (E, Stuck)
  end.

Definition tree_mark (key : RangeInclusive) : TM unit := λ t,
  match t with
  | E => (t, Ok tt)
  | _ => match node_mark key t with
         | Ok t' => (t', Ok tt)
         | Err e => (t, Err e)
         | Stuck => (t, Stuck)
         end
  end.

Definition tree_delete (key : RangeInclusive) : TM unit := λ t,
  match t with
  | E => (t, Ok tt)
  | _ =>
      match search key t with
      | None => (t, Err ResourceNotAvailable)
      | Some _ =>
          match node_delete key t with
          | Ok t' => (t', Ok tt)
          | Err e => (E, Err e)
          | Stuck => (E, Stuck)
          end
      end
  end.

(** [IntervalTree::allocate]. *)
Definition tree_allocate (c : Constraint) : TM RangeInclusive :=
  root ← get;
  '(node_key, range) ← lift (match root with E => Err ResourceNotAvailable | _ => find_candidate c root end);
  t ← lift (ok_or (checked_add 64 (ra_start range) (csize c)) Overflow);
  end_ ← lift (ok_or (checked_sub t 1) Underflow);
  result ← lift (range_new (ra_start range) end_);
  if (ra_start node_key =? ra_start result) && (len node_key =? csize c) then
    _ ← tree_mark node_key;
    mret node_key
  else
    _ ← tree_delete node_key;
    _ ← (if ra_start node_key <? ra_start result then
           e ← lift (ok_or (checked_sub (ra_start result) 1) Overflow);
           k ← lift (range_new (ra_start node_key) e);
           tree_insert k Free
         else mret tt);
    _ ← tree_insert result Allocated;
    _ ← (if ra_end result <? ra_end node_key then
           s ← lift (ok_or (checked_add 64 (ra_end result) 1) Overflow);
           k ← lift (range_new s (ra_end node_key));
           tree_insert k Free
         else mret tt);
    mret result.

(** [IntervalTree::free]. *)
Definition tree_free (key : RangeInclusive) : TM unit :=
  _ ← tree_delete key;
  t ← get;
  range ←
    (if 0 <? ra_start key then
       a ← lift (ok_or (checked_sub (ra_start key) 2) Underflow);
       b ← lift (ok_or (checked_sub (ra_start key) 1) Underflow);
       probe ← lift (range_new a b);
       match search_superset probe t with
       | Some (k, Free) => lift (range_new (ra_start k) (ra_end key))
       | _ => mret key
       end
     else mret key);
  range' ←
    (if ra_end range <? u64_max then
       a ← lift (ok_or (checked_add 64 (ra_end range) 1) Overflow);
       b ← lift (ok_or (checked_add 64 (ra_end range) 2) Overflow);
       probe ← lift (range_new a b);
       match search_superset probe t with
       | Some (k, Free) => lift (range_new (ra_start range) (ra_end k))
       | _ => mret range
       end
     else mret range);
  _ ← (if ra_start range' <? ra_start key then
         e ← lift (ok_or (checked_sub (ra_start key) 1) Underflow);
         k ← lift (range_new (ra_start range') e);
         tree_delete k
       else mret tt);
  _ ← (if ra_end key <? ra_end range' then
         s ← lift (ok_or (checked_add 64 (ra_end key) 1) Overflow);
         k ← lift (range_new s (ra_end range'));
         tree_delete k
       else mret tt);
  tree_insert range' Free.

(** ** address_allocator.rs *)

Record AddressAllocator : Type := mk_AddressAllocator {
  address_space : RangeInclusive;
  interval_tree : tree
}.

Definition allocator_new (base size : Z) : Result AddressAllocator :=
  n ← ok_or (checked_sub size 1) Underflow;
  end_ ← ok_or (checked_add 64 base n) Overflow;
  r ← range_new base end_;
  Ok (mk_AddressAllocator r (tree_new r)).

Definition on_tree {A} (f : TM A) : M AddressAllocator Error A := λ a,
  let '(t, r) := f (interval_tree a) in (mk_AddressAllocator (address_space a) t, r).

Definition allocate (size alignment : Z) (policy : AllocPolicy) : M AddressAllocator Error RangeInclusive :=
  c ← lift (constraint_new size alignment policy);
  on_tree (tree_allocate c).

Definition free (key : RangeInclusive) : M AddressAllocator Error unit := on_tree (tree_free key).

(** ** bar_alloc.rs *)

Record SimpleBarAllocator : Type := mk_SimpleBarAllocator {
  mem32 : option AddressAllocator;
  mem64 : option AddressAllocator;
  mem32_pref : option AddressAllocator;
  mem64_pref : option AddressAllocator
}.

Definition set_mem32 (address size : Z) (prefetchable : bool) : M SimpleBarAllocator Error unit :=
  a ← lift (allocator_new address size);
  modify (λ s, if prefetchable
    then mk_SimpleBarAllocator (mem32 s) (mem64 s) (Some a) (mem64_pref s)
    else mk_SimpleBarAllocator (Some a) (mem64 s) (mem32_pref s) (mem64_pref s)).
Definition set_mem64 (address size : Z) (prefetchable : bool) : M SimpleBarAllocator Error unit :=
  a ← lift (allocator_new address size);
  modify (λ s, if prefetchable
    then mk_SimpleBarAllocator (mem32 s) (mem64 s) (mem32_pref s) (Some a)
    else mk_SimpleBarAllocator (mem32 s) (Some a) (mem32_pref s) (mem64_pref s)).

(** Allocation from one window: [None] also when there is no window. *)
Definition window_alloc (size : Z) (w : option AddressAllocator) : option AddressAllocator * option Z :=
  match w with
  | None => (None, None)
  | Some a =>
      match allocate size size FirstMatch a with
      | (a', Ok r) => (Some a', Some (ra_start r))
      | (a', _) => (Some a', None)
      end
  end.

(** [alloc_memory32] and [alloc_memory64]: the prefetchable window first when
    asked for, then the other one. *)
Definition alloc_memory32 (size : Z) (prefetchable : bool) (s : SimpleBarAllocator) :
    SimpleBarAllocator * option Z :=
  let '(pref, o) := if prefetchable then window_alloc size (mem32_pref s) else (mem32_pref s, None) in
  match o with
  | Some a => (mk_SimpleBarAllocator (mem32 s) (mem64 s) pref (mem64_pref s), Some (a mod 2 ^ 32))
  | None =>
      let '(w, o') := window_alloc size (mem32 s) in
      (mk_SimpleBarAllocator w (mem64 s) pref (mem64_pref s), (λ a, a mod 2 ^ 32) <$> o')
  end.
Definition alloc_memory64 (size : Z) (prefetchable : bool) (s : SimpleBarAllocator) :
    SimpleBarAllocator * option Z :=
  let '(pref, o) := if prefetchable then window_alloc size (mem64_pref s) else (mem64_pref s, None) in
  match o with
  | Some a => (mk_SimpleBarAllocator (mem32 s) (mem64 s) (mem32_pref s) pref, Some a)
  | None =>
      let '(w, o') := window_alloc size (mem64 s) in
      (mk_SimpleBarAllocator (mem32 s) w (mem32_pref s) pref, o')
  end.

(** ** id_allocator.rs *)

Record IdAllocator : Type := mk_IdAllocator {
  range_base : Z;
  next_id : option Z;
  range_end : Z;
  freed_ids : gset Z
}.

Definition id_new (base end_ : Z) : Result IdAllocator :=
  if end_ <? base then Err (InvalidRange base end_)
  else Ok (mk_IdAllocator base (Some base) end_ ∅).

(** The first element of a [BTreeSet]. *)
Definition set_min (X : gset Z) : option Z :=
  foldr (λ x o, match o with Some y => Some (Z.min x y) | None => Some x end) None (elements X).

Definition allocate_id : M IdAllocator Error Z := λ a,
  match set_min (freed_ids a) with
  | Some id =>
      (mk_IdAllocator (range_base a) (next_id a) (range_end a) (freed_ids a ∖ {[id]}), Ok id)
  | None =>
      match next_id a with
      | Some n =>
          if range_end a <? n then (a, Err ResourceNotAvailable)
          else (mk_IdAllocator (range_base a) (checked_add 32 n 1) (range_end a) (freed_ids a), Ok n)
      | None => (a, Err Overflow)
      end
  end.

Definition free_id (id : Z) : M IdAllocator Error Z := λ a,
  if negb ((range_base a <=? id) && (id <=? range_end a)) then (a, Err (OutOfRange id))
  else
    let never := match next_id a with Some n => n <? id | None => false end in
    if never then (a, Err (NeverAllocated id))
    else if bool_decide (id ∈ freed_ids a) then (a, Err (AlreadyReleased id))
    else (mk_IdAllocator (range_base a) (next_id a) (range_end a) ({[id]} ∪ freed_ids a), Ok id).
