(* ===== verification/AddrTree.v ===== *)
(** * The interval tree: balance and contents

    The tree is an AVL tree with exact cached heights ([avl]) whose in-order
    list of ranges is strictly increasing and does not overlap ([ordered]).
    [rotate] restores the balance of a node whose subtrees differ by two,
    insertion and deletion keep both invariants, never panic, and act on the
    in-order list as insertion and removal. *)

From stdpp Require Import base list numbers sorting.
From S2P Require Import Prelude AddrAlloc.
Open Scope Z_scope.

Notation seg := (RangeInclusive * NodeState)%type.

Fixpoint inorder (t : tree) : list seg :=
  match t with
  | E => []
  | T k s l r _ => inorder l ++ (k, s) :: inorder r
  end.

Fixpoint avl (t : tree) : Prop :=
  match t with
  | E => True
  | T _ _ l r h => avl l ∧ avl r ∧ h = Z.max (height l) (height r) + 1 ∧
      -1 ≤ height l - height r ≤ 1
  end.

Lemma avl_height t : avl t → 0 ≤ height t.
Proof.
  induction t as [|k s l IHl r IHr h]; simpl; [lia|]. intros (Hl & Hr & -> & _).
  specialize (IHl Hl). lia.
Qed.

Lemma avl_height_0 t : avl t → height t ≤ 0 → t = E.
Proof.
  destruct t as [|k s l r h]; [done|]. simpl. intros (Hl%avl_height & Hr & -> & _) ?. lia.
Qed.

(** Open the invariant of every subtree in sight. *)
Ltac open_avl :=
  repeat match goal with
  | H : avl (T _ _ _ _ _) |- _ => destruct H as (? & ? & ? & ?)
  | H : avl ?t |- _ =>
      lazymatch goal with
      | _ : 0 ≤ height t |- _ => fail
      | _ => pose proof (avl_height t H)
      end
  end.

(** ** Rotation *)

(** A node whose subtrees differ by at most two becomes a balanced tree with
    the same contents, of the same height or one less. *)
Lemma rotate_node k s l r :
  avl l → avl r → -2 ≤ height l - height r ≤ 2 →
  ∃ t, rotate (node k s l r) = Ok t ∧ avl t ∧ inorder t = inorder l ++ (k, s) :: inorder r ∧
    Z.max (height l) (height r) ≤ height t ≤ Z.max (height l) (height r) + 1 ∧
    (-1 ≤ height l - height r ≤ 1 → height t = Z.max (height l) (height r) + 1).
Proof.
  intros Hl Hr Hd. unfold rotate, node at 1.
  destruct (decide (-1 ≤ height l - height r ≤ 1)).
  { rewrite (proj2 (Z.leb_le _ _)), (proj2 (Z.leb_le _ _)) by lia. simpl.
    eexists. split; [done|]. simpl. split_and!; done || lia. }
  destruct (decide (height l - height r = 2)) as [E2|Hn2].
  - rewrite (proj2 (Z.leb_le (-1) _)), (proj2 (Z.leb_gt _ 1)), (proj2 (Z.eqb_eq _ 2)) by lia. simpl.
    destruct l as [|kl sl ll lr hl]; [pose proof (avl_height r Hr); simpl in *; lia|].
    unfold rotate_left_successor, node at 1. destruct (Z.ltb_spec (height ll) (height lr)).
    + destruct lr as [|km sm ml mr hm]; [open_avl; simpl in *; lia|]. simpl.
      eexists. split; [done|]. open_avl. simpl in *. rewrite <- !app_assoc. simpl. rewrite <- ?app_assoc. simpl.
      split_and!; done || lia.
    + simpl. eexists. split; [done|]. open_avl. simpl in *. rewrite <- app_assoc. simpl. split_and!; done || lia.
  - rewrite (proj2 (Z.leb_gt (-1) _)) by lia. simpl.
    rewrite (proj2 (Z.eqb_neq _ 2)), (proj2 (Z.eqb_eq _ (-2))) by lia.
    destruct r as [|kr sr rl rr hr]; [pose proof (avl_height l Hl); simpl in *; lia|].
    unfold rotate_right_successor, node at 1. destruct (Z.ltb_spec (height rr) (height rl)).
    + destruct rl as [|km sm ml mr hm]; [open_avl; simpl in *; lia|]. simpl.
      eexists. split; [done|]. open_avl. simpl in *. rewrite <- !app_assoc. simpl.
      split_and!; done || lia.
    + simpl. eexists. split; [done|]. open_avl. simpl in *. rewrite <- app_assoc. simpl. split_and!; done || lia.
Qed.

(** ** Removing a node *)

#[local] Arguments rotate : simpl never.

Lemma get_new_root_T k s l r h : l ≠ E →
  get_new_root (T k s l r h) =
    ('(k', s', l') ← get_new_root l; t' ← rotate (node k s l' r); Ok (k', s', t')).
Proof. by destruct l. Qed.

Lemma get_new_root_spec t : avl t → t ≠ E →
  ∃ k s t', get_new_root t = Ok (k, s, t') ∧ avl t' ∧ inorder t = (k, s) :: inorder t' ∧
    height t - 1 ≤ height t' ≤ height t.
Proof.
  induction t as [|k s l IHl r _ h]; [done|]. intros (Hl & Hr & Eh & Hd) _.
  destruct (decide (l = E)) as [->|Hne].
  { exists k, s, r. pose proof (avl_height r Hr). simpl in *. split_and!; done || lia. }
  destruct (IHl Hl Hne) as (k' & s' & l' & E' & Hl' & Ei & Hh).
  rewrite get_new_root_T, E' by done. simpl mbind. cbv beta iota.
  destruct (rotate_node k s l' r Hl' Hr) as (t' & Et & Ht' & Hi' & Hh' & Heq); [lia|].
  exists k', s', t'. simpl. rewrite Et, Hi', Ei. split_and!; try done; lia.
Qed.

Lemma combine_spec l r : avl l → avl r → r ≠ E → -1 ≤ height l - height r ≤ 1 →
  ∃ t, combine_subtrees l r = Ok t ∧ avl t ∧ inorder t = inorder l ++ inorder r ∧
    Z.max (height l) (height r) ≤ height t ≤ Z.max (height l) (height r) + 1.
Proof.
  intros Hl Hr Hne Hd. destruct (get_new_root_spec r Hr Hne) as (k & s & r' & E' & Hr' & Ei & Hh).
  unfold combine_subtrees. rewrite E'. simpl.
  destruct (rotate_node k s l r' Hl Hr') as (t & Et & Ht & Hi & Hh' & Heq); [lia|].
  exists t. rewrite Hi, Ei. split_and!; try done; lia.
Qed.

Lemma delete_root_spec k s l r h : avl (T k s l r h) →
  ∃ t, delete_root (T k s l r h) = Ok t ∧ avl t ∧ inorder t = inorder l ++ inorder r ∧
    h - 1 ≤ height t ≤ h.
Proof.
  intros (Hl & Hr & Eh & Hd). destruct (decide (l = E)) as [->|Hln]; [|destruct (decide (r = E)) as [->|Hrn]].
  - exists r. pose proof (avl_height r Hr). simpl in *. destruct r; split_and!; done || (simpl in *; lia).
  - exists l. pose proof (avl_height l Hl). rewrite app_nil_r. simpl in *. destruct l; split_and!; done || (simpl in *; lia).
  - destruct (combine_spec l r Hl Hr Hrn Hd) as (t & Et & Ht & Hi & Hh).
    exists t. split_and!; try done; try lia. destruct l, r; done.
Qed.

(** ** Order *)

(** Consecutive ranges are disjoint and increasing. *)
Definition before (a b : seg) : Prop := ra_end a.1 < ra_start b.1.
Definition ordered (l : list seg) : Prop := StronglySorted before l.
Definition valid_range (r : RangeInclusive) : Prop :=
  0 ≤ ra_start r ≤ ra_end r ∧ ra_end r < 2 ^ 64 ∧ len r < 2 ^ 64.
Definition valid_segs (l : list seg) : Prop := Forall (λ p, valid_range p.1) l.

Lemma range_cmp_spec a b :
  match range_cmp a b with
  | Eq => a = b
  | Lt => ra_start a < ra_start b ∨ (ra_start a = ra_start b ∧ ra_end a < ra_end b)
  | Gt => ra_start b < ra_start a ∨ (ra_start a = ra_start b ∧ ra_end b < ra_end a)
  end.
Proof.
  destruct a as [s e], b as [s' e']. unfold range_cmp. simpl.
  destruct (Z.compare_spec s s'); subst; [|lia|lia]. destruct (Z.compare_spec e e'); subst; done || lia.
Qed.

Lemma ordered_node k s l r h : ordered (inorder (T k s l r h)) →
  ordered (inorder l) ∧ ordered (inorder r) ∧
  (∀ p, p ∈ inorder l → ra_end p.1 < ra_start k) ∧ (∀ p, p ∈ inorder r → ra_end k < ra_start p.1) ∧
  (∀ p q, p ∈ inorder l → q ∈ inorder r → before p q).
Proof.
  simpl. unfold ordered. rewrite StronglySorted_app. intros (Hc & Hl & Hr).
  inversion_clear Hr as [|?? Hr' Ha]. split_and!; try done.
  - intros p Hp. by apply (Hc p (k, s)); [|apply list_elem_of_here].
  - intros p Hp. by apply (proj1 (Forall_forall _ _) Ha p).
  - intros p q Hp Hq. apply Hc; [done|by apply list_elem_of_further].
Qed.

Lemma valid_node k s l r h : valid_segs (inorder (T k s l r h)) →
  valid_segs (inorder l) ∧ valid_range k ∧ valid_segs (inorder r).
Proof. simpl. unfold valid_segs. rewrite Forall_app, Forall_cons. naive_solver. Qed.

(** ** Lookup *)

Lemma search_spec key t : ordered (inorder t) → valid_segs (inorder t) →
  match search key t with
  | Some (k, s) => k = key ∧ (k, s) ∈ inorder t
  | None => ∀ s, (key, s) ∉ inorder t
  end.
Proof.
  induction t as [|k s l IHl r IHr h]; intros Ho Hv; [by intros s ?%not_elem_of_nil|].
  apply ordered_node in Ho as (Hol & Hor & Hl & Hr & _). apply valid_node in Hv as (Hvl & Hvk & Hvr).
  simpl. pose proof (range_cmp_spec k key) as Hc. destruct (range_cmp k key).
  - subst. split; [done|]. apply elem_of_app. right. apply list_elem_of_here.
  - specialize (IHr Hor Hvr). destruct (search key r) as [[k' s']|].
    + destruct IHr as [-> ?]. split; [done|]. apply elem_of_app. right. by apply list_elem_of_further.
    + intros s'. rewrite elem_of_app, elem_of_cons. intros [Hin|[[= -> ->]|Hin]]; [|lia|by apply (IHr s')].
      specialize (Hl _ Hin). simpl in Hl. pose proof (proj1 (Forall_forall _ _) Hvl _ Hin) as [? _]. simpl in *. lia.
  - specialize (IHl Hol Hvl). destruct (search key l) as [[k' s']|].
    + destruct IHl as [-> ?]. split; [done|]. apply elem_of_app. by left.
    + intros s'. rewrite elem_of_app, elem_of_cons. intros [Hin|[[= -> ->]|Hin]]; [by apply (IHl s')|lia|].
      specialize (Hr _ Hin). simpl in Hr. pose proof (proj1 (Forall_forall _ _) Hvr _ Hin) as [? _].
      destruct Hvk as [? _]. simpl in *. lia.
Qed.

Lemma search_superset_spec key t : ordered (inorder t) → valid_segs (inorder t) → ra_start key ≤ ra_end key →
  match search_superset key t with
  | Some (k, s) => (k, s) ∈ inorder t ∧ contains k key = true
  | None => ∀ k s, (k, s) ∈ inorder t → contains k key = false
  end.
Proof.
  intros Ho Hv Hk. induction t as [|k s l IHl r IHr h]; [by intros k s ?%not_elem_of_nil|].
  apply ordered_node in Ho as (Hol & Hor & Hl & Hr & _). apply valid_node in Hv as (Hvl & Hvk & Hvr).
  simpl. destruct (contains k key) eqn:Ec.
  { split; [|done]. apply elem_of_app. right. apply list_elem_of_here. }
  unfold contains in *. destruct (Z.ltb_spec (ra_end key) (ra_start k)).
  - specialize (IHl Hol Hvl). destruct (search_superset key l) as [[k' s']|].
    + destruct IHl. split; [|done]. apply elem_of_app. by left.
    + intros k' s'. rewrite elem_of_app, elem_of_cons. intros [Hin|[[= -> ->]|Hin]]; [by eapply IHl|done|].
      specialize (Hr _ Hin). destruct Hvk as [? _]. simpl in *. rewrite (proj2 (Z.leb_gt _ _)) by lia. done.
  - specialize (IHr Hor Hvr). destruct (search_superset key r) as [[k' s']|].
    + destruct IHr. split; [|done]. apply elem_of_app. right. by apply list_elem_of_further.
    + intros k' s'. rewrite elem_of_app, elem_of_cons. intros [Hin|[[= -> ->]|Hin]]; [|done|by eapply IHr].
      specialize (Hl _ Hin). simpl in *. apply andb_false_iff. rewrite !Z.leb_gt. right. lia.
Qed.

(** ** Insertion *)

Definition fits_between (key : RangeInclusive) (l1 l2 : list seg) : Prop :=
  (∀ p, p ∈ l1 → ra_end p.1 < ra_start key) ∧ (∀ p, p ∈ l2 → ra_end key < ra_start p.1).

Lemma insert_spec key st t : avl t → ordered (inorder t) → valid_segs (inorder t) →
  height t ≤ 49 → valid_range key → (∀ p, p ∈ inorder t → overlaps p.1 key = false) →
  ∃ t' l1 l2, node_insert key st t = Ok t' ∧ avl t' ∧ inorder t = l1 ++ l2 ∧
    inorder t' = l1 ++ (key, st) :: l2 ∧ fits_between key l1 l2 ∧
    height t ≤ height t' ≤ height t + 1.
Proof.
  intros Ha Ho Hv Hh Hkey Hno. induction t as [|k s l IHl r IHr h].
  { exists (leaf key st), [], []. simpl. split_and!; try done; try lia.
    split; by intros p ?%not_elem_of_nil. }
  pose proof Ho as (Hol & Hor & Hl & Hr & _)%ordered_node. pose proof Hv as (Hvl & Hvk & Hvr)%valid_node.
  destruct Ha as (Hal & Har & Eh & Hd). simpl in Hh.
  pose proof (avl_height l Hal). pose proof (avl_height r Har).
  assert (Hok : overlaps k key = false).
  { apply (Hno (k, s)). apply elem_of_app. right. apply list_elem_of_here. }
  simpl. rewrite (proj2 (Z.ltb_ge 50 _)) by lia. rewrite Hok.
  unfold overlaps in Hok. apply Z.leb_gt in Hok. destruct Hvk as [? _]. pose proof Hkey as [? _].
  pose proof (range_cmp_spec k key) as Hc. destruct (range_cmp k key); [subst; lia| |].
  - destruct IHr as (r' & l1 & l2 & -> & Har' & Ei & Ei' & (Hf1 & Hf2) & Hhr); [done..|lia| |].
    { intros p Hp. apply Hno. apply elem_of_app. right. by apply list_elem_of_further. }
    simpl. destruct (rotate_node k s l r' Hal Har') as (t' & Et & Hat & Hi & Hht & Heq); [lia|].
    exists t', (inorder l ++ (k, s) :: l1), l2. rewrite Hi, Ei, Ei'.
    split_and!; try done; try (rewrite <- app_assoc; done); [|lia|lia].
    split; [|done]. intros p. rewrite elem_of_app, elem_of_cons. intros [Hp|[->|Hp]]; [|simpl; lia|by apply Hf1].
    specialize (Hl _ Hp). lia.
  - destruct IHl as (l' & l1 & l2 & -> & Hal' & Ei & Ei' & (Hf1 & Hf2) & Hhl); [done..|lia| |].
    { intros p Hp. apply Hno. apply elem_of_app. by left. }
    simpl. destruct (rotate_node k s l' r Hal' Har) as (t' & Et & Hat & Hi & Hht & Heq); [lia|].
    exists t', l1, (l2 ++ (k, s) :: inorder r). rewrite Hi, Ei, Ei'.
    split_and!; try done; try (rewrite <- app_assoc; done); [|lia|lia].
    split; [done|]. intros p. rewrite elem_of_app, elem_of_cons. intros [Hp|[->|Hp]]; [by apply Hf2|simpl; lia|].
    specialize (Hr _ Hp). lia.
Qed.

(** ** Deletion *)

Lemma delete_spec key t : avl t → ordered (inorder t) → valid_segs (inorder t) →
  (∃ s, (key, s) ∈ inorder t) →
  ∃ t' l1 s l2, node_delete key t = Ok t' ∧ avl t' ∧ inorder t = l1 ++ (key, s) :: l2 ∧
    inorder t' = l1 ++ l2 ∧ height t - 1 ≤ height t' ≤ height t.
Proof.
  intros Ha Ho Hv. induction t as [|k s l IHl r IHr h]; [by intros [s ?%not_elem_of_nil]|].
  intros [s0 Hin]. pose proof Ho as (Hol & Hor & Hl & Hr & _)%ordered_node.
  pose proof Hv as (Hvl & Hvk & Hvr)%valid_node. pose proof Ha as (Hal & Har & Eh & Hd).
  simpl. pose proof (range_cmp_spec k key) as Hc. simpl in Hin. rewrite elem_of_app, elem_of_cons in Hin.
  destruct (range_cmp k key).
  - subst k. destruct (delete_root_spec key s l r h Ha) as (t' & Et & Hat & Hi & Hh).
    exists t', (inorder l), s, (inorder r). done.
  - assert (Hir : (key, s0) ∈ inorder r).
    { destruct Hin as [Hin|[[= -> ->]|Hin]]; [|lia|done]. specialize (Hl _ Hin). simpl in Hl.
      pose proof (proj1 (Forall_forall _ _) Hvl _ Hin) as [? _]. simpl in *. lia. }
    destruct IHr as (r' & l1 & s' & l2 & Er & Har' & Ei & Ei' & Hh); [done..|by eexists|].
    destruct (rotate_node k s l r' Hal Har') as (t' & Et & Hat & Hi & Hht & Heq); [lia|].
    exists t', (inorder l ++ (k, s) :: l1), s', l2. rewrite Hi, Ei, Ei'.
    destruct r; [by apply not_elem_of_nil in Hir|]. rewrite Er. simpl in *.
    split_and!; try done; try (rewrite <- app_assoc; done); lia.
  - assert (Hil : (key, s0) ∈ inorder l).
    { destruct Hin as [Hin|[[= -> ->]|Hin]]; [done|lia|]. specialize (Hr _ Hin). simpl in Hr.
      pose proof (proj1 (Forall_forall _ _) Hvr _ Hin) as [? _]. destruct Hvk as [? _]. simpl in *. lia. }
    destruct IHl as (l' & l1 & s' & l2 & El & Hal' & Ei & Ei' & Hh); [done..|by eexists|].
    destruct (rotate_node k s l' r Hal' Har) as (t' & Et & Hat & Hi & Hht & Heq); [lia|].
    exists t', l1, s', (l2 ++ (k, s) :: inorder r). rewrite Hi, Ei, Ei'.
    destruct l; [by apply not_elem_of_nil in Hil|]. rewrite El. simpl in *.
    split_and!; try done; try (rewrite <- app_assoc; done); lia.
Qed.

(** ** Marking *)

Lemma mark_spec key t : avl t → ordered (inorder t) → valid_segs (inorder t) →
  (key, Free) ∈ inorder t →
  ∃ t' l1 l2, node_mark key t = Ok t' ∧ avl t' ∧ inorder t = l1 ++ (key, Free) :: l2 ∧
    inorder t' = l1 ++ (key, Allocated) :: l2 ∧ height t' = height t.
Proof.
  intros Ha Ho Hv. induction t as [|k s l IHl r IHr h]; [by intros ?%not_elem_of_nil|].
  intros Hin. pose proof Ho as (Hol & Hor & Hl & Hr & _)%ordered_node.
  pose proof Hv as (Hvl & Hvk & Hvr)%valid_node. pose proof Ha as (Hal & Har & Eh & Hd).
  simpl. pose proof (range_cmp_spec k key) as Hc. simpl in Hin. rewrite elem_of_app, elem_of_cons in Hin.
  destruct Hvk as [? _]. destruct (range_cmp k key).
  - subst k. destruct Hin as [Hin|[[= <-]|Hin]].
    + specialize (Hl _ Hin). simpl in Hl. lia.
    + rewrite bool_decide_eq_true_2 by done. exists (T key Allocated l r h), (inorder l), (inorder r). done.
    + specialize (Hr _ Hin). simpl in Hr. lia.
  - destruct IHr as (r' & l1 & l2 & -> & Har' & Ei & Ei' & Hh); [done..| |].
    { destruct Hin as [Hin|[[= -> ->]|Hin]]; [|lia|done]. specialize (Hl _ Hin). simpl in Hl.
      pose proof (proj1 (Forall_forall _ _) Hvl _ Hin) as [? _]. simpl in *. lia. }
    exists (T k s l r' h), (inorder l ++ (k, s) :: l1), l2. simpl. rewrite Ei, Ei', Hh.
    split_and!; done || lia || by rewrite <- app_assoc.
  - destruct IHl as (l' & l1 & l2 & -> & Hal' & Ei & Ei' & Hh); [done..| |].
    { destruct Hin as [Hin|[[= -> ->]|Hin]]; [done|lia|]. specialize (Hr _ Hin). simpl in Hr.
      pose proof (proj1 (Forall_forall _ _) Hvr _ Hin) as [? _]. simpl in *. lia. }
    exists (T k s l' r h), l1, (l2 ++ (k, s) :: inorder r). simpl. rewrite Ei, Ei', Hh.
    split_and!; done || lia || by rewrite <- app_assoc.
Qed.
