(* ===== verification/AddrAllocProof.v ===== *)
(** * The address allocator refines a map from addresses to states

    The contents of an interval tree are read as the state of each address:
    free, allocated or not managed. Allocation finds the lowest (or highest)
    aligned block inside a free range and turns exactly its addresses from free
    to allocated; freeing a range turns exactly its addresses free; both keep
    the tree a balanced tree of disjoint ranges and never panic. *)

From stdpp Require Import base list numbers sorting gmap.
From S2P Require Import Prelude AddrAlloc AddrTree.
Open Scope Z_scope.

Definition wf (t : tree) : Prop :=
  avl t ∧ ordered (inorder t) ∧ valid_segs (inorder t).

(** ** Lists of ranges *)

Lemma ordered_fits l1 k s l2 : ordered (l1 ++ (k, s) :: l2) → fits_between k l1 l2.
Proof.
  unfold ordered. rewrite StronglySorted_app. intros (Hc & _ & H2).
  inversion_clear H2 as [|?? _ Ha]. split; intros p Hp.
  - by apply (Hc p (k, s)); [|apply list_elem_of_here].
  - by apply (proj1 (Forall_forall _ _) Ha p).
Qed.

Lemma ordered_remove l1 k s l2 : ordered (l1 ++ (k, s) :: l2) → ordered (l1 ++ l2).
Proof.
  unfold ordered. rewrite !StronglySorted_app. intros (Hc & H1 & H2).
  inversion_clear H2 as [|?? H2' Ha]. split_and!; try done.
  intros p q Hp Hq. apply Hc; [done|by apply list_elem_of_further].
Qed.

Lemma ordered_add l1 k s l2 : ordered (l1 ++ l2) → fits_between k l1 l2 → ordered (l1 ++ (k, s) :: l2).
Proof.
  unfold ordered. rewrite !StronglySorted_app. intros (Hc & H1 & H2) [Hb Ha]. split_and!; [|done|].
  - intros p q Hp. rewrite elem_of_cons. intros [->|Hq]; [by apply Hb|by apply Hc].
  - constructor; [done|]. apply Forall_forall. intros q Hq. by apply Ha.
Qed.

Lemma fits_valid_lt k l1 l2 p : fits_between k l1 l2 → valid_segs (l1 ++ l2) →
  ra_start k ≤ ra_end k → (p ∈ l1 → ra_start p.1 < ra_start k) ∧ (p ∈ l2 → ra_end k < ra_end p.1).
Proof.
  intros [H1 H2] Hv Hk. unfold valid_segs in Hv. rewrite Forall_app in Hv. destruct Hv as [Hv1 Hv2].
  split; intros Hp; [specialize (H1 _ Hp); pose proof (proj1 (Forall_forall _ _) Hv1 _ Hp) as [? _]; simpl in *; lia|].
  specialize (H2 _ Hp). pose proof (proj1 (Forall_forall _ _) Hv2 _ Hp) as [? _]. simpl in *. lia.
Qed.

(** The place of a range in an ordered list is unique. *)
Lemma split_unique k l1 l2 l1' l2' :
  ra_start k ≤ ra_end k → valid_segs (l1 ++ l2) → fits_between k l1 l2 → fits_between k l1' l2' →
  l1 ++ l2 = l1' ++ l2' → l1 = l1' ∧ l2 = l2'.
Proof.
  intros Hk. revert l1'. induction l1 as [|p l1 IH]; intros [|p' l1'] Hv Hf Hf' E; simpl in *.
  - done.
  - exfalso. subst l2. pose proof (proj1 Hf' p' (list_elem_of_here _ _)).
    pose proof (proj2 (fits_valid_lt k [] (p' :: l1' ++ l2') p' Hf Hv Hk) (list_elem_of_here _ _)). lia.
  - exfalso. subst l2'. pose proof (proj2 Hf' p (list_elem_of_here _ _)).
    pose proof (proj1 (fits_valid_lt k (p :: l1) l2 p Hf Hv Hk) (list_elem_of_here _ _)). lia.
  - injection E as -> E. apply Forall_cons in Hv as [_ Hv].
    destruct (IH l1' Hv) as [-> ->]; [| |done|done].
    + split; [|by apply Hf]. intros q Hq. apply Hf. by apply list_elem_of_further.
    + split; [|by apply Hf']. intros q Hq. apply Hf'. by apply list_elem_of_further.
Qed.

Lemma valid_segs_mid l1 k s l2 :
  valid_segs (l1 ++ (k, s) :: l2) ↔ valid_range k ∧ valid_segs (l1 ++ l2).
Proof. unfold valid_segs. rewrite !Forall_app, Forall_cons. naive_solver. Qed.

Lemma key_unique k l1 s l2 l1' s' l2' :
  ordered (l1 ++ (k, s) :: l2) → valid_segs (l1 ++ (k, s) :: l2) →
  l1 ++ (k, s) :: l2 = l1' ++ (k, s') :: l2' → l1 = l1' ∧ s = s' ∧ l2 = l2'.
Proof.
  intros Ho Hv E. pose proof (ordered_fits _ _ _ _ Ho) as Hf.
  pose proof Ho as Ho'. rewrite E in Ho'. pose proof (ordered_fits _ _ _ _ Ho') as Hf'.
  apply valid_segs_mid in Hv as Hk. destruct Hk as [[Hk _] Hv'].
  revert l1' E Hf' Ho'. induction l1 as [|p l1 IH]; intros [|p' l1'] E Hf' Ho'; simpl in *.
  - by injection E as -> ->.
  - injection E as <- E. pose proof (proj1 Hf' _ (list_elem_of_here _ _)). simpl in *. lia.
  - injection E as -> E. pose proof (proj1 Hf _ (list_elem_of_here _ _)). simpl in *. lia.
  - injection E as -> E. apply Forall_cons in Hv as [_ Hv]. apply Forall_cons in Hv' as [_ Hv'].
    inversion_clear Ho as [|?? Ho2 _]. inversion_clear Ho' as [|?? Ho2' _].
    destruct (IH Ho2 Hv (ordered_fits _ _ _ _ Ho2) Hv' l1' E) as (-> & -> & ->);
      [by eapply ordered_fits|done|done].
Qed.

(** ** The tree operations on the list of ranges *)

Definition in_range (a : Z) (r : RangeInclusive) : bool := (ra_start r <=? a) && (a <=? ra_end r).

Lemma fits_no_overlap k l1 l2 : fits_between k l1 l2 →
  ∀ p, p ∈ l1 ++ l2 → overlaps p.1 k = false.
Proof.
  intros [H1 H2] p. rewrite elem_of_app. unfold overlaps. rewrite Z.leb_gt.
  intros [Hp|Hp]; [specialize (H1 _ Hp)|specialize (H2 _ Hp)]; lia.
Qed.

Lemma insert_at key st t l1 l2 : wf t → inorder t = l1 ++ l2 → fits_between key l1 l2 →
  valid_range key → height t ≤ 49 →
  ∃ t', tree_insert key st t = (t', Ok tt) ∧ wf t' ∧ inorder t' = l1 ++ (key, st) :: l2 ∧
    height t' ≤ height t + 1.
Proof.
  intros (Ha & Ho & Hv) Ei Hf Hk Hh.
  destruct (insert_spec key st t Ha Ho Hv Hh Hk) as (t' & m1 & m2 & E & Ha' & Ei1 & Ei2 & Hf' & Hh').
  { rewrite Ei. by apply fits_no_overlap. }
  rewrite Ei in Ei1. destruct (split_unique key l1 l2 m1 m2) as [<- <-]; try done; [apply Hk|by rewrite <- Ei|].
  exists t'. unfold tree_insert. rewrite E. split_and!; try done; [|lia]. unfold wf. rewrite Ei2. rewrite Ei in Ho, Hv.
  split_and!; [done|by apply ordered_add|by apply valid_segs_mid].
Qed.

Lemma tree_delete_eq key t : t ≠ AddrAlloc.E → search key t ≠ None →
  tree_delete key t = match node_delete key t with
    | Ok t' => (t', Ok tt) | Err e => (AddrAlloc.E, Err e) | Stuck => (AddrAlloc.E, Stuck) end.
Proof. intros Ht Hs. unfold tree_delete. destruct (search key t) as [[k s]|]; [|done]. by destruct t. Qed.

Lemma delete_at key s t l1 l2 : wf t → inorder t = l1 ++ (key, s) :: l2 →
  ∃ t', tree_delete key t = (t', Ok tt) ∧ wf t' ∧ inorder t' = l1 ++ l2 ∧ height t' ≤ height t.
Proof.
  intros (Ha & Ho & Hv) Ei.
  assert (Hin : (key, s) ∈ inorder t) by (rewrite Ei; apply elem_of_app; right; apply list_elem_of_here).
  destruct (delete_spec key t Ha Ho Hv) as (t' & m1 & s' & m2 & E & Ha' & Ei1 & Ei2 & Hh); [by eexists|].
  rewrite Ei in Ei1, Ho, Hv. destruct (key_unique _ _ _ _ _ _ _ Ho Hv Ei1) as (<- & <- & <-).
  exists t'. rewrite tree_delete_eq, E.
  - split_and!; try done; [|lia]. unfold wf. rewrite Ei2.
    split_and!; [done|by eapply ordered_remove|apply valid_segs_mid in Hv; apply Hv].
  - intros ->. by apply not_elem_of_nil in Hin.
  - rewrite <- Ei in Ho, Hv. pose proof (search_spec key t Ho Hv) as Hs.
    destruct (search key t) as [[]|]; [done|]. by apply Hs in Hin.
Qed.

Lemma mark_at key t l1 l2 : wf t → inorder t = l1 ++ (key, Free) :: l2 →
  ∃ t', tree_mark key t = (t', Ok tt) ∧ wf t' ∧ inorder t' = l1 ++ (key, Allocated) :: l2 ∧
    height t' = height t.
Proof.
  intros (Ha & Ho & Hv) Ei.
  assert (Hin : (key, Free) ∈ inorder t) by (rewrite Ei; apply elem_of_app; right; apply list_elem_of_here).
  destruct (mark_spec key t Ha Ho Hv Hin) as (t' & m1 & m2 & E & Ha' & Ei1 & Ei2 & Hh).
  rewrite Ei in Ei1, Ho, Hv. destruct (key_unique _ _ _ _ _ _ _ Ho Hv Ei1) as (<- & _ & <-).
  exists t'. unfold tree_mark. destruct t; [by apply not_elem_of_nil in Hin|]. rewrite E.
  split_and!; try done. unfold wf. rewrite Ei2. split_and!; [done| |].
  - apply ordered_add; [by eapply ordered_remove|by eapply ordered_fits].
  - apply valid_segs_mid. by apply valid_segs_mid in Hv.
Qed.

(** ** Checked arithmetic in range *)

Lemma range_new_ok s e : 0 ≤ s ≤ e → 0 < s ∨ e < 2 ^ 64 - 1 → range_new s e = Ok (mk_Range s e).
Proof.
  intros H He. unfold range_new, u64_max. rewrite (proj2 (Z.ltb_ge _ _)) by lia. simpl.
  destruct (Z.eqb_spec s 0), (Z.eqb_spec e 18446744073709551615); done || lia.
Qed.

Lemma add_ok {Er} a b (e : Er) : a + b < 2 ^ 64 → ok_or (checked_add 64 a b) e = Ok (a + b).
Proof. intros. unfold checked_add. by rewrite (proj2 (Z.ltb_lt _ _)). Qed.

Lemma sub_ok {Er} a b (e : Er) : b ≤ a → ok_or (checked_sub a b) e = Ok (a - b).
Proof. intros. unfold checked_sub. by rewrite (proj2 (Z.leb_le _ _)). Qed.

(** ** Allocation *)

(** The free ranges left of and right of a block [r] cut out of [k]. *)
Definition left_part (k r : RangeInclusive) : list seg :=
  if ra_start k <? ra_start r then [(mk_Range (ra_start k) (ra_start r - 1), Free)] else [].
Definition right_part (k r : RangeInclusive) : list seg :=
  if ra_end r <? ra_end k then [(mk_Range (ra_end r + 1) (ra_end k), Free)] else [].

Lemma fits_app_l k l1 m l2 : fits_between k l1 l2 → (∀ p, p ∈ m → ra_end p.1 < ra_start k) →
  fits_between k (l1 ++ m) l2.
Proof. intros [H1 H2] Hm. split; [|done]. intros p. rewrite elem_of_app. naive_solver. Qed.

Lemma fits_app_r k l1 m l2 : fits_between k l1 l2 → (∀ p, p ∈ m → ra_end k < ra_start p.1) →
  fits_between k l1 (m ++ l2).
Proof. intros [H1 H2] Hm. split; [done|]. intros p. rewrite elem_of_app. naive_solver. Qed.

Lemma fits_sub k r l1 l2 : fits_between k l1 l2 → ra_start k ≤ ra_start r → ra_end r ≤ ra_end k →
  fits_between r l1 l2.
Proof. intros [H1 H2] ? ?. split; intros p Hp; [specialize (H1 _ Hp)|specialize (H2 _ Hp)]; lia. Qed.

Lemma insert_left k r t l1 l2 : wf t → inorder t = l1 ++ l2 → fits_between k l1 l2 →
  valid_range k → ra_end k < 2 ^ 64 - 1 → ra_start k ≤ ra_start r ≤ ra_end k → height t ≤ 49 →
  ∃ t', (if ra_start k <? ra_start r then
           e ← lift (ok_or (checked_sub (ra_start r) 1) Overflow);
           q ← lift (range_new (ra_start k) e);
           tree_insert q Free
         else mret tt) t = (t', Ok tt) ∧
    wf t' ∧ inorder t' = l1 ++ left_part k r ++ l2 ∧ height t' ≤ height t + 1.
Proof.
  intros Hw Ei Hf [Hk ?] Htop Hr Hh. unfold left_part. destruct (Z.ltb_spec (ra_start k) (ra_start r)).
  - erewrite bind_lift by (apply sub_ok; lia).
    erewrite bind_lift by (apply range_new_ok; lia).
    apply insert_at; try done.
    + eapply fits_sub; [done|simpl; lia..].
    + unfold valid_range, len in *. simpl. lia.
  - exists t. split_and!; try done. lia.
Qed.

Lemma insert_right k r t l1 l2 : wf t → inorder t = l1 ++ l2 →
  valid_range k → ra_end k < 2 ^ 64 - 1 → ra_start k ≤ ra_end r ≤ ra_end k → height t ≤ 49 →
  fits_between (mk_Range (ra_end r + 1) (ra_end k)) l1 l2 →
  ∃ t', (if ra_end r <? ra_end k then
           s ← lift (ok_or (checked_add 64 (ra_end r) 1) Overflow);
           q ← lift (range_new s (ra_end k));
           tree_insert q Free
         else mret tt) t = (t', Ok tt) ∧
    wf t' ∧ inorder t' = l1 ++ right_part k r ++ l2 ∧ height t' ≤ height t + 1.
Proof.
  intros Hw Ei [Hk ?] Htop Hr Hh Hf'. unfold right_part. destruct (Z.ltb_spec (ra_end r) (ra_end k)).
  - erewrite bind_lift by (apply add_ok; lia).
    erewrite bind_lift by (apply range_new_ok; lia).
    apply insert_at; try done. unfold valid_range, len in *. simpl. lia.
  - exists t. split_and!; try done. lia.
Qed.

Lemma carve_spec c t k a b l1 l2 :
  wf t → height t ≤ 46 → inorder t = l1 ++ (k, Free) :: l2 → find_candidate c t = Ok (k, mk_Range a b) →
  0 < csize c → ra_start k ≤ a → a + csize c - 1 ≤ ra_end k → ra_end k < 2 ^ 64 - 1 →
  let r := mk_Range a (a + csize c - 1) in
  ∃ t', tree_allocate c t = (t', Ok r) ∧ wf t' ∧
    inorder t' = l1 ++ left_part k r ++ (r, Allocated) :: right_part k r ++ l2.
Proof.
  intros Hw Hh Ei Hc Hs Ha Hb Htop r. pose proof Hw as (_ & Ho & Hv). rewrite Ei in Ho, Hv.
  pose proof (ordered_fits _ _ _ _ Ho) as Hf. apply valid_segs_mid in Hv as [Hk _]. pose proof Hk as (Hk0 & _ & Hk2).
  assert (Hr : valid_range r) by (unfold valid_range, len in *; simpl; lia).
  unfold tree_allocate. erewrite bind_run by done.
  erewrite bind_lift by (destruct t; [by destruct l1|exact Hc]). cbn [ra_start].
  erewrite bind_lift by (apply add_ok; lia). erewrite bind_lift by (apply sub_ok; lia).
  replace (a + csize c - 1) with (ra_end r) by done.
  erewrite bind_lift by (apply range_new_ok; simpl; lia). change (mk_Range a (ra_end r)) with r.
  destruct (Z.eqb_spec (ra_start k) (ra_start r)) as [Es|Ens]; [destruct (Z.eqb_spec (len k) (csize c)) as [El|Enl]|]; cbn [andb].
  { assert (k = r) as -> by (destruct k; unfold len, r in *; simpl in *; f_equal; lia).
    destruct (mark_at _ _ _ _ Hw Ei) as (t' & Et & Hw' & Ei' & _).
    erewrite bind_run by exact Et. exists t'. unfold left_part, right_part. rewrite !Z.ltb_irrefl. done. }
  all: destruct (delete_at _ _ _ _ _ Hw Ei) as (t1 & E1 & Hw1 & Ei1 & Hh1).
  all: erewrite bind_run by exact E1.
  all: destruct (insert_left k r t1 l1 l2) as (t2 & E2 & Hw2 & Ei2 & Hh2); [done..|simpl in *; lia|lia|].
  all: erewrite bind_run by exact E2.
  all: assert (Hf2 : fits_between r (l1 ++ left_part k r) l2).
  all: try (apply fits_app_l; [eapply fits_sub; [done|simpl; lia..]|]; unfold left_part; intros p;
    destruct (_ <? _); [intros ->%list_elem_of_singleton; simpl; lia|by intros ?%not_elem_of_nil]).
  all: rewrite app_assoc in Ei2.
  all: destruct (insert_at r Allocated t2 _ _ Hw2 Ei2 Hf2 Hr) as (t3 & E3 & Hw3 & Ei3 & Hh3); [lia|].
  all: erewrite bind_run by exact E3.
  all: destruct (insert_right k r t3 ((l1 ++ left_part k r) ++ [(r, Allocated)]) l2) as (t4 & E4 & Hw4 & Ei4 & Hh4);
    [done|by rewrite <- app_assoc|done|done|simpl; lia|lia| |].
  all: try (split; [|by destruct Hf as [_ Hf]]; intros p; rewrite elem_of_app, list_elem_of_singleton;
    intros [Hp| ->]; [|simpl; lia]; pose proof (proj1 Hf2 _ Hp); simpl in *; lia).
  all: erewrite bind_run by exact E4; exists t4; rewrite Ei4, <- !app_assoc; done.
Qed.

(** ** The search for a block *)

Definition good_constraint (c : Constraint) : Prop :=
  1 ≤ csize c ∧ ∃ n, 0 ≤ n < 64 ∧ calign c = 2 ^ n.

(** A block of the requested size and alignment at [a] inside the range [k]. *)
Definition block_in (c : Constraint) (k : RangeInclusive) (a : Z) : Prop :=
  (calign c | a) ∧ ra_start k ≤ a ∧ a + csize c - 1 ≤ ra_end k.
Definition fits (c : Constraint) (l : list seg) (a : Z) : Prop :=
  ∃ k, (k, Free) ∈ l ∧ block_in c k a.

(** Every range ends two addresses before the top of the address space. *)
Definition below_top (l : list seg) : Prop := Forall (λ p, ra_end p.1 < 2 ^ 64 - 2) l.

Lemma round_up_spec s A : 0 < A →
  let u := s + (A - 1) - (s + (A - 1)) mod A in
  (A | u) ∧ s ≤ u ∧ ∀ a, (A | a) → s ≤ a → u ≤ a.
Proof.
  intros HA u. pose proof (Z.div_mod (s + (A - 1)) A ltac:(lia)) as Hd.
  pose proof (Z.mod_pos_bound (s + (A - 1)) A HA). unfold u. split_and!; [|lia|].
  - exists ((s + (A - 1)) / A). lia.
  - intros a [q ->] ?. assert ((s + (A - 1)) / A ≤ q) by (apply Z.lt_succ_r, Z.div_lt_upper_bound; lia). nia.
Qed.

Lemma round_down_spec x A : 0 < A →
  let d := x - x mod A in (A | d) ∧ d ≤ x ∧ ∀ a, (A | a) → a ≤ x → a ≤ d.
Proof.
  intros HA d. pose proof (Z.div_mod x A ltac:(lia)) as Hd. pose proof (Z.mod_pos_bound x A HA).
  unfold d. split_and!; [|lia|].
  - exists (x / A). lia.
  - intros a [q ->] ?. assert (q ≤ x / A) by (apply Z.div_le_lower_bound; lia). nia.
Qed.

Lemma align_up_ok s n : 0 ≤ s → 0 ≤ n < 64 →
  align_up s (2 ^ n) = if s + (2 ^ n - 1) <? 2 ^ 64
                       then Ok (s + (2 ^ n - 1) - (s + (2 ^ n - 1)) mod 2 ^ n) else Err Overflow.
Proof.
  intros Hs Hn. pose proof (pow2_pos n ltac:(lia)). unfold align_up. rewrite (proj2 (Z.eqb_neq _ 0)) by lia.
  unfold checked_add. destruct (Z.ltb_spec (s + (2 ^ n - 1)) (2 ^ 64)); [|done].
  unfold align_down. rewrite is_power_of_two_pow, mask_down_pow by lia. done.
Qed.

Lemma align_down_ok x n : 0 ≤ x < 2 ^ 64 → 0 ≤ n < 64 → align_down x (2 ^ n) = Ok (x - x mod 2 ^ n).
Proof. intros. unfold align_down. by rewrite is_power_of_two_pow, mask_down_pow by lia. Qed.

Lemma check_first c k s : good_constraint c → cpolicy c = FirstMatch → valid_range k → ra_end k < 2 ^ 64 - 1 →
  match check_constraint c k s with
  | Ok r => s = Free ∧ block_in c k (ra_start r) ∧ ∀ a, block_in c k a → ra_start r ≤ a
  | Err _ => s = Free → ∀ a, ¬ block_in c k a
  | Stuck => False
  end.
Proof.
  intros (Hs & n & Hn & Ha) Hp [Hk _] Ht. unfold check_constraint, block_in. rewrite Hp, Ha.
  destruct (bool_decide_reflect (s = Free)) as [->|]; [|by simpl]. unfold len.
  destruct (Z.ltb_spec (ra_end k - ra_start k + 1) (csize c)); simpl; [intros _ a; lia|].
  pose proof (pow2_pos n ltac:(lia)). pose proof (round_up_spec (ra_start k) (2 ^ n) ltac:(lia)) as (Hd & Hle & Hmin).
  rewrite align_up_ok by lia. case_if; simpl.
  - set (u := _ - _ mod _) in *. unfold range_new. case_if; simpl.
    { intros _ a (Hda & ? & ?). specialize (Hmin a Hda). rewrite orb_true_iff, andb_true_iff, Z.ltb_lt, !Z.eqb_eq in *.
      unfold u64_max in *. lia. }
    unfold len. simpl. case_if; simpl; [split_and!; try done; [lia|naive_solver]|].
    intros _ a (Hda & ? & ?). specialize (Hmin a Hda). lia.
  - intros _ a ([q ->] & ? & ?). specialize (Hmin (q * 2 ^ n) ltac:(by exists q)).
    assert (q < 2 ^ (64 - n)).
    { apply (Z.mul_lt_mono_pos_r (2 ^ n)); [lia|]. rewrite <- Z.pow_add_r by lia. replace (64 - n + n) with 64; lia. }
    assert ((q + 1) * 2 ^ n ≤ 2 ^ (64 - n) * 2 ^ n) by (apply Z.mul_le_mono_nonneg_r; lia).
    rewrite <- Z.pow_add_r in * by lia. replace (64 - n + n) with 64 in * by lia. lia.
Qed.

(** A block at address 0 that fills its range is not found from the top: the
    subtraction underflows. *)
Lemma check_last c k s : good_constraint c → cpolicy c = LastMatch → valid_range k → ra_end k < 2 ^ 64 - 1 →
  match check_constraint c k s with
  | Ok r => s = Free ∧ block_in c k (ra_start r) ∧ ∀ a, block_in c k a → a ≤ ra_start r
  | Err _ => s = Free → ∀ a, block_in c k a → k = mk_Range 0 (csize c - 1) ∧ a = 0
  | Stuck => False
  end.
Proof.
  intros (Hs & n & Hn & Ha) Hp [Hk _] Ht. unfold check_constraint, block_in. rewrite Hp, Ha.
  destruct (bool_decide_reflect (s = Free)) as [->|]; [|by simpl]. unfold len.
  destruct (Z.ltb_spec (ra_end k - ra_start k + 1) (csize c)); simpl; [intros _ a; lia|].
  pose proof (pow2_pos n ltac:(lia)). unfold checked_sub. case_if; simpl.
  - rewrite add_ok by lia. simpl. rewrite align_down_ok by lia. simpl.
    pose proof (round_down_spec (ra_end k - csize c + 1) (2 ^ n) ltac:(lia)) as (Hd & Hle & Hmax).
    set (d := _ - _ mod _) in *. case_if; simpl.
    { intros _ a (Hda & ? & ?). specialize (Hmax a Hda). lia. }
    rewrite range_new_ok by lia. simpl. unfold len. simpl. case_if; simpl; [|lia].
    split_and!; try done; [lia|]. intros a (Hda & ? & ?). apply Hmax; [done|lia].
  - intros _ a (Hda & ? & ?). destruct k as [ks ke]; simpl in *. split; [f_equal; lia|lia].
Qed.

(** The tree searches scan the ranges in order, from below or from above. *)
Fixpoint scan (c : Constraint) (l : list seg) : Result (RangeInclusive * RangeInclusive) :=
  match l with
  | [] => Err ResourceNotAvailable
  | (k, s) :: l => or_else (candidate c k s) (scan c l)
  end.

Lemma scan_app c l1 l2 : scan c (l1 ++ l2) = or_else (scan c l1) (scan c l2).
Proof.
  induction l1 as [|[k s] l1 IH]; [done|]. simpl. rewrite IH. by destruct (candidate c k s) as [|[]|].
Qed.

Lemma or_else_none {A} (r : Result A) : or_else r (Err ResourceNotAvailable) = r.
Proof. by destruct r as [|[]|]. Qed.

Lemma or_else_assoc {A} (a b d : Result A) : or_else (or_else a b) d = or_else a (or_else b d).
Proof. by destruct a as [|[]|]. Qed.

Lemma first_match_scan c t : first_match c t = scan c (inorder t).
Proof.
  induction t as [|k s l IHl r IHr h]; [done|]. simpl. by rewrite IHl, IHr, scan_app, or_else_assoc.
Qed.

Lemma last_match_scan c t : last_match c t = scan c (reverse (inorder t)).
Proof.
  induction t as [|k s l IHl r IHr h]; [done|]. simpl.
  rewrite IHl, IHr, reverse_app, reverse_cons, <- app_assoc, !scan_app. simpl.
  by rewrite or_else_none, or_else_assoc.
Qed.

Lemma candidate_eq c k s :
  candidate c k s = match check_constraint c k s with
                    | Ok r => Ok (k, r) | Err _ => Err ResourceNotAvailable | Stuck => Stuck end.
Proof. done. Qed.

Lemma fits_cons c k s l a : fits c ((k, s) :: l) a ↔ (s = Free ∧ block_in c k a) ∨ fits c l a.
Proof.
  unfold fits. setoid_rewrite elem_of_cons. split.
  - intros (k' & [[= -> <-]|Hin] & Hb); [by left|right; by eauto].
  - intros [[-> Hb]|(k' & Hin & Hb)]; eauto.
Qed.

Lemma scan_first c l : good_constraint c → cpolicy c = FirstMatch →
  ordered l → valid_segs l → below_top l →
  match scan c l with
  | Ok (k, r) => (k, Free) ∈ l ∧ block_in c k (ra_start r) ∧ ∀ a, fits c l a → ra_start r ≤ a
  | Err e => e = ResourceNotAvailable ∧ ∀ a, ¬ fits c l a
  | Stuck => False
  end.
Proof.
  intros Hc Hp. induction l as [|[k s] l IH]; intros Ho Hv Ht.
  { split; [done|]. intros a (? & ?%not_elem_of_nil & _). done. }
  inversion_clear Ho as [|?? Ho' Ha]. apply Forall_cons in Hv as [Hk Hv]. apply Forall_cons in Ht as [Hkt Ht].
  simpl in Hk, Hkt. specialize (IH Ho' Hv Ht). simpl. rewrite candidate_eq.
  pose proof (check_first c k s Hc Hp Hk ltac:(lia)) as Hcheck. destruct (check_constraint c k s) as [r|e|]; [| |done].
  - simpl. destruct Hcheck as (-> & Hb & Hmin). split_and!; [apply list_elem_of_here|done|].
    intros a [[_ Hba]|(k' & Hin & (_ & ? & _))]%fits_cons; [by apply Hmin|].
    pose proof (proj1 (Forall_forall _ _) Ha _ Hin) as Hlt. unfold before in Hlt. simpl in Hlt.
    destruct Hb as (_ & _ & ?). destruct Hc as [? _]. lia.
  - simpl. destruct (scan c l) as [[k' r]|e'|]; [| |done].
    + destruct IH as (Hin & Hb & Hmin). split_and!; [by apply list_elem_of_further|done|].
      intros a [[Hs Hba]|Hfit]%fits_cons; [by destruct (Hcheck Hs a)|by apply Hmin].
    + destruct IH as [-> Hno]. split; [done|]. intros a [[Hs Hba]|Hfit]%fits_cons; [by apply (Hcheck Hs a)|by apply (Hno a)].
Qed.

(** The ranges from the highest to the lowest. *)
Definition descending (l : list seg) : Prop := StronglySorted (flip before) l.

Lemma descending_reverse l : ordered l → descending (reverse l).
Proof.
  unfold ordered, descending. induction 1 as [|p l Hs IH Ha]; [constructor|].
  rewrite reverse_cons, StronglySorted_app. split_and!; [|done|by repeat constructor].
  intros q q' Hq ->%list_elem_of_singleton. rewrite elem_of_reverse in Hq.
  exact (proj1 (Forall_forall _ _) Ha q Hq).
Qed.

Lemma scan_last c l : good_constraint c → cpolicy c = LastMatch →
  descending l → valid_segs l → below_top l →
  match scan c l with
  | Ok (k, r) => (k, Free) ∈ l ∧ block_in c k (ra_start r) ∧ ∀ a, fits c l a → a ≤ ra_start r
  | Err e => e = ResourceNotAvailable ∧
      ∀ a, fits c l a → a = 0 ∧ (mk_Range 0 (csize c - 1), Free) ∈ l
  | Stuck => False
  end.
Proof.
  intros Hc Hp. induction l as [|[k s] l IH]; intros Ho Hv Ht.
  { split; [done|]. intros a (? & ?%not_elem_of_nil & _). done. }
  inversion_clear Ho as [|?? Ho' Ha]. apply Forall_cons in Hv as [Hk Hv]. apply Forall_cons in Ht as [Hkt Ht].
  simpl in Hk, Hkt. specialize (IH Ho' Hv Ht). simpl. rewrite candidate_eq.
  pose proof (check_last c k s Hc Hp Hk ltac:(lia)) as Hcheck. destruct (check_constraint c k s) as [r|e|]; [| |done].
  - simpl. destruct Hcheck as (-> & Hb & Hmin). split_and!; [apply list_elem_of_here|done|].
    intros a [[_ Hba]|(k' & Hin & (_ & ? & ?))]%fits_cons; [by apply Hmin|].
    pose proof (proj1 (Forall_forall _ _) Ha _ Hin) as Hlt. unfold flip, before in Hlt. simpl in Hlt.
    destruct Hb as (_ & ? & _). destruct Hc as [? _]. lia.
  - simpl. destruct (scan c l) as [[k' r]|e'|]; [| |done].
    + destruct IH as (Hin & Hb & Hmin). split_and!; [by apply list_elem_of_further|done|].
      intros a [[Hs Hba]|Hfit]%fits_cons; [|by apply Hmin].
      destruct (Hcheck Hs a Hba) as [-> ->]. destruct Hb as (_ & ? & _).
      pose proof (proj1 (Forall_forall _ _) Hv _ Hin) as [? _]. simpl in *. lia.
    + destruct IH as [-> Hno]. split; [done|]. intros a [[Hs Hba]|Hfit]%fits_cons.
      * destruct (Hcheck Hs a Hba) as [-> ->]. subst s. split; [done|apply list_elem_of_here].
      * destruct (Hno a Hfit). split; [done|by apply list_elem_of_further].
Qed.

(** ** The abstract allocator: the state of each address *)

Fixpoint state_at (l : list seg) (a : Z) : option NodeState :=
  match l with
  | [] => None
  | (k, s) :: l => if in_range a k then Some s else state_at l a
  end.

Lemma state_at_app l1 l2 a :
  state_at (l1 ++ l2) a = match state_at l1 a with Some s => Some s | None => state_at l2 a end.
Proof. induction l1 as [|[k s] l1 IH]; [done|]. simpl. by destruct (in_range a k). Qed.

Lemma in_range_spec a r : in_range a r = true ↔ ra_start r ≤ a ≤ ra_end r.
Proof. unfold in_range. rewrite andb_true_iff, !Z.leb_le. done. Qed.

Lemma in_range_false a r : in_range a r = false ↔ ¬ (ra_start r ≤ a ≤ ra_end r).
Proof. rewrite <- in_range_spec. by destruct (in_range a r). Qed.

Lemma state_at_outside l a : (∀ p, p ∈ l → in_range a p.1 = false) → state_at l a = None.
Proof.
  induction l as [|[k s] l IH]; [done|]. intros Hl. simpl.
  pose proof (Hl (k, s) (list_elem_of_here _ _)) as E; simpl in E; rewrite E. apply IH. intros p Hp. apply Hl. by apply list_elem_of_further.
Qed.

Lemma state_at_left k l1 l2 a : fits_between k l1 l2 → ra_start k ≤ a → state_at l1 a = None.
Proof.
  intros [H1 _] Ha. apply state_at_outside. intros p Hp. specialize (H1 _ Hp). apply in_range_false. lia.
Qed.

Lemma state_at_right k l1 l2 a : fits_between k l1 l2 → a ≤ ra_end k → state_at l2 a = None.
Proof.
  intros [_ H2] Ha. apply state_at_outside. intros p Hp. specialize (H2 _ Hp). apply in_range_false. lia.
Qed.

Ltac case_range :=
  repeat match goal with
  | |- context [in_range ?a ?r] =>
      destruct (in_range a r) eqn:?; [rewrite in_range_spec in *|rewrite in_range_false in *]; simpl in *
  end.

(** Cutting a block out of a free range allocates exactly the block. *)
Lemma state_at_carve k r l1 l2 a : fits_between k l1 l2 → ra_start k ≤ ra_start r ≤ ra_end r → ra_end r ≤ ra_end k →
  state_at (l1 ++ left_part k r ++ (r, Allocated) :: right_part k r ++ l2) a =
  if in_range a r then Some Allocated else state_at (l1 ++ (k, Free) :: l2) a.
Proof.
  intros Hf Hs He. rewrite !state_at_app. unfold left_part, right_part.
  destruct (in_range a r) eqn:Er.
  - rewrite in_range_spec in Er. rewrite (state_at_left k l1 l2) by (done || lia).
    destruct (Z.ltb_spec (ra_start k) (ra_start r)); simpl.
    all: rewrite ?(proj2 (in_range_false _ (mk_Range _ _))) by (simpl; lia).
    all: by rewrite (proj2 (in_range_spec a r)) by lia.
  - rewrite in_range_false in Er. destruct (state_at l1 a); [done|].
    destruct (Z.ltb_spec (ra_start k) (ra_start r)), (Z.ltb_spec (ra_end r) (ra_end k)); simpl.
    all: case_range; try done; lia.
Qed.

Lemma state_at_free k l1 l2 a : fits_between k l1 l2 → ra_start k ≤ a ≤ ra_end k →
  state_at (l1 ++ (k, Free) :: l2) a = Some Free.
Proof.
  intros Hf Ha. rewrite state_at_app, (state_at_left k l1 l2) by (done || lia). simpl.
  by rewrite (proj2 (in_range_spec a k)).
Qed.

(** ** Few ranges make a low tree *)

Lemma avl_size t : avl t → 2 ^ (height t / 2) ≤ Z.of_nat (length (inorder t)) + 1.
Proof.
  induction t as [|k s l IHl r IHr h]; [done|]. intros (Hl & Hr & Eh & Hd). simpl.
  rewrite length_app. simpl. specialize (IHl Hl). specialize (IHr Hr).
  pose proof (avl_height l Hl). pose proof (avl_height r Hr).
  destruct (decide (h = 1)) as [->|]; [change (2 ^ (1 / 2)) with 1; lia|].
  assert (2 ^ (h / 2) = 2 * 2 ^ ((h - 2) / 2)) as ->.
  { rewrite <- Z.pow_succ_r by (apply Z.div_pos; lia). f_equal.
    replace (h - 2) with (h + (-1) * 2) by lia. rewrite Z.div_add by lia. lia. }
  assert (2 ^ ((h - 2) / 2) ≤ 2 ^ (height l / 2)) by (apply Z.pow_le_mono_r; [lia|apply Z.div_le_mono; lia]).
  assert (2 ^ ((h - 2) / 2) ≤ 2 ^ (height r / 2)) by (apply Z.pow_le_mono_r; [lia|apply Z.div_le_mono; lia]).
  lia.
Qed.

(** Up to four million ranges. *)
Definition few (l : list seg) : Prop := Z.of_nat (length l) < 2 ^ 22.

Lemma few_height t : avl t → few (inorder t) → height t ≤ 46.
Proof.
  unfold few. intros Ha Hf. pose proof (avl_size t Ha). destruct (decide (height t ≤ 46)); [done|exfalso].
  assert (2 ^ 23 ≤ 2 ^ (height t / 2)) by (apply Z.pow_le_mono_r; [lia|apply Z.div_le_lower_bound; lia]). lia.
Qed.

(** ** Allocation refines the abstract one *)

Definition managed (a : AddressAllocator) : list seg := inorder (interval_tree a).
Definition allocator_wf (a : AddressAllocator) : Prop :=
  wf (interval_tree a) ∧ below_top (managed a) ∧ few (managed a).

Lemma fits_reverse c l a : fits c (reverse l) a ↔ fits c l a.
Proof. unfold fits. by setoid_rewrite elem_of_reverse. Qed.

Lemma scan_spec c t : wf t → below_top (inorder t) → good_constraint c →
  cpolicy c = FirstMatch ∨ cpolicy c = LastMatch →
  match find_candidate c t with
  | Ok (k, r) => (k, Free) ∈ inorder t ∧ block_in c k (ra_start r) ∧
      (∀ a, fits c (inorder t) a →
         if decide (cpolicy c = FirstMatch) then ra_start r ≤ a else a ≤ ra_start r)
  | Err e => e = ResourceNotAvailable ∧ ∀ a, fits c (inorder t) a →
      cpolicy c = LastMatch ∧ a = 0 ∧ (mk_Range 0 (csize c - 1), Free) ∈ inorder t
  | Stuck => False
  end.
Proof.
  intros (_ & Ho & Hv) Ht Hc [Hp|Hp]; unfold find_candidate; rewrite Hp.
  - rewrite first_match_scan. pose proof (scan_first c _ Hc Hp Ho Hv Ht) as Hs.
    destruct (scan _ _) as [[k r]|e|]; try done. destruct Hs as [-> Hn]. split; [done|]. intros a Hfa. by destruct (Hn a).
  - rewrite last_match_scan. pose proof (scan_last c (reverse (inorder t)) Hc Hp (descending_reverse _ Ho)) as Hs.
    unfold valid_segs, below_top in *. rewrite !Forall_reverse in Hs. specialize (Hs Hv Ht).
    destruct (scan _ _) as [[k r]|e|]; [| |done].
    + destruct Hs as (Hin & Hb & Hm). rewrite elem_of_reverse in Hin. split_and!; try done.
      intros a Hfa. simpl. by apply Hm, fits_reverse.
    + destruct Hs as [-> Hn]. split; [done|]. intros a Hfa. rewrite <- fits_reverse in Hfa.
      destruct (Hn a Hfa) as [-> Hin]. by rewrite elem_of_reverse in Hin.
Qed.

Lemma constraint_new_cases size align policy :
  0 ≤ size → 0 ≤ align < 2 ^ 64 → policy = FirstMatch ∨ policy = LastMatch →
  match constraint_new size align policy with
  | Ok c => c = mk_Constraint size align policy ∧ good_constraint c
  | Err _ => size = 0 ∨ is_power_of_two align = false
  | Stuck => False
  end.
Proof.
  intros Hs Ha Hp. unfold constraint_new. destruct (Z.eqb_spec size 0) as [|Hs0]; [by left|].
  destruct (is_power_of_two align) eqn:E; [|by right]. simpl.
  pose proof E as (n & Hn & ->)%is_power_of_two_spec. pose proof (pow2_pos n Hn).
  rewrite (proj2 (Z.eqb_neq _ 0)) by lia.
  assert (good_constraint (mk_Constraint size (2 ^ n) policy)).
  { split; [simpl; lia|]. exists n. simpl. split; [|done]. split; [done|]. apply (Z.pow_lt_mono_r_iff 2); lia. }
  by destruct Hp as [->| ->].
Qed.

Lemma below_top_carve k r l1 l2 : ra_start k ≤ ra_start r ≤ ra_end r → ra_end r ≤ ra_end k →
  below_top (l1 ++ (k, Free) :: l2) → below_top (l1 ++ left_part k r ++ (r, Allocated) :: right_part k r ++ l2).
Proof.
  intros Hr He. unfold below_top, left_part, right_part.
  rewrite !Forall_app, !Forall_cons, !Forall_app. intros (H1 & Hk & H2). simpl in *.
  split_and!; try done; [|lia|]; case_if; rewrite ?Forall_singleton; simpl; try done; lia.
Qed.


(** ** Freeing *)

Lemma last_before key l1 l2 k s : ordered (l1 ++ l2) → valid_segs (l1 ++ l2) → fits_between key l1 l2 →
  ra_start key ≤ ra_end key →
  (k, s) ∈ l1 ++ l2 → ra_start k < ra_start key → ra_start key - 1 ≤ ra_end k →
  ∃ m1, l1 = m1 ++ [(k, s)] ∧ ra_end k = ra_start key - 1.
Proof.
  unfold ordered. rewrite StronglySorted_app. intros (_ & H1 & _) Hv [Hb Ha] Hk Hin Hs He.
  unfold valid_segs in Hv. rewrite Forall_app in Hv. destruct Hv as [Hv1 _].
  rewrite elem_of_app in Hin. destruct Hin as [Hin|Hin]; [|specialize (Ha _ Hin); simpl in *; lia].
  pose proof (Hb _ Hin) as Hlt. simpl in Hlt. apply list_elem_of_split in Hin as (m1 & m2 & ->).
  destruct m2 as [|p m2]; [exists m1; split; [done|lia]|exfalso].
  rewrite StronglySorted_app in H1. destruct H1 as (_ & _ & H1). inversion_clear H1 as [|?? _ Hall].
  apply Forall_cons in Hall as [Hp _]. unfold before in Hp. simpl in Hp.
  assert (Hp2 : p ∈ m1 ++ (k, s) :: p :: m2) by set_solver.
  pose proof (Hb _ Hp2). pose proof (proj1 (Forall_forall _ _) Hv1 _ Hp2) as [? _]. simpl in *. lia.
Qed.

Lemma first_after key l1 l2 k s : ordered (l1 ++ l2) → valid_segs (l1 ++ l2) → fits_between key l1 l2 →
  ra_start key ≤ ra_end key →
  (k, s) ∈ l1 ++ l2 → ra_start k ≤ ra_end key + 1 → ra_end key < ra_end k →
  ∃ m2, l2 = (k, s) :: m2 ∧ ra_start k = ra_end key + 1.
Proof.
  unfold ordered. rewrite StronglySorted_app. intros (_ & _ & H2) Hv [Hb Ha] Hk Hin Hs He.
  unfold valid_segs in Hv. rewrite Forall_app in Hv. destruct Hv as [_ Hv2].
  rewrite elem_of_app in Hin. destruct Hin as [Hin|Hin]; [specialize (Hb _ Hin); simpl in *; lia|].
  pose proof (Ha _ Hin) as Hlt. simpl in Hlt.
  destruct l2 as [|p l2]; [by apply not_elem_of_nil in Hin|]. inversion_clear H2 as [|?? _ Hall].
  apply elem_of_cons in Hin as [<-|Hin]; [exists l2; split; [done|lia]|exfalso].
  pose proof (proj1 (Forall_forall _ _) Hall _ Hin) as Hp. unfold before in Hp. simpl in Hp.
  pose proof (Ha p (list_elem_of_here _ _)). apply Forall_cons in Hv2 as [[? _] _]. simpl in *. lia.
Qed.

(** The specification of merging: a free neighbour of at least two addresses
    joins the range. The result is the start (the end) of the joined range and
    what is left of the neighbours. *)
Definition joins_left (key : RangeInclusive) (p : seg) : bool :=
  bool_decide (p.2 = Free) && (ra_end p.1 =? ra_start key - 1) && (ra_start p.1 <? ra_end p.1).
Definition joins_right (key : RangeInclusive) (p : seg) : bool :=
  bool_decide (p.2 = Free) && (ra_start p.1 =? ra_end key + 1) && (ra_start p.1 <? ra_end p.1).
Definition merge_before (key : RangeInclusive) (l1 : list seg) : Z * list seg :=
  match reverse l1 with
  | p :: rl => if joins_left key p then (ra_start p.1, reverse rl) else (ra_start key, l1)
  | [] => (ra_start key, l1)
  end.
Definition merge_after (key : RangeInclusive) (l2 : list seg) : Z * list seg :=
  match l2 with
  | p :: m2 => if joins_right key p then (ra_end p.1, m2) else (ra_end key, l2)
  | [] => (ra_end key, l2)
  end.

Lemma joins_left_spec key k s : joins_left key (k, s) = true ↔ s = Free ∧ ra_end k = ra_start key - 1 ∧ ra_start k < ra_end k.
Proof. unfold joins_left. simpl. rewrite !andb_true_iff, bool_decide_eq_true, Z.eqb_eq, Z.ltb_lt. tauto. Qed.
Lemma joins_right_spec key k s : joins_right key (k, s) = true ↔ s = Free ∧ ra_start k = ra_end key + 1 ∧ ra_start k < ra_end k.
Proof. unfold joins_right. simpl. rewrite !andb_true_iff, bool_decide_eq_true, Z.eqb_eq, Z.ltb_lt. tauto. Qed.

Lemma merge_before_none key l1 : (∀ p, p ∈ l1 → joins_left key p = false) → merge_before key l1 = (ra_start key, l1).
Proof.
  intros H. unfold merge_before. destruct (reverse l1) as [|p rl] eqn:E; [done|].
  rewrite H; [done|]. apply elem_of_reverse. rewrite E. by left.
Qed.
Lemma merge_before_snoc key m1 p : merge_before key (m1 ++ [p]) = if joins_left key p then (ra_start p.1, m1) else (ra_start key, m1 ++ [p]).
Proof. unfold merge_before. rewrite reverse_snoc. by rewrite reverse_involutive. Qed.
Lemma merge_after_none key l2 : (∀ p, p ∈ l2 → joins_right key p = false) → merge_after key l2 = (ra_end key, l2).
Proof. intros H. destruct l2 as [|p l2]; [done|]. simpl. rewrite H; [done|by left]. Qed.

(** The merge with the left neighbour, and with the right one. *)
Lemma merge_left key t l1 l2 : wf t → inorder t = l1 ++ l2 → below_top (l1 ++ l2) → fits_between key l1 l2 →
  valid_range key → ra_end key < 2 ^ 64 - 2 → ra_start key ≠ 1 →
  ∃ range m1,
    (if 0 <? ra_start key then
       a ← lift (ok_or (checked_sub (ra_start key) 2) Underflow);
       b ← lift (ok_or (checked_sub (ra_start key) 1) Underflow);
       probe ← lift (range_new a b);
       match search_superset probe t with
       | Some (k, Free) => lift (range_new (ra_start k) (ra_end key))
       | _ => mret key
       end
     else mret key) t = (t, Ok range) ∧ ra_end range = ra_end key ∧ (ra_start range, m1) = merge_before key l1 ∧
    ((range = key ∧ m1 = l1) ∨
     (l1 = m1 ++ [(mk_Range (ra_start range) (ra_start key - 1), Free)] ∧ 0 ≤ ra_start range < ra_start key)).
Proof.
  intros (_ & Ho & Hv) Ei Hbt Hf [Hk _] Htop H1.
  rewrite Ei in Hv, Ho. destruct (Z.ltb_spec 0 (ra_start key)).
  2:{ exists key, l1. split_and!; [done|done| |by left]. rewrite merge_before_none; [done|]. intros [k s] Hp.
      apply not_true_is_false. rewrite joins_left_spec. intros (_ & ? & ?).
      pose proof (proj1 (Forall_forall _ _) Hv (k, s) (proj2 (elem_of_app _ _ _) (or_introl Hp))) as [? _]. simpl in *. lia. }
  erewrite bind_lift by (apply sub_ok; lia). erewrite bind_lift by (apply sub_ok; lia).
  erewrite bind_lift by (apply range_new_ok; lia). rewrite <- Ei in Ho, Hv.
  set (probe := mk_Range _ _). pose proof (search_superset_spec probe t Ho Hv ltac:(simpl; lia)) as Hs.
  rewrite Ei in *. unfold contains in Hs. simpl in Hs. destruct (search_superset probe t) as [[k s]|].
  2:{ exists key, l1. split_and!; [done|done| |by left]. rewrite merge_before_none; [done|]. intros [k s] Hp.
      apply not_true_is_false. rewrite joins_left_spec. intros (_ & ? & ?).
      specialize (Hs k s (proj2 (elem_of_app _ _ _) (or_introl Hp))). rewrite andb_false_iff, !Z.leb_gt in Hs. lia. }
  destruct Hs as [Hin Hc]. bool_to_prop.
  destruct (last_before key l1 l2 k s) as (m1 & -> & Hend); try (done || lia).
  rewrite merge_before_snoc. destruct s.
  2:{ exists key, (m1 ++ [(k, Allocated)]). split_and!; [done|done|done|by left]. }
  pose proof (proj1 (Forall_forall _ _) Hv _ Hin) as [? _]. simpl in *.
  exists (mk_Range (ra_start k) (ra_end key)), m1. unfold lift. rewrite range_new_ok by lia.
  rewrite (proj2 (joins_left_spec key k Free)) by (split_and!; [done|done|lia]).
  split_and!; [done|done|done|]. right. simpl. rewrite <- Hend. destruct k. simpl in *. split; [done|lia].
Qed.

Lemma merge_right key range t l1 l2 : wf t → inorder t = l1 ++ l2 → below_top (l1 ++ l2) → fits_between key l1 l2 →
  valid_range key → ra_end key < 2 ^ 64 - 2 → ra_end range = ra_end key → 0 ≤ ra_start range ≤ ra_start key →
  ∃ range' m2,
    (if ra_end range <? u64_max then
       a ← lift (ok_or (checked_add 64 (ra_end range) 1) Overflow);
       b ← lift (ok_or (checked_add 64 (ra_end range) 2) Overflow);
       probe ← lift (range_new a b);
       match search_superset probe t with
       | Some (k, Free) => lift (range_new (ra_start range) (ra_end k))
       | _ => mret range
       end
     else mret range) t = (t, Ok range') ∧ ra_start range' = ra_start range ∧ (ra_end range', m2) = merge_after key l2 ∧
    ((range' = range ∧ m2 = l2) ∨
     (l2 = (mk_Range (ra_end key + 1) (ra_end range'), Free) :: m2 ∧ ra_end key < ra_end range' < 2 ^ 64 - 2)).
Proof.
  intros (_ & Ho & Hv) Ei Hbt Hf [Hk _] Htop Her Hsr. rewrite Her.
  destruct (Z.ltb_spec (ra_end key) u64_max); [|unfold u64_max in *; lia].
  erewrite bind_lift by (apply add_ok; lia). erewrite bind_lift by (apply add_ok; lia).
  erewrite bind_lift by (apply range_new_ok; lia).
  set (probe := mk_Range _ _). pose proof (search_superset_spec probe t Ho Hv ltac:(simpl; lia)) as Hs.
  rewrite Ei in *. unfold contains in Hs. simpl in Hs. destruct (search_superset probe t) as [[k s]|].
  2:{ exists range, l2. split_and!; [done|done| |by left]. rewrite merge_after_none; [by rewrite Her|]. intros [k s] Hp.
      apply not_true_is_false. rewrite joins_right_spec. intros (_ & ? & ?).
      specialize (Hs k s (proj2 (elem_of_app _ _ _) (or_intror Hp))). rewrite andb_false_iff, !Z.leb_gt in Hs. lia. }
  destruct Hs as [Hin Hc]. bool_to_prop.
  destruct (first_after key l1 l2 k s) as (m2 & -> & Hst); try (done || lia).
  unfold merge_after. destruct s.
  2:{ exists range, ((k, Allocated) :: m2). split_and!; [done|done|by rewrite <- Her|by left]. }
  rewrite (proj2 (joins_right_spec key k Free)) by (split_and!; [done|done|lia]).
  pose proof (proj1 (Forall_forall _ _) Hv _ Hin) as [? _].
  pose proof (proj1 (Forall_forall _ _) Hbt _ Hin) as Hkt. simpl in *.
  exists (mk_Range (ra_start range) (ra_end k)), m2. unfold lift. rewrite range_new_ok by lia.
  split_and!; [done|done|done|]. right. simpl. rewrite <- Hst. destruct k. simpl in *. split; [done|lia].
Qed.

Lemma delete_merged_left key range t l1 m1 l2 : wf t → inorder t = l1 ++ l2 → ra_end key < 2 ^ 64 - 2 →
  ra_start key ≤ ra_end key →
  (ra_start range = ra_start key ∧ m1 = l1) ∨
    (l1 = m1 ++ [(mk_Range (ra_start range) (ra_start key - 1), Free)] ∧ 0 ≤ ra_start range < ra_start key) →
  ∃ t', (if ra_start range <? ra_start key then
           e ← lift (ok_or (checked_sub (ra_start key) 1) Underflow);
           k ← lift (range_new (ra_start range) e);
           tree_delete k
         else mret tt) t = (t', Ok tt) ∧ wf t' ∧ inorder t' = m1 ++ l2 ∧ height t' ≤ height t.
Proof.
  intros Hw Ei Htop Hk [[Es ->]|[-> Hs]].
  - exists t. rewrite Es, Z.ltb_irrefl. done.
  - rewrite (proj2 (Z.ltb_lt _ _)) by lia. erewrite bind_lift by (apply sub_ok; lia).
    erewrite bind_lift by (apply range_new_ok; lia). rewrite <- app_assoc in Ei. by eapply delete_at.
Qed.

Lemma delete_merged_right key range t l1 l2 m2 : wf t → inorder t = l1 ++ l2 → 0 ≤ ra_start key ≤ ra_end key →
  (ra_end range = ra_end key ∧ m2 = l2) ∨
    (l2 = (mk_Range (ra_end key + 1) (ra_end range), Free) :: m2 ∧ ra_end key < ra_end range < 2 ^ 64 - 2) →
  ∃ t', (if ra_end key <? ra_end range then
           s ← lift (ok_or (checked_add 64 (ra_end key) 1) Overflow);
           k ← lift (range_new s (ra_end range));
           tree_delete k
         else mret tt) t = (t', Ok tt) ∧ wf t' ∧ inorder t' = l1 ++ m2 ∧ height t' ≤ height t.
Proof.
  intros Hw Ei Hk [[Es ->]|[-> Hs]].
  - exists t. rewrite Es, Z.ltb_irrefl. done.
  - rewrite (proj2 (Z.ltb_lt _ _)) by lia. erewrite bind_lift by (apply add_ok; lia).
    erewrite bind_lift by (apply range_new_ok; lia). by eapply delete_at.
Qed.

(** How the ranges around a freed one change. *)
Definition merged (key range : RangeInclusive) (l1 l2 m1 m2 : list seg) : Prop :=
  ((ra_start range = ra_start key ∧ m1 = l1) ∨
   (l1 = m1 ++ [(mk_Range (ra_start range) (ra_start key - 1), Free)] ∧ 0 ≤ ra_start range < ra_start key)) ∧
  ((ra_end range = ra_end key ∧ m2 = l2) ∨
   (l2 = (mk_Range (ra_end key + 1) (ra_end range), Free) :: m2 ∧ ra_end key < ra_end range < 2 ^ 64 - 2)).

Lemma merged_fits key range l1 l2 m1 m2 s : ordered (l1 ++ (key, s) :: l2) →
  valid_segs (l1 ++ (key, s) :: l2) → merged key range l1 l2 m1 m2 → fits_between range m1 m2.
Proof.
  intros Ho Hv [Hl Hr]. pose proof (ordered_fits _ _ _ _ Ho) as [Hb Ha].
  split; intros p Hp.
  - destruct Hl as [[Es ->]|[-> Hs]]; [specialize (Hb _ Hp); lia|].
    rewrite <- app_assoc in Ho. simpl in Ho. by apply ordered_fits in Ho as [Ho _]; apply Ho.
  - destruct Hr as [[Es ->]|[-> Hs]]; [specialize (Ha _ Hp); lia|].
    rewrite (cons_middle (key, s) l1) in Ho. rewrite app_assoc in Ho. by apply ordered_fits in Ho as [_ Ho]; apply Ho.
Qed.

Lemma merged_state key range l1 l2 m1 m2 s a : fits_between key l1 l2 → ra_start key ≤ ra_end key →
  merged key range l1 l2 m1 m2 →
  state_at (m1 ++ (range, Free) :: m2) a =
  if in_range a key then Some Free else state_at (l1 ++ (key, s) :: l2) a.
Proof.
  intros Hf Hk [Hl Hr]. destruct (in_range a key) eqn:Ek.
  - rewrite in_range_spec in Ek. pose proof (state_at_left key l1 l2 a Hf ltac:(lia)) as HL.
    rewrite state_at_app. assert (state_at m1 a = None) as ->.
    { destruct Hl as [[_ ->]|[-> _]]; [done|]. rewrite state_at_app in HL. by destruct (state_at m1 a). }
    simpl. rewrite (proj2 (in_range_spec a range)); [done|]. lia.
  - rewrite in_range_false in Ek. rewrite !state_at_app. simpl.
    destruct Hl as [[Es ->]|[-> Hs]], Hr as [[Ee ->]|[-> He]]; rewrite ?state_at_app; simpl.
    all: destruct (state_at _ a); try done; case_range; try done; lia.
Qed.


(** ** Concrete windows *)

(** A window of 16 addresses from 4096: one block allocated, the rest free. *)
Definition small_window : AddressAllocator :=
  mk_AddressAllocator (mk_Range 4096 4111)
    (T (mk_Range 4096 4099) Allocated E (T (mk_Range 4100 4111) Free E E 1) 2).

Lemma small_window_wf : allocator_wf small_window.
Proof.
  unfold allocator_wf, wf, below_top, few, managed, valid_segs, ordered. simpl.
  split_and!; try done; try lia.
  - repeat constructor; simpl; lia.
  - repeat constructor; simpl; unfold len; simpl; lia.
  - repeat constructor; simpl; lia.
Qed.



(** An exact-match request never looks at the state of the node that
    contains it. Two requests of a driver both succeed although the second
    block lies inside the first, and the part of the first block before it is
    free again. *)
Theorem exact_match_reuses_allocated :
  ∃ a0 a1 a2, allocator_new 4096 4096 = Ok a0 ∧
    allocate 512 256 (ExactMatch 4096) a0 = (a1, Ok (mk_Range 4096 4607)) ∧
    allocate 256 256 (ExactMatch 4352) a1 = (a2, Ok (mk_Range 4352 4607)) ∧
    state_at (managed a1) 4096 = Some Allocated ∧ state_at (managed a2) 4096 = Some Free.
Proof.
  exists (mk_AddressAllocator (mk_Range 4096 8191) (leaf (mk_Range 4096 8191) Free)),
    (mk_AddressAllocator (mk_Range 4096 8191)
      (T (mk_Range 4096 4607) Allocated E (leaf (mk_Range 4608 8191) Free) 2)),
    (mk_AddressAllocator (mk_Range 4096 8191)
      (T (mk_Range 4352 4607) Allocated (leaf (mk_Range 4096 4351) Free) (leaf (mk_Range 4608 8191) Free) 2)).
  split_and!; vm_compute; reflexivity.
Qed.

(** Freeing a range that starts at address 1 fails after the range is gone. *)
Example free_at_one_loses_range :
  free (mk_Range 1 16) (mk_AddressAllocator (mk_Range 1 16) (leaf (mk_Range 1 16) Allocated)) =
  (mk_AddressAllocator (mk_Range 1 16) E, Err Underflow).
Proof. vm_compute. reflexivity. Qed.

(** A free neighbour of one address is not joined: both ranges stay, and a
    request for the four addresses is refused although all of them are free. *)
Example free_leaves_single_address :
  let w := mk_AddressAllocator (mk_Range 4096 4099) (T (mk_Range 4096 4096) Free E (leaf (mk_Range 4097 4099) Allocated) 2) in
  managed (free (mk_Range 4097 4099) w).1 = [(mk_Range 4096 4096, Free); (mk_Range 4097 4099, Free)] ∧
  (allocate 4 4 FirstMatch (free (mk_Range 4097 4099) w).1).2 = Err ResourceNotAvailable.
Proof. split; vm_compute; reflexivity. Qed.

(** Freeing a range that was not allocated succeeds. *)
Example free_of_free_range :
  free (mk_Range 4100 4111) small_window = (small_window, Ok tt).
Proof. vm_compute. reflexivity. Qed.
