(* ===== verification/IdAllocProof.v ===== *)
(** * The id allocator

    The ids a client holds are a ghost set. Every id below the mark [next_id]
    is held or released, never both; allocation hands out an id nobody holds
    and release gives it back. Releasing the id at the mark, which was never
    handed out, is accepted and breaks this. *)

From stdpp Require Import base list numbers gmap.
From S2P Require Import Prelude AddrAlloc.
Open Scope Z_scope.

(** The first id never handed out; [None] stands for one past [u32::MAX]. *)
Definition mark (a : IdAllocator) : Z := default (2 ^ 32) (next_id a).

Definition id_inv (a : IdAllocator) (live : gset Z) : Prop :=
  0 ≤ range_base a ≤ range_end a ∧ range_end a < 2 ^ 32 ∧
  range_base a ≤ mark a ≤ range_end a + 1 ∧
  (∀ n, next_id a = Some n → n < 2 ^ 32) ∧
  live ## freed_ids a ∧ ∀ x, x ∈ live ∪ freed_ids a ↔ range_base a ≤ x < mark a.

Lemma list_min_spec (l : list Z) :
  match foldr (λ x o, match o with Some y => Some (Z.min x y) | None => Some x end) None l with
  | Some m => m ∈ l ∧ ∀ x, x ∈ l → m ≤ x
  | None => l = []
  end.
Proof.
  induction l as [|x l IH]; [done|]. simpl. destruct (foldr _ None l) as [y|].
  - destruct IH as [Hin Hmin]. split.
    + destruct (Z.min_spec x y) as [[_ ->]|[_ ->]]; set_solver.
    + intros z [->|Hz]%elem_of_cons; [lia|]. specialize (Hmin _ Hz). lia.
  - subst. split; [set_solver|]. intros z ->%list_elem_of_singleton. done.
Qed.

Lemma set_min_spec (X : gset Z) :
  match set_min X with Some m => m ∈ X ∧ ∀ x, x ∈ X → m ≤ x | None => X = ∅ end.
Proof.
  unfold set_min. pose proof (list_min_spec (elements X)) as H. destruct (foldr _ None _) as [m|].
  - setoid_rewrite elem_of_elements in H. done.
  - by apply elements_empty_inv, leibniz_equiv in H.
Qed.

(** Moving an id between the held and the released ones. *)
Lemma take_back (m : Z) (L F : gset Z) x :
  m ∈ F → x ∈ ({[m]} ∪ L) ∪ F ∖ {[m]} ↔ x ∈ L ∪ F.
Proof. intros. destruct (decide (x = m)); set_solver. Qed.

Lemma give_back (m : Z) (L F : gset Z) x :
  m ∈ L → x ∈ L ∖ {[m]} ∪ ({[m]} ∪ F) ↔ x ∈ L ∪ F.
Proof. intros. destruct (decide (x = m)); set_solver. Qed.

Section id_alloc.
Context (a : IdAllocator) (live : gset Z) (Hinv : id_inv a live).

Lemma live_below x : x ∈ live → range_base a ≤ x < mark a.
Proof. intros Hx. apply Hinv. by apply elem_of_union_l. Qed.

Lemma below_live x : range_base a ≤ x < mark a → x ∉ freed_ids a → x ∈ live.
Proof. intros Hx Hf. apply Hinv in Hx. by apply elem_of_union in Hx as [?|?]. Qed.

Definition reuse (m : Z) : IdAllocator :=
  mk_IdAllocator (range_base a) (next_id a) (range_end a) (freed_ids a ∖ {[m]}).

Lemma reuse_spec m : m ∈ freed_ids a → (∀ x, x ∈ freed_ids a → m ≤ x) →
  id_inv (reuse m) ({[m]} ∪ live) ∧ m ∉ live ∧ range_base a ≤ m ≤ range_end a ∧
  (∀ x, x ∉ live → range_base a ≤ x → m ≤ x).
Proof.
  pose proof Hinv as (Hb & He & Hm & Hw & Hd & Hall). intros Hin Hmin.
  assert (range_base a ≤ m < mark a) by (apply Hall; by apply elem_of_union_r).
  split_and!; try lia.
  - unfold id_inv, mark in *. simpl. split_and!; try done; try lia; [set_solver|].
    intros x. rewrite take_back by done. apply Hall.
  - intros Hl. by apply (Hd m).
  - intros x Hx Hbx. destruct (decide (x < mark a)); [|lia]. apply Hmin.
    destruct (decide (x ∈ freed_ids a)); [done|]. by destruct Hx; apply below_live.
Qed.

Definition advance (n : Z) : IdAllocator :=
  mk_IdAllocator (range_base a) (checked_add 32 n 1) (range_end a) (freed_ids a).

Lemma advance_spec n : freed_ids a = ∅ → next_id a = Some n → n ≤ range_end a →
  id_inv (advance n) ({[n]} ∪ live) ∧ n ∉ live ∧ range_base a ≤ n ≤ range_end a ∧
  (∀ x, x ∉ live → range_base a ≤ x → n ≤ x).
Proof.
  pose proof Hinv as (Hb & He & Hm & Hw & Hd & Hall). intros Hs En Hn.
  assert (mark a = n) as Ema by (unfold mark; by rewrite En).
  assert (mark (advance n) = n + 1) as Ema'.
  { unfold mark, advance. simpl. unfold checked_add. case_if; simpl; lia. }
  split_and!; try lia.
  - unfold id_inv. rewrite Ema'. simpl. split_and!; try lia.
    + intros m [-> ?]%checked_add_Some. done.
    + rewrite Hs. set_solver.
    + intros x. specialize (Hall x). rewrite Hs, elem_of_union in Hall.
      rewrite Hs, !elem_of_union, elem_of_singleton. assert (x ∉ (∅ : gset Z)) by set_solver.
      rewrite Ema in Hall. assert (x = n ∨ range_base a ≤ x < n ↔ range_base a ≤ x < n + 1) by lia. tauto.
  - intros Hl%live_below. lia.
  - intros x Hx Hbx. destruct (decide (x < n)); [|lia]. destruct Hx. apply below_live; [lia|]. rewrite Hs. set_solver.
Qed.

Lemma allocate_id_spec :
  match allocate_id a with
  | (a', Ok id) => id_inv a' ({[id]} ∪ live) ∧ id ∉ live ∧ range_base a ≤ id ≤ range_end a ∧
      (∀ x, x ∉ live → range_base a ≤ x → id ≤ x)
  | (a', Err _) => a' = a ∧ ∀ x, range_base a ≤ x ≤ range_end a → x ∈ live
  | (_, Stuck) => False
  end.
Proof.
  unfold allocate_id. pose proof (set_min_spec (freed_ids a)) as Hs.
  destruct (set_min _) as [m|]; [by apply reuse_spec; apply Hs|].
  destruct (next_id a) as [n|] eqn:En; [destruct (Z.ltb_spec (range_end a) n); [|by apply advance_spec]|].
  all: split; [done|]; intros x Hx; apply below_live; [|rewrite Hs; set_solver].
  all: unfold mark; rewrite En; simpl; destruct Hinv as (? & ? & _); lia.
Qed.

Lemma free_id_spec id : id ≠ mark a →
  match free_id id a with
  | (a', Ok i) => i = id ∧ id ∈ live ∧ id_inv a' (live ∖ {[id]})
  | (a', Err e) => a' = a ∧ id ∉ live ∧
      e = if decide (range_base a ≤ id ≤ range_end a)
          then if decide (mark a < id) then NeverAllocated id else AlreadyReleased id
          else OutOfRange id
  | (_, Stuck) => False
  end.
Proof.
  pose proof Hinv as (Hb & He & Hm & Hw & Hd & Hall). intros Hid. unfold free_id.
  destruct (Z.leb_spec (range_base a) id), (Z.leb_spec id (range_end a)); simpl.
  2-4: rewrite decide_False by lia; split_and!; try done; intros Hin%live_below; lia.
  rewrite decide_True by lia.
  assert (match next_id a with Some n => n <? id | None => false end = bool_decide (mark a < id)) as ->.
  { unfold mark. destruct (next_id a); simpl; [|rewrite bool_decide_eq_false_2; [done|lia]].
    apply eq_true_iff_eq. by rewrite Z.ltb_lt, bool_decide_eq_true. }
  destruct (bool_decide_reflect (mark a < id)) as [Hlt|Hge].
  { rewrite decide_True by lia. split_and!; try done. intros Hin%live_below. lia. }
  rewrite decide_False by lia.
  destruct (bool_decide_reflect (id ∈ freed_ids a)) as [Hf|Hf].
  { split_and!; try done. intros Hl. by apply (Hd id). }
  assert (Hin : id ∈ live) by (apply below_live; [lia|done]).
  split_and!; try done. unfold id_inv, mark in *. simpl. split_and!; try done; [lia..|set_solver|].
  intros x. rewrite give_back by done. apply Hall.
Qed.
End id_alloc.

(** The id allocator hands out the lowest id of its range that nobody
    holds and fails only when every id is held; an id that is held can be
    released; an id outside the range, one already released, or one above the
    mark is refused with the matching error and no change. (The id at the mark
    itself is the exception, C38.) *)
Theorem id_allocator_unique a live : id_inv a live →
  match allocate_id a with
  | (a', Ok id) => id_inv a' ({[id]} ∪ live) ∧ id ∉ live ∧ range_base a ≤ id ≤ range_end a ∧
      (∀ x, x ∉ live → range_base a ≤ x → id ≤ x)
  | (a', Err _) => a' = a ∧ ∀ x, range_base a ≤ x ≤ range_end a → x ∈ live
  | (_, Stuck) => False
  end ∧
  ∀ id, id ≠ mark a →
    match free_id id a with
    | (a', Ok i) => i = id ∧ id ∈ live ∧ id_inv a' (live ∖ {[id]})
    | (a', Err e) => a' = a ∧ id ∉ live ∧
        e = if decide (range_base a ≤ id ≤ range_end a)
            then if decide (mark a < id) then NeverAllocated id else AlreadyReleased id
            else OutOfRange id
    | (_, Stuck) => False
    end.
Proof.
  intros Hinv. split; [by apply allocate_id_spec|]. intros id Hid. by apply free_id_spec.
Qed.

Definition two_ids : IdAllocator := mk_IdAllocator 3 (Some 5) 9 {[4]}.

Lemma two_ids_inv : id_inv two_ids {[3]}.
Proof.
  unfold id_inv, mark, two_ids. simpl. split_and!; try lia; [naive_solver lia|set_solver|].
  intros x. rewrite elem_of_union, !elem_of_singleton. lia.
Qed.

Lemma id_allocator_unique_witness :
  (allocate_id two_ids).2 = Ok 4 ∧ 4 ∉ ({[3]} : gset Z) ∧ (free_id 3 two_ids).2 = Ok 3.
Proof.
  pose proof (id_allocator_unique two_ids {[3]} two_ids_inv) as [H1 H2].
  assert (E : allocate_id two_ids = (mk_IdAllocator 3 (Some 5) 9 ({[4]} ∖ {[4]}), Ok 4)) by (vm_compute; reflexivity).
  rewrite E in H1. split; [by rewrite E|]. split; [apply H1|]. vm_compute. reflexivity.
Defined.

(** The id at the mark was never handed out, yet releasing it succeeds
    ([next_id < id] should be [next_id <= id]); the next two allocations then
    hand the same id to two holders. *)
Theorem free_id_at_mark_duplicates :
  ∃ a0 a1 a2 a3, id_new 0 10 = Ok a0 ∧ mark a0 = 0 ∧ free_id (mark a0) a0 = (a1, Ok 0) ∧
    allocate_id a1 = (a2, Ok 0) ∧ allocate_id a2 = (a3, Ok 0).
Proof.
  exists (mk_IdAllocator 0 (Some 0) 10 ∅), (mk_IdAllocator 0 (Some 0) 10 {[0]}),
    (mk_IdAllocator 0 (Some 0) 10 ({[0]} ∖ {[0]})), (mk_IdAllocator 0 (Some 1) 10 ({[0]} ∖ {[0]})).
  split_and!; vm_compute; reflexivity.
Qed.
