(* ===== verification/Pcie.v ===== *)
(** * PCI configuration space and enumeration

    driver/bus/pcie and the controller of driver/interface/rdif-pcie/src/lib.rs:
    configuration access, headers, bridges and endpoints, the programming of
    base address registers from the windows of [SimpleBarAllocator], and the
    iterator of root.rs that numbers the buses and yields the endpoints. The
    crates pci_types and bit_field are the class [PciTypes] and the endpoint
    operations of [PciChip]; the chip is a state [V] behind the trait
    [Interface]. *)

From stdpp Require Import base list numbers.
From S2P Require Import Prelude AddrAlloc.
Open Scope Z_scope.

(** pci_types: an address, [PciAddress::new] within its documented ranges. *)
Record PciAddress : Type := mk_PciAddress {
  pa_segment : Z;
  pa_bus : Z;
  pa_device : Z;
  pa_function : Z
}.
#[export] Instance PciAddress_eq_dec : EqDecision PciAddress.
Proof. solve_decision. Defined.

Inductive HeaderType : Type := HEndpoint | HPciPciBridge | HCardBusBridge | HUnknown (n : Z).

Inductive Bar : Type :=
| Memory32 (address size : Z) (prefetchable : bool)
| Memory64 (address size : Z) (prefetchable : bool)
| Io (port : Z).

(** No error but a panic. *)
Inductive NoErr : Type := .

(** What the code uses of pci_types and bit_field on a register word: the
    identification in the word at 0, the header type and the multi-function
    bit in the word at 12, and the access to bits. *)
Class PciTypes : Type := {
  address_new : Z → Z → Z → Z → outcome NoErr PciAddress;
  id_of : Z → Z * Z;
  header_type_of : Z → HeaderType;
  multi_of : Z → bool;
  revision_class_of : Z → Z * Z * Z * Z;
  get_bits : Z → Z → Z → Z;
  set_bits : Z → Z → Z → Z → Z;
  address_new_ok seg b d f : 0 ≤ d ≤ 31 → 0 ≤ f ≤ 7 → address_new seg b d f = Ok (mk_PciAddress seg b d f);
  get_bits_range w lo hi : lo ≤ hi → 0 ≤ get_bits w lo hi < 2 ^ (hi - lo);
  get_set_same w lo hi x : 0 ≤ lo ≤ hi → 0 ≤ x < 2 ^ (hi - lo) → get_bits (set_bits w lo hi x) lo hi = x;
  get_set_apart w lo hi lo' hi' x : 0 ≤ lo ≤ hi → 0 ≤ lo' ≤ hi' → hi ≤ lo' ∨ hi' ≤ lo →
    0 ≤ x < 2 ^ (hi - lo) → get_bits (set_bits w lo hi x) lo' hi' = get_bits w lo' hi'
}.

(** The trait [Interface] of a controller, and the operations of pci_types that
    run several accesses on it: the decoding of a base address register, which
    writes to it to find its size, and updates in place. *)
Class PciChip (V : Type) : Type := {
  chip_read : PciAddress → Z → V → V * Z;
  chip_write : PciAddress → Z → Z → V → V;
  header_bar : PciAddress → Z → V → V * option Bar;
  header_write_bar : PciAddress → Z → Z → V → V * bool;
  header_update_command : PciAddress → (Z → Z) → V → V;
  header_interrupt : PciAddress → V → V * (Z * Z);
  header_update_interrupt : PciAddress → (Z * Z → Z * Z) → V → V
}.

(** [PciHeaderBase]; [Endpoint] holds nothing else that changes. *)
Record PciHeaderBase : Type := mk_PciHeaderBase {
  vid : Z;
  did : Z;
  hb_address : PciAddress
}.

(** [BusNumber]. *)
Record BusNumber : Type := mk_BusNumber { primary : Z; secondary : Z; subordinate : Z }.

(** [PciPciBridge]: the root has no header. *)
Definition PciPciBridge : Type := option PciHeaderBase.

Inductive PciConfigSpace : Type :=
| CfgPciPciBridge (b : PciPciBridge)
| CfgEndpoint (e : PciHeaderBase)
| CfgCardBusBridge (b : PciHeaderBase)
| CfgUnknown (b : PciHeaderBase).

(** [PcieController]. *)
Record PcieController (V : Type) : Type := mk_PcieController {
  chip : V;
  bar_allocator : option SimpleBarAllocator
}.
Arguments mk_PcieController {V}.
Arguments chip {V}.
Arguments bar_allocator {V}.

(** root.rs: [Bridge]. *)
Record Bridge : Type := mk_Bridge { bridge : PciPciBridge; device : Z }.

(** [PciIterator]; the head of [stack] is the last element of the vector. *)
Record PciIterator (V : Type) : Type := mk_PciIterator {
  root : PcieController V;
  segment : Z;
  stack : list Bridge;
  bus_max : Z;
  function : Z;
  is_mulitple_function : bool;
  is_finish : bool
}.
Arguments mk_PciIterator {V}.
Arguments root {V}.
Arguments segment {V}.
Arguments stack {V}.
Arguments bus_max {V}.
Arguments function {V}.
Arguments is_mulitple_function {V}.
Arguments is_finish {V}.

(** chip/mod.rs: [PcieGeneric::mmio_offset], the ECAM layout. *)
Definition mmio_offset (address : PciAddress) (offset : Z) : Z :=
  Z.lor (Z.lor (Z.lor (Z.shiftl (pa_bus address) 20) (Z.shiftl (pa_device address) 15))
    (Z.shiftl (pa_function address) 12)) offset.

Definition MAX_DEVICE : Z := 31.
Definition MAX_FUNCTION : Z := 7.
Definition IO_ENABLE : Z := 1.
Definition MEMORY_ENABLE : Z := 2.

Section Pcie.
Context {V : Type} `{PciChip V} `{PciTypes}.

(** ** The controller *)

Notation CM := (M (PcieController V) NoErr).

Definition on_chip {A} (f : V → V * A) : CM A := λ s,
  let '(v, x) := f (chip s) in (mk_PcieController v (bar_allocator s), Ok x).

(** [ConfigAccess]: read and write. *)
Definition cfg_read (a : PciAddress) (offset : Z) : CM Z := on_chip (chip_read a offset).
Definition cfg_write (a : PciAddress) (offset value : Z) : CM unit := on_chip (λ v, (chip_write a offset value v, tt)).

(** [PcieController::new], [set_mem32], [set_mem64]. *)
Definition controller_new (v : V) : PcieController V := mk_PcieController v None.
Definition default_allocator : SimpleBarAllocator := mk_SimpleBarAllocator None None None None.
Definition controller_set (f : M SimpleBarAllocator Error unit) : CM unit := λ s,
  match f (default default_allocator (bar_allocator s)) with
  | (al, Ok _) => (mk_PcieController (chip s) (Some al), Ok tt)
  | (al, _) => (mk_PcieController (chip s) (Some al), Stuck)
  end.
Definition controller_set_mem32 (address size : Z) (prefetchable : bool) : CM unit :=
  controller_set (set_mem32 address size prefetchable).
Definition controller_set_mem64 (address size : Z) (prefetchable : bool) : CM unit :=
  controller_set (set_mem64 address size prefetchable).

(** ** Headers *)

(** [PciHeaderBase::new]. *)
Definition header_new (a : PciAddress) : CM (option PciHeaderBase) :=
  w ← cfg_read a 0;
  let '(v, d) := id_of w in
  mret (if v =? 0xffff then None else Some (mk_PciHeaderBase v d a)).

Definition header_type (b : PciHeaderBase) : CM HeaderType :=
  w ← cfg_read (hb_address b) 0x0c;
  mret (header_type_of w).
Definition has_multiple_functions (b : PciHeaderBase) : CM bool :=
  w ← cfg_read (hb_address b) 0x0c;
  mret (multi_of w).
Definition revision_and_class (b : PciHeaderBase) : CM (Z * Z * Z * Z) :=
  w ← cfg_read (hb_address b) 0x08;
  mret (revision_class_of w).
Definition update_command (b : PciHeaderBase) (f : Z → Z) : CM unit :=
  on_chip (λ v, (header_update_command (hb_address b) f v, tt)).

(** ** Endpoints *)

(** [_bar]. *)
Definition ep_bar_at (b : PciHeaderBase) (slot : Z) : CM (option Bar) :=
  if slot <? 6 then on_chip (header_bar (hb_address b) slot) else stuck.

(** [set_bar]; [false] is [Err]. *)
Definition set_bar (b : PciHeaderBase) (slot value : Z) : CM bool :=
  if slot <? 6 then on_chip (header_write_bar (hb_address b) slot value) else stuck.

(** The loop of [bars]: the entry behind a 64-bit register is left out. [n] is
    the number of turns left, 6 at the start. *)
Fixpoint bars_from (b : PciHeaderBase) (n : nat) (i : Z) : CM (list (option Bar)) :=
  match n with
  | O => mret []
  | S n =>
      x ← ep_bar_at b i;
      match x, n with
      | Some (Memory64 _ _ _), S n => l ← bars_from b n (i + 2); mret (x :: None :: l)
      | _, _ => l ← bars_from b n (i + 1); mret (x :: l)
      end
  end.
Definition bars (b : PciHeaderBase) : CM (list (option Bar)) := bars_from b 6 0.

(** [bar], [bar_mmio]. The end of a 32-bit register is computed in 32 bits. *)
Definition bar (b : PciHeaderBase) (slot : Z) : CM (option Bar) :=
  l ← bars b;
  if slot <? 6 then mret (default None (l !! Z.to_nat slot)) else stuck.
Definition mmio_of (x : option Bar) : outcome NoErr (option (Z * Z)) :=
  match x with
  | Some (Memory32 address size _) => e ← uadd 32 address size; Ok (Some (address, e))
  | Some (Memory64 address size _) => e ← uadd 64 address size; Ok (Some (address, e))
  | Some (Io _) | None => Ok None
  end.
Definition bar_mmio (b : PciHeaderBase) (slot : Z) : CM (option (Z * Z)) :=
  x ← bar b slot;
  lift (mmio_of x).

(** [alloc_memory32] and [alloc_memory64] on the controller's allocator;
    [unwrap]. *)
Definition bar_alloc (f : SimpleBarAllocator → SimpleBarAllocator * option Z) : CM Z := λ s,
  match bar_allocator s with
  | None => (s, Stuck)
  | Some al => let '(al', o) := f al in (mk_PcieController (chip s) (Some al'), unwrap o)
  end.

(** One turn of the loop of [realloc_bar]. *)
Definition place_bar (b : PciHeaderBase) (i : Z) (x : option Bar) : CM unit :=
  match x with
  | Some (Memory32 _ size prefetchable) =>
      addr ← bar_alloc (alloc_memory32 size prefetchable);
      ok ← set_bar b i addr;
      if (ok : bool) then mret tt else stuck
  | Some (Memory64 _ size prefetchable) =>
      addr ← bar_alloc (alloc_memory64 size prefetchable);
      ok ← set_bar b i addr;
      if (ok : bool) then mret tt else stuck
  | Some (Io _) | None => mret tt
  end.
Fixpoint place_bars (b : PciHeaderBase) (i : Z) (l : list (option Bar)) : CM unit :=
  match l with
  | [] => mret tt
  | x :: l => _ ← place_bar b i x; place_bars b (i + 1) l
  end.

Definition realloc_bar (b : PciHeaderBase) : CM unit :=
  _ ← update_command b (λ cmd, Z.ldiff (Z.ldiff cmd IO_ENABLE) MEMORY_ENABLE);
  l ← bars b;
  _ ← place_bars b 0 l;
  update_command b (λ cmd, Z.lor cmd (Z.lor MEMORY_ENABLE IO_ENABLE)).

(** [Endpoint::new]; [from_header] answers for the right header type only. *)
Definition endpoint_new (b : PciHeaderBase) : CM PciHeaderBase :=
  t ← header_type b;
  match t with
  | HEndpoint =>
      s ← get;
      match bar_allocator s with
      | Some _ => _ ← realloc_bar b; mret b
      | None => mret b
      end
  | _ => stuck
  end.

Definition interrupt_pin (b : PciHeaderBase) : CM Z := p ← on_chip (header_interrupt (hb_address b)); mret p.1.
Definition interrupt_line (b : PciHeaderBase) : CM Z := p ← on_chip (header_interrupt (hb_address b)); mret p.2.
Definition set_interrupt_pin (b : PciHeaderBase) (pin : Z) : CM unit :=
  on_chip (λ v, (header_update_interrupt (hb_address b) (λ p, (pin, p.2)) v, tt)).
Definition set_interrupt_line (b : PciHeaderBase) (line : Z) : CM unit :=
  on_chip (λ v, (header_update_interrupt (hb_address b) (λ p, (p.1, line)) v, tt)).

(** ** Bridges *)

(** [PciPciBridge::new]. *)
Definition bridge_new (b : PciHeaderBase) : CM PciPciBridge :=
  t ← header_type b;
  match t with
  | HPciPciBridge => mret (Some b)
  | _ => stuck
  end.

(** [primary_bus_number] and so on: a field of the word at 24, 0 for the root. *)
Definition bus_field (lo hi : Z) (b : PciPciBridge) : CM Z :=
  match b with
  | None => mret 0
  | Some h => w ← cfg_read (hb_address h) 0x18; mret (get_bits w lo hi)
  end.
Definition primary_bus_number : PciPciBridge → CM Z := bus_field 0 8.
Definition secondary_bus_number : PciPciBridge → CM Z := bus_field 8 16.
Definition subordinate_bus_number : PciPciBridge → CM Z := bus_field 16 24.

Definition update_bus_number (b : PciPciBridge) (f : BusNumber → outcome NoErr BusNumber) : CM unit :=
  match b with
  | None => mret tt
  | Some h =>
      data ← cfg_read (hb_address h) 0x18;
      new_bus ← lift (f (mk_BusNumber (get_bits data 0 8) (get_bits data 8 16) (get_bits data 16 24)));
      let data := set_bits data 16 24 (subordinate new_bus) in
      let data := set_bits data 8 16 (secondary new_bus) in
      let data := set_bits data 0 8 (primary new_bus) in
      cfg_write (hb_address h) 0x18 data
  end.

(** ** root.rs: the iterator *)

Notation IM := (M (PciIterator V) NoErr).

Definition set_root (r : PcieController V) (s : PciIterator V) : PciIterator V :=
  mk_PciIterator r (segment s) (stack s) (bus_max s) (function s) (is_mulitple_function s) (is_finish s).
Definition set_stack (l : list Bridge) (s : PciIterator V) : PciIterator V :=
  mk_PciIterator (root s) (segment s) l (bus_max s) (function s) (is_mulitple_function s) (is_finish s).
Definition set_function (f : Z) (s : PciIterator V) : PciIterator V :=
  mk_PciIterator (root s) (segment s) (stack s) (bus_max s) f (is_mulitple_function s) (is_finish s).
Definition set_multiple (m : bool) (s : PciIterator V) : PciIterator V :=
  mk_PciIterator (root s) (segment s) (stack s) (bus_max s) (function s) m (is_finish s).
Definition set_finish (f : bool) (s : PciIterator V) : PciIterator V :=
  mk_PciIterator (root s) (segment s) (stack s) (bus_max s) (function s) (is_mulitple_function s) f.

Definition with_root {A} (m : CM A) : IM A := λ s,
  let '(r, o) := m (root s) in (set_root r s, o).

(** [enumerate_by_controller]; the casts to [u8] keep the low byte. *)
Definition enumerate_by_controller (c : PcieController V) (range : option (Z * Z)) : outcome NoErr (PciIterator V) :=
  let '(start, end_) := default (0, 0x100) range in
  last ← usub end_ 1;
  Ok (mk_PciIterator c 0 [mk_Bridge None (start mod 2 ^ 8)] (last mod 2 ^ 8) 0 false false).

(** [PciIterator::address]. *)
Definition address : IM PciAddress :=
  s ← get;
  match stack s with
  | [] => stuck
  | parent :: _ =>
      b ← with_root (secondary_bus_number (bridge parent));
      lift (address_new (segment s) b (device parent) (function s))
  end.

(** [get_current_valid]; CardBus bridges and unknown headers are [todo!()]. *)
Definition get_current_valid : IM (option PciConfigSpace) :=
  a ← address;
  o ← with_root (header_new a);
  match o with
  | None => mret None
  | Some base =>
      m ← with_root (has_multiple_functions base);
      _ ← modify (set_multiple m);
      t ← with_root (header_type base);
      match t with
      | HEndpoint => ep ← with_root (endpoint_new base); mret (Some (CfgEndpoint ep))
      | HPciPciBridge =>
          br ← with_root (bridge_new base);
          s ← get;
          match stack s with
          | [] => stuck
          | parent :: _ =>
              sub ← with_root (subordinate_bus_number (bridge parent));
              if sub =? bus_max s then mret None
              else
                sub ← with_root (subordinate_bus_number (bridge parent));
                secondary_bus ← lift (uadd 8 sub 1);
                _ ← with_root (update_bus_number br (λ _, Ok (mk_BusNumber (pa_bus a) secondary_bus secondary_bus)));
                mret (Some (CfgPciPciBridge br))
          end
      | HCardBusBridge | HUnknown _ => stuck
      end
  end.

(** [is_next_function_max]. *)
Definition is_next_function_max : IM bool :=
  s ← get;
  if is_mulitple_function s then
    if function s =? MAX_FUNCTION then _ ← modify (set_function 0); mret true
    else _ ← modify (set_function (function s + 1)); mret false
  else _ ← modify (set_function 0); mret true.

(** [next_device_not_ok]. *)
Definition next_device_not_ok : IM bool :=
  s ← get;
  match stack s with
  | [] => _ ← modify (set_finish true); mret false
  | parent :: rest =>
      if device parent =? MAX_DEVICE then
        _ ← modify (set_stack rest);
        sub ← with_root (subordinate_bus_number (bridge parent));
        _ ← modify (set_finish (sub =? bus_max s));
        _ ← modify (set_function 0);
        mret true
      else
        d ← lift (uadd 8 (device parent) 1);
        _ ← modify (set_stack (mk_Bridge (bridge parent) d :: rest));
        mret false
  end.

(** [while self.next_device_not_ok() {}]: each turn but the last shortens the
    stack. *)
Fixpoint next_device_loop (fuel : nat) : IM unit :=
  match fuel with
  | O => stuck
  | S fuel =>
      again ← next_device_not_ok;
      if (again : bool) then next_device_loop fuel else mret tt
  end.
Definition next_device : IM unit :=
  s ← get;
  next_device_loop (S (length (stack s))).

(** The loop over the bridges on the stack, from the bottom. *)
Fixpoint extend_parents (l : list Bridge) : CM unit :=
  match l with
  | [] => mret tt
  | parent :: l =>
      _ ← update_bus_number (bridge parent) (λ bus,
            sub ← uadd 8 (subordinate bus) 1;
            Ok (mk_BusNumber (primary bus) (secondary bus) sub));
      extend_parents l
  end.

(** The inherent [PciIterator::next]. *)
Definition advance (current_bridge : option PciPciBridge) : IM unit :=
  match current_bridge with
  | Some br =>
      s ← get;
      _ ← with_root (extend_parents (rev (stack s)));
      _ ← modify (λ s, set_stack (mk_Bridge br 0 :: stack s) s);
      modify (set_function 0)
  | None =>
      carry ← is_next_function_max;
      if (carry : bool) then next_device else mret tt
  end.

(** One turn of the loop of [Iterator::next]. *)
Definition turn : IM (option PciHeaderBase) :=
  value ← get_current_valid;
  match value with
  | Some (CfgPciPciBridge br) => _ ← advance (Some br); mret None
  | Some (CfgEndpoint ep) => _ ← advance None; mret (Some ep)
  | Some (CfgCardBusBridge _) | Some (CfgUnknown _) | None => _ ← advance None; mret None
  end.

(** [Iterator::next]. *)
Fixpoint next (fuel : nat) : IM (option PciHeaderBase) :=
  match fuel with
  | O => stuck
  | S fuel =>
      s ← get;
      if is_finish s then mret None
      else
        o ← turn;
        match o with
        | Some ep => mret (Some ep)
        | None => next fuel
        end
  end.

(** Every item, as a [for] loop takes them. *)
Fixpoint collect (n fuel : nat) : IM (list PciHeaderBase) :=
  match n with
  | O => stuck
  | S n =>
      o ← next fuel;
      match o with
      | None => mret []
      | Some ep => l ← collect n fuel; mret (ep :: l)
      end
  end.
End Pcie.
