(* ===== verification/PcieProof.v ===== *)
(** * Enumeration follows the tree of buses

    A chip behind which there is a tree of buses, bridges and functions
    ([PciTree]: configuration cycles reach a function through the bus numbers
    of the bridges above it) is enumerated by root.rs in depth-first order:
    every function of every endpoint is yielded exactly once, bridges get
    consecutive bus numbers. The conditions of the theorem are the limits of
    the code; the last part shows what happens beyond them. *)

From S2P Require Import Prelude AddrAlloc Pcie.
From stdpp Require Import base list numbers gmap.
Open Scope Z_scope.

(** ** The tree *)

(** What is at a device number of a bus: nothing, a device with functions, or
    a bridge with the bus behind it. *)
Inductive Slot : Type :=
| NoDevice
| Functions (fns : list (option (Z * Z)))
| BridgeSlot (v d : Z) (kids : list Slot).

Section SlotInd.
Context (P : Slot → Prop).
Context (PE : P NoDevice) (PF : ∀ fns, P (Functions fns)) (PB : ∀ v d kids, Forall P kids → P (BridgeSlot v d kids)).
Fixpoint Slot_tree_ind (s : Slot) : P s :=
  match s with
  | NoDevice => PE
  | Functions fns => PF fns
  | BridgeSlot v d kids => PB v d kids ((fix go l : Forall P l :=
      match l with [] => Forall_nil_2 _ | s :: l => Forall_cons_2 _ _ _ (Slot_tree_ind s) (go l) end) kids)
  end.
End SlotInd.

(** A bridge is named by the device numbers on the way to it. *)
Definition path : Type := list nat.

(** The headers of a device: its function 0 is there, and a bridge has one. *)
Inductive Header : Type :=
| HdEndpoint (v d : Z) (multi : bool)
| HdBridge (v d : Z).

Definition header_at (slots : list Slot) (dev fn : nat) : option Header :=
  match slots !! dev with
  | Some (Functions fns) =>
      match fns !! fn with
      | Some (Some (v, d)) => Some (HdEndpoint v d (bool_decide (1 < length fns)%nat))
      | _ => None
      end
  | Some (BridgeSlot v d _) => if bool_decide (fn = 0%nat) then Some (HdBridge v d) else None
  | _ => None
  end.

(** ** Routing by bus numbers *)

Definition Regs : Type := path → BusNumber.

Definition claims (r : BusNumber) (b : Z) : bool := (secondary r <=? b) && (b <=? subordinate r).

(** The first bridge of a bus that claims [b] takes the cycle. *)
Fixpoint route_slot (regs : Regs) (p : path) (s : Slot) (b : Z) {struct s} : option (path * list Slot) :=
  match s with
  | BridgeSlot _ _ kids =>
      if claims (regs p) b then
        if b =? secondary (regs p) then Some (p, kids)
        else (fix go d l := match l with
                | [] => None
                | s :: l => match route_slot regs (p ++ [d]) s b with Some x => Some x | None => go (S d) l end
                end) 0%nat kids
      else None
  | _ => None
  end.
Fixpoint route_slots (regs : Regs) (p : path) (d : nat) (l : list Slot) (b : Z) : option (path * list Slot) :=
  match l with
  | [] => None
  | s :: l => match route_slot regs (p ++ [d]) s b with Some x => Some x | None => route_slots regs p (S d) l b end
  end.
(** From the root, whose bus has the number 0. *)
Definition route (regs : Regs) (slots : list Slot) (b : Z) : option (path * list Slot) :=
  if b =? 0 then Some ([], slots) else route_slots regs [] 0 slots b.

Lemma route_bridge regs p v d kids b :
  route_slot regs p (BridgeSlot v d kids) b =
  if claims (regs p) b then
    if b =? secondary (regs p) then Some (p, kids) else route_slots regs p 0 kids b
  else None.
Proof.
  simpl. destruct (claims _ _); [|done]. destruct (_ =? _); [done|]. generalize 0%nat.
  induction kids as [|s l IH]; intros n; [done|]. simpl. destruct (route_slot _ _ _ _); [done|]. apply IH.
Qed.

(** A chip in front of such a tree: what it answers on the identification, the
    header type and the bus numbers of the functions its bridges let it reach,
    and the effect of a write to the bus numbers. *)
Class PciTree (V : Type) `{PciChip V} `{PciTypes} : Type := {
  pt_tree : V → list Slot;
  pt_regs : V → Regs;
  pt_same : V → V → Prop := λ v w, pt_tree w = pt_tree v ∧ pt_regs w = pt_regs v;
  pt_id v a p bus : route (pt_regs v) (pt_tree v) (pa_bus a) = Some (p, bus) →
    let '(w, x) := chip_read a 0 v in pt_same v w ∧
    match header_at bus (Z.to_nat (pa_device a)) (Z.to_nat (pa_function a)) with
    | Some (HdEndpoint i d _) | Some (HdBridge i d) => id_of x = (i, d)
    | None => (id_of x).1 = 0xffff
    end;
  pt_type v a p bus h : route (pt_regs v) (pt_tree v) (pa_bus a) = Some (p, bus) →
    header_at bus (Z.to_nat (pa_device a)) (Z.to_nat (pa_function a)) = Some h →
    let '(w, x) := chip_read a 0x0c v in pt_same v w ∧
    header_type_of x = match h with HdEndpoint _ _ _ => HEndpoint | HdBridge _ _ => HPciPciBridge end ∧
    multi_of x = match h with HdEndpoint _ _ m => m | HdBridge _ _ => false end;
  pt_bus v a p bus i d : route (pt_regs v) (pt_tree v) (pa_bus a) = Some (p, bus) →
    header_at bus (Z.to_nat (pa_device a)) (Z.to_nat (pa_function a)) = Some (HdBridge i d) →
    let '(w, x) := chip_read a 0x18 v in pt_same v w ∧
    pt_regs v (p ++ [Z.to_nat (pa_device a)]) =
      mk_BusNumber (get_bits x 0 8) (get_bits x 8 16) (get_bits x 16 24);
  pt_set_bus v a p bus i d x : route (pt_regs v) (pt_tree v) (pa_bus a) = Some (p, bus) →
    header_at bus (Z.to_nat (pa_device a)) (Z.to_nat (pa_function a)) = Some (HdBridge i d) →
    let w := chip_write a 0x18 x v in pt_tree w = pt_tree v ∧
    ∀ q, pt_regs w q = if decide (q = p ++ [Z.to_nat (pa_device a)])
      then mk_BusNumber (get_bits x 0 8) (get_bits x 8 16) (get_bits x 16 24) else pt_regs v q
}.

(** ** The order of the enumeration *)

Definition ep_at (b : Z) (d : nat) (f : nat) (o : option (Z * Z)) : list PciHeaderBase :=
  match o with
  | Some (v, i) => [mk_PciHeaderBase v i (mk_PciAddress 0 b (Z.of_nat d) (Z.of_nat f))]
  | None => []
  end.
Fixpoint eps_from (b : Z) (d f : nat) (fns : list (option (Z * Z))) : list PciHeaderBase :=
  match fns with [] => [] | o :: fns => ep_at b d f o ++ eps_from b d (S f) fns end.

(** Endpoints, bus numbers of the bridges, and the last bus number given. *)
Definition Found : Type := list PciHeaderBase * list (path * BusNumber) * Z.

Fixpoint enum_slot (p : path) (b : Z) (d : nat) (s : Slot) (n : Z) {struct s} : Found :=
  match s with
  | NoDevice => ([], [], n)
  | Functions fns => (eps_from b d 0 fns, [], n)
  | BridgeSlot _ _ kids =>
      let b' := n + 1 in
      let '(es, rs, m) := (fix go d' l n := match l with
        | [] => ([], [], n)
        | s :: l =>
            let '(e1, r1, n1) := enum_slot (p ++ [d]) b' d' s n in
            let '(e2, r2, n2) := go (S d') l n1 in (e1 ++ e2, r1 ++ r2, n2)
        end) 0%nat kids b' in
      (es, (p ++ [d], mk_BusNumber b b' m) :: rs, m)
  end.
Fixpoint enum_slots (p : path) (b : Z) (d : nat) (l : list Slot) (n : Z) : Found :=
  match l with
  | [] => ([], [], n)
  | s :: l =>
      let '(e1, r1, n1) := enum_slot p b d s n in
      let '(e2, r2, n2) := enum_slots p b (S d) l n1 in (e1 ++ e2, r1 ++ r2, n2)
  end.

Lemma enum_bridge p b d v i kids n :
  enum_slot p b d (BridgeSlot v i kids) n =
  let '(es, rs, m) := enum_slots (p ++ [d]) (n + 1) 0 kids (n + 1) in
  (es, (p ++ [d], mk_BusNumber b (n + 1) m) :: rs, m).
Proof.
  simpl. set (b' := n + 1).
  assert (∀ l d' m, (fix go (d' : nat) (l : list Slot) (n : Z) : Found := match l with
        | [] => ([], [], n)
        | s :: l =>
            let '(e1, r1, n1) := enum_slot (p ++ [d]) b' d' s n in
            let '(e2, r2, n2) := go (S d') l n1 in (e1 ++ e2, r1 ++ r2, n2)
        end) d' l m = enum_slots (p ++ [d]) b' d' l m) as E.
  { induction l as [|s l IH]; intros d' m; [done|]. simpl. destruct (enum_slot _ _ _ s m) as [[e1 r1] n1]. by rewrite IH. }
  by rewrite E.
Qed.

(** The addresses of the endpoints found are distinct. *)
Definition slot_addr (s : Slot) : Prop := ∀ p b d n es rs n', enum_slot p b d s n = (es, rs, n') → b ≤ n →
  n ≤ n' ∧ NoDup (hb_address <$> es) ∧
  ∀ a, a ∈ hb_address <$> es → (pa_bus a = b ∧ pa_device a = Z.of_nat d) ∨ n < pa_bus a ≤ n'.

Lemma slots_addr l : Forall slot_addr l → ∀ p b d n es rs n', enum_slots p b d l n = (es, rs, n') → b ≤ n →
  n ≤ n' ∧ NoDup (hb_address <$> es) ∧
  ∀ a, a ∈ hb_address <$> es → (pa_bus a = b ∧ Z.of_nat d ≤ pa_device a) ∨ n < pa_bus a ≤ n'.
Proof.
  induction 1 as [|s l Hs _ IH]; intros p b d n es rs n' E Hb; simpl in E.
  { injection E as <- <- <-. split; [lia|]. split; [constructor|]. by intros a ?%not_elem_of_nil. }
  destruct (enum_slot p b d s n) as [[e1 r1] n1] eqn:E1. destruct (enum_slots p b (S d) l n1) as [[e2 r2] n2] eqn:E2.
  injection E as <- <- <-. destruct (Hs _ _ _ _ _ _ _ E1 Hb) as (L1 & N1 & A1).
  destruct (IH _ _ _ _ _ _ _ E2 ltac:(lia)) as (L2 & N2 & A2). split; [lia|]. rewrite fmap_app. split.
  - apply NoDup_app. split; [done|]. split; [|done]. intros a H1 H2. specialize (A1 a H1). specialize (A2 a H2). lia.
  - intros a Ha. apply elem_of_app in Ha as [Ha|Ha]; [specialize (A1 a Ha)|specialize (A2 a Ha)]; lia.
Qed.

Lemma eps_addr b d fns : ∀ f, NoDup (hb_address <$> eps_from b d f fns) ∧
  ∀ a, a ∈ hb_address <$> eps_from b d f fns → pa_bus a = b ∧ pa_device a = Z.of_nat d ∧ Z.of_nat f ≤ pa_function a.
Proof.
  induction fns as [|o fns IH]; intros f; simpl; [split; [constructor|by intros a ?%not_elem_of_nil]|].
  destruct (IH (S f)) as [N A]. destruct o as [[i e]|]; simpl.
  - split; [constructor; [|done]|].
    + intros Ha. destruct (A _ Ha) as (_ & _ & H). simpl in H. lia.
    + intros a Ha. apply elem_of_cons in Ha as [->|Ha]; [simpl; lia|]. specialize (A a Ha). lia.
  - split; [done|]. intros a Ha. specialize (A a Ha). lia.
Qed.

Lemma slot_addr_all s : slot_addr s.
Proof.
  induction s as [|fns|i e kids IH] using Slot_tree_ind; intros p b d n es rs n' E Hb.
  - injection E as <- <- <-. split; [lia|]. split; [constructor|]. by intros a ?%not_elem_of_nil.
  - injection E as <- <- <-. destruct (eps_addr b d fns 0) as [N A]. split; [lia|]. split; [done|].
    intros a Ha. specialize (A a Ha). lia.
  - rewrite enum_bridge in E. destruct (enum_slots _ _ _ kids _) as [[es1 rs1] m] eqn:E1. injection E as <- <- <-.
    destruct (slots_addr _ IH _ _ _ _ _ _ _ E1 ltac:(lia)) as (L & N & A). split; [lia|]. split; [done|].
    intros a Ha. specialize (A a Ha). lia.
Qed.

Lemma enum_slots_addr l p b d n es rs n' : enum_slots p b d l n = (es, rs, n') → b ≤ n → NoDup (hb_address <$> es).
Proof. intros E Hb. by apply (slots_addr l (Forall_true _ _ slot_addr_all) _ _ _ _ _ _ _ E). Qed.

(** ** The stack leads to a bus *)

Definition fresh (regs : Regs) (p : path) (j : nat) : Prop :=
  ∀ q, secondary (regs (p ++ j :: q)) = 0 ∧ subordinate (regs (p ++ j :: q)) = 0.

(** The stack of the iterator names the bridges on the way from the root to
    the bus [slots], which has the path [p] and the number [b]. Those bridges
    pass on the numbers up to [m], bridges before them lie below, and those
    behind them are as after reset. *)
Inductive ctx (regs : Regs) (m : Z) (top : list Slot) : list Bridge → path → list Slot → Z → Prop :=
| ctx_root dv : ctx regs m top [mk_Bridge None dv] [] top 0
| ctx_down br stk p slots b d v i kids b' dv' :
    ctx regs m top (mk_Bridge br (Z.of_nat d) :: stk) p slots b → (d ≤ 31)%nat →
    slots !! d = Some (BridgeSlot v i kids) →
    secondary (regs (p ++ [d])) = b' → 0 ≤ b < b' → b' ≤ m → m ≤ subordinate (regs (p ++ [d])) →
    (∀ j, (j < d)%nat → subordinate (regs (p ++ [j])) < b') →
    (∀ j, (d < j)%nat → fresh regs p j) →
    ctx regs m top (mk_Bridge (Some (mk_PciHeaderBase v i (mk_PciAddress 0 b (Z.of_nat d) 0))) dv' ::
      mk_Bridge br (Z.of_nat d) :: stk) (p ++ [d]) kids b'.

Lemma ctx_device regs m top br dv dv' stk p slots b :
  ctx regs m top (mk_Bridge br dv :: stk) p slots b → ctx regs m top (mk_Bridge br dv' :: stk) p slots b.
Proof. intros Hc. inversion Hc; subst; [constructor|]. econstructor; done. Qed.

Lemma ctx_nonneg regs m top stk p slots b : ctx regs m top stk p slots b → 0 ≤ b.
Proof. intros Hc. inversion Hc; lia. Qed.

Lemma route_slots_skip regs p b l l' k : (∀ j, (k ≤ j < k + length l)%nat → claims (regs (p ++ [j])) b = false) →
  route_slots regs p k (l ++ l') b = route_slots regs p (k + length l) l' b.
Proof.
  revert k. induction l as [|s l IH]; intros k Hl; simpl; [by rewrite Nat.add_0_r|].
  assert (route_slot regs (p ++ [k]) s b = None) as ->.
  { destruct s; try done. rewrite route_bridge, Hl by (simpl; lia). done. }
  rewrite IH by (intros j Hj; apply Hl; simpl; lia). f_equal. lia.
Qed.

Lemma route_slots_none regs p b l k : (∀ j, (k ≤ j)%nat → claims (regs (p ++ [j])) b = false) →
  route_slots regs p k l b = None.
Proof.
  intros Hl. rewrite <- (app_nil_r l), route_slots_skip by (intros j Hj; apply Hl; lia). done.
Qed.

(** A configuration cycle for a number between that of the bus and [m] gets to
    the bus. *)
Lemma ctx_route regs m top stk p slots b : ctx regs m top stk p slots b →
  ∀ c, b ≤ c ≤ m → route regs top c = if c =? b then Some (p, slots) else route_slots regs p 0 slots c.
Proof.
  induction 1 as [dv|br stk p slots b d v i kids b' dv' Hc IH Hd Hs Hsec Hb Hbm Hsub Hlo Hhi]; intros c Hcm; [done|].
  rewrite IH by lia. rewrite (proj2 (Z.eqb_neq c b)) by lia.
  rewrite <- (take_drop_middle slots d _ Hs) at 1.
  pose proof (lookup_lt_Some _ _ _ Hs) as Hlt.
  assert (length (take d slots) = d) as El by (rewrite length_take; lia).
  rewrite route_slots_skip.
  2:{ intros j Hj. unfold claims. specialize (Hlo j ltac:(lia)). rewrite (proj2 (Z.leb_gt c _)) by lia. apply andb_false_r. }
  rewrite El, Nat.add_0_l. cbn [route_slots]. rewrite route_bridge. unfold claims at 1. rewrite Hsec.
  rewrite (proj2 (Z.leb_le b' c)), (proj2 (Z.leb_le c _)) by lia. simpl.
  rewrite (route_slots_none regs p c (drop (S d) slots)); [by destruct (c =? b'), (route_slots regs (p ++ [d]) 0 kids c)|].
  intros j Hj. unfold claims. destruct (Hhi j ltac:(lia) []) as [E1 E2]. rewrite E1, E2.
  rewrite (proj2 (Z.leb_gt c 0)) by lia. apply andb_false_r.
Qed.

(** Raising the numbers on the way, and changes below the bus, keep the way. *)
Definition agree (P : path) (regs regs' : Regs) (m : Z) : Prop :=
  (∀ q, q ≠ [] → q `prefix_of` P → secondary (regs' q) = secondary (regs q) ∧ m ≤ subordinate (regs' q)) ∧
  (∀ q, ¬ q `prefix_of` P → ¬ P `prefix_of` q → regs' q = regs q).

Lemma sibling_apart (p q : path) (d j : nat) P : p ++ [d] `prefix_of` P → j ≠ d →
  ¬ (p ++ j :: q) `prefix_of` P ∧ ¬ P `prefix_of` (p ++ j :: q).
Proof.
  intros [r ->] Hj. rewrite <- app_assoc. split; intros Hp; apply prefix_app_inv in Hp; simpl in Hp;
  apply prefix_cons_inv_1 in Hp; congruence.
Qed.

Lemma ctx_mono regs regs' m m' top stk p slots b P : ctx regs m top stk p slots b → p `prefix_of` P →
  agree P regs regs' m' → m ≤ m' → ctx regs' m' top stk p slots b.
Proof.
  intros Hc. revert P. induction Hc as [dv|br stk p slots b d v i kids b' dv' Hc IH Hd Hs Hsec Hb Hbm Hsub Hlo Hhi];
    intros P HP Ha Hm; [constructor|].
  destruct (Ha) as [Ha1 Ha2]. destruct (Ha1 (p ++ [d])) as [E1 E2]; [by destruct p|done|].
  econstructor; try done.
  - apply (IH P); [|done..]. etrans; [|exact HP]. by exists [d].
  - by rewrite E1.
  - lia.
  - intros j Hj. destruct (sibling_apart p [] d j P HP ltac:(lia)) as [H1 H2]. rewrite Ha2 by done. by apply Hlo.
  - intros j Hj q. destruct (sibling_apart p q d j P HP ltac:(lia)) as [H1 H2]. rewrite Ha2 by done. by apply Hhi.
Qed.

(** ** Running the iterator on such a chip *)

Section Run.
Context {V : Type} `{PC : PciChip V} `{PT : PciTypes} `{HT : !PciTree V}.
Context (top : list Slot) (B : Z).

(** The state of the iterator that is not finished. *)
Definition st (v : V) (stk : list Bridge) (f : Z) (mul : bool) : PciIterator V :=
  mk_PciIterator (mk_PcieController v None) 0 stk B f mul false.

Definition sees (v : V) (regs : Regs) : Prop := pt_tree v = top ∧ pt_regs v = regs.

Lemma same_sees v w regs : pt_same v w → sees v regs → sees w regs.
Proof. intros [E1 E2] [E3 E4]. split; congruence. Qed.

Lemma ctx_le regs m stk p slots b : ctx regs m top stk p slots b → 0 ≤ m → b ≤ m.
Proof. intros Hc Hm. inversion Hc; lia. Qed.

Lemma ctx_reach v regs m stk p slots b : sees v regs → ctx regs m top stk p slots b → 0 ≤ m →
  route (pt_regs v) (pt_tree v) b = Some (p, slots).
Proof.
  intros [-> ->] Hc Hm. rewrite (ctx_route _ _ _ _ _ _ _ Hc) by (split; [done|by eapply ctx_le]). by rewrite Z.eqb_refl.
Qed.

(** The bus numbers of the bridge on top of the stack. *)
Lemma numbers_run v regs m h dv stk p slots b : sees v regs → 0 ≤ m →
  ctx regs m top (mk_Bridge (Some h) dv :: stk) p slots b →
  ∃ w x, chip_read (hb_address h) 0x18 v = (w, x) ∧ sees w regs ∧
    regs p = mk_BusNumber (get_bits x 0 8) (get_bits x 8 16) (get_bits x 16 24) ∧ b = secondary (regs p).
Proof.
  intros Hv Hm Hc. inversion Hc as [|br stk' p' slots' b' d vi i kids b'' dv' Hc' Hd Hs Hsec]; subst. simpl.
  pose proof (ctx_reach v regs m _ _ _ _ Hv Hc' Hm) as Hr.
  assert (header_at slots' (Z.to_nat (Z.of_nat d)) (Z.to_nat 0) = Some (HdBridge vi i)) as Hh.
  { unfold header_at. rewrite Nat2Z.id, Hs. done. }
  pose proof (pt_bus v (mk_PciAddress 0 b' (Z.of_nat d) 0) p' slots' vi i Hr Hh) as Hb. simpl in Hb. rewrite Nat2Z.id in Hb.
  destruct (chip_read _ 0x18 v) as [w x]. destruct Hb as [Hsame E]. exists w, x. split; [done|].
  split; [by eapply same_sees|]. destruct Hv as [_ Hv]. rewrite Hv in E. by split.
Qed.

Lemma field_run v regs m br dv stk p slots b lo hi : sees v regs → 0 ≤ m →
  ctx regs m top (mk_Bridge br dv :: stk) p slots b →
  ∃ w, sees w regs ∧ bus_field lo hi br (mk_PcieController v None) =
    (mk_PcieController w None, Ok (match br with None => 0 | Some _ =>
      get_bits (chip_read (match br with Some h => hb_address h | None => mk_PciAddress 0 0 0 0 end) 0x18 v).2 lo hi end)).
Proof.
  intros Hv Hm Hc. destruct br as [h|]; [|by exists v].
  destruct (numbers_run v regs m h dv stk p slots b Hv Hm Hc) as (w & x & E & Hw & _).
  exists w. split; [done|]. unfold bus_field, cfg_read, on_chip, mbind, M_bind. simpl. by rewrite E.
Qed.

Lemma secondary_run v regs m br dv stk p slots b : sees v regs → 0 ≤ m →
  ctx regs m top (mk_Bridge br dv :: stk) p slots b →
  ∃ w, sees w regs ∧ secondary_bus_number br (mk_PcieController v None) = (mk_PcieController w None, Ok b).
Proof.
  intros Hv Hm Hc. destruct (field_run v regs m br dv stk p slots b 8 16 Hv Hm Hc) as (w & Hw & E). exists w. split; [done|].
  unfold secondary_bus_number. rewrite E. do 2 f_equal. destruct br as [h|]; [|by inversion Hc].
  destruct (numbers_run v regs m h dv stk p slots b Hv Hm Hc) as (? & x & -> & _ & Er & ->). by rewrite Er.
Qed.

(** The root has no subordinate number. *)
Definition sub_of (regs : Regs) (p : path) : Z := match p with [] => 0 | _ => subordinate (regs p) end.

Lemma ctx_path regs m br dv stk p slots b : ctx regs m top (mk_Bridge br dv :: stk) p slots b → br = None ↔ p = [].
Proof. intros Hc. inversion Hc; subst; [done|]. split; [done|]. by destruct p0. Qed.

Lemma subordinate_run v regs m br dv stk p slots b : sees v regs → 0 ≤ m →
  ctx regs m top (mk_Bridge br dv :: stk) p slots b →
  ∃ w, sees w regs ∧ subordinate_bus_number br (mk_PcieController v None) = (mk_PcieController w None, Ok (sub_of regs p)).
Proof.
  intros Hv Hm Hc. destruct (field_run v regs m br dv stk p slots b 16 24 Hv Hm Hc) as (w & Hw & E). exists w. split; [done|].
  unfold subordinate_bus_number. rewrite E. do 2 f_equal. pose proof (ctx_path _ _ _ _ _ _ _ _ Hc) as Hp. unfold sub_of.
  destruct br as [h|]; [|by rewrite (proj1 Hp)].
  destruct (numbers_run v regs m h dv stk p slots b Hv Hm Hc) as (? & x & -> & _ & Er & _).
  destruct p; [discriminate (proj2 Hp eq_refl)|]. by rewrite Er.
Qed.

(** [address] and the identification of the function there. *)
Lemma header_run v regs m br stk p slots b d f mul : sees v regs → 0 ≤ m → (d ≤ 31)%nat → (f ≤ 7)%nat →
  ctx regs m top (mk_Bridge br (Z.of_nat d) :: stk) p slots b →
  let a := mk_PciAddress 0 b (Z.of_nat d) (Z.of_nat f) in let stk' := mk_Bridge br (Z.of_nat d) :: stk in
  ∃ w, sees w regs ∧
    (a ← address; o ← with_root (header_new a); mret (a, o)) (st v stk' (Z.of_nat f) mul) =
    (st w stk' (Z.of_nat f) mul, Ok (a, match header_at slots d f with
      | Some (HdEndpoint i e _) | Some (HdBridge i e) => if i =? 0xffff then None else Some (mk_PciHeaderBase i e a)
      | None => None end)).
Proof.
  intros Hv Hm Hd Hf Hc a stk'. destruct (secondary_run v regs m br _ stk p slots b Hv Hm Hc) as (w1 & Hw1 & E1).
  pose proof (pt_id w1 a p slots) as Hid. simpl in Hid.
  specialize (Hid (ctx_reach w1 regs m _ _ _ _ Hw1 Hc Hm)). rewrite !Nat2Z.id in Hid.
  destruct (chip_read a 0 w1) as [w2 x] eqn:E2. destruct Hid as [Hsame Hid].
  exists w2. split; [by eapply same_sees|].
  unfold address, st, with_root, mbind, M_bind, get, lift. simpl. rewrite E1. simpl. rewrite address_new_ok by lia.
  unfold header_new, cfg_read, on_chip, mbind, M_bind. simpl. unfold a in E2. rewrite E2. simpl.
  destruct (id_of x) as [i e] eqn:Ei. simpl in Hid.
  destruct (header_at slots d f) as [[i' e' mm|i' e']|]; [injection Hid as -> ->|injection Hid as -> ->|subst i]; done.
Qed.

Lemma with_root_run {A} (m : M (PcieController V) NoErr A) v stk f mul w x :
  m (mk_PcieController v None) = (mk_PcieController w None, Ok x) →
  with_root m (st v stk f mul) = (st w stk f mul, Ok x).
Proof. intros E. unfold with_root. simpl. by rewrite E. Qed.

Lemma gcv_eq s s' a o : (a ← address; o ← with_root (header_new a); mret (a, o)) s = (s', Ok (a, o)) →
  ∃ s1, address s = (s1, Ok a) ∧ with_root (header_new a) s1 = (s', Ok o).
Proof.
  intros E. apply bind_ok_inv in E as (s1 & a' & E1 & E). apply bind_ok_inv in E as (s2 & o' & E2 & E).
  injection E as <- <- <-. by exists s1.
Qed.

Lemma gcv_none v regs m br stk p slots b d f mul : sees v regs → 0 ≤ m → (d ≤ 31)%nat → (f ≤ 7)%nat →
  ctx regs m top (mk_Bridge br (Z.of_nat d) :: stk) p slots b → header_at slots d f = None →
  ∃ w, sees w regs ∧ get_current_valid (st v (mk_Bridge br (Z.of_nat d) :: stk) (Z.of_nat f) mul) =
    (st w (mk_Bridge br (Z.of_nat d) :: stk) (Z.of_nat f) mul, Ok None).
Proof.
  intros Hv Hm Hd Hf Hc Hh. destruct (header_run v regs m br stk p slots b d f mul Hv Hm Hd Hf Hc) as (w & Hw & E).
  rewrite Hh in E. apply gcv_eq in E as (s1 & E1 & E2). exists w. split; [done|].
  unfold get_current_valid. by rewrite (bind_run _ _ _ _ _ E1), (bind_run _ _ _ _ _ E2).
Qed.

(** The header type and the multi-function bit. *)
Lemma type_run v regs m stk p slots b d f h i e : sees v regs → 0 ≤ m →
  ctx regs m top stk p slots b → header_at slots d f = Some h →
  let a := mk_PciAddress 0 b (Z.of_nat d) (Z.of_nat f) in let base := mk_PciHeaderBase i e a in
  (∃ w, sees w regs ∧ has_multiple_functions base (mk_PcieController v None) = (mk_PcieController w None,
     Ok (match h with HdEndpoint _ _ m => m | HdBridge _ _ => false end))) ∧
  (∃ w, sees w regs ∧ header_type base (mk_PcieController v None) = (mk_PcieController w None,
     Ok (match h with HdEndpoint _ _ _ => HEndpoint | HdBridge _ _ => HPciPciBridge end))).
Proof.
  intros Hv Hm Hc Hh a base. pose proof (pt_type v a p slots h) as Ht. simpl in Ht.
  rewrite !Nat2Z.id in Ht. specialize (Ht (ctx_reach v regs m _ _ _ _ Hv Hc Hm) Hh).
  destruct (chip_read a 0x0c v) as [w x] eqn:E. destruct Ht as (Hs & E1 & E2).
  split; exists w; (split; [by eapply same_sees|]);
    unfold has_multiple_functions, header_type, cfg_read, on_chip, mbind, M_bind; simpl; first [rewrite E | unfold a in E; rewrite E | fold a; rewrite E];
    unfold mret, M_ret; congruence.
Qed.

Lemma gcv_endpoint v regs m br stk p slots b d f mul i e mm : sees v regs → 0 ≤ m → (d ≤ 31)%nat → (f ≤ 7)%nat →
  ctx regs m top (mk_Bridge br (Z.of_nat d) :: stk) p slots b → header_at slots d f = Some (HdEndpoint i e mm) → i ≠ 0xffff →
  ∃ w, sees w regs ∧ get_current_valid (st v (mk_Bridge br (Z.of_nat d) :: stk) (Z.of_nat f) mul) =
    (st w (mk_Bridge br (Z.of_nat d) :: stk) (Z.of_nat f) mm,
     Ok (Some (CfgEndpoint (mk_PciHeaderBase i e (mk_PciAddress 0 b (Z.of_nat d) (Z.of_nat f)))))).
Proof.
  intros Hv Hm Hd Hf Hc Hh Hi. destruct (header_run v regs m br stk p slots b d f mul Hv Hm Hd Hf Hc) as (w & Hw & E).
  rewrite Hh, (proj2 (Z.eqb_neq i _) Hi) in E. apply gcv_eq in E as (s1 & E1 & E2).
  destruct (type_run w regs m _ p slots b d f _ i e Hw Hm Hc Hh) as [(w1 & Hw1 & T1) _].
  destruct (type_run w1 regs m _ p slots b d f _ i e Hw1 Hm Hc Hh) as [_ (w2 & Hw2 & T2)].
  destruct (type_run w2 regs m _ p slots b d f _ i e Hw2 Hm Hc Hh) as [_ (w3 & Hw3 & T3)].
  exists w3. split; [done|]. unfold get_current_valid.
  rewrite (bind_run _ _ _ _ _ E1), (bind_run _ _ _ _ _ E2).
  unfold with_root, mbind, M_bind, modify, st. simpl root. rewrite T1. simpl root. rewrite T2. simpl root.
  unfold endpoint_new, mbind, M_bind, get. rewrite T3. done.
Qed.

(** A write of the bus numbers of a bridge the chip lets us reach. *)
Lemma update_run v regs m stk p slots b d vi di bn g : sees v regs → 0 ≤ m → ctx regs m top stk p slots b →
  slots !! d = Some (BridgeSlot vi di bn) →
  ∀ new, g (regs (p ++ [d])) = Ok new → 0 ≤ primary new < 2 ^ 8 → 0 ≤ secondary new < 2 ^ 8 → 0 ≤ subordinate new < 2 ^ 8 →
  ∃ w regs', sees w regs' ∧ (∀ q, regs' q = if decide (q = p ++ [d]) then new else regs q) ∧
    update_bus_number (Some (mk_PciHeaderBase vi di (mk_PciAddress 0 b (Z.of_nat d) 0))) g (mk_PcieController v None) =
    (mk_PcieController w None, Ok tt).
Proof.
  intros Hv Hm Hc Hs new Hg H1 H2 H3. set (a := mk_PciAddress 0 b (Z.of_nat d) 0).
  assert (header_at slots (Z.to_nat (pa_device a)) (Z.to_nat (pa_function a)) = Some (HdBridge vi di)) as Hh.
  { unfold header_at. simpl. by rewrite Nat2Z.id, Hs. }
  pose proof (pt_bus v a p slots vi di (ctx_reach v regs m _ _ _ _ Hv Hc Hm) Hh) as Hb.
  destruct (chip_read a 0x18 v) as [w x] eqn:E. destruct Hb as [Hsame Eb]. simpl in Eb. rewrite Nat2Z.id in Eb.
  assert (sees w regs) as Hw by (by eapply same_sees).
  set (y := set_bits (set_bits (set_bits x 16 24 (subordinate new)) 8 16 (secondary new)) 0 8 (primary new)).
  pose proof (pt_set_bus w a p slots vi di y (ctx_reach w regs m _ _ _ _ Hw Hc Hm) Hh) as Hset. simpl in Hset.
  rewrite Nat2Z.id in Hset. destruct Hset as [Ht Hr].
  exists (chip_write a 0x18 y w), (pt_regs (chip_write a 0x18 y w)). split; [split; [rewrite Ht; apply Hw|done]|]. split.
  - intros q. rewrite Hr. destruct (decide _); [|by rewrite (proj2 Hw)]. unfold y. destruct new as [n1 n2 n3]. simpl in *.
    f_equal.
    + apply get_set_same; lia.
    + rewrite get_set_apart by lia. apply get_set_same; lia.
    + rewrite !get_set_apart by lia. apply get_set_same; lia.
  - unfold update_bus_number, cfg_read, cfg_write, on_chip, mbind, M_bind. simpl. fold a. rewrite E. simpl.
    destruct Hv as [_ Hv]. rewrite Hv in Eb. rewrite <- Eb, Hg. done.
Qed.

(** A bridge is given the next bus number. *)
Lemma gcv_bridge v regs m br stk p slots b d mul i e kids : sees v regs → 0 ≤ m → (d ≤ 31)%nat →
  ctx regs m top (mk_Bridge br (Z.of_nat d) :: stk) p slots b → slots !! d = Some (BridgeSlot i e kids) → i ≠ 0xffff →
  sub_of regs p = m → m ≠ B → m + 1 < 2 ^ 8 →
  ∃ w regs', sees w regs' ∧ (∀ q, regs' q = if decide (q = p ++ [d]) then mk_BusNumber b (m + 1) (m + 1) else regs q) ∧
    get_current_valid (st v (mk_Bridge br (Z.of_nat d) :: stk) 0 mul) =
    (st w (mk_Bridge br (Z.of_nat d) :: stk) 0 false,
     Ok (Some (CfgPciPciBridge (Some (mk_PciHeaderBase i e (mk_PciAddress 0 b (Z.of_nat d) 0)))))).
Proof.
  intros Hv Hm Hd Hc Hs Hi Hsub HB Hmax. set (stk' := mk_Bridge br (Z.of_nat d) :: stk) in *.
  assert (header_at slots d 0 = Some (HdBridge i e)) as Hh by (unfold header_at; by rewrite Hs).
  destruct (header_run v regs m br stk p slots b d 0 mul Hv Hm Hd ltac:(lia) Hc) as (w & Hw & E).
  rewrite Hh, (proj2 (Z.eqb_neq i _) Hi) in E. apply gcv_eq in E as (s1 & E1 & E2).
  destruct (type_run w regs m _ p slots b d 0 _ i e Hw Hm Hc Hh) as [(w1 & Hw1 & T1) _].
  destruct (type_run w1 regs m _ p slots b d 0 _ i e Hw1 Hm Hc Hh) as [_ (w2 & Hw2 & T2)].
  destruct (type_run w2 regs m _ p slots b d 0 _ i e Hw2 Hm Hc Hh) as [_ (w3 & Hw3 & T3)].
  destruct (subordinate_run w3 regs m _ _ _ p slots b Hw3 Hm Hc) as (w4 & Hw4 & T4).
  destruct (subordinate_run w4 regs m _ _ _ p slots b Hw4 Hm Hc) as (w5 & Hw5 & T5).
  rewrite Hsub in T4, T5. pose proof (ctx_le _ _ _ _ _ _ Hc Hm). pose proof (ctx_nonneg _ _ _ _ _ _ _ Hc).
  destruct (update_run w5 regs m _ p slots b d i e kids (λ _, Ok (mk_BusNumber b (m + 1) (m + 1))) Hw5 Hm Hc Hs
    (mk_BusNumber b (m + 1) (m + 1)) eq_refl ltac:(simpl; lia) ltac:(simpl; lia) ltac:(simpl; lia)) as (w6 & regs' & Hw6 & Hr & T6).
  exists w6, regs'. split; [done|]. split; [done|]. unfold get_current_valid.
  change (Z.of_nat 0) with 0 in *. rewrite (bind_run _ _ _ _ _ E1), (bind_run _ _ _ _ _ E2).
  rewrite (bind_run _ _ _ _ _ (with_root_run _ _ _ _ _ _ _ T1)). rewrite (bind_run (modify (set_multiple false)) _ (st w1 stk' 0 mul) (st w1 stk' 0 false) tt eq_refl).
  rewrite (bind_run _ _ _ _ _ (with_root_run _ _ _ _ _ _ _ T2)).
  assert (bridge_new (mk_PciHeaderBase i e (mk_PciAddress 0 b (Z.of_nat d) 0)) (mk_PcieController w2 None) =
    (mk_PcieController w3 None, Ok (Some (mk_PciHeaderBase i e (mk_PciAddress 0 b (Z.of_nat d) 0))))) as T3'.
  { unfold bridge_new. by rewrite (bind_run _ _ _ _ _ T3). }
  rewrite (bind_run _ _ _ _ _ (with_root_run _ _ _ _ _ _ _ T3')), (bind_run get _ (st w3 stk' 0 false) _ _ eq_refl).
  cbn [stack st stk' bridge bus_max].
  rewrite (bind_run _ _ _ _ _ (with_root_run _ _ _ _ _ _ _ T4)), (proj2 (Z.eqb_neq m B) HB).
  rewrite (bind_run _ _ _ _ _ (with_root_run _ _ _ _ _ _ _ T5)), (bind_lift _ _ _ (m + 1)) by (by apply uadd_ok).
  by rewrite (bind_run _ _ _ _ _ (with_root_run _ _ _ _ _ _ _ T6)).
Qed.

(** ** Entering the bus behind a bridge *)

Definition extended (bn : BusNumber) : BusNumber := mk_BusNumber (primary bn) (secondary bn) (subordinate bn + 1).
Definition above (p q : path) : Prop := q ≠ [] ∧ q `prefix_of` p.
#[local] Instance above_dec p q : Decision (above p q).
Proof. unfold above. apply _. Defined.

Lemma above_snoc p d q : above (p ++ [d]) q ↔ above p q ∨ q = p ++ [d].
Proof.
  unfold above. split.
  - intros [Hq [r Hr]]. destruct (decide (r = [])) as [->|Hn].
    + rewrite app_nil_r in Hr. by right.
    + left. split; [done|]. destruct (exists_last Hn) as (r' & x & ->). rewrite app_assoc in Hr.
      apply app_inj_tail in Hr as [-> _]. by exists r'.
  - intros [[Hq [r ->]]| ->].
    + split; [done|]. exists (r ++ [d]). by rewrite app_assoc.
    + split; [by destruct p|done].
Qed.

Lemma app_ne_r (p : path) d : p ++ [d] ≠ [].
Proof. by destruct p. Qed.

Lemma above_below p d q : ¬ above p (p ++ d :: q).
Proof. intros [_ [r Hr]]. apply (f_equal length) in Hr. rewrite !length_app in Hr. simpl in Hr. lia. Qed.

(** A bridge on the way passes on the numbers up to [m]. *)
Lemma ctx_sub regs m stk p slots b q : ctx regs m top stk p slots b → above p q → m ≤ subordinate (regs q).
Proof.
  intros Hc. revert q. induction Hc; intros q Hq.
  - destruct Hq as [Hq [r Hr]]. by destruct q.
  - apply above_snoc in Hq as [Hq| ->]; [by apply IHHc|done].
Qed.

Lemma extend_parents_app l l' s s1 : extend_parents l s = (s1, Ok tt) →
  extend_parents (l ++ l') s = extend_parents l' s1.
Proof.
  revert s. induction l as [|x l IH]; intros s E; simpl in *; [by injection E as ->|].
  apply bind_ok_inv in E as (s2 & y & E1 & E2). rewrite (bind_run _ _ _ _ _ E1). by apply IH.
Qed.

(** The numbers of a bridge are bytes. *)
Lemma numbers_range v regs m br dv stk p slots b : sees v regs → 0 ≤ m → p ≠ [] →
  ctx regs m top (mk_Bridge br dv :: stk) p slots b →
  0 ≤ primary (regs p) < 2 ^ 8 ∧ 0 ≤ secondary (regs p) < 2 ^ 8 ∧ 0 ≤ subordinate (regs p) < 2 ^ 8.
Proof.
  intros Hv Hm Hp Hc. pose proof (ctx_path _ _ _ _ _ _ _ _ Hc) as Hb.
  destruct br as [h|]; [|by destruct Hp; apply Hb].
  destruct (numbers_run v regs m h dv stk p slots b Hv Hm Hc) as (w & x & _ & _ & -> & _). simpl.
  pose proof (get_bits_range x 0 8). pose proof (get_bits_range x 8 16). pose proof (get_bits_range x 16 24). lia.
Qed.

(** Every bridge on the stack is extended by one bus. *)
Lemma extend_run regs m stk p slots b : ctx regs m top stk p slots b → 0 ≤ m →
  (∀ q, above p q → subordinate (regs q) + 1 < 2 ^ 8) → ∀ v, sees v regs →
  ∃ w regs', sees w regs' ∧ (∀ q, regs' q = if decide (above p q) then extended (regs q) else regs q) ∧
    extend_parents (rev stk) (mk_PcieController v None) = (mk_PcieController w None, Ok tt).
Proof.
  intros Hc Hm. induction Hc as [dv|br stk p slots b d vi i kids b' dv' Hc IH Hd Hs Hsec Hb Hbm Hsub Hlo Hhi]; intros Ha v Hv.
  - exists v, regs. split; [done|]. split; [|done]. intros q. rewrite decide_False; [done|]. intros [Hq [r Hr]]. by destruct q.
  - destruct (IH ltac:(intros q Hq; apply Ha, above_snoc; by left) v Hv) as (w1 & regs1 & Hw1 & Hr1 & E1).
    assert (ctx regs1 m top (mk_Bridge br (Z.of_nat d) :: stk) p slots b) as Hc1.
    { apply (ctx_mono regs regs1 m m _ _ _ _ _ p Hc); [done| |done]. split.
      - intros q Hq Hp. rewrite Hr1, decide_True by done. simpl.
        pose proof (ctx_sub _ _ _ _ _ _ q Hc ltac:(done)). lia.
      - intros q Hp _. rewrite Hr1, decide_False; [done|]. by intros [_ ?]. }
    assert (ctx regs m top (mk_Bridge (Some (mk_PciHeaderBase vi i (mk_PciAddress 0 b (Z.of_nat d) 0))) dv' ::
      mk_Bridge br (Z.of_nat d) :: stk) (p ++ [d]) kids b') as Hc' by by econstructor.
    destruct (numbers_range v regs m _ _ _ _ _ _ Hv Hm (app_ne_r p d) Hc') as (R1 & R2 & R3).
    assert (regs1 (p ++ [d]) = regs (p ++ [d])) as E2.
    { rewrite Hr1, decide_False; [done|]. apply above_below. }
    pose proof (Ha (p ++ [d]) ltac:(apply above_snoc; by right)) as Hmax.
    destruct (update_run w1 regs1 m _ p slots b d vi i kids (λ bus,
      sub ← uadd 8 (subordinate bus) 1; Ok (mk_BusNumber (primary bus) (secondary bus) sub)) Hw1 Hm Hc1 Hs (extended (regs (p ++ [d]))))
      as (w2 & regs2 & Hw2 & Hr2 & E3); [|done|done|simpl; lia|].
    { rewrite E2, uadd_ok by lia. done. }
    exists w2, regs2. split; [done|]. split.
    + intros q. rewrite Hr2. destruct (decide (q = p ++ [d])) as [->|Hq].
      * rewrite decide_True; [done|]. apply above_snoc. by right.
      * rewrite Hr1. apply decide_ext; rewrite above_snoc; tauto.
    + simpl rev. simpl rev in E1. rewrite (extend_parents_app _ _ _ _ E1). simpl.
      by rewrite (bind_run _ _ _ _ _ E3).
Qed.

(** ** The invariant of the scan *)

(** All bridges on the way end at [n]; of the bus, the devices below [d] are
    done and the others as after reset. *)
Record scanning (v : V) (regs : Regs) (n : Z) (stk : list Bridge) (p : path) (slots : list Slot) (b : Z) (d : nat) : Prop := {
  sc_sees : sees v regs;
  sc_pos : 0 ≤ n;
  sc_ctx : ctx regs n top stk p slots b;
  sc_tight q : above p q → subordinate (regs q) = n;
  sc_done j : (j < d)%nat → subordinate (regs (p ++ [j])) ≤ n;
  sc_fresh j : (d ≤ j)%nat → fresh regs p j
}.

(** What the scan of the device [d] of the bus [p] changes. *)
Record scanned (regs regs' : Regs) (n n' : Z) (p : path) (d : nat) : Prop := {
  sd_le : n ≤ n';
  sd_apart q : ¬ above p q → ¬ (p ++ [d]) `prefix_of` q → regs' q = regs q;
  sd_above q : above p q → regs' q = mk_BusNumber (primary (regs q)) (secondary (regs q)) n';
  sd_sub : subordinate (regs' (p ++ [d])) ≤ n'
}.

(** Changes at and above the bus, and in the device [d], keep the stack. *)
Lemma scanned_ctx regs regs' n n' stk p slots b d : ctx regs n top stk p slots b → scanned regs regs' n n' p d →
  ctx regs' n' top stk p slots b.
Proof.
  intros Hc [Hle Hap Hab Hs]. apply (ctx_mono regs regs' n n' _ _ _ _ _ p Hc); [done| |done]. split.
  - intros q Hq Hp. rewrite Hab by done. simpl. lia.
  - intros q Hp Hp'. apply Hap; [by intros [_ ?]|]. intros Hp2. apply Hp'. etrans; [|done]. by exists [d].
Qed.

Lemma scanned_scanning v w regs regs' n n' br stk p slots b d dv :
  scanning v regs n (mk_Bridge br dv :: stk) p slots b d → sees w regs' → scanned regs regs' n n' p d →
  scanning w regs' n' (mk_Bridge br (Z.of_nat (S d)) :: stk) p slots b (S d).
Proof.
  intros [Hv Hp Hc Ht Hdn Hf] Hw Hs. pose proof (scanned_ctx _ _ _ _ _ _ _ _ _ Hc Hs) as Hc'.
  destruct Hs as [Hle Hap Hab Hsub]. split; [done|lia|by eapply ctx_device|..].
  - intros q Hq. by rewrite Hab.
  - intros j Hj. destruct (decide (j = d)) as [->|Hne]; [done|]. rewrite Hap; [specialize (Hdn j ltac:(lia)); lia|apply above_below|].
    intros Hpre. apply prefix_app_inv in Hpre as [r Hr]. injection Hr as -> _. done.
  - intros j Hj q. rewrite Hap; [apply Hf; lia|apply above_below|].
    intros Hpre. apply prefix_app_inv in Hpre as [r Hr]. injection Hr as -> _. lia.
Qed.

(** ** Entering the bus behind a bridge *)

Lemma turn_bridge v regs n br stk p slots b d mul i e kids :
  scanning v regs n (mk_Bridge br (Z.of_nat d) :: stk) p slots b d → (d ≤ 31)%nat →
  slots !! d = Some (BridgeSlot i e kids) → i ≠ 0xffff → (p = [] → n = 0) → n < B → n + 1 < 2 ^ 8 →
  let stk' := mk_Bridge br (Z.of_nat d) :: stk in
  let down := mk_Bridge (Some (mk_PciHeaderBase i e (mk_PciAddress 0 b (Z.of_nat d) 0))) 0 :: stk' in
  ∃ w regs', turn (st v stk' 0 mul) = (st w down 0 false, Ok None) ∧
    scanning w regs' (n + 1) down (p ++ [d]) kids (n + 1) 0 ∧
    (∀ q, regs' q = if decide (q = p ++ [d]) then mk_BusNumber b (n + 1) (n + 1)
                    else if decide (above p q) then extended (regs q) else regs q).
Proof.
  intros [Hv Hp Hc Ht Hdn Hf] Hd Hs Hi Hroot HB Hmax stk' down.
  assert (sub_of regs p = n) as Hsub.
  { destruct p as [|x p]; [by rewrite Hroot|]. simpl. by apply Ht. }
  destruct (gcv_bridge v regs n br stk p slots b d mul i e kids Hv Hp Hd Hc Hs Hi Hsub ltac:(lia) Hmax)
    as (w1 & regs1 & Hw1 & Hr1 & E1).
  pose proof (ctx_nonneg _ _ _ _ _ _ _ Hc) as Hb0. pose proof (ctx_le _ _ _ _ _ _ Hc Hp) as Hbn.
  assert (∀ q, above p q → regs1 q = regs q) as Hab1.
  { intros q Hq. rewrite Hr1, decide_False; [done|]. intros ->. by apply above_below in Hq. }
  assert (ctx regs1 n top stk' p slots b) as Hc1.
  { apply (ctx_mono regs regs1 n n _ _ _ _ _ p Hc); [done| |done]. split.
    - intros q Hq Hpre. rewrite Hab1 by done. by rewrite Ht.
    - intros q _ Hpre. rewrite Hr1, decide_False; [done|]. intros ->. apply Hpre. by exists [d]. }
  destruct (extend_run regs1 n _ p slots b Hc1 Hp ltac:(intros q Hq; rewrite Hab1, Ht by done; done) w1 Hw1)
    as (w2 & regs2 & Hw2 & Hr2 & E2).
  assert (∀ q, regs2 q = if decide (q = p ++ [d]) then mk_BusNumber b (n + 1) (n + 1)
                    else if decide (above p q) then extended (regs q) else regs q) as Hr.
  { intros q. rewrite Hr2, !Hr1. destruct (decide (q = p ++ [d])) as [->|]; [|done].
    rewrite decide_False; [done|]. apply above_below. }
  exists w2, regs2. split; [|split; [|done]].
  { unfold turn. rewrite (bind_run _ _ _ _ _ E1).
    assert (∀ k, (advance (Some k) : M (PciIterator V) NoErr unit) (st w1 stk' 0 false) =
      (st w2 (mk_Bridge k 0 :: stk') 0 false, Ok tt)) as E3.
    { intros k. unfold advance. rewrite (bind_run get _ (st w1 stk' 0 false) _ _ eq_refl). cbn [stack st].
      by rewrite (bind_run _ _ _ _ _ (with_root_run _ _ _ _ _ _ _ E2)). }
    by rewrite (bind_run _ _ _ _ _ (E3 _)). }
  assert (∀ q, above p q → regs2 q = mk_BusNumber (primary (regs q)) (secondary (regs q)) (n + 1)) as Hab.
  { intros q Hq. rewrite Hr, decide_False, decide_True by (try done; intros ->; by apply above_below in Hq).
    unfold extended. by rewrite Ht. }
  assert (regs2 (p ++ [d]) = mk_BusNumber b (n + 1) (n + 1)) as Hd2 by (by rewrite Hr, decide_True).
  split; [done|lia|..].
  - econstructor; [|done|done|by rewrite Hd2|lia|lia|rewrite Hd2; simpl; lia|..].
    + apply (ctx_mono regs regs2 n (n + 1) _ _ _ _ _ p Hc); [done| |lia]. split.
      * intros q Hq Hpre. rewrite Hab by done. simpl. lia.
      * intros q Hn Hpre. rewrite Hr, !decide_False; [done|by intros [_ ?]|]. intros ->. apply Hpre. by exists [d].
    + intros j Hj. rewrite Hr, !decide_False; [specialize (Hdn j Hj); lia|apply above_below|].
      intros E. apply app_inv_head in E. injection E as ->. lia.
    + intros j Hj q. rewrite Hr, !decide_False; [apply Hf; lia|apply above_below|].
      intros E. apply app_inv_head in E. injection E as -> _. lia.
  - intros q Hq. apply above_snoc in Hq as [Hq| ->]; [by rewrite Hab|by rewrite Hd2].
  - lia.
  - intros j _ q. rewrite <- app_assoc. simpl. rewrite Hr, !decide_False; [by apply Hf|apply above_below|].
    intros E. apply app_inv_head in E. discriminate.
Qed.

(** ** Turns in a row *)

Inductive runs : PciIterator V → list PciHeaderBase → PciIterator V → Prop :=
| runs_nil s : runs s [] s
| runs_none s s1 es s' : is_finish s = false → turn s = (s1, Ok None) → runs s1 es s' → runs s es s'
| runs_some s s1 e es s' : is_finish s = false → turn s = (s1, Ok (Some e)) → runs s1 es s' → runs s (e :: es) s'.

Lemma runs_app s1 es s2 es' s3 : runs s1 es s2 → runs s2 es' s3 → runs s1 (es ++ es') s3.
Proof.
  induction 1 as [| |]; intros Hr; [done|..]; [eapply runs_none|simpl; eapply runs_some]; by eauto.
Qed.

Definition next_dev : M (PciIterator V) NoErr unit := next_device.

(** The turns from [s] yield [es] and go on from the device after that of [t]. *)
Definition ends (s : PciIterator V) (es : list PciHeaderBase) (t : PciIterator V) : Prop :=
  ∀ s', next_dev t = (s', Ok tt) → runs s es s'.

Lemma next_device_step v br d stk f mul : (d < 31)%nat →
  next_dev (st v (mk_Bridge br (Z.of_nat d) :: stk) f mul) = (st v (mk_Bridge br (Z.of_nat (S d)) :: stk) f mul, Ok tt).
Proof.
  intros Hd. unfold next_dev, next_device, st, mbind, M_bind, get. cbn [stack].
  cbn [next_device_loop]. unfold next_device_not_ok, mbind, M_bind, get. cbn [stack device].
  unfold MAX_DEVICE. rewrite (proj2 (Z.eqb_neq (Z.of_nat d) 31)) by lia.
  unfold lift. rewrite uadd_ok by lia. unfold modify, set_stack. simpl. by replace (Z.of_nat d + 1) with (Z.of_nat (S d)) by lia.
Qed.

Lemma next_device_pop v regs m br stk p slots b f mul : sees v regs → 0 ≤ m →
  ctx regs m top (mk_Bridge br 31 :: stk) p slots b → sub_of regs p ≠ B →
  ∃ w, sees w regs ∧ next_dev (st v (mk_Bridge br 31 :: stk) f mul) = next_dev (st w stk 0 mul).
Proof.
  intros Hv Hm Hc HB. destruct (subordinate_run v regs m br 31 stk p slots b Hv Hm Hc) as (w & Hw & E).
  exists w. split; [done|]. unfold next_dev at 1, next_device, st. rewrite (bind_run get _ _ _ _ eq_refl). cbn [stack length].
  assert (next_device_not_ok (st v (mk_Bridge br 31 :: stk) f mul) = (st w stk 0 mul, Ok true)) as E1.
  { unfold next_device_not_ok. rewrite (bind_run get _ _ _ _ eq_refl). cbn [st stack device]. 
    replace (31 =? MAX_DEVICE) with true by done.
    rewrite (bind_run (modify (set_stack stk)) _ (st v (mk_Bridge br 31 :: stk) f mul) (st v stk f mul) tt eq_refl). cbn [bridge bus_max].
    rewrite (bind_run _ _ _ _ _ (with_root_run _ _ _ _ _ _ _ E)). apply Z.eqb_neq in HB.
    unfold mbind, M_bind, modify, set_finish, mret, M_ret. simpl. by rewrite HB. }
  cbn [next_device_loop]. unfold st in E1. by rewrite (bind_run _ _ _ _ _ E1).
Qed.

Lemma ends_pop s es v regs m br stk p slots b mul : sees v regs → 0 ≤ m →
  ctx regs m top (mk_Bridge br 31 :: stk) p slots b → sub_of regs p ≠ B →
  ends s es (st v (mk_Bridge br 31 :: stk) 0 mul) → ∃ w, sees w regs ∧ ends s es (st w stk 0 mul).
Proof.
  intros Hv Hm Hc HB He. destruct (next_device_pop v regs m br stk p slots b 0 mul Hv Hm Hc HB) as (w & Hw & E).
  exists w. split; [done|]. intros s' Hs. apply He. by rewrite E.
Qed.

Lemma ends_then s es t t' es' u : next_dev t = (t', Ok tt) → ends s es t → ends t' es' u → ends s (es ++ es') u.
Proof. intros E H1 H2 s' Hs. eapply runs_app; [by apply H1|by apply H2]. Qed.

Lemma ends_none s s1 es t : is_finish s = false → turn s = (s1, Ok None) → ends s1 es t → ends s es t.
Proof. intros Hf E He s' Hs. eapply runs_none; [done..|]. by apply He. Qed.

(** ** The functions of a device *)

Definition adv : M (PciIterator V) NoErr unit := advance None.

Lemma adv_last v stk f mul : mul = false ∨ f = 7 → adv (st v stk f mul) = next_dev (st v stk 0 mul).
Proof.
  intros Hf. unfold adv, advance, is_next_function_max, mbind, M_bind, get, modify, st. simpl.
  destruct mul; [|done]. destruct Hf as [Hf| ->]; done.
Qed.

Lemma adv_next v stk f : (f < 7)%nat → adv (st v stk (Z.of_nat f) true) = (st v stk (Z.of_nat (S f)) true, Ok tt).
Proof.
  intros Hf. unfold adv, advance, is_next_function_max, mbind, M_bind, get, modify, st, MAX_FUNCTION. simpl.
  rewrite (proj2 (Z.eqb_neq (Z.of_nat f) 7)) by lia. simpl. unfold set_function. simpl.
  by replace (Z.of_nat f + 1) with (Z.of_nat (S f)) by lia.
Qed.

(** One function: an endpoint is yielded, and the multi-function bit taken
    from it. *)
Lemma turn_fn v regs m br stk p slots b d f mul o : sees v regs → 0 ≤ m → (d ≤ 31)%nat → (f ≤ 7)%nat →
  ctx regs m top (mk_Bridge br (Z.of_nat d) :: stk) p slots b →
  header_at slots d f = match o with Some (i, e, mm) => Some (HdEndpoint i e mm) | None => None end →
  (∀ i e mm, o = Some (i, e, mm) → i ≠ 0xffff) →
  let stk' := mk_Bridge br (Z.of_nat d) :: stk in
  ∃ w, sees w regs ∧ ∀ s' es u, adv (st w stk' (Z.of_nat f) (match o with Some (_, _, mm) => mm | None => mul end)) = (s', Ok tt) →
    runs s' es u → runs (st v stk' (Z.of_nat f) mul) (ep_at b d f (fst <$> o) ++ es) u.
Proof.
  intros Hv Hm Hd Hf Hc Hh Hi stk'. destruct o as [[[i e] mm]|].
  - destruct (gcv_endpoint v regs m br stk p slots b d f mul i e mm Hv Hm Hd Hf Hc Hh (Hi _ _ _ eq_refl)) as (w & Hw & E).
    exists w. split; [done|]. intros s' es u Ha Hr. simpl. eapply runs_some; [done| |exact Hr].
    unfold turn. rewrite (bind_run _ _ _ _ _ E). by rewrite (bind_run _ _ _ _ _ Ha).
  - destruct (gcv_none v regs m br stk p slots b d f mul Hv Hm Hd Hf Hc Hh) as (w & Hw & E).
    exists w. split; [done|]. intros s' es u Ha Hr. simpl. eapply runs_none; [done| |exact Hr].
    unfold turn. rewrite (bind_run _ _ _ _ _ E). by rewrite (bind_run _ _ _ _ _ Ha).
Qed.

Definition id_ok (o : option (Z * Z)) : bool := match o with Some (i, _) => negb (i =? 0xffff) | None => true end.

Definition fn_of (fns : list (option (Z * Z))) (f : nat) : option (Z * Z) := default None (fns !! f).

Lemma fn_of_id fns f : forallb id_ok fns = true → id_ok (fn_of fns f) = true.
Proof.
  intros Hids. unfold fn_of. destruct (fns !! f) as [o|] eqn:Ef; [|done]. rewrite forallb_forall in Hids.
  apply Hids, list_elem_of_In, (list_elem_of_lookup_2 _ _ _ Ef).
Qed.

Lemma eps_from_step b d f fns : eps_from b d f (drop f fns) = ep_at b d f (fn_of fns f) ++ eps_from b d (S f) (drop (S f) fns).
Proof.
  unfold fn_of. destruct (fns !! f) as [o|] eqn:Ef; simpl; [by rewrite (drop_S _ _ _ Ef)|].
  apply lookup_ge_None in Ef. by rewrite !drop_ge by lia.
Qed.

(** All functions up to 7. *)
Lemma fns_scan regs m br stk p slots b d fns : 0 ≤ m → (d ≤ 31)%nat →
  ctx regs m top (mk_Bridge br (Z.of_nat d) :: stk) p slots b → (length fns ≤ 8)%nat → forallb id_ok fns = true →
  (∀ f, header_at slots d f = match fn_of fns f with Some (i, e) => Some (HdEndpoint i e true) | _ => None end) →
  let stk' := mk_Bridge br (Z.of_nat d) :: stk in
  ∀ k f v, (f + k = 7)%nat → sees v regs → ∃ w, sees w regs ∧
    ends (st v stk' (Z.of_nat f) true) (eps_from b d f (drop f fns)) (st w stk' 0 true).
Proof.
  intros Hm Hd Hc Hl Hids HF stk'.
  assert (∀ f v, (f ≤ 7)%nat → sees v regs → ∃ w, sees w regs ∧ ∀ s' es u,
    adv (st w stk' (Z.of_nat f) true) = (s', Ok tt) → runs s' es u →
    runs (st v stk' (Z.of_nat f) true) (ep_at b d f (fn_of fns f) ++ es) u) as Hone.
  { intros f v Hf Hv. pose proof (fn_of_id fns f Hids) as Hi.
    destruct (turn_fn v regs m br stk p slots b d f true ((λ x, (x, true)) <$> fn_of fns f) Hv Hm Hd Hf Hc) as (w & Hw & Hrun).
    - rewrite HF. by destruct (fn_of fns f) as [[i e]|].
    - intros i e mm E. destruct (fn_of fns f) as [[i' e']|]; [|done]. injection E as -> -> _. by apply negb_true_iff, Z.eqb_neq in Hi.
    - exists w. split; [done|]. by destruct (fn_of fns f) as [[i e]|]. }
  induction k as [|k IH]; intros f v Hk Hv; destruct (Hone f v ltac:(lia) Hv) as (w & Hw & Hrun); rewrite eps_from_step.
  - assert (f = 7%nat) as -> by lia. exists w. split; [done|]. intros s' Hs. rewrite (drop_ge fns 8) by lia.
    eapply Hrun; [|constructor]. by rewrite adv_last by auto.
  - destruct (IH (S f) w ltac:(lia) Hw) as (w' & Hw' & He). exists w'. split; [done|]. intros s' Hs.
    eapply Hrun; [apply adv_next; lia|]. by apply He.
Qed.

(** ** Devices, bridges and buses *)

Fixpoint slot_ok (s : Slot) : bool :=
  match s with
  | NoDevice => true
  | Functions fns => match fns with Some _ :: _ => true | _ => false end && (length fns <=? 8)%nat && forallb id_ok fns
  | BridgeSlot i _ kids => negb (i =? 0xffff) && (length kids =? 32)%nat && forallb slot_ok kids
  end.

Definition is_bridge (s : Slot) : bool := match s with BridgeSlot _ _ _ => true | _ => false end.

Lemma scanned_refl v regs n br stk p slots b d dv : scanning v regs n (mk_Bridge br dv :: stk) p slots b d →
  scanned regs regs n n p d.
Proof.
  intros [Hv Hp Hc Ht Hdn Hf]. split; [done|done| |].
  - intros q Hq. rewrite <- (Ht q Hq). by destruct (regs q).
  - by destruct (Hf d ltac:(lia) []) as [_ ->].
Qed.

Lemma device_scan s v regs n br stk p slots b d mul : slot_ok s = true → is_bridge s = false →
  scanning v regs n (mk_Bridge br (Z.of_nat d) :: stk) p slots b d → (d ≤ 31)%nat → slots !! d = Some s →
  let stk' := mk_Bridge br (Z.of_nat d) :: stk in
  ∃ w mul', sees w regs ∧ ends (st v stk' 0 mul) (match s with Functions fns => eps_from b d 0 fns | _ => [] end) (st w stk' 0 mul').
Proof.
  intros Hok Hb [Hv Hp Hc _ _ _] Hd Hs stk'. destruct s as [|fns|]; [| |done].
  - assert (∀ f, header_at slots d f = None) as Hn by (intros f; unfold header_at; by rewrite Hs).
    destruct mul.
    + destruct (fns_scan regs n br stk p slots b d [] Hp Hd Hc ltac:(simpl; lia) eq_refl Hn 7 0 v eq_refl Hv) as (w & Hw & He). by exists w, true.
    + destruct (turn_fn v regs n br stk p slots b d 0 false None Hv Hp Hd ltac:(lia) Hc (Hn 0%nat) ltac:(done)) as (w & Hw & Hrun).
      exists w, false. split; [done|]. intros s' E. eapply (Hrun s' []); [|constructor]. by rewrite adv_last by auto.
  - simpl in Hok. apply andb_true_iff in Hok as [[H1 H2]%andb_true_iff Hids]. apply Nat.leb_le in H2.
    destruct fns as [|[[i e]|] fns]; [done| |done].
    assert (i ≠ 0xffff) as Hi by (simpl in Hids; apply andb_true_iff in Hids as [Hi _]; by apply negb_true_iff, Z.eqb_neq in Hi).
    set (mm := bool_decide (1 < length (Some (i, e) :: fns))%nat).
    assert (∀ f, header_at slots d f = match fn_of (Some (i, e) :: fns) f with Some (i, e) => Some (HdEndpoint i e mm) | _ => None end) as HF.
    { intros f. unfold header_at, fn_of. rewrite Hs. by destruct ((Some (i, e) :: fns) !! f) as [[[]|]|]. }
    destruct mm eqn:Em.
    + destruct (turn_fn v regs n br stk p slots b d 0 mul (Some (i, e, true)) Hv Hp Hd ltac:(lia) Hc (HF 0%nat)) as (w & Hw & Hrun).
      { intros ??? E. by injection E as <- <- <-. }
      destruct (fns_scan regs n br stk p slots b d _ Hp Hd Hc H2 Hids HF 6 1 w eq_refl Hw) as (w' & Hw' & He).
      exists w', true. split; [done|]. intros s' Hs'. eapply Hrun; [apply (adv_next _ _ 0); lia|]. by apply He.
    + destruct (turn_fn v regs n br stk p slots b d 0 mul (Some (i, e, false)) Hv Hp Hd ltac:(lia) Hc (HF 0%nat)) as (w & Hw & Hrun).
      { intros ??? E. by injection E as <- <- <-. }
      apply bool_decide_eq_false in Em. destruct fns; [|simpl in Em; lia].
      exists w, false. split; [done|]. intros s' Hs'. eapply (Hrun s' []); [|constructor]. by rewrite adv_last by auto.
Qed.

Lemma enum_slots_le_from l : Forall (λ s, ∀ p b d n, n ≤ (enum_slot p b d s n).2) l →
  ∀ p b d n, n ≤ (enum_slots p b d l n).2.
Proof.
  induction 1 as [|s l Hs _ IH]; intros p b d n; simpl; [lia|]. specialize (Hs p b d n).
  destruct (enum_slot p b d s n) as [[e1 r1] n1]. specialize (IH p b (S d) n1).
  destruct (enum_slots p b (S d) l n1) as [[e2 r2] n2]. simpl in *. lia.
Qed.

Lemma enum_slot_le s : ∀ p b d n, n ≤ (enum_slot p b d s n).2.
Proof.
  induction s as [|fns|i e kids IH] using Slot_tree_ind; intros p b d n; [simpl; lia|simpl; lia|].
  rewrite enum_bridge. pose proof (enum_slots_le_from _ IH (p ++ [d]) (n + 1) 0 (n + 1)) as Hle.
  destruct (enum_slots _ _ _ kids _) as [[es rs] m]. simpl in *. lia.
Qed.

Lemma enum_slots_le l p b d n : n ≤ (enum_slots p b d l n).2.
Proof. apply enum_slots_le_from, Forall_forall. intros s _. apply enum_slot_le. Qed.

(** What the scan of the devices from [d] on changes. *)
Record scanned_from (regs regs' : Regs) (n n' : Z) (p : path) (d : nat) : Prop := {
  sf_le : n ≤ n';
  sf_apart q : ¬ above p q → (∀ j, (d ≤ j)%nat → ¬ (p ++ [j]) `prefix_of` q) → regs' q = regs q;
  sf_above q : above p q → regs' q = mk_BusNumber (primary (regs q)) (secondary (regs q)) n'
}.

Lemma scanned_cons regs1 regs2 regs3 n1 n2 n3 p d : scanned regs1 regs2 n1 n2 p d → scanned_from regs2 regs3 n2 n3 p (S d) →
  scanned_from regs1 regs3 n1 n3 p d.
Proof.
  intros [L1 P1 A1 S1] [L2 P2 A2]. split; [lia| |].
  - intros q Hq Hj. rewrite P2, P1; auto with lia.
  - intros q Hq. by rewrite A2, A1.
Qed.

(** Numbers given below a device. *)
Definition given (regs : Regs) (rs : list (path * BusNumber)) (p : path) (d : nat) : Prop :=
  ∀ q x, (q, x) ∈ rs → regs q = x ∧ ∃ j, (d ≤ j)%nat ∧ (p ++ [j]) `prefix_of` q.

Definition slot_scan (s : Slot) : Prop := ∀ v regs n br stk p slots b d mul es rs n',
  slot_ok s = true → scanning v regs n (mk_Bridge br (Z.of_nat d) :: stk) p slots b d → (d ≤ 31)%nat →
  slots !! d = Some s → (p = [] → is_bridge s = true → n = 0) → enum_slot p b d s n = (es, rs, n') → n' < B →
  let stk' := mk_Bridge br (Z.of_nat d) :: stk in
  ∃ w mul' regs', sees w regs' ∧ scanned regs regs' n n' p d ∧
    (∀ q x, (q, x) ∈ rs → regs' q = x ∧ (p ++ [d]) `prefix_of` q) ∧
    ends (st v stk' 0 mul) es (st w stk' 0 mul').

Fixpoint bridges (l : list Slot) : nat :=
  match l with [] => 0 | s :: l => (if is_bridge s then 1 else 0) + bridges l end.

Lemma prefix_snoc_inj (p q : path) d j : (p ++ [d]) `prefix_of` q → (p ++ [j]) `prefix_of` q → d = j.
Proof.
  intros [r ->] Hp. rewrite <- app_assoc in Hp. apply prefix_app_inv in Hp as [r' Hr]. by injection Hr.
Qed.

Lemma slots_scan l : Forall slot_scan l → ∀ v regs n br stk p slots b d mul es rs n',
  forallb slot_ok l = true → scanning v regs n (mk_Bridge br (Z.of_nat d) :: stk) p slots b d →
  l ≠ [] → (d + length l = 32)%nat → drop d slots = l →
  (p = [] → bridges l = 0%nat ∨ (bridges l = 1%nat ∧ n = 0)) → enum_slots p b d l n = (es, rs, n') → n' < B →
  ∃ w mul' regs', scanning w regs' n' (mk_Bridge br 31 :: stk) p slots b 32 ∧ scanned_from regs regs' n n' p d ∧
    given regs' rs p d ∧
    ends (st v (mk_Bridge br (Z.of_nat d) :: stk) 0 mul) es (st w (mk_Bridge br 31 :: stk) 0 mul').
Proof.
  induction 1 as [|s l Hs _ IH]; intros v regs n br stk p slots b d mul es rs n' Hok Hsc Hne Hlen Hdrop Hroot E HB; [done|].
  simpl in E, Hok, Hlen. apply andb_true_iff in Hok as [Hok1 Hok2].
  destruct (enum_slot p b d s n) as [[e1 r1] n1] eqn:E1. destruct (enum_slots p b (S d) l n1) as [[e2 r2] n2] eqn:E2.
  injection E as <- <- <-. pose proof (enum_slots_le l p b (S d) n1) as Hle. rewrite E2 in Hle. simpl in Hle.
  assert (slots !! d = Some s) as Hsd by (rewrite <- (Nat.add_0_r d), <- lookup_drop, Hdrop; done).
  destruct (Hs v regs n br stk p slots b d mul e1 r1 n1 Hok1 Hsc ltac:(lia) Hsd) as (w & mul' & regs' & Hw & Hsd' & Hrs & He);
    [|done|lia|].
  { intros Hp Hb. destruct (Hroot Hp) as [Hn|[_ ->]]; [|done]. simpl in Hn. by rewrite Hb in Hn. }
  pose proof (scanned_scanning _ w _ _ _ _ _ _ _ _ _ _ _ Hsc Hw Hsd') as Hsc'.
  destruct l as [|s2 l].
  - simpl in E2. injection E2 as <- <- <-. assert (d = 31%nat) as -> by (simpl in Hlen; lia).
    exists w, mul', regs'. split; [|split; [|split]].
    + destruct Hsc'. split; try done. by eapply ctx_device.
    + destruct Hsd' as [L P A _]. split; [done| |done]. intros q Hq Hj. apply P; auto.
    + intros q x Hx. rewrite app_nil_r in Hx. destruct (Hrs q x Hx). split; [done|]. exists 31%nat. by split.
    + by rewrite app_nil_r.
  - destruct (IH w regs' n1 br stk p slots b (S d) mul' e2 r2 n2 Hok2 Hsc' ltac:(done) ltac:(lia)) as (w3 & mul3 & regs3 & Hsc3 & Hf & Hg & He3);
      [|..|done|done|].
    + by apply drop_S in Hsd as Hd; rewrite Hdrop in Hd; injection Hd as <-.
    + intros Hp. destruct (Hroot Hp) as [Hn|[Hn ->]]; simpl in Hn |- *; destruct (is_bridge s) eqn:Hb;
        try (left; lia); try done.
      right. split; [done|]. destruct s; try done; simpl in E1; by injection E1.
    + exists w3, mul3, regs3. split; [done|]. split; [by eapply scanned_cons|]. split.
      * intros q x Hx. apply elem_of_app in Hx as [Hx|Hx].
        -- destruct (Hrs q x Hx) as [H1 H2]. destruct Hf as [_ P _]. split; [|exists d; by split].
           rewrite P; [done| |].
           ++ intros [_ Hq]. assert ((p ++ [d]) `prefix_of` p) as [r Hr] by (by etrans). apply (f_equal length) in Hr.
              rewrite !length_app in Hr. simpl in Hr. lia.
           ++ intros j Hj Hq. pose proof (prefix_snoc_inj _ _ _ _ H2 Hq). lia.
        -- destruct (Hg q x Hx) as [H1 (j & Hj & H2)]. split; [done|]. exists j. split; [lia|done].
      * eapply ends_then; [|done|done]. apply next_device_step. simpl in Hlen. lia.
Qed.

Lemma bridge_scan i e kids : Forall slot_scan kids → B < 2 ^ 8 → slot_scan (BridgeSlot i e kids).
Proof.
  intros Hkids HB v regs n br stk p slots b d mul es rs n' Hok Hsc Hd Hs Hroot E Hn stk'.
  simpl in Hok. apply andb_true_iff in Hok as [[Hi Hlen]%andb_true_iff Hok].
  apply negb_true_iff, Z.eqb_neq in Hi. apply Nat.eqb_eq in Hlen.
  rewrite enum_bridge in E. destruct (enum_slots (p ++ [d]) (n + 1) 0 kids (n + 1)) as [[es1 rs1] m] eqn:E1.
  injection E as <- <- <-. pose proof (enum_slots_le kids (p ++ [d]) (n + 1) 0 (n + 1)) as Hle. rewrite E1 in Hle. simpl in Hle.
  destruct (turn_bridge v regs n br stk p slots b d mul i e kids Hsc Hd Hs Hi ltac:(intros; by apply Hroot) ltac:(lia) ltac:(lia))
    as (w1 & regs1 & Ht & Hsc1 & Hr1).
  destruct (slots_scan kids Hkids w1 regs1 (n + 1) _ _ _ _ _ 0 false _ _ _ Hok Hsc1 ltac:(by destruct kids) ltac:(lia) eq_refl
    ltac:(intros Hp; by destruct (app_ne_r p d)) E1 Hn) as (w2 & mul2 & regs2 & Hsc2 & [_ P A] & Hg & He).
  assert (above (p ++ [d]) (p ++ [d])) as Hself by (apply above_snoc; by right).
  destruct Hsc2 as [Hw2 Hp2 Hc2 Ht2 _ _].
  assert (sub_of regs2 (p ++ [d]) ≠ B) as Hsub.
  { specialize (Ht2 _ Hself). pose proof (app_ne_r p d) as Hne. unfold sub_of. destruct (p ++ [d]); [done|]. lia. }
  destruct (ends_pop _ _ w2 regs2 m _ _ _ _ _ _ Hw2 Hp2 Hc2 Hsub He) as (w3 & Hw3 & He3).
  exists w3, mul2, regs2. split; [done|]. split; [|split].
  - split; [lia|..].
    + intros q Hq Hpre. rewrite P, Hr1, !decide_False; [done|done|by intros ->|rewrite above_snoc|].
      * intros [?| ->]; done.
      * intros j _ Hj. apply Hpre. etrans; [|exact Hj]. by exists [j].
    + intros q Hq. rewrite A by (apply above_snoc; by left). rewrite Hr1, decide_False, decide_True by (try done; intros ->; by apply above_below in Hq).
      done.
    + rewrite A by done. done.
  - intros q x Hx. apply elem_of_cons in Hx as [Hx|Hx].
    + injection Hx as -> ->. split; [|done]. rewrite A by done. by rewrite Hr1, decide_True.
    + destruct (Hg q x Hx) as [H1 (j & _ & H2)]. split; [done|]. etrans; [|exact H2]. by exists [j].
  - eapply ends_none; [done|exact Ht|done].
Qed.

Lemma scan_all s : B < 2 ^ 8 → slot_scan s.
Proof.
  intros HB. induction s as [|fns|i e kids IH] using Slot_tree_ind; [..|by apply bridge_scan];
    intros v regs n br stk p slots b d mul es rs n' Hok Hsc Hd Hs _ E _ stk'; injection E as <- <- <-.
  - destruct (device_scan NoDevice v regs n br stk p slots b d mul Hok eq_refl Hsc Hd Hs) as (w & mul' & Hw & He).
    exists w, mul', regs. split; [done|]. split; [by eapply scanned_refl|]. split; [|done]. by intros q x ?%not_elem_of_nil.
  - destruct (device_scan (Functions fns) v regs n br stk p slots b d mul Hok eq_refl Hsc Hd Hs) as (w & mul' & Hw & He).
    exists w, mul', regs. split; [done|]. split; [by eapply scanned_refl|]. split; [|done]. by intros q x ?%not_elem_of_nil.
Qed.

(** ** The iterator from outside *)

(** With enough fuel [next] takes the turns up to the next endpoint. *)
Lemma runs_next s es s' : runs s es s' → is_finish s' = true → ∃ N, match es with
  | [] => ∀ fuel, (N ≤ fuel)%nat → next fuel s = (s', Ok None)
  | e :: es => ∃ s1, runs s1 es s' ∧ ∀ fuel, (N ≤ fuel)%nat → next fuel s = (s1, Ok (Some e))
  end.
Proof.
  assert (∀ k u, is_finish u = false → (next (S k) u : PciIterator V * _) =
    (o ← turn; match o with Some ep => mret (Some ep) | None => next k end) u) as Hstep.
  { intros k u Hf. cbn [next]. rewrite (bind_run get _ _ _ _ eq_refl). by rewrite Hf. }
  intros Hr Hf. induction Hr as [s|s s1 es s' Hs Ht Hr IH|s s1 e es s' Hs Ht Hr IH].
  - exists 1%nat. intros [|fuel] Hl; [lia|]. cbn [next]. rewrite (bind_run get _ _ _ _ eq_refl). by rewrite Hf.
  - destruct (IH Hf) as [N HN]. exists (S N). destruct es as [|e es].
    + intros [|fuel] Hl; [lia|]. rewrite Hstep, (bind_run _ _ _ _ _ Ht) by done. apply HN. lia.
    + destruct HN as (s2 & Hr2 & HN). exists s2. split; [done|]. intros [|fuel] Hl; [lia|].
      rewrite Hstep, (bind_run _ _ _ _ _ Ht) by done. apply HN. lia.
  - exists 1%nat, s1. split; [done|]. intros [|fuel] Hl; [lia|]. by rewrite Hstep, (bind_run _ _ _ _ _ Ht) by done.
Qed.

Lemma runs_collect es : ∀ s s', runs s es s' → is_finish s' = true →
  ∃ N, ∀ k fuel, (N ≤ k)%nat → (N ≤ fuel)%nat → collect k fuel s = (s', Ok es).
Proof.
  induction es as [|e es IH]; intros s s' Hr Hf; destruct (runs_next _ _ _ Hr Hf) as [N HN].
  - exists (S N). intros [|k] fuel Hk Hl; [lia|]. cbn [collect]. by rewrite (bind_run _ _ _ _ _ (HN fuel ltac:(lia))).
  - destruct HN as (s1 & Hr1 & HN). destruct (IH _ _ Hr1 Hf) as [M HM]. exists (S (N + M)). intros [|k] fuel Hk Hl; [lia|].
    cbn [collect]. rewrite (bind_run _ _ _ _ _ (HN fuel ltac:(lia))).
    by rewrite (bind_run _ _ _ _ _ (HM k fuel ltac:(lia) ltac:(lia))).
Qed.

(** The scan of the whole tree, from reset. *)
Lemma root_scan v es rs n : pt_tree v = top → (∀ q, secondary (pt_regs v q) = 0 ∧ subordinate (pt_regs v q) = 0) →
  length top = 32%nat → forallb slot_ok top = true → (bridges top ≤ 1)%nat →
  enum_slots [] 0 0 top 0 = (es, rs, n) → n < B → B < 2 ^ 8 →
  ∃ s', runs (st v [mk_Bridge None 0] 0 false) es s' ∧ is_finish s' = true ∧
    ∀ q x, (q, x) ∈ rs → pt_regs (chip (root s')) q = x.
Proof.
  intros Htop Hfresh Hlen Hok Hbr E Hn HB. pose proof (enum_slots_le top [] 0 0 0) as Hn0. rewrite E in Hn0. simpl in Hn0.
  assert (scanning v (pt_regs v) 0 [mk_Bridge None (Z.of_nat 0)] [] top 0 0) as Hsc.
  { split; [done|lia|constructor| |lia|].
    - intros q [Hq [r Hr]]. by destruct q.
    - intros j _ q. apply Hfresh. }
  destruct (slots_scan top (Forall_true _ _ (λ s, scan_all s HB)) v _ 0 None [] [] top 0 0 false es rs n Hok Hsc
    ltac:(by intros ->) ltac:(lia) eq_refl ltac:(intros _; lia) E Hn) as (w & mul & regs' & [Hw Hp Hc _ _ _] & _ & Hg & He).
  assert (sub_of regs' [] ≠ B) as Hsub by (simpl; lia).
  destruct (ends_pop _ _ w regs' n _ _ _ _ _ _ Hw Hp Hc Hsub He) as (w2 & [_ Hw2] & He2).
  exists (set_finish true (st w2 [] 0 mul)). split; [by apply He2|]. split; [done|].
  intros q x Hx. simpl. rewrite Hw2. by destruct (Hg q x Hx).
Qed.
End Run.


(** ** The root bus *)

(** The root has no subordinate number to count with: whatever has been
    numbered before, a bridge on the root bus is given the number 1. *)
Lemma root_bridge_one {V : Type} `{PC : PciChip V} `{PT : PciTypes} `{HT : !PciTree V} (v : V) B d mul i e kids :
  (d ≤ 31)%nat → pt_tree v !! d = Some (BridgeSlot i e kids) → i ≠ 0xffff → B ≠ 0 →
  ∃ w, pt_tree w = pt_tree v ∧
    (∀ q, pt_regs w q = if decide (q = [d]) then mk_BusNumber 0 1 1 else pt_regs v q) ∧
    get_current_valid (st B v [mk_Bridge None (Z.of_nat d)] 0 mul) =
    (st B w [mk_Bridge None (Z.of_nat d)] 0 false,
     Ok (Some (CfgPciPciBridge (Some (mk_PciHeaderBase i e (mk_PciAddress 0 0 (Z.of_nat d) 0)))))).
Proof.
  intros Hd Hs Hi HB.
  destruct (gcv_bridge (pt_tree v) B v (pt_regs v) 0 None [] [] (pt_tree v) 0 d mul i e kids ltac:(done) ltac:(lia) Hd
    (ctx_root _ _ _ _) Hs Hi eq_refl ltac:(lia) ltac:(lia)) as (w & regs' & [Hw1 Hw2] & Hr & E).
  exists w. split; [done|]. split; [|exact E]. intros q. by rewrite Hw2, Hr.
Qed.
