(* ===== verification/PcieWitness.v ===== *)
(** * A machine with bridges

    Concrete instances of the classes of Pcie.v and PcieProof.v: the register
    layout of the PCI specification, and a chip with a fixed tree of functions
    whose bridges keep a word of bus numbers each. *)

From S2P Require Import Prelude AddrAlloc Bits Pcie PcieProof.
From stdpp Require Import base list numbers gmap.
Open Scope Z_scope.

(** ** The registers *)

Definition sim_get_bits (w lo hi : Z) : Z := Z.land (Z.shiftr w lo) (Z.ones (hi - lo)).
Definition sim_set_bits (w lo hi x : Z) : Z := Z.lor (Z.ldiff w (field_mask lo hi)) (Z.shiftl x lo).

Lemma sim_get_range w lo hi : lo ≤ hi → 0 ≤ sim_get_bits w lo hi < 2 ^ (hi - lo).
Proof. intros Hl. unfold sim_get_bits. rewrite Z.land_ones by lia. apply Z.mod_pos_bound. apply Z.pow_pos_nonneg; lia. Qed.

Lemma sim_testbit w lo hi i : 0 ≤ lo ≤ hi → 0 ≤ i → Z.testbit (sim_get_bits w lo hi) i = Z.testbit w (i + lo) && (i <? hi - lo).
Proof.
  intros Hl Hi. unfold sim_get_bits. rewrite Z.land_spec, Z.shiftr_spec by done. f_equal.
  destruct (Z.ltb_spec i (hi - lo)); [apply Z.ones_spec_low; lia|apply Z.ones_spec_high; lia].
Qed.

Lemma sim_set_testbit w lo hi x i : 0 ≤ lo ≤ hi → 0 ≤ i → 0 ≤ x < 2 ^ (hi - lo) →
  Z.testbit (sim_set_bits w lo hi x) i = if (lo <=? i) && (i <? hi) then Z.testbit x (i - lo) else Z.testbit w i.
Proof.
  intros Hl Hi Hx. unfold sim_set_bits. rewrite Z.lor_spec, Z.ldiff_spec, testbit_field_mask, Z.shiftl_spec by lia.
  destruct (Z.leb_spec lo i); simpl.
  - destruct (Z.ltb_spec i hi); simpl; [by rewrite andb_false_r|].
    rewrite (testbit_above x (hi - lo)) by lia. by rewrite orb_false_r, andb_true_r.
  - rewrite (Z.testbit_neg_r x) by lia. by rewrite orb_false_r, andb_true_r.
Qed.

Lemma sim_get_set w lo hi lo' hi' x : 0 ≤ lo ≤ hi → 0 ≤ lo' ≤ hi' → 0 ≤ x < 2 ^ (hi - lo) →
  (lo' = lo ∧ hi' = hi → sim_get_bits (sim_set_bits w lo hi x) lo' hi' = x) ∧
  (hi ≤ lo' ∨ hi' ≤ lo → sim_get_bits (sim_set_bits w lo hi x) lo' hi' = sim_get_bits w lo' hi').
Proof.
  intros Hl Hl' Hx. split; intros Hc; apply Z.bits_inj'; intros i Hi; rewrite sim_testbit, sim_set_testbit by lia.
  - destruct Hc as [-> ->]. replace (lo <=? i + lo) with true by (symmetry; apply Z.leb_le; lia). simpl.
    destruct (Z.ltb_spec (i + lo) hi), (Z.ltb_spec i (hi - lo)); try lia.
    + rewrite andb_true_r. f_equal. lia.
    + rewrite andb_false_r. by rewrite (testbit_above x (hi - lo)) by lia.
  - rewrite sim_testbit by lia. destruct (Z.ltb_spec i (hi' - lo')); [|by rewrite !andb_false_r]. f_equal.
    destruct (Z.leb_spec lo (i + lo')), (Z.ltb_spec (i + lo') hi); simpl; try done. lia.
Qed.

#[local] Instance sim_types : PciTypes.
Proof.
  refine {|
    address_new seg b d f := if (d <=? 31) && (f <=? 7) then Ok (mk_PciAddress seg b d f) else Stuck;
    id_of w := (sim_get_bits w 0 16, sim_get_bits w 16 32);
    header_type_of w := match sim_get_bits w 16 23 with 0 => HEndpoint | 1 => HPciPciBridge | 2 => HCardBusBridge | n => HUnknown n end;
    multi_of w := Z.testbit w 23;
    revision_class_of w := (sim_get_bits w 0 8, sim_get_bits w 24 32, sim_get_bits w 16 24, sim_get_bits w 8 16);
    get_bits := sim_get_bits;
    set_bits := sim_set_bits
  |}.
  - intros seg b d f Hd Hf. by rewrite !(proj2 (Z.leb_le _ _)) by lia.
  - exact sim_get_range.
  - intros w lo hi x Hl Hx. by apply sim_get_set.
  - intros w lo hi lo' hi' x Hl Hl' Ha Hx. by apply sim_get_set.
Defined.

(** ** The tree *)

Definition pad (l : list Slot) : list Slot := l ++ replicate (32 - length l) NoDevice.

(** On the root bus a host bridge and a bridge; behind that a device with two
    functions (and a gap) and a second bridge with one device. *)
Definition sim_tree : list Slot :=
  pad [Functions [Some (0x1b36, 8)];
       BridgeSlot 0x1b36 0xc (pad [
         Functions [Some (0x8086, 0x10d3); None; Some (0x8086, 0x2668)];
         BridgeSlot 0x104c 0x8232 (pad [NoDevice; Functions [Some (0x1af4, 0x1041)]])])].

(** Identifications of 16 bits. *)
Definition fits (o : option (Z * Z)) : bool :=
  match o with Some (i, e) => (0 <=? i) && (i <? 2 ^ 16) && (0 <=? e) && (e <? 2 ^ 16) | None => true end.
Fixpoint slot_fits (s : Slot) : bool :=
  match s with
  | NoDevice => true
  | Functions fns => forallb fits fns
  | BridgeSlot i e kids => fits (Some (i, e)) && forallb slot_fits kids
  end.

Lemma route_slots_fits regs b q l p k :
  Forall (λ s, ∀ p, slot_fits s = true → ∀ q l, route_slot regs p s b = Some (q, l) → forallb slot_fits l = true) k →
  forallb slot_fits k = true → ∀ d, route_slots regs p d k b = Some (q, l) → forallb slot_fits l = true.
Proof.
  intros Hk. induction Hk as [|s k Hs _ IH]; intros Hf d E; [done|]. simpl in Hf, E.
  apply andb_true_iff in Hf as [Hf1 Hf2]. destruct (route_slot _ _ s b) as [[q' l']|] eqn:E1; [|by eapply IH].
  injection E as -> ->. by eapply Hs.
Qed.

Lemma route_slot_fits regs b s : ∀ p, slot_fits s = true → ∀ q l, route_slot regs p s b = Some (q, l) → forallb slot_fits l = true.
Proof.
  induction s as [|fns|i e kids IH] using Slot_tree_ind; intros p Hf q l E; [done..|].
  rewrite route_bridge in E. simpl in Hf. apply andb_true_iff in Hf as [_ Hf].
  destruct (claims _ _); [|done]. destruct (_ =? _); [by injection E as _ <-|]. by eapply route_slots_fits.
Qed.

Lemma route_fits regs b p l : route regs sim_tree b = Some (p, l) → forallb slot_fits l = true.
Proof.
  unfold route. destruct (b =? 0); intros E; [injection E as _ <-; by vm_compute|].
  refine (route_slots_fits _ _ _ _ _ sim_tree _ eq_refl _ E). apply Forall_forall. intros s _. apply route_slot_fits.
Qed.

Lemma header_fits l d f h : forallb slot_fits l = true → header_at l d f = Some h →
  match h with HdEndpoint i e _ | HdBridge i e => fits (Some (i, e)) = true end.
Proof.
  unfold header_at. intros Hl Hh. destruct (l !! d) as [s|] eqn:E; [|done].
  rewrite forallb_forall in Hl. specialize (Hl s (proj1 (list_elem_of_In _ _) (list_elem_of_lookup_2 _ _ _ E))).
  destruct s as [|fns|i e kids]; [done|..].
  - destruct (fns !! f) as [[[i e]|]|] eqn:Ef; try done. injection Hh as <-. simpl in Hl. rewrite forallb_forall in Hl.
    exact (Hl _ (proj1 (list_elem_of_In _ _) (list_elem_of_lookup_2 _ _ _ Ef))).
  - simpl in Hl. apply andb_true_iff in Hl as [Hl _]. destruct (bool_decide _); [|done]. by injection Hh as <-.
Qed.

(** ** The chip *)

(** A word of bus numbers for each bridge. *)
Definition Sim : Type := path → Z.

Definition numbers_of (x : Z) : BusNumber := mk_BusNumber (sim_get_bits x 0 8) (sim_get_bits x 8 16) (sim_get_bits x 16 24).
Definition sim_regs (v : Sim) : Regs := λ q, numbers_of (v q).

Definition sim_at (v : Sim) (a : PciAddress) : option (path * Header) :=
  match route (sim_regs v) sim_tree (pa_bus a) with
  | Some (p, l) =>
      match header_at l (Z.to_nat (pa_device a)) (Z.to_nat (pa_function a)) with
      | Some h => Some (p ++ [Z.to_nat (pa_device a)], h)
      | None => None
      end
  | None => None
  end.

Definition sim_read (a : PciAddress) (offset : Z) (v : Sim) : Sim * Z :=
  (v, match sim_at v a with
      | None => 0xffffffff
      | Some (q, h) =>
          if offset =? 0 then match h with HdEndpoint i e _ | HdBridge i e => Z.lor i (Z.shiftl e 16) end
          else if offset =? 0x0c then
            match h with HdEndpoint _ _ true => Z.shiftl 1 23 | HdEndpoint _ _ false => 0 | HdBridge _ _ => Z.shiftl 1 16 end
          else match h with HdBridge _ _ => if offset =? 0x18 then v q else 0 | _ => 0 end
      end).
Definition sim_write (a : PciAddress) (offset x : Z) (v : Sim) : Sim :=
  match sim_at v a with
  | Some (q, HdBridge _ _) => if offset =? 0x18 then λ q', if decide (q' = q) then x else v q' else v
  | _ => v
  end.

#[local] Instance sim_chip : PciChip Sim := {|
  chip_read := sim_read;
  chip_write := sim_write;
  header_bar _ _ v := (v, None);
  header_write_bar _ _ _ v := (v, true);
  header_update_command _ _ v := v;
  header_interrupt _ v := (v, (0, 0));
  header_update_interrupt _ _ v := v
|}.

Lemma sim_id i e : fits (Some (i, e)) = true → @id_of sim_types (Z.lor i (Z.shiftl e 16)) = (i, e).
Proof.
  simpl. intros [[[H1 H2]%andb_true_iff H3]%andb_true_iff H4]%andb_true_iff.
  apply Z.leb_le in H1, H3. apply Z.ltb_lt in H2, H4.
  f_equal; apply Z.bits_inj'; intros j Hj; rewrite sim_testbit, Z.lor_spec, Z.shiftl_spec by lia.
  - destruct (Z.ltb_spec j (16 - 0)); [|rewrite andb_false_r; by rewrite (testbit_above i 16) by lia].
    rewrite (Z.testbit_neg_r e) by lia. by rewrite orb_false_r, andb_true_r, Z.add_0_r.
  - rewrite (testbit_above i 16) by lia. simpl. replace (j + 16 - 16) with j by lia.
    destruct (Z.ltb_spec j (32 - 16)); [by rewrite andb_true_r|]. by rewrite (testbit_above e 16) by lia.
Qed.

#[local] Instance sim_pci_tree : PciTree Sim.
Proof.
  refine {| pt_tree _ := sim_tree; pt_regs := sim_regs |}.
  - intros v a p bus Hr. simpl. split; [done|]. unfold sim_at. rewrite Hr.
    destruct (header_at bus _ _) as [h|] eqn:Eh; [|done].
    pose proof (header_fits _ _ _ _ (route_fits _ _ _ _ Hr) Eh) as Hf. destruct h; by apply sim_id.
  - intros v a p bus h Hr Hh. simpl. split; [done|]. unfold sim_at. rewrite Hr, Hh. by destruct h as [? ? []|].
  - intros v a p bus i d Hr Hh. simpl. split; [done|]. unfold sim_at. by rewrite Hr, Hh.
  - intros v a p bus i d x Hr Hh. simpl. split; [done|]. intros q. unfold sim_write, sim_at. rewrite Hr, Hh. simpl.
    unfold sim_regs. by destruct (decide _).
Defined.

(** ** The run *)

Definition sim_reset : Sim := λ _, 0.

Definition sim_found : list PciHeaderBase := Eval vm_compute in (enum_slots [] 0 0 sim_tree 0).1.1.
Definition sim_numbers : list (path * BusNumber) := Eval vm_compute in (enum_slots [] 0 0 sim_tree 0).1.2.

(** The iterator on this machine, computed. *)
Example sim_collect : match enumerate_by_controller (controller_new sim_reset) None with
  | Ok it => match collect 10 1000 it with (s, Ok es) => (es, sim_regs (chip (root s)) [1%nat]) | _ => ([], mk_BusNumber 0 0 0) end
  | _ => ([], mk_BusNumber 0 0 0) end = (sim_found, mk_BusNumber 0 1 2).
Proof. by vm_compute. Qed.

