(* ===== verification/Rdrive.v ===== *)
(** * The driver registry: devices, handles and their locks

    driver/rdrive/src: process ids (osal.rs), device ids and descriptors
    (descriptor.rs), owners, weak handles and guards of devices (lock.rs) and
    the container of devices (manager.rs).

    The registry is shared by all threads. An operation below is one access to
    shared memory, so a run of threads is a sequence of operations; what a
    thread has in hand between two of its accesses is in [hands], under a
    number. [lock] of a device is [upgrade] and [attempt] until it succeeds,
    [try_lock] is [upgrade], [attempt] and on failure [give_back]; dropping a
    guard is [release] and then [give_back]. An [Arc] is shared memory that is
    freed with its last owner, a [Weak] can be upgraded until then. What is
    written through a guard is [guard_write]; the unsafe [force_use] is left
    out. *)

From Stdlib Require Import String.
From stdpp Require Import base list numbers strings gmap sorting.
From S2P Require Import Prelude.
Open Scope Z_scope.

(** ** osal.rs *)

Definition Pid : Type := Z.
Definition NOT_SET : Z := 18446744073709551615.
Definition INVALID : Z := 18446744073709551614.
Definition is_not_set (pid : Pid) : bool := pid =? NOT_SET.
Definition is_invalid (pid : Pid) : bool := pid =? INVALID.

(** [usize as i64] and back. *)
Definition as_i64 (x : Z) : Z := if x <? 2 ^ 63 then x else x - 2 ^ 64.
Definition as_usize (x : Z) : Z := x mod 2 ^ 64.

(** ** descriptor.rs *)

Record Descriptor : Type := mk_Descriptor { device_id : Z; desc_name : string; irq_parent : option Z }.

(** ** Objects

    A device is a boxed value of some type, a number here as [TypeId] is one,
    with contents that threads change. [raw_any_mut] of it gives nothing, the
    value itself, or the value in a box it owns, at an address; [raw_any] is the
    boxes it goes through and the value. *)
Inductive Obj : Type := mk_Obj (o_type : Z) (o_data : Z) (o_sub : SubAny)
with SubAny : Type := NoAny | SelfAny | BoxAny (addr : Z) (inner : Obj).
Definition o_type (o : Obj) : Z := let 'mk_Obj t _ _ := o in t.
Definition o_sub (o : Obj) : SubAny := let 'mk_Obj _ _ s := o in s.
Definition raw_any (o : Obj) : option (list Z * Obj) :=
  match o_sub o with NoAny => None | SelfAny => Some ([], o) | BoxAny a o' => Some ([a], o') end.

(** A pointer into a device: the address of its box, and the boxes inside on
    the way to the value. The value is there only as long as they are. *)
Record Ptr : Type := mk_Ptr { p_box : Z; p_path : list Z }.
Fixpoint sub_at (p : list Z) (o : Obj) : option Obj :=
  match p with
  | [] => Some o
  | a :: p => match o_sub o with BoxAny a' o' => if a' =? a then sub_at p o' else None | _ => None end
  end.

(** The device after a value in it was assigned to. *)
Fixpoint put_at (p : list Z) (new : Obj) (o : Obj) : option Obj :=
  match p with
  | [] => Some new
  | a :: p =>
      match o with
      | mk_Obj t d (BoxAny a' o') => if a' =? a then (λ x, mk_Obj t d (BoxAny a' x)) <$> put_at p new o' else None
      | _ => None
      end
  end.

(** ** lock.rs *)

Inductive GetDeviceError : Type :=
| UsedByOthers (pid : Pid)
| UsedByUnknown
| TypeNotMatch
| DeviceReleased
| NotFound.

Record LockInner : Type := mk_LockInner { borrowed : Z; li_ptr : Z; li_descriptor : Descriptor }.
Definition lock_inner_new (d : Descriptor) (ptr : Z) : LockInner := mk_LockInner (-1) ptr d.

(** [LockInner::try_lock]: the new value of [borrowed], and the result. *)
Definition lock_try_lock (pid : Pid) (borrowed : Z) : Z * outcome GetDeviceError unit :=
  let pid := if is_not_set pid then INVALID else pid in
  if borrowed =? as_i64 NOT_SET then (as_i64 pid, Ok tt)
  else (borrowed, Err (if as_usize borrowed =? INVALID then UsedByUnknown else UsedByOthers (as_usize borrowed))).

(** [Device<T>]; [dv_type] is [T]. *)
Record Device : Type := mk_Device { dv_lock : Z; dv_descriptor : Descriptor; dv_ptr : Ptr; dv_type : Z }.

(** What a thread holds: the [Arc] of an upgraded handle that waits for the
    lock, a [DeviceGuard<T>] with the process id it was locked with, or the [Arc]
    that is left of it. *)
Inductive Hand : Type :=
| Waiting (d : Device)
| Guard (lock : Z) (ptr : Ptr) (type : Z) (pid : Pid)
| Leaving (lock : Z).
Definition hand_lock (h : Hand) : Z :=
  match h with Waiting d => dv_lock d | Guard l _ _ _ => l | Leaving l => l end.

(** [boxes] is the heap. [locks] are the live [LockInner]s, by a number that is
    never used again; [handles] are all handles there have been. *)
Record Registry : Type := mk_Registry {
  boxes : gmap Z Obj;
  locks : gmap Z LockInner;
  next_lock : Z;
  devices : gmap Z Z;
  hands : gmap Z Hand;
  handles : list Device;
  iter : Z
}.

Notation RM := (M Registry GetDeviceError).

Definition set_boxes (b : gmap Z Obj) (s : Registry) : Registry :=
  mk_Registry b (locks s) (next_lock s) (devices s) (hands s) (handles s) (iter s).
Definition set_locks (l : gmap Z LockInner) (s : Registry) : Registry :=
  mk_Registry (boxes s) l (next_lock s) (devices s) (hands s) (handles s) (iter s).
Definition set_devices (d : gmap Z Z) (s : Registry) : Registry :=
  mk_Registry (boxes s) (locks s) (next_lock s) d (hands s) (handles s) (iter s).
Definition set_hands (h : gmap Z Hand) (s : Registry) : Registry :=
  mk_Registry (boxes s) (locks s) (next_lock s) (devices s) h (handles s) (iter s).
Definition add_handles (d : list Device) (s : Registry) : Registry :=
  mk_Registry (boxes s) (locks s) (next_lock s) (devices s) (hands s) (handles s ++ d) (iter s).

(** Who owns a lock: the container and the hands. *)
Definition is_owned (l : Z) (s : Registry) : bool :=
  bool_decide (l ∈ (map_to_list (devices s)).*2) || bool_decide (l ∈ hand_lock <$> (map_to_list (hands s)).*2).

(** Dropping an [Arc] that is already out of its place: the last one drops the
    [LockInner], which frees the box. *)
Definition drop_arc (l : Z) : RM unit := modify (λ s,
  if is_owned l s then s
  else match locks s !! l with
  | Some li => set_boxes (delete (li_ptr li) (boxes s)) (set_locks (delete l (locks s)) s)
  | None => s
  end).

(** A box at an address the allocator finds free. *)
Definition alloc_box (addr : Z) (o : Obj) : RM unit := λ s,
  match boxes s !! addr with
  | Some _ => (s, Stuck)
  | None => (set_boxes (<[addr := o]> (boxes s)) s, Ok tt)
  end.

(** [DeviceOwner::new]. *)
Definition device_owner_new (d : Descriptor) (o : Obj) (addr : Z) : RM Z :=
  _ ← alloc_box addr o;
  s ← get;
  let l := next_lock s in
  _ ← modify (λ s, mk_Registry (boxes s) (<[l := lock_inner_new d addr]> (locks s)) (l + 1) (devices s) (hands s) (handles s) (iter s));
  mret l.

(** [&*lock.ptr]: the object, which must be there. *)
Definition deref (p : Ptr) : RM Obj := s ← get; lift (unwrap (boxes s !! p_box p ≫= sub_at (p_path p))).

(** [DeviceOwner::is] and [Device::new]. *)
Definition owner_is (T : Z) (l : Z) : RM bool :=
  s ← get;
  li ← lift (unwrap (locks s !! l));
  o ← deref (mk_Ptr (li_ptr li) []);
  mret (o_type o =? T).
Definition weak (T : Z) (l : Z) : RM Device :=
  s ← get;
  li ← lift (unwrap (locks s !! l));
  o ← deref (mk_Ptr (li_ptr li) []);
  if o_type o =? T then
    let d := mk_Device l (li_descriptor li) (mk_Ptr (li_ptr li) []) T in
    _ ← modify (add_handles [d]); mret d
  else fail TypeNotMatch.

(** [lock.upgrade().ok_or(DeviceReleased)] of a handle into the hand [t]. *)
Definition upgrade (d : Device) (t : Z) : RM unit := λ s,
  match hands s !! t with
  | Some _ => (s, Stuck)
  | None =>
      match locks s !! dv_lock d with
      | Some _ => (set_hands (<[t := Waiting d]> (hands s)) s, Ok tt)
      | None => (s, Err DeviceReleased)
      end
  end.

(** [try_lock] on the [LockInner]: the exchange makes it a guard. *)
Definition attempt (t : Z) (pid : Pid) : RM unit := λ s,
  match hands s !! t with
  | Some (Waiting d) =>
      match locks s !! dv_lock d with
      | Some li =>
          match lock_try_lock pid (borrowed li) with
          | (b, Ok _) =>
              let s := set_locks (<[dv_lock d := mk_LockInner b (li_ptr li) (li_descriptor li)]> (locks s)) s in
              (set_hands (<[t := Guard (dv_lock d) (dv_ptr d) (dv_type d) pid]> (hands s)) s, Ok tt)
          | (_, r) => (s, r)
          end
      | None => (s, Stuck)
      end
  | _ => (s, Stuck)
  end.

(** [Drop for DeviceGuard]. *)
Definition release (t : Z) : RM unit := λ s,
  match hands s !! t with
  | Some (Guard l _ _ _) =>
      match locks s !! l with
      | Some li =>
          let s := set_locks (<[l := mk_LockInner (as_i64 NOT_SET) (li_ptr li) (li_descriptor li)]> (locks s)) s in
          (set_hands (<[t := Leaving l]> (hands s)) s, Ok tt)
      | None => (s, Stuck)
      end
  | _ => (s, Stuck)
  end.

(** An [Arc] of a thread that goes out of scope. *)
Definition give_back (t : Z) : RM unit := λ s,
  match hands s !! t with
  | Some (Waiting _ as h) | Some (Leaving _ as h) => drop_arc (hand_lock h) (set_hands (delete t (hands s)) s)
  | _ => (s, Stuck)
  end.

(** [Deref for DeviceGuard]: [Stuck] if the value is gone or not of the guard's
    type. *)
Definition guard_deref (t : Z) : RM Obj :=
  s ← get;
  match hands s !! t with
  | Some (Guard _ p T _) => o ← deref p; if o_type o =? T then mret o else stuck
  | _ => stuck
  end.

(** [DerefMut for DeviceGuard]: the guard's value is assigned a value of its
    type. [Stuck] if there is no value to assign to. *)
Definition guard_write (t : Z) (new : Obj) : RM unit := λ s,
  match hands s !! t with
  | Some (Guard _ p T _) =>
      match boxes s !! p_box p ≫= put_at (p_path p) new with
      | Some b => if o_type new =? T then (set_boxes (<[p_box p := b]> (boxes s)) s, Ok tt) else (s, Stuck)
      | None => (s, Stuck)
      end
  | _ => (s, Stuck)
  end.

(** [Device::try_lock], and one turn of [Device::lock]. *)
Definition attempt_or_back (t : Z) (pid : Pid) : RM unit := λ s,
  match attempt t pid s with
  | (s', Err e) => (_ ← give_back t; fail e) s'
  | r => r
  end.
Definition device_try_lock (d : Device) (t : Z) (pid : Pid) : RM unit :=
  _ ← upgrade d t; attempt_or_back t pid.

(** [Device::downcast]: the value is looked at while the [Arc] is held. *)
Definition downcast (d : Device) (T2 : Z) : RM Device :=
  s ← get;
  _ ← lift (ok_or (locks s !! dv_lock d) DeviceReleased);
  o ← deref (dv_ptr d);
  if o_type o =? dv_type d then
    '(w, t2) ← lift (ok_or (raw_any o) TypeNotMatch);
    if o_type t2 =? T2 then
      let d2 := mk_Device (dv_lock d) (dv_descriptor d) (mk_Ptr (p_box (dv_ptr d)) (p_path (dv_ptr d) ++ w)) T2 in
      _ ← modify (add_handles [d2]); mret d2
    else fail TypeNotMatch
  else stuck.

(** ** manager.rs *)

(** [DeviceContainer::insert]: an owner that was there is dropped. *)
Definition insert_device (d : Descriptor) (o : Obj) (addr : Z) : RM unit :=
  l ← device_owner_new d o addr;
  s ← get;
  let old := devices s !! device_id d in
  _ ← modify (set_devices (<[device_id d := l]> (devices s)));
  match old with Some l' => drop_arc l' | None => mret tt end.

Definition get_typed (T : Z) (id : Z) : RM Device :=
  s ← get;
  l ← lift (ok_or (devices s !! id) NotFound);
  weak T l.

(** [devices.values()]: in the order of the ids. *)
Definition by_id (p q : Z * Z) : Prop := p.1 ≤ q.1.
#[export] Instance by_id_dec p q : Decision (by_id p q).
Proof. unfold by_id. apply _. Defined.
Definition values (m : gmap Z Z) : list Z := (merge_sort by_id (map_to_list m)).*2.

(** [get_one]: the first handle that can be made; [devices]: all of them. *)
Fixpoint first_weak (T : Z) (ls : list Z) : RM (option Device) :=
  match ls with
  | [] => mret None
  | l :: ls => λ s,
      match weak T l s with
      | (s, Ok d) => (s, Ok (Some d))
      | (s, Err _) => first_weak T ls s
      | (s, Stuck) => (s, Stuck)
      end
  end.
Definition get_one (T : Z) : RM (option Device) := s ← get; first_weak T (values (devices s)).

Fixpoint all_weak (T : Z) (ls : list Z) : RM (list Device) :=
  match ls with
  | [] => mret []
  | l :: ls => λ s,
      match weak T l s with
      | (s, Ok d) => (ds ← all_weak T ls; mret (d :: ds)) s
      | (s, Err _) => all_weak T ls s
      | (s, Stuck) => (s, Stuck)
      end
  end.
Definition get_list (T : Z) : RM (list Device) := s ← get; all_weak T (values (devices s)).

(** [DeviceId::new]: [fetch_add] wraps around. *)
Definition device_id_new : RM Z := λ s,
  (mk_Registry (boxes s) (locks s) (next_lock s) (devices s) (hands s) (handles s) ((iter s + 1) mod 2 ^ 64), Ok (iter s)).
Definition descriptor_new : RM Descriptor := id ← device_id_new; mret (mk_Descriptor id EmptyString None).

(** [DeviceContainer::default]. *)
Definition registry_new : Registry := mk_Registry ∅ ∅ 0 ∅ ∅ [] 0.
