(* ===== verification/RdriveProof.v ===== *)
(** * The driver registry is type safe and its locks exclude each other

    Whatever threads do to the registry, a guard reaches a value of its type
    that no other guard reaches, a box is freed with its last owner and not
    before, and a lock that nobody holds can be taken. *)

From Stdlib Require Import String.
From stdpp Require Import base list numbers strings relations.
From S2P Require Import Prelude Rdrive.
From stdpp Require Import gmap sorting.
Open Scope Z_scope.

(** ** Process ids in a word *)

Definition pid_word (pid : Pid) : Z := as_i64 (if is_not_set pid then INVALID else pid).
Definition busy_error (pid : Pid) : GetDeviceError :=
  if is_not_set pid || is_invalid pid then UsedByUnknown else UsedByOthers pid.

Lemma pid_word_set pid : u_range 64 pid → pid_word pid ≠ -1.
Proof.
  unfold u_range, pid_word, as_i64, is_not_set, NOT_SET, INVALID. intros Hp.
  destruct (Z.eqb_spec pid 18446744073709551615); simpl; [lia|]. destruct (Z.ltb_spec pid (2 ^ 63)); lia.
Qed.

Lemma lock_try_lock_idle pid : lock_try_lock pid (-1) = (pid_word pid, Ok tt).
Proof. done. Qed.

Lemma lock_try_lock_busy pid pid' : u_range 64 pid' → lock_try_lock pid (pid_word pid') = (pid_word pid', Err (busy_error pid')).
Proof.
  intros Hp. pose proof (pid_word_set pid' Hp) as Hne. unfold lock_try_lock. change (as_i64 NOT_SET) with (-1).
  rewrite (proj2 (Z.eqb_neq _ _)) by done. do 2 f_equal. unfold busy_error, pid_word, is_not_set, is_invalid.
  destruct (Z.eqb_spec pid' NOT_SET) as [->|Hn]; [done|]. simpl.
  assert (as_usize (as_i64 pid') = pid') as ->; [|done].
  unfold as_usize, as_i64, u_range in *. destruct (Z.ltb_spec pid' (2 ^ 63)); [by rewrite Z.mod_small by lia|].
  rewrite <- (Z.mod_add (pid' - 2 ^ 64) 1) by lia. rewrite Z.mod_small; lia.
Qed.

(** ** Values in boxes *)

Lemma sub_at_app p w o : sub_at (p ++ w) o = sub_at p o ≫= sub_at w.
Proof. revert o. induction p as [|a p IH]; intros [t d [| |a' o]]; simpl; [done..|]. by destruct (a' =? a). Qed.

Lemma raw_any_at o w o2 : raw_any o = Some (w, o2) → sub_at w o = Some o2.
Proof. destruct o as [t d [| |a o]]; unfold raw_any; simpl; intros E; simplify_eq; simpl; [done|]. by rewrite Z.eqb_refl. Qed.

(** A value with other contents in the same boxes. *)
Fixpoint same_boxes (o o' : Obj) : bool :=
  match o, o' with
  | mk_Obj t _ s, mk_Obj t' _ s' => (t =? t') &&
      match s, s' with
      | NoAny, NoAny | SelfAny, SelfAny => true
      | BoxAny a x, BoxAny b y => (a =? b) && same_boxes x y
      | _, _ => false
      end
  end.

Lemma same_boxes_at p : ∀ o o' x, same_boxes o o' = true → sub_at p o = Some x → ∃ x', sub_at p o' = Some x' ∧ o_type x' = o_type x.
Proof.
  induction p as [|a p IH]; intros [t d s] [t' d' s'] x [Ht Hs]%andb_true_iff Hx; apply Z.eqb_eq in Ht; simpl in *.
  - simplify_eq. by eexists.
  - destruct s as [| |b o], s' as [| |b' o']; try done. apply andb_true_iff in Hs as [Hb%Z.eqb_eq Ho]. subst b'.
    destruct (b =? a); [|done]. by eapply IH.
Qed.

Lemma put_at_defined p new : ∀ o, is_Some (sub_at p o) → is_Some (put_at p new o).
Proof.
  induction p as [|a p IH]; intros [t d [| |b o]] Hx; simpl in *; try done; try by destruct Hx.
  destruct (b =? a); [|done]. destruct (IH _ Hx) as [y ->]. by eexists.
Qed.

(** Below the value that was assigned there is the new one, and elsewhere
    nothing has moved or changed its type. *)
Lemma put_at_below p new r : ∀ o o', put_at p new o = Some o' → sub_at (p ++ r) o' = sub_at r new.
Proof.
  induction p as [|a p IH]; intros [t d s] o' E; simpl in *; [by simplify_eq|].
  destruct s as [| |b o]; try done. destruct (b =? a) eqn:Eb; [|done]. apply fmap_Some in E as (x & Ex & ->). simpl.
  rewrite Eb. by eapply IH.
Qed.

Lemma put_at_beside p new q : ∀ o o' x, put_at p new o = Some o' → ¬ p `prefix_of` q → sub_at q o = Some x →
  ∃ x', sub_at q o' = Some x' ∧ o_type x' = o_type x.
Proof.
  revert q. induction p as [|a p IH]; intros q [t d s] o' x E Hpq Hx; simpl in *; [by destruct Hpq; apply prefix_nil|].
  destruct s as [| |b o]; try done. destruct (Z.eqb_spec b a) as [->|]; [|done]. apply fmap_Some in E as (y & Ey & ->).
  destruct q as [|c q]; simpl in *; [simplify_eq; by eexists|]. destruct (Z.eqb_spec a c) as [->|]; [|done].
  eapply IH; [exact Ey| |exact Hx]. intros Hp. by apply Hpq, prefix_cons.
Qed.

(** ** The invariant *)

Definition owned (l : Z) (s : Registry) : Prop :=
  (∃ id, devices s !! id = Some l) ∨ (∃ t h, hands s !! t = Some h ∧ hand_lock h = l).

Lemma is_owned_spec l s : is_owned l s = true ↔ owned l s.
Proof.
  unfold is_owned, owned. rewrite orb_true_iff, !bool_decide_eq_true. rewrite !list_elem_of_fmap. split.
  - intros [([id l'] & -> & Hin)|(h & -> & Hin)].
    + left. exists id. by apply elem_of_map_to_list in Hin.
    + right. apply list_elem_of_fmap in Hin as ([t h'] & -> & Hin). apply elem_of_map_to_list in Hin. by exists t, h'.
  - intros [[id Hid]|(t & h & Ht & <-)].
    + left. exists (id, l). split; [done|]. by apply elem_of_map_to_list.
    + right. exists h. split; [done|]. apply list_elem_of_fmap. exists (t, h). split; [done|]. by apply elem_of_map_to_list.
Qed.

(** A handle of a live lock points into its box, at a value of its type. *)
Definition well_typed (s : Registry) (d : Device) : Prop := ∀ li, locks s !! dv_lock d = Some li →
  p_box (dv_ptr d) = li_ptr li ∧ ∃ o, boxes s !! li_ptr li ≫= sub_at (p_path (dv_ptr d)) = Some o ∧ o_type o = dv_type d.

(** All live locks are owned, but for [x]. *)
Record reg_inv (x : option Z) (s : Registry) : Prop := {
  ri_fresh l : is_Some (locks s !! l) → l < next_lock s;
  ri_boxes a : is_Some (boxes s !! a) ↔ ∃ l li, locks s !! l = Some li ∧ li_ptr li = a;
  ri_apart l1 l2 li1 li2 : locks s !! l1 = Some li1 → locks s !! l2 = Some li2 → li_ptr li1 = li_ptr li2 → l1 = l2;
  ri_live l : owned l s → is_Some (locks s !! l);
  ri_owned l : is_Some (locks s !! l) → owned l s ∨ x = Some l;
  ri_handles d : d ∈ handles s → dv_lock d < next_lock s ∧ well_typed s d;
  ri_waiting t d : hands s !! t = Some (Waiting d) → d ∈ handles s;
  ri_guard t l p T pid : hands s !! t = Some (Guard l p T pid) → u_range 64 pid ∧
    (∃ li, locks s !! l = Some li ∧ borrowed li = pid_word pid) ∧
    ∃ d, d ∈ handles s ∧ dv_lock d = l ∧ dv_ptr d = p ∧ dv_type d = T;
  ri_unique t1 t2 l p1 p2 T1 T2 q1 q2 : hands s !! t1 = Some (Guard l p1 T1 q1) → hands s !! t2 = Some (Guard l p2 T2 q2) → t1 = t2;
  ri_busy l li : locks s !! l = Some li → borrowed li ≠ -1 → ∃ t p T pid, hands s !! t = Some (Guard l p T pid)
}.

Lemma registry_new_inv : reg_inv None registry_new.
Proof.
  split; simpl.
  - by intros l [? ?].
  - intros a. split; [by intros [? ?]|]. by intros (l & li & E & _).
  - done.
  - by intros l [[id E]|(t & h & E & _)].
  - by intros l [? ?].
  - by intros d ?%not_elem_of_nil.
  - done.
  - done.
  - done.
  - done.
Qed.

(** *** Operations that keep it *)

(** Only locks and boxes that are there matter to a handle. *)
Lemma well_typed_sub s s' d : (∀ li, locks s' !! dv_lock d = Some li → ∃ li', locks s !! dv_lock d = Some li' ∧ li_ptr li' = li_ptr li ∧
  boxes s' !! li_ptr li = boxes s !! li_ptr li) → well_typed s d → well_typed s' d.
Proof.
  intros H Hw li Hli. destruct (H li Hli) as (li' & Hli' & Hp & Hb). destruct (Hw li' Hli') as (H1 & o & H2 & H3).
  rewrite Hp in *. split; [done|]. exists o. by rewrite Hb.
Qed.

Lemma drop_arc_inv l s : reg_inv (Some l) s → ∃ s', drop_arc l s = (s', Ok tt) ∧ reg_inv None s' ∧
  hands s' = hands s ∧ devices s' = devices s ∧ handles s' = handles s.
Proof.
  intros [H1 H2 H3 H4 H5 H6 H7 H8 H9 H10]. eexists. split; [done|]. simpl.
  destruct (is_owned l s) eqn:Eo.
  { apply is_owned_spec in Eo. split; [|done]. split; try done. intros l' Hl'. left. destruct (H5 l' Hl') as [|[= ->]]; done. }
  assert (¬ owned l s) as Hno by (intros ?%is_owned_spec; congruence).
  destruct (locks s !! l) as [li|] eqn:El.
  2:{ split; [|done]. split; try done. intros l' Hl'. left. destruct (H5 l' Hl') as [|[= ->]]; [done|]. by destruct Hl' as [? ?]; simplify_eq. }
  split; [|done]. split; simpl.
  - intros l' Hl'. apply H1. destruct Hl' as [x Hx]. apply lookup_delete_Some in Hx as [_ Hx]. by exists x.
  - intros a. split.
    + intros [o Ho]. apply lookup_delete_Some in Ho as [Hne Ho]. destruct (proj1 (H2 a) (mk_is_Some _ _ Ho)) as (l' & li' & E & Hp).
      exists l', li'. split; [|done]. apply lookup_delete_Some. split; [|done]. intros ->. congruence.
    + intros (l' & li' & E & Hp). apply lookup_delete_Some in E as [Hne E].
      destruct (proj2 (H2 a)) as [o Ho]; [by exists l', li'|]. exists o. apply lookup_delete_Some. split; [|done].
      intros Hp'. apply Hne. eapply H3; [exact El|exact E|congruence].
  - intros l1 l2 li1 li2 [_ E1]%lookup_delete_Some [_ E2]%lookup_delete_Some. by apply H3.
  - intros l' Hl'. destruct (H4 l' Hl') as [li' E]. exists li'. apply lookup_delete_Some. split; [|done]. by intros ->.
  - intros l' [li' E]. apply lookup_delete_Some in E as [Hne E]. left. destruct (H5 l') as [|[= ->]]; done.
  - intros d Hd. destruct (H6 d Hd) as [Hf Hw]. split; [done|]. eapply well_typed_sub; [|exact Hw]. simpl.
    intros li' E. apply lookup_delete_Some in E as [Hne E]. exists li'. split; [done|]. split; [done|].
    rewrite lookup_delete_ne; [done|]. intros Hp. apply Hne. eapply H3; [exact El|exact E|congruence].
  - done.
  - intros t l' p T pid Ht. destruct (H8 t l' p T pid Ht) as (Hp & (li' & E & Hb) & Hd). split; [done|]. split; [|done].
    exists li'. split; [|done]. apply lookup_delete_Some. split; [|done]. intros ->. apply Hno. right. by exists t, (Guard l' p T pid).
  - done.
  - intros l' li' [_ E]%lookup_delete_Some. by apply H10.
Qed.

Lemma upgrade_inv d t s s' r : reg_inv None s → d ∈ handles s → upgrade d t s = (s', r) → reg_inv None s'.
Proof.
  intros Hi Hd. unfold upgrade. destruct (hands s !! t) as [h|] eqn:Et; [by intros [= <- <-]|].
  destruct (locks s !! dv_lock d) as [li|] eqn:El; [|by intros [= <- <-]]. intros [= <- <-].
  destruct Hi as [H1 H2 H3 H4 H5 H6 H7 H8 H9 H10]. split; simpl; try done.
  - intros l [[id Hid]|(t' & h & Ht & Hl)]; [apply H4; left; by exists id|].
    simpl in Ht. apply lookup_insert_Some in Ht as [[<- <-]|[Hne Ht]]; [subst l; by exists li|]. apply H4. right. by exists t', h.
  - intros l Hl. left. destruct (H5 l Hl) as [[[id Hid]|(t' & h & Ht & Hh)]|?]; [left; by exists id| |done].
    right. exists t', h. split; [|done]. simpl. rewrite lookup_insert_ne; [done|]. intros ->. congruence.
  - intros t' d' [[_ [= <-]]|[_ Ht]]%lookup_insert_Some; [done|]. by apply H7 in Ht.
  - intros t' l p T pid [[_ [=]]|[_ Ht]]%lookup_insert_Some. by apply H8 in Ht.
  - intros t1 t2 l p1 p2 T1 T2 q1 q2 [[_ [=]]|[_ Ht]]%lookup_insert_Some [[_ [=]]|[_ Ht']]%lookup_insert_Some. by eapply H9.
  - intros l li' E Hb. destruct (H10 l li' E Hb) as (t' & p & T & pid & Ht). exists t', p, T, pid.
    rewrite lookup_insert_ne; [done|]. intros ->. congruence.
Qed.

(** Replacing a hand by another one of the same lock. *)
Lemma owned_set_hand t h h' l L s : hands s !! t = Some h → hand_lock h' = hand_lock h →
  owned l (set_hands (<[t := h']> (hands s)) (set_locks L s)) ↔ owned l s.
Proof.
  intros Ht Hh. unfold owned. simpl. split; (intros [[id Hid]|(t' & x & Hx & Hl)]; [left; by exists id|right]).
  - apply lookup_insert_Some in Hx as [[<- <-]|[Hne Hx]]; [exists t, h; by rewrite <- Hh|by exists t', x].
  - destruct (decide (t = t')) as [<-|Hne]; [|exists t', x; by rewrite lookup_insert_ne].
    exists t, h'. rewrite lookup_insert_eq. simplify_eq. by split.
Qed.

(** Setting the word of a lock and the hand of a thread on it. *)
Lemma set_word_inv t h h' l li b s : reg_inv None s → hands s !! t = Some h → hand_lock h = l → hand_lock h' = l →
  locks s !! l = Some li → (∀ d, h' ≠ Waiting d) →
  (b = -1 ∧ (∃ p T pid, h = Guard l p T pid) ∧ (∀ l p T pid, h' ≠ Guard l p T pid) ∨
   borrowed li = -1 ∧ (∀ l p T pid, h ≠ Guard l p T pid) ∧
   ∃ d pid, d ∈ handles s ∧ dv_lock d = l ∧ u_range 64 pid ∧ b = pid_word pid ∧ h' = Guard l (dv_ptr d) (dv_type d) pid) →
  reg_inv None (set_hands (<[t := h']> (hands s)) (set_locks (<[l := mk_LockInner b (li_ptr li) (li_descriptor li)]> (locks s)) s)).
Proof.
  intros [H1 H2 H3 H4 H5 H6 H7 H8 H9 H10] Ht Hh Hh' El Hw Hcase.
  assert (∀ l' li', <[l := mk_LockInner b (li_ptr li) (li_descriptor li)]> (locks s) !! l' = Some li' →
    ∃ li0, locks s !! l' = Some li0 ∧ li_ptr li0 = li_ptr li' ∧ (l' ≠ l → li0 = li') ∧ (l' = l → borrowed li' = b)) as Hback.
  { intros l' li' [[<- <-]|[Hne E]]%lookup_insert_Some; [by exists li|by exists li'; split_and!]. }
  assert (∀ l', is_Some (<[l := mk_LockInner b (li_ptr li) (li_descriptor li)]> (locks s) !! l') ↔ is_Some (locks s !! l')) as Hsome.
  { intros l'. rewrite lookup_insert_is_Some. split; [intros [<-|[_ ?]]; [by exists li|done]|]. destruct (decide (l = l')); [by left|by right]. }
  assert (∀ t' l' p T pid, hands s !! t' = Some (Guard l' p T pid) → t' ≠ t → l' = l → (∃ p T pid, h = Guard l p T pid) ∨ borrowed li = -1 → False) as Hother.
  { intros t' l' p T pid Ht' Hne -> [(p0 & T0 & pid0 & ->)|Hb]; [apply Hne; by eapply H9|].
    destruct (H8 t' l p T pid Ht') as (Hp & (li' & E & Hb') & _). apply (pid_word_set pid Hp). congruence. }
  split; simpl.
  - intros l' Hl'. by apply H1, Hsome.
  - intros a. rewrite H2. split; intros (l' & li' & E & Hp).
    + destruct (decide (l = l')) as [<-|Hne]; [|exists l', li'; by rewrite lookup_insert_ne].
      eexists l, _. rewrite lookup_insert_eq. split; [done|]. by simplify_eq.
    + destruct (Hback l' li' E) as (li0 & E0 & Hp0 & _). exists l', li0. split; [done|congruence].
  - intros l1 l2 li1 li2 E1 E2 Hp. destruct (Hback _ _ E1) as (x & Ex & Hx & _). destruct (Hback _ _ E2) as (y & Ey & Hy & _).
    apply (H3 l1 l2 x y Ex Ey). congruence.
  - intros l' Hl'. apply Hsome, H4. by apply (owned_set_hand t h h') in Hl'; [|done|congruence].
  - intros l' Hl'. left. destruct (H5 l' (proj1 (Hsome l') Hl')) as [Ho|]; [|done]. apply (owned_set_hand t h h'); [done|congruence|done].
  - intros d Hd. destruct (H6 d Hd) as [Hf Hwt]. split; [done|]. eapply well_typed_sub; [|exact Hwt]. simpl.
    intros li' E. destruct (Hback _ _ E) as (x & Ex & Hx & _). by exists x.
  - intros t' d [[_ E]|[_ Ht']]%lookup_insert_Some; [by destruct (Hw d)|by apply H7 in Ht'].
  - intros t' l' p T pid [[<- E]|[Hne Ht']]%lookup_insert_Some.
    + destruct Hcase as [(_ & _ & Hno)|(Hb & _ & d & pid' & Hd & Hl & Hp & -> & E')]; [by destruct (Hno l' p T pid)|].
      rewrite E in E'. injection E' as -> -> -> ->. split; [done|]. split; [|by exists d]. eexists. by rewrite lookup_insert_eq.
    + destruct (H8 t' l' p T pid Ht') as (Hp & (li' & E & Hb) & Hd). split; [done|]. split; [|done].
      destruct (decide (l = l')) as [<-|Hnl]; [|exists li'; by rewrite lookup_insert_ne].
      exfalso. eapply Hother; [exact Ht'|done|done|]. destruct Hcase as [(_ & ? & _)|(? & _)]; [by left|by right].
  - intros t1 t2 l' p1 p2 T1 T2 q1 q2 [[<- E1]|[Hn1 Ht1]]%lookup_insert_Some [[<- E2]|[Hn2 Ht2]]%lookup_insert_Some; [done| | |by eapply H9].
    + exfalso. assert (l' = l) as -> by (rewrite <- Hh', E1; done). eapply Hother; [exact Ht2|done|done|].
      destruct Hcase as [(_ & ? & _)|(? & _)]; [by left|by right].
    + exfalso. assert (l' = l) as -> by (rewrite <- Hh', E2; done). eapply Hother; [exact Ht1|done|done|].
      destruct Hcase as [(_ & ? & _)|(? & _)]; [by left|by right].
  - intros l' li' E Hb. destruct (Hback l' li' E) as (x & Ex & _ & Hne & Heq). destruct (decide (l' = l)) as [->|Hn].
    + rewrite Heq in Hb by done. destruct Hcase as [(-> & _)|(_ & _ & d & pid & _ & _ & _ & _ & ->)]; [done|].
      exists t, (dv_ptr d), (dv_type d), pid. by rewrite lookup_insert_eq.
    + rewrite (Hne Hn) in Ex. destruct (H10 l' li' Ex Hb) as (t' & p & T & pid & Ht'). exists t', p, T, pid.
      rewrite lookup_insert_ne; [done|]. intros <-. simplify_eq.
Qed.

Lemma attempt_inv t pid s s' r : reg_inv None s → u_range 64 pid → attempt t pid s = (s', r) → reg_inv None s'.
Proof.
  intros Hi Hp. unfold attempt. destruct (hands s !! t) as [[d|l p T q|l]|] eqn:Et; [|by intros [= <- <-]..].
  destruct (locks s !! dv_lock d) as [li|] eqn:El; [|by intros [= <- <-]].
  destruct (decide (borrowed li = -1)) as [Hb|Hb].
  - rewrite Hb, lock_try_lock_idle. intros [= <- <-].
    apply (set_word_inv t (Waiting d)); try done. right. split; [done|]. split; [done|]. exists d, pid.
    split; [by apply (ri_waiting _ _ Hi t)|done].
  - destruct (ri_busy _ _ Hi _ _ El Hb) as (t' & p & T & q & Ht'). destruct (ri_guard _ _ Hi _ _ _ _ _ Ht') as (Hq & (li' & El' & Hb') & _).
    simplify_eq. rewrite Hb', lock_try_lock_busy by done. by intros [= <- <-].
Qed.

Lemma release_inv t s s' r : reg_inv None s → release t s = (s', r) → reg_inv None s'.
Proof.
  intros Hi. unfold release. destruct (hands s !! t) as [[d|l p T q|l]|] eqn:Et; [by intros [= <- <-]| |by intros [= <- <-]..].
  destruct (locks s !! l) as [li|] eqn:El; [|by intros [= <- <-]]. intros [= <- <-].
  apply (set_word_inv t (Guard l p T q)); try done. left. split; [done|]. split; [by exists p, T, q|done].
Qed.

Lemma give_back_inv t s s' r : reg_inv None s → give_back t s = (s', r) → reg_inv None s'.
Proof.
  intros Hi. unfold give_back.
  assert (∀ h, hands s !! t = Some h → (∀ l p T q, h ≠ Guard l p T q) → drop_arc (hand_lock h) (set_hands (delete t (hands s)) s) = (s', r) → reg_inv None s') as Hdrop.
  { intros h Ht Hno E. destruct (drop_arc_inv (hand_lock h) (set_hands (delete t (hands s)) s)) as (s2 & E2 & Hi2 & _); [|congruence].
    destruct Hi as [H1 H2 H3 H4 H5 H6 H7 H8 H9 H10]. split; simpl; try done.
    - intros l [[id Hid]|(t' & x & Hx & Hl)]; apply H4; [left; by exists id|right]. simpl in Hx. apply lookup_delete_Some in Hx as [_ Hx]. by exists t', x.
    - intros l Hl. destruct (H5 l Hl) as [[[id Hid]|(t' & x & Hx & Hxl)]|]; [left; left; by exists id| |done].
      destruct (decide (t' = t)) as [->|Hne]; [right; simplify_eq; done|]. left. right. exists t', x. simpl. by rewrite lookup_delete_ne.
    - intros t' d [_ Ht']%lookup_delete_Some. by apply H7 in Ht'.
    - intros t' l p T q [_ Ht']%lookup_delete_Some. by apply H8 in Ht'.
    - intros t1 t2 l p1 p2 T1 T2 q1 q2 [_ E1]%lookup_delete_Some [_ E2]%lookup_delete_Some. by eapply H9.
    - intros l li El Hb. destruct (H10 l li El Hb) as (t' & p & T & q & Ht'). exists t', p, T, q. rewrite lookup_delete_ne; [done|].
      intros <-. simplify_eq. by apply (Hno l p T q). }
  destruct (hands s !! t) as [[d|l p T q|l]|] eqn:Et; [|by intros [= <- <-]| |by intros [= <- <-]]; by apply (Hdrop _ eq_refl).
Qed.

Lemma add_handle_inv d s : reg_inv None s → dv_lock d < next_lock s → well_typed s d → reg_inv None (add_handles [d] s).
Proof.
  intros [H1 H2 H3 H4 H5 H6 H7 H8 H9 H10] Hf Hw. split; simpl; try done.
  - intros d' [Hd| ->%list_elem_of_singleton]%elem_of_app; [by apply H6|done].
  - intros t d' Ht. apply elem_of_app. left. by eapply H7.
  - intros t l p T pid Ht. destruct (H8 t l p T pid Ht) as (Hp & Hl & d' & Hd & E). split; [done|]. split; [done|].
    exists d'. split; [|done]. apply elem_of_app. by left.
Qed.

(** Writing through a guard: other contents in the boxes that are there, or a
    new value when no handle points into a box of the old one. *)
Definition write_ok (t : Z) (new : Obj) (s : Registry) : Prop := ∀ l p T q old,
  hands s !! t = Some (Guard l p T q) → boxes s !! p_box p ≫= sub_at (p_path p) = Some old →
  same_boxes old new = true ∨
  ∀ d, d ∈ handles s → dv_lock d = l → ∀ a r, p_path (dv_ptr d) ≠ p_path p ++ a :: r.

Lemma put_typed p q new b b' old x : put_at p new b = Some b' → sub_at p b = Some old → sub_at q b = Some x →
  o_type new = o_type old → same_boxes old new = true ∨ (∀ a r, q ≠ p ++ a :: r) →
  ∃ x', sub_at q b' = Some x' ∧ o_type x' = o_type x.
Proof.
  intros Hput Hold Hx HT Hok. destruct (decide (p `prefix_of` q)) as [[r ->]|Hpq]; [|by eapply put_at_beside].
  rewrite (put_at_below _ _ _ _ _ Hput). rewrite sub_at_app, Hold in Hx. simpl in Hx. destruct r as [|a r].
  - exists new. simpl in *. by simplify_eq.
  - destruct Hok as [Hs|Hno]; [by eapply same_boxes_at|by destruct (Hno a r)].
Qed.

(** The guard's value, and what assigning to it does. *)
Lemma guard_value t l p T q s : reg_inv None s → hands s !! t = Some (Guard l p T q) →
  ∃ li b old, locks s !! l = Some li ∧ p_box p = li_ptr li ∧ boxes s !! li_ptr li = Some b ∧ sub_at (p_path p) b = Some old ∧ o_type old = T.
Proof.
  intros Hi Ht. destruct (ri_guard _ _ Hi _ _ _ _ _ Ht) as (_ & (li & El & _) & d & Hd & <- & <- & <-).
  destruct (ri_handles _ _ Hi d Hd) as [_ Hw]. destruct (Hw li El) as (Hp & o & Eo & Ho). apply bind_Some in Eo as (b & Eb & Eo).
  by exists li, b, o.
Qed.

Lemma guard_write_inv t new s s' r : reg_inv None s → write_ok t new s → guard_write t new s = (s', r) → reg_inv None s'.
Proof.
  intros Hi Hok. unfold guard_write. destruct (hands s !! t) as [[d|l p T q|l]|] eqn:Ht; [by intros [= <- <-]| |by intros [= <- <-]..].
  destruct (guard_value t l p T q s Hi Ht) as (li & b & old & El & Hp & Eb & Eold & HT). rewrite Hp, Eb. simpl.
  destruct (put_at (p_path p) new b) as [b'|] eqn:Eput; [|by intros [= <- <-]].
  destruct (Z.eqb_spec (o_type new) T) as [HT'|]; [|by intros [= <- <-]]. intros [= <- <-].
  specialize (Hok l p T q old Ht). rewrite Hp, Eb in Hok. specialize (Hok Eold).
  destruct Hi as [H1 H2 H3 H4 H5 H6 H7 H8 H9 H10]. split; simpl; try done.
  - intros a. rewrite <- H2, lookup_insert_is_Some. split; [intros [<-|[_ ?]]; [by exists b|done]|].
    destruct (decide (li_ptr li = a)); [by left|by right].
  - intros d Hd. destruct (H6 d Hd) as [Hf Hw]. split; [done|]. intros li' El'. simpl in *. destruct (Hw li' El') as (Hpd & o & Eo & Ho).
    split; [done|]. destruct (decide (li_ptr li = li_ptr li')) as [Epp|Hne]; [|rewrite lookup_insert_ne by done; by exists o].
    pose proof (H3 _ _ _ _ El' El (eq_sym Epp)) as Hl. rewrite <- Epp in *. rewrite lookup_insert_eq. rewrite Eb in Eo. simpl in Eo |- *.
    destruct (put_typed (p_path p) (p_path (dv_ptr d)) new b b' old o) as (x' & Ex & Hx'); [done..|congruence| |by exists x'; rewrite Hx'].
    destruct Hok as [|Hno]; [by left|right]. by apply Hno.
Qed.

(** The value behind a live lock. *)
Lemma live_value s l : reg_inv None s → is_Some (locks s !! l) → ∃ li o, locks s !! l = Some li ∧ boxes s !! li_ptr li = Some o.
Proof.
  intros Hi [li El]. destruct (proj2 (ri_boxes _ _ Hi (li_ptr li))) as [o Eo]; [by exists l, li|]. by exists li, o.
Qed.

Lemma weak_run T l s : reg_inv None s → is_Some (locks s !! l) → ∃ li o, locks s !! l = Some li ∧ boxes s !! li_ptr li = Some o ∧
  let d := mk_Device l (li_descriptor li) (mk_Ptr (li_ptr li) []) T in
  if o_type o =? T then weak T l s = (add_handles [d] s, Ok d) ∧ reg_inv None (add_handles [d] s) else weak T l s = (s, Err TypeNotMatch).
Proof.
  intros Hi Hl. destruct (live_value s l Hi Hl) as (li & o & El & Eo). exists li, o. split; [done|]. split; [done|].
  unfold weak, deref. rewrite (bind_run get _ s _ _ eq_refl), (bind_run (lift _) _ s s li) by (by rewrite El).
  rewrite (bind_run _ _ s s o) by (unfold mbind, M_bind, get, lift; simpl; by rewrite Eo).
  simpl. destruct (Z.eqb_spec (o_type o) T) as [<-|]; [|done]. split; [done|].
  apply add_handle_inv; [done|by apply (ri_fresh _ _ Hi)|]. intros li' El'. simpl in *. simplify_eq. split; [done|].
  exists o. by rewrite Eo.
Qed.

Lemma downcast_run d T2 s : reg_inv None s → d ∈ handles s →
  if decide (is_Some (locks s !! dv_lock d)) then ∃ o, boxes s !! p_box (dv_ptr d) ≫= sub_at (p_path (dv_ptr d)) = Some o ∧ o_type o = dv_type d ∧
    match raw_any o with
    | Some (w, o2) =>
        let d2 := mk_Device (dv_lock d) (dv_descriptor d) (mk_Ptr (p_box (dv_ptr d)) (p_path (dv_ptr d) ++ w)) T2 in
        if o_type o2 =? T2 then downcast d T2 s = (add_handles [d2] s, Ok d2) ∧ reg_inv None (add_handles [d2] s)
        else downcast d T2 s = (s, Err TypeNotMatch)
    | None => downcast d T2 s = (s, Err TypeNotMatch)
    end
  else downcast d T2 s = (s, Err DeviceReleased).
Proof.
  intros Hi Hd. destruct (ri_handles _ _ Hi d Hd) as [Hf Hw]. unfold downcast.
  destruct (locks s !! dv_lock d) as [li|] eqn:El.
  2:{ rewrite decide_False by (intros [? ?]; done). unfold mbind, M_bind, get, lift. by rewrite El. }
  rewrite decide_True by (by exists li). destruct (Hw li El) as (Hp & o & Eo & Ho). rewrite Hp in *. exists o. split; [done|]. split; [done|].
  assert (deref (dv_ptr d) s = (s, Ok o)) as Ed.
  { unfold deref. rewrite (bind_run get _ s _ _ eq_refl). unfold lift. by rewrite Hp, Eo. }
  rewrite (bind_run get _ s _ _ eq_refl), (bind_run (lift _) _ s s li) by (by rewrite El). rewrite (bind_run _ _ _ _ _ Ed), Ho, Z.eqb_refl.
  destruct (raw_any o) as [[w o2]|] eqn:Er; [|done]. rewrite (bind_run (lift _) _ s s (w, o2)) by done.
  destruct (Z.eqb_spec (o_type o2) T2) as [<-|]; [|done]. split; [done|].
  apply add_handle_inv; [done|done|]. intros li' El'. simpl in *. simplify_eq. split; [done|]. exists o2. split; [|done].
  destruct (boxes s !! li_ptr li) as [o0|]; [|done]. simpl in Eo |- *. rewrite sub_at_app, Eo. by apply raw_any_at.
Qed.

(** A new box under a new lock, in the place of the device's old owner. *)
Lemma insert_device_inv d o addr s : reg_inv None s → boxes s !! addr = None →
  ∃ s', insert_device d o addr s = (s', Ok tt) ∧ reg_inv None s' ∧ devices s' = <[device_id d := next_lock s]> (devices s) ∧ hands s' = hands s ∧ handles s' = handles s.
Proof.
  intros Hi Ha. unfold insert_device, device_owner_new, alloc_box. unfold mbind at 1 2 3 4 5, M_bind, get, modify, mret, M_ret. rewrite Ha. simpl.
  set (s1 := set_devices _ _).
  assert (reg_inv (devices s !! device_id d) s1) as Hi1.
  { destruct Hi as [H1 H2 H3 H4 H5 H6 H7 H8 H9 H10]. subst s1.
    assert (∀ l, is_Some (locks s !! l) → l ≠ next_lock s) as Hnew by (intros l Hl; specialize (H1 l Hl); lia).
    assert (∀ l li, locks s !! l = Some li → li_ptr li ≠ addr) as Hbox.
    { intros l li El <-. destruct (proj2 (H2 (li_ptr li))) as [x Ex]; [by exists l, li|]. congruence. }
    split; simpl.
    - intros l [li [[<- <-]|[Hne El]]%lookup_insert_Some]; [lia|]. specialize (H1 l (mk_is_Some _ _ El)). lia.
    - intros a. rewrite lookup_insert_is_Some. split.
      + intros [<-|[Hne Hx]]; [eexists (next_lock s), _; by rewrite lookup_insert_eq|]. apply H2 in Hx as (l & li & El & Hp).
        exists l, li. rewrite lookup_insert_ne; [done|]. intros <-. by apply (Hnew _ (mk_is_Some _ _ El)).
      + intros (l & li & [[<- <-]|[Hne El]]%lookup_insert_Some & <-); [by left|]. right. split; [by eapply not_eq_sym, Hbox|]. apply H2. by exists l, li.
    - intros l1 l2 li1 li2 [[<- <-]|[Hn1 E1]]%lookup_insert_Some [[<- <-]|[Hn2 E2]]%lookup_insert_Some; simpl; [done| | |by apply H3].
      + intros Hp. by destruct (Hbox _ _ E2).
      + intros Hp. by destruct (Hbox _ _ E1).
    - intros l [[id Hid]|(t & h & Ht & Hl)]; simpl in *; apply lookup_insert_is_Some; (destruct (decide (next_lock s = l)); [by left|right; split; [done|]]).
      + apply lookup_insert_Some in Hid as [[<- <-]|[_ Hid]]; [done|]. apply H4. left. by exists id.
      + apply H4. right. by exists t, h.
    - intros l Hl. apply lookup_insert_is_Some in Hl as [<-|[Hne Hl]]; [left; left; exists (device_id d); apply lookup_insert_eq|].
      destruct (H5 l Hl) as [[[id Hid]|(t & h & Ht & Hx)]|]; [| |done].
      + destruct (decide (device_id d = id)) as [<-|Hn]; [by right|]. left. left. exists id. simpl. by rewrite lookup_insert_ne.
      + left. right. by exists t, h.
    - intros d' Hd'. destruct (H6 d' Hd') as [Hf Hw]. split; [lia|]. eapply well_typed_sub; [|exact Hw]. simpl.
      intros li [[Hl _]|[Hne El]]%lookup_insert_Some; [lia|]. exists li. split; [done|]. split; [done|].
      rewrite lookup_insert_ne; [done|]. by eapply not_eq_sym, Hbox.
    - done.
    - intros t l p T pid Ht. destruct (H8 t l p T pid Ht) as (Hp & (li & El & Hb) & Hd). split; [done|]. split; [|done].
      exists li. rewrite lookup_insert_ne; [done|]. intros <-. by apply (Hnew _ (mk_is_Some _ _ El)).
    - done.
    - intros l li [[<- <-]|[Hne El]]%lookup_insert_Some Hb; [done|]. by apply (H10 l li). }
  destruct (devices s !! device_id d) as [old|]; [|by exists s1].
  destruct (drop_arc_inv old s1 Hi1) as (s2 & E2 & Hi2 & Hh & Hd & Hhs). exists s2. by rewrite E2, Hh, Hd, Hhs.
Qed.

(** *** Looking devices up *)

(** The type of the value behind a lock. *)
Definition value_type (s : Registry) (l : Z) : option Z := li ← locks s !! l; o_type <$> boxes s !! li_ptr li.
Definition of_type (T : Z) (s : Registry) (ls : list Z) : list Z := filter (λ l, value_type s l = Some T) ls.

Lemma values_elem m l : l ∈ values m ↔ ∃ id, m !! id = Some l.
Proof.
  unfold values. rewrite list_elem_of_fmap. setoid_rewrite merge_sort_Permutation. split.
  - intros ([id l'] & -> & H%elem_of_map_to_list). by exists id.
  - intros [id H]. exists (id, l). by rewrite elem_of_map_to_list.
Qed.

Lemma values_live s : reg_inv None s → Forall (λ l, is_Some (locks s !! l)) (values (devices s)).
Proof. intros Hi. apply Forall_forall. intros l Hl%values_elem. apply (ri_live _ _ Hi). by left. Qed.

(** What [weak] says of a lock that is live. *)
Lemma weak_type T l s : reg_inv None s → is_Some (locks s !! l) →
  if decide (value_type s l = Some T) then ∃ d, weak T l s = (add_handles [d] s, Ok d) ∧ dv_lock d = l ∧ dv_type d = T ∧ reg_inv None (add_handles [d] s)
  else weak T l s = (s, Err TypeNotMatch).
Proof.
  intros Hi Hl. destruct (weak_run T l s Hi Hl) as (li & o & El & Eo & Hw). unfold value_type. rewrite El. simpl. rewrite Eo. simpl in *.
  destruct (Z.eqb_spec (o_type o) T) as [->|Hne].
  - rewrite decide_True by done. destruct Hw as [Hw Hi']. eexists. by split_and!.
  - by rewrite decide_False by congruence.
Qed.

Lemma first_weak_run T ls : ∀ s, reg_inv None s → Forall (λ l, is_Some (locks s !! l)) ls →
  ∃ s', first_weak T ls s = (s', Ok None) ∧ s' = s ∧ of_type T s ls = [] ∨
    ∃ d, first_weak T ls s = (s', Ok (Some d)) ∧ s' = add_handles [d] s ∧ reg_inv None s' ∧ dv_type d = T ∧ head (of_type T s ls) = Some (dv_lock d).
Proof.
  induction ls as [|l ls IH]; intros s Hi Hls; [by exists s; left|]. apply Forall_cons in Hls as [Hl Hls].
  pose proof (weak_type T l s Hi Hl) as Hw. unfold of_type in *. rewrite filter_cons. simpl.
  destruct (decide (value_type s l = Some T)) as [E|E].
  - destruct Hw as (d & Ew & Hd & HT & Hi'). rewrite Ew. exists (add_handles [d] s). right. exists d. split_and!; try done. by rewrite Hd.
  - rewrite Hw. by apply IH.
Qed.

Lemma all_weak_run T ls : ∀ s, reg_inv None s → Forall (λ l, is_Some (locks s !! l)) ls →
  ∃ ds, all_weak T ls s = (add_handles ds s, Ok ds) ∧ reg_inv None (add_handles ds s) ∧
    dv_lock <$> ds = of_type T s ls ∧ Forall (λ d, dv_type d = T) ds.
Proof.
  assert (∀ s, add_handles [] s = s) as Hnil by (intros []; unfold add_handles; simpl; by rewrite app_nil_r).
  induction ls as [|l ls IH]; intros s Hi Hls.
  { exists []. by rewrite Hnil. }
  apply Forall_cons in Hls as [Hl Hls]. pose proof (weak_type T l s Hi Hl) as Hw. unfold of_type in *. rewrite filter_cons. simpl.
  destruct (decide (value_type s l = Some T)) as [E|E].
  - destruct Hw as (d & Ew & Hd & HT & Hi'). rewrite Ew. destruct (IH _ Hi' Hls) as (ds & Er & Hi2 & Hds & HTs).
    exists (d :: ds). rewrite (bind_run _ _ _ _ _ Er). unfold add_handles in *. simpl in *. rewrite <- app_assoc in Hi2 |- *.
    split; [done|]. split; [done|]. split; [f_equal; [exact Hd|exact Hds]|by constructor].
  - rewrite Hw. by apply IH.
Qed.

(** ** Every operation *)

(** The threads use the handles they were given. *)
Inductive reg_step (s : Registry) : Registry → Prop :=
| st_insert d o addr : boxes s !! addr = None → reg_step s (insert_device d o addr s).1
| st_get T id : reg_step s (get_typed T id s).1
| st_get_one T : reg_step s (get_one T s).1
| st_get_list T : reg_step s (get_list T s).1
| st_new_id : reg_step s (device_id_new s).1
| st_upgrade d t : d ∈ handles s → reg_step s (upgrade d t s).1
| st_attempt t pid : u_range 64 pid → reg_step s (attempt t pid s).1
| st_write t new : write_ok t new s → reg_step s (guard_write t new s).1
| st_release t : reg_step s (release t s).1
| st_give_back t : reg_step s (give_back t s).1
| st_downcast d T : d ∈ handles s → reg_step s (downcast d T s).1.

Definition reachable : Registry → Prop := rtc reg_step registry_new.

Lemma reg_step_inv s s' : reg_step s s' → reg_inv None s → reg_inv None s'.
Proof.
  intros Hst Hi. destruct Hst as [d o addr Ha|T id|T|T| |d t Hd|t pid Hp|t new Hw|t|t|d T Hd].
  - destruct (insert_device_inv d o addr s Hi Ha) as (s' & -> & Hi' & _). done.
  - unfold get_typed. rewrite (bind_run get _ s _ _ eq_refl). destruct (devices s !! id) as [l|] eqn:E; [|done].
    rewrite (bind_run (lift _) _ s s l) by done. pose proof (weak_type T l s Hi) as Hw.
    destruct (decide _); [destruct Hw as (d & -> & _ & _ & ?)|rewrite Hw]; try done; apply (ri_live _ _ Hi); left; by exists id.
  - unfold get_one. rewrite (bind_run get _ s _ _ eq_refl).
    by destruct (first_weak_run T _ s Hi (values_live s Hi)) as (s' & [(-> & -> & _)|(d & -> & _ & ? & _)]).
  - unfold get_list. rewrite (bind_run get _ s _ _ eq_refl).
    by destruct (all_weak_run T _ s Hi (values_live s Hi)) as (ds & -> & ? & _).
  - by destruct Hi; split.
  - destruct (upgrade d t s) eqn:E. by eapply upgrade_inv.
  - destruct (attempt t pid s) eqn:E. by eapply attempt_inv.
  - destruct (guard_write t new s) eqn:E. by eapply guard_write_inv.
  - destruct (release t s) eqn:E. by eapply release_inv.
  - destruct (give_back t s) eqn:E. by eapply give_back_inv.
  - pose proof (downcast_run d T s Hi Hd) as H. destruct (decide _); [|by rewrite H].
    destruct H as (o & _ & _ & H). destruct (raw_any o) as [[w o2]|]; [|by rewrite H].
    destruct (o_type o2 =? T); [by destruct H as [-> ?]|by rewrite H].
Qed.


Lemma reachable_inv s : reachable s → reg_inv None s.
Proof.
  unfold reachable. intros H. assert (∀ s0, rtc reg_step s0 s → reg_inv None s0 → reg_inv None s) as Hall; [|by apply (Hall registry_new), registry_new_inv].
  clear H. induction 1 as [s0|s0 s1 s2 Hst _ IH]; [done|]. intros Hi. apply IH. by eapply reg_step_inv.
Qed.

(** ** The theorems *)

Lemma guard_deref_run t l p T q s o : hands s !! t = Some (Guard l p T q) → boxes s !! p_box p ≫= sub_at (p_path p) = Some o → o_type o = T →
  guard_deref t s = (s, Ok o).
Proof.
  intros Ht Eo Ho. unfold guard_deref. rewrite (bind_run get _ s _ _ eq_refl), Ht.
  assert (deref p s = (s, Ok o)) as Ed by (unfold deref; rewrite (bind_run get _ s _ _ eq_refl); unfold lift; by rewrite Eo).
  by rewrite (bind_run _ _ _ _ _ Ed), Ho, Z.eqb_refl.
Qed.

(** C27: In every state threads can bring the registry to, two guards of one
    device are the same guard, also when one was made from a handle of the type
    inside. An attempt to lock fails exactly if there is a guard, changes
    nothing then and names the process that holds it; else it succeeds. A
    guard can be dropped, after which the device has no guard. *)
Theorem device_lock_exclusive s : reachable s →
  (∀ t1 t2 l p1 p2 T1 T2 q1 q2, hands s !! t1 = Some (Guard l p1 T1 q1) → hands s !! t2 = Some (Guard l p2 T2 q2) → t1 = t2) ∧
  (∀ t d pid, hands s !! t = Some (Waiting d) → u_range 64 pid →
    (∃ t' p T q, hands s !! t' = Some (Guard (dv_lock d) p T q) ∧ attempt t pid s = (s, Err (busy_error q))) ∨
    (∀ t' p T q, hands s !! t' ≠ Some (Guard (dv_lock d) p T q)) ∧
      ∃ s', attempt t pid s = (s', Ok tt) ∧ hands s' = <[t := Guard (dv_lock d) (dv_ptr d) (dv_type d) pid]> (hands s)) ∧
  (∀ t l p T q, hands s !! t = Some (Guard l p T q) →
    ∃ s', release t s = (s', Ok tt) ∧ ∀ t' p' T' q', hands s' !! t' ≠ Some (Guard l p' T' q')).
Proof.
  intros Hi%reachable_inv. split; [intros *; apply (ri_unique _ _ Hi)|]. split.
  - intros t d pid Ht Hp. destruct (ri_live _ _ Hi (dv_lock d)) as [li El]; [right; by exists t, (Waiting d)|].
    unfold attempt. rewrite Ht, El. destruct (decide (borrowed li = -1)) as [Hb|Hb].
    + right. rewrite Hb, lock_try_lock_idle. split; [|by eexists]. intros t' p T q Ht'.
      destruct (ri_guard _ _ Hi _ _ _ _ _ Ht') as (Hq & (li' & El' & Hb') & _). apply (pid_word_set q Hq). congruence.
    + left. destruct (ri_busy _ _ Hi _ _ El Hb) as (t' & p & T & q & Ht'). exists t', p, T, q. split; [done|].
      destruct (ri_guard _ _ Hi _ _ _ _ _ Ht') as (Hq & (li' & El' & Hb') & _). simplify_eq. by rewrite Hb', lock_try_lock_busy.
  - intros t l p T q Ht. destruct (ri_live _ _ Hi l) as [li El]; [right; by exists t, (Guard l p T q)|].
    unfold release. rewrite Ht, El. eexists. split; [done|]. intros t' p' T' q'. simpl. destruct (decide (t = t')) as [<-|Hne].
    + by rewrite lookup_insert_eq.
    + rewrite lookup_insert_ne by done. intros Ht'. by apply Hne, (ri_unique _ _ Hi t t' l p p' T T' q q').
Qed.

(** C26: In every state threads can bring the registry to, a guard of type [T]
    reaches a value of type [T] that is still there, and what is written
    through it is what it reaches then; casting a handle down never touches
    freed memory, and a handle of a device that is gone says so; and the boxes
    on the heap are those of the devices that somebody owns. Threads write
    through guards as [write_ok] says: they change the contents of a value, or
    assign a whole new value while there is no handle into a box the old one
    owns. An assignment under such a handle frees what the handle points to
    ([replace_frees_inner]), and [force_use], which is unsafe, is left out. *)
Theorem registry_type_safe s : reachable s →
  (∀ t l p T q, hands s !! t = Some (Guard l p T q) → (∃ o, guard_deref t s = (s, Ok o) ∧ o_type o = T) ∧
    ∀ new, o_type new = T → ∃ s', guard_write t new s = (s', Ok tt) ∧ guard_deref t s' = (s', Ok new)) ∧
  (∀ d T2, d ∈ handles s → if is_owned (dv_lock d) s
    then (∃ s' d2, downcast d T2 s = (s', Ok d2) ∧ dv_type d2 = T2 ∧ dv_lock d2 = dv_lock d) ∨ downcast d T2 s = (s, Err TypeNotMatch)
    else downcast d T2 s = (s, Err DeviceReleased)) ∧
  (∀ a, is_Some (boxes s !! a) ↔ ∃ l li, locks s !! l = Some li ∧ li_ptr li = a ∧ is_owned l s = true).
Proof.
  intros Hi%reachable_inv. split; [|split].
  - intros t l p T q Ht. destruct (guard_value t l p T q s Hi Ht) as (li & b & old & _ & Hp & Eb & Eold & HT). split.
    + exists old. split; [|done]. apply guard_deref_run with l p T q; [done| |done]. rewrite Hp, Eb. done.
    + intros new Hnew. destruct (put_at_defined (p_path p) new b (mk_is_Some _ _ Eold)) as [b' Eput].
      eexists. split; [unfold guard_write; rewrite Ht, Hp, Eb; simpl; by rewrite Eput, (proj2 (Z.eqb_eq _ _) Hnew)|].
      apply guard_deref_run with l p T q; [done| |done]. simpl. rewrite Hp, lookup_insert_eq. simpl.
      pose proof (put_at_below _ _ [] _ _ Eput) as E. by rewrite app_nil_r in E.
  - intros d T2 Hd. pose proof (downcast_run d T2 s Hi Hd) as H. destruct (is_owned (dv_lock d) s) eqn:Eo.
    + rewrite decide_True in H by (by apply (ri_live _ _ Hi), is_owned_spec). destruct H as (o & _ & _ & H).
      destruct (raw_any o) as [[w o2]|]; [|by right]. destruct (o_type o2 =? T2); [|by right]. destruct H as [-> _]. left. by eexists _, _.
    + rewrite decide_False in H; [done|]. intros Hl. destruct (ri_owned _ _ Hi _ Hl) as [Ho%is_owned_spec|]; [congruence|done].
  - intros a. rewrite (ri_boxes _ _ Hi). split; intros (l & li & El & Hp & Ho) || intros (l & li & El & Hp); exists l, li; split_and?; try done.
    apply is_owned_spec. by destruct (ri_owned _ _ Hi l (mk_is_Some _ _ El)).
Qed.

(** Looking devices up finds those of the type in question, in the order of
    their ids: [get_list] all of them, [get_one] the first; [get] tells an
    unknown id from a device of another type. *)
Theorem registry_lookup s T : reachable s → let ls := of_type T s (values (devices s)) in
  (∃ s' ds, get_list T s = (s', Ok ds) ∧ dv_lock <$> ds = ls ∧ Forall (λ d, dv_type d = T) ds) ∧
  (∃ s' o, get_one T s = (s', Ok o) ∧ dv_lock <$> o = head ls) ∧
  ∀ id, match devices s !! id with
    | None => get_typed T id s = (s, Err NotFound)
    | Some l => if decide (value_type s l = Some T) then ∃ s' d, get_typed T id s = (s', Ok d) ∧ dv_lock d = l ∧ dv_type d = T
                else get_typed T id s = (s, Err TypeNotMatch)
    end.
Proof.
  intros Hi%reachable_inv ls. pose proof (values_live s Hi) as Hls. split; [|split].
  - destruct (all_weak_run T _ s Hi Hls) as (ds & E & _ & Hds & HT). exists (add_handles ds s), ds.
    unfold get_list. rewrite (bind_run get _ s _ _ eq_refl). done.
  - unfold get_one. rewrite (bind_run get _ s _ _ eq_refl).
    destruct (first_weak_run T _ s Hi Hls) as (s' & [(-> & _ & E)|(d & -> & _ & _ & _ & E)]); [exists s', None|exists s', (Some d)]; (split; [done|]); unfold ls.
    + by rewrite E.
    + by rewrite E.
  - intros id. unfold get_typed. rewrite (bind_run get _ s _ _ eq_refl). destruct (devices s !! id) as [l|] eqn:El; [|done].
    rewrite (bind_run (lift _) _ s s l) by done.
    pose proof (weak_type T l s Hi) as Hw. destruct (decide _).
    + destruct Hw as (d & -> & Hd & HT & _); [apply (ri_live _ _ Hi); left; by exists id|]. by eexists _, d.
    + rewrite Hw; [done|]. apply (ri_live _ _ Hi). left. by exists id.
Qed.

(** ** A run of two threads

    Device 5 holds a value of type 7 around one of type 9. Thread 1 locks it,
    thread 2 has a handle of the inner type and tries. *)
Definition run_desc : Descriptor := mk_Descriptor 5 EmptyString None.
Definition run_outer : Device := mk_Device 0 run_desc (mk_Ptr 0x1000 []) 7.
Definition run_inner : Device := mk_Device 0 run_desc (mk_Ptr 0x1000 [0x2000]) 9.
Definition run1 : Registry := (insert_device run_desc (mk_Obj 7 0 (BoxAny 0x2000 (mk_Obj 9 0 NoAny))) 0x1000 registry_new).1.
Definition run2 : Registry := (downcast run_outer 9 (get_one 7 run1).1).1.
Definition run3 : Registry := (attempt 1 77 (upgrade run_outer 1 run2).1).1.
Definition run4 : Registry := (upgrade run_inner 2 run3).1.

Lemma run_reachable : reachable run4 ∧ reachable run3 ∧ reachable run2.
Proof.
  assert (reachable run2) as H2.
  { eapply rtc_r; [|apply st_downcast; vm_compute; apply elem_of_cons; by left]. eapply rtc_r; [|apply st_get_one].
    eapply rtc_once, st_insert. done. }
  assert (reachable run3) as H3.
  { eapply rtc_r; [|apply st_attempt; done]. eapply rtc_r; [exact H2|]. apply st_upgrade. vm_compute. apply elem_of_cons. by left. }
  split; [|done]. eapply rtc_r; [exact H3|]. apply st_upgrade. vm_compute. apply elem_of_cons. right. apply elem_of_cons. by left.
Qed.

Lemma device_lock_exclusive_witness : attempt 2 78 run4 = (run4, Err (UsedByOthers 77)).
Proof.
  destruct run_reachable as [Hr _]. destruct (device_lock_exclusive run4 Hr) as (_ & Ha & _).
  destruct (Ha 2 run_inner 78 ltac:(vm_compute; reflexivity) ltac:(done)) as [(t' & p & T & q & Ht & E)|[Hno _]].
  - rewrite E. vm_compute in Ht. by repeat (case_match; simplify_eq).
  - by destruct (Hno 1 (mk_Ptr 0x1000 []) 7 77).
Defined.


(** The guard of thread 1 reaches the value, and what it writes there. *)
Lemma registry_type_safe_witness : (∃ o, guard_deref 1 run3 = (run3, Ok o) ∧ o_type o = 7) ∧
  let new := mk_Obj 7 1 (BoxAny 0x2000 (mk_Obj 9 2 NoAny)) in
  write_ok 1 new run3 ∧ ∃ s', guard_write 1 new run3 = (s', Ok tt) ∧ guard_deref 1 s' = (s', Ok new).
Proof.
  destruct run_reachable as (_ & Hr & _). destruct (registry_type_safe run3 Hr) as (Hg & _).
  destruct (Hg 1 0 (mk_Ptr 0x1000 []) 7 77 ltac:(vm_compute; reflexivity)) as [H1 H2].
  split; [exact H1|]. cbv zeta. split; [|by apply H2].
  intros l p T q old Ht Ho. left. vm_compute in Ht. repeat (case_match; simplify_eq). vm_compute in Ho. by simplify_eq.
Defined.

(** A new value assigned through the guard of thread 1, while there is a handle
    into the box of the old one: thread 2 gets a guard from this handle, and
    the value it points to is gone. *)
Example replace_frees_inner :
  let s1 := (guard_write 1 (mk_Obj 7 1 (BoxAny 0x3000 (mk_Obj 9 2 NoAny))) run3) in
  let s2 := (attempt 2 78 (upgrade run_inner 2 (give_back 1 (release 1 s1.1).1).1).1) in
  reachable run3 ∧ s1.2 = Ok tt ∧ s2.2 = Ok tt ∧ (guard_deref 2 s2.1).2 = Stuck.
Proof. split_and!; [apply run_reachable|vm_compute; reflexivity..]. Qed.

(** There is one device of type 7 and none of type 9. *)
Lemma registry_lookup_witness : (∃ s' d, get_typed 7 5 run2 = (s', Ok d) ∧ dv_lock d = 0) ∧ get_typed 9 5 run2 = (run2, Err TypeNotMatch).
Proof.
  destruct run_reachable as (_ & _ & Hr). split.
  - destruct (registry_lookup run2 7 Hr) as (_ & _ & H). specialize (H 5). vm_compute in H. destruct H as (s' & d & E & Hl & _).
    exists s', d. vm_compute. by split.
  - destruct (registry_lookup run2 9 Hr) as (_ & _ & H). specialize (H 5). vm_compute in H. vm_compute. exact H.
Defined.

(** What was in the container under the id is replaced without a word. *)
Lemma insert_replaces d o addr s : reachable s → boxes s !! addr = None →
  ∃ s', insert_device d o addr s = (s', Ok tt) ∧ devices s' !! device_id d = Some (next_lock s).
Proof.
  intros Hi%reachable_inv Ha. destruct (insert_device_inv d o addr s Hi Ha) as (s' & E & _ & Hd & _).
  exists s'. split; [done|]. rewrite Hd. by rewrite lookup_insert_eq.
Qed.
