(* ===== verification/Probe.v ===== *)
(** * Probing drivers

    driver/rdrive/src: the drivers that were registered (register/mod.rs), the
    nodes of the device tree they match (probe/fdt/mod.rs), the endpoints of the
    PCI controllers (probe/pci/mod.rs), and the two passes of lib.rs.

    The probe functions of drivers are part of the data; they act on the
    registry and on the rest of the machine, [W]. A node of the device tree is
    what the queries of the crate fdt-edit answer for it, a PCI endpoint what
    the enumeration of the bus found. *)

From Stdlib Require Import String.
From stdpp Require Import base list numbers strings gmap sorting.
From S2P Require Import Prelude Rdrive.
Open Scope Z_scope.

(** ** probe/mod.rs *)

Inductive OnProbeError : Type :=
| NotMatch
| ProbeKError (msg : string)
| ProbeOther (msg : string)
| ProbeFdt (msg : string).
Inductive ProbeError : Type :=
| IrqNotInit (name : string)
| FdtError (msg : string)
| OnProbe (e : OnProbeError)
| OpenFail (msg : string).

(** ** The device tree and the bus *)

Class NodeType (N : Type) : Type := {
  node_disabled : N → bool;
  node_compatibles : N → list string;
  node_phandle : N → option Z;
  node_interrupt_parent : N → option Z
}.
Class PciEndpoint (E : Type) : Type := { vendor_id : E → Z; ep_device_id : E → Z }.

Section Probe.
Context {N E W : Type} `{NodeType N} `{PciEndpoint E}.

Notation World := (Registry * W)%type.

(** [FdtInfo]: the node, and the ids of the nodes that have a phandle. *)
Record FdtInfo : Type := mk_FdtInfo { fi_node : N; phandle_2_device_id : gmap Z Z }.

(** ** register/mod.rs *)

Inductive ProbeLevel : Type := PreKernel | PostKernel.

(** The probe function of PCI has the endpoint in a cell it may take it from. *)
Inductive ProbeKind : Type :=
| KindFdt (compatibles : list string) (on_probe : FdtInfo → Descriptor → M World OnProbeError unit)
| KindPci (on_probe : Descriptor → M (World * option E) OnProbeError unit).

Record DriverRegister : Type := mk_DriverRegister {
  dr_name : string;
  dr_level : ProbeLevel;
  dr_priority : Z;
  probe_kinds : list ProbeKind
}.

(** [EndpointRc::take]: a second one panics. *)
Definition endpoint_take : M (World * option E) OnProbeError E := λ s,
  match s.2 with Some e => ((s.1, None), Ok e) | None => (s, Stuck) end.

(** [RegisterContainer]. *)
Definition registers_add (r : DriverRegister) (l : list DriverRegister) : list DriverRegister := l ++ [r].
Fixpoint registers_append (rs : list DriverRegister) (l : list DriverRegister) : list DriverRegister :=
  match rs with [] => l | r :: rs => registers_append rs (registers_add r l) end.

(** [Manager::unregistered]: all of them, sorted by priority; [sort_by_key] is
    stable. *)
Fixpoint insert_by_priority (r : DriverRegister) (l : list DriverRegister) : list DriverRegister :=
  match l with
  | [] => [r]
  | x :: l => if dr_priority r <=? dr_priority x then r :: x :: l else x :: insert_by_priority r l
  end.
Fixpoint unregistered (l : list DriverRegister) : list DriverRegister :=
  match l with [] => [] | r :: l => insert_by_priority r (unregistered l) end.

(** ** probe/fdt/mod.rs *)

(** [System]; [probed_names] is locked for each access. *)
Record System : Type := mk_System { fdt : list N; ids : gmap Z Z; probed_names : gset string }.

Notation PM := (M (System * World)).

Definition on_world {X Er} (m : M World Er X) : PM Er X := λ s,
  let '(w, r) := m s.2 in ((s.1, w), r).
Definition new_id {Er} : PM Er Z := λ s,
  match device_id_new s.2.1 with
  | (reg, Ok id) => ((s.1, (reg, s.2.2)), Ok id)
  | (reg, _) => ((s.1, (reg, s.2.2)), Stuck)
  end.

(** [System::new]: an id for each phandle. *)
Fixpoint assign_ids (nodes : list N) (m : gmap Z Z) (r : Registry) : gmap Z Z * Registry :=
  match nodes with
  | [] => (m, r)
  | n :: nodes =>
      match node_phandle n with
      | None => assign_ids nodes m r
      | Some p => let id := iter r in assign_ids nodes (<[p := id]> m) (device_id_new r).1
      end
  end.
Definition system_new (nodes : list N) (r : Registry) : System * Registry :=
  let '(m, r) := assign_ids nodes ∅ r in (mk_System nodes m ∅, r).

(** [new_device_id]: the map is indexed, which panics on a key it has not. *)
Definition new_device_id {Er} (phandle : option Z) : PM Er Z :=
  match phandle with
  | Some p => s ← get; lift (unwrap (ids s.1 !! p))
  | None => new_id
  end.

(** [ProbeFdtInfo]. *)
Record ProbeFdtInfo : Type := mk_ProbeFdtInfo {
  pf_name : string;
  pf_node : N;
  pf_on_probe : FdtInfo → Descriptor → M World OnProbeError unit
}.

(** [get_fdt_match_nodes]: a node comes once for each of its names that a probe
    kind of the driver has. *)
Definition match_kind (r : DriverRegister) (n : N) (k : ProbeKind) : list ProbeFdtInfo :=
  match k with
  | KindFdt compatibles on_probe =>
      (λ _, mk_ProbeFdtInfo (dr_name r) n on_probe) <$> filter (λ c, c ∈ compatibles) (node_compatibles n)
  | KindPci _ => []
  end.
Definition get_fdt_match_nodes (nodes : list N) (r : DriverRegister) : list ProbeFdtInfo :=
  n ← nodes;
  if node_disabled n then [] else k ← probe_kinds r; match_kind r n k.

Definition insert_name {Er} (name : string) : PM Er unit :=
  modify (λ s, (mk_System (fdt s.1) (ids s.1) ({[name]} ∪ probed_names s.1), s.2)).

(** The result of a probe function is kept, not returned; a success is noted
    under the driver's name. *)
Definition keep_result {Er} (name : string) (m : M World OnProbeError unit) : PM Er (outcome OnProbeError unit) := λ s,
  match on_world m s with
  | (s', Stuck) => (s', Stuck)
  | (s', Ok u) => (_ ← insert_name name; mret (Ok u)) s'
  | (s', Err e) => (s', Ok (Err e))
  end.

(** One turn of [probe_register]. *)
Definition probe_node {Er} (i : ProbeFdtInfo) : PM Er (outcome OnProbeError unit) :=
  let phandle := node_phandle (pf_node i) in
  id ← new_device_id phandle;
  s ← get;
  let parent := match node_interrupt_parent (pf_node i) with
    | Some p => if decide (Some p = phandle) then None else ids s.1 !! p
    | None => None end in
  keep_result (pf_name i) (pf_on_probe i (mk_FdtInfo (pf_node i) (ids s.1)) (mk_Descriptor id (pf_name i) parent)).

Fixpoint probe_nodes {Er} (l : list ProbeFdtInfo) : PM Er (list (outcome OnProbeError unit)) :=
  match l with
  | [] => mret []
  | i :: l =>
      s ← get;
      if decide (pf_name i ∈ probed_names s.1) then probe_nodes l
      else r ← probe_node i; rs ← probe_nodes l; mret (r :: rs)
  end.
Definition probe_register {Er} (r : DriverRegister) : PM Er (list (outcome OnProbeError unit)) :=
  s ← get; probe_nodes (get_fdt_match_nodes (fdt s.1) r).

(** ** lib.rs *)

(** The results of a driver: [NotMatch] is passed over, other errors end the
    pass if [stop_if_fail]. *)
Fixpoint check_results (stop_if_fail : bool) (rs : list (outcome OnProbeError unit)) : outcome ProbeError unit :=
  match rs with
  | [] => Ok tt
  | Ok _ :: rs | Err NotMatch :: rs => check_results stop_if_fail rs
  | Err e :: rs => if stop_if_fail then Err (OnProbe e) else check_results stop_if_fail rs
  | Stuck :: _ => Stuck
  end.
Fixpoint probe_system (stop_if_fail : bool) (l : list DriverRegister) : PM ProbeError unit :=
  match l with
  | [] => mret tt
  | r :: l => rs ← probe_register r; _ ← lift (check_results stop_if_fail rs); probe_system stop_if_fail l
  end.
Definition is_pre_kernel (l : ProbeLevel) : bool := match l with PreKernel => true | PostKernel => false end.
Definition probe_pre_kernel (registers : list DriverRegister) : PM ProbeError unit :=
  probe_system true (filter (λ r, is_pre_kernel (dr_level r) = true) (unregistered registers)).

(** ** probe/pci/mod.rs *)

(** [PcieEnumterator]: the handle's descriptor, and the vendor and device
    numbers that a driver took. *)
Record PcieEnumterator : Type := mk_PcieEnumterator { pe_irq_parent : option Z; pe_endpoints : list E; probed : gset (Z * Z) }.

Notation CM := (M (PcieEnumterator * World)).

Definition find_pci (r : DriverRegister) : option (Descriptor → M (World * option E) OnProbeError unit) :=
  head (omap (λ k, match k with KindPci f => Some f | KindFdt _ _ => None end) (probe_kinds r)).

Definition mark_probed {Er} (id : Z * Z) : CM Er unit :=
  modify (λ s, (mk_PcieEnumterator (pe_irq_parent s.1) (pe_endpoints s.1) ({[id]} ∪ probed s.1), s.2)).

(** The loop of [probe_one]; the cell with the endpoint goes from one driver to
    the next. *)
Fixpoint probe_drivers (stop_if_fail : bool) (id : Z * Z) (cell : option E) (l : list DriverRegister) : CM ProbeError unit :=
  match l with
  | [] => mret tt
  | r :: l =>
      match find_pci r with
      | None => probe_drivers stop_if_fail id cell l
      | Some on_probe => λ s,
          let '(reg, o) := device_id_new s.2.1 in
          let desc := mk_Descriptor (iter s.2.1) (dr_name r) (pe_irq_parent s.1) in
          match on_probe desc ((reg, s.2.2), cell) with
          | ((w, cell), Ok _) => mark_probed id (s.1, w)
          | ((w, cell), Err NotMatch) => probe_drivers stop_if_fail id cell l (s.1, w)
          | ((w, cell), Err e) => if stop_if_fail then ((s.1, w), Err (OnProbe e)) else probe_drivers stop_if_fail id cell l (s.1, w)
          | ((w, cell), Stuck) => ((s.1, w), Stuck)
          end
      end
  end.
Definition probe_one (stop_if_fail : bool) (registers : list DriverRegister) (e : E) : CM ProbeError unit :=
  let id := (vendor_id e, ep_device_id e) in
  s ← get;
  if decide (id ∈ probed s.1) then mret tt else probe_drivers stop_if_fail id (Some e) registers.

Fixpoint probe_endpoints (stop_if_fail : bool) (registers : list DriverRegister) (l : list E) : CM ProbeError unit :=
  match l with
  | [] => mret tt
  | e :: l => λ s,
      match probe_one stop_if_fail registers e s with
      | (s', Err err) => if stop_if_fail then (s', Err err) else probe_endpoints stop_if_fail registers l s'
      | (s', Ok _) => probe_endpoints stop_if_fail registers l s'
      | (s', Stuck) => (s', Stuck)
      end
  end.
Definition pcie_probe (stop_if_fail : bool) (registers : list DriverRegister) : CM ProbeError unit :=
  s ← get; probe_endpoints stop_if_fail registers (pe_endpoints s.1).

(** [probe_with]: one controller after the other. *)
Fixpoint probe_with (stop_if_fail : bool) (registers : list DriverRegister) (done ctrls : list PcieEnumterator) :
    M (list PcieEnumterator * World) ProbeError unit := λ s,
  match ctrls with
  | [] => ((done, s.2), Ok tt)
  | c :: ctrls =>
      match pcie_probe stop_if_fail registers (c, s.2) with
      | ((c, w), Ok _) => probe_with stop_if_fail registers (done ++ [c]) ctrls (s.1, w)
      | ((c, w), r) => ((done ++ c :: ctrls, w), r)
      end
  end.

(** The device tree and then PCI; [pcie] is the list of the enumerators of the
    controllers in the registry, made at the first call. *)
Definition probe_all (stop_if_fail : bool) (registers : list DriverRegister) (pcie : World → list PcieEnumterator) :
    M (System * World * option (list PcieEnumterator)) ProbeError unit := λ s,
  let l := unregistered registers in
  match probe_system stop_if_fail l s.1 with
  | (s1, Ok _) =>
      let cs := match s.2 with Some cs => cs | None => pcie s1.2 end in
      let '((cs, w), r) := probe_with stop_if_fail l [] cs ([], s1.2) in (((s1.1, w), Some cs), r)
  | (s1, r) => ((s1, s.2), r)
  end.
End Probe.
