(* ===== verification/ProbeProof.v ===== *)
(** * Which drivers are probed, and how often

    Drivers are tried in the order of their priorities; the search for nodes
    never panics, and a driver is tried until it takes one node, never after. *)

From Stdlib Require Import String.
From stdpp Require Import base list numbers strings.
From S2P Require Import Prelude Rdrive Probe.
From stdpp Require Import gmap sorting.
Open Scope Z_scope.

Section Probe.
Context {N E W : Type} `{NodeType N} `{PciEndpoint E}.

Notation World := (Registry * W)%type.
Notation Driver := (@DriverRegister N E W).

(** ** Order *)

Definition by_priority (a b : Driver) : Prop := dr_priority a ≤ dr_priority b.

Lemma insert_by_priority_perm r (l : list Driver) : insert_by_priority r l ≡ₚ r :: l.
Proof. induction l as [|x l IH]; simpl; [done|]. destruct (_ <=? _); [done|]. by rewrite IH, Permutation_swap. Qed.

Lemma insert_by_priority_sorted r (l : list Driver) : Sorted by_priority l → Sorted by_priority (insert_by_priority r l).
Proof.
  induction 1 as [|x l Hs IH Hd]; simpl; [by repeat constructor|]. destruct (Z.leb_spec (dr_priority r) (dr_priority x)).
  - constructor; [by constructor|]. by constructor.
  - constructor; [done|]. destruct l as [|y l]; simpl; [constructor; unfold by_priority; lia|].
    apply HdRel_inv in Hd. destruct (_ <=? _); constructor; unfold by_priority in *; [lia|done].
Qed.

Lemma insert_by_priority_stable r p (l : list Driver) :
  filter (λ x, dr_priority x = p) (insert_by_priority r l) = filter (λ x, dr_priority x = p) (r :: l).
Proof.
  induction l as [|x l IH]; simpl; [done|]. destruct (Z.leb_spec (dr_priority r) (dr_priority x)); [done|].
  rewrite filter_cons, IH, !filter_cons. repeat case_decide; done || lia.
Qed.

(** The drivers that were registered are probed in the order of their
    priorities, those of the same priority in the order of registration. *)
Theorem unregistered_order (l : list Driver) : Sorted by_priority (unregistered l) ∧ unregistered l ≡ₚ l ∧
  ∀ p, filter (λ x, dr_priority x = p) (unregistered l) = filter (λ x, dr_priority x = p) l.
Proof.
  induction l as [|r l (IH1 & IH2 & IH3)]; [done|]. simpl. split_and!.
  - by apply insert_by_priority_sorted.
  - by rewrite insert_by_priority_perm, IH2.
  - intros p. rewrite insert_by_priority_stable, !filter_cons, IH3. done.
Qed.

Lemma registers_append_eq rs : ∀ l : list Driver, registers_append rs l = l ++ rs.
Proof. induction rs as [|r rs IH]; intros l; simpl; [by rewrite app_nil_r|]. unfold registers_add. by rewrite IH, <- app_assoc. Qed.

(** ** Nodes and their ids *)

(** Every node with a phandle has an id. *)
Definition has_ids (s : @System N) : Prop := ∀ n p, n ∈ fdt s → node_phandle n = Some p → is_Some (ids s !! p).

Lemma assign_ids_has (nodes : list N) : ∀ m r,
  (∀ p, is_Some (m !! p) → is_Some ((assign_ids nodes m r).1 !! p)) ∧
  ∀ n p, n ∈ nodes → node_phandle n = Some p → is_Some ((assign_ids nodes m r).1 !! p).
Proof.
  induction nodes as [|n nodes IH]; intros m r; [by split; [|intros ? ? ?%not_elem_of_nil]|]. simpl.
  destruct (node_phandle n) as [p|] eqn:Ep.
  - destruct (IH (<[p := Rdrive.iter r]> m) (device_id_new r).1) as [IH1 IH2]. split.
    + intros q Hq. apply IH1, lookup_insert_is_Some. destruct (decide (p = q)); [by left|by right].
    + intros n' q [->|Hn]%elem_of_cons Hq; [|by eapply IH2]. apply IH1, lookup_insert_is_Some. left. congruence.
  - destruct (IH m r) as [IH1 IH2]. split; [done|]. intros n' q [->|Hn]%elem_of_cons Hq; [congruence|by eapply IH2].
Qed.

Lemma system_new_has nodes r : has_ids (system_new nodes r).1 ∧ fdt (system_new nodes r).1 = nodes ∧ probed_names (system_new nodes r).1 = ∅.
Proof.
  unfold system_new, has_ids. destruct (assign_ids_has nodes ∅ r) as [_ Hh]. destruct (assign_ids nodes ∅ r) as [m r']. simpl in *. by split_and!.
Qed.

(** The nodes that match are nodes of the tree, under the driver's name and with
    one of its functions. *)
Lemma match_nodes_elem nodes (r : Driver) i : i ∈ get_fdt_match_nodes nodes r → pf_node i ∈ nodes ∧ pf_name i = dr_name r ∧
  ∃ cs, KindFdt cs (pf_on_probe i) ∈ probe_kinds r.
Proof.
  unfold get_fdt_match_nodes. rewrite list_elem_of_bind. intros (n & Hi & Hn). destruct (node_disabled n); [by apply not_elem_of_nil in Hi|].
  apply list_elem_of_bind in Hi as (k & Hi & Hk). destruct k as [cs f|f]; simpl in Hi; [|by apply not_elem_of_nil in Hi].
  apply list_elem_of_fmap in Hi as (c & -> & _). simpl. split_and!; try done. by exists cs.
Qed.

(** ** Passes *)

(** A driver whose functions do not panic. *)
Definition total (r : Driver) : Prop := ∀ cs f i d w, KindFdt cs f ∈ probe_kinds r → (f i d w).2 ≠ Stuck.

(** Any number of calls of [probe_register], with the results under the names
    of the drivers. *)
Fixpoint probe_each (l : list Driver) : M (@System N * World) ProbeError (list (string * outcome OnProbeError unit)) :=
  match l with
  | [] => mret []
  | r :: l => rs ← probe_register r; log ← probe_each l; mret (((λ o, (dr_name r, o)) <$> rs) ++ log)
  end.
Definition successes (log : list (string * outcome OnProbeError unit)) : list string :=
  (filter (λ p, is_ok p.2 = true) log).*1.

Lemma probe_node_run {Er} i (s : @System N * World) : has_ids s.1 → pf_node i ∈ fdt s.1 →
  (∀ f d w, (pf_on_probe i f d w).2 ≠ Stuck) →
  ∃ s' r, (probe_node i : M _ Er _) s = (s', Ok r) ∧ fdt s'.1 = fdt s.1 ∧ ids s'.1 = ids s.1 ∧
    match r with Ok _ => probed_names s'.1 = {[pf_name i]} ∪ probed_names s.1 | Err _ => probed_names s'.1 = probed_names s.1 | Stuck => False end.
Proof.
  intros Hids Hn Ht. unfold probe_node.
  assert (∃ w id, (new_device_id (node_phandle (pf_node i)) : M _ Er _) s = ((s.1, w), Ok id)) as (w & id & Eid).
  { unfold new_device_id. destruct (node_phandle (pf_node i)) as [p|] eqn:Ep.
    - destruct (Hids _ _ Hn Ep) as [id Hid]. exists s.2, id. rewrite (bind_run get _ s _ _ eq_refl). unfold lift. rewrite Hid. by destruct s.
    - unfold new_id, device_id_new. by eexists _, _. }
  rewrite (bind_run _ _ _ _ _ Eid), (bind_run get _ _ _ _ eq_refl). unfold keep_result, on_world. simpl. set (d := mk_Descriptor _ _ _).
  pose proof (Ht (mk_FdtInfo (pf_node i) (ids s.1)) d w) as Hne.
  destruct (pf_on_probe i _ d w) as [w' [[]|e|]]; [| |done].
  - by eexists _, (Ok tt).
  - by eexists _, (Err e).
Qed.

(** A driver that has no node yet is called until the first success. *)
Lemma probe_nodes_run {Er} name (l : list (@ProbeFdtInfo N W)) : ∀ s : @System N * World, has_ids s.1 →
  Forall (λ i, pf_node i ∈ fdt s.1 ∧ pf_name i = name ∧ ∀ f d w, (pf_on_probe i f d w).2 ≠ Stuck) l →
  ∃ s' rs, (probe_nodes l : M _ Er _) s = (s', Ok rs) ∧ fdt s'.1 = fdt s.1 ∧ ids s'.1 = ids s.1 ∧
    if decide (name ∈ probed_names s.1) then s' = s ∧ rs = [] else
    ∃ es, rs = (Err <$> es) ∧ length es = length l ∧ probed_names s'.1 = probed_names s.1 ∨
      rs = (Err <$> es) ++ [Ok tt] ∧ (length es < length l)%nat ∧ probed_names s'.1 = {[name]} ∪ probed_names s.1.
Proof.
  induction l as [|i l IH]; intros s Hids Hl.
  { exists s, []. split_and!; try done. destruct (decide _); [done|]. exists []. by left. }
  apply Forall_cons in Hl as [(Hn & Hname & Ht) Hl]. cbn [probe_nodes]. rewrite (bind_run get _ s _ _ eq_refl).
  destruct (decide (pf_name i ∈ probed_names s.1)) as [Hin|Hin].
  - destruct (IH s Hids Hl) as (s' & rs & Er' & Hf & Hi & Hr). exists s', rs. rewrite Hname in Hin. by rewrite decide_True in Hr |- * by done.
  - destruct (probe_node_run (Er := Er) i s Hids Hn Ht) as (s1 & r & E1 & Hf1 & Hi1 & Hr1). rewrite (bind_run _ _ _ _ _ E1).
    destruct (IH s1) as (s' & rs & E2 & Hf & Hi & Hr); [unfold has_ids in *; by rewrite Hf1, Hi1|by rewrite Hf1|].
    rewrite (bind_run _ _ _ _ _ E2). exists s', (r :: rs). split; [done|]. split; [congruence|]. split; [congruence|].
    rewrite Hname in Hin, Hr1. rewrite decide_False by done. destruct r as [[]|e|]; [| |done].
    + rewrite Hr1, decide_True in Hr by set_solver. destruct Hr as [-> ->]. exists []. right. simpl. split_and!; [done|lia|done].
    + rewrite Hr1, decide_False in Hr by done. destruct Hr as [es [(-> & Hlen & ->)|(-> & Hlen & ->)]]; exists (e :: es); simpl; [left|right]; split_and!; (done || lia).
Qed.

Lemma successes_app l1 l2 : successes (l1 ++ l2) = successes l1 ++ successes l2.
Proof. unfold successes. by rewrite filter_app, fmap_app. Qed.

Lemma successes_errs name (es : list OnProbeError) : successes ((λ o, (name, o)) <$> (Err <$> es)) = [].
Proof. induction es as [|e es IH]; [done|]. unfold successes in *. simpl. by rewrite filter_cons. Qed.

(** One driver: it fails on every node that matches, or takes one. *)
Lemma probe_register_run {Er} (r : Driver) (s : @System N * World) : has_ids s.1 → total r →
  ∃ s' rs, (probe_register r : M _ Er _) s = (s', Ok rs) ∧ fdt s'.1 = fdt s.1 ∧ ids s'.1 = ids s.1 ∧
    (dr_name r ∉ probed_names s.1 → get_fdt_match_nodes (fdt s.1) r ≠ [] → rs ≠ []) ∧
    let ok := successes ((λ o, (dr_name r, o)) <$> rs) in
    (ok = [] ∧ probed_names s'.1 = probed_names s.1 ∨
     ok = [dr_name r] ∧ dr_name r ∉ probed_names s.1 ∧ probed_names s'.1 = {[dr_name r]} ∪ probed_names s.1).
Proof.
  intros Hids Ht. unfold probe_register. rewrite (bind_run get _ s _ _ eq_refl).
  destruct (probe_nodes_run (Er := Er) (dr_name r) (get_fdt_match_nodes (fdt s.1) r) s Hids) as (s' & rs & E1 & Hf & Hi & Hr).
  { apply Forall_forall. intros i Hin. apply match_nodes_elem in Hin as (Hn & Hname & cs & Hk). split_and!; try done. intros f d w. by eapply Ht. }
  exists s', rs. split; [done|]. split; [done|]. split; [done|].
  destruct (decide (dr_name r ∈ probed_names s.1)) as [Hin|Hin].
  - destruct Hr as [-> ->]. split; [done|]. by left.
  - destruct Hr as [es [(-> & Hlen & Hp)|(-> & Hlen & Hp)]].
    + split; [intros _ Hne; destruct (get_fdt_match_nodes _ _); [done|]; by destruct es|]. left. by rewrite successes_errs.
    + split; [intros _ _; by destruct es|]. right. by rewrite fmap_app, successes_app, successes_errs.
Qed.

Lemma probe_each_run l : ∀ s : @System N * World, has_ids s.1 → Forall total l →
  ∃ s' log, probe_each l s = (s', Ok log) ∧ NoDup (successes log) ∧ (∀ x, x ∈ successes log → x ∉ probed_names s.1) ∧
    probed_names s'.1 = list_to_set (successes log) ∪ probed_names s.1 ∧
    ∀ r, r ∈ l → dr_name r ∉ probed_names s.1 → get_fdt_match_nodes (fdt s.1) r ≠ [] → ∃ o, (dr_name r, o) ∈ log.
Proof.
  induction l as [|r l IH]; intros s Hids Hl.
  { exists s, []. split_and!; try done; [constructor|by intros ? ?%not_elem_of_nil|set_solver|by intros ? ?%not_elem_of_nil]. }
  apply Forall_cons in Hl as [Hr Hl]. cbn [probe_each].
  destruct (probe_register_run (Er := ProbeError) r s Hids Hr) as (s1 & rs & E1 & Hf & Hi & Hne & Hok). rewrite (bind_run _ _ _ _ _ E1).
  destruct (IH s1) as (s' & log & E2 & Hnd & Hnot & Hp & Hall); [unfold has_ids in *; by rewrite Hf, Hi|done|].
  rewrite (bind_run _ _ _ _ _ E2). eexists s', _. split; [done|]. rewrite successes_app.
  assert (∀ r', r' = r → dr_name r' ∉ probed_names s.1 → get_fdt_match_nodes (fdt s.1) r' ≠ [] → ∃ o, (dr_name r', o) ∈ ((λ o, (dr_name r, o)) <$> rs) ++ log) as Hhere.
  { intros r' -> Hn Hm. specialize (Hne Hn Hm). destruct rs as [|o rs]; [done|]. exists o. apply elem_of_app. left. simpl. apply elem_of_cons. by left. }
  cbn zeta in Hok. destruct Hok as [[-> Hp1]|(Hok & Hno & Hp1)]; rewrite ?Hok, Hp1 in *; simpl.
  - split_and!; try done. intros r' [Hr'|Hr']%elem_of_cons Hn Hm; [by apply Hhere|].
    destruct (Hall r' Hr' Hn) as [o Ho]; [by rewrite Hf|]. exists o. apply elem_of_app. by right.
  - split_and!.
    + constructor; [|done]. intros Hin. specialize (Hnot _ Hin). set_solver.
    + intros x [->|Hin]%elem_of_cons; [done|]. specialize (Hnot x Hin). set_solver.
    + rewrite Hp. set_solver.
    + intros r' [Hr'|Hr']%elem_of_cons Hn Hm; [by apply Hhere|].
      destruct (decide (dr_name r' = dr_name r)) as [Heq|Hd].
      * destruct rs as [|o rs]; [done|]. exists o. apply elem_of_app. left. rewrite Heq. apply elem_of_cons. by left.
      * destruct (Hall r' Hr') as [o Ho]; [set_solver|by rewrite Hf|]. exists o. apply elem_of_app. by right.
Qed.

(** However often and in whatever order drivers are probed on the device
    tree, no call panics as long as the drivers do not; a driver takes at most
    one node, under its name, ever; and one that matches a node is tried. *)
Theorem probe_once (nodes : list N) reg w (l : list Driver) : Forall total l →
  let sys := system_new nodes reg in
  ∃ s' log, probe_each l (sys.1, (sys.2, w)) = (s', Ok log) ∧ NoDup (successes log) ∧
    probed_names s'.1 = list_to_set (successes log) ∧
    ∀ r, r ∈ l → get_fdt_match_nodes nodes r ≠ [] → ∃ o, (dr_name r, o) ∈ log.
Proof.
  intros Hl sys. destruct (system_new_has nodes reg) as (Hids & Hf & Hp).
  destruct (probe_each_run l (sys.1, (sys.2, w)) Hids Hl) as (s' & log & Erun & Hnd & _ & Hn & Hall).
  exists s', log. subst sys. cbn [fst snd] in *. rewrite Hp in *. split_and!; [done|done|by rewrite Hn, union_empty_r_L|].
  intros r Hr Hm. apply Hall; [done|set_solver|by rewrite Hf].
Qed.
End Probe.

(** ** Two serial ports

    Nodes with the same compatible name; the driver's function takes every node
    and notes the device id. *)
Definition Port : Type := string * Z.
#[local] Instance Port_node : NodeType Port := {|
  node_disabled _ := false;
  node_compatibles n := [n.1];
  node_phandle n := Some n.2;
  node_interrupt_parent _ := None
|}.
#[local] Instance unit_endpoint : PciEndpoint unit := {| vendor_id _ := 0; ep_device_id _ := 0 |}.

Definition ports : list Port := [("uart"%string, 1); ("uart"%string, 2)].
Definition uart_driver : @DriverRegister Port unit (list Z) :=
  mk_DriverRegister "Uart"%string PostKernel 256 [KindFdt ["uart"%string] (λ _ d s, ((s.1, s.2 ++ [device_id d]), Ok tt))].

Lemma uart_total : Forall total [uart_driver; uart_driver].
Proof. repeat constructor; intros cs f i d w Hk; apply list_elem_of_singleton in Hk; by injection Hk as -> ->. Qed.

Lemma probe_once_witness : ∃ o, ∀ s' log, let sys := system_new ports registry_new in
  probe_each [uart_driver; uart_driver] (sys.1, (sys.2, [])) = (s', Ok log) → ("Uart"%string, o) ∈ log.
Proof.
  destruct (probe_once ports registry_new [] [uart_driver; uart_driver] uart_total) as (s' & log & Erun & _ & _ & Hall).
  destruct (Hall uart_driver) as [o Ho]; [apply elem_of_cons; by left|done|]. exists o.
  intros s2 log2 sys E2. subst sys. rewrite E2 in Erun. injection Erun as _ <-. exact Ho.
Defined.

(** The second port is left alone, in the first pass and in the next. *)
Lemma second_port_left : let sys := system_new ports registry_new in
  ∃ s', probe_each [uart_driver; uart_driver] (sys.1, (sys.2, [])) = (s', Ok [("Uart"%string, Ok tt)]) ∧ s'.2.2 = [0].
Proof. eexists. by split. Qed.
