(* ===== verification/Executor.v ===== *)
(** * The asynchronous executor

    crates/sparreal-kernel/src/os/async: tasks and their metadata (task.rs) and
    the single-CPU executor (executor.rs). The [Arc<TaskRef>]s are a store from
    task id to metadata and future, shared by the registry, the run queue and
    the handles; the run queue is the heap of priorities, each naming its task.
    A future is a parameter: a poll gives its next state, whether it is ready,
    and what it did meanwhile (wake a task, spawn one, use a task handle, let
    time pass). The registry's spinlock is a flag: locking it while it is held
    panics (file Spinlock, [lock_panics_when_held]). *)

From stdpp Require Import base list numbers gmap.
From S2P Require Import Prelude.
Open Scope Z_scope.

(** ** task.rs *)

Inductive TaskState : Type := Pending | Woken | Running | Completed.

#[export] Instance TaskState_eq_dec : EqDecision TaskState.
Proof. solve_decision. Defined.

(** The [id] is the key of the store. Times are milliseconds since boot. *)
Record TaskMetadata : Type := mk_TaskMetadata {
  state : TaskState;
  created_at : Z;
  last_wake_at : Z;
  last_run_at : option Z;
  run_count : Z
}.

Definition metadata_new (now : Z) : TaskMetadata := mk_TaskMetadata Woken now now None 0.

(** [is_expired]: the subtraction is checked. *)
Definition is_expired {E} (now timeout_ms : Z) (m : TaskMetadata) : outcome E bool :=
  d ← usub now (default (created_at m) (last_run_at m));
  Ok (timeout_ms <? d).

Definition update_execution {E} (now : Z) (m : TaskMetadata) : outcome E TaskMetadata :=
  n ← uadd 64 (run_count m) 1;
  Ok (mk_TaskMetadata Running (created_at m) (last_wake_at m) (Some now) n).

Definition mark_woken (now : Z) (m : TaskMetadata) : TaskMetadata :=
  mk_TaskMetadata Woken (created_at m) now (last_run_at m) (run_count m).

Definition set_state (s : TaskState) (m : TaskMetadata) : TaskMetadata :=
  mk_TaskMetadata s (created_at m) (last_wake_at m) (last_run_at m) (run_count m).

Definition mark_completed : TaskMetadata → TaskMetadata := set_state Completed.

Record TaskPriority : Type := mk_TaskPriority {
  is_woken : bool;
  timestamp : Z;
  task_id : Z
}.

#[export] Instance TaskPriority_eq_dec : EqDecision TaskPriority.
Proof. solve_decision. Defined.

Definition priority_new (id : Z) (m : TaskMetadata) : TaskPriority :=
  mk_TaskPriority (bool_decide (state m = Woken)) (last_wake_at m) id.

(** The derived order of [TaskPriority]: the fields in turn, [false] before
    [true]. The heap's order is its reverse, so the heap gives out the least
    priority first. *)
Definition prio_ltb (a b : TaskPriority) : bool :=
  if eqb (is_woken a) (is_woken b) then
    if timestamp a =? timestamp b then task_id a <? task_id b else timestamp a <? timestamp b
  else negb (is_woken a).

(** ** executor.rs *)

Section Executor.
Context {F : Type}.

(** What a future does while it is polled. *)
Inductive Effect : Type :=
| EWake (id : Z)         (* a waker: [enqueue_task_wakeup] *)
| ESpawn (f : F)         (* [spawn] *)
| EHandleWake (id : Z)   (* [TaskHandle::wake] *)
| EElapse (d : N).       (* time passes *)

Context (poll_future : F → F * bool * list Effect).

Record Exec : Type := mk_Exec {
  COUNTER : Z;
  clock : Z;
  tasks : gmap Z (TaskMetadata * F);
  active_task_registry : gset Z;
  registry_locked : bool;
  priority_task_queue : list TaskPriority;
  GLOBAL_WAKEUP_QUEUE : list Z;
  executor_running : bool;
  task_timeout_milliseconds : Z
}.

Notation XM := (M Exec Empty_set).

Definition exec_new (timeout : Z) : Exec := mk_Exec 1 0 ∅ ∅ false [] [] false timeout.

Definition set_counter (c : Z) (s : Exec) : Exec := mk_Exec c (clock s) (tasks s) (active_task_registry s)
  (registry_locked s) (priority_task_queue s) (GLOBAL_WAKEUP_QUEUE s) (executor_running s) (task_timeout_milliseconds s).
Definition set_clock (c : Z) (s : Exec) : Exec := mk_Exec (COUNTER s) c (tasks s) (active_task_registry s)
  (registry_locked s) (priority_task_queue s) (GLOBAL_WAKEUP_QUEUE s) (executor_running s) (task_timeout_milliseconds s).
Definition set_tasks (t : gmap Z (TaskMetadata * F)) (s : Exec) : Exec := mk_Exec (COUNTER s) (clock s) t (active_task_registry s)
  (registry_locked s) (priority_task_queue s) (GLOBAL_WAKEUP_QUEUE s) (executor_running s) (task_timeout_milliseconds s).
Definition set_registry (r : gset Z) (s : Exec) : Exec := mk_Exec (COUNTER s) (clock s) (tasks s) r
  (registry_locked s) (priority_task_queue s) (GLOBAL_WAKEUP_QUEUE s) (executor_running s) (task_timeout_milliseconds s).
Definition set_locked (b : bool) (s : Exec) : Exec := mk_Exec (COUNTER s) (clock s) (tasks s) (active_task_registry s)
  b (priority_task_queue s) (GLOBAL_WAKEUP_QUEUE s) (executor_running s) (task_timeout_milliseconds s).
Definition set_queue (q : list TaskPriority) (s : Exec) : Exec := mk_Exec (COUNTER s) (clock s) (tasks s) (active_task_registry s)
  (registry_locked s) q (GLOBAL_WAKEUP_QUEUE s) (executor_running s) (task_timeout_milliseconds s).
Definition set_wakeups (q : list Z) (s : Exec) : Exec := mk_Exec (COUNTER s) (clock s) (tasks s) (active_task_registry s)
  (registry_locked s) (priority_task_queue s) q (executor_running s) (task_timeout_milliseconds s).
Definition set_running (b : bool) (s : Exec) : Exec := mk_Exec (COUNTER s) (clock s) (tasks s) (active_task_registry s)
  (registry_locked s) (priority_task_queue s) (GLOBAL_WAKEUP_QUEUE s) b (task_timeout_milliseconds s).

(** [active_task_registry.lock()] for the length of a block. *)
Definition with_registry {A} (f : XM A) : XM A := λ s,
  if registry_locked s then (s, Stuck)
  else let '(s', r) := f (set_locked true s) in (set_locked false s', r).

Definition get_task (id : Z) : XM (TaskMetadata * F) := λ s, (s, unwrap (tasks s !! id)).
Definition put_task (id : Z) (t : TaskMetadata * F) : XM unit := modify (λ s, set_tasks (<[id := t]> (tasks s)) s).

Definition enqueue_task_wakeup (id : Z) : XM unit := modify (λ s,
  if bool_decide (id ∈ GLOBAL_WAKEUP_QUEUE s) then s
  else set_wakeups (GLOBAL_WAKEUP_QUEUE s ++ [id]) s).

(** [BinaryHeap::push] and [pop]. *)
Definition heap_push (p : TaskPriority) : XM unit :=
  modify (λ s, set_queue (p :: priority_task_queue s) s).

Definition prio_min (a b : TaskPriority) : TaskPriority := if prio_ltb b a then b else a.

Fixpoint remove_one (p : TaskPriority) (q : list TaskPriority) : list TaskPriority :=
  match q with
  | [] => []
  | x :: q => if bool_decide (x = p) then q else x :: remove_one p q
  end.

Definition heap_pop : XM (option TaskPriority) := λ s,
  match priority_task_queue s with
  | [] => (s, Ok None)
  | p :: q =>
      let least := foldr prio_min p q in
      (set_queue (remove_one least (p :: q)) s, Ok (Some least))
  end.

(** [TaskRef::priority] of a registered task, pushed. *)
Definition push_task (id : Z) : XM unit :=
  '(m, _) ← get_task id;
  heap_push (priority_new id m).

Definition mark_task_woken (id : Z) : XM unit :=
  '(m, f) ← get_task id;
  s ← get;
  put_task id (mark_woken (clock s) m, f).

Definition add_task_to_queue (id : Z) : XM unit :=
  with_registry
    (s ← get; if bool_decide (id ∈ active_task_registry s) then push_task id else mret tt).

Definition spawn (future : F) : XM Z :=
  s ← get;
  let id := COUNTER s in
  _ ← modify (set_counter (wrapping_add 64 id 1));
  _ ← put_task id (metadata_new (clock s), future);
  _ ← with_registry (modify (λ s, set_registry ({[id]} ∪ active_task_registry s) s));
  _ ← add_task_to_queue id;
  mret id.

Definition wake_by_id (id : Z) : XM bool :=
  with_registry
    (s ← get;
     if bool_decide (id ∈ active_task_registry s) then
       _ ← mark_task_woken id;
       _ ← add_task_to_queue id;
       mret true
     else mret false).

(** task.rs: [TaskHandle::wake] of a handle with a reference. *)
Definition handle_wake (id : Z) : XM bool :=
  _ ← mark_task_woken id;
  mret true.

(** The effects of a poll of the task [self], whose metadata lock is held. *)
Definition run_effect (self : Z) (e : Effect) : XM unit :=
  match e with
  | EWake id => enqueue_task_wakeup id
  | ESpawn f => _ ← spawn f; mret tt
  | EHandleWake id => if id =? self then stuck else _ ← handle_wake id; mret tt
  | EElapse d => modify (λ s, set_clock (clock s + Z.of_N d) s)
  end.

Fixpoint run_effects (self : Z) (l : list Effect) : XM unit :=
  match l with
  | [] => mret tt
  | e :: l => _ ← run_effect self e; run_effects self l
  end.

(** task.rs: [TaskRef::poll]; [true] is [Poll::Ready]. *)
Definition task_poll (id : Z) : XM bool :=
  '(m, f) ← get_task id;
  if bool_decide (state m = Completed) then mret true
  else
    s ← get;
    m' ← lift (update_execution (clock s) m);
    let '(f', ready, effects) := poll_future f in
    _ ← put_task id (m', f);
    _ ← run_effects id effects;
    _ ← put_task id ((if ready then mark_completed m' else set_state Pending m'), f');
    mret (ready : bool).

Definition unregister (id : Z) : XM unit :=
  with_registry (modify (λ s, set_registry (active_task_registry s ∖ {[id]}) s)).

(** [process_one_task]. *)
Definition process_one_task : XM bool :=
  o ← heap_pop;
  match o with
  | None => mret false
  | Some p =>
      let id := task_id p in
      '(m, f) ← get_task id;
      if bool_decide (state m = Completed) then
        _ ← unregister id;
        mret true
      else
        should_execute ←
          (if bool_decide (state m = Woken) then mret true
           else
             s ← get;
             expired ← lift (is_expired (clock s) (task_timeout_milliseconds s) m);
             if (expired : bool) then
               _ ← put_task id (mark_woken (clock s) m, f);
               mret true
             else mret false);
        if (should_execute : bool) then
          ready ← task_poll id;
          _ ← (if (ready : bool) then unregister id else mret tt);
          mret true
        else mret true
  end.

(** One turn of the loop of [process_wake_queue]. *)
Definition wake_turn : XM bool :=
  s ← get;
  match GLOBAL_WAKEUP_QUEUE s with
  | [] => mret false
  | id :: rest =>
      _ ← modify (set_wakeups rest);
      _ ← with_registry
            (s ← get;
             if bool_decide (id ∈ active_task_registry s) then
               _ ← mark_task_woken id;
               push_task id
             else mret tt);
      mret true
  end.

Fixpoint wake_loop (fuel : nat) : XM unit :=
  match fuel with
  | O => stuck
  | S fuel => more ← wake_turn; if (more : bool) then wake_loop fuel else mret tt
  end.

(** Nothing in the loop adds to the wake-up queue. *)
Definition process_wake_queue : XM unit :=
  s ← get;
  wake_loop (S (length (GLOBAL_WAKEUP_QUEUE s))).

Definition MAX_TASKS_PER_TICK : nat := 10.

Fixpoint task_loop (n : nat) : XM unit :=
  match n with
  | O => mret tt
  | S n => more ← process_one_task; if (more : bool) then task_loop n else mret tt
  end.

Definition tick : XM unit :=
  _ ← process_wake_queue;
  task_loop MAX_TASKS_PER_TICK.

Definition has_pending_tasks (s : Exec) : bool :=
  negb (bool_decide (GLOBAL_WAKEUP_QUEUE s = [])) || negb (bool_decide (priority_task_queue s = [])) ||
  negb (bool_decide (active_task_registry s = ∅)).

Definition task_count (s : Exec) : nat := size (active_task_registry s).
Definition queued_task_count (s : Exec) : nat := length (priority_task_queue s).

Fixpoint completion_loop (fuel : nat) : XM unit :=
  s ← get;
  if has_pending_tasks s then
    match fuel with
    | O => stuck
    | S fuel => _ ← tick; completion_loop fuel
    end
  else mret tt.

(** [run_until_completion], at most [fuel] turns of its loop. *)
Definition run_until_completion (fuel : nat) : XM unit :=
  _ ← modify (set_running true);
  _ ← completion_loop fuel;
  modify (set_running false).

(** [block_on]. *)
Definition block_on (fuel : nat) (future : F) : XM unit :=
  _ ← spawn future;
  run_until_completion fuel.

End Executor.
