(* ===== verification/ExecutorProof.v ===== *)
(** * The executor: no lost wake-ups, no second completion, no starvation

    The invariant [exec_ok] relates the store of tasks, the registry and the
    two queues; every operation keeps it and never panics. A queued task is
    polled after the tasks that are ahead of it, whatever those do. The last
    part shows what [TaskHandle::wake], [wake_by_id] and the time-out do. *)

From stdpp Require Import base list numbers gmap.
From S2P Require Import Prelude Executor.
Open Scope Z_scope.

Section ExecutorProof.
Context {F : Type} (poll_future : F → F * bool * list (@Effect F)).

(** Tasks use wakers, not task handles, to wake each other; a poll spawns at
    most [K] tasks. *)
Definition uses_wakers (e : @Effect F) : Prop := ∀ id, e ≠ EHandleWake id.

Context (K : Z).
Context (Hwakers : ∀ f, Forall uses_wakers (poll_future f).2).
Context (HK : ∀ f, Z.of_nat (length (poll_future f).2) ≤ K).

Implicit Types s : @Exec F.

(** The states of the tasks against the registry and the queue; [self] is the
    task that is being polled. *)
Record exec_ok (self : option Z) s : Prop := {
  ok_unlocked : registry_locked s = false;
  ok_counter : 1 ≤ COUNTER s;
  ok_dom id : is_Some (tasks s !! id) ↔ 1 ≤ id < COUNTER s;
  ok_registry id m f : tasks s !! id = Some (m, f) → id ∈ active_task_registry s ↔ state m ≠ Completed;
  ok_registered id : id ∈ active_task_registry s → 1 ≤ id < COUNTER s;
  ok_self id : self = Some id → 1 ≤ id < COUNTER s;
  ok_running id m f : tasks s !! id = Some (m, f) → state m = Running ↔ self = Some id;
  ok_queue p : p ∈ priority_task_queue s →
    is_woken p = true ∧ 1 ≤ task_id p < COUNTER s ∧ timestamp p ≤ clock s;
  ok_woken id m f : tasks s !! id = Some (m, f) → state m = Woken →
    ∃ p, p ∈ priority_task_queue s ∧ task_id p = id;
  ok_wakeups : NoDup (GLOBAL_WAKEUP_QUEUE s);
  ok_times id m f : tasks s !! id = Some (m, f) → 0 ≤ run_count m ∧
    default (created_at m) (last_run_at m) ≤ clock s ∧ last_wake_at m ≤ clock s
}.

(** Room for [n] more polls: in the 64-bit counters. *)
Definition room (n : Z) s : Prop :=
  COUNTER s + n * K < 2 ^ 64 ∧
  ∀ id m f, tasks s !! id = Some (m, f) → run_count m + n < 2 ^ 64.

(** ** Spawning *)

Definition spawned (f : F) s : @Exec F :=
  let id := COUNTER s in
  mk_Exec (wrapping_add 64 id 1) (clock s) (<[id := (metadata_new (clock s), f)]> (tasks s))
    ({[id]} ∪ active_task_registry s) false
    (mk_TaskPriority true (clock s) id :: priority_task_queue s) (GLOBAL_WAKEUP_QUEUE s)
    (executor_running s) (task_timeout_milliseconds s).

Lemma with_registry_run {A} (g : M (@Exec F) Empty_set A) s s' r :
  registry_locked s = false → g (set_locked true s) = (s', r) →
  with_registry g s = (set_locked false s', r).
Proof. unfold with_registry. intros -> ->. done. Qed.

Lemma unregister_run id s : registry_locked s = false →
  unregister id s = (set_registry (active_task_registry s ∖ {[id]}) s, Ok tt).
Proof. destruct s. simpl. intros ->. done. Qed.

Lemma push_task_run id m f s : tasks s !! id = Some (m, f) →
  push_task id s = (set_queue (priority_new id m :: priority_task_queue s) s, Ok tt).
Proof. intros E. unfold push_task, mbind, M_bind, get_task. by rewrite E. Qed.

Lemma spawn_eq f s : registry_locked s = false → spawn f s = (spawned f s, Ok (COUNTER s)).
Proof.
  destruct s as [c ck ts reg lk q wq run to]. simpl. intros ->. unfold spawn.
  erewrite bind_run by done. erewrite bind_run by done. erewrite bind_run by done.
  erewrite bind_run by (apply with_registry_run; done).
  erewrite bind_run; swap 1 2; [unfold add_task_to_queue; eapply with_registry_run; [done|]|].
  - erewrite bind_run by done. simpl. rewrite bool_decide_eq_true_2 by set_solver.
    erewrite push_task_run by (simpl; apply lookup_insert_eq). done.
  - done.
Qed.

Lemma spawned_ok self f s : exec_ok self s → COUNTER s + 1 < 2 ^ 64 → exec_ok self (spawned f s).
Proof.
  intros [] Hc. unfold spawned. assert (Ew : wrapping_add 64 (COUNTER s) 1 = COUNTER s + 1).
  { unfold wrapping_add. apply Z.mod_small. lia. }
  assert (Hfresh : tasks s !! COUNTER s = None).
  { destruct (tasks s !! COUNTER s) eqn:E; [|done]. assert (is_Some (tasks s !! COUNTER s)) as ?%ok_dom0 by eauto. lia. }
  rewrite Ew. constructor; simpl; try done; [lia|..].
  - intros id. destruct (decide (id = COUNTER s)) as [->|]; [rewrite lookup_insert_eq; split; [intros _; lia|by eexists]|].
    rewrite lookup_insert_ne, ok_dom0 by done. lia.
  - intros id m f' [[<- [= <- <-]]|[? Hl]]%lookup_insert_Some; [set_solver|].
    rewrite <- (ok_registry0 _ _ _ Hl). set_solver.
  - intros id [->%elem_of_singleton|Hr%ok_registered0]%elem_of_union; lia.
  - intros id Hid%ok_self0. lia.
  - intros id m f' [[<- [= <- <-]]|[? Hl]]%lookup_insert_Some; [|by eapply ok_running0].
    split; [done|]. intros Hself%ok_self0. lia.
  - intros p [->|(? & ? & ?)%ok_queue0]%elem_of_cons; simpl; (split_and!; [done|lia..]).
  - intros id m f' [[<- [= <- <-]]|[? Hl]]%lookup_insert_Some Hw; [eexists; split; [apply list_elem_of_here|done]|].
    destruct (ok_woken0 _ _ _ Hl Hw) as (p & Hp & Ep). exists p. split; [by apply list_elem_of_further|done].
  - intros id m f' [[<- [= <- <-]]|[? Hl]]%lookup_insert_Some; simpl; [lia|by eapply ok_times0].
Qed.

(** ** What a poll does to the rest *)

(** From [s] to [s'] only new tasks were added, after the present ones. *)
Record later s s' : Prop := {
  lt_counter : COUNTER s ≤ COUNTER s';
  lt_clock : clock s ≤ clock s';
  lt_tasks id : 1 ≤ id < COUNTER s → tasks s' !! id = tasks s !! id;
  lt_registry id : id < COUNTER s → id ∈ active_task_registry s' ↔ id ∈ active_task_registry s;
  lt_queue : ∃ new, priority_task_queue s' = new ++ priority_task_queue s ∧
    ∀ p, p ∈ new → clock s ≤ timestamp p ∧ COUNTER s ≤ task_id p;
  lt_fresh id m f : COUNTER s ≤ id → tasks s' !! id = Some (m, f) → run_count m = 0
}.

Lemma later_refl s : (∀ id m f, COUNTER s ≤ id → tasks s !! id = Some (m, f) → run_count m = 0) → later s s.
Proof. intros. constructor; try done. exists []. split; [done|]. by intros p ?%not_elem_of_nil. Qed.

Lemma ok_fresh self s id m f : exec_ok self s → COUNTER s ≤ id → tasks s !! id = Some (m, f) → run_count m = 0.
Proof. intros Hok Hid Hl. assert (is_Some (tasks s !! id)) as ?%(ok_dom _ _ Hok) by eauto. lia. Qed.

Lemma later_trans s1 s2 s3 : 1 ≤ COUNTER s1 → later s1 s2 → later s2 s3 → later s1 s3.
Proof.
  intros Hc [] []. constructor; try lia.
  - intros id Hid. rewrite lt_tasks1 by lia. by apply lt_tasks0.
  - intros id Hid. rewrite lt_registry1 by lia. by apply lt_registry0.
  - destruct lt_queue0 as (n1 & E1 & H1), lt_queue1 as (n2 & E2 & H2). exists (n2 ++ n1).
    rewrite E2, E1, app_assoc. split; [done|]. intros p [Hp|Hp]%elem_of_app; [apply H2 in Hp|apply H1 in Hp]; lia.
  - intros id m f Hid Hl. destruct (decide (id < COUNTER s2)); [|apply (lt_fresh1 id m f); [lia|done]].
    rewrite lt_tasks1 in Hl by lia. by eapply lt_fresh0.
Qed.

Lemma spawned_later self f s : exec_ok self s → COUNTER s + 1 < 2 ^ 64 → later s (spawned f s).
Proof.
  intros Hok Hc. pose proof (ok_counter _ _ Hok).
  assert (Ew : wrapping_add 64 (COUNTER s) 1 = COUNTER s + 1).
  { unfold wrapping_add. apply Z.mod_small. lia. }
  constructor; simpl; try lia.
  - intros id Hid. by rewrite lookup_insert_ne by lia.
  - intros id Hid. rewrite elem_of_union, elem_of_singleton. split; [intros [->|?]; [lia|done]|by right].
  - eexists [_]. split; [done|]. intros p ->%list_elem_of_singleton. simpl. lia.
  - intros id m g Hid [[<- [= <- <-]]|[? Hl]]%lookup_insert_Some; [done|]. by eapply ok_fresh.
Qed.

Lemma enqueue_ok self id s : exec_ok self s →
  ∃ s', enqueue_task_wakeup id s = (s', Ok tt) ∧ exec_ok self s' ∧ later s s' ∧
    COUNTER s' = COUNTER s ∧ id ∈ GLOBAL_WAKEUP_QUEUE s' ∧
    priority_task_queue s' = priority_task_queue s ∧ tasks s' = tasks s.
Proof.
  intros Hok. pose proof (later_refl s (λ i m f, ok_fresh self s i m f Hok)) as Hl.
  unfold enqueue_task_wakeup, modify. case_bool_decide as Hin.
  { exists s. done. }
  eexists. split_and!; [done| | |done|simpl; set_solver|done|done].
  - destruct Hok. constructor; simpl; try done. apply NoDup_app. split_and!; [done| |apply NoDup_singleton].
    intros x Hx ->%list_elem_of_singleton. done.
  - destruct Hl. by constructor.
Qed.

Lemma run_effect_ok id e s : exec_ok (Some id) s → uses_wakers e → COUNTER s + 1 < 2 ^ 64 →
  ∃ s', run_effect id e s = (s', Ok tt) ∧ exec_ok (Some id) s' ∧ later s s' ∧ COUNTER s' ≤ COUNTER s + 1.
Proof.
  intros Hok He Hc. destruct e as [i|f|i|d]; simpl.
  - destruct (enqueue_ok _ i s Hok) as (s' & E & Hok' & Hl & Ec & _). exists s'. split_and!; try done. lia.
  - erewrite bind_run by (apply spawn_eq, Hok). eexists. split_and!; [done|by apply spawned_ok|by eapply spawned_later|].
    simpl. unfold wrapping_add. rewrite Z.mod_small; [lia|]. destruct Hok. lia.
  - by destruct (He i).
  - eexists. split_and!; [done| | |simpl; lia].
    + destruct Hok. constructor; simpl; try done.
      * intros p (? & ? & ?)%ok_queue0. split_and!; try done; lia.
      * intros i m f (? & ? & ?)%ok_times0. split_and!; try done; lia.
    + pose proof (later_refl s (λ i m f, ok_fresh _ s i m f Hok)) as []. constructor; simpl; try done. lia.
Qed.

Lemma run_effects_ok id l s : exec_ok (Some id) s → Forall uses_wakers l →
  COUNTER s + Z.of_nat (length l) < 2 ^ 64 →
  ∃ s', run_effects id l s = (s', Ok tt) ∧ exec_ok (Some id) s' ∧ later s s' ∧
    COUNTER s' ≤ COUNTER s + Z.of_nat (length l).
Proof.
  intros Hok Hl. revert s Hok. induction Hl as [|e l He Hl IH]; intros s Hok Hc.
  { exists s. split_and!; try done; [|simpl; lia]. apply later_refl. by intros; eapply ok_fresh. }
  simpl in Hc. destruct (run_effect_ok id e s Hok He) as (s1 & E1 & Hok1 & Hl1 & Hc1); [lia|].
  destruct (IH s1 Hok1) as (s2 & E2 & Hok2 & Hl2 & Hc2); [lia|].
  exists s2. simpl. erewrite bind_run by exact E1. split_and!; [done|done| |lia].
  eapply later_trans; [apply Hok|done|done].
Qed.

(** ** The heap *)

Definition wz (p : TaskPriority) : Z := if is_woken p then 1 else 0.

Lemma prio_ltb_spec a b : prio_ltb a b = true ↔
  wz a < wz b ∨ (wz a = wz b ∧
    (timestamp a < timestamp b ∨ (timestamp a = timestamp b ∧ task_id a < task_id b))).
Proof.
  unfold prio_ltb, wz. destruct (is_woken a), (is_woken b); simpl.
  all: try destruct (Z.eqb_spec (timestamp a) (timestamp b)); rewrite ?Z.ltb_lt; intuition (try done; lia).
Qed.

Lemma prio_ltb_false a b : prio_ltb a b = false ↔ ¬ prio_ltb a b = true.
Proof. by rewrite not_true_iff_false. Qed.

Lemma prio_total a b : prio_ltb a b = false → prio_ltb b a = false → a = b.
Proof.
  rewrite !prio_ltb_false, !prio_ltb_spec. intros H1 H2. destruct a as [wa ta ia], b as [wb tb ib].
  unfold wz in *. simpl in *. assert (wa = wb) as -> by (destruct wa, wb; done || lia).
  f_equal; destruct wb; lia.
Qed.

Lemma least_spec p q : foldr prio_min p q ∈ p :: q ∧ ∀ x, x ∈ p :: q → prio_ltb x (foldr prio_min p q) = false.
Proof.
  induction q as [|a q [IHin IHle]]; simpl.
  { split; [apply list_elem_of_here|]. intros x ->%list_elem_of_singleton. rewrite prio_ltb_false, prio_ltb_spec. lia. }
  unfold prio_min at 1 3. set (l := foldr prio_min p q) in *. destruct (prio_ltb l a) eqn:E.
  - split; [set_solver|]. intros x Hx. assert (x = a ∨ x ∈ p :: q) as [->|Hx'] by set_solver; [|by apply IHle].
    rewrite prio_ltb_false, prio_ltb_spec. rewrite prio_ltb_spec in E. lia.
  - split; [set_solver|]. intros x Hx. assert (x = a ∨ x ∈ p :: q) as [->|Hx'%IHle] by set_solver.
    + rewrite prio_ltb_false, prio_ltb_spec. lia.
    + rewrite prio_ltb_false, prio_ltb_spec in *. lia.
Qed.

Lemma remove_one_in p q x : x ∈ remove_one p q → x ∈ q.
Proof. induction q as [|a q IH]; simpl; [done|]. case_bool_decide; set_solver. Qed.

Lemma in_remove_one p q x : x ∈ q → x ≠ p → x ∈ remove_one p q.
Proof. induction q as [|a q IH]; simpl; [done|]. case_bool_decide; set_solver. Qed.

(** How many entries are ahead of [e]. *)
Definition rank (e : TaskPriority) (q : list TaskPriority) : nat := length (filter (λ x, prio_ltb x e = true) q).

Lemma rank_app e q1 q2 : rank e (q1 ++ q2) = (rank e q1 + rank e q2)%nat.
Proof. unfold rank. by rewrite list.filter_app, length_app. Qed.

Lemma rank_remove e p q : p ∈ q → prio_ltb p e = true → rank e q = S (rank e (remove_one p q)).
Proof.
  intros Hin Hlt. unfold rank. induction q as [|a q IH]; [by apply not_elem_of_nil in Hin|]. simpl remove_one.
  case_bool_decide as Ha; [subst; by rewrite filter_cons_True|].
  assert (p ∈ q) as Hq by set_solver. specialize (IH Hq). rewrite !filter_cons. case_decide; simpl; lia.
Qed.

Lemma rank_new e q : (∀ p, p ∈ q → prio_ltb p e = false) → rank e q = 0%nat.
Proof.
  intros H. unfold rank. rewrite filter_none; [done|]. apply Forall_forall. intros p Hp%H. by rewrite Hp.
Qed.

Lemma rank_lt e q : e ∈ q → (rank e q < length q)%nat.
Proof.
  intros Hin. unfold rank. induction q as [|a q IH]; [by apply not_elem_of_nil in Hin|].
  rewrite filter_cons. case_decide as Ha; simpl.
  - apply elem_of_cons in Hin as [->|Hin]; [|specialize (IH Hin); lia].
    apply prio_ltb_spec in Ha. lia.
  - pose proof (length_filter (λ x, prio_ltb x e = true) q). lia.
Qed.

(** ** One task *)

(** The metadata of a task while it is polled. *)
Definition started (now : Z) (m : TaskMetadata) : TaskMetadata :=
  mk_TaskMetadata Running (created_at m) (last_wake_at m) (Some now) (run_count m + 1).

(** Taking a task from the queue to poll it. *)
Lemma start_poll_ok s p m m' f q :
  exec_ok None s → p ∈ priority_task_queue s → tasks s !! task_id p = Some (m, f) → state m ≠ Completed →
  (∀ x, x ∈ q → x ∈ priority_task_queue s) → (∀ x, x ∈ priority_task_queue s → x ≠ p → x ∈ q) →
  state m' = Running → 0 ≤ run_count m' → default (created_at m') (last_run_at m') ≤ clock s → last_wake_at m' ≤ clock s →
  exec_ok (Some (task_id p)) (set_tasks (<[task_id p := (m', f)]> (tasks s)) (set_queue q s)).
Proof.
  intros [] Hp Hm Hnc Hq1 Hq2 Hr Hc Ht Hw. constructor; simpl; try done.
  - intros id. rewrite <- ok_dom0. destruct (decide (id = task_id p)) as [->|].
    + rewrite lookup_insert_eq, Hm. split; intros _; by eexists.
    + by rewrite lookup_insert_ne by done.
  - intros id m1 f1 [[<- [= <- <-]]|[? Hl]]%lookup_insert_Some; [|by eapply ok_registry0].
    rewrite (ok_registry0 _ _ _ Hm), Hr. done.
  - intros id [= <-]. by apply ok_queue0 in Hp as (_ & ? & _).
  - intros id m1 f1 [[<- [= <- <-]]|[? Hl]]%lookup_insert_Some; [done|].
    rewrite (ok_running0 _ _ _ Hl). split; [done|]. congruence.
  - intros x Hx%Hq1. by apply ok_queue0.
  - intros id m1 f1 [[<- [= <- <-]]|[Hne Hl]]%lookup_insert_Some Hw1; [congruence|].
    destruct (ok_woken0 _ _ _ Hl Hw1) as (x & Hx & Ex). exists x. split; [|done]. apply Hq2; [done|]. congruence.
  - intros id m1 f1 [[<- [= <- <-]]|[Hne Hl]]%lookup_insert_Some; [done|by eapply ok_times0].
Qed.

(** The task goes back to sleep. *)
Lemma suspend_ok s id m f f' : exec_ok (Some id) s → tasks s !! id = Some (m, f) →
  exec_ok None (set_tasks (<[id := (set_state Pending m, f')]> (tasks s)) s).
Proof.
  intros [] Hm. constructor; simpl; try done.
  - intros i. rewrite <- ok_dom0. destruct (decide (i = id)) as [->|].
    + rewrite lookup_insert_eq, Hm. split; intros _; by eexists.
    + by rewrite lookup_insert_ne by done.
  - intros i m1 f1 [[<- [= <- <-]]|[? Hl]]%lookup_insert_Some; [|by eapply ok_registry0].
    rewrite (ok_registry0 _ _ _ Hm). rewrite (proj2 (ok_running0 _ _ _ Hm)) by done. done.
  - intros i m1 f1 [[<- [= <- <-]]|[? Hl]]%lookup_insert_Some; [done|].
    rewrite (ok_running0 _ _ _ Hl). split; [congruence|done].
  - intros i m1 f1 [[<- [= <- <-]]|[Hne Hl]]%lookup_insert_Some Hw1; [done|by eapply ok_woken0].
  - intros i m1 f1 [[<- [= <- <-]]|[Hne Hl]]%lookup_insert_Some; [by apply (ok_times0 _ _ _ Hm)|by eapply ok_times0].
Qed.

(** The task is done. *)
Lemma complete_ok s id m f f' : exec_ok (Some id) s → tasks s !! id = Some (m, f) →
  exec_ok None (set_registry (active_task_registry s ∖ {[id]})
    (set_tasks (<[id := (mark_completed m, f')]> (tasks s)) s)).
Proof.
  intros [] Hm. constructor; simpl; try done.
  - intros i. rewrite <- ok_dom0. destruct (decide (i = id)) as [->|].
    + rewrite lookup_insert_eq, Hm. split; intros _; by eexists.
    + by rewrite lookup_insert_ne by done.
  - intros i m1 f1 [[<- [= <- <-]]|[? Hl]]%lookup_insert_Some; [set_solver|].
    rewrite <- (ok_registry0 _ _ _ Hl). set_solver.
  - intros i [Hi _]%elem_of_difference. by apply ok_registered0.
  - intros i m1 f1 [[<- [= <- <-]]|[? Hl]]%lookup_insert_Some; [done|].
    rewrite (ok_running0 _ _ _ Hl). split; [congruence|done].
  - intros i m1 f1 [[<- [= <- <-]]|[Hne Hl]]%lookup_insert_Some Hw1; [done|by eapply ok_woken0].
  - intros i m1 f1 [[<- [= <- <-]]|[Hne Hl]]%lookup_insert_Some; [by apply (ok_times0 _ _ _ Hm)|by eapply ok_times0].
Qed.

(** Dropping a queue entry whose task does not wait for it. *)
Lemma drop_entry_ok s p m f q :
  exec_ok None s → tasks s !! task_id p = Some (m, f) → state m ≠ Woken →
  (∀ x, x ∈ q → x ∈ priority_task_queue s) → (∀ x, x ∈ priority_task_queue s → x ≠ p → x ∈ q) →
  exec_ok None (set_queue q s).
Proof.
  intros [] Hm Hnw Hq1 Hq2. constructor; simpl; try done.
  - intros x Hx%Hq1. by apply ok_queue0.
  - intros i m1 f1 Hl Hw. destruct (ok_woken0 _ _ _ Hl Hw) as (x & Hx & Ex). exists x. split; [|done].
    apply Hq2; [done|]. intros ->. congruence.
Qed.

(** A poll, from the state [s1] the task was taken out of the queue in, whose
    metadata before the poll was [m]. *)
Lemma poll_ok id m f s1 : tasks s1 !! id = Some (m, f) → state m ≠ Completed → 0 ≤ run_count m → run_count m + 1 < 2 ^ 64 →
  exec_ok (Some id) (set_tasks (<[id := (started (clock s1) m, f)]> (tasks s1)) s1) → COUNTER s1 + K < 2 ^ 64 →
  ∃ s' m' f', (ready ← task_poll poll_future id;
         _ ← (if (ready : bool) then unregister id else mret tt); mret true) s1 = (s', Ok true) ∧
    exec_ok None s' ∧ COUNTER s1 ≤ COUNTER s' ≤ COUNTER s1 + K ∧ clock s1 ≤ clock s' ∧
    (∃ new, priority_task_queue s' = new ++ priority_task_queue s1 ∧
       ∀ x, x ∈ new → clock s1 ≤ timestamp x ∧ COUNTER s1 ≤ task_id x) ∧
    (∀ i, 1 ≤ i < COUNTER s1 → i ≠ id → tasks s' !! i = tasks s1 !! i) ∧
    (∀ i m f, COUNTER s1 ≤ i → tasks s' !! i = Some (m, f) → run_count m = 0) ∧
    tasks s' !! id = Some (m', f') ∧ run_count m' = run_count m + 1.
Proof.
  intros Hm Hnc Hr0 Hr Hok Hc. set (s2 := set_tasks _ _) in Hok.
  assert (Hid : 1 ≤ id < COUNTER s1) by (apply (ok_self _ _ Hok); done).
  pose proof (Hwakers f) as Hwf. pose proof (HK f) as HKf. destruct (poll_future f) as [[f' ready] effs] eqn:Ep.
  simpl in Hwf, HKf.
  destruct (run_effects_ok id effs s2 Hok Hwf) as (s3 & E3 & Hok3 & Hl3 & Hc3); [simpl; lia|].
  assert (Hm3 : tasks s3 !! id = Some (started (clock s1) m, f)).
  { rewrite (lt_tasks _ _ Hl3) by (simpl; lia). simpl. apply lookup_insert_eq. }
  set (m' := if ready then mark_completed (started (clock s1) m) else set_state Pending (started (clock s1) m)).
  set (s4 := set_tasks (<[id := (m', f')]> (tasks s3)) s3).
  assert (Et : task_poll poll_future id s1 = (s4, Ok ready)).
  { unfold task_poll. erewrite bind_run by (unfold get_task; by rewrite Hm). cbv beta iota.
    rewrite bool_decide_eq_false_2 by done. erewrite bind_run by done.
    erewrite bind_lift by (unfold update_execution; rewrite uadd_ok by done; done). rewrite Ep.
    erewrite bind_run by done. erewrite bind_run by exact E3. done. }
  set (s' := if ready then set_registry (active_task_registry s4 ∖ {[id]}) s4 else s4).
  exists s', m', f'. erewrite bind_run by exact Et.
  assert (Hfin : exec_ok None s' ∧ COUNTER s' = COUNTER s3 ∧ clock s' = clock s3 ∧
    priority_task_queue s' = priority_task_queue s3 ∧ tasks s' = tasks s4).
  { unfold s', s4, m'. destruct ready; split_and!; try done;
      [exact (complete_ok s3 id _ f f' Hok3 Hm3)|exact (suspend_ok s3 id _ f f' Hok3 Hm3)]. }
  destruct Hfin as (Hok' & Ec & Ek & Eq & Etk). destruct Hl3 as [Hl1 Hl2 Hl4 _ Hl5 Hl6]. simpl in *.
  split_and!; try done; try lia.
  - unfold s'. destruct ready; [|done]. erewrite bind_run by (apply unregister_run, Hok3). done.
  - by rewrite Eq.
  - intros i Hi Hne. rewrite Etk. simpl. rewrite lookup_insert_ne by done. rewrite Hl4 by done. by rewrite lookup_insert_ne.
  - intros i mi fi Hi. rewrite Etk. simpl. rewrite lookup_insert_ne by lia. by apply Hl6.
  - rewrite Etk. simpl. apply lookup_insert_eq.
  - unfold m'. by destruct ready.
Qed.

(** What processing the queue entry [p] did: only the task of [p] changed; it
    was polled if it was woken, and not touched if it was completed. *)
Record processed p s s' : Prop := {
  pr_counter : COUNTER s ≤ COUNTER s';
  pr_clock : clock s ≤ clock s';
  pr_queue : ∃ new, priority_task_queue s' = new ++ remove_one p (priority_task_queue s) ∧
    ∀ x, x ∈ new → clock s ≤ timestamp x ∧ COUNTER s ≤ task_id x;
  pr_other id : 1 ≤ id < COUNTER s → id ≠ task_id p → tasks s' !! id = tasks s !! id;
  pr_self m f : tasks s !! task_id p = Some (m, f) →
    ∃ m' f', tasks s' !! task_id p = Some (m', f') ∧
      match state m with
      | Woken => run_count m' = run_count m + 1
      | Completed => m' = m ∧ f' = f
      | _ => run_count m ≤ run_count m' ≤ run_count m + 1
      end
}.

Lemma processed_same p s q m f : tasks s !! task_id p = Some (m, f) → state m ≠ Woken →
  q = remove_one p (priority_task_queue s) → processed p s (set_queue q s).
Proof.
  intros Hm Hnw ->. constructor; simpl; try done.
  - exists []. split; [done|]. by intros x ?%not_elem_of_nil.
  - intros m1 f1 Hl. exists m1, f1. split; [done|]. rewrite Hm in Hl. injection Hl as <- <-.
    destruct (state m); done || lia.
Qed.

(** The poll of the task of [p], whose metadata is [m1] after the expiry test. *)
Lemma process_poll_ok n s p m m1 f :
  exec_ok None s → room (n + 1) s → 0 ≤ n → p ∈ priority_task_queue s → tasks s !! task_id p = Some (m, f) →
  state m ≠ Completed → state m1 = Woken → run_count m1 = run_count m → created_at m1 = created_at m →
  last_run_at m1 = last_run_at m → last_wake_at m1 ≤ clock s →
  let s1 := set_tasks (<[task_id p := (m1, f)]> (tasks s)) (set_queue (remove_one p (priority_task_queue s)) s) in
  ∃ s', (ready ← task_poll poll_future (task_id p);
         _ ← (if (ready : bool) then unregister (task_id p) else mret tt); mret true) s1 = (s', Ok true) ∧
    exec_ok None s' ∧ room n s' ∧ processed p s s'.
Proof.
  intros Hok Hroom Hn Hp Hm Hnc Hw Er Ecr Elr Hlw s1. destruct Hroom as [Hrc Hrm]. pose proof (Hrm _ _ _ Hm) as Hr1.
  pose proof (ok_times _ _ Hok _ _ _ Hm) as (Hr0 & Ht & _).
  assert (HK0 : 0 ≤ K) by (pose proof (HK f); lia).
  assert (Hid : 1 ≤ task_id p < COUNTER s) by (by apply (ok_queue _ _ Hok)).
  destruct (poll_ok (task_id p) m1 f s1) as (s' & m' & f' & E & Hok' & Hc & Hck & Hq & Hoth & Hfr & Hm' & Er');
    [apply lookup_insert_eq|congruence|lia|lia| |simpl; lia|].
  { unfold s1. simpl. replace (set_tasks _ (set_tasks _ _)) with
      (set_tasks (<[task_id p := (started (clock s) m1, f)]> (tasks s)) (set_queue (remove_one p (priority_task_queue s)) s))
      by (unfold set_tasks; simpl; by rewrite insert_insert_eq).
    eapply start_poll_ok; try done; simpl; try lia; [apply remove_one_in|intros; by apply in_remove_one]. }
  exists s'. simpl in *. split_and!; try done.
  - split; [nia|]. intros i mi fi Hi. destruct (decide (COUNTER s ≤ i)) as [Hge|Hlt].
    + rewrite (Hfr _ _ _ Hge Hi). lia.
    + assert (1 ≤ i < COUNTER s').
      { apply (ok_dom _ _ Hok'). by eexists. }
      destruct (decide (i = task_id p)) as [->|Hne].
      * rewrite Hm' in Hi. injection Hi as <- <-. lia.
      * rewrite Hoth in Hi by lia. rewrite lookup_insert_ne in Hi by done. specialize (Hrm _ _ _ Hi). lia.
  - constructor; try lia.
    + done.
    + intros i Hi Hne. rewrite Hoth by done. by rewrite lookup_insert_ne.
    + intros m2 f2 Hl. rewrite Hm in Hl. injection Hl as <- <-. exists m', f'. split; [done|].
      destruct (state m); done || lia.
Qed.

Lemma set_tasks_id id m f s : tasks s !! id = Some (m, f) → set_tasks (<[id := (m, f)]> (tasks s)) s = s.
Proof. intros E. unfold set_tasks. rewrite insert_id by done. by destruct s. Qed.

Lemma is_expired_ok id m f s : exec_ok None s → tasks s !! id = Some (m, f) →
  ∃ b, is_expired (E := Empty_set) (clock s) (task_timeout_milliseconds s) m = Ok b.
Proof.
  intros Hok Hm. pose proof (ok_times _ _ Hok _ _ _ Hm) as (_ & Ht & _).
  unfold is_expired. rewrite usub_ok by done. by eexists.
Qed.

Lemma process_one_ok n s : exec_ok None s → room (n + 1) s → 0 ≤ n → priority_task_queue s ≠ [] →
  ∃ p s', p ∈ priority_task_queue s ∧ (∀ x, x ∈ priority_task_queue s → prio_ltb x p = false) ∧
    process_one_task poll_future s = (s', Ok true) ∧ exec_ok None s' ∧ room n s' ∧ processed p s s'.
Proof.
  intros Hok Hroom Hn Hq. destruct (priority_task_queue s) as [|p0 q0] eqn:Eq; [done|].
  destruct (least_spec p0 q0) as [Hin Hle]. set (p := foldr prio_min p0 q0) in *. rewrite <- Eq in Hin, Hle |- *.
  exists p. pose proof (ok_queue _ _ Hok _ Hin) as (_ & Hid & _).
  destruct (proj2 (ok_dom _ _ Hok (task_id p)) Hid) as [[m f] Hm].
  set (s1 := set_queue (remove_one p (priority_task_queue s)) s).
  unfold process_one_task. erewrite bind_run by (unfold heap_pop; rewrite Eq; fold p; rewrite <- Eq; done). fold s1. cbv beta iota.
  erewrite bind_run by (unfold get_task; simpl; rewrite Hm; done). cbv beta iota.
  assert (Hroom1 : room n s1).
  { destruct Hroom as [H1 H2]. split; [simpl; assert (0 ≤ K) by (pose proof (HK f); lia); nia|].
    intros i mi fi Hi. specialize (H2 _ _ _ Hi). lia. }
  assert (Hdrop : state m ≠ Woken → exec_ok None s1 ∧ processed p s s1).
  { intros Hnw. split; [|by eapply processed_same].
    eapply drop_entry_ok; try done; [apply remove_one_in|intros; by apply in_remove_one]. }
  destruct (decide (state m = Completed)) as [Hc|Hnc].
  { rewrite bool_decide_eq_true_2 by done. exists s1. destruct Hdrop as [Hok1 Hpr]; [congruence|].
    erewrite bind_run by (apply unregister_run, Hok). split_and!; try done.
    replace (active_task_registry s1 ∖ {[task_id p]}) with (active_task_registry s1); [by destruct s1|].
    assert (task_id p ∉ active_task_registry s) by (intros ?%(ok_registry _ _ Hok _ _ _ Hm); done). simpl. set_solver. }
  rewrite bool_decide_eq_false_2 by done. destruct (decide (state m = Woken)) as [Hw|Hnw].
  - rewrite bool_decide_eq_true_2 by done. erewrite bind_run by done. cbv beta iota.
    destruct (process_poll_ok n s p m m f) as (s' & E & H); try done; [by apply (ok_times _ _ Hok _ _ _ Hm)|].
    fold s1 in E. change (tasks s) with (tasks s1) in E. rewrite set_tasks_id in E by done. exists s'. done.
  - rewrite bool_decide_eq_false_2 by done. destruct (is_expired_ok _ _ _ _ Hok Hm) as [b Eb].
    destruct b.
    + destruct (process_poll_ok n s p m (mark_woken (clock s) m) f) as (s' & E & H); try done.
      exists s'. erewrite bind_run; swap 1 2.
      { erewrite bind_run by done. erewrite bind_lift by exact Eb. cbv beta iota. erewrite bind_run by done. done. }
      simpl. done.
    + exists s1. destruct (Hdrop Hnw) as [Hok1 Hpr].
      erewrite bind_run; swap 1 2.
      { erewrite bind_run by done. erewrite bind_lift by exact Eb. done. }
      simpl. done.
Qed.

(** ** Starvation freedom *)

(** The entries that come later are behind the entries that are there. *)
Lemma new_behind s s' p e : exec_ok None s → processed p s s' → e ∈ priority_task_queue s → exec_ok None s' →
  ∃ new, priority_task_queue s' = new ++ remove_one p (priority_task_queue s) ∧ rank e new = 0%nat.
Proof.
  intros Hok Hpr He Hok'. destruct (pr_queue _ _ _ Hpr) as (new & E & Hnew). exists new. split; [done|].
  apply rank_new. intros x Hx. pose proof (Hnew _ Hx) as [Ht Hi].
  pose proof (ok_queue _ _ Hok _ He) as (Hw & Hie & Hte).
  assert (Hx' : x ∈ priority_task_queue s') by (rewrite E; set_solver).
  pose proof (ok_queue _ _ Hok' _ Hx') as (Hwx & _ & _).
  rewrite prio_ltb_false, prio_ltb_spec. unfold wz. rewrite Hw, Hwx. lia.
Qed.

(** The task of [e] is polled at the latest when [e] is at the front. *)
Lemma rank_step n s e m f : exec_ok None s → room (n + 1) s → 0 ≤ n → e ∈ priority_task_queue s →
  tasks s !! task_id e = Some (m, f) → state m = Woken →
  ∃ s' m' f', process_one_task poll_future s = (s', Ok true) ∧ exec_ok None s' ∧ room n s' ∧
    tasks s' !! task_id e = Some (m', f') ∧
    (run_count m' = run_count m + 1 ∨
     (m' = m ∧ e ∈ priority_task_queue s' ∧ rank e (priority_task_queue s) = S (rank e (priority_task_queue s')))).
Proof.
  intros Hok Hroom Hn He Hm Hw.
  destruct (process_one_ok n s Hok Hroom Hn) as (p & s' & Hp & Hle & E & Hok' & Hroom' & Hpr).
  { intros Eq. rewrite Eq in He. by apply not_elem_of_nil in He. }
  destruct (decide (task_id p = task_id e)) as [Ei|Hne].
  { rewrite <- Ei in Hm. destruct (pr_self _ _ _ Hpr _ _ Hm) as (m' & f' & Hm' & Hs). rewrite Hw in Hs.
    exists s', m', f'. rewrite <- Ei. split_and!; try done. by left. }
  exists s', m, f. pose proof (ok_queue _ _ Hok _ He) as (_ & Hid & _).
  rewrite (pr_other _ _ _ Hpr) by done. destruct (new_behind _ _ _ _ Hok Hpr He Hok') as (new & Eq & Hr).
  split_and!; try done. right. rewrite Eq, rank_app, Hr. split_and!; [done| |].
  - apply elem_of_app. right. apply in_remove_one; [done|]. congruence.
  - simpl. apply rank_remove; [done|]. destruct (prio_ltb p e) eqn:Elt; [done|].
    destruct Hne. f_equal. symmetry. by apply prio_total; [apply Hle|].
Qed.

(** Tasks are polled more and more often, and not at all once completed. *)
Definition evolves s s' : Prop := ∀ id m f, tasks s !! id = Some (m, f) →
  ∃ m' f', tasks s' !! id = Some (m', f') ∧ run_count m ≤ run_count m' ∧
    (state m = Completed → m' = m ∧ f' = f).

Lemma evolves_refl s : evolves s s.
Proof. intros id m f Hm. exists m, f. split_and!; done || lia. Qed.

Lemma evolves_trans s1 s2 s3 : evolves s1 s2 → evolves s2 s3 → evolves s1 s3.
Proof.
  intros H1 H2 id m f Hm. destruct (H1 _ _ _ Hm) as (m1 & f1 & Hm1 & Hr1 & Hc1).
  destruct (H2 _ _ _ Hm1) as (m2 & f2 & Hm2 & Hr2 & Hc2). exists m2, f2. split_and!; [done|lia|].
  intros Hc. destruct (Hc1 Hc) as [-> ->]. by apply Hc2.
Qed.

Lemma processed_evolves p s s' : exec_ok None s → processed p s s' → evolves s s'.
Proof.
  intros Hok Hpr id m f Hm. destruct (decide (id = task_id p)) as [->|Hne].
  - destruct (pr_self _ _ _ Hpr _ _ Hm) as (m' & f' & Hm' & Hs). exists m', f'. split; [done|].
    destruct (state m); split; try done; try lia. destruct Hs as [-> ->]. lia.
  - assert (is_Some (tasks s !! id)) as Hid%(ok_dom _ _ Hok) by eauto.
    exists m, f. rewrite (pr_other _ _ _ Hpr) by done. split_and!; done || lia.
Qed.

Lemma task_loop_ok n s : exec_ok None s → room (Z.of_nat n) s →
  ∃ s', task_loop poll_future n s = (s', Ok tt) ∧ exec_ok None s' ∧ evolves s s'.
Proof.
  revert s. induction n as [|n IH]; intros s Hok Hroom; [exists s; auto using evolves_refl|]. simpl.
  destruct (decide (priority_task_queue s = [])) as [Eq|Hne].
  { exists s. erewrite bind_run; swap 1 2.
    - unfold process_one_task. erewrite bind_run by (unfold heap_pop; rewrite Eq; done). done.
    - split_and!; [done|done|apply evolves_refl]. }
  destruct (process_one_ok (Z.of_nat n) s Hok) as (p & s1 & _ & _ & E1 & Hok1 & Hroom1 & Hpr); [|lia|done|].
  { by replace (Z.of_nat n + 1) with (Z.of_nat (S n)) by lia. }
  destruct (IH s1 Hok1 Hroom1) as (s2 & E2 & Hok2 & Hev). exists s2. erewrite bind_run by exact E1.
  split_and!; [done|done|]. eapply evolves_trans; [by eapply processed_evolves|done].
Qed.

Lemma task_loop_runs n s e m f : exec_ok None s → room (Z.of_nat n) s → e ∈ priority_task_queue s →
  tasks s !! task_id e = Some (m, f) → state m = Woken → (rank e (priority_task_queue s) < n)%nat →
  ∃ s' m' f', task_loop poll_future n s = (s', Ok tt) ∧
    tasks s' !! task_id e = Some (m', f') ∧ run_count m < run_count m'.
Proof.
  revert s m f. induction n as [|n IH]; intros s m f Hok Hroom He Hm Hw Hrank; [lia|]. simpl.
  destruct (rank_step (Z.of_nat n) s e m f) as (s1 & m1 & f1 & E1 & Hok1 & Hroom1 & Hm1 & Hcase);
    [done|by replace (Z.of_nat n + 1) with (Z.of_nat (S n)) by lia|lia|done..|].
  erewrite bind_run by exact E1. cbv beta iota. destruct Hcase as [Hrun|(-> & He1 & Hr1)].
  - destruct (task_loop_ok n s1 Hok1 Hroom1) as (s2 & E2 & _ & Hev). destruct (Hev _ _ _ Hm1) as (m2 & f2 & Hm2 & Hr2 & _).
    exists s2, m2, f2. split_and!; [done|done|lia].
  - apply (IH s1 m f1); try done. lia.
Qed.

(** ** The wake-up queue *)

Definition woken_up (id : Z) (m : TaskMetadata) (f : F) (rest : list Z) s : @Exec F :=
  set_wakeups rest (set_queue (mk_TaskPriority true (clock s) id :: priority_task_queue s)
    (set_tasks (<[id := (mark_woken (clock s) m, f)]> (tasks s)) s)).

Lemma woken_up_ok id m f rest s : exec_ok None s → GLOBAL_WAKEUP_QUEUE s = id :: rest →
  tasks s !! id = Some (m, f) → id ∈ active_task_registry s → exec_ok None (woken_up id m f rest s).
Proof.
  intros [] Eq Hm Hreg. rewrite Eq in ok_wakeups0. apply NoDup_cons in ok_wakeups0 as [_ Hnd].
  constructor; simpl; try done.
  - intros i. rewrite <- ok_dom0. destruct (decide (i = id)) as [->|].
    + rewrite lookup_insert_eq, Hm. split; intros _; by eexists.
    + by rewrite lookup_insert_ne by done.
  - intros i m1 f1 [[<- [= <- <-]]|[? Hl]]%lookup_insert_Some; [done|by eapply ok_registry0].
  - intros i m1 f1 [[<- [= <- <-]]|[? Hl]]%lookup_insert_Some; [done|by eapply ok_running0].
  - intros p [->|Hp]%elem_of_cons; [|by apply ok_queue0]. simpl. split_and!; try done; try lia; by apply ok_registered0.
  - intros i m1 f1 [[<- [= <- <-]]|[Hne Hl]]%lookup_insert_Some Hw; [eexists; split; [apply list_elem_of_here|done]|].
    destruct (ok_woken0 _ _ _ Hl Hw) as (x & Hx & Ex). exists x. split; [by apply list_elem_of_further|done].
  - intros i m1 f1 [[<- [= <- <-]]|[Hne Hl]]%lookup_insert_Some; [|by eapply ok_times0].
    simpl. destruct (ok_times0 _ _ _ Hm) as (? & ? & ?). split_and!; done || lia.
Qed.

Lemma wake_turn_run id rest s : exec_ok None s → GLOBAL_WAKEUP_QUEUE s = id :: rest →
  wake_turn s = (match tasks s !! id with
    | Some (m, f) => if bool_decide (id ∈ active_task_registry s) then woken_up id m f rest s else set_wakeups rest s
    | None => set_wakeups rest s
    end, Ok true).
Proof.
  intros Hok Eq. unfold wake_turn. erewrite bind_run by done. rewrite Eq. erewrite bind_run by done.
  pose proof (ok_unlocked _ _ Hok) as Hlk.
  destruct (decide (id ∈ active_task_registry s)) as [Hreg|Hreg].
  - destruct (proj2 (ok_dom _ _ Hok id)) as [[m f] Hm]; [by apply (ok_registered _ _ Hok)|].
    rewrite Hm, bool_decide_eq_true_2 by done.
    erewrite bind_run; swap 1 2; [eapply with_registry_run; [done|]|].
    + erewrite bind_run by done. simpl. rewrite bool_decide_eq_true_2 by done.
      erewrite bind_run; swap 1 2.
      * unfold mark_task_woken. erewrite bind_run by (unfold get_task; simpl; by rewrite Hm). cbv beta iota.
        erewrite bind_run by done. done.
      * eapply push_task_run. simpl. apply lookup_insert_eq.
    + destruct s. simpl in *. by subst.
  - erewrite bind_run; swap 1 2; [eapply with_registry_run; [done|]|].
    + erewrite bind_run by done. simpl. by rewrite bool_decide_eq_false_2.
    + destruct s as [c ck ts reg lk q wq run to]. simpl in *. subst. by destruct (ts !! id) as [[]|]; rewrite ?bool_decide_eq_false_2.
Qed.

(** Emptying the wake-up queue wakes the registered tasks in it and leaves the
    others as they are. *)
Record roused s s' : Prop := {
  ro_counter : COUNTER s' = COUNTER s;
  ro_registry : active_task_registry s' = active_task_registry s;
  ro_empty : GLOBAL_WAKEUP_QUEUE s' = [];
  ro_length : (length (priority_task_queue s') ≤ length (priority_task_queue s) + length (GLOBAL_WAKEUP_QUEUE s))%nat;
  ro_tasks id m f : tasks s !! id = Some (m, f) → ∃ m', tasks s' !! id = Some (m', f) ∧
    run_count m' = run_count m ∧ (state m = Completed → m' = m) ∧
    (state m = Woken ∨ (id ∈ GLOBAL_WAKEUP_QUEUE s ∧ id ∈ active_task_registry s) → state m' = Woken)
}.

Lemma roused_step id m f rest s s' : exec_ok None s → GLOBAL_WAKEUP_QUEUE s = id :: rest →
  tasks s !! id = Some (m, f) → id ∈ active_task_registry s →
  roused (woken_up id m f rest s) s' → roused s s'.
Proof.
  intros Hok Eq Hm Hreg []. simpl in *. constructor; try done; [rewrite Eq; simpl; lia|].
  intros i mi fi Hi. destruct (decide (i = id)) as [->|Hne].
  - rewrite Hm in Hi. injection Hi as <- <-.
    destruct (ro_tasks0 id _ _ (lookup_insert_eq _ _ _)) as (m' & Hm' & Hr & _ & Hw). exists m'. simpl in Hr.
    split_and!; try done; [|intros _; apply Hw; by left].
    intros Hc. by apply (ok_registry _ _ Hok _ _ _ Hm) in Hreg.
  - destruct (ro_tasks0 i mi fi) as (m' & Hm' & Hr & Hc & Hw); [by rewrite lookup_insert_ne|].
    exists m'. split_and!; try done. rewrite Eq, elem_of_cons. naive_solver.
Qed.

Lemma roused_skip id rest s s' : GLOBAL_WAKEUP_QUEUE s = id :: rest → id ∉ active_task_registry s →
  roused (set_wakeups rest s) s' → roused s s'.
Proof.
  intros Eq Hreg []. simpl in *. constructor; try done; [rewrite Eq; simpl; lia|].
  intros i mi fi Hi. destruct (ro_tasks0 i mi fi Hi) as (m' & Hm' & Hr & Hc & Hw).
  exists m'. split_and!; try done. rewrite Eq, elem_of_cons. naive_solver.
Qed.

Lemma wake_loop_ok l s : exec_ok None s → GLOBAL_WAKEUP_QUEUE s = l →
  ∃ s', wake_loop (S (length l)) s = (s', Ok tt) ∧ exec_ok None s' ∧ roused s s'.
Proof.
  revert s. induction l as [|id rest IH]; intros s Hok Eq.
  - exists s. simpl. erewrite bind_run; swap 1 2.
    + unfold wake_turn. erewrite bind_run by done. by rewrite Eq.
    + split_and!; [done|done|]. constructor; try done; [lia|]. rewrite Eq. intros i m f Hm. exists m. split_and!; try done.
      intros [?|[?%not_elem_of_nil _]]; done.
  - simpl length. cbn [wake_loop]. erewrite bind_run by (by apply wake_turn_run). cbv beta iota.
    destruct (decide (id ∈ active_task_registry s)) as [Hreg|Hreg].
    + destruct (proj2 (ok_dom _ _ Hok id)) as [[m f] Hm]; [by apply (ok_registered _ _ Hok)|].
      rewrite Hm, bool_decide_eq_true_2 by done.
      destruct (IH (woken_up id m f rest s)) as (s' & E & Hok' & Hro); [by apply woken_up_ok|done|].
      exists s'. split_and!; [exact E|done|by eapply roused_step].
    + assert (Hok1 : exec_ok None (set_wakeups rest s)).
      { destruct Hok. constructor; simpl; try done. rewrite Eq in ok_wakeups0. by apply NoDup_cons in ok_wakeups0 as [_ ?]. }
      destruct (IH _ Hok1 eq_refl) as (s' & E & Hok' & Hro). exists s'.
      split_and!; [|done|by eapply roused_skip]. destruct (tasks s !! id) as [[m f]|]; rewrite ?bool_decide_eq_false_2 by done; exact E.
Qed.

Lemma roused_room n s s' : exec_ok None s → exec_ok None s' → roused s s' → room n s → room n s'.
Proof.
  intros Hok Hok' [] [H1 H2]. split; [by rewrite ro_counter0|]. intros i m' f Hm'.
  assert (is_Some (tasks s' !! i)) as Hi%(ok_dom _ _ Hok') by eauto. rewrite ro_counter0 in Hi.
  apply (ok_dom _ _ Hok) in Hi as [[m f'] Hm]. destruct (ro_tasks0 _ _ _ Hm) as (m1 & Hm1 & Hr & _).
  rewrite Hm' in Hm1. injection Hm1 as -> ->. rewrite Hr. by apply (H2 _ _ _ Hm).
Qed.

Lemma roused_evolves s s' : roused s s' → evolves s s'.
Proof.
  intros [] id m f Hm. destruct (ro_tasks0 _ _ _ Hm) as (m' & Hm' & Hr & Hc & _). exists m', f.
  split_and!; [done|lia|]. intros Hs. by rewrite Hc.
Qed.

(** [wake_by_id] locks the registry and calls [add_task_to_queue], which locks
    it again: it panics for every registered task. *)
Lemma wake_by_id_panics id s :
  exec_ok None s → id ∈ active_task_registry s → (wake_by_id id s).2 = Stuck.
Proof.
  intros Hok Hreg. destruct (proj2 (ok_dom _ _ Hok id)) as [[m f] Hm]; [by apply (ok_registered _ _ Hok)|].
  unfold wake_by_id, with_registry. rewrite (ok_unlocked _ _ Hok). unfold mbind, M_bind, mark_task_woken, get_task.
  simpl. rewrite bool_decide_eq_true_2 by done. unfold mbind, M_bind. simpl. rewrite Hm. done.
Qed.

Lemma wake_by_id_unknown id s : exec_ok None s → id ∉ active_task_registry s → wake_by_id id s = (s, Ok false).
Proof.
  intros Hok Hreg. unfold wake_by_id, with_registry. rewrite (ok_unlocked _ _ Hok). unfold mbind, M_bind. simpl.
  rewrite bool_decide_eq_false_2 by done. simpl. pose proof (ok_unlocked _ _ Hok) as E. destruct s. simpl in *. by subst.
Qed.

(** C13: Spawning a task, calling the waker of a task (from a task or from an
    interrupt), and processing one queue entry never panic and keep the
    executor's invariant: registered tasks are exactly those not completed,
    every woken task has a queue entry, and the wake-up queue has no
    duplicates. Processing polls tasks more often but never touches a task
    whose future has returned [Ready]. [wake_by_id], the other way to wake a
    task, does nothing for a task that is not registered and panics for every
    one that is. Here the futures wake tasks through wakers only, a poll has at
    most [K] effects, and the 64-bit counters of tasks and polls do not run
    out. *)
Theorem executor_ops_safe s : exec_ok None s → room 1 s → COUNTER s + 1 < 2 ^ 64 →
  (∀ f, ∃ s', spawn f s = (s', Ok (COUNTER s)) ∧ exec_ok None s' ∧
     COUNTER s ∈ active_task_registry s' ∧ tasks s !! COUNTER s = None) ∧
  (∀ id, ∃ s', enqueue_task_wakeup id s = (s', Ok tt) ∧ exec_ok None s' ∧ id ∈ GLOBAL_WAKEUP_QUEUE s') ∧
  (∃ s' b, process_one_task poll_future s = (s', Ok b) ∧ exec_ok None s' ∧ evolves s s') ∧
  (∀ id, if bool_decide (id ∈ active_task_registry s) then (wake_by_id id s).2 = Stuck
         else wake_by_id id s = (s, Ok false)).
Proof.
  intros Hok Hroom Hc. split_and!.
  - intros f. eexists. split_and!; [apply spawn_eq, Hok|by apply spawned_ok|simpl; set_solver|].
    destruct (tasks s !! COUNTER s) eqn:E; [|done].
    assert (is_Some (tasks s !! COUNTER s)) as ?%(ok_dom _ _ Hok) by eauto. lia.
  - intros id. destruct (enqueue_ok None id s Hok) as (s' & E & Hok' & _ & _ & Hin & _). by exists s'.
  - destruct (decide (priority_task_queue s = [])) as [Eq|Hne].
    + exists s, false. split_and!; [|done|apply evolves_refl]. unfold process_one_task.
      erewrite bind_run by (unfold heap_pop; rewrite Eq; done). done.
    + destruct (process_one_ok 0 s Hok Hroom ltac:(lia) Hne) as (p & s' & _ & _ & E & Hok' & _ & Hpr).
      exists s', true. split_and!; try done. by eapply processed_evolves.
  - intros id. case_bool_decide; [by apply wake_by_id_panics|by apply wake_by_id_unknown].
Qed.

(** C12: A tick never panics and keeps the invariant, and it polls every task
    that is woken or whose waker was called, whatever the polled tasks do
    meanwhile, as long as the queues hold at most the ten entries of one tick
    when it starts. The futures wake tasks through their wakers only (one that
    wakes itself through its handle panics: [self_wake_panics]), a poll has at
    most [K] effects, and the 64-bit counters of tasks and polls have room for
    ten polls. *)
Theorem tick_polls_woken s : exec_ok None s → room 10 s →
  ∃ s', tick poll_future s = (s', Ok tt) ∧ exec_ok None s' ∧ evolves s s' ∧
  ((length (priority_task_queue s) + length (GLOBAL_WAKEUP_QUEUE s) ≤ 10)%nat →
   ∀ id m f, tasks s !! id = Some (m, f) →
     state m = Woken ∨ (id ∈ GLOBAL_WAKEUP_QUEUE s ∧ id ∈ active_task_registry s) →
     ∃ m' f', tasks s' !! id = Some (m', f') ∧ run_count m < run_count m').
Proof.
  intros Hok Hroom. destruct (wake_loop_ok _ s Hok eq_refl) as (s1 & E1 & Hok1 & Hro).
  pose proof (roused_room _ _ _ Hok Hok1 Hro Hroom) as Hroom1.
  destruct (task_loop_ok MAX_TASKS_PER_TICK s1 Hok1 Hroom1) as (s2 & E2 & Hok2 & Hev).
  assert (Et : tick poll_future s = (s2, Ok tt)).
  { unfold tick, process_wake_queue. erewrite bind_run; [exact E2|]. erewrite bind_run by done. exact E1. }
  exists s2. split_and!; [done|done|eapply evolves_trans; [by apply roused_evolves|done]|].
  intros Hlen id m f Hm Hw. destruct (ro_tasks _ _ Hro _ _ _ Hm) as (m1 & Hm1 & Hr1 & _ & Hw1). specialize (Hw1 Hw).
  destruct (ok_woken _ _ Hok1 _ _ _ Hm1 Hw1) as (e & He & <-).
  destruct (task_loop_runs MAX_TASKS_PER_TICK s1 e m1 f) as (s3 & m3 & f3 & E3 & Hm3 & Hr3); try done.
  { pose proof (rank_lt _ _ He). pose proof (ro_length _ _ Hro). unfold MAX_TASKS_PER_TICK. lia. }
  rewrite E2 in E3. injection E3 as <-. exists m3, f3. split; [done|]. lia.
Qed.

End ExecutorProof.

Arguments exec_ok {F} self s.
Arguments room {F} K n s.
Arguments evolves {F} s s'.

(** ** Concrete programs *)

(** Futures that count down to readiness; every poll but the last calls the
    waker of task 1. *)
Definition countdown (n : nat) : nat * bool * list (@Effect nat) :=
  match n with
  | O => (O, true, [])
  | S O => (O, true, [])
  | S n => (n, false, [EWake 1; EElapse 2])
  end.

(** Two tasks: task 1 sleeps and its waker has been called, task 2 is new. *)
Definition two_tasks : @Exec nat :=
  mk_Exec 3 5
    {[1 := (mk_TaskMetadata Pending 0 0 (Some 0) 1, 2%nat); 2 := (mk_TaskMetadata Woken 5 5 None 0, 3%nat)]}
    {[1; 2]} false [mk_TaskPriority true 5 2] [1] false 1000.

Lemma lookup_two {A} (x y : A) id z : ({[1 := x; 2 := y]} : gmap Z A) !! id = Some z →
  (id = 1 ∧ z = x) ∨ (id = 2 ∧ z = y).
Proof.
  rewrite lookup_insert_Some. intros [[<- <-]|[? [<- <-]%lookup_singleton_Some]]; auto.
Qed.

Lemma two_tasks_ok : exec_ok None two_tasks.
Proof.
  constructor; try done.
  - intros id. unfold two_tasks. simpl. split.
    + intros [z [[-> _]|[-> _]]%lookup_two]; lia.
    + intros Hid. assert (id = 1 ∨ id = 2) as [->| ->] by lia; by eexists.
  - intros id m f [[-> [= -> ->]]|[-> [= -> ->]]]%lookup_two; simpl; set_solver.
  - intros id. simpl. set_solver by lia.
  - intros id m f [[-> [= -> ->]]|[-> [= -> ->]]]%lookup_two; done.
  - intros p ->%list_elem_of_singleton. simpl. split_and!; done || lia.
  - intros id m f [[-> [= -> ->]]|[-> [= -> ->]]]%lookup_two; simpl; [done|].
    intros _. eexists. split; [apply list_elem_of_here|done].
  - apply NoDup_singleton.
  - intros id m f [[-> [= -> ->]]|[-> [= -> ->]]]%lookup_two; simpl; lia.
Qed.

Lemma two_tasks_room n : n ≤ 10 → room 2 n two_tasks.
Proof.
  intros Hn. split; [simpl; lia|]. intros id m f [[-> [= -> ->]]|[-> [= -> ->]]]%lookup_two; simpl; lia.
Qed.

Lemma countdown_wakers f : Forall uses_wakers (countdown f).2.
Proof. destruct f as [|[|f]]; repeat constructor; done. Qed.

Lemma countdown_few f : Z.of_nat (length (countdown f).2) ≤ 2.
Proof. destruct f as [|[|f]]; simpl; lia. Qed.

Lemma executor_ops_safe_witness :
  (process_one_task countdown two_tasks).2 = Ok true ∧
  ∃ s' b, process_one_task countdown two_tasks = (s', Ok b) ∧ exec_ok None s' ∧ evolves two_tasks s'.
Proof.
  split; [vm_compute; reflexivity|].
  destruct (executor_ops_safe countdown 2 countdown_wakers countdown_few two_tasks two_tasks_ok
    (two_tasks_room 1 ltac:(lia)) ltac:(simpl; lia)) as (_ & _ & H & _). exact H.
Defined.

Lemma tick_polls_woken_witness :
  ∃ s', tick countdown two_tasks = (s', Ok tt) ∧
    ∃ m' f', tasks s' !! 1 = Some (m', f') ∧ 1 < run_count m'.
Proof.
  destruct (tick_polls_woken countdown 2 countdown_wakers countdown_few two_tasks two_tasks_ok
    (two_tasks_room 10 ltac:(lia))) as (s' & E & _ & _ & H).
  exists s'. split; [exact E|]. refine (H _ 1 (mk_TaskMetadata Pending 0 0 (Some 0) 1) 2%nat _ _).
  - simpl. lia.
  - reflexivity.
  - right. simpl. set_solver.
Defined.

(** ** What the other ways to wake a task do *)

(** A future that wakes its own task through the handle panics: the poll holds
    the lock of the task's metadata, which [mark_task_woken] takes again. *)
Lemma self_wake_panics {F} id (s : @Exec F) : (run_effect id (EHandleWake id) s).2 = Stuck.
Proof. simpl. by rewrite Z.eqb_refl. Qed.

(** Task 1 has two queue entries, the entry of task 2 is between them. *)
Definition duplicate_entry : @Exec nat :=
  mk_Exec 3 7
    {[1 := (mk_TaskMetadata Woken 0 7 (Some 1) 1, O); 2 := (mk_TaskMetadata Woken 0 6 (Some 1) 1, 1%nat)]}
    {[1; 2]} false [mk_TaskPriority true 7 1; mk_TaskPriority true 6 2; mk_TaskPriority true 5 1] [] false 1000.

(** Task 2 uses the handle of task 1. *)
Definition poll_demo (n : nat) : nat * bool * list (@Effect nat) :=
  match n with
  | S O => (O, true, [EHandleWake 1])
  | _ => (O, true, [])
  end.

Lemma duplicate_entry_ok : exec_ok None duplicate_entry.
Proof.
  constructor; try done.
  - intros id. simpl. split.
    + intros [z [[-> _]|[-> _]]%lookup_two]; lia.
    + intros Hid. assert (id = 1 ∨ id = 2) as [->| ->] by lia; by eexists.
  - intros id m f [[-> [= -> ->]]|[-> [= -> ->]]]%lookup_two; simpl; set_solver.
  - intros id. simpl. set_solver by lia.
  - intros id m f [[-> [= -> ->]]|[-> [= -> ->]]]%lookup_two; done.
  - intros p Hp. simpl in Hp. rewrite !elem_of_cons in Hp. destruct Hp as [->|[->|[->|?%not_elem_of_nil]]]; simpl; done || lia.
  - intros id m f [[-> [= -> ->]]|[-> [= -> ->]]]%lookup_two; simpl; intros _.
    + exists (mk_TaskPriority true 7 1). split; [set_solver|done].
    + exists (mk_TaskPriority true 6 2). split; [set_solver|done].
  - apply NoDup_nil. done.
  - intros id m f [[-> [= -> ->]]|[-> [= -> ->]]]%lookup_two; simpl; lia.
Qed.

(** [TaskHandle::wake] does not look at the state of the task. A task
    that has two queue entries completes through the first one; another task
    wakes it through its handle; the second entry then polls the completed
    future again, which [process_one_task] means to exclude. *)
Theorem handle_wake_repolls_completed : ∃ s1 s3 m1 m3 f1 f3,
  exec_ok None duplicate_entry ∧
  process_one_task poll_demo duplicate_entry = (s1, Ok true) ∧
  tasks s1 !! 1 = Some (m1, f1) ∧ state m1 = Completed ∧ 1 ∉ active_task_registry s1 ∧
  task_loop poll_demo 2 s1 = (s3, Ok tt) ∧
  tasks s3 !! 1 = Some (m3, f3) ∧ run_count m3 = run_count m1 + 1.
Proof.
  exists (process_one_task poll_demo duplicate_entry).1,
    (task_loop poll_demo 2 (process_one_task poll_demo duplicate_entry).1).1.
  do 4 eexists. split_and!; [apply duplicate_entry_ok| | | |apply (bool_decide_eq_false_1 _)| | |].
  all: vm_compute; reflexivity.
Qed.

(** A task that sleeps is never promoted: with empty queues a tick does
    nothing, however long ago the task ran. *)
Lemma sleeping_tasks_never_expire {F} poll_future (s : @Exec F) :
  priority_task_queue s = [] → GLOBAL_WAKEUP_QUEUE s = [] → tick poll_future s = (s, Ok tt).
Proof.
  intros Hq Hw. destruct s as [c ck ts reg lk q wq run to]. simpl in *. subst. reflexivity.
Qed.
