(* ===== verification/PteX86.v ===== *)
(** * The x86_64 page-table entry

    crates/someboot/src/arch/x86_64/paging.rs: the entry format and the table
    geometry, and what the format keeps of a configuration. *)

From stdpp Require Import base list numbers.
From S2P Require Import Prelude PtDef PtFrame Bits.
Open Scope Z_scope.

Module X86.

Definition PTE_PRESENT : Z := Z.shiftl 1 0.
Definition PTE_WRITABLE : Z := Z.shiftl 1 1.
Definition PTE_USER : Z := Z.shiftl 1 2.
Definition PTE_WRITE_THROUGH : Z := Z.shiftl 1 3.
Definition PTE_CACHE_DISABLE : Z := Z.shiftl 1 4.
Definition PTE_ACCESSED : Z := Z.shiftl 1 5.
Definition PTE_DIRTY : Z := Z.shiftl 1 6.
Definition PTE_HUGE : Z := Z.shiftl 1 7.
Definition PTE_GLOBAL : Z := Z.shiftl 1 8.
Definition PTE_NO_EXECUTE : Z := Z.shiftl 1 63.
Definition PTE_ADDR_MASK : Z := 0x000ffffffffff000.

Definition Entry : Type := Z.

(** [Entry::from_config]. *)
Definition x86_from_config (config : PteConfig) : Entry :=
  let bits := Z.land (paddr config) PTE_ADDR_MASK in
  let bits := set_if (valid config) PTE_PRESENT bits in
  let bits := set_if (writable config) PTE_WRITABLE bits in
  let bits := set_if (lower config) PTE_USER bits in
  let bits := set_if (dirty config) PTE_DIRTY bits in
  let bits := set_if (global config) PTE_GLOBAL bits in
  let bits := set_if (is_dir config && huge config) PTE_HUGE bits in
  let bits :=
    match mem_attr config with
    | Device | Uncached => Z.lor bits (Z.lor PTE_CACHE_DISABLE PTE_WRITE_THROUGH)
    | _ => bits
    end in
  let is_leaf := negb (is_dir config) || huge config in
  let bits := set_if (is_leaf && negb (executable config)) PTE_NO_EXECUTE bits in
  set_if (valid config) PTE_ACCESSED bits.

(** [Entry::to_config]. *)
Definition x86_to_config (bits : Entry) (dir : bool) : PteConfig :=
  let h := dir && has bits PTE_HUGE in
  let attr := if has bits (Z.lor PTE_CACHE_DISABLE PTE_WRITE_THROUGH)
              then Device else Normal in
  mk_PteConfig (Z.land bits PTE_ADDR_MASK) (has bits PTE_PRESENT) (has bits PTE_PRESENT)
    (has bits PTE_WRITABLE) (negb (has bits PTE_NO_EXECUTE)) (has bits PTE_USER)
    (has bits PTE_DIRTY) (has bits PTE_GLOBAL) dir h attr.

(** [Entry::valid]. *)
Definition x86_valid (bits : Entry) : bool := has bits PTE_PRESENT.

#[export] Instance x86_pte : PageTableEntry Entry := {
  from_config := x86_from_config;
  to_config := x86_to_config;
  pte_valid := x86_valid;
  pte_zero := 0
}.

(** [TableMeta for Generic]. *)
#[export] Instance x86_meta : TableMeta := {
  PAGE_SIZE := 0x1000;
  LEVEL_BITS := [9; 9; 9; 9];
  MAX_BLOCK_LEVEL := 2%nat;
  PTE_SIZE := 8
}.

#[export] Instance x86_meta_ok : TableMetaOk.
Proof.
  split.
  - exists 12. done.
  - repeat constructor; vm_compute; done.
  - done.
  - vm_compute. done.
Qed.

(** Physical addresses the format can hold. *)
Definition x86_pa_ok (pa : Z) : Prop := (2 ^ 12 | pa) ∧ 0 ≤ pa < 2 ^ 52.
Definition any_template (_ : PteConfig) : Prop := True.

Lemma addr_mask_field : PTE_ADDR_MASK = field_mask 12 52.
Proof. done. Qed.

(** [bits |= CACHE_DISABLE | WRITE_THROUGH] as two flag updates. *)
Lemma attr_set_if (a : MemAttributes) bits :
  match a with
  | Device | Uncached => Z.lor bits (Z.lor PTE_CACHE_DISABLE PTE_WRITE_THROUGH)
  | _ => bits
  end =
  let u := match a with Device | Uncached => true | _ => false end in
  set_if u PTE_WRITE_THROUGH (set_if u PTE_CACHE_DISABLE bits).
Proof. destruct a; try done; cbn [set_if]; by rewrite Z.lor_assoc. Qed.

(** What [to_config] reads back: the address in the field, every flag as
    written, the attribute reduced to cached or not, and [executable] on links
    to lower tables. *)
Definition x86_normal (c : PteConfig) : PteConfig :=
  mk_PteConfig (Z.land (paddr c) PTE_ADDR_MASK) (valid c) (valid c) (writable c)
    (negb ((negb (is_dir c) || huge c) && negb (executable c))) (lower c) (dirty c) (global c)
    (is_dir c) (is_dir c && huge c)
    (match mem_attr c with Device | Uncached => Device | _ => Normal end).

Lemma x86_roundtrip c : to_config (from_config c) (is_dir c) = x86_normal c.
Proof.
  cbn [to_config from_config x86_pte]. unfold x86_to_config, x86_normal, x86_from_config.
  rewrite !attr_set_if, addr_mask_field. cbv zeta.
  unfold PTE_PRESENT, PTE_WRITABLE, PTE_USER, PTE_WRITE_THROUGH, PTE_CACHE_DISABLE, PTE_ACCESSED,
    PTE_DIRTY, PTE_HUGE, PTE_GLOBAL, PTE_NO_EXECUTE.
  rewrite !has_lor. f_equal; [|bit_eval; try done..].
  - rewrite !land_set_if by lia. apply land_idemp_field.
  - by destruct (is_dir c), (huge c).
  - by destruct (mem_attr c).
Qed.

Lemma x86_normal_idemp c : x86_normal (x86_normal c) = x86_normal c.
Proof.
  unfold x86_normal. simpl. rewrite <- Z.land_assoc, Z.land_diag. f_equal.
  - by destruct (is_dir c), (huge c), (executable c).
  - by destruct (is_dir c), (huge c).
  - by destruct (mem_attr c).
Qed.

(** The x86_64 entry keeps every field of a configuration that the
    format can hold: reading back an entry gives the configuration reduced to
    the format (address field, flags, cached or not), the entry is present
    exactly when the configuration says valid, and reading back the reduced
    configuration changes nothing. *)
Theorem x86_entry_roundtrip c :
  to_config (from_config c) (is_dir c) = x86_normal c ∧
  pte_valid (from_config c) = valid c ∧
  to_config (from_config (x86_normal c)) (is_dir c) = x86_normal c.
Proof.
  split_and!; [apply x86_roundtrip| |].
  - exact (f_equal valid (x86_roundtrip c)).
  - change (is_dir c) with (is_dir (x86_normal c)). rewrite x86_roundtrip. apply x86_normal_idemp.
Qed.

Lemma x86_addr_field pa : x86_pa_ok pa → Z.land pa PTE_ADDR_MASK = pa.
Proof. intros [Hd Hr]. rewrite addr_mask_field. by apply land_field_mask. Qed.

Lemma x86_target c pa h d : x86_pa_ok pa →
  let g := to_config (from_config (pte_target c pa h d)) d in
  valid g = true ∧ huge g = (d && h) ∧ paddr g = pa.
Proof.
  intros Hpa. pose proof (x86_roundtrip (pte_target c pa h d)) as E.
  cbn [pte_target is_dir] in E. rewrite E. simpl. by rewrite x86_addr_field.
Qed.

#[export] Instance x86_pte_laws : PageTableEntryLaws Entry x86_pa_ok any_template.
Proof.
  split; try done; intros; by apply x86_target.
Qed.

End X86.
