(* ===== verification/PteRiscv.v ===== *)
(** * The RISC-V (Sv39) page-table entry

    crates/someboot/src/arch/riscv64/mod.rs: the entry format and the table
    geometry. The format has no attribute bits and no huge flag: a directory
    entry is a block exactly when one of its permission bits is set. *)

From stdpp Require Import base list numbers.
From S2P Require Import Prelude PtDef PtFrame Bits.
Open Scope Z_scope.

Module Riscv.

Definition SV39_PPN_SHIFT : Z := 10.
Definition PTE_V : Z := Z.shiftl 1 0.
Definition PTE_R : Z := Z.shiftl 1 1.
Definition PTE_W : Z := Z.shiftl 1 2.
Definition PTE_X : Z := Z.shiftl 1 3.
Definition PTE_U : Z := Z.shiftl 1 4.
Definition PTE_G : Z := Z.shiftl 1 5.
Definition PTE_A : Z := Z.shiftl 1 6.
Definition PTE_D : Z := Z.shiftl 1 7.

Definition Entry : Type := Z.

(** [Entry::from_config]; the shift left drops the bits above bit 63. *)
Definition rv_from_config (config : PteConfig) : Entry :=
  if negb (valid config) then 0
  else
    let bits := PTE_V in
    let is_leaf := negb (is_dir config) || huge config in
    let bits :=
      if is_leaf then
        let bits := set_if (read config) PTE_R bits in
        let bits := set_if (writable config) PTE_W bits in
        let bits := set_if (executable config) PTE_X bits in
        let bits := set_if (lower config) PTE_U bits in
        let bits := set_if (global config) PTE_G bits in
        let bits := set_if (valid config) PTE_A bits in
        set_if (writable config || dirty config) PTE_D bits
      else bits in
    Z.lor bits (Z.shiftl (Z.shiftr (paddr config) 12) SV39_PPN_SHIFT mod 2 ^ 64).

(** [Entry::to_config]. *)
Definition rv_to_config (bits : Entry) (dir : bool) : PteConfig :=
  let r := has bits PTE_R in
  let w := has bits PTE_W in
  let x := has bits PTE_X in
  let h := dir && (r || w || x) in
  let pa := Z.shiftl (Z.shiftr bits SV39_PPN_SHIFT) 12 mod 2 ^ 64 in
  mk_PteConfig pa (has bits PTE_V) r w x (has bits PTE_U) (has bits PTE_D) (has bits PTE_G)
    dir h Normal.

(** [Entry::valid]. *)
Definition rv_valid (bits : Entry) : bool := has bits PTE_V.

#[export] Instance rv_pte : PageTableEntry Entry := {
  from_config := rv_from_config;
  to_config := rv_to_config;
  pte_valid := rv_valid;
  pte_zero := 0
}.

(** [TableMeta for Generic]. *)
#[export] Instance rv_meta : TableMeta := {
  PAGE_SIZE := 0x1000;
  LEVEL_BITS := [9; 9; 9];
  MAX_BLOCK_LEVEL := 1%nat;
  PTE_SIZE := 8
}.

#[export] Instance rv_meta_ok : TableMetaOk.
Proof.
  split.
  - exists 12. done.
  - repeat constructor; vm_compute; done.
  - done.
  - vm_compute. done.
Qed.

(** The physical page number has 54 bits in the shifted word; the machine's
    physical addresses have 56 bits. *)
Definition rv_pa_ok (pa : Z) : Prop := (2 ^ 12 | pa) ∧ 0 ≤ pa < 2 ^ 56.
(** A block is told from a link by its permissions, so it must have one. *)
Definition rv_tmpl_ok (c : PteConfig) : Prop := read c || writable c || executable c = true.

(** The flag bits of a valid entry, before the page number is added. *)
Definition rv_flags (c : PteConfig) : Z :=
  let leaf := negb (is_dir c) || huge c in
  set_if (leaf && (writable c || dirty c)) PTE_D
    (set_if leaf PTE_A
      (set_if (leaf && global c) PTE_G
        (set_if (leaf && lower c) PTE_U
          (set_if (leaf && executable c) PTE_X
            (set_if (leaf && writable c) PTE_W
              (set_if (leaf && read c) PTE_R PTE_V)))))).

Lemma rv_from_valid c : valid c = true →
  rv_from_config c =
  Z.lor (rv_flags c) (Z.shiftl (Z.shiftr (paddr c) 12) SV39_PPN_SHIFT mod 2 ^ 64).
Proof.
  intros Hv. unfold rv_from_config, rv_flags. rewrite Hv. simpl.
  by destruct (negb (is_dir c) || huge c).
Qed.

(** The page-number field of an aligned address. *)
Lemma rv_ppn pa : rv_pa_ok pa → ∃ k, 0 ≤ k < 2 ^ 44 ∧ pa = Z.shiftl k 12 ∧
  Z.shiftl (Z.shiftr pa 12) SV39_PPN_SHIFT mod 2 ^ 64 = Z.shiftl k 10.
Proof.
  intros [[k ->] Hr]. exists k. unfold SV39_PPN_SHIFT.
  rewrite !Z.shiftl_mul_pow2, Z.shiftr_div_pow2, Z.div_mul by lia.
  split_and!; [lia..|]. rewrite Z.mod_small by lia. done.
Qed.

(** The flags are below the page number. *)
Lemma rv_flags_high c i : 10 ≤ i → Z.testbit (rv_flags c) i = false.
Proof.
  intros Hi. unfold rv_flags, PTE_D, PTE_A, PTE_G, PTE_U, PTE_X, PTE_W, PTE_R, PTE_V.
  rewrite !testbit_set_if by lia. rewrite Z.shiftl_1_l, Z.pow2_bits_eqb by lia.
  by rewrite !(proj2 (Z.eqb_neq _ i)), !andb_false_r by lia.
Qed.

Lemma rv_flag_read c k n : 0 ≤ n < 10 →
  has (Z.lor (rv_flags c) (Z.shiftl k 10)) (Z.shiftl 1 n) = Z.testbit (rv_flags c) n.
Proof.
  intros Hn. rewrite has_bit, Z.lor_spec, Z.shiftl_spec by lia.
  rewrite (Z.testbit_neg_r k) by lia. apply orb_false_r.
Qed.

(** What [to_config] reads back of a valid configuration: everything for a
    leaf, only the link for a directory; the attribute is not stored. *)
Definition rv_normal (c : PteConfig) : PteConfig :=
  let leaf := negb (is_dir c) || huge c in
  mk_PteConfig (paddr c) true (leaf && read c) (leaf && writable c) (leaf && executable c)
    (leaf && lower c) (leaf && (writable c || dirty c)) (leaf && global c) (is_dir c)
    (is_dir c && (leaf && (read c || writable c || executable c))) Normal.

Lemma rv_roundtrip c : valid c = true → rv_pa_ok (paddr c) →
  to_config (from_config c) (is_dir c) = rv_normal c.
Proof.
  intros Hv Hpa. cbn [to_config from_config rv_pte]. rewrite rv_from_valid by done.
  destruct (rv_ppn _ Hpa) as (k & Hk & Ek & ->).
  unfold rv_to_config, rv_normal, PTE_R, PTE_W, PTE_X, PTE_V, PTE_U, PTE_D, PTE_G.
  rewrite !rv_flag_read by lia. f_equal.
  { unfold SV39_PPN_SHIFT. rewrite Z.shiftr_lor, Z.shiftr_shiftl_l, Z.shiftl_0_r by lia.
    replace (Z.shiftr (rv_flags c) 10) with 0.
    - rewrite Z.lor_0_l, Z.mod_small; [done|]. rewrite Z.shiftl_mul_pow2 by lia. lia.
    - symmetry. apply Z.bits_inj'. intros i Hi. rewrite Z.shiftr_spec, Z.bits_0 by done.
      apply rv_flags_high. lia. }
  all: unfold rv_flags, PTE_D, PTE_A, PTE_G, PTE_U, PTE_X, PTE_W, PTE_R, PTE_V; bit_eval; try done.
  by destruct (is_dir c), (huge c), (read c), (writable c), (executable c).
Qed.

(** The RISC-V entry keeps what a valid configuration of a leaf or a link
    says: reading an entry back gives the address and, for a leaf, every
    permission as written (a writable leaf is also dirty), for a link no
    permission; the entry is valid. *)
Theorem riscv_entry_roundtrip c :
  valid c = true → rv_pa_ok (paddr c) →
  to_config (from_config c) (is_dir c) = rv_normal c ∧ pte_valid (from_config c) = true.
Proof.
  intros Hv Hpa. pose proof (rv_roundtrip c Hv Hpa) as H. split; [exact H|].
  exact (f_equal valid H).
Qed.

Lemma riscv_entry_roundtrip_witness :
  let c := mk_PteConfig 0x80200000 true true true false true false false false false Normal in
  to_config (from_config c) false = mk_PteConfig 0x80200000 true true true false true true false false false Normal.
Proof.
  intros c. apply (riscv_entry_roundtrip c); [reflexivity|].
  split; [exists 0x80200; reflexivity|simpl; lia].
Defined.

Lemma rv_target c pa h d : rv_pa_ok pa → (h = true → d = true ∧ rv_tmpl_ok c) →
  let g := to_config (from_config (pte_target c pa h d)) d in
  valid g = true ∧ huge g = h ∧ paddr g = pa.
Proof.
  intros Hpa Ht. pose proof (rv_roundtrip (pte_target c pa h d) eq_refl Hpa) as E.
  cbn [pte_target is_dir] in E. rewrite E. simpl. split_and!; try done.
  destruct h; [|by destruct d]. destruct Ht as [-> Hp]; [done|]. done.
Qed.

#[export] Instance rv_pte_laws : PageTableEntryLaws Entry rv_pa_ok rv_tmpl_ok.
Proof. split; try done; intros; by apply rv_target. Qed.

End Riscv.
