(* ===== verification/PteAarch64.v ===== *)
(** * The AArch64 page-table entry

    crates/someboot/src/arch/aarch64/paging/pte.rs: the entry format, declared
    with tock-registers, the table geometry, and what the format keeps of a
    configuration. [hv] is the build feature of that name. *)

From stdpp Require Import base list numbers.
From S2P Require Import Prelude PtDef PtFrame Bits Tock.
Open Scope Z_scope.

Module Aarch64.

Definition VALID : Field := mk_Field 0 1.
Definition NON_BLOCK : Field := mk_Field 1 1.
Definition MAIR : Field := mk_Field 2 3.
Definition AP_EL0 : Field := mk_Field 6 1.
Definition AP_RO : Field := mk_Field 7 1.
Definition SHAREABLE : Field := mk_Field 8 2.
Definition AF : Field := mk_Field 10 1.
Definition NG : Field := mk_Field 11 1.
Definition PHYS_ADDR : Field := mk_Field 12 36.
Definition PXN : Field := mk_Field 53 1.
Definition UXN : Field := mk_Field 54 1.

Definition SHAREABLE_NON : Z := 0.
Definition SHAREABLE_OUTER : Z := 2.

Definition Entry : Type := Z.

Section Entry.
Context `{Tock} (hv : bool).

(** The execute permissions. *)
Definition add_exec (config : PteConfig) (v : FieldValue) : FieldValue :=
  if hv then add_if (negb (executable config)) (SET PXN) v
  else if lower config then
    add_if (negb (executable config)) (SET UXN) (fv_add v (fv_add (SET AP_EL0) (SET PXN)))
  else add_if (negb (executable config)) (SET PXN) (fv_add v (SET UXN)).

Definition add_attr (a : MemAttributes) (v : FieldValue) : FieldValue :=
  match a with
  | Device => fv_add v (fv_add (val MAIR 0) (val SHAREABLE SHAREABLE_OUTER))
  | Normal => fv_add (fv_add v (val MAIR 1)) (val SHAREABLE SHAREABLE_OUTER)
  | PerCpu => fv_add (fv_add v (val MAIR 1)) (val SHAREABLE SHAREABLE_NON)
  | Uncached => fv_add v (fv_add (val MAIR 2) (val SHAREABLE SHAREABLE_OUTER))
  end.

(** [Entry::from_config]. *)
Definition a64_from_config (config : PteConfig) : Entry :=
  if negb (valid config) then 0
  else
    let v := SET VALID in
    let v := add_if (PtDef.read config) (SET AF) v in
    let v := fv_add v (Tock.val PHYS_ADDR (Z.shiftr (paddr config) 12)) in
    let v := add_if (negb (huge config)) (SET NON_BLOCK) v in
    let v := add_if (negb (writable config)) (SET AP_RO) v in
    let v := add_exec config v in
    let v := add_if (negb (global config)) (SET NG) v in
    let v := add_if (dirty config) (SET AF) v in
    fv_value (add_attr (mem_attr config) v).

(** [Entry::to_config]. *)
Definition a64_to_config (e : Entry) (dir : bool) : PteConfig :=
  let lo := is_set AP_EL0 e in
  let exec := if hv then negb (is_set PXN e)
              else if lo then negb (is_set UXN e) else negb (is_set PXN e) in
  let mair := Tock.read MAIR e in
  let attr := if mair =? 0 then Device else if mair =? 1 then Normal else if mair =? 2 then Uncached else Normal in
  let attr := if Tock.read SHAREABLE e =? SHAREABLE_OUTER then attr else PerCpu in
  mk_PteConfig (Z.shiftl (Tock.read PHYS_ADDR e) 12) (is_set VALID e) (is_set AF e) (is_set AP_RO e) exec lo
    (is_set AF e) (negb (is_set NG e)) dir (negb (is_set NON_BLOCK e)) attr.

(** [Entry::valid]. *)
Definition a64_valid (e : Entry) : bool := is_set VALID e.

#[export] Instance a64_pte : PageTableEntry Entry := {
  from_config := a64_from_config;
  to_config := a64_to_config;
  pte_valid := a64_valid;
  pte_zero := 0
}.

(** Physical addresses the format can hold. *)
Definition a64_pa_ok (pa : Z) : Prop := (2 ^ 12 | pa) ∧ 0 ≤ pa < 2 ^ 48.

(** ** Reading an entry back *)

(** The summands of the execute permissions and of the attribute. *)
Lemma read_exec f c v : field_ok f = true → apart_fields f AP_EL0 = true → apart_fields f PXN = true →
  apart_fields f UXN = true → Tock.read f (fv_value (add_exec c v)) = Tock.read f (fv_value v).
Proof.
  intros Hf H1 H2 H3. unfold add_exec. destruct hv; [by rewrite read_add_if_apart|].
  destruct (lower c); rewrite read_add_if_apart, !read_add by done; unfold SET;
  rewrite ?(read_val_apart f AP_EL0), ?(read_val_apart f PXN), ?(read_val_apart f UXN) by done; by rewrite !Z.lor_0_r.
Qed.

Lemma read_exec_here c v :
  Tock.read AP_EL0 (fv_value (add_exec c v)) = Z.lor (Tock.read AP_EL0 (fv_value v)) (Z.b2z (negb hv && lower c)) ∧
  Tock.read PXN (fv_value (add_exec c v)) =
    Z.lor (Tock.read PXN (fv_value v)) (Z.b2z ((negb hv && lower c) || negb (executable c))) ∧
  Tock.read UXN (fv_value (add_exec c v)) =
    Z.lor (Tock.read UXN (fv_value v)) (Z.b2z (negb hv && (negb (lower c) || negb (executable c)))).
Proof.
  unfold add_exec, add_if. destruct hv, (lower c), (executable c); cbn [negb andb orb Z.b2z];
  rewrite ?read_add, ?(flag_here AP_EL0), ?(flag_here PXN), ?(flag_here UXN) by done;
  rewrite ?(flag_apart AP_EL0 PXN), ?(flag_apart AP_EL0 UXN), ?(flag_apart PXN AP_EL0), ?(flag_apart PXN UXN),
    ?(flag_apart UXN AP_EL0), ?(flag_apart UXN PXN) by done;
  rewrite ?Z.lor_0_r, ?Z.lor_0_l, <- ?Z.lor_assoc; done.
Qed.

Definition mair_of (a : MemAttributes) : Z := match a with Device => 0 | Normal | PerCpu => 1 | Uncached => 2 end.
Definition share_of (a : MemAttributes) : Z := match a with PerCpu => SHAREABLE_NON | _ => SHAREABLE_OUTER end.

Lemma read_attr f a v : field_ok f = true → apart_fields f MAIR = true → apart_fields f SHAREABLE = true →
  Tock.read f (fv_value (add_attr a v)) = Tock.read f (fv_value v).
Proof.
  intros Hf H1 H2. destruct a; simpl; rewrite !read_add, (read_val_apart f MAIR), (read_val_apart f SHAREABLE) by done;
  by rewrite !Z.lor_0_r.
Qed.

Lemma read_attr_here a v :
  Tock.read MAIR (fv_value (add_attr a v)) = Z.lor (Tock.read MAIR (fv_value v)) (mair_of a) ∧
  Tock.read SHAREABLE (fv_value (add_attr a v)) = Z.lor (Tock.read SHAREABLE (fv_value v)) (share_of a).
Proof.
  destruct a; simpl; rewrite !read_add, !(read_val MAIR), !(read_val SHAREABLE),
    !(read_val_apart MAIR SHAREABLE), !(read_val_apart SHAREABLE MAIR) by (done || (simpl; lia));
  by rewrite ?Z.lor_0_r.
Qed.

(** A field of an entry: peel the sum. *)
Ltac peel :=
  repeat match goal with
  | |- context [Tock.read ?f (fv_value (add_attr ?a ?v))] =>
      first [ rewrite (read_attr f a v eq_refl eq_refl eq_refl)
            | rewrite (proj1 (read_attr_here a v)) | rewrite (proj2 (read_attr_here a v)) ]
  | |- context [Tock.read ?f (fv_value (add_exec ?c ?v))] =>
      first [ rewrite (read_exec f c v eq_refl eq_refl eq_refl eq_refl)
            | rewrite (proj1 (read_exec_here c v)) | rewrite (proj1 (proj2 (read_exec_here c v)))
            | rewrite (proj2 (proj2 (read_exec_here c v))) ]
  | |- context [Tock.read ?f (fv_value (add_if ?c (SET ?g) ?v))] =>
      first [ rewrite (read_add_if_apart f c g v eq_refl eq_refl eq_refl)
            | rewrite (read_add_if_here g c v eq_refl eq_refl) ]
  | |- context [Tock.read ?f (fv_value (SET ?g))] =>
      first [ rewrite (flag_apart f g eq_refl eq_refl eq_refl) | rewrite (flag_here g eq_refl eq_refl) ]
  | |- context [Tock.read ?f (fv_value (fv_add _ _))] => rewrite read_add
  | |- context [Tock.read ?f (fv_value (val ?g ?v))] => rewrite (read_val_apart f g v eq_refl eq_refl eq_refl)
  end;
  rewrite ?Z.lor_0_l, ?Z.lor_0_r.

(** The sum of a valid configuration. *)
Definition entry_sum (c : PteConfig) : FieldValue :=
  add_attr (mem_attr c) (add_if (dirty c) (SET AF) (add_if (negb (global c)) (SET NG) (add_exec c
    (add_if (negb (writable c)) (SET AP_RO) (add_if (negb (huge c)) (SET NON_BLOCK)
      (fv_add (add_if (PtDef.read c) (SET AF) (SET VALID)) (val PHYS_ADDR (Z.shiftr (paddr c) 12)))))))).

Lemma entry_sum_fields c : let e := fv_value (entry_sum c) in
  Tock.read VALID e = 1 ∧ Tock.read AF e = Z.lor (Z.b2z (PtDef.read c)) (Z.b2z (dirty c)) ∧
  Tock.read NON_BLOCK e = Z.b2z (negb (huge c)) ∧ Tock.read AP_RO e = Z.b2z (negb (writable c)) ∧
  Tock.read NG e = Z.b2z (negb (global c)) ∧
  Tock.read AP_EL0 e = Z.b2z (negb hv && lower c) ∧
  Tock.read PXN e = Z.b2z ((negb hv && lower c) || negb (executable c)) ∧
  Tock.read UXN e = Z.b2z (negb hv && (negb (lower c) || negb (executable c))) ∧
  Tock.read MAIR e = mair_of (mem_attr c) ∧ Tock.read SHAREABLE e = share_of (mem_attr c) ∧
  Tock.read PHYS_ADDR e = Tock.read PHYS_ADDR (fv_value (val PHYS_ADDR (Z.shiftr (paddr c) 12))).
Proof. cbv zeta. unfold entry_sum. split_and!; peel; done. Qed.

(** What [to_config] reads back of a valid configuration. *)
Definition a64_normal (c : PteConfig) : PteConfig :=
  mk_PteConfig (paddr c) true (PtDef.read c || dirty c) (negb (writable c)) (executable c)
    (negb hv && lower c) (PtDef.read c || dirty c) (global c) (is_dir c) (huge c) (mem_attr c).

Lemma a64_roundtrip c : valid c = true → a64_pa_ok (paddr c) → to_config (from_config c) (is_dir c) = a64_normal c.
Proof.
  intros Hv [[k Hk] Hr]. cbn [to_config from_config a64_pte]. unfold a64_from_config. rewrite Hv. cbn [negb].
  change (fv_value _) with (fv_value (entry_sum c)).
  destruct (entry_sum_fields c) as (E1 & E2 & E3 & E4 & E5 & E6 & E7 & E8 & E9 & E10 & E11).
  unfold a64_to_config, is_set. rewrite E1, E2, E3, E4, E5, E6, E7, E8, E9, E10, E11.
  rewrite Hk in *. change (2 ^ 12) with 4096 in *.
  rewrite Z.shiftr_div_pow2 by done. change (2 ^ 12) with 4096. rewrite Z.div_mul by lia.
  rewrite read_val by (simpl; lia). rewrite Z.shiftl_mul_pow2 by done. unfold a64_normal. rewrite Hk. f_equal.
  - by destruct (PtDef.read c), (dirty c).
  - by destruct (writable c).
  - by destruct hv, (lower c), (executable c).
  - by destruct hv, (lower c).
  - by destruct (PtDef.read c), (dirty c).
  - by destruct (global c).
  - by destruct (huge c).
  - by destruct (mem_attr c).
Qed.

(** The AArch64 entry keeps every field of a valid configuration but one.
    Reading an entry back gives the address, the execute and user permissions
    (user entries need the build without [hv]), the global flag, the kind of
    entry and the memory attribute as written; accessed and dirty share a bit;
    and [writable] comes back inverted. The entry is valid. *)
Theorem aarch64_entry_roundtrip c : valid c = true → a64_pa_ok (paddr c) →
  to_config (from_config c) (is_dir c) = a64_normal c ∧ pte_valid (from_config c) = true ∧
  writable (to_config (from_config c) (is_dir c)) = negb (writable c).
Proof.
  intros Hv Hpa. pose proof (a64_roundtrip c Hv Hpa) as E. split; [exact E|]. split.
  - exact (f_equal valid E).
  - exact (f_equal writable E).
Qed.

(** ** The format under the page-table code *)

Lemma a64_target c pa h d : a64_pa_ok pa →
  let g := to_config (from_config (pte_target c pa h d)) d in
  valid g = true ∧ huge g = h ∧ paddr g = pa.
Proof.
  intros Hpa. pose proof (a64_roundtrip (pte_target c pa h d) eq_refl Hpa) as E.
  cbn [pte_target is_dir] in E. by rewrite E.
Qed.

#[export] Instance a64_pte_laws : PageTableEntryLaws Entry a64_pa_ok (λ _, True).
Proof.
  split; try done; intros; try by apply a64_target.
  unfold pte_valid, a64_pte, a64_valid, pte_zero, is_set. by rewrite read_0.
  unfold pte_valid, a64_pte, a64_valid, is_set, from_config, a64_from_config. simpl. by rewrite read_0.
Qed.
End Entry.

(** [TableMeta for Generic]. *)
#[export] Instance a64_meta : TableMeta := {
  PAGE_SIZE := 0x1000;
  LEVEL_BITS := [9; 9; 9; 9];
  MAX_BLOCK_LEVEL := 3%nat;
  PTE_SIZE := 8
}.

#[export] Instance a64_meta_ok : TableMetaOk.
Proof.
  split.
  - exists 12. done.
  - repeat constructor; vm_compute; done.
  - done.
  - vm_compute. done.
Qed.

Lemma aarch64_entry_roundtrip_witness :
  let c := mk_PteConfig 0x40200000 true true true true false false true true true Normal in
  to_config (PageTableEntry := a64_pte false) (a64_from_config false c) true = mk_PteConfig 0x40200000 true true false true false true true true true Normal.
Proof.
  intros c. apply (aarch64_entry_roundtrip false c); [reflexivity|].
  split; [exists 0x40200; reflexivity|simpl; lia].
Defined.
End Aarch64.
