(* ===== verification/PtTable.v ===== *)
(** * Page tables: the contract of the entry points

    The abstract state of a page table is the function from virtual to
    physical addresses that [translate_phys] computes. The entry points of
    table.rs refine updates of that function: [map] sets it on the range,
    [unmap] clears it there, [deallocate] gives back every frame once. The
    theorems are proved for every entry format, geometry and frame allocator
    that satisfy the interfaces of PtDef; the witnesses run the x86_64 format on
    the boot allocator. *)

From stdpp Require Import base list numbers strings gmap.
From S2P Require Import Prelude PtDef PtFrame PtMap PtGeom PtTree PtMapProof PtUnmapProof.
Open Scope Z_scope.

Section Table.
Context {P A : Type} `{PTE : PageTableEntry P} `{TM : TableMeta} {TMO : TableMetaOk}
  `{FA : FrameAllocator A}.
Context (pa_ok : Z → Prop) (tmpl_ok : PteConfig → Prop) (live : A → Z → Prop)
  (aok : A → Prop).
Context {PL : PageTableEntryLaws P pa_ok tmpl_ok} {FL : FrameAllocatorLaws A pa_ok live aok}.

Implicit Types (s : St P A) (fs : gset Z) (root x : Z).

(** The frames below [root] are the tree [fs] and belong to the table. *)
Definition table_ok s root fs : Prop :=
  tree PT_LEVEL (mem s) root fs ∧ owned live aok s fs.

(** The abstract state. *)
Definition abs s root x : option Z := ok_opt (translate_phys (mem s) root x).

(** The addresses that differ from [v] in the bits the table translates. *)
Definition window (v x : Z) : Prop := x / table_size PT_LEVEL = v / table_size PT_LEVEL.

Definition in_range (v size x : Z) : bool := (v <=? x) && (x <? v + size).

(** The calls the contract covers: aligned, no overflow, one window, physical
    pages the entries can hold. *)
Definition map_args_ok (c : MapConfig) : Prop :=
  0 ≤ mc_vaddr c ∧ 0 < mc_size c ∧
  (PAGE_SIZE | mc_vaddr c) ∧ (PAGE_SIZE | mc_size c) ∧
  mc_vaddr c + mc_size c < 2 ^ 64 ∧ window (mc_vaddr c) (mc_vaddr c + mc_size c - 1) ∧
  pa_range_ok pa_ok (mc_paddr c) (mc_size c) ∧
  (mc_allow_huge c = true → tmpl_ok (mc_pte c)).

(** The calls of [unmap] the contract covers: the range is a union of mapped
    blocks and the end of its last root entry is an address. *)
Definition unmap_args_ok s root (v size : Z) : Prop :=
  0 ≤ v ∧ 0 < size ∧ (PAGE_SIZE | v) ∧ (PAGE_SIZE | size) ∧
  window v (v + size - 1) ∧ v + size + level_size PT_LEVEL ≤ 2 ^ 64 ∧
  full PT_LEVEL s root v (v + size).

Notation xl s root x := (translate_recursive_with_level (mem s) root x PT_LEVEL).

Lemma level_ok_top : level_ok PT_LEVEL.
Proof. pose proof level_bits_some as H. unfold level_ok, PT_LEVEL. destruct LEVEL_BITS; [done|simpl; lia]. Qed.

Lemma abs_of_xl s s' root root' x : xl s' root' x = xl s root x → abs s' root' x = abs s root x.
Proof. intros E. unfold abs, translate_phys, translate. by rewrite E. Qed.

Lemma abs_unmapped s root x : xl s root x = Err NotMapped → abs s root x = None.
Proof. intros E. unfold abs, translate_phys, translate. by rewrite E. Qed.

(** A block written by [map] translates to its physical address. *)
Lemma abs_mapped s root tmpl lo hi x y :
  mapped_as pa_ok tmpl_ok PT_LEVEL (mem s) root tmpl lo hi x y → y < 2 ^ 64 → abs s root x = Some y.
Proof.
  intros (l & base & Hx & Hl & Hb & Ht & Hy & _) Hy64. unfold abs, translate_phys, translate.
  rewrite Hx. destruct (final_entry_config pa_ok tmpl_ok tmpl base l Hb Ht (proj1 Hl)) as (_ & Hh & Hp).
  unfold config_at in Hh, Hp. unfold mbind, outcome_bind. cbv beta iota zeta. rewrite Hh, Hp.
  destruct (Nat.ltb_spec 1 l).
  - rewrite uadd_ok by lia. by rewrite Hy.
  - assert (l = 1%nat) as -> by (unfold level_ok in Hl; lia). rewrite level_size_1 in Hy.
    rewrite uadd_ok by lia. by rewrite Hy.
Qed.

Lemma validate_map_ok c :
  map_args_ok c → validate_map_config c = Ok tt.
Proof.
  intros (? & ? & ? & ? & _ & _ & (? & _) & _). pose proof PAGE_SIZE_pos. unfold validate_map_config.
  rewrite (proj2 (Z.eqb_neq _ _)) by lia.
  by rewrite !(proj2 (is_multiple_of_spec _ _ PAGE_SIZE_pos)).
Qed.

Lemma window_range_ok (v size : Z) :
  0 ≤ v → 0 < size → (PAGE_SIZE | v) → (PAGE_SIZE | size) → v + size < 2 ^ 64 →
  window v (v + size - 1) → range_ok PT_LEVEL v (v + size).
Proof.
  intros ? ? ? ? ? Hw. unfold range_ok. split_and!; try done; try lia. by apply Z.divide_add_r.
Qed.

(** What [map_range_recursive] needs and gives, at the root. *)
Lemma map_run s root fs c :
  table_ok s root fs → map_args_ok c →
  map_post pa_ok tmpl_ok live aok PT_LEVEL root
    (mk_MapRecursiveConfig (mc_vaddr c + mc_size c) (mc_allow_huge c) (mc_flush c) (mc_pte c))
    (mc_vaddr c) (mc_paddr c) s fs (map root c s).
Proof.
  intros [Ht Ho] Hc. unfold map, mbind, M_bind, lift. rewrite (validate_map_ok c Hc).
  destruct Hc as (? & ? & ? & ? & ? & Hw & Hpr & Htm). pose proof Hpr as (? & ? & ? & ?).
  unfold checked_add. rewrite !(proj2 (Z.ltb_lt _ _)) by lia.
  apply (map_range_spec pa_ok tmpl_ok live aok); [apply level_ok_top|].
  split_and!; try done; simpl; try lia.
  - by apply window_range_ok.
  - by replace (mc_vaddr c + mc_size c - mc_vaddr c) with (mc_size c) by lia.
Qed.

(** C1: [PageTableRef::map] refines the update of the translation function, for
    calls with whole pages: address and size are multiples of the page size and
    not zero, the range ends below the last address and in one window of the
    addresses the table translates, and the entries can hold the physical
    range. ([map] checks neither the size nor the window; PtWitness has what
    becomes of a size that is not a multiple.) Such a call never panics; the
    frames of the table stay a tree owned by it and the frames it adds were not
    in use; when it returns [Ok], every address of the range translates to its
    offset in the physical range, also through huge pages, and every other
    address translates as before; when it returns an error, the addresses
    outside the range translate as before. *)
Theorem map_refines s root fs c :
  table_ok s root fs → map_args_ok c →
  ∃ s' r fs', map root c s = (s', r) ∧ table_ok s' root fs' ∧ fs ⊆ fs' ∧
    (∀ q, q ∈ fs' → q ∉ fs → ¬ live (astate s) q) ∧
    match r with
    | Ok _ => ∀ x, window (mc_vaddr c) x →
        abs s' root x = if in_range (mc_vaddr c) (mc_size c) x
                        then Some (mc_paddr c + (x - mc_vaddr c)) else abs s root x
    | Err _ => ∀ x, window (mc_vaddr c) x → in_range (mc_vaddr c) (mc_size c) x = false →
        abs s' root x = abs s root x
    | Stuck => False
    end.
Proof.
  intros Hs Hc. destruct (map_run s root fs c Hs Hc) as (fs' & G & Ht & Hso & Hr).
  destruct Hc as (_ & _ & _ & _ & _ & _ & (_ & ? & ? & _) & _).
  destruct (map root c s) as [s' r]. simpl in *. exists s', r, fs'.
  split_and!; [done|split; [done|apply (gr_owned _ _ _ _ _ _ G)]|apply (gr_sub _ _ _ _ _ _ G)|
    apply (gr_fresh _ _ _ _ _ _ G)|].
  assert (Hout : ∀ x, window (mc_vaddr c) x → in_range (mc_vaddr c) (mc_size c) x = false →
    abs s' root x = abs s root x).
  { intros x Hx Hn. apply abs_of_xl, Hso; [done|]. unfold in_range in Hn.
    destruct (Z.leb_spec (mc_vaddr c) x), (Z.ltb_spec x (mc_vaddr c + mc_size c)); simpl in Hn; done || lia. }
  destruct r as [[]|e|]; [|done|done]. intros x Hx.
  destruct (in_range (mc_vaddr c) (mc_size c) x) eqn:Hi; [|by apply Hout].
  unfold in_range in Hi. bool_to_prop. destruct (Hr x) as [Hm _]; [lia|].
  eapply abs_mapped; [exact Hm|lia].
Qed.


(** [map] refuses the request [c] with the error [e] and changes nothing. *)
Definition rejected (s : St P A) (root : Z) (c : MapConfig) (e : PagingError) : Prop :=
  map root c s = (s, Err e).

(** The argument checks of [map]: each rejected call returns the error of
    the first check it fails and leaves the state as it was. *)
Theorem map_rejects s root c :
  (mc_size c = 0 → rejected s root c (InvalidSize "Size cannot be zero")) ∧
  (mc_size c ≠ 0 → ¬ (PAGE_SIZE | mc_vaddr c) →
     rejected s root c (AlignmentError "Virtual address not page aligned")) ∧
  (mc_size c ≠ 0 → (PAGE_SIZE | mc_vaddr c) → ¬ (PAGE_SIZE | mc_paddr c) →
     rejected s root c (AlignmentError "Physical address not page aligned")) ∧
  (mc_size c ≠ 0 → (PAGE_SIZE | mc_vaddr c) → (PAGE_SIZE | mc_paddr c) →
     2 ^ 64 ≤ mc_vaddr c + mc_size c ∨ 2 ^ 64 ≤ mc_paddr c + mc_size c →
     rejected s root c (AddressOverflow "Virtual or physical address overflow")).
Proof.
  unfold rejected. pose proof (is_multiple_of_spec (mc_vaddr c) PAGE_SIZE PAGE_SIZE_pos) as Hv.
  pose proof (is_multiple_of_spec (mc_paddr c) PAGE_SIZE PAGE_SIZE_pos) as Hp.
  unfold map, validate_map_config, mbind, M_bind, lift, fail, checked_add.
  destruct (Z.eqb_spec (mc_size c) 0);
    destruct (is_multiple_of (mc_vaddr c) PAGE_SIZE), (is_multiple_of (mc_paddr c) PAGE_SIZE); simpl;
    split_and!; intros; try naive_solver.
  destruct (Z.ltb_spec (mc_vaddr c + mc_size c) (2 ^ 64)), (Z.ltb_spec (mc_paddr c + mc_size c) (2 ^ 64));
    done || lia.
Qed.

Lemma unmap_run s root fs v size :
  table_ok s root fs → unmap_args_ok s root v size →
  ∃ s' fs', unmap root v size s = (s', Ok tt) ∧ table_ok s' root fs' ∧ fs' ⊆ fs ∧
    same_outside PT_LEVEL root v (v + size) s s' ∧
    (∀ x, v ≤ x < v + size → xl s' root x = Err NotMapped).
Proof.
  intros [Ht Ho] (? & ? & ? & ? & Hw & ? & Hfull). pose proof PAGE_SIZE_pos.
  pose proof (level_size_pos _ level_ok_top).
  destruct (unmap_range_spec pa_ok tmpl_ok live aok PT_LEVEL true level_ok_top root v (v + size) s fs)
    as (fs' & b & Hsh & Ht' & Hb & _ & Hso & Hu).
  { split_and!; try done; try lia. apply window_range_ok; done || lia. }
  unfold unmap, mbind, M_bind, lift, validate_unmap_params.
  rewrite (proj2 (Z.eqb_neq _ _)) by lia.
  rewrite !(proj2 (is_multiple_of_spec _ _ PAGE_SIZE_pos)) by done. simpl.
  unfold checked_add. rewrite (proj2 (Z.ltb_lt _ _)) by lia.
  destruct (unmap_range_recursive PT_LEVEL true root v (v + size) s) as [s' r]. simpl in *. subst r.
  exists s', fs'. split_and!; try done; [|by destruct Hsh].
  split; [done|]. by eapply shrinks_owned.
Qed.

(** C2: [PageTableRef::unmap] of whole pages that are a union of mapped blocks,
    in one window, and end at least the size of a root entry below the end of
    the address space (above, [unmap] overflows: PtWitness), returns [Ok],
    clears the translation of every address of the range, keeps the translation
    of every other address, and keeps the frames that are left a tree owned by
    the table; the frames it gives back were in the table. *)
Theorem unmap_refines s root fs v size :
  table_ok s root fs → unmap_args_ok s root v size →
  ∃ s' fs', unmap root v size s = (s', Ok tt) ∧ table_ok s' root fs' ∧ fs' ⊆ fs ∧
    ∀ x, window v x → abs s' root x = if in_range v size x then None else abs s root x.
Proof.
  intros Hs Hu. destruct (unmap_run s root fs v size Hs Hu) as (s' & fs' & E & Hs' & Hf & Hso & Hn).
  exists s', fs'. split_and!; try done. intros x Hx. unfold in_range.
  destruct (Z.leb_spec v x), (Z.ltb_spec x (v + size)); simpl;
    first [apply abs_of_xl, Hso; [done|lia] | apply abs_unmapped, Hn; lia].
Qed.

(** After a successful [map] the range is a union of mapped blocks. *)
Lemma map_then_full s root fs c s1 :
  table_ok s root fs → map_args_ok c → map root c s = (s1, Ok tt) →
  ∃ fs1, table_ok s1 root fs1 ∧ full PT_LEVEL s1 root (mc_vaddr c) (mc_vaddr c + mc_size c).
Proof.
  intros Hs Hc Hm. destruct (map_run s root fs c Hs Hc) as (fs1 & G & Ht & Hso & Hr).
  rewrite Hm in *. simpl in *. exists fs1. split; [split; [done|apply (gr_owned _ _ _ _ _ _ G)]|].
  intros x Hx. destruct (Hr x Hx) as [(l' & base & Hxl & _ & _ & _ & _ & ? & ?) _]. eauto.
Qed.

(** C4: mapping a range and unmapping it gives the translation function back:
    after a successful [map] of whole pages (as for [map_refines]) that end at
    least the size of a root entry below the end of the address space, [unmap]
    of the same range returns [Ok] and every address translates as before the
    two calls. Nearer to the end [unmap] panics (PtWitness). *)
Theorem map_unmap_roundtrip s root fs c s1 :
  table_ok s root fs → map_args_ok c →
  mc_vaddr c + mc_size c + level_size PT_LEVEL ≤ 2 ^ 64 →
  map root c s = (s1, Ok tt) →
  ∃ s2 fs2, unmap root (mc_vaddr c) (mc_size c) s1 = (s2, Ok tt) ∧ table_ok s2 root fs2 ∧
    ∀ x, window (mc_vaddr c) x → abs s2 root x = abs s root x.
Proof.
  intros Hs Hc Htop Hm. destruct (map_then_full s root fs c s1 Hs Hc Hm) as (fs1 & Hs1 & Hfull).
  pose proof (map_run s root fs c Hs Hc) as (_ & _ & _ & Hso & Hr).
  rewrite Hm in *. simpl in *. pose proof Hc as (? & ? & ? & ? & ? & Hw & _ & _).
  destruct (unmap_run s1 root fs1 (mc_vaddr c) (mc_size c) Hs1) as (s2 & fs2 & E & Hs2 & _ & Hso2 & Hn).
  { by split_and!. }
  exists s2, fs2. split_and!; try done. intros x Hx. apply abs_of_xl.
  destruct (decide (mc_vaddr c ≤ x < mc_vaddr c + mc_size c)) as [Hin|Hout].
  - rewrite Hn by done. symmetry. by apply Hr.
  - rewrite Hso2 by done. by apply Hso.
Qed.

(** C8: destroying a table returns [Ok] and gives every frame of its tree back
    to the allocator, each exactly once, and writes no other frame. *)
Theorem deallocate_frees_once s root fs :
  table_ok s root fs →
  ∃ s' frames, deallocate root s = (s', Ok tt) ∧ NoDup frames ∧
    (∀ q, q ∈ frames ↔ q ∈ fs) ∧ astate s' = foldl dealloc_frame (astate s) frames ∧
    (∀ q, q ∉ fs → mem s' !! q = mem s !! q).
Proof.
  intros [Ht _]. destruct (deallocate_recursive_spec PT_LEVEL level_ok_top root s fs Ht)
    as (s' & E & (frames & ? & ? & ? & ?)). by exists s', frames.
Qed.

Lemma new_table_run s :
  aok (astate s) →
  match new_table s with
  | (s', Ok root) => table_ok s' root {[root]} ∧ ¬ live (astate s) root ∧
      (∀ x, abs s' root x = None) ∧ (∀ q, q ≠ root → mem s' !! q = mem s !! q)
  | (s', Err e) => e = NoMemory ∧ mem s' = mem s
  | (_, Stuck) => False
  end.
Proof.
  intros Hok. unfold new_table, new_frame. destruct (alloc_frame (astate s)) as [a' [p|]] eqn:Ea; [|done].
  destruct (alloc_fresh _ _ _ Hok Ea) as (Hn & Hl & _).
  assert (Hp : <[p := replicate (Z.to_nat LEN) pte_zero]> (mem s) !! p =
    Some (replicate (Z.to_nat LEN) pte_zero)) by apply lookup_insert_eq.
  split_and!; [split| done | |].
  - eapply (tree_zero pa_ok tmpl_ok); [apply level_ok_top|done].
  - split; [by eapply alloc_ok|]. by intros q ->%elem_of_singleton.
  - intros x. apply abs_unmapped. eapply (entry_zero_translate pa_ok tmpl_ok); [apply level_ok_top|done|done].
  - intros q Hq. simpl. by apply lookup_insert_ne.
Qed.

(** C9: [PageTableRef::translate] on a well-formed table, for every address: it
    fails only with [NotMapped], or else it finds the valid final entry of a
    level, and returns this entry and the address in its block, at the same
    offset as the given address in a block of that level. It panics if and only
    if this sum of the entry's address and the offset is no 64-bit word.
    [translate_phys] and [is_mapped] say the same. *)
Theorem translate_is_total s root fs x :
  table_ok s root fs →
  (xl s root x = Err NotMapped ∧ translate (mem s) root x = Err NotMapped ∧
    translate_phys (mem s) root x = Err NotMapped ∧ is_mapped (mem s) root x = Ok false) ∨
  ∃ pte l, xl s root x = Ok (pte, l) ∧ (1 ≤ l ≤ PT_LEVEL)%nat ∧
    let config := to_config pte (1 <? l)%nat in
    let pa := paddr config + x mod level_size l in
    valid config = true ∧ (huge config = true ∨ l = 1%nat) ∧
    translate (mem s) root x = (if pa <? 2 ^ 64 then Ok (pa, pte) else Stuck) ∧
    translate_phys (mem s) root x = (if pa <? 2 ^ 64 then Ok pa else Stuck) ∧
    is_mapped (mem s) root x = (if pa <? 2 ^ 64 then Ok true else Stuck).
Proof.
  intros [Ht _]. destruct (translate_total PT_LEVEL (mem s) root fs x level_ok_top Ht)
    as [E|(e & l & E & [? ?] & ? & ? & Hh)].
  - left. unfold is_mapped, translate_phys, translate. by rewrite E.
  - right. exists e, l. cbv zeta. split_and!; try done.
    all: unfold is_mapped, translate_phys, translate; rewrite E; unfold mbind, outcome_bind; cbv beta iota zeta.
    all: unfold config_at in Hh; destruct Hh as [Hh | ->]; [rewrite Hh|rewrite level_size_1; destruct (huge _)];
      rewrite ?level_size_1; unfold uadd; by destruct (_ <? 2 ^ 64).
Qed.

End Table.
