(* ===== verification/BootMap.v ===== *)
(** * Sequences of mappings

    The boot code builds its page table with a sequence of [map] calls, low
    (identity) and high (kernel) addresses mixed. The table translates the low
    bits of an address only, so addresses in different windows share entries:
    a lookup depends on the address modulo the size of the table. With that,
    a sequence of successful [map] calls shows every one of its mappings at
    the end, and nothing else changes. The file ends with the address
    arithmetic of crates/someboot/src/mem/mod.rs for the kernel image. *)

From stdpp Require Import base list numbers strings gmap.
From S2P Require Import Prelude PtDef PtFrame PtMap PtGeom PtTree PtMapProof PtUnmapProof PtTable.
Open Scope Z_scope.

Section BootMap.
Context {P A : Type} `{PTE : PageTableEntry P} `{TM : TableMeta} {TMO : TableMetaOk}
  `{FA : FrameAllocator A}.
Context (pa_ok : Z → Prop) (tmpl_ok : PteConfig → Prop) (live : A → Z → Prop)
  (aok : A → Prop).
Context {PL : PageTableEntryLaws P pa_ok tmpl_ok} {FL : FrameAllocatorLaws A pa_ok live aok}.

Implicit Types (s : St P A) (fs : gset Z) (root x : Z).

(** ** Aliases *)

Definition same_low (l : nat) (v w : Z) : Prop := v mod table_size l = w mod table_size l.

Lemma mod_mul_split v a b : 0 < a → 0 < b → (v mod (a * b)) / a = (v / a) mod b.
Proof.
  intros Ha Hb. rewrite Z.rem_mul_r by lia. rewrite Z.mul_comm, Z.div_add by lia.
  rewrite (Z.div_small (v mod a)) by (apply Z.mod_pos_bound; lia). lia.
Qed.

Lemma index_alias l v w : level_ok l → same_low l v w → index v l = index w l.
Proof.
  intros Hl E. unfold same_low, table_size in E. unfold index. pose proof (level_size_pos l Hl).
  assert (0 < 2 ^ lbits l) by (apply pow2_pos; pose proof (lbits_bound l Hl); lia).
  rewrite <- !mod_mul_split by done. by rewrite E.
Qed.

Lemma divide_mod_eq v w a b : 0 < a → (a | b) → 0 < b → v mod b = w mod b → v mod a = w mod a.
Proof.
  intros Ha [k ->] Hb E. assert (0 < k) by nia. rewrite <- (Z.mod_mod_divide v (k * a) a), E by (by exists k).
  apply Z.mod_mod_divide. by exists k.
Qed.

Lemma same_low_S l v w : level_ok l → level_ok (S l) → same_low (S l) v w → same_low l v w.
Proof.
  intros Hl HS. apply divide_mod_eq; [by apply table_size_pos| |by apply table_size_pos].
  rewrite <- table_size_S by done. exists (2 ^ lbits (S l)). unfold table_size. lia.
Qed.

(** A lookup depends on the low bits of the address. *)
Lemma translate_alias l m p v w : level_ok l → same_low l v w →
  translate_recursive_with_level (P := P) m p v l = translate_recursive_with_level m p w l.
Proof.
  revert p. induction l as [|l IH]; intros p Hl E; [by destruct Hl|].
  simpl. rewrite !virt_to_index_eq, (index_alias _ v w) by done. simpl.
  destruct (entry_at m p _) as [pte|e|]; simpl; [|done|done].
  destruct (negb _); [done|]. destruct (_ || _) eqn:Eh; [done|].
  destruct l as [|l]; [done|]. simpl. apply IH; [destruct Hl; split; lia|].
  apply same_low_S; [destruct Hl; split; lia|done|done].
Qed.

Lemma translate_level l m p v pte l' : level_ok l →
  translate_recursive_with_level (P := P) m p v l = Ok (pte, l') → (1 ≤ l' ≤ l)%nat.
Proof.
  revert p. induction l as [|l IH]; intros p Hl E; [by destruct Hl|].
  simpl in E. rewrite virt_to_index_eq in E by done. simpl in E.
  destruct (entry_at m p _) as [pte'|e|]; simpl in E; [|done|done].
  destruct (negb _); [done|]. destruct (_ || _) eqn:Eh; [injection E as <- <-; lia|].
  destruct l as [|l]; [by rewrite orb_true_r in Eh|]. simpl in E. apply IH in E; [lia|destruct Hl; split; lia].
Qed.

Lemma level_divides l : (1 ≤ l)%nat → level_ok (S l) → (level_size l | level_size (S l)).
Proof.
  intros Hl HS. assert (level_ok l) by (destruct HS; split; lia).
  rewrite table_size_S by done. exists (2 ^ lbits l). unfold table_size. lia.
Qed.

Lemma level_size_divides l : level_ok l → (level_size l | table_size PT_LEVEL).
Proof.
  intros Hl. assert (Hk : ∀ k, level_ok (l + k) → (level_size l | level_size (l + k))).
  { intros k. induction k as [|k IH]; intros Hk; [by rewrite Nat.add_0_r|].
    rewrite Nat.add_succ_r in *. etrans; [apply IH; destruct Hk, Hl; split; lia|].
    apply level_divides; [destruct Hl; lia|done]. }
  specialize (Hk (PT_LEVEL - l)%nat). replace (l + (PT_LEVEL - l))%nat with PT_LEVEL in Hk by (destruct Hl; lia).
  etrans; [apply Hk, level_ok_top|]. exists (2 ^ lbits PT_LEVEL). unfold table_size. lia.
Qed.

Lemma abs_alias s root v w : same_low PT_LEVEL v w → abs s root v = abs s root w.
Proof.
  intros E. unfold abs, translate_phys, translate.
  rewrite (translate_alias PT_LEVEL _ _ v w level_ok_top E).
  destruct (translate_recursive_with_level _ _ w _) as [[pte l]|e|] eqn:Et; [|done|done]. simpl.
  pose proof (translate_level _ _ _ _ _ _ level_ok_top Et) as Hl.
  assert (Hm : ∀ l, level_ok l → v mod level_size l = w mod level_size l).
  { intros l0 Hl0. eapply divide_mod_eq; [by apply level_size_pos|by apply level_size_divides| |exact E].
    apply table_size_pos, level_ok_top. }
  rewrite (Hm l) by done. rewrite <- level_size_1, (Hm 1%nat) by apply level_ok_1. done.
Qed.

(** The address in the window of [v] that shares its entry with [x]. *)
Definition alias (v x : Z) : Z := v - v mod table_size PT_LEVEL + x mod table_size PT_LEVEL.

Lemma alias_spec v x : same_low PT_LEVEL (alias v x) x ∧ window v (alias v x).
Proof.
  pose proof (table_size_pos _ level_ok_top) as HT. unfold same_low, window, alias.
  revert HT. generalize (table_size PT_LEVEL). intros T HT.
  pose proof (Z.div_mod v T ltac:(lia)) as Hv. pose proof (Z.mod_pos_bound x T HT).
  replace (v - v mod T + x mod T) with (x mod T + v / T * T) by lia. split.
  - rewrite Z.mod_add by lia. apply Z.mod_mod. lia.
  - rewrite Z.div_add by lia. rewrite Z.div_small by lia. lia.
Qed.

(** ** Sequences *)

(** Every mapping of [l] can be read from the table. *)
Definition shows s root (l : list MapConfig) : Prop := ∀ c x, c ∈ l →
  in_range (mc_vaddr c) (mc_size c) x = true → abs s root x = Some (mc_paddr c + (x - mc_vaddr c)).

(** No mapping of [l] touches the entries of [x]. *)
Definition untouched (l : list MapConfig) x : Prop :=
  ∀ c, c ∈ l → in_range (mc_vaddr c) (mc_size c) (alias (mc_vaddr c) x) = false.

Lemma map_one s root fs c s' r : table_ok live aok s root fs → map_args_ok pa_ok tmpl_ok c →
  map root c s = (s', r) →
  (∃ fs', table_ok live aok s' root fs') ∧ r ≠ Stuck ∧
  (r = Ok tt → shows s' root [c] ∧
     ∀ x, if in_range (mc_vaddr c) (mc_size c) (alias (mc_vaddr c) x)
          then abs s root x = None else abs s' root x = abs s root x).
Proof.
  intros Hs Hc E. destruct (map_run pa_ok tmpl_ok live aok s root fs c Hs Hc) as (fs' & G & Ht & Hso & Hr).
  rewrite E in *. simpl in *. split; [exists fs'; split; [done|apply (gr_owned _ _ _ _ _ _ G)]|].
  split; [by destruct r|]. intros ->. destruct Hc as (_ & _ & _ & _ & _ & _ & (_ & ? & ? & _) & _). split.
  - intros c' x ->%list_elem_of_singleton Hx. unfold in_range in Hx. bool_to_prop.
    destruct (Hr x) as [Hm _]; [lia|]. eapply (abs_mapped pa_ok tmpl_ok); [exact Hm|lia].
  - intros x. destruct (alias_spec (mc_vaddr c) x) as [Ha Hw].
    destruct (in_range (mc_vaddr c) (mc_size c) (alias (mc_vaddr c) x)) eqn:Ei.
    + rewrite <- (abs_alias s root (alias (mc_vaddr c) x) x Ha).
      unfold in_range in Ei. bool_to_prop. apply abs_unmapped, Hr. lia.
    + rewrite <- !(abs_alias _ root (alias (mc_vaddr c) x) x Ha). apply abs_of_xl, Hso; [done|].
      intros ?. unfold in_range in Ei. rewrite (proj2 (Z.leb_le _ _)), (proj2 (Z.ltb_lt _ _)) in Ei by lia. done.
Qed.

(** A successful [map] adds its mapping to what the table shows. *)
Lemma map_shows s root fs c s' l : table_ok live aok s root fs → map_args_ok pa_ok tmpl_ok c →
  map root c s = (s', Ok tt) → shows s root l → shows s' root (c :: l).
Proof.
  intros Hs Hc E Hl. destruct (map_one _ _ _ _ _ _ Hs Hc E) as (_ & _ & Hok).
  destruct (Hok eq_refl) as [Hone Hother]. intros c' x [->|Hin]%elem_of_cons Hx.
  - apply Hone; [set_solver|done].
  - specialize (Hl c' x Hin Hx). specialize (Hother x). destruct (in_range _ _ (alias _ x)); congruence.
Qed.

(** A [map] on a mapped address fails. *)
Lemma map_conflict s root fs c x y : table_ok live aok s root fs → map_args_ok pa_ok tmpl_ok c →
  in_range (mc_vaddr c) (mc_size c) x = true → abs s root x = Some y → (map root c s).2 ≠ Ok tt.
Proof.
  intros Hs Hc Hx Hy E. destruct (map root c s) as [s' r] eqn:Em. simpl in E. subst r.
  destruct (map_run pa_ok tmpl_ok live aok s root fs c Hs Hc) as (fs' & _ & _ & _ & Hr).
  rewrite Em in Hr. simpl in Hr. unfold in_range in Hx. bool_to_prop.
  destruct (Hr x) as [_ Hn]; [lia|]. apply abs_unmapped in Hn. congruence.
Qed.

(** The code [for c in l { table.map(c)?; }]. *)
Fixpoint map_all root (l : list MapConfig) : M (St P A) PagingError unit :=
  match l with
  | [] => mret tt
  | c :: l => _ ← map root c; map_all root l
  end.

Lemma map_all_app root l1 l2 s : map_all root (l1 ++ l2) s = (_ ← map_all root l1; map_all root l2) s.
Proof.
  revert s. induction l1 as [|c l1 IH]; intros s; [done|]. simpl. unfold mbind, M_bind in *.
  destruct (map root c s) as [s1 [?|?|]]; done.
Qed.

Lemma map_all_bind_app {B} root l1 l2 (g : M (St P A) PagingError B) s :
  (_ ← map_all root (l1 ++ l2); g) s = (_ ← map_all root l1; _ ← map_all root l2; g) s.
Proof.
  unfold mbind, M_bind. rewrite map_all_app. unfold mbind, M_bind.
  by destruct (map_all root l1 s) as [s1 [?|?|]].
Qed.

Lemma map_all_spec l s root fs : table_ok live aok s root fs → Forall (map_args_ok pa_ok tmpl_ok) l →
  ∃ s' r fs', map_all root l s = (s', r) ∧ table_ok live aok s' root fs' ∧ r ≠ Stuck ∧
    (r = Ok tt → ∀ l0, shows s root l0 → shows s' root (l0 ++ l)) ∧
    (r = Ok tt → ∀ x, untouched l x → abs s' root x = abs s root x).
Proof.
  intros Hs Hl. revert s fs Hs. induction Hl as [|c l Hc Hl IH]; intros s fs Hs.
  { exists s, (Ok tt), fs. split_and!; try done. intros _ l0. by rewrite app_nil_r. }
  destruct (map root c s) as [s1 r1] eqn:E. destruct (map_one _ _ _ _ _ _ Hs Hc E) as ([fs1 Hs1] & Hr1 & H1).
  simpl. destruct r1 as [[]|e|]; [| |done].
  - destruct (IH s1 fs1 Hs1) as (s' & r & fs' & E' & Hs' & Hr & Hsh & Hun). exists s', r, fs'.
    split_and!; try done; [by erewrite bind_run by exact E| |].
    + intros -> l0 Hl0. specialize (Hsh eq_refl (c :: l0) (map_shows _ _ _ _ _ _ Hs Hc E Hl0)).
      intros c' x Hin. apply Hsh. set_solver.
    + intros -> x Hx. rewrite (Hun eq_refl); [|intros c' Hc'; apply Hx; by apply list_elem_of_further].
      destruct (H1 eq_refl) as [_ Ho]. specialize (Ho x). by rewrite (Hx c (list_elem_of_here _ _)) in Ho.
  - exists s1, (Err e), fs1. split_and!; try done. unfold mbind, M_bind. by rewrite E.
Qed.

End BootMap.

(** ** Kernel image addresses *)

(** [x as isize]. *)
Definition as_isize (x : Z) : Z := if x <? 2 ^ 63 then x else x - 2 ^ 64.

(** [(a + d) as usize] of two [isize], the sum checked. *)
Definition isize_sum {E} (a d : Z) : outcome E Z :=
  if (- 2 ^ 63 <=? a + d) && (a + d <? 2 ^ 63) then Ok ((a + d) mod 2 ^ 64) else Stuck.

(** mem/mod.rs: [__kimage_va], [__kimage_va_to_pa], with [VM_LOAD_OFFSET]. *)
Definition __kimage_va {E} (offset paddr : Z) : outcome E Z := isize_sum (as_isize paddr) (- offset).
Definition __kimage_va_to_pa {E} (offset vaddr : Z) : outcome E Z := isize_sum (as_isize vaddr) offset.

Lemma kimage_roundtrip offset kimage_start kv v : __kimage_va (E := PagingError) offset kimage_start = Ok kv →
  2 ^ 63 ≤ kv → 0 ≤ kimage_start → kimage_start + (v - kv) < 2 ^ 63 → kv ≤ v < 2 ^ 64 →
  __kimage_va_to_pa (E := PagingError) offset v = Ok (kimage_start + (v - kv)).
Proof.
  unfold __kimage_va, __kimage_va_to_pa, isize_sum, as_isize. intros E Hkv Hk Hlt Hv.
  rewrite (proj2 (Z.ltb_lt kimage_start _)) in E by lia. rewrite (proj2 (Z.ltb_ge v _)) by lia.
  destruct ((_ <=? _) && _) eqn:Eb in E; [|done]. bool_to_prop. injection E as E.
  assert (kv = kimage_start - offset + 2 ^ 64) as Ekv.
  { destruct (Z.leb_spec 0 (kimage_start + - offset)).
    - rewrite Z.mod_small in E by lia. lia.
    - rewrite <- (Z.mod_add _ 1) in E by lia. rewrite Z.mod_small in E by lia. lia. }
  rewrite (proj2 (Z.leb_le _ _)), (proj2 (Z.ltb_lt _ _)) by lia. simpl. f_equal. rewrite Z.mod_small; lia.
Qed.
