(* ===== verification/PteLoongarch.v ===== *)
(** * LoongArch: page-table entry and boot table

    crates/someboot/src/arch/loongarch64: the entry format of pte.rs, declared
    with tock-registers (a page and a block have different layouts, a link to a
    lower table is an address and nothing else), the table geometry and the
    boot table of paging.rs, and the address windows of addrspace.rs. The
    theorems show what the format keeps, and that the software can not read the
    links it writes. *)

From stdpp Require Import base list numbers strings gmap.
From S2P Require Import Prelude PtDef PtFrame PtMap PtGeom PtTree PtMapProof PtTable Bits Tock RangesExt Memory MemoryProof BootMap.
Open Scope Z_scope.

Module Loongarch.

(** [PTE]; the fields of [PTE_DIR] are the same but for those of a block. *)
Definition VALID : Field := mk_Field 0 1.
Definition DIRTY : Field := mk_Field 1 1.
Definition PLV : Field := mk_Field 2 2.
Definition CACHE : Field := mk_Field 4 2.
Definition G : Field := mk_Field 6 1.
Definition PRESENT : Field := mk_Field 7 1.
Definition WRITE : Field := mk_Field 8 1.
Definition PHYS_ADDR : Field := mk_Field 12 40.
Definition NO_READ : Field := mk_Field 61 1.
Definition NO_EXEC : Field := mk_Field 62 1.
(** [PTE_DIR]. *)
Definition H : Field := mk_Field 6 1.
Definition DIR_G : Field := mk_Field 12 1.

Definition PLV0 : Z := 0.
Definition PLV3 : Z := 3.
Definition SUC : Z := 0.
Definition CC : Z := 1.
Definition WUC : Z := 2.

Definition Entry : Type := Z.

Section Entry.
Context `{Tock}.

Definition cache_of (a : MemAttributes) : Z :=
  match a with Device => SUC | Normal | PerCpu => CC | Uncached => WUC end.
Definition plv_of (c : PteConfig) : Z := if lower c then PLV3 else PLV0.

(** What [from_huge] and [from_base] add between the valid bits and the global
    flag. *)
Definition add_common (config : PteConfig) (v : FieldValue) : FieldValue :=
  let v := add_if (negb (PtDef.read config)) (SET NO_READ) v in
  let v := add_if (writable config) (fv_add (SET WRITE) (SET DIRTY)) v in
  let v := add_if (negb (executable config)) (SET NO_EXEC) v in
  let v := fv_add v (val PLV (plv_of config)) in
  fv_add v (val PHYS_ADDR (Z.shiftr (paddr config) 12)).

Definition from_huge (config : PteConfig) : Z :=
  let v := SET H in
  let v := if valid config then fv_add (fv_add v (SET VALID)) (SET PRESENT) else v in
  let v := add_common config v in
  let v := add_if (global config) (SET DIR_G) v in
  fv_value (fv_add v (val CACHE (cache_of (mem_attr config)))).

Definition from_dir (config : PteConfig) : Z := fv_value (val PHYS_ADDR (Z.shiftr (paddr config) 12)).

Definition from_base (config : PteConfig) : Z :=
  let v := if valid config then fv_add (SET VALID) (SET PRESENT) else CLEAR VALID in
  let v := add_common config v in
  let v := add_if (global config) (SET G) v in
  fv_value (fv_add v (val CACHE (cache_of (mem_attr config)))).

(** [Entry::from_config]. *)
Definition la_from_config (config : PteConfig) : Entry :=
  if is_dir config then if huge config then from_huge config else from_dir config else from_base config.

(** [Entry::to_config]. [read_as_enum] knows the values of [CACHE] but 3. *)
Definition la_to_config (e : Entry) (dir : bool) : PteConfig :=
  let vld := is_set VALID e in
  let pa := Z.shiftl (Tock.read PHYS_ADDR e) 12 in
  let hg := if dir then is_set H e else false in
  let pa := if hg then Z.ldiff pa 0x1FFF else pa in
  let gl := if hg then is_set DIR_G e else is_set G e in
  let c := Tock.read CACHE e in
  let attr := if c =? SUC then Device else if c =? CC then Normal else if c =? WUC then Uncached else Normal in
  mk_PteConfig pa vld vld (is_set WRITE e) (negb (is_set NO_EXEC e)) (Tock.read PLV e =? PLV3)
    (is_set DIRTY e) gl dir hg attr.

(** [Entry::valid]. *)
Definition la_valid (e : Entry) : bool := is_set VALID e.

#[export] Instance la_pte : PageTableEntry Entry := {
  from_config := la_from_config;
  to_config := la_to_config;
  pte_valid := la_valid;
  pte_zero := 0
}.
End Entry.

(** [TableMeta for Generic], pages of 4 kB. *)
#[export] Instance la_meta : TableMeta := {
  PAGE_SIZE := 0x1000;
  LEVEL_BITS := [9; 9; 9; 9];
  MAX_BLOCK_LEVEL := 1%nat;
  PTE_SIZE := 8
}.

#[export] Instance la_meta_ok : TableMetaOk.
Proof.
  split.
  - exists 12. done.
  - repeat constructor; vm_compute; done.
  - done.
  - vm_compute. done.
Qed.

(** addrspace.rs: the directly mapped windows. *)
Definition PABITS : Z := 48.
Definition TO_PHYS_MASK : Z := Z.shiftl 1 PABITS - 1.
Definition UNCACHE_BASE : Z := Z.shiftl 0x8000 PABITS.
Definition CACHE_BASE : Z := Z.shiftl 0x9000 PABITS.
Definition to_phys (addr : Z) : Z := Z.land addr TO_PHYS_MASK.
Definition to_cache (addr : Z) : Z := Z.lor (to_phys addr) CACHE_BASE.
Definition to_uncache (addr : Z) : Z := Z.lor (to_phys addr) UNCACHE_BASE.

(** [Arch::_va], [Arch::_io] and [Arch::virt_to_phys]. *)
Definition la_va {E} (paddr : Z) : outcome E Z := uadd 64 paddr CACHE_BASE.
Definition la_io {E} (paddr : Z) : outcome E Z := uadd 64 paddr UNCACHE_BASE.
Definition la_virt_to_phys (vaddr : Z) : Z := to_phys vaddr.

(** ** Reading an entry back *)

Section EntryProof.
Context `{Tock}.

(** Physical addresses the format can hold; a block starts at an even page. *)
Definition la_pa_ok (pa : Z) : Prop := (2 ^ 12 | pa) ∧ 0 ≤ pa < 2 ^ 52.

Lemma if_same {A} (b : bool) (x : A) : (if b then x else x) = x.
Proof. by destruct b. Qed.

(** The fields of a sum of flags and fields. *)
Ltac sum_fields :=
  unfold add_common, CLEAR; rewrite ?read_add, ?read_add_if;
  repeat match goal with
  | |- context [Tock.read ?f (fv_value (SET ?g))] =>
      first [ rewrite (flag_apart f g eq_refl eq_refl eq_refl) | rewrite (flag_here g eq_refl eq_refl) ]
  | |- context [Tock.read ?f (fv_value (val ?g ?v))] =>
      first [ rewrite (read_val_apart f g v eq_refl eq_refl eq_refl) | rewrite (read_val f v) by (simpl; lia) ]
  | |- context [Tock.read _ (fv_value (fv_add _ _))] => rewrite read_add
  | |- context [Tock.read _ (fv_value (add_if _ _ _))] => rewrite read_add_if
  end; rewrite ?if_same, ?Z.lor_0_l, ?Z.lor_0_r.

Lemma page_fields c : valid c = true → let e := from_base c in
  Tock.read VALID e = 1 ∧ Tock.read WRITE e = (if writable c then 1 else 0) ∧
  Tock.read DIRTY e = (if writable c then 1 else 0) ∧ Tock.read NO_EXEC e = (if negb (executable c) then 1 else 0) ∧
  Tock.read PLV e = plv_of c ∧ Tock.read G e = (if global c then 1 else 0) ∧
  Tock.read CACHE e = cache_of (mem_attr c) ∧
  Tock.read PHYS_ADDR e = Tock.read PHYS_ADDR (fv_value (val PHYS_ADDR (Z.shiftr (paddr c) 12))).
Proof.
  intros Hv. cbv zeta. unfold from_base. rewrite Hv.
  assert (0 ≤ plv_of c < 4) by (unfold plv_of, PLV0, PLV3; destruct (lower c); lia).
  assert (0 ≤ cache_of (mem_attr c) < 4) by (unfold cache_of, SUC, CC, WUC; destruct (mem_attr c); lia).
  split_and!; sum_fields; done.
Qed.

(** In a block the global flag lies in the lowest bit of the page number. *)
Lemma block_fields c : valid c = true → let e := from_huge c in
  let ppn := val PHYS_ADDR (Z.shiftr (paddr c) 12) in let g := if global c then 1 else 0 in
  Tock.read VALID e = 1 ∧ Tock.read H e = 1 ∧ Tock.read WRITE e = (if writable c then 1 else 0) ∧
  Tock.read DIRTY e = (if writable c then 1 else 0) ∧ Tock.read NO_EXEC e = (if negb (executable c) then 1 else 0) ∧
  Tock.read PLV e = plv_of c ∧ Tock.read CACHE e = cache_of (mem_attr c) ∧
  Tock.read DIR_G e = Z.lor (Tock.read DIR_G (fv_value ppn)) g ∧
  Tock.read PHYS_ADDR e = Z.lor (Tock.read PHYS_ADDR (fv_value ppn)) g.
Proof.
  intros Hv. cbv zeta. unfold from_huge. rewrite Hv.
  assert (0 ≤ plv_of c < 4) by (unfold plv_of, PLV0, PLV3; destruct (lower c); lia).
  assert (0 ≤ cache_of (mem_attr c) < 4) by (unfold cache_of, SUC, CC, WUC; destruct (mem_attr c); lia).
  assert (Tock.read PHYS_ADDR (fv_value (SET DIR_G)) = 1) as Eg.
  { unfold SET. rewrite read_spec, val_value. reflexivity. }
  split_and!; sum_fields; rewrite ?Eg; done.
Qed.

Definition attr_normal (a : MemAttributes) : MemAttributes := match a with PerCpu => Normal | _ => a end.
(** What [to_config] reads back. The readable flag of a valid entry is always
    set and a writable page counts as dirty. *)
Definition la_normal (c : PteConfig) : PteConfig :=
  mk_PteConfig (paddr c) true true (writable c) (executable c) (lower c) (writable c) (global c) (is_dir c)
    (is_dir c && huge c) (attr_normal (mem_attr c)).

Lemma ppn_read pa : la_pa_ok pa → Tock.read PHYS_ADDR (fv_value (val PHYS_ADDR (Z.shiftr pa 12))) = pa / 4096 ∧
  Z.shiftl (pa / 4096) 12 = pa ∧ 0 ≤ pa / 4096 < 2 ^ 40.
Proof.
  intros [[k ->] Hr]. rewrite Z.shiftr_div_pow2, Z.shiftl_mul_pow2 by done. change (2 ^ 12) with 4096 in *.
  rewrite Z.div_mul by lia. rewrite read_val by (simpl; lia). lia.
Qed.

Lemma block_address n g : n mod 2 = 0 → g = 0 ∨ g = 1 → Z.ldiff (Z.shiftl (Z.lor n g) 12) 0x1FFF = Z.shiftl n 12.
Proof.
  intros Hn Hg. change 0x1FFF with (Z.ones 13). apply Z.bits_inj'. intros i Hi.
  rewrite Z.ldiff_spec, !Z.shiftl_spec, Z.lor_spec by done.
  destruct (decide (i < 13)).
  - rewrite Z.ones_spec_low by lia. rewrite andb_false_r.
    destruct (decide (i = 12)) as [->|]; [|by rewrite Z.testbit_neg_r by lia].
    rewrite Z.sub_diag, Z.bit0_odd. pose proof (Zmod_odd n). destruct (Z.odd n); [lia|done].
  - rewrite Z.ones_spec_high by lia. rewrite andb_true_r.
    assert (Z.testbit g (i - 12) = false) as ->; [|by rewrite orb_false_r].
    destruct Hg as [-> | ->]; [apply Z.bits_0|]. change 1 with (2 ^ 0). rewrite Z.pow2_bits_eqb by lia. lia.
Qed.

Lemma attr_back a : (if cache_of a =? SUC then Device else if cache_of a =? CC then Normal
    else if cache_of a =? WUC then Uncached else Normal) = attr_normal a.
Proof. by destruct a. Qed.

(** A page entry, and a block entry whose address is a multiple of 8 kB, read
    back as the configuration they were made from. A block at an odd page loses
    the lowest bit of its number and becomes global. *)
Theorem loongarch_entry_roundtrip c : valid c = true → is_dir c = huge c → la_pa_ok (paddr c) →
  (huge c = true → (2 ^ 13 | paddr c)) →
  to_config (from_config c) (is_dir c) = la_normal c ∧ pte_valid (from_config c) = true.
Proof.
  intros Hv Hd Hpa Ha. destruct (ppn_read _ Hpa) as (Ep & Es & Hr).
  cbn [to_config from_config pte_valid la_pte]. unfold la_from_config, la_to_config, la_valid, la_normal, is_set.
  rewrite Hd. destruct (huge c) eqn:Hh.
  - destruct (block_fields c Hv) as (E1 & E2 & E3 & E4 & E5 & E6 & E7 & E8 & E9).
    rewrite E1, E2, E3, E4, E5, E6, E7, E8, E9, Ep, attr_back. split; [|done].
    assert ((paddr c / 4096) mod 2 = 0) as Hev.
    { destruct (Ha eq_refl) as [k ->]. change (2 ^ 13) with (2 * 4096). rewrite Z.mul_assoc, Z.div_mul by lia.
      apply Z.mod_mul. lia. }
    assert (Tock.read DIR_G (fv_value (val PHYS_ADDR (Z.shiftr (paddr c) 12))) = 0) as ->.
    { rewrite <- Ep, read_spec in Hev. change (Z.ones (f_bits PHYS_ADDR)) with (Z.ones 40) in Hev.
      rewrite read_spec. change (f_offset DIR_G) with (f_offset PHYS_ADDR). change (Z.ones (f_bits DIR_G)) with (Z.ones 1).
      rewrite Z.land_ones in * by done. change (2 ^ 1) with 2. rewrite <- Hev.
      change (2 ^ 40) with (2 * 2 ^ 39). rewrite Z.rem_mul_r by lia. rewrite Z.mul_comm, Z.mod_add by lia.
      by rewrite Z.mod_mod by lia. }
    cbn [Z.lor negb Z.eqb]. rewrite block_address by (try done; destruct (global c); auto). rewrite Es.
    f_equal; unfold plv_of; by destruct (writable c), (executable c), (lower c), (global c).
  - destruct (page_fields c Hv) as (E1 & E3 & E4 & E5 & E6 & E7 & E8 & E9).
    rewrite E1, E3, E4, E5, E6, E7, E8, E9, Ep, Es, attr_back. split; [|done]. cbn [negb Z.eqb].
    f_equal; unfold plv_of; by destruct (writable c), (executable c), (lower c), (global c).
Qed.

(** A link to a lower table reads back as an invalid entry. *)
Lemma link_unread c pa : pte_valid (from_config (pte_target c pa false true)) = false.
Proof.
  cbn [from_config pte_valid la_pte]. unfold la_from_config, la_valid, from_dir, is_set. cbn [pte_target is_dir huge paddr].
  by rewrite (read_val_apart VALID PHYS_ADDR _ eq_refl eq_refl eq_refl).
Qed.
End EntryProof.

(** ** The software can not follow the links *)

Section Unread.
Context `{Tock} {A : Type} `{FA : FrameAllocator A} {pa_ok : Z → Prop} {live : A → Z → Prop} {ok : A → Prop}
  {FL : FrameAllocatorLaws A pa_ok live ok}.

Notation LM := (M (St Entry A) PagingError).

(** The frames [D] are in use and hold no valid entry. *)
Definition unread (D : gset Z) (s : St Entry A) : Prop :=
  ok (astate s) ∧ ∀ p, p ∈ D → live (astate s) p ∧
    ∃ es, mem s !! p = Some es ∧ length es = Z.to_nat LEN ∧ Forall (λ e, pte_valid e = false) es.

Lemma unread_sub D D' s : D ⊆ D' → unread D' s → unread D s.
Proof. intros HD [Ho Hs]. split; [done|]. intros p Hp. apply Hs. set_solver. Qed.

(** An action that keeps such frames so. *)
Definition keeps_unread {B} (D : gset Z) (m : LM B) : Prop := ∀ s, unread D s → unread D (m s).1.

Lemma bind_at {B C} D (m : LM B) (k : B → LM C) s :
  unread D (m s).1 → (∀ b, keeps_unread D (k b)) → unread D (mbind k m s).1.
Proof. intros Hm Hk. unfold mbind, M_bind. destruct (m s) as [s' [b|e|]]; [by apply Hk|done..]. Qed.
Lemma keeps_bind {B C} D (m : LM B) (k : B → LM C) :
  keeps_unread D m → (∀ b, keeps_unread D (k b)) → keeps_unread D (mbind k m).
Proof. intros Hm Hk s Hs. apply bind_at; auto. Qed.
Lemma keeps_lift {B} D (o : outcome PagingError B) : keeps_unread D (lift o).
Proof. by intros s Hs. Qed.
Lemma keeps_fail {B} D e : keeps_unread D (fail e : LM B).
Proof. by intros s Hs. Qed.
Lemma keeps_ret {B} D (b : B) : keeps_unread D (mret b : LM B).
Proof. by intros s Hs. Qed.
Lemma keeps_read D p i : keeps_unread D (read_entry p i).
Proof. by intros s Hs. Qed.
Lemma keeps_flush D b v : keeps_unread D (flush_if b v).
Proof. intros s Hs. by destruct b. Qed.

(** Writing elsewhere, or an invalid entry. *)
Lemma keeps_write D p i e : p ∉ D ∨ pte_valid e = false → keeps_unread D (write_entry p i e).
Proof.
  intros He s [Ho Hs]. split; unfold write_entry; destruct (mem s !! p) as [es|] eqn:Ep; try done;
    destruct (Nat.ltb _ _); try done.
  intros q Hq. destruct (Hs q Hq) as (Hl & es' & Eq & Hlen & Hall). split; [done|]. simpl.
  destruct (decide (p = q)) as [->|]; [|exists es'; by rewrite lookup_insert_ne].
  destruct He as [|He]; [done|]. simplify_eq. eexists. rewrite lookup_insert_eq. split; [done|].
  rewrite length_insert. split; [done|]. by apply Forall_insert.
Qed.

(** A new frame is none of them and is one of them. *)
Lemma new_frame_unread D s : unread D s → unread D (new_frame s).1 ∧
  ∀ c, (new_frame s).2 = Ok c → c ∉ D ∧ unread ({[c]} ∪ D) (new_frame s).1.
Proof.
  intros [Ho Hs]. unfold new_frame. destruct (alloc_frame (astate s)) as [a' [c|]] eqn:Ea; simpl.
  - destruct (alloc_fresh _ _ _ Ho Ea) as (Hn & Hl & _).
    assert (c ∉ D) as Hc by (intros Hc; apply Hn; by apply Hs).
    assert (unread ({[c]} ∪ D) (mk_St (<[c := replicate (Z.to_nat LEN) pte_zero]> (mem s)) a' (tlb s))) as Hu.
    { split; [by eapply alloc_ok|]. intros p Hp. destruct (decide (p = c)) as [->|Hpc]; simpl.
      - split; [done|]. exists (replicate (Z.to_nat LEN) pte_zero). rewrite lookup_insert_eq, length_replicate.
        split_and!; [done..|]. apply Forall_replicate. unfold pte_valid, la_pte, la_valid, is_set, pte_zero. by rewrite read_0.
      - destruct (Hs p) as (Hlp & es & Ep & Hes); [set_solver|]. split; [by eapply alloc_keeps|].
        exists es. by rewrite lookup_insert_ne by congruence. }
    split; [|intros ? [= <-]; done]. destruct Hu as [? Hu]. split; [done|]. intros p Hp. apply Hu. set_solver.
  - split; [|done]. split; [by eapply alloc_ok|]. intros p Hp. destruct (Hs p Hp) as (? & ?). split; [by eapply alloc_keeps|done].
Qed.

(** The lowest tables hold the final mappings: writing one leaves the others. *)
Lemma map_final_unread D cfg p i v pa h d : p ∉ D → keeps_unread D (map_final cfg p i v pa h d).
Proof.
  intros Hp. apply keeps_bind; [apply keeps_read|]. intros e. destruct (pte_valid e); [apply keeps_fail|].
  apply keeps_bind; [apply keeps_write; by left|]. intros _. apply keeps_flush.
Qed.

Lemma map_loop_unread D child l p cfg n v pa :
  (∀ v pa, keeps_unread D (map_step child l p cfg v pa)) → keeps_unread D (map_loop child l p cfg n v pa).
Proof.
  intros Hs. revert v pa. induction n as [|n IH]; intros v pa; simpl; destruct (_ <? _);
    try apply keeps_ret; [by intros s Hu|].
  apply keeps_bind; [apply Hs|]. intros [v' pa']. apply IH.
Qed.

(** No block above the lowest level. *)
Lemma no_blocks cfg l v pa : use_huge cfg l v pa = false.
Proof.
  unfold use_huge. change (MAX_BLOCK_LEVEL (TableMeta := la_meta)) with 1%nat.
  destruct (Nat.ltb_spec 1 l); [rewrite (proj2 (Nat.leb_gt l 1)) by lia|]; by rewrite ?andb_false_r.
Qed.

Lemma map_lowest_unread D p cfg v pa : p ∉ D → keeps_unread D (map_range_recursive 1 p cfg v pa).
Proof.
  intros Hp. apply map_loop_unread. intros v' pa'. unfold map_step. rewrite no_blocks. simpl Nat.eqb.
  apply keeps_bind; [apply keeps_lift|]. intros i. apply keeps_bind; [by apply map_final_unread|]. intros _.
  apply keeps_bind; [apply keeps_lift|]. intros ?. apply keeps_bind; [apply keeps_lift|]. intros ?. apply keeps_ret.
Qed.

(** [child_table] on an unread table always takes a new frame. *)
Lemma child_table_unread D cfg p i s : p ∈ D → unread D s → 0 ≤ i < LEN →
  unread D (child_table cfg p i s).1 ∧
  ∀ c, (child_table cfg p i s).2 = Ok c → c ∉ D ∧ unread ({[c]} ∪ D) (child_table cfg p i s).1.
Proof.
  intros Hp Hs Hi. pose proof Hs as [_ Hd]. destruct (Hd p Hp) as (_ & es & Ep & Hlen & Hall).
  destruct (lookup_lt_is_Some_2 es (Z.to_nat i)) as [e He]; [lia|].
  assert (valid (to_config e true) = false) as Hv.
  { rewrite Forall_lookup in Hall. exact (Hall _ _ He). }
  unfold child_table. rewrite (bind_run _ _ s s e) by (unfold read_entry, entry_at; by rewrite Ep; simpl; rewrite He).
  cbv zeta. rewrite Hv. destruct (new_frame_unread D s Hs) as [Hn Hc].
  unfold mbind, M_bind. destruct (new_frame s) as [s' [c|e'|]] eqn:En; [|done..]. simpl in Hn, Hc.
  destruct (Hc c eq_refl) as [HcD Hu]. set (lk := from_config _).
  assert (pte_valid lk = false) as Hlk by apply link_unread.
  pose proof (keeps_write D p i lk (or_intror Hlk) s' Hn) as H1.
  pose proof (keeps_write ({[c]} ∪ D) p i lk (or_intror Hlk) s' Hu) as H2.
  destruct (write_entry p i lk s') as [s'' [[]|?|]]; split; try done; intros ? [= <-]; done.
Qed.

(** Mapping keeps every directory unread. *)
Lemma map_range_unread l D p cfg v pa : (l ≤ PT_LEVEL)%nat → (1 < l)%nat → p ∈ D →
  keeps_unread D (map_range_recursive l p cfg v pa).
Proof.
  revert D p cfg v pa. induction l as [|l IH]; [lia|]. intros D p cfg v0 pa0 Hle Hl Hp.
  apply map_loop_unread. intros v pa s Hs. unfold map_step. rewrite no_blocks.
  assert (level_ok (S l)) as Hok by (split; lia). rewrite virt_to_index_eq by done.
  rewrite (bind_lift _ _ s (index v (S l)) eq_refl), (proj2 (Nat.eqb_neq (S l) 1)) by lia.
  destruct (child_table_unread D cfg p (index v (S l)) s Hp Hs (index_range v (S l) Hok)) as [Hct Hc].
  unfold mbind at 1, M_bind at 1.
  destruct (child_table cfg p (index v (S l)) s) as [s1 [c|e|]]; [|done..]. simpl in Hct, Hc.
  destruct (Hc c eq_refl) as [HcD Hu]. cbv zeta.
  set (cfg' := mk_MapRecursiveConfig _ _ _ _).
  assert (unread D (map_range_recursive l c cfg' v pa s1).1) as Hch.
  { destruct (decide (l = 1%nat)) as [->|]; [by apply map_lowest_unread|].
    apply (unread_sub _ ({[c]} ∪ D)); [set_solver|]. apply IH; [lia..|set_solver|done]. }
  apply bind_at; [exact Hch|]. intros _. apply keeps_bind; [apply keeps_lift|intros ?; apply keeps_ret].
Qed.

Lemma map_unread root c : keeps_unread {[root]} (map root c).
Proof.
  unfold map. apply keeps_bind; [apply keeps_lift|]. intros _.
  destruct (checked_add 64 (mc_vaddr c) (mc_size c)), (checked_add 64 (mc_paddr c) (mc_size c)); try apply keeps_fail.
  apply map_range_unread; [done|vm_compute; lia|set_solver].
Qed.

(** After any mappings in a new table, whatever they answer, [translate] finds
    no address mapped. *)
Lemma translate_unread root s v : unread {[root]} s → translate (mem s) root v = Err NotMapped.
Proof.
  intros [_ Hs]. destruct (Hs root ltac:(set_solver)) as (_ & es & Er & Hlen & Hall).
  assert (level_ok PT_LEVEL) as Hok by (split; vm_compute; lia).
  pose proof (index_range v PT_LEVEL Hok) as Hi.
  destruct (lookup_lt_is_Some_2 es (Z.to_nat (index v PT_LEVEL))) as [e He]; [lia|].
  unfold translate. rewrite (translate_at PT_LEVEL (mem s) root v es e) by done.
  assert (valid (config_at PT_LEVEL e) = false) as ->; [|done].
  rewrite Forall_lookup in Hall. exact (Hall _ _ He).
Qed.
End Unread.

(** ** paging.rs: [relocate_kernel_to_vm_code] *)

Section Boot.
Context `{Tock} `{NA : NumAlign} {NL : NumAlignLaws}.
Context (page_size kimage_start kimage_end offset : Z).

#[local] Instance la_boot_ram : FrameAllocator BootMem := Ram_FrameAllocator page_size.

Notation BM := (M (St Entry BootMem) PagingError).

(** [unwrap] of a result. *)
Definition expect {B} (m : BM B) : BM B := λ s,
  match m s with
  | (s', Err _) => (s', Stuck)
  | r => r
  end.

Definition la_ram_pte : PteConfig := mk_PteConfig 0 true true true true false false false false false Normal.

(** The mapping of the kernel image. *)
Definition map_kimage (root : Z) : BM unit :=
  v_start ← lift (__kimage_va offset kimage_start);
  v_end ← lift (uadd 64 v_start (Z.max 0 (kimage_end - kimage_start)));
  size ← lift (usub (align_up v_end (2 * 1024 * 1024)) v_start);
  expect (map root (mk_MapConfig v_start kimage_start size la_ram_pte true false)).

(** The construction of the table; its result is the root given to
    [set_boot_table]. *)
Definition relocate_kernel_to_vm_code : BM Z :=
  root ← expect new_table;
  _ ← map_kimage root;
  mret root.

Context (Hpage : page_size = 2 ^ 12).

Lemma la_boot_laws : FrameAllocatorLaws BootMem (ram_pa_ok 12) ram_live ram_ok.
Proof. unfold la_boot_ram. rewrite Hpage. apply Ram_laws. lia. Qed.

Lemma keeps_expect {B} D (m : BM B) : keeps_unread (live := ram_live) (ok := ram_ok) D m →
  keeps_unread (live := ram_live) (ok := ram_ok) D (expect m).
Proof. intros Hm s Hs. specialize (Hm s Hs). unfold expect. by destruct (m s) as [s' [?|?|]]. Qed.

Lemma keeps_map_kimage root : keeps_unread (live := ram_live) (ok := ram_ok) {[root]} (map_kimage root).
Proof.
  pose proof la_boot_laws as HL. unfold map_kimage.
  do 3 (apply keeps_bind; [apply keeps_lift|intros ?]). apply keeps_expect, map_unread.
Qed.

Lemma keeps_map_all root l : keeps_unread (live := ram_live) (ok := ram_ok) {[root]} (map_all root l).
Proof.
  pose proof la_boot_laws as HL. induction l as [|c l IH]; [apply keeps_ret|].
  apply keeps_bind; [apply map_unread|done].
Qed.

(** On LoongArch the boot table translates no address, and neither does it
    after further mappings: a link has no valid bit, which the code that walks
    tables asks for, so every walk ends at the root. *)
Theorem loongarch_table_unreadable s s' root l :
  ram_ok (astate s) → relocate_kernel_to_vm_code s = (s', Ok root) →
  ∀ v, translate (mem (map_all root l s').1) root v = Err NotMapped.
Proof.
  intros Hs E v. pose proof la_boot_laws as HL. apply (translate_unread (live := ram_live) (ok := ram_ok)).
  assert (unread (live := ram_live) (ok := ram_ok) ∅ s) as H0' by (split; [done|set_solver]).
  destruct (new_frame_unread ∅ s H0') as [_ Hn].
  unfold relocate_kernel_to_vm_code, mbind at 1, M_bind at 1, expect at 1, new_table in E.
  destruct (new_frame s) as [s0 [c|?|]]; [|done..]. destruct (Hn c eq_refl) as [_ Hu]. simpl in Hu.
  rewrite union_empty_r_L in Hu. pose proof (keeps_map_kimage c s0 Hu) as H1.
  unfold mbind, M_bind in E. destruct (map_kimage c s0) as [s1 [[]|?|]]; [|done..]. injection E as -> ->.
  by apply keeps_map_all.
Qed.
End Boot.

(** ** A small machine: the kernel image at 2 GB + 2 MB *)

Import DivAlign.

Definition la_boot0 : St Entry BootMem := mk_St ∅ (mk_BootMem 0x80300000 0x80400000 0x80300000 [] 0x80100000 0x80104000) [].
Definition la_setup0 := relocate_kernel_to_vm_code 0x1000 0x80200000 0x80300000 0x100200000 la_boot0.
(** The page behind the image. *)
Definition la_next0 : MapConfig := mk_MapConfig 0xffffffff80200000 0x80400000 0x1000 la_ram_pte true false.

Lemma loongarch_table_unreadable_witness : ∃ s' root, la_setup0 = (s', Ok root) ∧
  translate (mem (map_all (FA := Ram_FrameAllocator 0x1000) root [la_next0] s').1) root 0xffffffff80000000 = Err NotMapped.
Proof.
  exists la_setup0.1, 0x80300000.
  assert (E : la_setup0 = (la_setup0.1, Ok 0x80300000)).
  { rewrite (surjective_pairing la_setup0) at 1. apply (f_equal (pair la_setup0.1)). vm_compute. reflexivity. }
  split; [exact E|].
  apply (loongarch_table_unreadable 0x1000 0x80200000 0x80300000 0x100200000 eq_refl la_boot0); [split; simpl; lia|exact E].
Defined.

(** Because a link is not seen, the second mapping below one entry of the root
    replaces the table the first one made: mapping the page behind the image
    succeeds, and no entry of the root leads to the image any more. *)
Theorem loongarch_second_map_unlinks :
  let linked s := existsb (Z.eqb 0x80301000) (default [] (mem s !! 0x80300000)) in
  let s1 := la_setup0.1 in
  let s2 := map (H1 := Ram_FrameAllocator 0x1000) 0x80300000 la_next0 s1 in
  linked s1 = true ∧ s2.2 = Ok tt ∧ linked s2.1 = false.
Proof. vm_compute. split_and!; reflexivity. Qed.

(** An address of the directly mapped windows is translated by [virt_to_phys];
    an address of the kernel image loses its upper bits and keeps the others. *)
Lemma la_virt_to_phys_windows pa va : 0 ≤ pa < 2 ^ 48 →
  la_va (E := PagingError) pa = Ok va ∨ la_io (E := PagingError) pa = Ok va → la_virt_to_phys va = pa.
Proof.
  intros Hp Hv. unfold la_virt_to_phys, to_phys. change TO_PHYS_MASK with (Z.ones 48). rewrite Z.land_ones by done.
  unfold la_va, la_io, CACHE_BASE, UNCACHE_BASE, PABITS in Hv. rewrite !Z.shiftl_mul_pow2 in Hv by done.
  destruct Hv as [Hv|Hv]; rewrite uadd_ok in Hv by lia; injection Hv as <-; rewrite Z.mod_add by done;
  by apply Z.mod_small.
Qed.

Theorem loongarch_kimage_not_physical :
  __kimage_va (E := PagingError) 0x100200000 0x80200000 = Ok 0xffffffff80000000 ∧
  la_virt_to_phys 0xffffffff80000000 = 0xffff80000000.
Proof. split; vm_compute; reflexivity. Qed.

Lemma loongarch_entry_roundtrip_witness :
  let c := mk_PteConfig 0x40200000 true true true false false false true true true Uncached in
  to_config (la_from_config c) true = la_normal c.
Proof.
  intros c. refine (proj1 (loongarch_entry_roundtrip c eq_refl eq_refl _ _)).
  - split; [exists 0x40200; reflexivity|simpl; lia].
  - intros _. exists 0x20100. reflexivity.
Defined.
End Loongarch.
