(* ===== verification/BootX86.v ===== *)
(** * The x86_64 boot page table

    crates/someboot/src/arch/x86_64/paging.rs, [setup_page_table] and
    [virt_to_phys], with the address arithmetic of mem/mod.rs and
    arch/x86_64/mod.rs they use. The table maps every region of the memory map
    at its own address, the local APIC and the trampoline page when no region
    holds them, the kernel image at its link address and the per-CPU region at
    [PERCPU_BASE]. The statics set by the entry code (the range of the kernel
    image, its load offset), the APIC base register and the link address
    [VM_LOAD_ADDRESS], which the build generates, are parameters. *)

From stdpp Require Import base list numbers strings gmap.
From S2P Require Import Prelude PtDef PtFrame PtMap PtGeom PtTree PtMapProof PtUnmapProof PteX86 RangesExt Memory MemoryProof PtTable BootMap.
Import X86.
Open Scope Z_scope.

Definition PERCPU_BASE : Z := 0xffffff0000000000.
Definition AP_TRAMPOLINE_PADDR : Z := 0x8000.

(** arch/x86_64/mod.rs: [_percpu]. *)
Definition __percpu {E} (paddr : Z) : outcome E Z := uadd 64 paddr PERCPU_BASE.

Section X86Boot.
Context `{NA : NumAlign} {NL : NumAlignLaws}.
Context (page_size kimage_start kimage_end offset KERNEL_BASE apic_base_msr : Z).

#[local] Instance boot_ram : FrameAllocator BootMem := Ram_FrameAllocator page_size.

Notation XM := (M (St Entry BootMem) PagingError).

(** The template of a region. *)
Definition region_pte (k : MemoryType) : PteConfig :=
  mk_PteConfig 0 true true true (negb (bool_decide (k = Mmio))) false false true false false
    (if bool_decide (k = Mmio) then Device else Normal).

(** [PteConfig { valid, read, writable: true, executable, global: true,
    mem_attr, ..Default::default() }]. *)
Definition kernel_pte (exec : bool) (attr : MemAttributes) : PteConfig :=
  mk_PteConfig 0 true true true exec false false true false false attr.

Definition region_config (r : MemoryDescriptor) : MapConfig :=
  mk_MapConfig (physical_start r) (physical_start r) (align_up (size_in_bytes r) page_size)
    (region_pte (memory_type r)) true false.

(** The loop over the memory map. *)
Fixpoint map_regions (root : Z) (l : list MemoryDescriptor) : XM unit :=
  match l with
  | [] => mret tt
  | r :: l =>
      _ ← (if align_up (size_in_bytes r) page_size =? 0 then mret tt
           else map root (region_config r));
      map_regions root l
  end.

(** [memory_map().iter().any(|r| (start..end).contains(&addr))]. *)
Definition covered (m : list MemoryDescriptor) (addr : Z) : bool :=
  existsb (λ r, (physical_start r <=? addr) &&
    (addr <? saturating_add 64 (physical_start r) (size_in_bytes r))) m.

Definition page_config (addr : Z) (pte : PteConfig) : MapConfig :=
  mk_MapConfig addr addr page_size pte false false.

Definition lapic_base : Z := mask_down 64 apic_base_msr page_size.
Definition lapic_config : MapConfig := page_config lapic_base (kernel_pte false Device).
Definition trampoline_config : MapConfig := page_config AP_TRAMPOLINE_PADDR (kernel_pte true Normal).

Definition map_unless_covered (m : list MemoryDescriptor) (root : Z) (c : MapConfig) : XM unit :=
  if covered m (mc_vaddr c) then mret tt else map root c.

Definition kimage_size : Z := align_up (Z.max 0 (kimage_end - kimage_start)) (2 * 1024 * 1024).
Definition kimage_config (vaddr : Z) : MapConfig :=
  mk_MapConfig vaddr kimage_start kimage_size (kernel_pte true Normal) true false.
Definition percpu_config (b : BootMem) (vaddr : Z) : MapConfig :=
  mk_MapConfig vaddr (PERCPU_START b) (Z.max 0 (PERCPU_END b - PERCPU_START b)) (kernel_pte true PerCpu) true false.

(** [mmu::new_boot_table]. *)
Definition new_boot_table : XM Z := λ s,
  match new_table s with
  | (s', Err _) => (s', Stuck)
  | r => r
  end.

(** [setup_page_table]; its result is the root given to [set_boot_table]. The
    statics it reads are not written by the frame allocator. *)
Definition setup_page_table : XM Z :=
  s ← get;
  let m := MEMORY_MAP (astate s) in
  root ← new_boot_table;
  _ ← map_regions root m;
  _ ← map_unless_covered m root lapic_config;
  _ ← map_unless_covered m root trampoline_config;
  kv ← lift (__kimage_va offset kimage_start);
  _ ← map root (kimage_config kv);
  pv ← lift (__percpu (PERCPU_START (astate s)));
  _ ← map root (percpu_config (astate s) pv);
  mret root.

(** [virt_to_phys]. *)
Definition virt_to_phys {E} (b : BootMem) (vaddr : Z) : outcome E Z :=
  lo ← __percpu (PERCPU_START b);
  hi ← __percpu (PERCPU_END b);
  if (lo <=? vaddr) && (vaddr <? hi) then usub vaddr PERCPU_BASE
  else if KERNEL_BASE <=? vaddr then __kimage_va_to_pa offset vaddr
  else Ok vaddr.

(** ** The mappings as a list *)

Definition region_configs (m : list MemoryDescriptor) : list MapConfig :=
  region_config <$> filter (λ r, align_up (size_in_bytes r) page_size ≠ 0) m.
Definition unless_covered (m : list MemoryDescriptor) (c : MapConfig) : list MapConfig :=
  if covered m (mc_vaddr c) then [] else [c].

(** The mappings at their own address. *)
Definition identity_configs (m : list MemoryDescriptor) : list MapConfig :=
  region_configs m ++ unless_covered m lapic_config ++ unless_covered m trampoline_config.

Definition boot_configs (b : BootMem) (kv pv : Z) : list MapConfig :=
  identity_configs (MEMORY_MAP b) ++ [kimage_config kv; percpu_config b pv].

Lemma map_regions_all root l s : map_regions root l s = map_all root (region_configs l) s.
Proof.
  revert s. unfold region_configs. induction l as [|r l IH]; intros s; [done|].
  simpl map_regions. rewrite filter_cons. destruct (Z.eqb_spec (align_up (size_in_bytes r) page_size) 0) as [E|E].
  - rewrite decide_False by naive_solver. erewrite bind_run by done. apply IH.
  - rewrite decide_True by done. simpl. unfold mbind, M_bind. destruct (map root _ s) as [s1 [?|?|]]; [|done..]. apply IH.
Qed.

Lemma map_unless_covered_all m root c s : map_unless_covered m root c s = map_all root (unless_covered m c) s.
Proof.
  unfold map_unless_covered, unless_covered. destruct (covered m (mc_vaddr c)); [done|]. simpl.
  unfold mbind, M_bind. by destruct (map root c s) as [s1 [[]|?|]].
Qed.

Lemma setup_eq s s0 root kv pv :
  new_table s = (s0, Ok root) → __kimage_va (E := PagingError) offset kimage_start = Ok kv →
  __percpu (E := PagingError) (PERCPU_START (astate s)) = Ok pv →
  setup_page_table s = (_ ← map_all root (boot_configs (astate s) kv pv); mret root) s0.
Proof.
  intros E Ek Ep. unfold setup_page_table. erewrite bind_run by done.
  erewrite bind_run by (unfold new_boot_table; rewrite E; done).
  unfold boot_configs, identity_configs. rewrite <- !app_assoc, map_all_bind_app.
  apply bind_cong; [apply map_regions_all|]. intros _ s1. rewrite map_all_bind_app.
  apply bind_cong; [apply map_unless_covered_all|]. intros _ s2. rewrite map_all_bind_app.
  apply bind_cong; [apply map_unless_covered_all|]. intros _ s3.
  erewrite bind_lift by exact Ek. unfold map_all, mbind, M_bind.
  destruct (map root (kimage_config kv) s3) as [s4 [[]|?|]]; [|done..]. unfold lift. rewrite Ep.
  by destruct (map root (percpu_config _ pv) s4) as [s5 [[]|?|]].
Qed.

(** ** The table agrees with [virt_to_phys] *)

Context (Hpage : page_size = 2 ^ 12).

Lemma boot_laws : FrameAllocatorLaws BootMem x86_pa_ok ram_live ram_ok.
Proof. unfold boot_ram. rewrite Hpage. apply (Ram_laws 12). lia. Qed.

(** The address space: low memory at its own address, the kernel image above
    [KERNEL_BASE] in the upper half, the per-CPU region beside it. *)
Definition layout_ok (b : BootMem) (kv : Z) : Prop :=
  2 ^ 63 ≤ KERNEL_BASE ≤ kv ∧ kv + kimage_size ≤ 2 ^ 64 ∧
  0 ≤ kimage_start ∧ kimage_start + kimage_size ≤ 2 ^ 52 ∧
  0 ≤ PERCPU_START b ≤ PERCPU_END b ∧ PERCPU_END b + PERCPU_BASE < 2 ^ 64 ∧
  (PERCPU_END b + PERCPU_BASE ≤ kv ∨ kv + kimage_size ≤ PERCPU_START b + PERCPU_BASE) ∧
  (∀ c, c ∈ identity_configs (MEMORY_MAP b) → mc_vaddr c + mc_size c ≤ 2 ^ 47).

Lemma identity_same m c : c ∈ identity_configs m → mc_paddr c = mc_vaddr c.
Proof.
  unfold identity_configs, region_configs, unless_covered. rewrite !elem_of_app.
  intros [(r & -> & _)%list_elem_of_fmap|[Hc|Hc]]; [done|..].
  - destruct (covered _ _); [by apply not_elem_of_nil in Hc|]. by apply list_elem_of_singleton in Hc as ->.
  - destruct (covered _ _); [by apply not_elem_of_nil in Hc|]. by apply list_elem_of_singleton in Hc as ->.
Qed.

(** The software translation in the three parts of the address space. *)
Lemma virt_to_phys_percpu (b : BootMem) kv v : layout_ok b kv →
  PERCPU_START b + PERCPU_BASE ≤ v < PERCPU_END b + PERCPU_BASE →
  virt_to_phys (E := PagingError) b v = Ok (v - PERCPU_BASE).
Proof.
  intros (_ & _ & _ & _ & ? & ? & _ & _) Hv. unfold virt_to_phys, __percpu. rewrite !uadd_ok by lia. simpl.
  rewrite (proj2 (Z.leb_le _ _)), (proj2 (Z.ltb_lt _ _)) by lia. simpl. apply usub_ok. unfold PERCPU_BASE in *. lia.
Qed.

Lemma virt_to_phys_low (b : BootMem) kv v : layout_ok b kv → 0 ≤ v < 2 ^ 47 →
  virt_to_phys (E := PagingError) b v = Ok v.
Proof.
  intros (? & _ & _ & _ & ? & ? & _ & _) Hv. unfold virt_to_phys, __percpu. rewrite !uadd_ok by lia. simpl.
  rewrite (proj2 (Z.leb_gt _ v)) by (unfold PERCPU_BASE; lia). simpl.
  by rewrite (proj2 (Z.leb_gt KERNEL_BASE v)) by lia.
Qed.

Lemma virt_to_phys_kimage (b : BootMem) kv v : layout_ok b kv →
  __kimage_va (E := PagingError) offset kimage_start = Ok kv → kv ≤ v < kv + kimage_size →
  virt_to_phys (E := PagingError) b v = Ok (kimage_start + (v - kv)).
Proof.
  intros (? & ? & ? & ? & ? & ? & Hdj & _) Ek Hv. unfold virt_to_phys, __percpu. rewrite !uadd_ok by lia. simpl.
  assert ((PERCPU_START b + PERCPU_BASE <=? v) && (v <? PERCPU_END b + PERCPU_BASE) = false) as ->.
  { apply andb_false_iff. rewrite Z.leb_gt, Z.ltb_ge. lia. }
  rewrite (proj2 (Z.leb_le KERNEL_BASE v)) by lia. apply kimage_roundtrip; done || lia.
Qed.

Lemma virt_to_phys_mapping (b : BootMem) kv pv c v : layout_ok b kv →
  __kimage_va (E := PagingError) offset kimage_start = Ok kv →
  __percpu (E := PagingError) (PERCPU_START b) = Ok pv →
  Forall (map_args_ok x86_pa_ok any_template) (boot_configs b kv pv) →
  c ∈ boot_configs b kv pv → in_range (mc_vaddr c) (mc_size c) v = true →
  virt_to_phys (E := PagingError) b v = Ok (mc_paddr c + (v - mc_vaddr c)).
Proof.
  intros Hlay Ek Ep Hargs Hc Hv. unfold in_range in Hv. bool_to_prop. pose proof Hlay as (? & ? & ? & ? & ? & ? & ? & Hlow).
  pose proof (proj1 (Forall_forall _ _) Hargs _ Hc) as (Hv0 & _).
  unfold boot_configs in Hc. rewrite elem_of_app, !elem_of_cons in Hc.
  destruct Hc as [Hc|[->|[->|?%not_elem_of_nil]]]; [| | |done].
  - specialize (Hlow _ Hc). rewrite (identity_same _ _ Hc). erewrite virt_to_phys_low by (done || lia). f_equal. lia.
  - simpl in *. by eapply virt_to_phys_kimage.
  - simpl in *. unfold __percpu in Ep. rewrite uadd_ok in Ep by lia. injection Ep as <-.
    erewrite virt_to_phys_percpu by (done || lia). f_equal. lia.
Qed.

(** C5: The boot page table of x86_64 and the kernel's own [virt_to_phys]
    agree: when [setup_page_table] succeeds, every address of every mapping it
    makes (memory regions, local APIC, trampoline, kernel image, per-CPU
    region) translates in the table to the physical address [virt_to_phys]
    computes, and every other address is not mapped. It panics only when there
    is no frame for the root table. *)
Theorem x86_boot_table_agrees s kv pv :
  ram_ok (astate s) → layout_ok (astate s) kv →
  __kimage_va (E := PagingError) offset kimage_start = Ok kv →
  __percpu (E := PagingError) (PERCPU_START (astate s)) = Ok pv →
  Forall (map_args_ok x86_pa_ok any_template) (boot_configs (astate s) kv pv) →
  match setup_page_table s with
  | (s', Ok root) =>
      (∀ c v, c ∈ boot_configs (astate s) kv pv → in_range (mc_vaddr c) (mc_size c) v = true →
         ∃ p, virt_to_phys (E := PagingError) (astate s) v = Ok p ∧ abs s' root v = Some p) ∧
      (∀ v, untouched (boot_configs (astate s) kv pv) v → abs s' root v = None)
  | (_, Err _) => True
  | (_, Stuck) => (new_table s).2 = Err NoMemory
  end.
Proof.
  intros Hram Hlay Ek Ep Hargs. pose proof boot_laws as HL.
  pose proof (new_table_run x86_pa_ok any_template ram_live ram_ok s Hram) as Hnew.
  destruct (new_table s) as [s0 [root|e|]] eqn:En; [| |done].
  - erewrite setup_eq by eassumption. destruct Hnew as (Hs0 & _ & Hempty & _).
    destruct (map_all_spec x86_pa_ok any_template ram_live ram_ok _ s0 root _ Hs0 Hargs)
      as (s' & r & fs' & E & _ & Hr & Hshow & Hun).
    unfold mbind, M_bind. rewrite E. destruct r as [[]|e|]; [|done|done]. split.
    + intros c v Hc Hv. exists (mc_paddr c + (v - mc_vaddr c)). split; [by eapply virt_to_phys_mapping|].
      apply (Hshow eq_refl []); [by intros ??[]%not_elem_of_nil|done|done].
    + intros v Hv. by rewrite (Hun eq_refl v Hv).
  - destruct Hnew as [-> _]. unfold setup_page_table. erewrite bind_run by done.
    unfold mbind, M_bind, new_boot_table. rewrite En. done.
Qed.

End X86Boot.

(** ** A small machine *)

Import DivAlign.

(** 16 MB of memory, the kernel image in its third megabyte, per-CPU memory
    above, the rest of the low memory reserved. *)
Definition small_boot : BootMem :=
  mk_BootMem 0x1000000 0x2000000 0x1000000
    [mk_MemoryDescriptor 0 0x200000 Reserved; mk_MemoryDescriptor 0x200000 0x100000 KImage;
     mk_MemoryDescriptor 0x300000 0x1d00000 Free]
    0x3000000 0x3004000.
Definition small_state : St Entry BootMem := mk_St ∅ small_boot [].
Definition small_setup := setup_page_table 0x1000 0x200000 0x300000 0x80000000 0xfee00900 small_state.

Lemma small_args : Forall (map_args_ok x86_pa_ok any_template)
  (boot_configs 0x1000 0x200000 0x300000 0xfee00900 small_boot 0xffffffff80200000 0xffffff0003000000).
Proof.
  assert (boot_configs 0x1000 0x200000 0x300000 0xfee00900 small_boot 0xffffffff80200000 0xffffff0003000000 =
    [mk_MapConfig 0 0 0x200000 (region_pte Reserved) true false;
     mk_MapConfig 0x200000 0x200000 0x100000 (region_pte KImage) true false;
     mk_MapConfig 0x300000 0x300000 0x1d00000 (region_pte Free) true false;
     mk_MapConfig 0xfee00000 0xfee00000 0x1000 (kernel_pte false Device) false false;
     mk_MapConfig 0xffffffff80200000 0x200000 0x200000 (kernel_pte true Normal) true false;
     mk_MapConfig 0xffffff0003000000 0x3000000 0x4000 (kernel_pte true PerCpu) true false]) as ->
    by (vm_compute; reflexivity).
  repeat (apply Forall_cons; split); [..|by apply Forall_nil].
  all: unfold map_args_ok, pa_range_ok, window; cbn [mc_vaddr mc_paddr mc_size mc_allow_huge mc_pte].
  all: split_and!; try lia; try (by apply Z.mod_divide); try done.
  all: intros y Hy Hd; split; [exact Hd|lia].
Qed.

Lemma small_layout : layout_ok 0x1000 0x200000 0x300000 0xffffffff80000000 0xfee00900 small_boot 0xffffffff80200000.
Proof.
  unfold layout_ok, PERCPU_BASE. change (kimage_size 0x200000 0x300000) with 0x200000.
  split_and!; simpl; try lia. intros c Hc. apply list_elem_of_In in Hc.
  vm_compute in Hc. destruct Hc as [<-|[<-|[<-|[<-|[]]]]]; simpl; lia.
Qed.

(** The first address of the kernel image in the table of the small machine. *)
Lemma x86_boot_table_agrees_witness :
  ∃ s' root p, small_setup = (s', Ok root) ∧
    virt_to_phys (E := PagingError) 0x80000000 0xffffffff80000000 small_boot 0xffffffff80200000 = Ok p ∧
    @abs _ _ _ _ s' root 0xffffffff80200000 = Some p.
Proof.
  pose proof (x86_boot_table_agrees 0x1000 0x200000 0x300000 0x80000000 0xffffffff80000000 0xfee00900
    eq_refl small_state 0xffffffff80200000 0xffffff0003000000 ltac:(split; simpl; lia) small_layout
    ltac:(vm_compute; reflexivity) ltac:(vm_compute; reflexivity) small_args) as H.
  change (setup_page_table 4096 2097152 3145728 2147483648 4276095232 small_state) with small_setup in H.
  assert (E : ∃ s' root, small_setup = (s', Ok root)).
  { exists small_setup.1, 0x1000000. rewrite (surjective_pairing small_setup) at 1.
    apply (f_equal (pair small_setup.1)). vm_compute. reflexivity. }
  destruct E as (s' & root & E). rewrite E in H. destruct H as [H _].
  destruct (H (kimage_config 0x200000 0x300000 0xffffffff80200000) 0xffffffff80200000) as (p & Hp & Ha).
  - unfold boot_configs. apply elem_of_app. right. apply list_elem_of_here.
  - reflexivity.
  - exists s', root, p. split; [exact E|]. split; [exact Hp|exact Ha].
Defined.
