(* ===== verification/X86Smp.v ===== *)
(** * Starting the other processors of x86_64
    crates/someboot/src/arch/x86_64/power.rs: the trampoline that takes a
    processor from real mode to the kernel's entry, as a program of a small
    machine; the fields of it that the first processor fills in; and the
    interrupts between processors that start it, with the wait for its answer. *)

From stdpp Require Import base tactics option list numbers functions gmap.
From S2P Require Import Prelude Bytes PerCpuAlloc Timer SysTimer Once X86Timer TimerWitness BootMap BootX86.
Open Scope Z_scope.

Definition AP_TRAMPOLINE_VECTOR : Z := Z.shiftr AP_TRAMPOLINE_PADDR 12 mod 256.
Definition AP_TRAMPOLINE_SIZE : Z := 0x1000.
Definition AP_START_TIMEOUT_US : Z := 500000.
Definition LAPIC_REG_ESR : Z := 0x280.
Definition LAPIC_REG_ICR_LOW : Z := 0x300.
Definition LAPIC_REG_ICR_HIGH : Z := 0x310.
Definition ICR_INIT_ASSERT : Z := 0xc500.
Definition ICR_INIT_DEASSERT : Z := 0x8500.
Definition ICR_STARTUP_BASE : Z := 0x4600.

(** ** Memory in bytes *)
Definition put_bytes (a : Z) (bs : list Z) (m : Z → Z) : Z → Z := λ x,
  if (a <=? x) && (x <? a + Z.of_nat (length bs)) then default 0 (bs !! Z.to_nat (x - a)) else m x.
Definition get_bytes (a : Z) (n : nat) (m : Z → Z) : list Z := (λ i, m (a + Z.of_nat i)) <$> seq 0 n.
Definition load (n : nat) (a : Z) (m : Z → Z) : Z := le_word (get_bytes a n m).

(** ** The fields of the trampoline *)

(** The addresses of the symbols. *)
Record Symbols : Type := mk_Symbols {
  ap_trampoline_start : Z; ap_trampoline_end : Z;
  ap_long_mode : Z; ap_gdt : Z; ap_gdt_ptr_base : Z; ap_ljmp_ptr_offset : Z;
  ap_trampoline_cr3 : Z; ap_trampoline_stack : Z; ap_trampoline_arg : Z; ap_trampoline_entry : Z
}.

Section Prepare.
Context (sy : Symbols).

Definition sym_offset (sym : Z) : outcome Empty_set Z := usub sym (ap_trampoline_start sy).
Definition write_u32 (base offset value : Z) (m : Z → Z) : outcome Empty_set (Z → Z) :=
  a ← uadd 64 base offset; Ok (put_bytes a (le_bytes 4 value) m).
Definition write_u64 (base offset value : Z) (m : Z → Z) : outcome Empty_set (Z → Z) :=
  a ← uadd 64 base offset; Ok (put_bytes a (le_bytes 8 value) m).

Definition prepare_trampoline (cr3 stack arg entry : Z) (m : Z → Z) : outcome Empty_set (Z → Z) :=
  len ← usub (ap_trampoline_end sy) (ap_trampoline_start sy);
  if AP_TRAMPOLINE_SIZE <? len then Stuck
  else
    let dst := AP_TRAMPOLINE_PADDR in
    let m := put_bytes dst (get_bytes (ap_trampoline_start sy) (Z.to_nat len) m) m in
    g ← sym_offset (ap_gdt sy);
    gdt_base ← uadd 64 AP_TRAMPOLINE_PADDR g;
    l ← sym_offset (ap_long_mode sy);
    long_mode ← uadd 64 AP_TRAMPOLINE_PADDR l;
    o ← sym_offset (ap_gdt_ptr_base sy); m ← write_u32 dst o (gdt_base mod 2 ^ 32) m;
    o ← sym_offset (ap_ljmp_ptr_offset sy); m ← write_u32 dst o (long_mode mod 2 ^ 32) m;
    o ← sym_offset (ap_trampoline_cr3 sy); m ← write_u64 dst o cr3 m;
    o ← sym_offset (ap_trampoline_stack sy); m ← write_u64 dst o stack m;
    o ← sym_offset (ap_trampoline_arg sy); m ← write_u64 dst o arg m;
    o ← sym_offset (ap_trampoline_entry sy); write_u64 dst o entry m.
End Prepare.

(** ** The trampoline *)

(** The instructions it uses, named as in the source; [disp] is the
    displacement from the start of the segment [ds], [sym] a symbol. *)
Inductive Seg : Type := DS | ES | SS | FS | GS.
Inductive ApInstr : Type :=
| Cli | Cld
| MovwCsAx | MovwAxSeg (s : Seg) | MovwAx (imm : Z) | MovwSp (imm : Z)
| Lgdt (disp : Z)
| MovlCr4Eax | MovlEaxCr4 | MovlCr0Eax | MovlEaxCr0 | MovlEaxCr3
| OrlEax (imm : Z) | MovlEcx (imm : Z) | MovlMemEax (disp : Z)
| Rdmsr | Wrmsr
| LjmplMem (disp : Z)
| MovqRipRsp (sym : Z) | MovqRipRdi (sym : Z) | MovqRipRax (sym : Z)
| JmpRax.

Section Code.
Context (sy : Symbols).
(** [ljmp_ptr] is at the field for the offset, [gdt_ptr] two bytes before the
    one for the base. *)
Definition ap_ljmp_ptr : Z := ap_ljmp_ptr_offset sy.
Definition ap_gdt_ptr : Z := ap_gdt_ptr_base sy - 2.
Notation rel sym := (sym - ap_trampoline_start sy).

Definition code16 : list ApInstr :=
  [Cli; Cld; MovwCsAx; MovwAxSeg DS; MovwAxSeg SS; MovwSp 0x7000; Lgdt (rel ap_gdt_ptr);
   MovlCr4Eax; OrlEax 0x20; MovlEaxCr4; MovlMemEax (rel (ap_trampoline_cr3 sy)); MovlEaxCr3;
   MovlEcx 0xc0000080; Rdmsr; OrlEax 0x100; Wrmsr; MovlCr0Eax; OrlEax 0x80000001; MovlEaxCr0; LjmplMem (rel ap_ljmp_ptr)].
(** From [__x86_ap_long_mode]. *)
Definition code64 : list ApInstr :=
  [MovwAx 0x10; MovwAxSeg DS; MovwAxSeg ES; MovwAxSeg SS; MovwAxSeg FS; MovwAxSeg GS;
   MovqRipRsp (ap_trampoline_stack sy); MovqRipRdi (ap_trampoline_arg sy); MovqRipRax (ap_trampoline_entry sy); JmpRax].
End Code.

(** *** The processor that runs it *)
Record Ap : Type := mk_Ap {
  rax : Z; rcx : Z; rdx : Z; rsp : Z; rdi : Z;
  cs : Z; sel : Seg → Z; ds_base : Z; cs_long : bool;
  gdt_limit : Z; gdt_base : Z;
  cr0 : Z; cr3 : Z; cr4 : Z; efer : Z; int_enabled : bool
}.

Section Run.
(** What a page table maps an address to, the memory, the symbols, and where
    the code from [__x86_ap_long_mode] on runs. *)
Context (translate : Z → Z → option Z) (m : Z → Z) (sy : Symbols) (long_at : Z).

Definition paging (c : Ap) : bool := Z.testbit (cr0 c) 31.
Definition protected (c : Ap) : bool := Z.testbit (cr0 c) 0.
(** Long mode is active. *)
Definition lma (c : Ap) : bool := paging c && Z.testbit (efer c) 8 && Z.testbit (cr4 c) 5.
Definition phys (c : Ap) (a : Z) : option Z := if paging c then translate (cr3 c) a else Some a.
Definition ld (n : nat) (a : Z) (c : Ap) : option Z := p ← phys c a; Some (load n p m).

Definition low (w old x : Z) : Z := Z.lor (Z.land old (unot 64 (2 ^ w - 1))) (x mod 2 ^ w).

(** The descriptor of a selector in the table of descriptors. *)
Definition descriptor (s : Z) (c : Ap) : option Z :=
  if (Z.land s 7 =? 0) && (0 <? s) && (s + 7 <=? gdt_limit c) then ld 8 (gdt_base c + s) c else None.
Definition d_present (d : Z) : bool := Z.testbit d 47 && Z.testbit d 44.
Definition d_code (d : Z) : bool := Z.testbit d 43.
Definition d_write (d : Z) : bool := Z.testbit d 41.
Definition d_long (d : Z) : bool := Z.testbit d 53.

Inductive Flow : Type := Go (c : Ap) | To (a : Z) (c : Ap) | Fault.
Definition go (o : option Ap) : Flow := match o with Some c => Go c | None => Fault end.

Definition set_rax (x : Z) (c : Ap) : Ap :=
  mk_Ap x (rcx c) (rdx c) (rsp c) (rdi c) (cs c) (sel c) (ds_base c) (cs_long c) (gdt_limit c) (gdt_base c) (cr0 c) (cr3 c) (cr4 c) (efer c) (int_enabled c).
Definition set_rcx (x : Z) (c : Ap) : Ap :=
  mk_Ap (rax c) x (rdx c) (rsp c) (rdi c) (cs c) (sel c) (ds_base c) (cs_long c) (gdt_limit c) (gdt_base c) (cr0 c) (cr3 c) (cr4 c) (efer c) (int_enabled c).
Definition set_rdx (x : Z) (c : Ap) : Ap :=
  mk_Ap (rax c) (rcx c) x (rsp c) (rdi c) (cs c) (sel c) (ds_base c) (cs_long c) (gdt_limit c) (gdt_base c) (cr0 c) (cr3 c) (cr4 c) (efer c) (int_enabled c).
Definition set_rsp (x : Z) (c : Ap) : Ap :=
  mk_Ap (rax c) (rcx c) (rdx c) x (rdi c) (cs c) (sel c) (ds_base c) (cs_long c) (gdt_limit c) (gdt_base c) (cr0 c) (cr3 c) (cr4 c) (efer c) (int_enabled c).
Definition set_rdi (x : Z) (c : Ap) : Ap :=
  mk_Ap (rax c) (rcx c) (rdx c) (rsp c) x (cs c) (sel c) (ds_base c) (cs_long c) (gdt_limit c) (gdt_base c) (cr0 c) (cr3 c) (cr4 c) (efer c) (int_enabled c).
Definition set_cs (x : Z) (l : bool) (c : Ap) : Ap :=
  mk_Ap (rax c) (rcx c) (rdx c) (rsp c) (rdi c) x (sel c) (ds_base c) l (gdt_limit c) (gdt_base c) (cr0 c) (cr3 c) (cr4 c) (efer c) (int_enabled c).
Definition set_seg (s : Seg) (x base : Z) (c : Ap) : Ap :=
  mk_Ap (rax c) (rcx c) (rdx c) (rsp c) (rdi c) (cs c)
    (λ t, match s, t with DS, DS | ES, ES | SS, SS | FS, FS | GS, GS => x | _, _ => sel c t end)
    (match s with DS => base | _ => ds_base c end) (cs_long c) (gdt_limit c) (gdt_base c) (cr0 c) (cr3 c) (cr4 c) (efer c) (int_enabled c).
Definition set_gdt (limit base : Z) (c : Ap) : Ap :=
  mk_Ap (rax c) (rcx c) (rdx c) (rsp c) (rdi c) (cs c) (sel c) (ds_base c) (cs_long c) limit base (cr0 c) (cr3 c) (cr4 c) (efer c) (int_enabled c).
Definition set_control (c0 c3 c4 ef : Z) (c : Ap) : Ap :=
  mk_Ap (rax c) (rcx c) (rdx c) (rsp c) (rdi c) (cs c) (sel c) (ds_base c) (cs_long c) (gdt_limit c) (gdt_base c) c0 c3 c4 ef (int_enabled c).
Definition set_int (b : bool) (c : Ap) : Ap :=
  mk_Ap (rax c) (rcx c) (rdx c) (rsp c) (rdi c) (cs c) (sel c) (ds_base c) (cs_long c) (gdt_limit c) (gdt_base c) (cr0 c) (cr3 c) (cr4 c) (efer c) b.

(** An address relative to the instruction pointer. *)
Definition rip_rel (sym : Z) : Z := long_at + (sym - ap_long_mode sy).
(** 64-bit code. *)
Definition in_long (c : Ap) : bool := lma c && cs_long c.

Definition step_ap (i : ApInstr) (c : Ap) : Flow :=
  match i with
  | Cli => Go (set_int false c)
  | Cld => Go c
  | MovwCsAx => Go (set_rax (low 16 (rax c) (cs c)) c)
  | MovwAx imm => Go (set_rax (low 16 (rax c) imm) c)
  | MovwSp imm => Go (set_rsp (low 16 (rsp c) imm) c)
  | MovwAxSeg s =>
      let x := rax c mod 2 ^ 16 in
      if protected c then go (d ← descriptor x c; if d_present d && negb (d_code d) && d_write d then Some (set_seg s x 0 c) else None)
      else Go (set_seg s x (16 * x) c)
  | Lgdt disp => go (limit ← ld 2 (ds_base c + disp) c; base ← ld 3 (ds_base c + disp + 2) c; Some (set_gdt limit base c))
  | MovlCr4Eax => Go (set_rax (cr4 c) c)
  | MovlEaxCr4 => Go (set_control (cr0 c) (cr3 c) (rax c) (efer c) c)
  | MovlCr0Eax => Go (set_rax (cr0 c) c)
  | MovlEaxCr0 =>
      let c' := set_control (rax c) (cr3 c) (cr4 c) (efer c) c in
      if paging c' && (negb (protected c') || Z.testbit (efer c) 8 && negb (Z.testbit (cr4 c) 5)) then Fault else Go c'
  | MovlEaxCr3 => Go (set_control (cr0 c) (rax c) (cr4 c) (efer c) c)
  | OrlEax imm => Go (set_rax (Z.lor (rax c mod 2 ^ 32) imm) c)
  | MovlEcx imm => Go (set_rcx imm c)
  | MovlMemEax disp => go (x ← ld 4 (ds_base c + disp) c; Some (set_rax x c))
  | Rdmsr => if rcx c =? IA32_EFER then Go (set_rdx (efer c / 2 ^ 32) (set_rax (efer c mod 2 ^ 32) c)) else Fault
  | Wrmsr => if rcx c =? IA32_EFER then Go (set_control (cr0 c) (cr3 c) (cr4 c) (rdx c mod 2 ^ 32 * 2 ^ 32 + rax c mod 2 ^ 32) c) else Fault
  | LjmplMem disp =>
      match (a ← ld 4 (ds_base c + disp) c; s ← ld 2 (ds_base c + disp + 4) c; d ← descriptor s c; Some (a, s, d)) with
      | Some (a, s, d) => if protected c && d_present d && d_code d then To a (set_cs s (d_long d) c) else Fault
      | None => Fault
      end
  | MovqRipRsp sym => if in_long c then go (x ← ld 8 (rip_rel sym) c; Some (set_rsp x c)) else Fault
  | MovqRipRdi sym => if in_long c then go (x ← ld 8 (rip_rel sym) c; Some (set_rdi x c)) else Fault
  | MovqRipRax sym => if in_long c then go (x ← ld 8 (rip_rel sym) c; Some (set_rax x c)) else Fault
  | JmpRax => if in_long c then To (rax c) c else Fault
  end.

(** Instructions are fetched from the page of the trampoline. *)
Definition fetched (c : Ap) : bool := bool_decide (phys c AP_TRAMPOLINE_PADDR = Some AP_TRAMPOLINE_PADDR).

Fixpoint run_ap (l : list ApInstr) (c : Ap) : Flow :=
  match l with
  | [] => Fault
  | i :: l =>
      if fetched c then match step_ap i c with Go c => run_ap l c | r => r end else Fault
  end.
End Run.

(** The startup interrupt: real mode at the start of page [vector], after an
    initialisation that keeps two bits of [cr0]. *)
Definition after_startup (vector cache : Z) : Ap :=
  mk_Ap 0 0 0 0 0 (vector * 256) (λ _, 0) 0 false 0 0 (0x10 + cache) 0 0 0 false.

(** From the startup interrupt to the jump out of the trampoline. *)
Definition ap_boot (translate : Z → Z → option Z) (m : Z → Z) (sy : Symbols) (vector cache : Z) : Flow :=
  let c := after_startup vector cache in
  if 16 * cs c =? AP_TRAMPOLINE_PADDR then
    match run_ap translate m sy 0 (code16 sy) c with
    | To a c =>
        if in_long c && (a =? AP_TRAMPOLINE_PADDR + (ap_long_mode sy - ap_trampoline_start sy))
        then run_ap translate m sy a (code64 sy) c else Fault
    | _ => Fault
    end
  else Fault.

(** ** Reading what was written *)

Lemma length_get_bytes a n m : length (get_bytes a n m) = n.
Proof. unfold get_bytes. by rewrite length_fmap, length_seq. Qed.

Lemma get_bytes_ext a a' n m m' : (∀ i, (i < n)%nat → m (a + Z.of_nat i) = m' (a' + Z.of_nat i)) → get_bytes a n m = get_bytes a' n m'.
Proof. intros H. unfold get_bytes. apply list_fmap_ext. intros i x [-> Hi]%lookup_seq. by apply H. Qed.

Lemma put_bytes_out a bs m x : x < a ∨ a + Z.of_nat (length bs) ≤ x → put_bytes a bs m x = m x.
Proof.
  intros H. unfold put_bytes. destruct (Z.leb_spec a x), (Z.ltb_spec x (a + Z.of_nat (length bs))); simpl; (done || lia).
Qed.

Lemma load_other n a b bs m : a + Z.of_nat n ≤ b ∨ b + Z.of_nat (length bs) ≤ a → load n a (put_bytes b bs m) = load n a m.
Proof.
  intros H. unfold load. f_equal. apply get_bytes_ext. intros i Hi. apply put_bytes_out. lia.
Qed.

Lemma read_write a bs m n : (n ≤ length bs)%nat → get_bytes a n (put_bytes a bs m) = take n bs.
Proof.
  intros Hn. apply list_eq. intros i. unfold get_bytes. rewrite list_lookup_fmap. destruct (decide (i < n)%nat) as [Hi|Hi].
  - rewrite lookup_seq_lt by done. simpl. rewrite lookup_take_lt by done. unfold put_bytes.
    rewrite (proj2 (Z.leb_le _ _)), (proj2 (Z.ltb_lt _ _)) by lia. simpl. replace (Z.to_nat (a + Z.of_nat i - a)) with i by lia.
    destruct (lookup_lt_is_Some_2 bs i ltac:(lia)) as [x Hx]. by rewrite Hx.
  - rewrite lookup_seq_ge by lia. rewrite lookup_take_ge by lia. done.
Qed.

Lemma le_word_take n k v : (k ≤ n)%nat → 0 ≤ v < 256 ^ Z.of_nat k → le_word (take k (le_bytes n v)) = v.
Proof.
  revert n v. induction k as [|k IH]; intros n v Hk Hv.
  { change (256 ^ Z.of_nat 0) with 1 in Hv. simpl. lia. }
  destruct n as [|n]; [lia|]. simpl.
  rewrite Nat2Z.inj_succ, Z.pow_succ_r in Hv by lia.
  rewrite IH; [|lia|split; [apply Z.div_pos; lia|apply Z.div_lt_upper_bound; lia]]. pose proof (Z.div_mod v 256). lia.
Qed.

(** The low bytes of a word that has just been written. *)
Lemma load_same n k a v m : (k ≤ n)%nat → 0 ≤ v < 256 ^ Z.of_nat k → load k a (put_bytes a (le_bytes n v) m) = v.
Proof. intros Hk Hv. unfold load. rewrite read_write by (by rewrite length_le_bytes). by apply le_word_take. Qed.

Lemma load_copy n dst src len o m : 0 ≤ o → o + Z.of_nat n ≤ Z.of_nat len →
  load n (dst + o) (put_bytes dst (get_bytes src len m) m) = load n (src + o) m.
Proof.
  intros Ho Hn. unfold load. f_equal. apply get_bytes_ext. intros i Hi. unfold put_bytes. rewrite length_get_bytes.
  rewrite (proj2 (Z.leb_le _ _)), (proj2 (Z.ltb_lt _ _)) by lia. simpl.
  unfold get_bytes. rewrite list_lookup_fmap, lookup_seq_lt by lia. simpl. f_equal. lia.
Qed.

(** ** The trampoline works *)

Lemma low_mod w old x : 0 ≤ w < 64 → 0 ≤ x < 2 ^ w → low w old x mod 2 ^ w = x.
Proof.
  intros Hw Hx. unfold low, unot. rewrite (Z.mod_small x) by done. rewrite <- Z.land_ones by lia.
  rewrite (Z.land_comm old), Z.land_lor_distr_l, <- Z.land_assoc, (Z.land_comm old), Z.land_assoc.
  assert (Z.land (2 ^ 64 - 1 - (2 ^ w - 1)) (Z.ones w) = 0) as ->.
  { rewrite Z.land_ones by lia. replace (2 ^ 64 - 1 - (2 ^ w - 1)) with ((2 ^ (64 - w) - 1) * 2 ^ w); [apply Z.mod_mul; lia|].
    rewrite Z.mul_sub_distr_r, <- Z.pow_add_r by lia. replace (64 - w + w) with 64 by lia. lia. }
  rewrite Z.land_0_l, Z.lor_0_l. rewrite Z.land_ones by lia. by apply Z.mod_small.
Qed.

(** How the assembler lays the trampoline out: the code, then the data in the
    order of the source, each from a multiple of eight bytes; and the values of
    the source in it. *)
Record assembled (sy : Symbols) (m : Z → Z) : Prop := {
  as_start : 0 ≤ ap_trampoline_start sy;
  as_code : ap_trampoline_start sy ≤ ap_long_mode sy < ap_ljmp_ptr_offset sy;
  as_gdt_ptr : ap_gdt_ptr_base sy = ap_ljmp_ptr_offset sy + 10;
  as_gdt : ap_gdt sy = ap_ljmp_ptr_offset sy + 16;
  as_cr3 : ap_trampoline_cr3 sy = ap_ljmp_ptr_offset sy + 40;
  as_stack : ap_trampoline_stack sy = ap_ljmp_ptr_offset sy + 48;
  as_arg : ap_trampoline_arg sy = ap_ljmp_ptr_offset sy + 56;
  as_entry : ap_trampoline_entry sy = ap_ljmp_ptr_offset sy + 64;
  as_end : ap_trampoline_end sy = ap_ljmp_ptr_offset sy + 72;
  as_fits : ap_trampoline_end sy - ap_trampoline_start sy ≤ AP_TRAMPOLINE_SIZE;
  as_sel : load 2 (ap_ljmp_ptr_offset sy + 4) m = 0x08;
  as_limit : load 2 (ap_gdt_ptr_base sy - 2) m = 0x17;
  as_code_desc : load 8 (ap_gdt sy + 8) m = 0x00af9a000000ffff;
  as_data_desc : load 8 (ap_gdt sy + 16) m = 0x00af92000000ffff
}.

Section Works.
Context (sy : Symbols) (m : Z → Z) (Ha : assembled sy m).
Context (c3 stack arg entry : Z) (Hc3 : 0 ≤ c3 < 2 ^ 32) (Hst : 0 ≤ stack < 2 ^ 64) (Har : 0 ≤ arg < 2 ^ 64) (Hen : 0 ≤ entry < 2 ^ 64).
Notation off sym := (sym sy - ap_trampoline_start sy).
Notation T := AP_TRAMPOLINE_PADDR.

(** What the processor that starts will read, and that nothing else changes. *)
Record prepared (m' : Z → Z) : Prop := {
  pr_limit : load 2 (T + (ap_gdt_ptr sy - ap_trampoline_start sy)) m' = 0x17;
  pr_base : load 3 (T + (ap_gdt_ptr sy - ap_trampoline_start sy) + 2) m' = T + off ap_gdt;
  pr_code_desc : load 8 (T + off ap_gdt + 8) m' = 0x00af9a000000ffff;
  pr_data_desc : load 8 (T + off ap_gdt + 16) m' = 0x00af92000000ffff;
  pr_target : load 4 (T + (ap_ljmp_ptr sy - ap_trampoline_start sy)) m' = T + off ap_long_mode;
  pr_sel : load 2 (T + (ap_ljmp_ptr sy - ap_trampoline_start sy) + 4) m' = 0x08;
  pr_cr3 : load 4 (T + off ap_trampoline_cr3) m' = c3;
  pr_stack : load 8 (T + off ap_trampoline_stack) m' = stack;
  pr_arg : load 8 (T + off ap_trampoline_arg) m' = arg;
  pr_entry : load 8 (T + off ap_trampoline_entry) m' = entry
}.

(** The next operation on words does not fail. *)
Ltac word_op :=
  match goal with
  | |- context [mbind _ (usub ?a ?b)] => rewrite (usub_ok a b) by lia
  | |- context [mbind _ (uadd ?w ?a ?b)] => rewrite (uadd_ok w a b) by lia
  end; cbn [mbind outcome_bind].

(** Writes elsewhere do not matter. *)
Ltac others := repeat (rewrite load_other by (rewrite length_le_bytes; lia)).

Lemma prepare_run : ∃ m', prepare_trampoline sy c3 stack arg entry m = Ok m' ∧ prepared m' ∧
  ∀ a, a < T ∨ T + AP_TRAMPOLINE_SIZE ≤ a → m' a = m a.
Proof.
  destruct Ha. unfold ap_ljmp_ptr, ap_gdt_ptr, AP_TRAMPOLINE_PADDR, AP_TRAMPOLINE_SIZE in *.
  unfold prepare_trampoline, sym_offset, write_u32, write_u64, AP_TRAMPOLINE_PADDR, AP_TRAMPOLINE_SIZE.
  word_op. rewrite (proj2 (Z.ltb_ge _ _)) by lia. repeat word_op.
  eexists. split; [reflexivity|]. rewrite !(Z.mod_small _ (2 ^ 32)) by lia. split; [split|].
  all: unfold ap_ljmp_ptr, ap_gdt_ptr, AP_TRAMPOLINE_PADDR.
  - others. rewrite load_copy by lia. etransitivity; [|exact as_limit0]. f_equal. lia.
  - replace (0x8000 + (ap_gdt_ptr_base sy - 2 - ap_trampoline_start sy) + 2) with (0x8000 + (ap_gdt_ptr_base sy - ap_trampoline_start sy)) by lia.
    others. apply load_same; [lia|]. change (256 ^ Z.of_nat 3) with (2 ^ 24). lia.
  - rewrite <- Z.add_assoc. others. rewrite load_copy by lia. etransitivity; [|exact as_code_desc0]. f_equal. lia.
  - rewrite <- Z.add_assoc. others. rewrite load_copy by lia. etransitivity; [|exact as_data_desc0]. f_equal. lia.
  - others. apply load_same; [lia|]. change (256 ^ Z.of_nat 4) with (2 ^ 32). lia.
  - rewrite <- Z.add_assoc. others. rewrite load_copy by lia. etransitivity; [|exact as_sel0]. f_equal. lia.
  - others. by apply load_same; [lia|].
  - others. by apply load_same; [lia|].
  - others. by apply load_same; [lia|].
  - others. by apply load_same; [lia|].
  - intros a Hout. rewrite !put_bytes_out by (rewrite ?length_le_bytes, ?length_get_bytes; lia). done.
Qed.

(** *** The run *)
Section Boot.
Context (tr : Z → Z → option Z) (m' : Z → Z) (Hm : prepared m').
Context (Hid : ∀ a, T ≤ a < T + AP_TRAMPOLINE_SIZE → tr c3 a = Some a).

Lemma run_go la i l c c' r : fetched tr c = true → step_ap tr m' sy la i c = Go c' → run_ap tr m' sy la l c' = r →
  run_ap tr m' sy la (i :: l) c = r.
Proof. intros Hf Hs <-. simpl. by rewrite Hf, Hs. Qed.

Lemma phys_in a c : (paging c = true → cr3 c = c3) → T ≤ a < T + AP_TRAMPOLINE_SIZE → phys tr c a = Some a.
Proof. intros Hp Hr. unfold phys. destruct (paging c); [|done]. rewrite Hp by done. by apply Hid. Qed.
Lemma fetched_in c : (paging c = true → cr3 c = c3) → fetched tr c = true.
Proof. intros Hp. unfold fetched. apply bool_decide_eq_true_2. by apply phys_in. Qed.
Lemma ld_in n a c x : (paging c = true → cr3 c = c3) → load n a m' = x → T ≤ a < T + AP_TRAMPOLINE_SIZE → ld tr m' n a c = Some x.
Proof. intros Hp Hl Hr. unfold ld. rewrite phys_in by done. simpl. by rewrite Hl. Qed.

Ltac normal := cbv [set_rax set_rcx set_rdx set_rsp set_rdi set_cs set_seg set_gdt set_control set_int];
  cbn [rax rcx rdx rsp rdi cs sel ds_base cs_long gdt_limit gdt_base cr0 cr3 cr4 efer int_enabled].
Ltac no_paging := (discriminate || (intros _; reflexivity)).
Ltac next := eapply run_go; [apply fetched_in; no_paging|reflexivity|normal].
(** A load of [n] bytes, with the field that is read and its place. *)
Ltac loads n H R := erewrite (ld_in n); [|no_paging|exact H|exact R].

Ltac still_long H := match goal with |- context [in_long ?c] => replace (in_long c) with true by (symmetry; exact H) end.

Lemma boot16 cache : cache ∈ [0; 0x20000000; 0x40000000; 0x60000000] → ∃ c,
  run_ap tr m' sy 0 (code16 sy) (after_startup AP_TRAMPOLINE_VECTOR cache) = To (T + off ap_long_mode) c ∧
  cr3 c = c3 ∧ in_long c = true ∧ efer c = 0x100 ∧ cr0 c = 0x80000011 + cache ∧ int_enabled c = false ∧
  gdt_limit c = 0x17 ∧ gdt_base c = T + off ap_gdt ∧ cs c = 8 ∧ cr4 c = 0x20.
Proof.
  intros Hcache. destruct Hm, Ha.
  assert (T ≤ T + (ap_gdt_ptr sy - ap_trampoline_start sy) < T + AP_TRAMPOLINE_SIZE) as R1 by (unfold ap_gdt_ptr, AP_TRAMPOLINE_SIZE in *; lia).
  assert (T ≤ T + (ap_gdt_ptr sy - ap_trampoline_start sy) + 2 < T + AP_TRAMPOLINE_SIZE) as R2 by (unfold ap_gdt_ptr, AP_TRAMPOLINE_SIZE in *; lia).
  assert (T ≤ T + off ap_trampoline_cr3 < T + AP_TRAMPOLINE_SIZE) as R3 by (unfold AP_TRAMPOLINE_SIZE in *; lia).
  assert (T ≤ T + (ap_ljmp_ptr sy - ap_trampoline_start sy) < T + AP_TRAMPOLINE_SIZE) as R4 by (unfold ap_ljmp_ptr, AP_TRAMPOLINE_SIZE in *; lia).
  assert (T ≤ T + (ap_ljmp_ptr sy - ap_trampoline_start sy) + 4 < T + AP_TRAMPOLINE_SIZE) as R5 by (unfold ap_ljmp_ptr, AP_TRAMPOLINE_SIZE in *; lia).
  assert (T ≤ T + off ap_gdt + 8 < T + AP_TRAMPOLINE_SIZE) as R6 by (unfold AP_TRAMPOLINE_SIZE in *; lia).
  unfold code16, after_startup. set_unfold in Hcache. destruct_or! Hcache; subst cache; (eexists; split;
    [do 6 next; eapply run_go; [apply fetched_in; no_paging|cbn [step_ap]; loads 2%nat pr_limit0 R1; loads 3%nat pr_base0 R2; reflexivity|normal];
     do 3 next; eapply run_go; [apply fetched_in; no_paging|cbn [step_ap]; loads 4%nat pr_cr4 R3; reflexivity|normal];
     do 8 next; cbn [run_ap]; rewrite fetched_in by no_paging; cbn [step_ap];
     loads 4%nat pr_target0 R4; cbn [mbind option_bind]; loads 2%nat pr_sel0 R5; cbn [mbind option_bind]; unfold descriptor;
     loads 8%nat pr_code_desc0 R6; reflexivity|by split_and!]).
Qed.

Lemma boot64 c : cr3 c = c3 → in_long c = true → gdt_limit c = 0x17 → gdt_base c = T + off ap_gdt → protected c = true → ∃ c',
  run_ap tr m' sy (T + off ap_long_mode) (code64 sy) c = To entry c' ∧ rsp c' = stack ∧ rdi c' = arg ∧
  cr0 c' = cr0 c ∧ cr3 c' = c3 ∧ cr4 c' = cr4 c ∧ efer c' = efer c ∧ int_enabled c' = int_enabled c ∧ in_long c' = true ∧ cs c' = cs c ∧
  (∀ s, sel c' s = 0x10).
Proof.
  intros H3 Hl Hg Hb Hp. destruct Hm, Ha.
  assert (T ≤ T + off ap_gdt + 16 < T + AP_TRAMPOLINE_SIZE) as R1 by (unfold AP_TRAMPOLINE_SIZE in *; lia).
  assert (T ≤ T + off ap_trampoline_stack < T + AP_TRAMPOLINE_SIZE) as R2 by (unfold AP_TRAMPOLINE_SIZE in *; lia).
  assert (T ≤ T + off ap_trampoline_arg < T + AP_TRAMPOLINE_SIZE) as R3 by (unfold AP_TRAMPOLINE_SIZE in *; lia).
  assert (T ≤ T + off ap_trampoline_entry < T + AP_TRAMPOLINE_SIZE) as R4 by (unfold AP_TRAMPOLINE_SIZE in *; lia).
  assert (∀ sym, rip_rel sy (T + off ap_long_mode) sym = T + (sym - ap_trampoline_start sy)) as Hrip by (intros; unfold rip_rel; lia).
  assert (∀ s c, rax c mod 2 ^ 16 = 0x10 → protected c = true → gdt_limit c = 0x17 → gdt_base c = T + off ap_gdt → (paging c = true → cr3 c = c3) →
    step_ap tr m' sy (T + off ap_long_mode) (MovwAxSeg s) c = Go (set_seg s 0x10 0 c)) as Hseg.
  { intros s c0 Hx Hp0 Hg0 Hb0 Hc0. cbn [step_ap]. rewrite Hx, Hp0. unfold descriptor. rewrite Hg0, Hb0. simpl.
    rewrite (ld_in 8 _ _ _ Hc0 pr_data_desc0 R1). reflexivity. }
  destruct c as [x1 x2 x3 x4 x5 x6 x7 x8 x9 x10 x11 x12 x13 x14 x15 x16]. simpl in H3, Hg, Hb. subst x10 x11 x13.
  eexists. split.
  { unfold code64. eapply run_go; [apply fetched_in; no_paging|reflexivity|normal].
    do 5 (eapply run_go; [apply fetched_in; no_paging|apply Hseg; [by apply low_mod|exact Hp|reflexivity..]|normal]).
    eapply run_go; [apply fetched_in; no_paging|cbn [step_ap]; still_long Hl; rewrite Hrip; loads 8%nat pr_stack0 R2; reflexivity|normal].
    eapply run_go; [apply fetched_in; no_paging|cbn [step_ap]; still_long Hl; rewrite Hrip; loads 8%nat pr_arg0 R3; reflexivity|normal].
    eapply run_go; [apply fetched_in; no_paging|cbn [step_ap]; still_long Hl; rewrite Hrip; loads 8%nat pr_entry0 R4; reflexivity|normal].
    cbn [run_ap]. rewrite fetched_in by no_paging. cbn [step_ap]. still_long Hl. reflexivity. }
  split_and!; try done. by intros [].
Qed.

Lemma ap_boot_prepared cache : cache ∈ [0; 0x20000000; 0x40000000; 0x60000000] → ∃ c,
  ap_boot tr m' sy AP_TRAMPOLINE_VECTOR cache = To entry c ∧ in_long c = true ∧ int_enabled c = false ∧
  rsp c = stack ∧ rdi c = arg ∧ cr3 c = c3 ∧ cr0 c = 0x80000011 + cache ∧ cr4 c = 0x20 ∧ efer c = 0x100 ∧ cs c = 8 ∧ ∀ s, sel c s = 0x10.
Proof.
  intros Hcache. destruct (boot16 cache Hcache) as (c & E & H3 & Hl & He & H0 & Hi & Hg & Hb & Hcs & H4).
  destruct (boot64 c H3 Hl Hg Hb) as (c' & E' & Hsp & Hdi & H0' & H3' & H4' & He' & Hi' & Hl' & Hcs' & Hsel).
  { unfold protected. rewrite H0. set_unfold in Hcache. by destruct_or! Hcache; subst cache. }
  exists c'. split; [|split_and!; congruence || done].
  unfold ap_boot. change (16 * cs (after_startup AP_TRAMPOLINE_VECTOR cache) =? T) with true. rewrite E, Hl, Z.eqb_refl. exact E'.
Qed.
End Boot.
End Works.

(** ** The processor that starts it *)

(** Loads and stores that other processors see: a register of the local APIC
    that is polled, [AP_BOOTED_ID], [START_LOCK] with its exchange of [false] for
    [true], and memory. *)
Class ApHw (V : Type) : Type := {
  lapic_load : Z → V → V * Z;
  booted_load : V → V * Z;
  booted_store : Z → V → V;
  lock_exchange : V → V * bool;
  lock_store : bool → V → V;
  ram : V → Z → Z;
  ram_store : (Z → Z) → V → V
}.

(** power.rs of the crate. *)
Inductive CpuOnError : Type := NotSupported | AlreadyOn | InvalidParameters | OtherError.

Section CpuOn.
Context {V : Type} `{X86Hw V} `{ApHw V}.
(** [hartid]: this processor; [meta_at]: the metadata at a physical address. *)
Context (sy : Symbols) (page_size offset hartid : Z) (meta_at : Z → PerCpuMeta) (fuel : nat).
Notation XM := (TMR (X86 V)).

Definition on_hw {A} (f : V → V * A) : XM A := λ s, let '(v, a) := f (x_hw s) in (mk_X86 v (x_static s), Ok a).
Definition to_hw (f : V → V) : XM unit := modify (λ s, mk_X86 (f (x_hw s)) (x_static s)).

Definition lapic_base : XM Z := msr ← x_rdmsr IA32_APIC_BASE; mret (mask_down 64 msr page_size).
Definition lapic_write (offset value : Z) : XM unit :=
  base ← lapic_base; ptr ← lift (uadd 64 base offset); to_hw (mmio_write ptr value).
Definition lapic_read (offset : Z) : XM Z :=
  base ← lapic_base; ptr ← lift (uadd 64 base offset); on_hw (lapic_load ptr).

Fixpoint icr_loop (fuel : nat) : XM unit :=
  match fuel with
  | O => stuck
  | S fuel =>
      icr ← lapic_read LAPIC_REG_ICR_LOW;
      if Z.land icr (Z.shiftl 1 12) =? 0 then mret tt else icr_loop fuel
  end.
Definition send_ipi (apic_id icr_low : Z) : XM unit :=
  _ ← lapic_write LAPIC_REG_ESR 0;
  _ ← lapic_write LAPIC_REG_ESR 0;
  _ ← lapic_write LAPIC_REG_ICR_HIGH (Z.shiftl apic_id 24 mod 2 ^ 32);
  _ ← lapic_write LAPIC_REG_ICR_LOW icr_low;
  icr_loop fuel.

Definition us_ticks (freq us : Z) : Z := Z.max (freq * us / 1000000) 1 mod 2 ^ 64.
Definition us_to_tsc_ticks (us : Z) : XM Z := freq ← tsc_freq; mret (us_ticks freq us).

Definition delay_us (us : Z) : XM unit :=
  start ← ticks_now;
  target ← us_to_tsc_ticks us;
  wait_tsc_loop fuel start target.

(** The loop that waits for [AP_BOOTED_ID]: whether it came in time. *)
Fixpoint booted_loop (fuel : nat) (start timeout_ticks apic_id : Z) : XM bool :=
  match fuel with
  | O => stuck
  | S fuel =>
      t ← ticks_now;
      if (t - start) mod 2 ^ 64 <? timeout_ticks then
        id ← on_hw booted_load;
        if id =? apic_id then mret true else booted_loop fuel start timeout_ticks apic_id
      else mret false
  end.

(** [StartupGuard::lock] and its [Drop]. *)
Fixpoint startup_lock (fuel : nat) : XM unit :=
  match fuel with
  | O => stuck
  | S fuel => ok ← on_hw lock_exchange; if ok : bool then mret tt else startup_lock fuel
  end.
Definition startup_drop : XM unit := to_hw (lock_store false).

Definition store_trampoline (meta : PerCpuMeta) (arg entry_virt : Z) : XM unit :=
  s ← get;
  m ← lift (prepare_trampoline sy (primary_table_paddr meta) (stack_top_virt meta) arg entry_virt (ram (x_hw s)));
  to_hw (ram_store m).

(** [notify_ap_started] of the processor that has started. *)
Definition notify_ap_started (apic_id : Z) : XM unit := to_hw (booted_store apic_id).

Definition cpu_on (apic_id entry arg : Z) : XM (outcome CpuOnError unit) :=
  if apic_id =? hartid then mret (Err AlreadyOn)
  else if 255 <? apic_id then mret (Err InvalidParameters)
  else
    let meta := meta_at arg in
    if u32_max <? primary_table_paddr meta then mret (Err OtherError)
    else
      _ ← startup_lock fuel;
      _ ← to_hw (booted_store usize_max);
      entry_virt ← lift (__kimage_va offset entry);
      _ ← store_trampoline meta arg entry_virt;
      _ ← send_ipi apic_id ICR_INIT_ASSERT;
      _ ← delay_us 10000;
      _ ← send_ipi apic_id ICR_INIT_DEASSERT;
      _ ← delay_us 200;
      _ ← send_ipi apic_id (Z.lor ICR_STARTUP_BASE AP_TRAMPOLINE_VECTOR);
      _ ← delay_us 200;
      _ ← send_ipi apic_id (Z.lor ICR_STARTUP_BASE AP_TRAMPOLINE_VECTOR);
      start ← ticks_now;
      timeout_ticks ← us_to_tsc_ticks AP_START_TIMEOUT_US;
      booted ← booted_loop fuel start timeout_ticks apic_id;
      _ ← startup_drop;
      mret (if booted : bool then Ok tt else Err OtherError).

(** [power::cpu_on] of the crate: [cpu_meta_addr] of the layout in use, the
    address of [_secondary_entry]. *)
Definition power_cpu_on (cpu_meta_addr : Z → option Z) (secondary_entry_addr : Z) (idx : Z) : XM (outcome CpuOnError unit) :=
  match cpu_meta_addr idx with
  | None => mret (Err InvalidParameters)
  | Some arg => cpu_on (cpu_id (meta_at arg)) secondary_entry_addr arg
  end.
End CpuOn.

(** ** The behaviour of the local APIC and of the other processors
    [ipis] are the interrupts that were sent: the upper word with the receiver,
    the command, and when. [busy]: how often the delivery bit is still seen.
    Nothing but the owner of the lock writes to the trampoline. *)
Record Ipi : Type := mk_Ipi { ipi_high : Z; ipi_low : Z; ipi_time : Z }.

Class ApState (V : Type) : Type := {
  ipis : V → list Ipi;
  icr_high : V → Z;
  start_locked : V → bool;
  busy : V → nat;
  max_busy : nat;
  step : Z
}.

Section States.
Context {V : Type} `{X86Laws V} `{ApHw V} `{ApState V} (sy : Symbols).

(** The page of the trampoline and the original in the kernel image. *)
Definition on_page (a : Z) : Prop :=
  AP_TRAMPOLINE_PADDR ≤ a < AP_TRAMPOLINE_PADDR + AP_TRAMPOLINE_SIZE ∨ ap_trampoline_start sy ≤ a < ap_trampoline_end sy.
(** At most [d] ticks pass. *)
Definition placed (d : Z) (v v' : V) : Prop := apic_base v' = apic_base v ∧ x_now v ≤ x_now v' ≤ x_now v + d.
Definition page_kept (v v' : V) : Prop := ∀ a, on_page a → ram v' a = ram v a.
Definition unsent (v v' : V) : Prop := ipis v' = ipis v ∧ icr_high v' = icr_high v.
Record same (d : Z) (v v' : V) : Prop := {
  sm_placed : placed d v v';
  sm_page : page_kept v v';
  sm_unsent : unsent v v';
  sm_lock : start_locked v' = start_locked v
}.

Lemma same_trans d d' u v w : same d u v → same d' v w → same (d + d') u w.
Proof.
  intros [[Hb Hn] Hp [Hi Hh] Hl] [[Hb' Hn'] Hp' [Hi' Hh'] Hl'].
  split; [split; [congruence|lia]|intros a Ha; by rewrite Hp', Hp|split; congruence|congruence].
Qed.
Lemma same_more d d' u v : same d u v → d ≤ d' → same d' u v.
Proof. intros [[Hb Hn] Hp Hi Hl] Hd. split; [split; [done|lia]|done..]. Qed.
End States.

Class ApLaws (V : Type) `{X86Laws V} `{ApHw V} `{ApState V} (sy : Symbols) : Prop := {
  step_pos : 0 ≤ step;
  page_base_law (v : V) : mask_down 64 (rdmsr IA32_APIC_BASE v) 0x1000 = apic_base v;
  rdtsc_same (v : V) : same sy step v (rdtsc v).1;
  esr_law (x : Z) (v : V) : same sy step v (mmio_write (apic_base v + LAPIC_REG_ESR) x v);
  icr_high_law (x : Z) (v : V) : let v' := mmio_write (apic_base v + LAPIC_REG_ICR_HIGH) x v in
    placed step v v' ∧ page_kept sy v v' ∧ start_locked v' = start_locked v ∧ ipis v' = ipis v ∧ icr_high v' = x;
  icr_low_law (x : Z) (v : V) : let v' := mmio_write (apic_base v + LAPIC_REG_ICR_LOW) x v in
    placed step v v' ∧ page_kept sy v v' ∧ start_locked v' = start_locked v ∧
    ∃ t, x_now v ≤ t ≤ x_now v' ∧ ipis v' = ipis v ++ [mk_Ipi (icr_high v) x t];
  icr_load_law (v : V) : let r := lapic_load (apic_base v + LAPIC_REG_ICR_LOW) v in
    same sy step v r.1 ∧ (Z.testbit r.2 12 = true → (busy r.1 < busy v)%nat);
  busy_law (v : V) : (busy v ≤ max_busy)%nat;
  booted_load_law (v : V) : same sy step v (booted_load v).1;
  booted_store_law (x : Z) (v : V) : same sy step v (booted_store x v);
  exchange_law (v : V) : start_locked v = false → let r := lock_exchange v in
    placed step v r.1 ∧ page_kept sy v r.1 ∧ unsent v r.1 ∧ r.2 = true;
  lock_store_law (b : bool) (v : V) : let v' := lock_store b v in
    placed step v v' ∧ page_kept sy v v' ∧ unsent v v' ∧ start_locked v' = b;
  ram_store_law (m : Z → Z) (v : V) : let v' := ram_store m v in
    placed step v v' ∧ unsent v v' ∧ start_locked v' = start_locked v ∧ ∀ a, on_page sy a → ram v' a = m a
}.

Section CpuOnProof.
Context {V : Type} (sy : Symbols) `{ApLaws V sy}.
Context (offset hartid : Z) (meta_at : Z → PerCpuMeta) (fuel : nat).
Implicit Types s : X86 V.
Notation P4K := 0x1000.

(** The processor has been initialised; [same] for states of it. *)
Definition keeps (d : Z) s s' : Prop := x_static s' = x_static s ∧ same sy d (x_hw s) (x_hw s').

Lemma ap_keeps_trans d d' s1 s2 s3 : keeps d s1 s2 → keeps d' s2 s3 → keeps (d + d') s1 s3.
Proof. intros [E1 Hs1] [E2 Hs2]. split; [congruence|by eapply same_trans]. Qed.
Lemma keeps_more d d' s s' : keeps d s s' → d ≤ d' → keeps d' s s'.
Proof. intros [E Hs] Hd. split; [done|by eapply same_more]. Qed.

(** The bound follows from the clock. *)
Lemma keeps_clock d d' s s' : keeps d s s' → x_now (x_hw s') ≤ x_now (x_hw s) + d' → keeps d' s s'.
Proof. intros [E [[Hb Hn] Hp Hi Hl]] Hd. split; [done|]. split; [split; [done|lia]|done..]. Qed.

Lemma lapic_base_run s : lapic_base P4K s = (s, Ok (apic_base (x_hw s))).
Proof. unfold lapic_base, x_rdmsr, mbind, M_bind, get. simpl. by rewrite page_base_law. Qed.

Lemma lapic_write_run off x s : 0 ≤ off < 0x1000 →
  lapic_write P4K off x s = (mk_X86 (mmio_write (apic_base (x_hw s) + off) x (x_hw s)) (x_static s), Ok tt).
Proof.
  intros Ho. unfold lapic_write, mbind, M_bind. rewrite lapic_base_run. destruct (base_law (x_hw s)) as [_ Hr].
  unfold lift. by rewrite uadd_ok by lia.
Qed.

Lemma to_hw_run (f : V → V) s : to_hw f s = (mk_X86 (f (x_hw s)) (x_static s), Ok tt).
Proof. done. Qed.
Lemma on_hw_run {A} (f : V → V * A) s : on_hw f s = (mk_X86 (f (x_hw s)).1 (x_static s), Ok (f (x_hw s)).2).
Proof. unfold on_hw. by destruct (f (x_hw s)). Qed.

Lemma icr_loop_run n : ∀ s, (busy (x_hw s) < n)%nat →
  runs (icr_loop P4K n) s (λ s' _, keeps ((Z.of_nat (busy (x_hw s)) + 1) * step) s s').
Proof.
  induction n as [|n IH]; intros s Hn; [lia|]. cbn [icr_loop].
  assert (lapic_read P4K LAPIC_REG_ICR_LOW s = on_hw (lapic_load (apic_base (x_hw s) + LAPIC_REG_ICR_LOW)) s) as E.
  { unfold lapic_read, mbind, M_bind. rewrite lapic_base_run. destruct (base_law (x_hw s)) as [_ Hr]. unfold lift.
    by rewrite uadd_ok by (unfold LAPIC_REG_ICR_LOW; lia). }
  rewrite on_hw_run in E. destruct (icr_load_law (sy := sy) (x_hw s)) as [Hs Hb]. pose proof (step_pos (sy := sy)) as Hp.
  destruct (lapic_load _ (x_hw s)) as [v x]. cbn [fst snd] in *. unfold runs. rewrite (bind_run _ _ _ _ _ E).
  change (Z.shiftl 1 12) with 4096.
  destruct (Z.eqb_spec (Z.land x 4096) 0) as [E0|Hne].
  - eexists _, tt. split; [done|]. split; [done|]. eapply same_more; [exact Hs|]. nia.
  - assert (Z.testbit x 12 = true) as Hx.
    { destruct (Z.testbit x 12) eqn:Eb; [done|]. destruct Hne. change 4096 with (2 ^ 12). apply Z.bits_inj'. intros k Hk.
      rewrite Z.land_spec, Z.pow2_bits_eqb, Z.bits_0 by lia. destruct (Z.eqb_spec 12 k) as [<-|]; [by rewrite Eb|apply andb_false_r]. }
    specialize (Hb Hx). destruct (IH (mk_X86 v (x_static s))) as (s' & [] & E' & HP); [simpl; lia|]. exists s', tt. split; [exact E'|].
    eapply keeps_more; [eapply (ap_keeps_trans step _ s (mk_X86 v (x_static s))); [by split|exact HP]|]. simpl. nia.
Qed.

Definition ipi_cost : Z := (Z.of_nat max_busy + 5) * step.

Lemma write_esr_run x s : runs (lapic_write P4K LAPIC_REG_ESR x) s (λ s' _, keeps step s s').
Proof. eexists _, tt. split; [by apply lapic_write_run|]. split; [done|]. apply esr_law. Qed.
Lemma write_icr_high_run x s : runs (lapic_write P4K LAPIC_REG_ICR_HIGH x) s (λ s' _, x_static s' = x_static s ∧
  placed step (x_hw s) (x_hw s') ∧ page_kept sy (x_hw s) (x_hw s') ∧ start_locked (x_hw s') = start_locked (x_hw s) ∧
  ipis (x_hw s') = ipis (x_hw s) ∧ icr_high (x_hw s') = x).
Proof. eexists _, tt. split; [by apply lapic_write_run|]. split; [done|]. apply icr_high_law. Qed.
Lemma write_icr_low_run x s : runs (lapic_write P4K LAPIC_REG_ICR_LOW x) s (λ s' _, x_static s' = x_static s ∧
  placed step (x_hw s) (x_hw s') ∧ page_kept sy (x_hw s) (x_hw s') ∧ start_locked (x_hw s') = start_locked (x_hw s) ∧
  ∃ t, x_now (x_hw s) ≤ t ≤ x_now (x_hw s') ∧ ipis (x_hw s') = ipis (x_hw s) ++ [mk_Ipi (icr_high (x_hw s)) x t]).
Proof. eexists _, tt. split; [by apply lapic_write_run|]. split; [done|]. apply icr_low_law. Qed.

(** An interrupt was sent, in at most [d] ticks. *)
Definition sent (d id cmd : Z) s s' : Prop :=
  x_static s' = x_static s ∧ placed d (x_hw s) (x_hw s') ∧ page_kept sy (x_hw s) (x_hw s') ∧ start_locked (x_hw s') = start_locked (x_hw s) ∧
  ∃ t, x_now (x_hw s) ≤ t ≤ x_now (x_hw s') ∧ ipis (x_hw s') = ipis (x_hw s) ++ [mk_Ipi (Z.shiftl id 24) cmd t].

(** Sending an interrupt ends when it has been delivered. *)
Lemma send_ipi_run id cmd s : 0 ≤ id ≤ 255 → (max_busy < fuel)%nat → runs (send_ipi P4K fuel id cmd) s (λ s' _, sent ipi_cost id cmd s s').
Proof.
  intros Hid Hf. unfold send_ipi. pose proof (step_pos (sy := sy)) as Hp.
  eapply runs_bind; [apply write_esr_run|]. intros s1 [] K1. eapply runs_bind; [apply write_esr_run|]. intros s2 [] K2.
  destruct (ap_keeps_trans _ _ _ _ _ K1 K2) as [E2 [[Hb2 Hn2] Hp2 [Hi2 _] Hl2]].
  rewrite Z.mod_small by (rewrite Z.shiftl_mul_pow2 by lia; lia).
  eapply runs_bind; [apply write_icr_high_run|]. intros s3 _ (E3 & [Hb3 Hn3] & Hp3 & Hl3 & Hi3 & Hh3).
  eapply runs_bind; [apply write_icr_low_run|]. intros s4 _ (E4 & [Hb4 Hn4] & Hp4 & Hl4 & t & Ht & Hi4).
  pose proof (busy_law (sy := sy) (x_hw s4)) as Hbusy.
  destruct (icr_loop_run fuel s4) as (s5 & [] & R5 & E5 & [[Hb5 Hn5] Hp5 [Hi5 _] Hl5]); [lia|].
  exists s5, tt. split; [exact R5|]. split; [congruence|]. split; [split; [congruence|unfold ipi_cost; nia]|].
  split; [intros a Ha; by rewrite Hp5, Hp4, Hp3, Hp2|]. split; [congruence|].
  exists t. split; [lia|]. by rewrite Hi5, Hi4, Hi3, Hi2, Hh3.
Qed.

(** *** Waiting *)
Section Wait.
Context (freq : Z) (Hfreq : 0 < freq).

Lemma us_ticks_run us s : TSC_FREQ_HZ (x_static s) = freq → us_to_tsc_ticks us s = (s, Ok (us_ticks freq us)).
Proof.
  intros Ef. unfold us_to_tsc_ticks, tsc_freq, static, mbind, M_bind, get. simpl. by rewrite Ef, (proj2 (Z.eqb_neq _ _)) by lia.
Qed.

Lemma ticks_now_keeps s : runs ticks_now s (λ s' t, keeps step s s' ∧ t = x_now (x_hw s') ∧ (x_now (x_hw s) < 2 ^ 63 → x_now (x_hw s) < t)).
Proof.
  destruct (ticks_now_run s) as (s' & t & E & Es & Et & _ & Hp & _ & Eh). exists s', t. split; [done|]. split; [|done].
  split; [done|]. rewrite Eh. apply rdtsc_same.
Qed.

Lemma wait_loop_run start wait n : ∀ s, 0 ≤ start → start ≤ x_now (x_hw s) → start + wait + step < 2 ^ 63 → x_now (x_hw s) ≤ start + wait →
  (Z.to_nat (start + wait - x_now (x_hw s)) < n)%nat →
  runs (wait_tsc_loop n start wait) s (λ s' _, keeps (start + wait + step - x_now (x_hw s)) s s' ∧ start + wait ≤ x_now (x_hw s')).
Proof.
  induction n as [|n IH]; intros s H0s Hs Hw Hle Hn; [lia|]. cbn [wait_tsc_loop]. eapply runs_bind; [apply ticks_now_keeps|].
  intros s1 t (K1 & -> & Hlt). pose proof K1 as [_ [[_ Hn1] _ _ _]]. rewrite Z.mod_small by lia.
  destruct (Z.leb_spec wait (x_now (x_hw s1) - start)) as [Hd|Hd].
  - exists s1, tt. split; [done|]. split; [eapply keeps_more; [exact K1|lia]|lia].
  - destruct (IH s1) as (s2 & [] & E & K2 & H2'); try lia. exists s2, tt. split; [exact E|]. split; [|done].
    eapply keeps_clock; [eapply ap_keeps_trans; [exact K1|exact K2]|]. destruct K2 as [_ [[_ Hn2] _ _ _]]. lia.
Qed.

Lemma delay_run us s : TSC_FREQ_HZ (x_static s) = freq → 0 ≤ us → freq * us < 2 ^ 62 → x_now (x_hw s) + us_ticks freq us + 2 * step < 2 ^ 63 →
  (Z.to_nat (us_ticks freq us) < fuel)%nat →
  runs (delay_us fuel us) s (λ s' _, keeps (us_ticks freq us + 2 * step) s s' ∧ x_now (x_hw s) + us_ticks freq us ≤ x_now (x_hw s')).
Proof.
  intros Ef Hus Hsmall Hw Hf. pose proof (step_pos (sy := sy)). assert (1 ≤ us_ticks freq us) as H1t.
  { unfold us_ticks. assert (freq * us / 1000000 < 2 ^ 62) by (apply Z.div_lt_upper_bound; lia). rewrite Z.mod_small; lia. }
  unfold delay_us. eapply runs_bind; [apply ticks_now_keeps|]. intros s1 t (K1 & -> & _). pose proof K1 as [E1 [[_ Hn1] _ _ _]].
  pose proof (x_now_range (x_hw s)). eapply (runs_bind _ _ _ (λ s2 w, s2 = s1 ∧ w = us_ticks freq us)).
  { eexists _, _. split; [apply us_ticks_run; congruence|done]. }
  intros s2 w [-> ->]. destruct (wait_loop_run (x_now (x_hw s1)) (us_ticks freq us) fuel s1) as (s3 & [] & E3 & K3 & Hn3); try lia.
  exists s3, tt. split; [exact E3|]. split; [|lia]. eapply keeps_more; [eapply ap_keeps_trans; [exact K1|exact K3]|]. lia.
Qed.

(** The wait for the other processor: it has come, or the time is over. *)
Lemma booted_loop_run start wait id n : ∀ s, 0 ≤ start → start ≤ x_now (x_hw s) → 0 ≤ wait → start + wait + 2 * step < 2 ^ 63 →
  x_now (x_hw s) ≤ start + wait + step →
  (Z.to_nat (start + wait + step - x_now (x_hw s)) < n)%nat →
  runs (booted_loop n start wait id) s (λ s' b, keeps (start + wait + 2 * step - x_now (x_hw s)) s s' ∧
    (b = false → start + wait ≤ x_now (x_hw s')) ∧
    ∀ lat, 0 ≤ lat → x_now (x_hw s) ≤ start + lat + step → start + lat + 2 * step < start + wait →
      (∀ v d, same sy d (x_hw s) v → start + lat ≤ x_now v → (booted_load v).2 = id) → b = true).
Proof.
  induction n as [|n IH]; intros s H0s Hs Hw0 Hw Hle Hn; [lia|]. cbn [booted_loop]. pose proof (step_pos (sy := sy)). eapply runs_bind; [apply ticks_now_keeps|].
  intros s1 t (K1 & -> & Hlt). pose proof K1 as [_ [[_ Hn1] _ _ _]]. rewrite Z.mod_small by lia.
  destruct (Z.ltb_spec (x_now (x_hw s1) - start) wait) as [Hd|Hd].
  2:{ exists s1, false. split; [done|]. split; [eapply keeps_clock; [exact K1|lia]|]. split; [lia|]. intros lat Hl0 Hl1 Hl2. lia. }
  pose proof (booted_load_law (sy := sy) (x_hw s1)) as Hb.
  eapply (runs_bind _ _ _ (λ s2 b, keeps step s1 s2 ∧ b = (booted_load (x_hw s1)).2)).
  { eexists _, _. split; [apply on_hw_run|]. by split. }
  intros s2 b [K2 ->]. pose proof (ap_keeps_trans _ _ _ _ _ K1 K2) as K12. pose proof K2 as [_ [[_ Hn2] _ _ _]].
  destruct (Z.eqb_spec (booted_load (x_hw s1)).2 id) as [Eid|Hid].
  - exists s2, true. split; [done|]. split; [eapply keeps_clock; [exact K12|lia]|]. split; [done|]. done.
  - destruct (IH s2) as (s3 & b & E & K3 & Hb3 & Hl3); try lia. exists s3, b. split; [exact E|].
    pose proof K3 as [_ [[_ Hn3] _ _ _]]. split; [eapply keeps_clock; [eapply ap_keeps_trans; [exact K12|exact K3]|lia]|]. split; [done|].
    intros lat Hl0 Hl1 Hl2 Hup. destruct (Z.le_gt_cases (start + lat) (x_now (x_hw s1))) as [Hge|Hlt1].
    { destruct Hid. eapply Hup; [apply K1|done]. }
    apply (Hl3 lat); [lia|lia|lia|]. intros v d Hv. apply (Hup v (step + step + d)). eapply same_trans; [apply K12|exact Hv].
Qed.

Lemma us_ticks_mono us us' : 0 ≤ us ≤ us' → freq * us' < 2 ^ 62 → 1 ≤ us_ticks freq us ≤ us_ticks freq us'.
Proof.
  intros Hu Hsmall. unfold us_ticks. assert (freq * us / 1000000 ≤ freq * us' / 1000000) by (apply Z.div_le_mono; nia).
  assert (freq * us' / 1000000 < 2 ^ 62) by (apply Z.div_lt_upper_bound; lia). rewrite !Z.mod_small by lia. lia.
Qed.
End Wait.

Lemma bytes_load_ext n a m m' : (∀ x, a ≤ x < a + Z.of_nat n → m x = m' x) → load n a m = load n a m'.
Proof. intros Hx. unfold load. f_equal. apply get_bytes_ext. intros i Hi. apply Hx. lia. Qed.

Lemma assembled_ext m m' : assembled sy m → (∀ a, ap_trampoline_start sy ≤ a < ap_trampoline_end sy → m' a = m a) → assembled sy m'.
Proof.
  intros Ha Hx. destruct Ha. split; try done; (etransitivity; [apply bytes_load_ext|eassumption]); intros; apply Hx; lia.
Qed.

Lemma prepared_ext m0 m m' c3 stack arg entry : assembled sy m0 → prepared sy c3 stack arg entry m →
  (∀ a, AP_TRAMPOLINE_PADDR ≤ a < AP_TRAMPOLINE_PADDR + AP_TRAMPOLINE_SIZE → m' a = m a) → prepared sy c3 stack arg entry m'.
Proof.
  intros Ha Hp Hx. destruct Ha, Hp. unfold ap_ljmp_ptr, ap_gdt_ptr, AP_TRAMPOLINE_SIZE in *.
  split; unfold ap_ljmp_ptr, ap_gdt_ptr; (etransitivity; [apply bytes_load_ext|eassumption]); intros; apply Hx; lia.
Qed.
End CpuOnProof.

(** ** Starting a processor *)

Definition startup_sequence (id t1 t2 t3 t4 : Z) : list Ipi :=
  [mk_Ipi (Z.shiftl id 24) ICR_INIT_ASSERT t1; mk_Ipi (Z.shiftl id 24) ICR_INIT_DEASSERT t2;
   mk_Ipi (Z.shiftl id 24) (Z.lor ICR_STARTUP_BASE AP_TRAMPOLINE_VECTOR) t3; mk_Ipi (Z.shiftl id 24) (Z.lor ICR_STARTUP_BASE AP_TRAMPOLINE_VECTOR) t4].

Section Start.
Context {V : Type} (sy : Symbols) `{ApLaws V sy}.
Context (offset hartid : Z) (meta_at : Z → PerCpuMeta) (fuel : nat) (freq : Z).
Implicit Types s : X86 V.

(** The processor [id] announces itself at most [lat] ticks after the second
    startup interrupt. *)
Definition responds (id lat : Z) (v0 : V) : Prop := ∀ v t1 t2 t3 t4,
  ipis v = ipis v0 ++ startup_sequence id t1 t2 t3 t4 → t4 + lat ≤ x_now v → (booted_load v).2 = id.

Definition startup_time : Z := 4 * ipi_cost + us_ticks freq 10000 + 2 * us_ticks freq 200 + us_ticks freq AP_START_TIMEOUT_US + 16 * step.

Lemma startup_lock_run s : start_locked (x_hw s) = false → (0 < fuel)%nat → runs (startup_lock fuel) s (λ s' _,
  x_static s' = x_static s ∧ placed step (x_hw s) (x_hw s') ∧ page_kept sy (x_hw s) (x_hw s') ∧ unsent (x_hw s) (x_hw s')).
Proof.
  intros Hl Hf. destruct fuel as [|n]; [lia|]. cbn [startup_lock]. destruct (exchange_law (sy := sy) (x_hw s) Hl) as (Hp & Hpg & Hu & Hok).
  unfold runs. rewrite (bind_run _ _ _ _ _ (on_hw_run _ s)), Hok. by eexists _, tt.
Qed.

Lemma store_trampoline_run meta arg ev s : assembled sy (ram (x_hw s)) → 0 ≤ primary_table_paddr meta < 2 ^ 32 →
  0 ≤ stack_top_virt meta < 2 ^ 64 → 0 ≤ arg < 2 ^ 64 → 0 ≤ ev < 2 ^ 64 →
  runs (store_trampoline sy meta arg ev) s (λ s' _, x_static s' = x_static s ∧ placed step (x_hw s) (x_hw s') ∧
    unsent (x_hw s) (x_hw s') ∧ prepared sy (primary_table_paddr meta) (stack_top_virt meta) arg ev (ram (x_hw s'))).
Proof.
  intros Ha Hc3 Hst Har Hev. destruct (prepare_run sy _ Ha _ _ _ _ Hc3 Hst Har Hev) as (m & Em & Hm & _).
  unfold store_trampoline, runs. eexists _, tt. split.
  - unfold mbind, M_bind, get, lift. rewrite Em. reflexivity.
  - simpl. destruct (ram_store_law (sy := sy) m (x_hw s)) as (Hp & Hu & _ & Hr). split_and!; [done|done|done|].
    eapply (prepared_ext sy); [exact Ha|exact Hm|]. intros a Hpage. apply Hr. by left.
Qed.

(** C6: Starting a processor: it is sent the interrupts of initialisation and
    twice that of startup, with the pauses between them that the hardware needs;
    what it then finds at the page of that interrupt takes it from real mode to
    the kernel's entry, in long mode, with the page table, the stack and the
    argument that are meant for it and interrupts off. The call succeeds if the
    processor answers in time; it fails only when the whole timeout is over; and
    in both cases the lock is free again. *)
Theorem cpu_on_starts s id entry arg ev :
  TSC_FREQ_HZ (x_static s) = freq → 0 < freq < 2 ^ 43 → x_now (x_hw s) + startup_time < 2 ^ 63 →
  (max_busy < fuel)%nat → (Z.to_nat (us_ticks freq AP_START_TIMEOUT_US + step) < fuel)%nat →
  start_locked (x_hw s) = false → assembled sy (ram (x_hw s)) →
  0 ≤ id ≤ 255 → id ≠ hartid → 0 ≤ primary_table_paddr (meta_at arg) < 2 ^ 32 → 0 ≤ stack_top_virt (meta_at arg) < 2 ^ 64 →
  0 ≤ arg < 2 ^ 64 → __kimage_va (E := Empty_set) offset entry = Ok ev → 0 ≤ ev < 2 ^ 64 →
  runs (cpu_on sy 0x1000 offset hartid meta_at fuel id entry arg) s (λ s' r,
    x_static s' = x_static s ∧ start_locked (x_hw s') = false ∧
    (∃ t1 t2 t3 t4, ipis (x_hw s') = ipis (x_hw s) ++ startup_sequence id t1 t2 t3 t4 ∧
      t1 + us_ticks freq 10000 ≤ t2 ∧ t2 + us_ticks freq 200 ≤ t3 ∧ t3 + us_ticks freq 200 ≤ t4 ∧
      (r = Ok tt ∨ r = Err OtherError ∧ t4 + us_ticks freq AP_START_TIMEOUT_US ≤ x_now (x_hw s'))) ∧
    (∀ lat, 0 ≤ lat → lat + 2 * step < us_ticks freq AP_START_TIMEOUT_US → responds id lat (x_hw s) → r = Ok tt) ∧
    ∀ tr cache, cache ∈ [0; 0x20000000; 0x40000000; 0x60000000] →
      (∀ a, AP_TRAMPOLINE_PADDR ≤ a < AP_TRAMPOLINE_PADDR + AP_TRAMPOLINE_SIZE → tr (primary_table_paddr (meta_at arg)) a = Some a) →
      ∃ c, ap_boot tr (ram (x_hw s')) sy (Z.land (Z.lor ICR_STARTUP_BASE AP_TRAMPOLINE_VECTOR) 0xff) cache = To ev c ∧
        in_long c = true ∧ int_enabled c = false ∧ rsp c = stack_top_virt (meta_at arg) ∧ rdi c = arg ∧
        cr3 c = primary_table_paddr (meta_at arg)).
Proof.
  intros Ef Hfreq Hclock Hb Hf Hlock Hasm Hid Hne Hc3 Hst Harg Hev Hevr. unfold startup_time in Hclock. pose proof (step_pos (sy := sy)) as Hstep.
  assert (1 ≤ us_ticks freq 200 ≤ us_ticks freq AP_START_TIMEOUT_US) as M1 by (apply us_ticks_mono; unfold AP_START_TIMEOUT_US; lia).
  assert (1 ≤ us_ticks freq 10000 ≤ us_ticks freq AP_START_TIMEOUT_US) as M2 by (apply us_ticks_mono; unfold AP_START_TIMEOUT_US; lia).
  assert (0 ≤ ipi_cost) as M3 by (unfold ipi_cost; nia). pose proof (x_now_range (x_hw s)) as Hn0.
  unfold cpu_on. rewrite (proj2 (Z.eqb_neq _ _)), (proj2 (Z.ltb_ge _ _)), (proj2 (Z.ltb_ge u32_max _)) by (unfold u32_max; lia).
  eapply runs_bind; [by apply startup_lock_run; [|lia]|]. intros s1 [] (E1 & [B1 N1] & P1 & [I1 _]).
  eapply (runs_bind _ _ _ (λ s2 _, keeps sy step s1 s2)).
  { eexists _, tt. split; [apply to_hw_run|]. split; [done|]. apply booted_store_law. }
  intros s2 [] [E2 [[B2 N2] P2 [I2 _] _]]. eapply (runs_bind _ _ _ (λ s3 e, s3 = s2 ∧ e = ev)).
  { exists s2, ev. split; [|done]. unfold lift. by rewrite Hev. }
  intros s3 e [-> ->]. eapply runs_bind.
  { apply store_trampoline_run; try done. apply (assembled_ext sy (ram (x_hw s))); [done|]. intros a Ha. rewrite P2, P1 by (by right). done. }
  intros s3 [] (E3 & [B3 N3] & [I3 _] & Hprep).
  eapply runs_bind; [by apply send_ipi_run|]. intros s4 [] (E4 & [B4 N4] & P4 & _ & t1 & T1 & I4).
  eapply runs_bind; [apply (delay_run sy fuel freq); try lia; congruence|]. intros s5 [] [[E5 [[B5 N5] P5 [I5 _] _]] D5].
  eapply runs_bind; [by apply send_ipi_run|]. intros s6 [] (E6 & [B6 N6] & P6 & _ & t2 & T2 & I6).
  eapply runs_bind; [apply (delay_run sy fuel freq); try lia; congruence|]. intros s7 [] [[E7 [[B7 N7] P7 [I7 _] _]] D7].
  eapply runs_bind; [by apply send_ipi_run|]. intros s8 [] (E8 & [B8 N8] & P8 & _ & t3 & T3 & I8).
  eapply runs_bind; [apply (delay_run sy fuel freq); try lia; congruence|]. intros s9 [] [[E9 [[B9 N9] P9 [I9 _] _]] D9].
  eapply runs_bind; [by apply send_ipi_run|]. intros s10 [] (E10 & [B10 N10] & P10 & _ & t4 & T4 & I10).
  eapply runs_bind; [apply (ticks_now_keeps sy)|]. intros s11 start ([E11 [[B11 N11] P11 [I11 _] _]] & -> & _).
  eapply (runs_bind _ _ _ (λ s12 w, s12 = s11 ∧ w = us_ticks freq AP_START_TIMEOUT_US)).
  { eexists _, _. split; [apply (us_ticks_run freq); [lia|congruence]|done]. }
  intros s12 w [-> ->].
  eapply runs_bind; [apply (booted_loop_run sy (x_now (x_hw s11)) _ id); lia|].
  intros s13 b ([E13 [[B13 N13] P13 [I13 _] _]] & Hno & Hup).
  eapply (runs_bind _ _ _ (λ s14 _, x_static s14 = x_static s13 ∧ placed step (x_hw s13) (x_hw s14) ∧ page_kept sy (x_hw s13) (x_hw s14) ∧
    unsent (x_hw s13) (x_hw s14) ∧ start_locked (x_hw s14) = false)).
  { eexists _, tt. split; [apply to_hw_run|]. split; [done|]. apply lock_store_law. }
  intros s14 [] (E14 & [B14 N14] & P14 & [I14 _] & L14). eexists s14, _. split; [done|].
  assert (ipis (x_hw s11) = ipis (x_hw s) ++ startup_sequence id t1 t2 t3 t4) as Hseq.
  { rewrite I11, I10, I9, I8, I7, I6, I5, I4, I3, I2, I1, <- !app_assoc. done. }
  split; [congruence|]. split; [done|]. split; [|split].
  - exists t1, t2, t3, t4. split; [by rewrite I14, I13|]. split; [lia|]. split; [lia|]. split; [lia|].
    destruct b; [by left|right]. split; [done|]. specialize (Hno eq_refl). lia.
  - intros lat Hlat Hlt Hresp. rewrite (Hup lat); [done|lia|lia|lia|]. intros v d [[_ _] _ [Iv _] _] Hv.
    apply (Hresp v t1 t2 t3 t4); [by rewrite Iv|lia].
  - intros tr cache Hcache Htr. change (Z.land _ 0xff) with AP_TRAMPOLINE_VECTOR.
    assert (prepared sy (primary_table_paddr (meta_at arg)) (stack_top_virt (meta_at arg)) arg ev (ram (x_hw s14))) as Hp.
    { eapply (prepared_ext sy); [exact Hasm|exact Hprep|]. intros a Ha.
      rewrite P14, P13, P11, P10, P9, P8, P7, P6, P5, P4 by (by left). done. }
    destruct (ap_boot_prepared sy _ Hasm _ _ _ _ tr _ Hp Htr cache Hcache) as (c & Ec & Hl & Hi & Hsp & Hdi & H3' & _).
    by exists c.
Qed.
End Start.

(** A call that can not succeed changes nothing. *)
Theorem cpu_on_refused {V : Type} `{X86Hw V} `{ApHw V} sy page_size offset hartid meta_at fuel id entry arg (s : X86 V) :
  0 ≤ id → id = hartid ∨ 255 < id ∨ 2 ^ 32 ≤ primary_table_paddr (meta_at arg) →
  ∃ e, cpu_on sy page_size offset hartid meta_at fuel id entry arg s = (s, Ok (Err e)) ∧ (e = AlreadyOn ↔ id = hartid).
Proof.
  intros Hid Hbad. unfold cpu_on. destruct (Z.eqb_spec id hartid) as [->|Hne]; [by exists AlreadyOn|].
  destruct (Z.ltb_spec 255 id); [by exists InvalidParameters|]. cbv zeta.
  destruct (Z.ltb_spec u32_max (primary_table_paddr (meta_at arg))); [by exists OtherError|]. unfold u32_max in *. lia.
Qed.

(** ** A machine that runs
    The processor of TimerWitness with a log of the interrupts it sends, and
    another processor that answers the last startup interrupt at once. *)
Record Others : Type := mk_Others { o_ipis : list Ipi; o_high : Z; o_lock : bool; o_ram : Z → Z }.
Notation Duo := (Pc * Others)%type.

Definition pc_base32 (v : Pc) : Z := Z.land (pc_msr_base v) 0xffffffff.
Definition duo_write (p x : Z) (d : Duo) : Duo :=
  let '(v, o) := d in
  (mmio_write p x v,
   if p =? pc_base v + LAPIC_REG_ICR_HIGH then mk_Others (o_ipis o) x (o_lock o) (o_ram o)
   else if p =? pc_base v + LAPIC_REG_ICR_LOW then mk_Others (o_ipis o ++ [mk_Ipi (o_high o) x (pc_now v)]) (o_high o) (o_lock o) (o_ram o)
   else o).

#[export] Instance Duo_X86 : X86Hw Duo := {|
  rdmsr msr d := if msr =? IA32_APIC_BASE then pc_base32 d.1 else rdmsr msr d.1;
  wrmsr msr x d := (wrmsr msr x d.1, d.2);
  mmio_read p d := mmio_read p d.1;
  mmio_write := duo_write;
  rdtsc d := ((pc_step d.1, d.2), pc_now (pc_step d.1));
  outb p x d := (outb p x d.1, d.2)
|}.
#[export] Instance Duo_Ap : ApHw Duo := {|
  lapic_load p d := ((pc_step d.1, d.2), 0);
  booted_load d := ((pc_step d.1, d.2), match last (o_ipis d.2) with Some i => Z.shiftr (ipi_high i) 24 | None => usize_max end);
  booted_store x d := (pc_step d.1, d.2);
  lock_exchange d := ((pc_step d.1, mk_Others (o_ipis d.2) (o_high d.2) true (o_ram d.2)), negb (o_lock d.2));
  lock_store b d := (pc_step d.1, mk_Others (o_ipis d.2) (o_high d.2) b (o_ram d.2));
  ram d := o_ram d.2;
  ram_store m d := (pc_step d.1, mk_Others (o_ipis d.2) (o_high d.2) (o_lock d.2) m)
|}.

Lemma duo_write_pc p x d : (duo_write p x d).1 = mmio_write p x d.1.
Proof. by destruct d. Qed.

Lemma base32 v : Z.land (pc_base32 v) LAPIC_BASE_MASK = pc_base v.
Proof. unfold pc_base32, pc_base. by rewrite <- Z.land_assoc. Qed.

#[export] Instance Duo_Laws : X86Laws Duo.
Proof.
  refine {| x_now d := pc_now d.1; apic_base d := pc_base d.1; lvt d := pc_entry d.1; x_deadline d := pc_dl d.1;
    x_pending d := pc_pending d.1; x_wait t d := (x_wait t d.1, d.2) |}.
  - intros d. apply (x_now_range (X86Laws := Pc_Laws) d.1).
  - intros d. simpl. rewrite base32. split; [done|]. apply (proj2 (base_law (X86Laws := Pc_Laws) d.1)).
  - intros d. apply (lvt_read_law (X86Laws := Pc_Laws) d.1).
  - intros x [v o]. apply (lvt_write_law (X86Laws := Pc_Laws) x v).
  - intros off x [v o] Hoff. by apply (other_write_law (X86Laws := Pc_Laws) off x v).
  - intros msr x [v o]. apply (wrmsr_law (X86Laws := Pc_Laws) msr x v).
  - intros port x [v o]. apply (outb_law (X86Laws := Pc_Laws) port x v).
  - intros [v o]. apply (rdtsc_law (X86Laws := Pc_Laws) v).
  - intros [v o] t. apply (pending_law (X86Laws := Pc_Laws) v).
  - intros [v o] t. apply (masked_law (X86Laws := Pc_Laws) v).
  - intros t [v o]. apply (x_wait_law (X86Laws := Pc_Laws) t v).
Defined.

#[export] Instance Duo_State : ApState Duo := {|
  ipis d := o_ipis d.2; icr_high d := o_high d.2; start_locked d := o_lock d.2; busy _ := 0%nat; max_busy := 0%nat; step := 1
|}.

Lemma pc_placed v : pc_now v ≤ pc_now (pc_step v) ≤ pc_now v + 1.
Proof. unfold pc_now. simpl. lia. Qed.
Lemma write_placed p x v : pc_now v ≤ pc_now (mmio_write p x v) ≤ pc_now v + 1.
Proof. apply pc_placed. Qed.

#[export] Instance Duo_ApLaws sy : ApLaws Duo sy.
Proof.
  assert (∀ (v : Pc) (o : Others), same sy 1 (v, o) (pc_step v, o)) as Hs.
  { intros v o. split; [split; [done|apply pc_placed]|by intros a|done|done]. }
  split.
  - done.
  - intros [v o]. simpl. unfold mask_down, pc_base32. rewrite <- Z.land_assoc. done.
  - intros [v o]. apply Hs.
  - intros x [v o]. simpl. unfold duo_write, LAPIC_REG_ESR, LAPIC_REG_ICR_HIGH, LAPIC_REG_ICR_LOW.
    rewrite (proj2 (Z.eqb_neq (pc_base v + 0x280) (pc_base v + 0x310))), (proj2 (Z.eqb_neq (pc_base v + 0x280) (pc_base v + 0x300))) by lia. split; [split; [done|apply write_placed]|by intros a|done|done].
  - intros x [v o]. simpl. unfold duo_write. rewrite Z.eqb_refl. split_and!; [split; [done|apply write_placed]|by intros a|done..].
  - intros x [v o]. simpl. unfold duo_write, LAPIC_REG_ICR_HIGH, LAPIC_REG_ICR_LOW. rewrite (proj2 (Z.eqb_neq (pc_base v + 0x300) (pc_base v + 0x310))), Z.eqb_refl by lia.
    split_and!; [split; [done|apply write_placed]|by intros a|done|]. exists (pc_now v). split; [|done]. split; [apply Z.le_refl|apply write_placed].
  - intros [v o]. split; [apply Hs|done].
  - intros d. simpl. lia.
  - intros [v o]. apply Hs.
  - intros x [v o]. apply Hs.
  - intros [v o] Hl. simpl in Hl. simpl. rewrite Hl. split_and!; [split; [done|apply pc_placed]|by intros a|done|done].
  - intros b [v o]. simpl. split_and!; [split; [done|apply pc_placed]|by intros a|done|done].
  - intros m [v o]. simpl. split_and!; [split; [done|apply pc_placed]|done..].
Qed.

(** The kernel has its trampoline at 1 MB; a counter of 1 kHz. *)
Definition symbols0 : Symbols :=
  mk_Symbols 0x100000 0x1000d8 0x100060 0x1000a0 0x10009a 0x100090 0x1000b8 0x1000c0 0x1000c8 0x1000d0.
Definition ram0 : Z → Z :=
  put_bytes 0x100094 (le_bytes 2 8) (put_bytes 0x100098 (le_bytes 2 0x17)
    (put_bytes 0x1000a8 (le_bytes 8 0x00af9a000000ffff) (put_bytes 0x1000b0 (le_bytes 8 0x00af92000000ffff) (λ _, 0x90)))).
Definition duo0 : X86 Duo := mk_X86 (mk_Pc 0 0xfee00900 0x10000 0 false, mk_Others [] 0 false ram0) (mk_Statics 1000 0 true true ∅).
Definition meta1 : PerCpuMeta := mk_PerCpuMeta 0x208000 1 1 0xffffff0000208000 0x400000 0x300000 0x300000.

Lemma cpu_on_starts_witness : ∃ s' c,
  cpu_on symbols0 0x1000 0 0 (λ _, meta1) 600 1 0x400000 0x200000 duo0 = (s', Ok (Ok tt)) ∧
  ap_boot (λ _ a, Some a) (ram (x_hw s')) symbols0 8 0 = To 0x400000 c ∧ rsp c = 0xffffff0000208000 ∧ rdi c = 0x200000.
Proof.
  assert (assembled symbols0 (ram (x_hw duo0))) as Hasm by (split; vm_compute; first [done | by split]).
  destruct (cpu_on_starts (V := Duo) symbols0 0 0 (λ _, meta1) 600 1000 duo0 1 0x400000 0x200000 0x400000)
    as (s' & r & E & _ & _ & _ & Hr & Hb); [first [exact Hasm|by apply Nat.ltb_lt|vm_compute; first [done|by split]]..|].
  destruct (Hb (λ _ a, Some a) 0 ltac:(apply list_elem_of_here) (λ a _, eq_refl)) as (c & Ec & _ & _ & Hsp & Hdi & _).
  exists s', c. split; [|by split_and!]. rewrite E. do 2 f_equal. apply (Hr 0); [done|by vm_compute|].
  intros v t1 t2 t3 t4 Ev Hv. simpl in *. by rewrite Ev.
Defined.
