(* ===== verification/BootAarch64.v ===== *)
(** * The AArch64 boot table

    crates/someboot/src/arch/aarch64/paging/mod.rs, [setup_page_table], and
    [virt_to_phys] of arch/aarch64/mod.rs with the address arithmetic they use.
    The table maps every memory region of the device tree and the page of the
    debug console at their own addresses, the kernel image at its link address
    and the per-CPU region at its window. Without the feature [hv] the kernel
    uses the memory at [PAGE_OFFSET], which differs from the identity mapping
    only in bits the tables do not look at. The list of memory regions, the
    range of the kernel image, its load offset, the link address
    [VM_LOAD_ADDRESS] and the base of the debug console are parameters. *)

From stdpp Require Import base list numbers strings gmap.
From S2P Require Import Prelude PtDef PtFrame PtMap PtGeom PtTree PtMapProof PtUnmapProof Bits Tock PteAarch64 RangesExt Memory MemoryProof PtTable BootMap.
Import Aarch64.
Open Scope Z_scope.

Section Aarch64Boot.
Context `{Tock} `{NA : NumAlign} {NL : NumAlignLaws}.
Context (hv : bool) (page_size kimage_start kimage_end offset VM_LOAD_ADDRESS DEBUG_BASE : Z)
  (memories : list (Z * Z)).

#[local] Instance a64_boot_ram : FrameAllocator BootMem := Ram_FrameAllocator page_size.
#[local] Instance a64_boot_pte : PageTableEntry Entry := a64_pte hv.

Notation AM := (M (St Entry BootMem) PagingError).

(** addrspace.rs. *)
Definition A64_PAGE_OFFSET : Z := if hv then 0 else 0xffff000000000000.

(** [Arch::_va], [Arch::_percpu]. *)
Definition a64_va {E} (paddr : Z) : outcome E Z := uadd 64 paddr A64_PAGE_OFFSET.
Definition a64_percpu {E} (paddr : Z) : outcome E Z :=
  v ← uadd 64 paddr A64_PAGE_OFFSET;
  uadd 64 v 0xFF0000000000.

Definition a64_pte_of (exec : bool) (attr : MemAttributes) : PteConfig :=
  mk_PteConfig 0 true true true exec false false false false false attr.

(** The loop over the memory regions; an empty one is skipped. *)
Definition a64_memory_configs : list MapConfig :=
  memories ≫= λ '(start, end_),
    let size := Z.max 0 (end_ - start) in
    if size =? 0 then [] else [mk_MapConfig start start size (a64_pte_of true Normal) true false].

Definition a64_kimage_size : Z := align_up (Z.max 0 (kimage_end - kimage_start)) (2 * 1024 * 1024).
Definition a64_kimage_config (v_start : Z) : MapConfig :=
  mk_MapConfig v_start kimage_start a64_kimage_size (a64_pte_of true Normal) true false.
Definition a64_percpu_config (b : BootMem) (vaddr : Z) : MapConfig :=
  mk_MapConfig vaddr (PERCPU_START b) (Z.max 0 (PERCPU_END b - PERCPU_START b)) (a64_pte_of true PerCpu) true false.
Definition a64_debug_config : MapConfig :=
  let start := align_down DEBUG_BASE page_size in
  mk_MapConfig start start page_size (a64_pte_of false Device) true false.

(** [.unwrap()]. *)
Definition unwrap_map (m : AM unit) : AM unit := λ s,
  match m s with
  | (s', Err _) => (s', Stuck)
  | r => r
  end.

(** [setup_page_table]; its result is the root given to [set_boot_table]. *)
Definition a64_setup_page_table : AM Z :=
  s ← get;
  root ← (λ s, match new_table s with (s', Err _) => (s', Stuck) | r => r end);
  _ ← map_all root a64_memory_configs;
  v_start ← lift (__kimage_va offset kimage_start);
  _ ← map root (a64_kimage_config v_start);
  pv ← lift (a64_percpu (PERCPU_START (astate s)));
  _ ← unwrap_map (map root (a64_percpu_config (astate s) pv));
  _ ← (if negb (DEBUG_BASE =? 0) then map root a64_debug_config else mret tt);
  mret root.

(** mod.rs: [virt_to_phys] with the MMU on. *)
Definition a64_virt_to_phys {E} (b : BootMem) (vaddr : Z) : outcome E Z :=
  lo ← a64_percpu (PERCPU_START b);
  hi ← a64_percpu (PERCPU_END b);
  if (lo <=? vaddr) && (vaddr <? hi) then
    v ← usub vaddr 0xFF0000000000;
    usub v A64_PAGE_OFFSET
  else if VM_LOAD_ADDRESS <=? vaddr then __kimage_va_to_pa offset vaddr
  else Ok (Z.land vaddr 0xffffffffffff).

(** ** The mappings as a list *)

Definition a64_identity_configs : list MapConfig :=
  a64_memory_configs ++ (if negb (DEBUG_BASE =? 0) then [a64_debug_config] else []).

Definition a64_boot_configs (b : BootMem) (kv pv : Z) : list MapConfig :=
  a64_memory_configs ++ [a64_kimage_config kv; a64_percpu_config b pv] ++
  (if negb (DEBUG_BASE =? 0) then [a64_debug_config] else []).

(** A successful setup ran the mappings of the list. *)
Lemma a64_setup_ok s s' root kv pv :
  __kimage_va (E := PagingError) offset kimage_start = Ok kv →
  a64_percpu (E := PagingError) (PERCPU_START (astate s)) = Ok pv →
  a64_setup_page_table s = (s', Ok root) →
  ∃ s0, new_table s = (s0, Ok root) ∧ map_all root (a64_boot_configs (astate s) kv pv) s0 = (s', Ok tt).
Proof.
  intros Ek Ep E. unfold a64_setup_page_table in E.
  apply bind_ok_inv in E as (? & ? & [= <- <-] & E). apply bind_ok_inv in E as (s0 & r & En & E). cbv beta in En.
  apply bind_ok_inv in E as (s1 & [] & E1 & E). apply bind_ok_inv in E as (? & ? & [= <- Ek'] & E).
  apply bind_ok_inv in E as (s2 & [] & E2 & E). apply bind_ok_inv in E as (? & ? & [= <- Ep'] & E).
  apply bind_ok_inv in E as (s3 & [] & E3 & E). apply bind_ok_inv in E as (s4 & [] & E4 & E).
  injection E as <- <-. exists s0. destruct (new_table s) as [? [?|?|]]; [|done..]. split; [done|].
  unfold a64_boot_configs. rewrite map_all_app, (bind_run _ _ _ _ _ E1), map_all_app.
  rewrite Ek in Ek'. rewrite Ep in Ep'. injection Ek' as <-. injection Ep' as <-.
  unfold unwrap_map in E3. destruct (map r (a64_percpu_config _ _) s2) as [t5 [[]|?|]] eqn:E5; [|done..]. injection E3 as ->.
  assert (map_all r [a64_kimage_config kv; a64_percpu_config (astate s) pv] s1 = (s3, Ok tt)) as E6.
  { simpl. by rewrite (bind_run _ _ _ _ _ E2), (bind_run _ _ _ _ _ E5). }
  rewrite (bind_run _ _ _ _ _ E6). destruct (negb _); [|exact E4]. simpl. by rewrite (bind_run _ _ _ _ _ E4).
Qed.

(** ** The table agrees with [virt_to_phys] *)

Context (Hpage : page_size = 2 ^ 12).

Notation aok := (ram_ok_below (2 ^ 48)).

Lemma a64_boot_laws : FrameAllocatorLaws BootMem a64_pa_ok ram_live aok.
Proof. unfold a64_boot_ram. rewrite Hpage. apply (Ram_laws_below 12). lia. Qed.

(** The address space: memory below the windows, the kernel image above the
    link address, the per-CPU region in its window. *)
Definition a64_layout_ok (b : BootMem) (kv : Z) : Prop :=
  VM_LOAD_ADDRESS = A64_PAGE_OFFSET + 0xffff80000000 ∧
  VM_LOAD_ADDRESS ≤ kv ∧ kv + a64_kimage_size ≤ A64_PAGE_OFFSET + 2 ^ 48 ∧
  0 ≤ kimage_start ∧ kimage_start + a64_kimage_size ≤ 2 ^ 48 ∧
  0 ≤ PERCPU_START b ≤ PERCPU_END b ∧ PERCPU_END b ≤ 0xff80000000 ∧
  Forall (λ r, 0 ≤ r.1 ∧ r.1 ≤ r.2 ∧ r.2 ≤ 0xff0000000000) memories ∧
  0 ≤ DEBUG_BASE < 0xff0000000000 - page_size.

Lemma a64_in_memory c : c ∈ a64_memory_configs → ∃ r, r ∈ memories ∧
  mc_vaddr c = r.1 ∧ mc_paddr c = r.1 ∧ mc_size c = Z.max 0 (r.2 - r.1).
Proof.
  unfold a64_memory_configs. rewrite list_elem_of_bind. intros ([st en] & Hc & Hr). exists (st, en). split; [done|].
  destruct (_ =? 0); [by apply not_elem_of_nil in Hc|]. by apply list_elem_of_singleton in Hc as ->.
Qed.

(** The image of a build with [hv] lies in the lower half. *)
Lemma kimage_roundtrip_low ks kv v : __kimage_va (E := PagingError) offset ks = Ok kv →
  0 ≤ ks < 2 ^ 63 → kv ≤ v < 2 ^ 63 → ks + (v - kv) < 2 ^ 63 →
  __kimage_va_to_pa (E := PagingError) offset v = Ok (ks + (v - kv)).
Proof.
  unfold __kimage_va, __kimage_va_to_pa, isize_sum, as_isize. intros E Hk Hv Hs.
  rewrite (proj2 (Z.ltb_lt ks _)) in E by lia. destruct ((_ <=? _) && _) eqn:Eb in E; [|done]. bool_to_prop.
  injection E as E.
  assert (kv = ks - offset).
  { destruct (Z.leb_spec 0 (ks + - offset)); [rewrite Z.mod_small in E by lia; lia|].
    rewrite <- (Z.mod_add _ 1) in E by lia. rewrite Z.mod_small in E by lia. lia. }
  assert (0 ≤ kv) by (rewrite <- E; apply Z.mod_pos_bound; lia).
  rewrite (proj2 (Z.ltb_lt v _)) by lia.
  rewrite (proj2 (Z.leb_le _ (v + offset))), (proj2 (Z.ltb_lt (v + offset) _)) by lia. simpl.
  f_equal. rewrite Z.mod_small by lia. lia.
Qed.

(** Memory mapped at its own address. *)
Lemma a64_in_identity b kv c v : a64_layout_ok b kv → c ∈ a64_identity_configs →
  in_range (mc_vaddr c) (mc_size c) v = true → mc_vaddr c = mc_paddr c ∧ 0 ≤ v < 0xff0000000000.
Proof.
  intros (_ & _ & _ & _ & _ & _ & _ & Hmem & Hdbg) Hc Hv. unfold in_range in Hv. bool_to_prop.
  unfold a64_identity_configs in Hc. apply elem_of_app in Hc as [Hc|Hc].
  - destruct (a64_in_memory c Hc) as (r & Hr & E1 & E2 & E3).
    pose proof (proj1 (Forall_forall _ _) Hmem _ Hr) as (? & ? & ?). lia.
  - destruct (negb _); [|by apply not_elem_of_nil in Hc]. apply list_elem_of_singleton in Hc as ->. simpl in *.
    rewrite Hpage in *. destruct (align_down_spec DEBUG_BASE 12) as (? & ? & ?); [lia|lia|]. lia.
Qed.

Lemma a64_low_bits v : Z.land v 0xffffffffffff = v mod 2 ^ 48.
Proof. change 0xffffffffffff with (Z.ones 48). by rewrite Z.land_ones. Qed.

Lemma a64_percpu_eq p : 0 ≤ p ≤ 0xff80000000 → a64_percpu (E := PagingError) p = Ok (p + A64_PAGE_OFFSET + 0xFF0000000000).
Proof.
  intros Hp. unfold a64_percpu, A64_PAGE_OFFSET. destruct hv; rewrite uadd_ok by lia; simpl; by rewrite uadd_ok by lia.
Qed.

(** Addresses below the window of the per-CPU region, at their own place and
    at [PAGE_OFFSET]. *)
Lemma a64_virt_to_phys_identity b kv v h : a64_layout_ok b kv → 0 ≤ v < 0xff0000000000 → h = 0 ∨ h = A64_PAGE_OFFSET →
  a64_virt_to_phys (E := PagingError) b (v + h) = Ok v.
Proof.
  intros (HV & _ & _ & _ & _ & Hp1 & Hp2 & _ & _) Hv Hh. unfold a64_virt_to_phys.
  rewrite !a64_percpu_eq by lia. simpl. unfold A64_PAGE_OFFSET in *.
  assert (0 ≤ h) by (destruct hv; lia). 
  rewrite (proj2 (Z.leb_gt _ (v + h))) by (destruct hv; lia). cbn [andb].
  rewrite (proj2 (Z.leb_gt VM_LOAD_ADDRESS _)) by (destruct hv; lia). rewrite a64_low_bits. f_equal.
  assert (h = 0 ∨ h = 65535 * 2 ^ 48) as [->| ->] by (destruct hv; lia).
  - rewrite Z.add_0_r. apply Z.mod_small. lia.
  - rewrite Z.mod_add by done. apply Z.mod_small. lia.
Qed.

Lemma a64_virt_to_phys_mapping (b : BootMem) kv pv c v : a64_layout_ok b kv →
  __kimage_va (E := PagingError) offset kimage_start = Ok kv →
  a64_percpu (E := PagingError) (PERCPU_START b) = Ok pv →
  c ∈ a64_boot_configs b kv pv → in_range (mc_vaddr c) (mc_size c) v = true →
  a64_virt_to_phys (E := PagingError) b v = Ok (mc_paddr c + (v - mc_vaddr c)).
Proof.
  intros Hlay Ek Ep Hc Hv. pose proof Hlay as (HV & Hk1 & Hk2 & Hk3 & Hk4 & Hp1 & Hp2 & _ & _).
  assert (c ∈ a64_identity_configs ∨ c = a64_kimage_config kv ∨ c = a64_percpu_config b pv) as [Hi|[->| ->]].
  { unfold a64_boot_configs in Hc. unfold a64_identity_configs. set_solver. }
  - destruct (a64_in_identity b kv c v Hlay Hi Hv) as [-> Hr].
    pose proof (a64_virt_to_phys_identity b kv v 0 Hlay Hr (or_introl eq_refl)) as E. rewrite Z.add_0_r in E.
    rewrite E. f_equal. lia.
  - unfold in_range in Hv. simpl in Hv |- *. bool_to_prop. unfold a64_virt_to_phys. rewrite !a64_percpu_eq by lia. simpl.
    rewrite (proj2 (Z.ltb_ge v _)) by lia. rewrite andb_false_r, (proj2 (Z.leb_le VM_LOAD_ADDRESS v)) by lia.
    unfold A64_PAGE_OFFSET in *. destruct hv; [apply kimage_roundtrip_low|apply kimage_roundtrip]; done || lia.
  - rewrite a64_percpu_eq in Ep by lia. injection Ep as <-. unfold in_range in Hv. simpl in Hv |- *. bool_to_prop.
    unfold a64_virt_to_phys. rewrite !a64_percpu_eq by lia. simpl.
    rewrite (proj2 (Z.leb_le _ v)), (proj2 (Z.ltb_lt v _)) by lia. cbn [andb].
    unfold A64_PAGE_OFFSET in *. rewrite usub_ok by (destruct hv; lia). simpl. rewrite usub_ok by (destruct hv; lia). f_equal. lia.
Qed.

(** C7: On AArch64, when [setup_page_table] succeeds, every address of the
    mappings it makes translates in the table to the physical address
    [virt_to_phys] computes: memory and the debug console at their own address
    and at [PAGE_OFFSET], the kernel image at its link address and the per-CPU
    region in its window, with and without the feature [hv]. *)
Theorem aarch64_boot_table_agrees s kv pv s' root :
  aok (astate s) → a64_layout_ok (astate s) kv →
  __kimage_va (E := PagingError) offset kimage_start = Ok kv →
  a64_percpu (E := PagingError) (PERCPU_START (astate s)) = Ok pv →
  Forall (map_args_ok a64_pa_ok (λ _, True)) (a64_boot_configs (astate s) kv pv) →
  a64_setup_page_table s = (s', Ok root) →
  (∀ c v, c ∈ a64_boot_configs (astate s) kv pv → in_range (mc_vaddr c) (mc_size c) v = true →
    ∃ p, a64_virt_to_phys (E := PagingError) (astate s) v = Ok p ∧ abs s' root v = Some p) ∧
  (∀ c v, c ∈ a64_identity_configs → in_range (mc_vaddr c) (mc_size c) v = true →
    ∃ va, a64_va (E := PagingError) v = Ok va ∧
      a64_virt_to_phys (E := PagingError) (astate s) va = Ok v ∧ abs s' root va = Some v).
Proof.
  intros Hram Hlay Ek Ep Hargs E. pose proof a64_boot_laws as HL.
  destruct (a64_setup_ok s s' root kv pv Ek Ep E) as (s0 & En & Em).
  pose proof (new_table_run a64_pa_ok (λ _, True) ram_live aok s Hram) as Hnew. rewrite En in Hnew. destruct Hnew as (Hs0 & _).
  destruct (map_all_spec a64_pa_ok (λ _, True) ram_live aok _ s0 root _ Hs0 Hargs)
    as (s1 & r & fs' & E1 & _ & _ & Hshow & _). rewrite Em in E1. injection E1 as <- <-.
  assert (shows s' root (a64_boot_configs (astate s) kv pv)) as Hsh.
  { apply (Hshow eq_refl []). by intros ??[]%not_elem_of_nil. }
  split.
  - intros c v Hc Hv. eexists. split; [by eapply a64_virt_to_phys_mapping|]. by apply Hsh.
  - intros c v Hc Hv. destruct (a64_in_identity _ _ c v Hlay Hc Hv) as [Ei Hr]. exists (v + A64_PAGE_OFFSET).
    split; [unfold a64_va, A64_PAGE_OFFSET; destruct hv; by rewrite uadd_ok by lia|].
    split; [by eapply a64_virt_to_phys_identity; eauto|].
    rewrite (abs_alias s' root (v + A64_PAGE_OFFSET) v).
    + assert (c ∈ a64_boot_configs (astate s) kv pv) as Hin.
      { unfold a64_identity_configs, a64_boot_configs in *. set_solver. }
      rewrite (Hsh c v Hin Hv). f_equal. lia.
    + unfold same_low. change (table_size PT_LEVEL) with (2 ^ 48). unfold A64_PAGE_OFFSET.
      destruct hv; [by rewrite Z.add_0_r|]. change 0xffff000000000000 with (65535 * 2 ^ 48). by rewrite Z.mod_add.
Qed.
End Aarch64Boot.

(** ** A small machine *)

Import DivAlign.

(** 4 MB of memory from 1 GB, the kernel image in its third megabyte, the debug
    console at 0x09000010. *)
Definition a64_boot0 : BootMem := mk_BootMem 0x40300000 0x40400000 0x40300000 [] 0x40100000 0x40104000.
Definition a64_state0 : St Entry BootMem := mk_St ∅ a64_boot0 [].
Definition a64_memories : list (Z * Z) := [(0x40000000, 0x40400000); (0x50000000, 0x50000000)].
Definition a64_setup0 := a64_setup_page_table false 0x1000 0x40200000 0x40300000 0xC0200000 0x09000010 a64_memories a64_state0.

Lemma a64_args0 : Forall (map_args_ok a64_pa_ok (λ _, True))
  (a64_boot_configs 0x1000 0x40200000 0x40300000 0x09000010 a64_memories a64_boot0 0xffffffff80000000 0xffffff0040100000).
Proof.
  assert (a64_boot_configs 0x1000 0x40200000 0x40300000 0x09000010 a64_memories a64_boot0 0xffffffff80000000 0xffffff0040100000 =
    [mk_MapConfig 0x40000000 0x40000000 0x400000 (a64_pte_of true Normal) true false;
     mk_MapConfig 0xffffffff80000000 0x40200000 0x200000 (a64_pte_of true Normal) true false;
     mk_MapConfig 0xffffff0040100000 0x40100000 0x4000 (a64_pte_of true PerCpu) true false;
     mk_MapConfig 0x09000000 0x09000000 0x1000 (a64_pte_of false Device) true false]) as -> by (vm_compute; reflexivity).
  repeat (apply Forall_cons; split); [..|by apply Forall_nil].
  all: unfold map_args_ok, pa_range_ok, window; cbn [mc_vaddr mc_paddr mc_size mc_allow_huge mc_pte].
  all: split_and!; try lia; try (by apply Z.mod_divide); try done.
  all: intros y Hy Hd; split; [exact Hd|lia].
Qed.

(** A page of the kernel image, read back through the table. *)
Lemma aarch64_boot_table_agrees_witness :
  ∃ s' root p, a64_setup0 = (s', Ok root) ∧
    a64_virt_to_phys (E := PagingError) false 0xC0200000 0xffffffff80000000 a64_boot0 0xffffffff80001234 = Ok p ∧
    @abs _ _ (a64_pte false) _ s' root 0xffffffff80001234 = Some p.
Proof.
  exists a64_setup0.1, 0x40300000.
  assert (E : a64_setup0 = (a64_setup0.1, Ok 0x40300000)).
  { rewrite (surjective_pairing a64_setup0) at 1. apply (f_equal (pair a64_setup0.1)). vm_compute. reflexivity. }
  assert (Hlay : a64_layout_ok false 0x1000 0x40200000 0x40300000 0xffffffff80000000 0x09000010 a64_memories a64_boot0 0xffffffff80000000).
  { unfold a64_layout_ok. change (a64_kimage_size 0x40200000 0x40300000) with 0x200000.
    unfold A64_PAGE_OFFSET. cbn [PERCPU_START PERCPU_END a64_boot0]. do 5 (split; [lia|]). split; [lia|]. split; [lia|]. split; [|lia].
    unfold a64_memories. rewrite !Forall_cons. cbn [fst snd]. split; [lia|]. split; [lia|apply Forall_nil_2]. }
  destruct (aarch64_boot_table_agrees false 0x1000 0x40200000 0x40300000 0xC0200000 0xffffffff80000000 0x09000010
    a64_memories eq_refl a64_state0 0xffffffff80000000 0xffffff0040100000 a64_setup0.1 0x40300000
    ltac:(split; [split|]; simpl; lia) Hlay ltac:(vm_compute; reflexivity) ltac:(vm_compute; reflexivity) a64_args0 E) as [Hm _].
  destruct (Hm (a64_kimage_config 0x40200000 0x40300000 0xffffffff80000000) 0xffffffff80001234) as (p & Hp & Ha).
  - unfold a64_boot_configs. apply elem_of_app. right. apply list_elem_of_here.
  - reflexivity.
  - exists p. split; [exact E|]. split; [exact Hp|exact Ha].
Defined.
