(* ===== verification/BootRiscv.v ===== *)
(** * The RISC-V boot page table

    crates/someboot/src/arch/riscv64/paging.rs, [setup_page_table], and
    [virt_to_phys] of arch/riscv64/mod.rs with the address arithmetic they use.
    The table maps every memory region of the device tree at its own address
    and at [PAGE_OFFSET], the kernel image at its link address and the per-CPU
    region at [PERCPU_BASE]. The build flag [uspace] selects the bases
    (addrspace.rs); without it both are 0. The list of memory regions, the
    range of the kernel image, its load offset and the link address
    [VM_LOAD_ADDRESS] are parameters. *)

From stdpp Require Import base list numbers strings gmap.
From S2P Require Import Prelude PtDef PtFrame PtMap PtGeom PtTree PtMapProof PtUnmapProof PteRiscv RangesExt Memory MemoryProof PtTable BootMap.
Import Riscv.
Open Scope Z_scope.

Section RiscvBoot.
Context `{NA : NumAlign} {NL : NumAlignLaws}.
Context (uspace : bool) (page_size kimage_start kimage_end offset VM_LOAD_ADDRESS : Z)
  (memories : list (Z * Z)).

#[local] Instance rv_boot_ram : FrameAllocator BootMem := Ram_FrameAllocator page_size.

Notation RM := (M (St Entry BootMem) PagingError).

(** addrspace.rs. *)
Definition PAGE_OFFSET : Z := if uspace then 0xffffffc000000000 else 0.
Definition RV_PERCPU_BASE : Z := if uspace then 0xffffffe000000000 else PAGE_OFFSET.

(** [Arch::_va], [Arch::_percpu]. *)
Definition rv_va {E} (paddr : Z) : outcome E Z := uadd 64 paddr PAGE_OFFSET.
Definition rv_percpu {E} (paddr : Z) : outcome E Z := uadd 64 paddr RV_PERCPU_BASE.

Definition ram_pte (attr : MemAttributes) : PteConfig :=
  mk_PteConfig 0 true true true true false false false false false attr.

Definition ram_config (vaddr start size : Z) : MapConfig :=
  mk_MapConfig vaddr start size (ram_pte Normal) true false.

(** The loop over the memory regions. *)
Fixpoint map_memories (root : Z) (l : list (Z * Z)) : RM unit :=
  match l with
  | [] => mret tt
  | (start, end_) :: l =>
      let size := Z.max 0 (end_ - start) in
      _ ← (if size =? 0 then mret tt
           else
             _ ← map root (ram_config start start size);
             high ← lift (rv_va start);
             if high =? start then mret tt else map root (ram_config high start size));
      map_memories root l
  end.

Definition rv_kimage_size : Z := align_up (Z.max 0 (kimage_end - kimage_start)) (2 * 1024 * 1024).
Definition rv_kimage_config (vaddr : Z) : MapConfig := ram_config vaddr kimage_start rv_kimage_size.
Definition rv_percpu_config (b : BootMem) (vaddr : Z) : MapConfig :=
  mk_MapConfig vaddr (PERCPU_START b) (Z.max 0 (PERCPU_END b - PERCPU_START b)) (ram_pte PerCpu) true false.

(** [mmu::new_boot_table]. *)
Definition rv_new_boot_table : RM Z := λ s,
  match new_table s with
  | (s', Err _) => (s', Stuck)
  | r => r
  end.

(** [setup_page_table]; its result is the root given to [set_boot_table]. *)
Definition rv_setup_page_table : RM Z :=
  s ← get;
  root ← rv_new_boot_table;
  _ ← map_memories root memories;
  kv ← lift (__kimage_va offset kimage_start);
  _ ← map root (rv_kimage_config kv);
  pv ← lift (rv_percpu (PERCPU_START (astate s)));
  _ ← map root (rv_percpu_config (astate s) pv);
  mret root.

(** arch/riscv64/mod.rs: [virt_to_phys] with the MMU on. *)
Definition rv_virt_to_phys {E} (b : BootMem) (vaddr : Z) : outcome E Z :=
  if uspace then
    lo ← rv_percpu (PERCPU_START b);
    hi ← rv_percpu (PERCPU_END b);
    if (lo <=? vaddr) && (vaddr <? hi) then usub vaddr RV_PERCPU_BASE
    else if VM_LOAD_ADDRESS <=? vaddr then __kimage_va_to_pa offset vaddr
    else if PAGE_OFFSET <=? vaddr then usub vaddr PAGE_OFFSET
    else Ok vaddr
  else Ok vaddr.

(** ** The mappings as a list *)

Definition memory_configs (r : Z * Z) : list MapConfig :=
  let size := Z.max 0 (r.2 - r.1) in
  if size =? 0 then []
  else ram_config r.1 r.1 size ::
    (if r.1 + PAGE_OFFSET =? r.1 then [] else [ram_config (r.1 + PAGE_OFFSET) r.1 size]).

Definition all_memory_configs : list MapConfig := memories ≫= memory_configs.

Definition rv_boot_configs (b : BootMem) (kv pv : Z) : list MapConfig :=
  all_memory_configs ++ [rv_kimage_config kv; rv_percpu_config b pv].

(** The regions stay below the top of the address space when they are moved up. *)
Definition memories_ok : Prop := Forall (λ r, 0 ≤ r.1 ∧ r.1 + PAGE_OFFSET < 2 ^ 64) memories.

Lemma map_memories_all root l s : Forall (λ r, r.1 + PAGE_OFFSET < 2 ^ 64) l →
  map_memories root l s = map_all root (l ≫= memory_configs) s.
Proof.
  intros Hl. revert s. induction Hl as [|[st en] l Hr Hl IH]; intros s; [done|].
  simpl mbind. rewrite map_all_app. simpl map_memories. apply bind_cong; [|intros _ s'; apply IH].
  unfold memory_configs. simpl in *. destruct (_ =? 0); [done|]. simpl.
  apply bind_cong; [done|]. intros _ s'. erewrite bind_lift by (apply uadd_ok; done).
  destruct (_ =? st); [done|]. simpl. unfold mbind, M_bind. by destruct (map root _ s') as [s1 [[]|?|]].
Qed.

Lemma rv_setup_eq s s0 root kv pv : memories_ok →
  new_table s = (s0, Ok root) → __kimage_va (E := PagingError) offset kimage_start = Ok kv →
  rv_percpu (E := PagingError) (PERCPU_START (astate s)) = Ok pv →
  rv_setup_page_table s = (_ ← map_all root (rv_boot_configs (astate s) kv pv); mret root) s0.
Proof.
  intros Hm E Ek Ep. unfold rv_setup_page_table. erewrite bind_run by done.
  erewrite bind_run by (unfold rv_new_boot_table; rewrite E; done).
  unfold rv_boot_configs. rewrite map_all_bind_app.
  apply bind_cong; [apply map_memories_all; eapply Forall_impl; [exact Hm|naive_solver]|]. intros _ s1.
  erewrite bind_lift by exact Ek. unfold map_all, mbind, M_bind.
  destruct (map root (rv_kimage_config kv) s1) as [s2 [[]|?|]]; [|done..]. unfold lift. rewrite Ep.
  by destruct (map root (rv_percpu_config _ pv) s2) as [s3 [[]|?|]].
Qed.

(** ** The table agrees with [virt_to_phys] *)

Context (Hpage : page_size = 2 ^ 12).

Lemma rv_boot_laws : FrameAllocatorLaws BootMem rv_pa_ok ram_live ram_ok.
Proof.
  unfold rv_boot_ram. rewrite Hpage. destruct (Ram_laws 12 ltac:(lia)) as [Hf Ho Hk Hd Hdk]. split; try done.
  intros a a' p Ha E. destruct (Hf a a' p Ha E) as (? & ? & [? ?]). split_and!; [done|done|]. split; [done|lia].
Qed.

(** The address space of a build with [uspace]: memory below 2^37, the kernel
    image above the link address, the per-CPU region beside it. *)
Definition rv_layout_ok (b : BootMem) (kv : Z) : Prop :=
  uspace = true ∧
  0xffffffe000000000 + 2 ^ 36 ≤ VM_LOAD_ADDRESS ≤ kv ∧ kv + rv_kimage_size ≤ 2 ^ 64 ∧
  0 ≤ kimage_start ∧ kimage_start + rv_kimage_size ≤ 2 ^ 52 ∧
  0 ≤ PERCPU_START b ≤ PERCPU_END b ∧ PERCPU_END b ≤ 2 ^ 36 ∧
  Forall (λ r, 0 ≤ r.1 ∧ r.2 ≤ 2 ^ 37 ∧ r.1 ≤ r.2) memories.

Lemma rv_layout_memories b kv : rv_layout_ok b kv → memories_ok.
Proof.
  intros (Hu & _ & _ & _ & _ & _ & _ & Hm). eapply Forall_impl; [exact Hm|]. intros r (? & ? & ?).
  unfold PAGE_OFFSET. rewrite Hu. lia.
Qed.

Lemma in_memory_configs c : c ∈ all_memory_configs → ∃ r, r ∈ memories ∧
  mc_paddr c = r.1 ∧ mc_size c = Z.max 0 (r.2 - r.1) ∧ (mc_vaddr c = r.1 ∨ mc_vaddr c = r.1 + PAGE_OFFSET).
Proof.
  unfold all_memory_configs. rewrite list_elem_of_bind. intros (r & Hc & Hr). exists r. split; [done|].
  unfold memory_configs in Hc. destruct (_ =? 0); [by apply not_elem_of_nil in Hc|].
  apply elem_of_cons in Hc as [->|Hc]; [simpl; auto|].
  destruct (_ =? r.1); [by apply not_elem_of_nil in Hc|]. apply list_elem_of_singleton in Hc as ->. simpl. auto.
Qed.

Lemma rv_virt_to_phys_mapping (b : BootMem) kv pv c v : rv_layout_ok b kv →
  __kimage_va (E := PagingError) offset kimage_start = Ok kv →
  rv_percpu (E := PagingError) (PERCPU_START b) = Ok pv →
  c ∈ rv_boot_configs b kv pv → in_range (mc_vaddr c) (mc_size c) v = true →
  rv_virt_to_phys (E := PagingError) b v = Ok (mc_paddr c + (v - mc_vaddr c)).
Proof.
  intros (Hu & ? & ? & ? & ? & ? & ? & Hmem) Ek Ep Hc Hv. unfold in_range in Hv. bool_to_prop.
  pose proof in_memory_configs as Hinm.
  unfold rv_virt_to_phys, rv_percpu, RV_PERCPU_BASE, PAGE_OFFSET in *. rewrite Hu in *. rewrite uadd_ok in Ep by lia. injection Ep as <-.
  rewrite !uadd_ok by lia. simpl. unfold rv_boot_configs in Hc. rewrite elem_of_app, !elem_of_cons in Hc.
  destruct Hc as [Hc|[->|[->|?%not_elem_of_nil]]]; [| | |done].
  - destruct (Hinm c Hc) as (r & Hr & Hpa & Hsz & Hva). simpl in Hva.
    pose proof (proj1 (Forall_forall _ _) Hmem _ Hr) as (? & ? & ?).
    rewrite (proj2 (Z.leb_gt _ v)) by lia. simpl. rewrite (proj2 (Z.leb_gt VM_LOAD_ADDRESS v)) by lia.
    destruct Hva as [Hva|Hva].
    + rewrite (proj2 (Z.leb_gt _ v)) by lia. f_equal. lia.
    + rewrite (proj2 (Z.leb_le _ v)) by lia. rewrite usub_ok by lia. f_equal. lia.
  - simpl in *. rewrite (proj2 (Z.ltb_ge v _)) by lia. rewrite andb_false_r.
    rewrite (proj2 (Z.leb_le VM_LOAD_ADDRESS v)) by lia. apply kimage_roundtrip; done || lia.
  - simpl in *. rewrite (proj2 (Z.leb_le _ v)), (proj2 (Z.ltb_lt v _)) by lia. simpl.
    rewrite usub_ok by lia. f_equal. lia.
Qed.

(** On RISC-V with user space, when [setup_page_table] succeeds, every
    address of the mappings it makes translates in the table to the physical
    address [virt_to_phys] computes, both for the identity mapping of memory
    and for its copy at [PAGE_OFFSET]. It panics only when there is no frame
    for the root table. *)
Theorem riscv_boot_table_agrees s kv pv :
  ram_ok (astate s) → rv_layout_ok (astate s) kv →
  __kimage_va (E := PagingError) offset kimage_start = Ok kv →
  rv_percpu (E := PagingError) (PERCPU_START (astate s)) = Ok pv →
  Forall (map_args_ok rv_pa_ok rv_tmpl_ok) (rv_boot_configs (astate s) kv pv) →
  match rv_setup_page_table s with
  | (s', Ok root) => ∀ c v, c ∈ rv_boot_configs (astate s) kv pv →
      in_range (mc_vaddr c) (mc_size c) v = true →
      ∃ p, rv_virt_to_phys (E := PagingError) (astate s) v = Ok p ∧ abs s' root v = Some p
  | (_, Err _) => True
  | (_, Stuck) => (new_table s).2 = Err NoMemory
  end.
Proof.
  intros Hram Hlay Ek Ep Hargs. pose proof rv_boot_laws as HL.
  pose proof (new_table_run rv_pa_ok rv_tmpl_ok ram_live ram_ok s Hram) as Hnew.
  destruct (new_table s) as [s0 [root|e|]] eqn:En; [| |done].
  - erewrite rv_setup_eq by (try eassumption; by eapply rv_layout_memories). destruct Hnew as (Hs0 & _).
    destruct (map_all_spec rv_pa_ok rv_tmpl_ok ram_live ram_ok _ s0 root _ Hs0 Hargs)
      as (s' & r & fs' & E & _ & Hr & Hshow & _).
    unfold mbind, M_bind. rewrite E. destruct r as [[]|e|]; [|done|done].
    intros c v Hc Hv. exists (mc_paddr c + (v - mc_vaddr c)). split; [by eapply rv_virt_to_phys_mapping|].
    apply (Hshow eq_refl []); [by intros ??[]%not_elem_of_nil|done|done].
  - destruct Hnew as [-> _]. unfold rv_setup_page_table. erewrite bind_run by done.
    unfold mbind, M_bind, rv_new_boot_table. rewrite En. done.
Qed.

(** Without user space the bases are 0 and the image is linked at the
    address it is loaded at. The memory that holds the kernel image is then
    mapped at its own address first, the mapping of the image itself meets
    those entries, and [setup_page_table] never succeeds: the build panics in
    [enable_mmu]. *)
Theorem riscv_flat_build_fails s st en :
  uspace = false → offset = 0 → 0 ≤ kimage_start < 2 ^ 63 → (st, en) ∈ memories → st ≤ kimage_start < en →
  ram_ok (astate s) → memories_ok →
  Forall (map_args_ok rv_pa_ok rv_tmpl_ok) (all_memory_configs ++ [rv_kimage_config kimage_start]) →
  ∀ s' root, rv_setup_page_table s ≠ (s', Ok root).
Proof.
  intros Hu Ho Hk Hin Hst Hram Hm Hargs s' root E. pose proof rv_boot_laws as HL.
  pose proof (new_table_run rv_pa_ok rv_tmpl_ok ram_live ram_ok s Hram) as Hnew.
  unfold rv_setup_page_table in E. erewrite bind_run in E by done.
  unfold mbind, M_bind in E. unfold rv_new_boot_table in E.
  destruct (new_table s) as [s0 [root0|e|]] eqn:En; [|done|done]. destruct Hnew as (Hs0 & _).
  rewrite map_memories_all in E by (eapply Forall_impl; [exact Hm|naive_solver]). fold all_memory_configs in E.
  apply Forall_app in Hargs as [Hmem [Hki _]%Forall_cons].
  destruct (map_all_spec rv_pa_ok rv_tmpl_ok ram_live ram_ok _ s0 root0 _ Hs0 Hmem)
    as (s1 & r & fs1 & E1 & Hs1 & Hr & Hshow & _).
  unfold mbind, M_bind in E. rewrite E1 in E. destruct r as [[]|e|]; [|done|done].
  assert (Ekv : __kimage_va (E := PagingError) offset kimage_start = Ok kimage_start).
  { unfold __kimage_va, isize_sum, as_isize. rewrite Ho, (proj2 (Z.ltb_lt _ _)) by lia.
    replace (kimage_start + - 0) with kimage_start by lia.
    rewrite (proj2 (Z.leb_le _ _)), (proj2 (Z.ltb_lt _ _)) by lia. simpl. by rewrite Z.mod_small by lia. }
  unfold lift in E. rewrite Ekv in E.
  assert (Hfull : abs s1 root0 kimage_start = Some (st + (kimage_start - st))).
  { apply (Hshow eq_refl [] ltac:(by intros ??[]%not_elem_of_nil) (ram_config st st (Z.max 0 (en - st)))).
    - unfold all_memory_configs. apply list_elem_of_bind. exists (st, en). split; [|done].
      unfold memory_configs. simpl. rewrite (proj2 (Z.eqb_neq _ 0)) by lia. apply list_elem_of_here.
    - unfold in_range. simpl. rewrite (proj2 (Z.leb_le _ _)), (proj2 (Z.ltb_lt _ _)) by lia. done. }
  destruct (map_conflict rv_pa_ok rv_tmpl_ok ram_live ram_ok s1 root0 fs1 (rv_kimage_config kimage_start)
    kimage_start (st + (kimage_start - st)) Hs1 Hki) as []; [|exact Hfull|].
  - destruct Hki as (_ & Hsz & _). unfold in_range. simpl in *.
    rewrite (proj2 (Z.leb_le _ _)), (proj2 (Z.ltb_lt _ _)) by lia. done.
  - destruct (map root0 (rv_kimage_config kimage_start) s1) as [s2 [[]|?|]]; done.
Qed.

End RiscvBoot.

(** ** A small machine *)

Import DivAlign.

(** 4 MB of memory from 2 GB, the kernel image in its third megabyte. *)
Definition rv_boot0 : BootMem := mk_BootMem 0x80300000 0x80400000 0x80300000 [] 0x80100000 0x80104000.
Definition rv_state0 : St Entry BootMem := mk_St ∅ rv_boot0 [].
Definition rv_memories : list (Z * Z) := [(0x80000000, 0x80400000)].
Definition rv_setup0 := rv_setup_page_table true 0x1000 0x80200000 0x80300000 0x100200000 rv_memories rv_state0.

Lemma rv_args0 : Forall (map_args_ok rv_pa_ok rv_tmpl_ok)
  (rv_boot_configs true 0x80200000 0x80300000 rv_memories rv_boot0 0xffffffff80000000 0xffffffe080100000).
Proof.
  assert (rv_boot_configs true 0x80200000 0x80300000 rv_memories rv_boot0 0xffffffff80000000 0xffffffe080100000 =
    [mk_MapConfig 0x80000000 0x80000000 0x400000 (ram_pte Normal) true false;
     mk_MapConfig 0xffffffc080000000 0x80000000 0x400000 (ram_pte Normal) true false;
     mk_MapConfig 0xffffffff80000000 0x80200000 0x200000 (ram_pte Normal) true false;
     mk_MapConfig 0xffffffe080100000 0x80100000 0x4000 (ram_pte PerCpu) true false]) as ->
    by (vm_compute; reflexivity).
  repeat (apply Forall_cons; split); [..|by apply Forall_nil].
  all: unfold map_args_ok, pa_range_ok, window; cbn [mc_vaddr mc_paddr mc_size mc_allow_huge mc_pte].
  all: split_and!; try lia; try (by apply Z.mod_divide); try done.
  all: intros y Hy Hd; split; [exact Hd|lia].
Qed.

Lemma riscv_boot_table_agrees_witness :
  ∃ s' root p, rv_setup0 = (s', Ok root) ∧
    rv_virt_to_phys (E := PagingError) true 0x100200000 0xffffffff80000000 rv_boot0 0xffffffc080001234 = Ok p ∧
    @abs _ _ _ _ s' root 0xffffffc080001234 = Some p.
Proof.
  assert (Hlay : rv_layout_ok true 0x80200000 0x80300000 0xffffffff80000000 rv_memories rv_boot0 0xffffffff80000000).
  { unfold rv_layout_ok. change (rv_kimage_size 0x80200000 0x80300000) with 0x200000.
    split_and!; simpl; try lia; try done. apply Forall_singleton. simpl. lia. }
  pose proof (riscv_boot_table_agrees true 0x1000 0x80200000 0x80300000 0x100200000 0xffffffff80000000
    rv_memories eq_refl rv_state0 0xffffffff80000000 0xffffffe080100000 ltac:(split; simpl; lia) Hlay
    ltac:(vm_compute; reflexivity) ltac:(vm_compute; reflexivity) rv_args0) as H.
  fold rv_setup0 in H.
  assert (E : ∃ s' root, rv_setup0 = (s', Ok root)).
  { exists rv_setup0.1, 0x80300000. rewrite (surjective_pairing rv_setup0) at 1.
    apply (f_equal (pair rv_setup0.1)). vm_compute. reflexivity. }
  destruct E as (s' & root & E). rewrite E in H.
  destruct (H (ram_config 0xffffffc080000000 0x80000000 0x400000) 0xffffffc080001234) as (p & Hp & Ha).
  - unfold rv_boot_configs. apply elem_of_app. left. vm_compute. apply list_elem_of_further, list_elem_of_here.
  - reflexivity.
  - exists s', root, p. split; [exact E|]. split; [exact Hp|exact Ha].
Defined.

(** The same machine in the build without user space. *)
Lemma riscv_flat_build_fails_witness :
  (0x80000000, 0x80400000) ∈ rv_memories ∧
  ∀ s' root, rv_setup_page_table false 0x1000 0x80200000 0x80300000 0 rv_memories rv_state0 ≠ (s', Ok root).
Proof.
  split; [apply list_elem_of_here|].
  apply (riscv_flat_build_fails false 0x1000 0x80200000 0x80300000 0 rv_memories eq_refl rv_state0
    0x80000000 0x80400000); try reflexivity; try lia.
  - apply list_elem_of_here.
  - split; simpl; lia.
  - apply Forall_singleton. simpl. lia.
  - assert (all_memory_configs false rv_memories ++ [rv_kimage_config 0x80200000 0x80300000 0x80200000] =
      [mk_MapConfig 0x80000000 0x80000000 0x400000 (ram_pte Normal) true false;
       mk_MapConfig 0x80200000 0x80200000 0x200000 (ram_pte Normal) true false]) as -> by (vm_compute; reflexivity).
    repeat (apply Forall_cons; split); [..|by apply Forall_nil].
    all: unfold map_args_ok, pa_range_ok, window; cbn [mc_vaddr mc_paddr mc_size mc_allow_huge mc_pte].
    all: split_and!; try lia; try (by apply Z.mod_divide); try done.
    all: intros y Hy Hd; split; [exact Hd|lia].
Defined.
