(* ===== verification/PtWitness.v ===== *)
(** * Page tables: concrete runs

    The x86_64 entry format on the boot allocator: the contract of PtTable
    applied to calls that can be evaluated, and the runs that show where the
    code leaves its documentation. *)

From stdpp Require Import base list numbers strings gmap.
From S2P Require Import Prelude PtDef PtFrame PtMap PtGeom PtTree PtMapProof PtUnmapProof PtWalk PteX86 Memory MemoryProof PtTable.
Import X86 DivAlign.
Open Scope Z_scope.

#[local] Instance boot_frames : FrameAllocator BootMem := Ram_FrameAllocator (2 ^ 12).
#[local] Instance boot_frames_laws : FrameAllocatorLaws BootMem x86_pa_ok ram_live ram_ok :=
  Ram_laws 12 ltac:(lia).

(** 15 MB of RAM above the first megabyte. *)
Definition boot0 : BootMem := mk_BootMem 0x100000 0x1000000 0x100000 [] 0 0.
Definition st0 : St Entry BootMem := mk_St ∅ boot0 [].
Definition root0 : Z := 0x100000.
Definition st1 : St Entry BootMem := (new_table st0).1.

Definition tmpl : PteConfig :=
  mk_PteConfig 0 true true true false false false false false false Normal.

(** 2 MB and one page, huge pages allowed. *)
Definition cfg0 : MapConfig := mk_MapConfig 0x40000000 0x200000 0x201000 tmpl true true.

Definition st2 : St Entry BootMem := (map root0 cfg0 st1).1.

Notation boot_ok := (table_ok ram_live ram_ok).

Lemma st1_ok : boot_ok st1 root0 {[root0]}.
Proof.
  pose proof (new_table_run x86_pa_ok any_template ram_live ram_ok st0) as H.
  unfold st1. destruct (new_table st0) as [s r] eqn:E.
  assert (r = Ok root0) as -> by (by vm_compute in E; injection E as _ <-).
  apply H. by split.
Qed.

Lemma cfg0_ok : map_args_ok x86_pa_ok any_template cfg0.
Proof.
  unfold map_args_ok, pa_range_ok, x86_pa_ok. simpl mc_vaddr. simpl mc_size. simpl mc_paddr.
  split_and!; try done; try lia.
  - by exists 0x40000.
  - by exists 0x201.
  - by exists 0x200.
  - intros y Hy Hd. split; [done|lia].
Qed.

Lemma st2_run : map root0 cfg0 st1 = (st2, Ok tt).
Proof.
  rewrite (surjective_pairing (map root0 cfg0 st1)). fold st2.
  apply (f_equal (pair st2)). vm_compute. reflexivity.
Qed.

(** The run is known by its result from here on. *)
#[local] Opaque st1 st2 map unmap.

Lemma map_refines_witness :
  ∃ s' fs', map root0 cfg0 st1 = (s', Ok tt) ∧ boot_ok s' root0 fs' ∧
    ∀ x, window (mc_vaddr cfg0) x →
      abs s' root0 x = if in_range 0x40000000 0x201000 x
                       then Some (0x200000 + (x - 0x40000000)) else abs st1 root0 x.
Proof.
  destruct (map_refines x86_pa_ok any_template ram_live ram_ok st1 root0 {[root0]} cfg0 st1_ok cfg0_ok)
    as (s' & r & fs' & E & Hs & _ & _ & Hr).
  rewrite st2_run in E. pose proof (f_equal snd E) as Er. pose proof (f_equal fst E) as Es.
  cbn [fst snd] in Er, Es. subst r s'. exists st2, fs'.
  split; [exact st2_run|]. split; [exact Hs|exact Hr].
Defined.


(** [unmap] of what [map] mapped. *)
Lemma unmap_refines_witness :
  ∃ s' fs', unmap root0 0x40000000 0x201000 st2 = (s', Ok tt) ∧ boot_ok s' root0 fs' ∧
    ∀ x, window 0x40000000 x →
      abs s' root0 x = if in_range 0x40000000 0x201000 x then None else abs st2 root0 x.
Proof.
  destruct (map_then_full x86_pa_ok any_template ram_live ram_ok st1 root0 {[root0]} cfg0 st2
    st1_ok cfg0_ok st2_run) as (fs & Hs & Hf).
  destruct (unmap_refines x86_pa_ok any_template ram_live ram_ok st2 root0 fs 0x40000000 0x201000 Hs)
    as (s' & fs' & E & Hs' & _ & Hx).
  - split_and!; first [done | by exists 0x40000 | by exists 0x201].
  - exists s', fs'. split; [exact E|]. split; [exact Hs'|exact Hx].
Defined.

Lemma map_unmap_roundtrip_witness :
  ∃ s2 fs2, unmap root0 0x40000000 0x201000 st2 = (s2, Ok tt) ∧ boot_ok s2 root0 fs2 ∧
    ∀ x, window 0x40000000 x → abs s2 root0 x = abs st1 root0 x.
Proof.
  apply (map_unmap_roundtrip x86_pa_ok any_template ram_live ram_ok st1 root0 {[root0]} cfg0 st2
    st1_ok cfg0_ok); [done|exact st2_run].
Defined.

Lemma deallocate_frees_once_witness :
  ∃ s' frames, deallocate root0 st1 = (s', Ok tt) ∧ NoDup frames ∧
    (∀ q, q ∈ frames ↔ q ∈ ({[root0]} : gset Z)) ∧
    astate s' = foldl dealloc_frame (astate st1) frames ∧
    (∀ q, q ∉ ({[root0]} : gset Z) → mem s' !! q = mem st1 !! q).
Proof. apply (deallocate_frees_once ram_live ram_ok st1 root0 {[root0]} st1_ok). Defined.

Lemma map_rejects_witness :
  rejected st1 root0 (mk_MapConfig 0x1008 0x2000 0x1000 tmpl false false)
    (AlignmentError "Virtual address not page aligned").
Proof.
  destruct (map_rejects st1 root0 (mk_MapConfig 0x1008 0x2000 0x1000 tmpl false false)) as (_ & H & _).
  apply H; [done|]. intros [q Hq]. simpl in Hq. lia.
Defined.

(** An address in the block at 1 GB that [map] made. *)
Lemma translate_is_total_witness : ∃ pte l, let config := to_config pte (1 <? l)%nat in
  translate (mem st2) root0 0x40012345 = Ok (0x212345, pte) ∧ valid config = true ∧
  0x212345 = paddr config + 0x40012345 mod level_size l.
Proof.
  destruct (map_then_full x86_pa_ok any_template ram_live ram_ok st1 root0 {[root0]} cfg0 st2
    st1_ok cfg0_ok st2_run) as (fs & Hs & _).
  assert (translate_phys (mem st2) root0 0x40012345 = Ok 0x212345) as Ep by (vm_compute; reflexivity).
  destruct (translate_is_total ram_live ram_ok st2 root0 fs 0x40012345 Hs)
    as [(_ & _ & E & _)|(pte & l & _ & _ & Hv & _ & Et & Et' & _)];
    [rewrite Ep in E; discriminate E|].
  exists pte, l. cbv zeta in *. rewrite Ep in Et'. clear Ep. revert Et Et' Hv. clear Hs.
  generalize (paddr (to_config pte (1 <? l)%nat) + 0x40012345 mod level_size l).
  generalize (valid (to_config pte (1 <? l)%nat)).
  generalize (translate (mem st2) root0 0x40012345).
  intros t v pa. destruct (pa <? 2 ^ 64); [|discriminate 2].
  intros Et E Hv. assert (0x212345 = pa) as <- by congruence. split; [exact Et|]. split; [exact Hv|reflexivity].
Defined.

#[local] Instance x86_full : FullTables.
Proof.
  intros l [H1 H2]. change PT_LEVEL with 4%nat in H2.
  destruct l as [|[|[|[|[|l]]]]]; try lia; reflexivity.
Qed.

Lemma walk_refines_witness :
  ∃ F L, (∀ F', (F ≤ F')%nat → collect F' (mem st1) (walker_new root0 (mk_WalkConfig 0 0x80000000)) = Ok L) ∧
    (∀ i, i ∈ L → pi_is_final_mapping i = true →
       translate_recursive_with_level (mem st1) root0 (pi_vaddr i) PT_LEVEL = Ok (pi_pte i, pi_level i) ∧
       0 ≤ pi_vaddr i < 0x80000000).
Proof.
  destruct (walk_refines (mem st1) root0 {[root0]} (mk_WalkConfig 0 0x80000000))
    as (F & L & HF & HL & _); [apply st1_ok|unfold PT_LEVEL, MAX_WALK_DEPTH; simpl; lia|done|].
  exists F, L. split; [exact HF|exact HL].
Defined.

#[local] Transparent st1 st2 map unmap.

(** ** Where the code leaves its documentation *)

(** One page at 2 MB, the 2 MB below it empty. *)
Definition cfg_2m : MapConfig := mk_MapConfig 0x200000 0x600000 0x1000 tmpl false true.
Definition st_2m : St Entry BootMem := (map root0 cfg_2m st1).1.

(** [unmap] leaves mapped pages behind. An invalid entry is skipped with
    [vaddr += level_size.min(remaining)] from an address inside the entry, so
    the pages of the next entry that the range covers are passed over: after
    [unmap(2M - 4K, 8K)] returned [Ok] the page at 2M is still mapped. *)
Theorem unmap_skips_mapped_page :
  (unmap root0 0x1ff000 0x2000 st_2m).2 = Ok tt ∧
  translate_phys (mem st_2m) root0 0x200000 = Ok 0x600000 ∧
  translate_phys (mem (unmap root0 0x1ff000 0x2000 st_2m).1) root0 0x200000 = Ok 0x600000.
Proof. split_and!; vm_compute; reflexivity. Qed.

(** A page at the top of the address space. *)
Definition cfg_top : MapConfig :=
  mk_MapConfig 0xffffffffc0000000 0x600000 0x1000 tmpl false true.
Definition st_top : St Entry BootMem := (map root0 cfg_top st1).1.

(** [map] and [unmap] disagree at the top of the address space: the end of
    the last root entry is 2^64, which [map] computes with saturating
    operations and [unmap] with a multiplication that overflows, so a page
    that can be mapped there cannot be unmapped. *)
Theorem unmap_overflows_at_top :
  (map root0 cfg_top st1).2 = Ok tt ∧ (unmap root0 0xffffffffc0000000 0x1000 st_top).2 = Stuck.
Proof. split; vm_compute; reflexivity. Qed.

(** [map] does not check the size: with half a page it maps the whole page, and
    with one byte less than a page, on the last page, it panics. *)
Theorem map_size_unchecked :
  (map root0 (mk_MapConfig 0x1000 0x600000 0x800 tmpl false true) st1).2 = Ok tt ∧
  translate_phys (mem (map root0 (mk_MapConfig 0x1000 0x600000 0x800 tmpl false true) st1).1) root0 0x1900 = Ok 0x600900 ∧
  (map root0 (mk_MapConfig 0xfffffffffffff000 0x600000 0xfff tmpl false true) st1).2 = Stuck.
Proof. split_and!; vm_compute; reflexivity. Qed.

(** Unmapping one page of a huge page unmaps the whole huge page, and
    the conflict error of [map] carries the physical address of the new
    mapping, not of the existing one. *)
Theorem unmap_part_of_huge :
  translate_phys (mem st2) root0 0x40100000 = Ok 0x300000 ∧
  (unmap root0 0x40000000 0x1000 st2).2 = Ok tt ∧
  translate_phys (mem (unmap root0 0x40000000 0x1000 st2).1) root0 0x40100000 = Err NotMapped ∧
  (map root0 (mk_MapConfig 0x40200000 0x999000 0x1000 tmpl false true) st2).2 =
    Err (MappingConflict 0x40200000 0x999000).
Proof. split_and!; vm_compute; reflexivity. Qed.

(** One page at 4 KB. *)
Definition st_4k : St Entry BootMem :=
  (map root0 (mk_MapConfig 0x1000 0x600000 0x1000 tmpl false true) st1).1.

(** A walk over a range that starts inside an entry misses what is mapped
    there: the walker compares the first address of an entry with the start of
    the range, so the table that covers the range is not entered. The walk
    over the page at 4 KB ends without a result, although the page is mapped;
    the walk from 0 reports it. *)
Theorem walk_misses_inner_start :
  translate_phys (mem st_4k) root0 0x1000 = Ok 0x600000 ∧
  walk 1000 (mem st_4k) root0 0x1000 0x2000 = Ok [] ∧
  match walk 3000 (mem st_4k) root0 0 0x2000 with
  | Ok l => existsb (λ i, (pi_vaddr i =? 0x1000) && pi_is_final_mapping i) l = true
  | _ => False
  end.
Proof. split_and!; vm_compute; reflexivity. Qed.
