(* ===== verification/Irq.v ===== *)
(** * Interrupts
    From the trap to the handler: the kernel's table of handlers
    (crates/sparreal-kernel/src/os/irq/mod.rs); what the architectures do before
    it is asked (someboot/src/arch/riscv64/trap.rs, loongarch64/trap.rs,
    loongarch64/mod.rs and aarch64/trap.rs, platform/somehal/src/arch/aarch64/gic);
    and how an interrupt is completed at the GIC. *)

From stdpp Require Import base tactics option list numbers sorting functions gmap.
From S2P Require Import Prelude Bits PtFrame Spinlock Tock Gic GicV3 GicProof Gic3Proof.
Open Scope Z_scope.

(** ** The table of handlers
    [H]: the closures that are registered, [behave] what they do, [D] the devices. *)
Record Kernel (H D : Type) : Type := mk_Kernel { k_sys : Sys; irq_vec : gmap Z H; k_dev : D }.
Arguments mk_Kernel {H D}.
Arguments k_sys {H D}.
Arguments irq_vec {H D}.
Arguments k_dev {H D}.
Notation KM H D := (M (Kernel H D) Empty_set).

Definition with_sys {H D A} (f : M Sys Empty_set A) : KM H D A := λ k,
  let '(s, r) := f (k_sys k) in (mk_Kernel s (irq_vec k) (k_dev k), r).
Definition with_dev {H D E A} (f : M D E A) : KM H D A := λ k,
  let '(d, r) := f (k_dev k) in (mk_Kernel (k_sys k) (irq_vec k) d, match r with Ok a => Ok a | _ => Stuck end).

Section Table.
Context {H D : Type} (IRQ_VEC cpu : nat) (others : nat → Sys → Sys).
Context (behave : H → KM H D unit) (irq_set_enabled : Z → bool → KM H D unit).

(** [IRQ_VEC.lock()] and the end of the guard's scope; a handler has dropped
    its own guards when it returns. *)
Definition lock_vec : KM H D unit := with_sys (lock others cpu IRQ_VEC).
Definition drop_vec : KM H D unit := with_sys (λ s, match drop_guard cpu 0 s with Some s' => (s', Ok tt) | None => (s, Stuck) end).

Definition register_handler (irq : Z) (handler : H) : KM H D unit :=
  _ ← lock_vec;
  _ ← modify (λ k, mk_Kernel (k_sys k) (<[irq := handler]> (irq_vec k)) (k_dev k));
  _ ← drop_vec;
  irq_set_enabled irq true.

Definition handle_irq (irq : Z) : KM H D unit :=
  _ ← lock_vec;
  k ← get;
  _ ← match irq_vec k !! irq with Some handler => behave handler | None => mret tt end;
  drop_vec.

(** ** What the architectures do *)

Definition SCAUSE_INTERRUPT_BIT : Z := Z.shiftl 1 63.
Definition SCAUSE_SUPERVISOR_TIMER : Z := 5.
(** [systimer_irq] of riscv64/irq.rs. *)
Definition rv_systimer_irq : Z := 5.

(** [__riscv64_handle_trap]. *)
Definition riscv64_handle_trap (scause : Z) : KM H D unit :=
  if negb (Z.land scause SCAUSE_INTERRUPT_BIT =? 0) &&
     (Z.land scause (unot 64 SCAUSE_INTERRUPT_BIT) =? SCAUSE_SUPERVISOR_TIMER)
  then handle_irq rv_systimer_irq else stuck.

(** [do_vint]: the loop over the pending bits, [fuel] at most. *)
Fixpoint do_vint_loop (fuel : nat) (estat : Z) : KM H D unit :=
  match fuel with
  | O => stuck
  | S fuel =>
      if estat =? 0 then mret tt
      else
        let hwirq := trailing_zeros estat + 1 in
        let estat := Z.land estat (unot 64 (Z.shiftl 1 (hwirq - 1))) in
        _ ← handle_irq (hwirq - 1);
        do_vint_loop fuel estat
  end.
Definition do_vint (is_ : Z) : KM H D unit := do_vint_loop 65 is_.
End Table.

(** *** LoongArch *)

Definition EXCCODE_INT_NUM : Z := 15.
Inductive IrqKind : Type := Private (hwirq : Z) | External (hwirq : Z).
Definition hwirq_of (k : IrqKind) : Z := match k with Private hwirq => hwirq | External hwirq => hwirq end.
Definition kind_is_private (k : IrqKind) : bool := match k with Private _ => true | External _ => false end.
Definition kind_is_external (k : IrqKind) : bool := match k with External _ => true | Private _ => false end.
Definition private_irq {E} (hwirq : Z) : outcome E Z := if hwirq <? EXCCODE_INT_NUM then Ok hwirq else Stuck.
Definition extern_irq {E} (hwirq : Z) : outcome E Z := uadd 64 hwirq EXCCODE_INT_NUM.
Definition irq_kind (irq : Z) : IrqKind :=
  if irq <? EXCCODE_INT_NUM then Private irq else External (irq - EXCCODE_INT_NUM).
(** The numbers of the timer and of the interrupts between processors (register/irq.rs). *)
Definition TI : Z := 11.
Definition IPI : Z := 12.
Definition is_timer (irq : Z) : bool := irq =? TI.
Definition is_ipi (irq : Z) : bool := irq =? IPI.

(** [irq_is_enabled] and [irq_set_enable] on the field ECFG.LIE. *)
Definition la_irq_is_enabled (irq lie : Z) : bool :=
  match irq_kind irq with Private hwirq => has lie (Z.shiftl 1 hwirq) | External _ => false end.
Definition la_irq_set_enable (irq : Z) (enable : bool) (lie : Z) : Z :=
  match irq_kind irq with
  | Private hwirq => if enable then Z.lor lie (Z.shiftl 1 hwirq) else Z.ldiff lie (Z.shiftl 1 hwirq)
  | External _ => lie
  end.

(** *** AArch64 *)

(** [handle_sync] and [handle_data_abort], on the syndrome; [known]: the values
    the enumeration of exception classes has. *)
Inductive PageFaultReason : Type := FaultRead | FaultWrite.
Definition fault_reason (iss : Z) : PageFaultReason :=
  let wnr := has iss (Z.shiftl 1 6) in
  let cm := has iss (Z.shiftl 1 8) in
  if wnr && negb cm then FaultWrite else FaultRead.

Inductive SyncResult : Type :=
| SyncReturn
| SyncPanic
| SyncFault (vaddr : Z) (reason : PageFaultReason) (pc : Z).
Definition handle_data_abort (iss far elr : Z) : SyncResult := SyncFault far (fault_reason iss) elr.
Definition ESR_ISS : Field := mk_Field 0 25.
Definition ESR_EC : Field := mk_Field 26 6.
Definition EC_SVC64 : Z := 0x15.
Definition EC_DataAbortLowerEL : Z := 0x24.
Definition EC_DataAbortCurrentEL : Z := 0x25.
Definition EC_Brk64 : Z := 0x3c.
Definition handle_sync (known : Z → bool) (esr far elr : Z) : SyncResult :=
  let ec := read ESR_EC esr in
  if negb (known ec) then SyncReturn
  else if ec =? EC_SVC64 then SyncReturn
  else if (ec =? EC_DataAbortLowerEL) || (ec =? EC_DataAbortCurrentEL) then handle_data_abort (read ESR_ISS esr) far elr
  else if ec =? EC_Brk64 then SyncReturn
  else SyncPanic.

(** The platform's [handle_irq] of gic/v2.rs and gic/v3.rs, and [irq_handler];
    [handle]: what the kernel was linked with. *)
Section Platform.
Context {H D : Type} `{RegFile D}.
Context (handle : Z → KM H D unit).

Definition gic2_handle_irq : KM H D Z :=
  ack ← with_dev (V2.ack (E := Empty_set));
  let irq_num := match ack with V2.AckOther intid => intid | V2.AckSGI intid _ => intid end in
  _ ← handle irq_num;
  _ ← (if negb (V2.ack_is_special ack) then
         _ ← with_dev (V2.eoi (E := Empty_set) ack);
         two_step ← with_dev (V2.eoi_mode_ns (E := Empty_set));
         if two_step : bool then with_dev (V2.dir (E := Empty_set) ack) else mret tt
       else mret tt);
  mret irq_num.

Definition gic3_handle_irq : KM H D Z :=
  ack ← with_dev GicV3.ack1;
  _ ← handle ack;
  _ ← (if negb (is_special ack) then
         _ ← with_dev (GicV3.eoi1 ack);
         two_step ← with_dev GicV3.eoi_mode;
         if two_step : bool then with_dev (GicV3.dir ack) else mret tt
       else mret tt);
  mret ack.

(** [is_support_icc], on ID_AA64PFR0_EL1, and [irq_handler]. *)
Definition is_support_icc (pfr0 : Z) : bool := 0 <? Z.land (Z.shiftr pfr0 24) 0xf.
Definition irq_handler (pfr0 : Z) : KM H D Z := if is_support_icc pfr0 then gic3_handle_irq else gic2_handle_irq.
End Platform.

(** ** The loop over the pending bits *)

Lemma land_double a b : Z.land (2 * a) (2 * b) = 2 * Z.land a b.
Proof. rewrite !(Z.mul_comm 2), <- !(Z.shiftl_mul_pow2 _ 1) by lia. symmetry. apply Z.shiftl_land. Qed.
Lemma land_odd a b : Z.land (2 * a + 1) (2 * b + 1) = 2 * Z.land a b + 1.
Proof.
  apply Z.bits_inj'. intros n Hn. destruct (decide (n = 0)) as [->|Hne].
  - by rewrite Z.land_spec, !Z.testbit_odd_0.
  - replace n with (Z.succ (Z.pred n)) by lia. by rewrite Z.land_spec, !Z.testbit_odd_succ, Z.land_spec by lia.
Qed.

(** [trailing_zeros] is the place of the lowest bit. *)
Lemma lowest_bit p : ∃ k, 0 ≤ k ∧ Z.land (Zpos p) (- Zpos p) = 2 ^ k ∧
  Z.testbit (Zpos p) k = true ∧ ∀ j, j < k → Z.testbit (Zpos p) j = false.
Proof.
  induction p as [p _|p (k & Hk & El & Hb & Hlow)|].
  - exists 0. split_and!; [done| |done|intros j Hj; by apply Z.testbit_neg_r].
    replace (- Zpos p~1) with (2 * Z.lnot (Zpos p) + 1) by (rewrite Pos2Z.inj_xI; unfold Z.lnot; lia).
    rewrite Pos2Z.inj_xI, land_odd, Z.land_lnot_diag. done.
  - exists (k + 1). rewrite Pos2Z.inj_xO. split_and!; [lia| | |].
    + replace (- (2 * Zpos p)) with (2 * - Zpos p) by lia. rewrite land_double, El, Z.pow_add_r by lia. lia.
    + change (k + 1) with (Z.succ k). by rewrite Z.testbit_even_succ.
    + intros j Hj. destruct (decide (j < 0)); [by apply Z.testbit_neg_r|]. destruct (decide (j = 0)) as [->|]; [apply Z.testbit_even_0|].
      replace j with (Z.succ (Z.pred j)) by lia. rewrite Z.testbit_even_succ by lia. apply Hlow. lia.
  - exists 0. split_and!; try done. intros j Hj. by apply Z.testbit_neg_r.
Qed.

Lemma trailing_zeros_spec x : 0 < x → 0 ≤ trailing_zeros x ∧ Z.testbit x (trailing_zeros x) = true ∧
  ∀ j, j < trailing_zeros x → Z.testbit x j = false.
Proof.
  intros Hx. destruct x as [|p|p]; [lia| |lia]. destruct (lowest_bit p) as (k & Hk & El & Hb & Hlow).
  unfold trailing_zeros. rewrite (proj2 (Z.eqb_neq (Zpos p) 0)) by lia. rewrite El, Z.log2_pow2 by done. done.
Qed.

(** The interrupts of a word of pending bits, the lowest first. *)
Definition pending_irqs (x : Z) : list Z := filter (λ i, Z.testbit x i = true) (seqZ 0 64).

Lemma filter_testbit_ext x y (l : list Z) : (∀ i, i ∈ l → Z.testbit x i = Z.testbit y i) →
  filter (λ i, Z.testbit x i = true) l = filter (λ i, Z.testbit y i = true) l.
Proof.
  induction l as [|i l IH]; intros Hl; [done|]. rewrite !filter_cons, IH by set_solver.
  pose proof (Hl i ltac:(set_solver)) as E. by rewrite E.
Qed.

Lemma filter_testbit_none x (l : list Z) : (∀ i, i ∈ l → Z.testbit x i = false) → filter (λ i, Z.testbit x i = true) l = [].
Proof.
  induction l as [|i l IH]; intros Hl; [done|]. rewrite filter_cons, IH by set_solver.
  rewrite decide_False; [done|]. rewrite Hl by set_solver. done.
Qed.

Lemma StronglySorted_seqZ a n : StronglySorted Z.lt (seqZ a n).
Proof.
  apply Sorted_StronglySorted; [intros x y z; lia|]. unfold seqZ. generalize (Z.to_nat n). clear n. intros n. 
  enough (∀ k, Sorted Z.lt ((λ i : nat, Z.add (Z.of_nat i) a) <$> seq k n)) as Hs by apply Hs.
  induction n as [|n IH]; intros k; simpl; [constructor|]. constructor; [apply IH|]. destruct n; simpl; constructor. lia.
Qed.

Lemma StronglySorted_filter {A} (R : relation A) (P : A → Prop) `{∀ x, Decision (P x)} (l : list A) : StronglySorted R l → StronglySorted R (filter P l).
Proof.
  induction 1 as [|x l _ IH Hx]; [constructor|]. rewrite filter_cons. case_decide; [|done]. constructor; [done|].
  apply Forall_forall. intros y [_ Hy]%list_elem_of_filter. by eapply Forall_forall in Hx.
Qed.

(** The lowest pending interrupt, and the others. *)
Lemma pending_split x k : 0 ≤ k → 0 < x < 2 ^ 64 → (∀ j, j < k → Z.testbit x j = false) →
  let t := trailing_zeros x in let x' := Z.land x (unot 64 (Z.shiftl 1 t)) in
  k ≤ t < 64 ∧ 0 ≤ x' < 2 ^ 64 ∧ (∀ j, j < t + 1 → Z.testbit x' j = false) ∧
  filter (λ i, Z.testbit x i = true) (seqZ k (64 - k)) = t :: filter (λ i, Z.testbit x' i = true) (seqZ (t + 1) (64 - (t + 1))).
Proof.
  intros Hk Hx Hlow t x'. destruct (trailing_zeros_spec x) as (Ht & Hb & Hlt); [lia|]. fold t in Ht, Hb, Hlt.
  assert (k ≤ t) as Hkt by (destruct (decide (k ≤ t)); [done|]; rewrite Hlow in Hb by lia; done).
  assert (t < 64) as Ht64.
  { destruct (decide (t < 64)); [done|]. by rewrite (testbit_above x 64 t) in Hb by lia. }
  assert (0 ≤ x' < 2 ^ 64) as Hx'.
  { replace x' with (x' mod 2 ^ 64); [apply Z.mod_pos_bound; lia|]. rewrite <- Z.land_ones by lia. unfold x'.
    rewrite (Z.land_comm x), <- Z.land_assoc, Z.land_ones, Z.mod_small by lia. done. }
  split; [lia|]. split; [done|]. split.
  - intros j Hj. destruct (decide (j < 0)); [by apply Z.testbit_neg_r|]. unfold x'. rewrite unot64_bit by lia.
    destruct (Z.eqb_spec t j) as [->|]; [by rewrite andb_false_r|]. by rewrite Hlt by lia.
  - replace (64 - k) with ((t - k) + (64 - t)) by lia. rewrite seqZ_app by lia. rewrite (seqZ_cons _ (64 - t)) by lia.
    rewrite !filter_app, filter_testbit_none by (intros i Hi%elem_of_seqZ; apply Hlt; lia).
    replace (k + (t - k)) with t by lia. rewrite filter_cons, decide_True by done. simpl. f_equal.
    change (Z.succ t) with (t + 1). replace (Z.pred (64 - t)) with (64 - (t + 1)) by lia.
    apply filter_testbit_ext. intros i Hi%elem_of_seqZ. unfold x'. rewrite unot64_bit by lia.
    by rewrite (proj2 (Z.eqb_neq t i)), andb_true_r by lia.
Qed.

Section TableProof.
Context {H D : Type} (IRQ_VEC cpu : nat) (others : nat → Sys → Sys) (behave : H → KM H D unit).
Notation handle_irq := (handle_irq IRQ_VEC cpu others behave).

Definition handle_all (l : list Z) : KM H D unit := foldr (λ i m, _ ← handle_irq i; m) (mret tt) l.

Lemma do_vint_loop_run fuel : ∀ k x s, 0 ≤ k ≤ 64 → 0 ≤ x < 2 ^ 64 → (∀ j, j < k → Z.testbit x j = false) → 64 - k < Z.of_nat fuel →
  do_vint_loop IRQ_VEC cpu others behave fuel x s = handle_all (filter (λ i, Z.testbit x i = true) (seqZ k (64 - k))) s.
Proof.
  induction fuel as [|fuel IH]; intros k x s Hk Hx Hlow Hf; [lia|]. simpl. destruct (Z.eqb_spec x 0) as [->|Hne].
  - by rewrite filter_testbit_none by (intros; apply Z.bits_0).
  - destruct (pending_split x k ltac:(lia) ltac:(lia) Hlow) as (Ht & Hx' & Hlow' & ->). cbn [handle_all foldr].
    rewrite !Z.add_simpl_r. unfold mbind, M_bind. destruct (handle_irq _ s) as [s' [[]|e|]]; [|done..].
    apply IH; [lia|done|done|lia].
Qed.

(** C25: Every interrupt that is pending on LoongArch is handled once, the lowest
    number first, whatever the handlers do; and the loop ends. *)
Theorem do_vint_handles_pending x k : 0 ≤ x < 2 ^ 64 →
  do_vint IRQ_VEC cpu others behave x k = handle_all (pending_irqs x) k ∧
  StronglySorted Z.lt (pending_irqs x) ∧ ∀ i, i ∈ pending_irqs x ↔ Z.testbit x i = true.
Proof.
  intros Hx. split; [|split].
  - apply do_vint_loop_run; [lia|done|intros; by apply Z.testbit_neg_r|lia].
  - apply StronglySorted_filter, StronglySorted_seqZ.
  - intros i. unfold pending_irqs. rewrite list_elem_of_filter, elem_of_seqZ. split; [by intros []|]. intros Hb. split; [done|].
    destruct (decide (i < 0)); [by rewrite Z.testbit_neg_r in Hb|]. destruct (decide (i < 64)); [lia|].
    by rewrite (testbit_above x 64 i) in Hb by lia.
Qed.
End TableProof.

(** ** Handling an interrupt *)

Section Handling.
Context {H D : Type} (IRQ_VEC cpu : nat) (others : nat → Sys → Sys).
Context (behave : H → KM H D unit) (irq_set_enabled : Z → bool → KM H D unit).
Notation hirq := (handle_irq IRQ_VEC cpu others behave).
Notation register_handler := (register_handler IRQ_VEC cpu others irq_set_enabled).

(** The lock is free at the first attempt. *)
Definition lock_free (k : Kernel H D) : Prop := IRQ_VEC ∉ locked (others 99%nat (k_sys k)).
(** The machine inside of the critical section. *)
Definition entered (k : Kernel H D) : Kernel H D :=
  mk_Kernel (try_lock cpu IRQ_VEC (others 99%nat (k_sys k))).1 (irq_vec k) (k_dev k).
(** ... and back outside. *)
Definition leave (saved : bool) (k : Kernel H D) : Kernel H D :=
  mk_Kernel (NoIrqGuard_drop cpu saved (mk_Sys (locked (k_sys k) ∖ {[IRQ_VEC]}) (irq (k_sys k))
    (<[cpu := tail (guards (k_sys k) cpu)]> (guards (k_sys k))))) (irq_vec k) (k_dev k).

Lemma lock_vec_run (k : Kernel H D) : lock_free k → lock_vec IRQ_VEC cpu others k = (entered k, Ok tt).
Proof.
  intros Hf. unfold lock_vec, with_sys, entered, lock. simpl. rewrite (try_lock_eq cpu IRQ_VEC (others _ _)).
  by rewrite bool_decide_eq_false_2.
Qed.

Lemma entered_guards k : lock_free k →
  guards (k_sys (entered k)) cpu = (IRQ_VEC, irq (others 99%nat (k_sys k)) cpu) :: guards (others 99%nat (k_sys k)) cpu ∧
  irq (k_sys (entered k)) cpu = false ∧ IRQ_VEC ∈ locked (k_sys (entered k)).
Proof.
  intros Hf. unfold entered. cbn [k_sys]. rewrite try_lock_eq, bool_decide_eq_false_2 by done. cbn [fst guards irq locked].
  rewrite !fn_lookup_insert. split_and!; [done..|set_solver].
Qed.

Lemma drop_vec_run (k : Kernel H D) saved gs : guards (k_sys k) cpu = (IRQ_VEC, saved) :: gs →
  drop_vec cpu k = (leave saved k, Ok tt).
Proof. intros Eg. unfold drop_vec, with_sys, drop_guard, leave, raw_unlock. simpl. rewrite Eg. reflexivity. Qed.

(** A handler that leaves the guards as it finds them. *)
Definition returns (h : H) (k k' : Kernel H D) : Prop :=
  behave h k = (k', Ok tt) ∧ guards (k_sys k') cpu = guards (k_sys k) cpu.

Lemma table_irq_run irq k k' : lock_free k →
  match irq_vec k !! irq with Some h => returns h (entered k) k' | None => k' = entered k end →
  hirq irq k = (leave (Spinlock.irq (others 99%nat (k_sys k)) cpu) k', Ok tt).
Proof.
  intros Hf Hh. destruct (entered_guards k Hf) as (Eg & _ & _). unfold handle_irq.
  rewrite (bind_run _ _ _ _ _ (lock_vec_run k Hf)). rewrite (bind_run get _ _ _ _ eq_refl). change (irq_vec (entered k)) with (irq_vec k).
  destruct (irq_vec k !! irq) as [h|].
  - destruct Hh as [Eh Eg']. rewrite (bind_run _ _ _ _ _ Eh). apply drop_vec_run with (guards (others 99%nat (k_sys k)) cpu). by rewrite Eg'.
  - subst k'. by apply drop_vec_run with (guards (others 99%nat (k_sys k)) cpu).
Qed.

(** An interrupt runs the handler in the table for it once, with the
    interrupts of the processor off and the table locked; afterwards the table
    is unlocked, the guards are those of before and the interrupts are on again
    if they were, with the devices as the handler left them. *)
Theorem irq_runs_handler irq h k k1 : lock_free k → irq_vec k !! irq = Some h → returns h (entered k) k1 →
  Spinlock.irq (k_sys (entered k)) cpu = false ∧ IRQ_VEC ∈ locked (k_sys (entered k)) ∧
  ∃ k2, hirq irq k = (k2, Ok tt) ∧ k_dev k2 = k_dev k1 ∧ irq_vec k2 = irq_vec k1 ∧
    locked (k_sys k2) = locked (k_sys k1) ∖ {[IRQ_VEC]} ∧
    guards (k_sys k2) cpu = guards (others 99%nat (k_sys k)) cpu ∧
    Spinlock.irq (k_sys k2) cpu = Spinlock.irq (others 99%nat (k_sys k)) cpu || Spinlock.irq (k_sys k1) cpu.
Proof.
  intros Hf Hh Hr. destruct (entered_guards k Hf) as (Eg & Ei & El). split; [done|]. split; [done|].
  eexists. split; [apply (table_irq_run irq k k1 Hf); by rewrite Hh|]. unfold leave. cbn [k_sys k_dev irq_vec].
  destruct (irq_drop_frame cpu (Spinlock.irq (others 99%nat (k_sys k)) cpu) (mk_Sys (locked (k_sys k1) ∖ {[IRQ_VEC]}) (Spinlock.irq (k_sys k1))
    (<[cpu := tail (guards (k_sys k1) cpu)]> (guards (k_sys k1))))) as [-> ->]. cbn [locked guards].
  split_and!; [done..| |].
  - rewrite fn_lookup_insert, (proj2 Hr), Eg. done.
  - destruct (Spinlock.irq (others 99%nat (k_sys k)) cpu); simpl; [apply fn_lookup_insert|done].
Qed.

(** Registering a handler takes the same lock: inside of a handler it panics.
    So does every interrupt on a processor while another one handles one for
    longer than a hundred attempts to take the lock. *)
Lemma lock_vec_held (k : Kernel H D) : IRQ_VEC ∈ locked (k_sys k) →
  (∀ n s, IRQ_VEC ∈ locked s → IRQ_VEC ∈ locked (others n s)) → (lock_vec IRQ_VEC cpu others k).2 = Stuck.
Proof.
  intros Hl Ho. unfold lock_vec, with_sys. pose proof (lock_loop_run 100 others cpu IRQ_VEC (k_sys k) ltac:(auto) Hl) as E.
  unfold lock. destruct (lock_loop 100 others cpu IRQ_VEC (k_sys k)) as [s r]. exact E.
Qed.

Lemma bind_stuck {S Er A B} (m : M S Er A) (f : A → M S Er B) s : (m s).2 = Stuck → ((m ≫= f) s).2 = Stuck.
Proof. unfold mbind, M_bind. destruct (m s) as [s' r]. simpl. by intros ->. Qed.

Theorem irq_table_held irq h (k : Kernel H D) : IRQ_VEC ∈ locked (k_sys k) →
  (∀ n s, IRQ_VEC ∈ locked s → IRQ_VEC ∈ locked (others n s)) →
  (hirq irq k).2 = Stuck ∧ (register_handler irq h k).2 = Stuck.
Proof. intros Hl Ho. split; by apply bind_stuck, lock_vec_held. Qed.

Theorem registering_handler_panics irq h irq' h' k : lock_free k → irq_vec k !! irq = Some h →
  (∀ k, behave h k = register_handler irq' h' k) →
  (∀ n s, IRQ_VEC ∈ locked s → IRQ_VEC ∈ locked (others n s)) → (hirq irq k).2 = Stuck.
Proof.
  intros Hf Hh Hb Ho. unfold handle_irq. rewrite (bind_run _ _ _ _ _ (lock_vec_run k Hf)).
  rewrite (bind_run get _ _ _ _ eq_refl). change (irq_vec (entered k)) with (irq_vec k). rewrite Hh. apply bind_stuck. rewrite Hb.
  apply bind_stuck, lock_vec_held; [|done]. apply (entered_guards k Hf).
Qed.
End Handling.

(** ** Completing an interrupt
    What a controller promises: which interrupts are running, the latest first,
    and which are active; the mode decides whether the end of an interrupt also
    deactivates it. *)
Class IrqChip (D T E : Type) : Type := {
  chip_ack : M D E T;
  chip_id : T → Z;
  chip_special : T → bool;
  chip_eoi : T → M D E unit;
  chip_two_step : M D E bool;
  chip_dir : T → M D E unit
}.

Class IrqChipLaws (D T E : Type) `{IrqChip D T E} : Type := {
  chip_running : D → list T;
  chip_active : D → list T;
  chip_mode : D → bool;
  chip_ack_law d : ∃ d' t, chip_ack d = (d', Ok t) ∧ chip_mode d' = chip_mode d ∧
    let new := if chip_special t then [] else [t] in
    chip_running d' = new ++ chip_running d ∧ chip_active d' = new ++ chip_active d;
  chip_eoi_law d t r a : chip_running d = t :: r → chip_active d = t :: a →
    ∃ d', chip_eoi t d = (d', Ok tt) ∧ chip_mode d' = chip_mode d ∧ chip_running d' = r ∧
      chip_active d' = if chip_mode d then t :: a else a;
  chip_two_step_law d : ∃ d', chip_two_step d = (d', Ok (chip_mode d)) ∧ chip_mode d' = chip_mode d ∧
    chip_running d' = chip_running d ∧ chip_active d' = chip_active d;
  chip_dir_law d t a : chip_mode d = true → chip_active d = t :: a →
    ∃ d', chip_dir t d = (d', Ok tt) ∧ chip_mode d' = chip_mode d ∧ chip_running d' = chip_running d ∧ chip_active d' = a
}.

(** The same interrupts run and are active. *)
Definition chip_same {D T E} `{IrqChipLaws D T E} (d d' : D) : Prop :=
  chip_mode d' = chip_mode d ∧ chip_running d' = chip_running d ∧ chip_active d' = chip_active d.

Section Complete.
Context {H D T E : Type} `{IrqChip D T E} (handle : Z → KM H D unit).

Definition complete (t : T) : KM H D unit :=
  if negb (chip_special t) then
    _ ← with_dev (chip_eoi t);
    two_step ← with_dev chip_two_step;
    if two_step : bool then with_dev (chip_dir t) else mret tt
  else mret tt.
Definition take_interrupt : KM H D Z :=
  t ← with_dev chip_ack; _ ← handle (chip_id t); _ ← complete t; mret (chip_id t).

Context `{!IrqChipLaws D T E}.

Definition with_device (d : D) (k : Kernel H D) : Kernel H D := mk_Kernel (k_sys k) (irq_vec k) d.

Lemma with_dev_run {Er A} (f : M D Er A) (k : Kernel H D) d a : f (k_dev k) = (d, Ok a) → with_dev f k = (with_device d k, Ok a).
Proof. intros Ef. unfold with_dev. by rewrite Ef. Qed.

Lemma chip_complete_run t k r a : chip_special t = false → chip_running (k_dev k) = t :: r → chip_active (k_dev k) = t :: a →
  ∃ d, complete t k = (with_device d k, Ok tt) ∧ chip_mode d = chip_mode (k_dev k) ∧ chip_running d = r ∧ chip_active d = a.
Proof.
  intros Es Er Ea. unfold complete. rewrite Es. cbn [negb].
  destruct (chip_eoi_law (k_dev k) t r a Er Ea) as (d1 & E1 & Em1 & Er1 & Ea1).
  rewrite (bind_run _ _ _ _ _ (with_dev_run _ k _ _ E1)).
  destruct (chip_two_step_law d1) as (d2 & E2 & Em2 & Er2 & Ea2).
  rewrite (bind_run _ _ _ _ _ (with_dev_run _ (with_device d1 k) _ _ E2)). rewrite Em1 in *.
  destruct (chip_mode (k_dev k)) eqn:Em.
  - destruct (chip_dir_law d2 t a) as (d3 & E3 & Em3 & Er3 & Ea3); [congruence..|]. exists d3.
    rewrite (with_dev_run _ (with_device d2 (with_device d1 k)) _ _ E3). split; [done|]. split_and!; congruence.
  - exists d2. split; [done|]. split_and!; congruence.
Qed.

(** What the completion does to the controller: nothing for a special number,
    else it ends the interrupt, and deactivates it if that is a second step. *)
Definition chip_ended (t : T) (d d' : D) : Prop :=
  if chip_special t then d' = d
  else ∃ d1 d2 two, chip_eoi t d = (d1, Ok tt) ∧ chip_two_step d1 = (d2, Ok two) ∧
    if two : bool then chip_dir t d2 = (d', Ok tt) else d' = d2.

Lemma with_dev_inv {A} (f : M D E A) (k k' : Kernel H D) a : with_dev f k = (k', Ok a) → f (k_dev k) = (k_dev k', Ok a).
Proof. unfold with_dev. destruct (f (k_dev k)) as [d [x|e|]]; by intros [= <- <-]. Qed.

Lemma chip_complete_ended t k k' : complete t k = (k', Ok tt) → chip_ended t (k_dev k) (k_dev k').
Proof.
  unfold complete, chip_ended. destruct (chip_special t); cbn [negb]; [by intros [= <-]|].
  intros (k1 & [] & E1%with_dev_inv & (k2 & two & E2%with_dev_inv & E3)%bind_ok_inv)%bind_ok_inv.
  exists (k_dev k1), (k_dev k2), two. split; [done|]. split; [done|].
  destruct two; [by apply with_dev_inv in E3|by injection E3 as <-].
Qed.

(** What is acknowledged is handled and completed once, and a spurious
    interrupt is not completed. *)
Lemma take_interrupt_run k : (∀ n d, ∃ k', handle n (with_device d k) = (k', Ok tt) ∧ chip_same d (k_dev k')) →
  ∃ d t k1 k', chip_ack (k_dev k) = (d, Ok t) ∧ handle (chip_id t) (with_device d k) = (k1, Ok tt) ∧
    complete t k1 = (k', Ok tt) ∧ take_interrupt k = (k', Ok (chip_id t)) ∧ chip_same (k_dev k) (k_dev k') ∧
    (chip_special t = true → k' = k1) ∧ irq_vec k' = irq_vec k1 ∧ k_sys k' = k_sys k1.
Proof.
  intros Hh. destruct (chip_ack_law (k_dev k)) as (d & t & Ea & Em & Hr & Ht). unfold take_interrupt.
  rewrite (bind_run _ _ _ _ _ (with_dev_run _ k _ _ Ea)).
  destruct (Hh (chip_id t) d) as (k1 & E1 & Hs). rewrite (bind_run _ _ _ _ _ E1). destruct Hs as (Em1 & Er1 & Ea1).
  cbn [with_device k_dev] in *. destruct (chip_special t) eqn:Es; cbn [app] in Hr, Ht.
  - exists d, t, k1, k1. assert (complete t k1 = (k1, Ok tt)) as Ec by (unfold complete; by rewrite Es).
    rewrite (bind_run _ _ _ _ _ Ec). split_and!; try done. unfold chip_same. split_and!; congruence.
  - destruct (chip_complete_run t k1 _ _ Es ltac:(by rewrite Er1) ltac:(by rewrite Ea1)) as (d2 & Ec & Em2 & Er2 & Ea2).
    exists d, t, k1, (with_device d2 k1). rewrite (bind_run _ _ _ _ _ Ec). split_and!; try done; [|congruence|done..]. unfold chip_same. cbn [with_device k_dev]. split_and!; congruence.
Qed.
End Complete.

(** ** The GIC as such a controller *)

(** What is asked of the CPU interface's registers of a GICv2: reading the
    acknowledge register makes an interrupt running and active, writing back
    what names it ends it. *)
Class GiccLaws (D : Type) `{RegFile D} : Type := {
  gicc_running : D → list V2.Ack;
  gicc_active : D → list V2.Ack;
  gicc_ack_law d : let d' := touch Gicc IAR 0 d in let a := V2.ack_of_u32 (peek Gicc IAR 0 d) in
    let new := if V2.ack_is_special a then [] else [a] in
    peek Gicc CTLR 0 d' = peek Gicc CTLR 0 d ∧ gicc_running d' = new ++ gicc_running d ∧ gicc_active d' = new ++ gicc_active d;
  gicc_eoi_law d t v r a : V2.ack_of_u32 v = t → gicc_running d = t :: r → gicc_active d = t :: a →
    let d' := poke Gicc EOIR 0 v d in
    peek Gicc CTLR 0 d' = peek Gicc CTLR 0 d ∧ gicc_running d' = r ∧
    gicc_active d' = if is_set V2.CTLR_EOImodeNS (peek Gicc CTLR 0 d) then t :: a else a;
  gicc_ctlr_law d : let d' := touch Gicc CTLR 0 d in
    peek Gicc CTLR 0 d' = peek Gicc CTLR 0 d ∧ gicc_running d' = gicc_running d ∧ gicc_active d' = gicc_active d;
  gicc_dir_law d t v a : V2.ack_of_u32 v = t → is_set V2.CTLR_EOImodeNS (peek Gicc CTLR 0 d) = true → gicc_active d = t :: a →
    let d' := poke Gicc DIR 0 v d in
    peek Gicc CTLR 0 d' = peek Gicc CTLR 0 d ∧ gicc_running d' = gicc_running d ∧ gicc_active d' = a;
  gicc_valid d t : t ∈ gicc_running d ∨ t ∈ gicc_active d → ack_valid t
}.

(** A type of devices that is seen through its GICv2, or its GICv3. *)
Definition irq_of_ack (a : V2.Ack) : Z := match a with V2.AckOther intid => intid | V2.AckSGI intid _ => intid end.
#[export] Instance gic2_chip {D} `{RegFile D} : IrqChip D V2.Ack Empty_set := {|
  chip_ack := V2.ack;
  chip_id := irq_of_ack;
  chip_special := V2.ack_is_special;
  chip_eoi := V2.eoi;
  chip_two_step := V2.eoi_mode_ns;
  chip_dir := V2.dir
|}.

#[export] Instance gic2_chip_laws {D} `{GiccLaws D} : IrqChipLaws D V2.Ack Empty_set.
Proof.
  refine {|
    chip_running := gicc_running;
    chip_active := gicc_active;
    chip_mode := λ d, is_set V2.CTLR_EOImodeNS (peek Gicc CTLR 0 d)
  |}.
  - intros d. destruct (gicc_ack_law d) as (Ec & Er & Ea). eexists _, _. split; [reflexivity|]. simpl. by rewrite Ec.
  - intros d t r a Er Ea. assert (ack_valid t) as Hv by (apply (gicc_valid d); left; rewrite Er; left).
    destruct (gicc_eoi_law d t (V2.u32_of_ack t) r a) as (Ec & Er' & Ea'); [by apply ack_of_u32_of_ack|done..|].
    eexists. split; [reflexivity|]. simpl. by rewrite Ec.
  - intros d. destruct (gicc_ctlr_law d) as (Ec & Er & Ea). eexists. split; [reflexivity|]. simpl. by rewrite Ec.
  - intros d t a Hm Ea. assert (ack_valid t) as Hv by (apply (gicc_valid d); right; rewrite Ea; left).
    destruct (gicc_dir_law d t (V2.u32_of_ack t) a) as (Ec & Er' & Ea'); [by apply ack_of_u32_of_ack|done..|].
    eexists. split; [reflexivity|]. simpl. by rewrite Ec.
Defined.

(** And of a GICv3's. *)
Class IccLaws (D : Type) `{RegFile D} : Type := {
  icc_running : D → list Z;
  icc_active : D → list Z;
  icc_ack_law d : let d' := touch Icc ICC_IAR1_EL1 0 d in let a := read ICC_INTID (peek Icc ICC_IAR1_EL1 0 d) in
    let new := if is_special a then [] else [a] in
    peek Icc ICC_CTLR_EL1 0 d' = peek Icc ICC_CTLR_EL1 0 d ∧ icc_running d' = new ++ icc_running d ∧ icc_active d' = new ++ icc_active d;
  icc_eoi_law d t v r a : read ICC_INTID v = t → icc_running d = t :: r → icc_active d = t :: a →
    let d' := poke Icc ICC_EOIR1_EL1 0 v d in
    peek Icc ICC_CTLR_EL1 0 d' = peek Icc ICC_CTLR_EL1 0 d ∧ icc_running d' = r ∧
    icc_active d' = if is_set ICC_CTLR_EOIMODE (peek Icc ICC_CTLR_EL1 0 d) then t :: a else a;
  icc_ctlr_law d : let d' := touch Icc ICC_CTLR_EL1 0 d in
    peek Icc ICC_CTLR_EL1 0 d' = peek Icc ICC_CTLR_EL1 0 d ∧ icc_running d' = icc_running d ∧ icc_active d' = icc_active d;
  icc_dir_law d t v a : read ICC_INTID v = t → is_set ICC_CTLR_EOIMODE (peek Icc ICC_CTLR_EL1 0 d) = true → icc_active d = t :: a →
    let d' := poke Icc ICC_DIR_EL1 0 v d in
    peek Icc ICC_CTLR_EL1 0 d' = peek Icc ICC_CTLR_EL1 0 d ∧ icc_running d' = icc_running d ∧ icc_active d' = a;
  icc_valid d t : t ∈ icc_running d ∨ t ∈ icc_active d → 0 ≤ t < 2 ^ 24
}.

#[export] Instance gic3_chip {D} `{RegFile D} : IrqChip D IntId V3Error := {|
  chip_ack := GicV3.ack1;
  chip_id := id;
  chip_special := is_special;
  chip_eoi := GicV3.eoi1;
  chip_two_step := GicV3.eoi_mode;
  chip_dir := GicV3.dir
|}.

(** What is written names the interrupt. *)
Lemma intid_back t : 0 ≤ t < 2 ^ 24 → read ICC_INTID (fv_value (val ICC_INTID t)) = t.
Proof. intros Ht. by fields. Qed.

#[export] Instance gic3_chip_laws {D} `{IccLaws D} : IrqChipLaws D IntId V3Error.
Proof.
  refine {|
    chip_running := icc_running;
    chip_active := icc_active;
    chip_mode := λ d, is_set ICC_CTLR_EOIMODE (peek Icc ICC_CTLR_EL1 0 d)
  |}.
  - intros d. destruct (icc_ack_law d) as (Ec & Er & Ea). eexists _, _. split; [reflexivity|]. cbv beta. by rewrite Ec.
  - intros d t r a Er Ea. assert (0 ≤ t < 2 ^ 24) as Hv by (apply (icc_valid d); left; rewrite Er; left).
    destruct (icc_eoi_law d t _ r a (intid_back t Hv) Er Ea) as (Ec & Er' & Ea').
    eexists. split; [reflexivity|]. cbv beta. by rewrite Ec.
  - intros d. destruct (icc_ctlr_law d) as (Ec & Er & Ea). eexists. split; [reflexivity|]. cbv beta. by rewrite Ec.
  - intros d t a Hm Ea. assert (0 ≤ t < 2 ^ 24) as Hv by (apply (icc_valid d); right; rewrite Ea; left).
    destruct (icc_dir_law d t _ a (intid_back t Hv) Hm Ea) as (Ec & Er' & Ea').
    eexists. split; [reflexivity|]. cbv beta. by rewrite Ec.
Defined.

(** The drivers' functions are the general one. *)
Lemma gic2_handle_irq_eq {H D} `{RegFile D} (handle : Z → KM H D unit) : gic2_handle_irq handle = take_interrupt (T := V2.Ack) handle.
Proof. reflexivity. Qed.
Lemma gic3_handle_irq_eq {H D} `{RegFile D} (handle : Z → KM H D unit) : gic3_handle_irq handle = take_interrupt (T := IntId) handle.
Proof. reflexivity. Qed.

(** ** From the controller to the handler and back *)

Section EndToEnd.
Context {H D T E : Type} `{IrqChipLaws D T E} (IRQ_VEC cpu : nat) (others : nat → Sys → Sys) (behave : H → KM H D unit).
Notation hirq := (handle_irq IRQ_VEC cpu others behave).

(** Nobody else has the table, and the handlers return and leave the
    controller as they find it. *)
Record handlers_ok (k : Kernel H D) : Prop := {
  ho_free : lock_free IRQ_VEC others k;
  ho_returns irq h d : irq_vec k !! irq = Some h →
    ∃ k', returns cpu behave h (entered IRQ_VEC cpu others (with_device d k)) k' ∧ chip_same d (k_dev k')
}.

Lemma take_interrupt_handled k : handlers_ok k →
  ∃ d t k1 k', chip_ack (k_dev k) = (d, Ok t) ∧
    match irq_vec k !! chip_id t with
    | Some h => returns cpu behave h (entered IRQ_VEC cpu others (with_device d k)) k1
    | None => k1 = entered IRQ_VEC cpu others (with_device d k)
    end ∧
    take_interrupt hirq k = (k', Ok (chip_id t)) ∧ chip_ended t (k_dev k1) (k_dev k') ∧ chip_same (k_dev k) (k_dev k') ∧
    irq_vec k' = irq_vec k1 ∧ locked (k_sys k') = locked (k_sys k1) ∖ {[IRQ_VEC]}.
Proof.
  intros [Hf Hr].
  assert (∀ n d, ∃ k1, match irq_vec k !! n with
    | Some h => returns cpu behave h (entered IRQ_VEC cpu others (with_device d k)) k1
    | None => k1 = entered IRQ_VEC cpu others (with_device d k)
    end ∧ chip_same d (k_dev k1)) as Hm.
  { intros n d. destruct (irq_vec k !! n) as [h|] eqn:En; [by apply (Hr n)|]. eexists. split; [done|]. by unfold chip_same. }
  assert (∀ n d k1, match irq_vec k !! n with
    | Some h => returns cpu behave h (entered IRQ_VEC cpu others (with_device d k)) k1
    | None => k1 = entered IRQ_VEC cpu others (with_device d k)
    end → hirq n (with_device d k) = (leave IRQ_VEC cpu (Spinlock.irq (others 99%nat (k_sys k)) cpu) k1, Ok tt)) as Hrun.
  { intros n d k1 Hk1. by apply (table_irq_run IRQ_VEC cpu others behave n (with_device d k)). }
  destruct (take_interrupt_run hirq k) as (d & t & k1 & k' & Ea & Eh & Ec & Et & Hs & _ & Ev & El).
  { intros n d. destruct (Hm n d) as (k1 & Hk1 & Hs). eexists. split; [by apply Hrun|done]. }
  destruct (Hm (chip_id t) d) as (k2 & Hk2 & Hs2). rewrite (Hrun _ _ _ Hk2) in Eh. injection Eh as <-.
  assert (k_dev (leave IRQ_VEC cpu (Spinlock.irq (others 99%nat (k_sys k)) cpu) k2) = k_dev k2) as Ed by by destruct (Spinlock.irq _ cpu).
  apply chip_complete_ended in Ec. rewrite Ed in Ec.
  exists d, t, k2, k'. rewrite Ev, El. split_and!; [done..|].
  by destruct (Spinlock.irq (others 99%nat (k_sys k)) cpu).
Qed.
End EndToEnd.

(** C24: An interrupt that a GICv2 signals is acknowledged, handled once by the
    handler registered for it, with the table locked and the interrupts of the
    processor off, and then completed: end of interrupt is written once, with
    what was acknowledged, and a deactivation as well exactly if the two are
    separate, so that the same interrupts run and are active afterwards. A
    number nothing is registered for is completed without a handler. For a
    special number, such as that of a spurious interrupt, nothing is written at
    all: the controller is left as the handler leaves it. The table's lock is
    free when the interrupt comes, and the handlers return and leave the
    controller as they find it ([handlers_ok]). *)
Theorem gic2_interrupt_completed {H D} `{GiccLaws D} IRQ_VEC cpu others (behave : H → KM H D unit) k :
  handlers_ok (T := V2.Ack) IRQ_VEC cpu others behave k →
  ∃ d a k1 k', V2.ack (E := Empty_set) (k_dev k) = (d, Ok a) ∧
    match irq_vec k !! irq_of_ack a with
    | Some h => returns cpu behave h (entered IRQ_VEC cpu others (with_device d k)) k1
    | None => k1 = entered IRQ_VEC cpu others (with_device d k)
    end ∧
    gic2_handle_irq (handle_irq IRQ_VEC cpu others behave) k = (k', Ok (irq_of_ack a)) ∧
    (if V2.ack_is_special a then k_dev k' = k_dev k1
     else ∃ d1 d2 two, V2.eoi (E := Empty_set) a (k_dev k1) = (d1, Ok tt) ∧
       V2.eoi_mode_ns (E := Empty_set) d1 = (d2, Ok two) ∧
       if two : bool then V2.dir (E := Empty_set) a d2 = (k_dev k', Ok tt) else k_dev k' = d2) ∧
    gicc_running (k_dev k') = gicc_running (k_dev k) ∧ gicc_active (k_dev k') = gicc_active (k_dev k) ∧
    irq_vec k' = irq_vec k1 ∧ locked (k_sys k') = locked (k_sys k1) ∖ {[IRQ_VEC]}.
Proof.
  intros Hok. destruct (take_interrupt_handled IRQ_VEC cpu others behave k Hok) as (d & a & k1 & k' & Ea & Hh & Et & Hend & (_ & Er & Eact) & Ev & El).
  exists d, a, k1, k'. rewrite gic2_handle_irq_eq. by split_and!.
Qed.

(** And so at a GICv3. *)
Theorem gic3_interrupt_completed {H D} `{IccLaws D} IRQ_VEC cpu others (behave : H → KM H D unit) k :
  handlers_ok (T := IntId) IRQ_VEC cpu others behave k →
  ∃ d intid k1 k', GicV3.ack1 (k_dev k) = (d, Ok intid) ∧
    match irq_vec k !! intid with
    | Some h => returns cpu behave h (entered IRQ_VEC cpu others (with_device d k)) k1
    | None => k1 = entered IRQ_VEC cpu others (with_device d k)
    end ∧
    gic3_handle_irq (handle_irq IRQ_VEC cpu others behave) k = (k', Ok intid) ∧
    chip_ended (T := IntId) intid (k_dev k1) (k_dev k') ∧
    icc_running (k_dev k') = icc_running (k_dev k) ∧ icc_active (k_dev k') = icc_active (k_dev k) ∧
    irq_vec k' = irq_vec k1 ∧ locked (k_sys k') = locked (k_sys k1) ∖ {[IRQ_VEC]}.
Proof.
  intros Hok. destruct (take_interrupt_handled IRQ_VEC cpu others behave k Hok) as (d & a & k1 & k' & Ea & Hh & Et & Hend & (_ & Er & Eact) & Ev & El).
  exists d, a, k1, k'. rewrite gic3_handle_irq_eq. by split_and!.
Qed.

(** ** Numbers *)

(** The interrupts of LoongArch: a processor's own and those of the cascaded
    controllers do not meet, and every number is one of them. *)
Theorem irq_kind_roundtrip :
  (∀ hwirq irq : Z, private_irq (E := Empty_set) hwirq = Ok irq → irq_kind irq = Private hwirq) ∧
  (∀ hwirq irq : Z, 0 ≤ hwirq → extern_irq (E := Empty_set) hwirq = Ok irq → irq_kind irq = External hwirq) ∧
  (∀ irq, irq < 2 ^ 64 → match irq_kind irq with Private h => private_irq (E := Empty_set) h = Ok irq | External h => extern_irq (E := Empty_set) h = Ok irq end).
Proof.
  unfold private_irq, extern_irq, irq_kind, uadd, EXCCODE_INT_NUM. split_and!; [intros hwirq irq|intros hwirq irq|intros irq Hi].
  - destruct (Z.ltb_spec hwirq 15); [|done]. intros [= <-]. by rewrite (proj2 (Z.ltb_lt _ _)).
  - intros Hh. destruct (Z.ltb_spec (hwirq + 15) (2 ^ 64)); [|done]. intros [= <-]. rewrite (proj2 (Z.ltb_ge _ _)) by lia. f_equal. lia.
  - destruct (Z.ltb_spec irq 15); [by rewrite (proj2 (Z.ltb_lt _ _))|]. rewrite (proj2 (Z.ltb_lt _ _)) by lia. f_equal. lia.
Qed.

(** Enabling and disabling reads back, and touches no other interrupt; those of
    the cascaded controllers read as disabled. *)
Theorem la_irq_enable_reads_back irq irq' enable lie : 0 ≤ irq → 0 ≤ irq' →
  la_irq_is_enabled irq' (la_irq_set_enable irq enable lie) =
    if (irq' =? irq) && (irq <? EXCCODE_INT_NUM) then enable else la_irq_is_enabled irq' lie.
Proof.
  intros Hi Hi'. unfold la_irq_is_enabled, la_irq_set_enable, irq_kind, EXCCODE_INT_NUM.
  destruct (Z.ltb_spec irq 15), (Z.ltb_spec irq' 15); rewrite ?andb_true_r, ?andb_false_r; try done.
  - rewrite !has_bit by done. destruct (Z.eqb_spec irq' irq) as [->|Hne].
    + destruct enable; rewrite ?Z.lor_spec, ?Z.ldiff_spec, Z.shiftl_1_l, Z.pow2_bits_true by done; [apply orb_true_r|apply andb_false_r].
    + destruct enable; rewrite ?Z.lor_spec, ?Z.ldiff_spec, Z.shiftl_1_l, Z.pow2_bits_false by lia; [apply orb_false_r|apply andb_true_r].
  - by rewrite (proj2 (Z.eqb_neq irq' irq)) by lia.
Qed.

(** ** Concrete runs
    A processor with a GICv2 on which a software interrupt and the timer's are
    pending, and handlers that leave a mark in a log. *)

(** The words that will be read from the acknowledge register, those of the
    interrupts that run and are active, and what the handlers left. *)
Record Gicc2 : Type := mk_Gicc2 { g_pending : list Z; g_running : list Z; g_active : list Z; g_ctlr : Z; g_log : list Z }.

Definition g_ack (d : Gicc2) : Gicc2 :=
  match g_pending d with
  | [] => d
  | v :: l =>
      if V2.ack_is_special (V2.ack_of_u32 v) then mk_Gicc2 l (g_running d) (g_active d) (g_ctlr d) (g_log d)
      else mk_Gicc2 l (v :: g_running d) (v :: g_active d) (g_ctlr d) (g_log d)
  end.
Definition g_two_step (d : Gicc2) : bool := is_set V2.CTLR_EOImodeNS (g_ctlr d).
Definition g_eoi (v : Z) (d : Gicc2) : Gicc2 :=
  mk_Gicc2 (g_pending d) (tail (g_running d)) (if g_two_step d then g_active d else tail (g_active d)) (g_ctlr d) (g_log d).
Definition g_dir (v : Z) (d : Gicc2) : Gicc2 := mk_Gicc2 (g_pending d) (g_running d) (tail (g_active d)) (g_ctlr d) (g_log d).

#[export] Instance gicc2_regs : RegFile Gicc2 := {|
  peek := λ b r i d, match b, r with Gicc, IAR => default 1023 (head (g_pending d)) | Gicc, CTLR => g_ctlr d | _, _ => 0 end;
  touch := λ b r i d, match b, r with Gicc, IAR => g_ack d | _, _ => d end;
  poke := λ b r i v d, match b, r with Gicc, EOIR => g_eoi v d | Gicc, DIR => g_dir v d | _, _ => d end
|}.

#[export] Instance gicc2_laws : GiccLaws Gicc2.
Proof.
  refine {| gicc_running := λ d, V2.ack_of_u32 <$> g_running d; gicc_active := λ d, V2.ack_of_u32 <$> g_active d |}.
  - intros [[|v l] run act c g]; [by split_and!|]. cbn -[V2.ack_of_u32 V2.ack_is_special]. unfold g_ack. cbn -[V2.ack_of_u32 V2.ack_is_special].
    destruct (V2.ack_is_special (V2.ack_of_u32 v)); by split_and!.
  - intros [p run act c g] t v r a Ev Er Ea. cbn in Er, Ea |- *. unfold g_two_step. cbn.
    destruct run; [done|]. destruct act; [done|]. cbn in Er, Ea. injection Er as <- <-. injection Ea as Ea1 Ea2.
    split_and!; [done..|]. cbn. destruct (is_set _ c); cbn; congruence.
  - intros d. by split_and!.
  - intros [p run act c g] t v a Ev Em Ea. cbn in Ea |- *. destruct act; [done|]. cbn in Ea. injection Ea as _ <-. by split_and!.
  - intros d t [Ht|Ht]; apply list_elem_of_fmap in Ht as (v & -> & _); apply ack_of_u32_valid.
Defined.

(** Handlers are numbers; one puts its number into the log. *)
Definition log_handler (h : Z) : KM Z Gicc2 unit :=
  with_dev (E := Empty_set) (modify (λ d, mk_Gicc2 (g_pending d) (g_running d) (g_active d) (g_ctlr d) (h :: g_log d))).
Definition alone (n : nat) (s : Sys) : Sys := s.
Definition no_switch (irq : Z) (b : bool) : KM Z Gicc2 unit := mret tt.

(** Interrupt 3 sent by processor 2, the timer's interrupt 30 and a spurious one. *)
Definition gic_start (ctlr : Z) : Gicc2 := mk_Gicc2 [0x803; 30; 1023] [40] [40] ctlr [].
Definition kernel0 (ctlr : Z) : Kernel Z Gicc2 := mk_Kernel (start (λ _, true)) {[30 := 100; 3 := 200]} (gic_start ctlr).
Definition hirq : Z → KM Z Gicc2 unit := handle_irq 7 0 alone log_handler.

Lemma log_handlers_ok k : locked (k_sys k) = ∅ → handlers_ok (T := V2.Ack) 7 0 alone log_handler k.
Proof.
  intros El. split.
  - unfold lock_free, alone. rewrite El. set_solver.
  - intros irq h d _. eexists. split; [split; reflexivity|]. by split_and!.
Qed.

Definition after (n : nat) (ctlr : Z) : Kernel Z Gicc2 := Nat.iter n (λ k, (gic2_handle_irq hirq k).1) (kernel0 ctlr).

Example gic2_log : (λ c, g_log (k_dev (after 3 c))) <$> [0; 512] = [[100; 200]; [100; 200]].
Proof. vm_compute. reflexivity. Qed.

Lemma gic2_interrupt_completed_witness :
  ∃ k', gic2_handle_irq hirq (kernel0 512) = (k', Ok 3) ∧ g_log (k_dev k') = [200] ∧ gicc_active (k_dev k') = [V2.AckOther 40].
Proof.
  destruct (gic2_interrupt_completed 7 0 alone log_handler (kernel0 512)) as (d & a & k1 & k' & Ea & Hh & Et & _ & _ & Eact & _).
  { apply log_handlers_ok. reflexivity. }
  injection Ea as <- <-. exists k'. split; [exact Et|]. split; [|exact Eact].
  change (gic2_handle_irq hirq (kernel0 512) = (k', Ok (irq_of_ack (V2.ack_of_u32 0x803)))) in Et.
  replace k' with (gic2_handle_irq hirq (kernel0 512)).1 by (by rewrite Et). vm_compute. reflexivity.
Defined.

Lemma do_vint_handles_pending_witness :
  pending_irqs 0x1804 = [2; 11; 12] ∧
  do_vint 7 0 alone log_handler 0x1804 (kernel0 0) = handle_all 7 0 alone log_handler (pending_irqs 0x1804) (kernel0 0).
Proof.
  split; [vm_compute; reflexivity|]. apply (do_vint_handles_pending 7 0 alone log_handler 0x1804 (kernel0 0)). lia.
Defined.

Lemma irq_runs_handler_witness :
  ∃ k2, hirq 30 (kernel0 0) = (k2, Ok tt) ∧ g_log (k_dev k2) = [100] ∧ Spinlock.irq (k_sys k2) 0 = true.
Proof.
  destruct (irq_runs_handler 7 0 alone log_handler 30 100 (kernel0 0)
    (with_device (mk_Gicc2 [0x803; 30; 1023] [40] [40] 0 [100]) (entered 7 0 alone (kernel0 0)))) as (_ & _ & k2 & E & Ed & _ & _ & _ & Ei).
  - unfold lock_free. set_solver.
  - reflexivity.
  - split; reflexivity.
  - exists k2. split; [exact E|]. split; [by rewrite Ed|]. rewrite Ei. reflexivity.
Defined.

Lemma registering_handler_panics_witness :
  let behave (h : Z) : KM Z Gicc2 unit := register_handler 7 0 alone no_switch 5 6 in
  (handle_irq 7 0 alone behave 30 (kernel0 0)).2 = Stuck.
Proof.
  apply (registering_handler_panics 7 0 alone _ no_switch 30 100 5 6); [unfold lock_free; set_solver|reflexivity|done|done].
Defined.

Lemma irq_table_held_witness :
  (handle_irq 7 1 alone log_handler 30 (entered 7 0 alone (kernel0 0))).2 = Stuck.
Proof.
  refine (proj1 (irq_table_held 7 1 alone log_handler no_switch 30 100 (entered 7 0 alone (kernel0 0)) _ _)); [|done].
  apply entered_guards. unfold lock_free. set_solver.
Defined.

Lemma la_irq_enable_reads_back_witness : la_irq_is_enabled 11 (la_irq_set_enable 11 true 0x1000) = true.
Proof. apply (la_irq_enable_reads_back 11 11 true 0x1000); lia. Defined.
