(* ===== verification/Efi.v ===== *)
(** * The EFI stub and the relocation of the image
    crates/someboot/src/efi_stub (memmap.rs and mod.rs): the firmware's memory
    map becomes the kernel's, the runtime regions get their virtual addresses,
    and the ACPI tables are found; and crates/someboot/src/elf.rs: the relocation
    of the image, once to where it runs and once to where it is linked. The
    firmware's calls are not modelled; its tables are arguments. *)

From stdpp Require Import base tactics option list numbers sets.
From S2P Require Import Prelude RangesExt RangesProof Memory MemoryProof TrapEntry.
Open Scope Z_scope.

(** ** memmap.rs *)

Inductive EfiType : Type :=
| CONVENTIONAL | BOOT_SERVICES_CODE | BOOT_SERVICES_DATA | LOADER_CODE | LOADER_DATA
| RUNTIME_SERVICES_CODE | RUNTIME_SERVICES_DATA | EFI_MMIO | MMIO_PORT_SPACE
| EfiOther (n : Z).
Record EfiDesc : Type := mk_EfiDesc { efi_ty : EfiType; phys_start : Z; virt_start : Z; page_count : Z }.

Definition efi_kind (t : EfiType) : MemoryType :=
  match t with
  | CONVENTIONAL | BOOT_SERVICES_CODE | BOOT_SERVICES_DATA | LOADER_CODE | LOADER_DATA => Free
  | EFI_MMIO | MMIO_PORT_SPACE => Mmio
  | _ => Reserved
  end.

Section Memmap.
Context `{NA : NumAlign} (page_size PAGE_SIZE : Z).

Definition efi_descriptor (memory : EfiDesc) : outcome MapErr MemoryDescriptor :=
  size ← umul 64 (page_count memory) page_size;
  match efi_kind (efi_ty memory) with
  | Free => Ok (mk_MemoryDescriptor (phys_start memory) size Free)
  | k => new_aligned (phys_start memory) size k PAGE_SIZE
  end.

Definition setup_memory_map (mems : list EfiDesc) : BM unit :=
  for_each (λ memory, desc ← lift (efi_descriptor memory); unwrap_result (add_memory_descriptor desc)) mems.
End Memmap.

(** ** mod.rs *)

(** What [exit_boot_services] collects for [set_virtual_address_map], in a
    vector of 32 elements. *)
Fixpoint virtual_map (va io : Z → outcome Empty_set Z) (entries new_map : list EfiDesc) : outcome Empty_set (list EfiDesc) :=
  match entries with
  | [] => Ok new_map
  | entry :: entries =>
      let push start :=
        virt ← start;
        if (length new_map <? 32)%nat
        then virtual_map va io entries (new_map ++ [mk_EfiDesc (efi_ty entry) (phys_start entry) virt (page_count entry)])
        else Stuck in
      match efi_ty entry with
      | RUNTIME_SERVICES_CODE | RUNTIME_SERVICES_DATA => push (va (phys_start entry))
      | EFI_MMIO => push (io (phys_start entry))
      | _ => virtual_map va io entries new_map
      end
  end.

(** [find_acpi_rsdp]: the version and the address. *)
Inductive Guid : Type := ACPI2_GUID | ACPI_GUID | OtherGuid (n : Z).
Fixpoint find_acpi_loop (config_table : list (Guid * Z)) (version addr : Z) : Z * Z :=
  match config_table with
  | [] => (version, addr)
  | (ACPI2_GUID, address) :: _ => (2, address)
  | (ACPI_GUID, address) :: config_table =>
      if version =? 0 then find_acpi_loop config_table 1 address else find_acpi_loop config_table version addr
  | _ :: config_table => find_acpi_loop config_table version addr
  end.
Definition find_acpi_rsdp (config_table : list (Guid * Z)) : option Z :=
  let '(_, addr) := find_acpi_loop config_table 0 0 in if addr =? 0 then None else Some addr.

(** ** elf.rs
    A memory of double words; the table of relocations is read while it is
    worked through. *)
Record Rela : Type := mk_Rela { r_offset : Z; r_info : Z; r_addend : Z }.
Definition r_type_raw (r : Rela) : Z := Z.land (r_info r) 0xFFFFFFFF.
Definition RELA_SIZE : Z := 24.

(** [i64], and [as usize] of an [i128]. *)
Definition to_i64 (x : Z) : Z := if x <? 2 ^ 63 then x else x - 2 ^ 64.
Definition as_usize (x : Z) : Z := x mod 2 ^ 64.

Definition rela_at (m : Z → Z) (start : Z) (i : Z) : Rela :=
  mk_Rela (m (addr start (24 * i))) (m (addr start (24 * i + 8))) (to_i64 (m (addr start (24 * i + 16)))).

Definition reloc_step (load_offset r_type : Z) (r : Rela) (m : Z → Z) : Z → Z :=
  if r_type_raw r =? r_type then fupd (as_usize (r_offset r + load_offset)) (as_usize (r_addend r + load_offset)) m else m.
(** [reset] writes where the image is linked. *)
Definition reset_step (r_type : Z) (r : Rela) (m : Z → Z) : Z → Z :=
  if r_type_raw r =? r_type then fupd (r_offset r) (as_usize (r_addend r)) m else m.

Fixpoint rela_loop (step : Rela → (Z → Z) → Z → Z) (start : Z) (n i : nat) (m : Z → Z) : Z → Z :=
  match n with
  | O => m
  | S n => rela_loop step start n (S i) (step (rela_at m start (Z.of_nat i)) m)
  end.
Definition num_entries (start end_ : Z) : outcome Empty_set Z := d ← usub end_ start; Ok (d / RELA_SIZE).
Definition apply_reloc (load_offset start end_ r_type : Z) (m : Z → Z) : outcome Empty_set (Z → Z) :=
  n ← num_entries start end_; Ok (rela_loop (reloc_step load_offset r_type) start (Z.to_nat n) 0 m).
Definition elf_reset (start end_ r_type : Z) (m : Z → Z) : outcome Empty_set (Z → Z) :=
  n ← num_entries start end_; Ok (rela_loop (reset_step r_type) start (Z.to_nat n) 0 m).

(** ** Relocating: proofs *)

Definition relas (m : Z → Z) (start : Z) (i n : nat) : list Rela := (λ j, rela_at m start (Z.of_nat j)) <$> seq i n.

Section Loop.
Context (t : Z) (slot val : Rela → Z).
Definition write_step (r : Rela) (m : Z → Z) : Z → Z := if r_type_raw r =? t then fupd (slot r) (val r) m else m.
Definition relative (r : Rela) : Prop := r_type_raw r = t.
#[local] Instance relative_dec r : Decision (relative r) := decide (r_type_raw r = t).

Definition slots (rs : list Rela) : list Z := slot <$> filter relative rs.
(** No relocation is applied to the table itself. *)
Definition table_kept (start : Z) (i n : nat) (rs : list Rela) : Prop :=
  ∀ a, a ∈ slots rs → ∀ j w, (i ≤ j < i + n)%nat → w = 0 ∨ w = 8 ∨ w = 16 → a ≠ addr start (24 * Z.of_nat j + w).

Lemma write_step_out r m a : a ∉ slots [r] → write_step r m a = m a.
Proof.
  unfold slots, write_step. rewrite filter_cons. case_decide as Hr; unfold relative in Hr.
  - rewrite (proj2 (Z.eqb_eq _ _) Hr). intros Ha. apply fupd_other. intros <-. apply Ha. by left.
  - by rewrite (proj2 (Z.eqb_neq _ _) Hr).
Qed.

Lemma rela_at_ext m m' start j : (∀ w, w = 0 ∨ w = 8 ∨ w = 16 → m' (addr start (24 * j + w)) = m (addr start (24 * j + w))) →
  rela_at m' start j = rela_at m start j.
Proof.
  intros Hm. pose proof (Hm 0 ltac:(auto)) as H0. rewrite Z.add_0_r in H0. unfold rela_at. by rewrite H0, (Hm 8), (Hm 16) by auto.
Qed.

Lemma slots_cons r rs a : a ∈ slots (r :: rs) ↔ a ∈ slots [r] ∨ a ∈ slots rs.
Proof. unfold slots. rewrite !filter_cons. destruct (decide (relative r)); simpl; set_solver. Qed.

Lemma rela_loop_run start n : ∀ i m, table_kept start i n (relas m start i n) →
  rela_loop write_step start n i m = foldl (λ m r, write_step r m) m (relas m start i n).
Proof.
  induction n as [|n IH]; intros i m Hk; [done|]. cbn [rela_loop relas seq fmap list_fmap foldl].
  set (r := rela_at m start (Z.of_nat i)) in *.
  assert (relas (write_step r m) start (S i) n = relas m start (S i) n) as Er.
  { unfold relas. apply list_fmap_ext. intros i0 j Hij. apply lookup_seq in Hij as [Hj Hlt]. apply rela_at_ext. intros w Hw.
    apply write_step_out. intros Ha. apply (Hk (addr start (24 * Z.of_nat j + w))) with j w; [|lia|done|done].
    apply slots_cons. by left. }
  rewrite <- Er at 1. apply IH. rewrite Er. intros a Ha j w Hj. apply Hk; [|lia]. apply slots_cons. by right.
Qed.

(** The relocations are applied; nothing else changes. *)
Lemma writes_run rs : ∀ m, NoDup (slots rs) → let m' := foldl (λ m r, write_step r m) m rs in
  (∀ r, r ∈ rs → relative r → m' (slot r) = val r) ∧ ∀ a, a ∉ slots rs → m' a = m a.
Proof.
  induction rs as [|r rs IH]; intros m Hnd; [split; [by intros r ?%not_elem_of_nil|done]|]. cbn [foldl].
  assert (NoDup (slots rs) ∧ (relative r → slot r ∉ slots rs)) as [Hnd' Hr].
  { unfold slots in *. rewrite filter_cons in Hnd. destruct (decide (relative r)); [|done]. rewrite fmap_cons in Hnd. by apply NoDup_cons in Hnd as [? ?]. }
  destruct (IH (write_step r m) Hnd') as [Hin Hout]. split.
  - intros r' [->|Hr']%elem_of_cons Hrel; [|by apply Hin]. rewrite Hout by auto. unfold write_step.
    rewrite (proj2 (Z.eqb_eq _ _) Hrel). apply fupd_same.
  - intros a Ha. rewrite slots_cons in Ha. rewrite Hout by tauto. apply write_step_out. tauto.
Qed.
End Loop.

Lemma addr_canonical x y off : 0 ≤ x < 2 ^ 64 → 0 ≤ y < 2 ^ 64 → addr x off = addr y off → x = y.
Proof.
  intros Hx Hy E. assert (addr (addr x off) (-off) = addr (addr y off) (-off)) as E' by (by rewrite E).
  rewrite !addr_addr in E'. replace (off + - off) with 0 in E' by lia. by rewrite !addr_0 in E' by done.
Qed.

Section Image.
Context (t link off : Z) (n : nat) (m : Z → Z).

(** The image as it is seen once it is mapped where it is linked. *)
Definition linked (m : Z → Z) : Z → Z := λ a, m (addr a off).
Definition table : list Rela := relas (linked m) link 0 n.

(** The table fits, its relative relocations are for different words, and not
    for the table's own. *)
Record image_ok : Prop := {
  io_link : 0 ≤ link ∧ link + 24 * Z.of_nat n < 2 ^ 64;
  io_run : addr link off + 24 * Z.of_nat n < 2 ^ 64;
  io_nodup : NoDup (slots t r_offset table);
  io_range a : a ∈ slots t r_offset table → 0 ≤ a < 2 ^ 64;
  io_kept : table_kept t r_offset link 0 n table
}.

Notation place := (λ r, addr (r_offset r) off).

Lemma relas_linked m' i k : relas m' (addr link off) i k = relas (linked m') link i k.
Proof.
  unfold relas. apply list_fmap_ext. intros i0 j _. unfold rela_at, linked. rewrite !addr_addr.
  by rewrite !(Z.add_comm off).
Qed.

Lemma slots_place rs : slots t place rs = (λ a, addr a off) <$> slots t r_offset rs.
Proof. unfold slots. by rewrite <- list_fmap_compose. Qed.

Lemma num_entries_run s : 0 ≤ s → num_entries s (s + 24 * Z.of_nat n) = Ok (Z.of_nat n).
Proof.
  intros Hs. unfold num_entries, usub. rewrite (proj2 (Z.leb_le _ _)) by lia. cbn.
  f_equal. unfold RELA_SIZE. replace (s + 24 * Z.of_nat n - s) with (Z.of_nat n * 24) by lia. by rewrite Z.div_mul.
Qed.

Lemma kept_place : image_ok → table_kept t place (addr link off) 0 n table.
Proof.
  intros Hok a Ha j w Hj Hw E. rewrite slots_place in Ha. apply list_elem_of_fmap in Ha as (x & -> & Hx).
  apply (io_kept Hok x Hx j w Hj Hw). apply (addr_canonical _ _ off); [by apply (io_range Hok)|apply addr_range|].
  rewrite E, !addr_addr. f_equal. lia.
Qed.

(** C11: The image works where it runs and, later, where it is linked. Relocating
    it with the offset at which it runs gives every relative relocation its
    addend there, and changes nothing else; resetting it, when it is mapped where
    it is linked, gives each its linked addend, whatever the offset was, and
    leaves the rest of the image as it was loaded. *)
Theorem image_relocates : image_ok →
  ∃ m1 m2, apply_reloc off (addr link off) (addr link off + 24 * Z.of_nat n) t m = Ok m1 ∧
    elf_reset link (link + 24 * Z.of_nat n) t (linked m1) = Ok m2 ∧
    (∀ r, r ∈ table → relative t r → m1 (place r) = as_usize (r_addend r + off) ∧ m2 (r_offset r) = as_usize (r_addend r)) ∧
    (∀ a, a ∉ slots t place table → m1 a = m a) ∧
    (∀ a, 0 ≤ a < 2 ^ 64 → a ∉ slots t r_offset table → m2 a = linked m a).
Proof.
  intros Hok. destruct (io_link Hok) as [Hl0 Hl1]. unfold apply_reloc, elf_reset.
  rewrite (num_entries_run (addr link off)) by apply addr_range. rewrite (num_entries_run link) by done. cbn [mbind outcome_bind]. rewrite !Nat2Z.id.
  change (reloc_step off t) with (write_step t place (λ r, as_usize (r_addend r + off))).
  change (reset_step t) with (write_step t r_offset (λ r, as_usize (r_addend r))).
  rewrite rela_loop_run by (rewrite relas_linked; by apply kept_place). rewrite relas_linked. fold table.
  destruct (writes_run t place (λ r, as_usize (r_addend r + off)) table m) as [Hin1 Hout1].
  { rewrite slots_place. apply NoDup_fmap_2_strong; [|by apply io_nodup]. intros x y Hx Hy. apply addr_canonical; by apply (io_range Hok). }
  cbv zeta in *. revert Hin1 Hout1.
  generalize (foldl (λ (m0 : Z → Z) (r : Rela), write_step t place (λ r0, as_usize (r_addend r0 + off)) r m0) m table). intros m1 Hin1 Hout1.
  assert (relas (linked m1) link 0 n = table) as Et.
  { unfold table, relas. apply list_fmap_ext. intros i0 j Hij. apply lookup_seq in Hij as [Hj Hlt]. apply rela_at_ext. intros w Hw. unfold linked.
    apply Hout1. intros Ha. rewrite slots_place in Ha. apply list_elem_of_fmap in Ha as (x & Ex & Hx).
    apply (io_kept Hok x Hx j w); [lia|done|]. symmetry. apply (addr_canonical _ _ off); [apply addr_range|by apply (io_range Hok)|done]. }
  exists m1. rewrite (rela_loop_run _ _ _ link) by (rewrite Et; by apply io_kept). rewrite Et.
  destruct (writes_run t r_offset (λ r, as_usize (r_addend r)) table (linked m1) (io_nodup Hok)) as [Hin2 Hout2].
  eexists. split; [done|]. split; [done|]. split; [intros r Hr Hrel; split; [by apply Hin1|by apply Hin2]|]. split; [done|].
  intros a Ha Hs. rewrite Hout2 by done. unfold linked. apply Hout1. intros Hp. rewrite slots_place in Hp.
  apply list_elem_of_fmap in Hp as (x & Ex & Hx). apply Hs. replace a with x; [done|]. symmetry.
  apply (addr_canonical _ _ off); [done|by apply (io_range Hok)|done].
Qed.
End Image.

(** ** The firmware's memory map: proofs *)

Notation EFI_PAGE := 4096 (only parsing).

Definition efi_holds (a : Z) (d : EfiDesc) : Prop := phys_start d ≤ a < phys_start d + page_count d * EFI_PAGE.
#[export] Instance efi_holds_dec a d : Decision (efi_holds a d).
Proof. unfold efi_holds. apply _. Defined.
(** The kind the entries that hold an address give it. *)
Definition efi_kinds (l : list EfiDesc) (a : Z) : list MemoryType := (λ d, efi_kind (efi_ty d)) <$> filter (efi_holds a) l.

(** What the firmware promises: whole pages below [2^52], and no page twice. *)
Definition efi_desc_ok (d : EfiDesc) : Prop :=
  0 ≤ phys_start d ∧ (EFI_PAGE | phys_start d) ∧ 0 < page_count d ∧ phys_start d + page_count d * EFI_PAGE ≤ 2 ^ 52.
Fixpoint efi_disjoint (l : list EfiDesc) : Prop :=
  match l with
  | [] => True
  | d :: l => Forall (λ e, ∀ a, efi_holds a d → ¬ efi_holds a e) l ∧ efi_disjoint l
  end.

Section EfiMap.
Context `{NA : NumAlign} {NL : NumAlignLaws}.

Lemma aligned_up x : 0 ≤ x ≤ 2 ^ 52 → (EFI_PAGE | x) → align_up x EFI_PAGE = x.
Proof.
  intros Hx [q Hq]. destruct (align_up_spec x 12 ltac:(lia) ltac:(lia) ltac:(lia)) as [Hr [r Er]].
  change (2 ^ 12) with EFI_PAGE in *. rewrite Er in *. lia.
Qed.
Lemma aligned_down x : 0 ≤ x ≤ 2 ^ 52 → (EFI_PAGE | x) → align_down x EFI_PAGE = x.
Proof.
  intros Hx [q Hq]. destruct (align_down_spec x 12 ltac:(lia) ltac:(lia)) as (Hr & _ & [r Er]).
  change (2 ^ 12) with EFI_PAGE in *. rewrite Er in *. lia.
Qed.

Lemma efi_descriptor_run d : efi_desc_ok d →
  efi_descriptor EFI_PAGE EFI_PAGE d = Ok (mk_MemoryDescriptor (phys_start d) (page_count d * EFI_PAGE) (efi_kind (efi_ty d))).
Proof.
  intros (H0 & Ha & Hc & Hs). assert (EFI_PAGE | phys_start d + page_count d * EFI_PAGE) as Hb by (apply Z.divide_add_r; [done|apply Z.divide_factor_r]).
  unfold efi_descriptor. rewrite umul_ok by lia. cbn [mbind outcome_bind].
  assert (∀ k, new_aligned (E := MapErr) (phys_start d) (page_count d * EFI_PAGE) k EFI_PAGE = Ok (mk_MemoryDescriptor (phys_start d) (page_count d * EFI_PAGE) k)) as En.
  { intros k. unfold new_aligned. rewrite aligned_down by (done || lia). unfold uadd. rewrite (proj2 (Z.ltb_lt _ _)) by lia. cbn [mbind outcome_bind].
    rewrite aligned_up by (done || lia). unfold usub. rewrite (proj2 (Z.leb_le _ _)) by lia. cbn [mbind outcome_bind]. do 2 f_equal. lia. }
  by destruct (efi_kind (efi_ty d)).
Qed.

Lemma efi_kinds_app l l' a : efi_kinds (l ++ l') a = efi_kinds l a ++ efi_kinds l' a.
Proof. unfold efi_kinds. by rewrite filter_app, fmap_app. Qed.
Lemma efi_kinds_none l a : Forall (λ e, ¬ efi_holds a e) l → efi_kinds l a = [].
Proof. intros Hl. unfold efi_kinds. induction Hl as [|d l Hd _ IH]; [done|]. rewrite filter_cons, decide_False by done. exact IH. Qed.

Lemma efi_disjoint_app l d l' : efi_disjoint (l ++ d :: l') → Forall (λ e, ∀ a, efi_holds a e → ¬ efi_holds a d) l.
Proof.
  induction l as [|e l IH]; [constructor|]. intros [He Hl]. constructor; [|by apply IH].
  apply Forall_app in He as [_ He]. by apply Forall_cons in He as [? _].
Qed.

(** Ranges that are not empty stay so. *)
Definition desc_full (d : MemoryDescriptor) : Prop := desc_sane d ∧ 0 < size_in_bytes d.
#[local] Instance desc_full_laws : RangeOpLaws MemoryDescriptor MemoryType desc_full.
Proof.
  split.
  - intros [s n k] [(? & ? & ?) ?]. simpl in *. lia.
  - intros t lo hi ?. simpl. f_equal. lia.
  - done.
  - intros [s n k] [s' n' k'] lo hi [(? & ? & ?) ?] [(? & ? & ?) ?]. unfold desc_full, desc_sane. simpl in *. lia.
Qed.

(** What the map says after some of the entries. *)
Definition map_of (l : list EfiDesc) (b : BootMem) : Prop :=
  Forall desc_full (MEMORY_MAP b) ∧ no_overlap (MEMORY_MAP b) ∧ fits (Some MAP_CAPACITY) (MEMORY_MAP b) ∧
  ∀ a, kinds_at (MEMORY_MAP b) a = efi_kinds l a.

Lemma desc_holds a d k : holds a (mk_MemoryDescriptor (phys_start d) (page_count d * EFI_PAGE) k) = bool_decide (efi_holds a d).
Proof.
  unfold holds, rstart, rend, efi_holds. simpl. case_bool_decide as Hb.
  - apply andb_true_iff. rewrite Z.leb_le, Z.ltb_lt. lia.
  - apply andb_false_iff. rewrite Z.leb_gt, Z.ltb_ge. lia.
Qed.

Lemma add_entry l d b : efi_desc_ok d → map_of l b → Forall (λ e, ∀ a, efi_holds a e → ¬ efi_holds a d) l →
  match (desc ← lift (efi_descriptor EFI_PAGE EFI_PAGE d); unwrap_result (add_memory_descriptor desc)) b with
  | (b', Ok _) => map_of (l ++ [d]) b'
  | (_, Err _) => False
  | (_, Stuck) => (127 ≤ length (MEMORY_MAP b))%nat
  end.
Proof.
  intros Hd (Hf & Hno & Hft & Hk) Hdis. unfold mbind, M_bind, lift. rewrite efi_descriptor_run by done. destruct Hd as (H0 & Ha & Hc & Hs).
  set (desc := mk_MemoryDescriptor _ _ _). assert (desc_full desc) as Hfull by (unfold desc_full, desc_sane, desc; simpl; lia).
  assert (∀ a, efi_holds a d → efi_kinds l a = []) as Hnone.
  { intros a Had. apply efi_kinds_none. eapply Forall_impl; [exact Hdis|]. intros e He Hae. by apply (He a). }
  pose proof (merge_add_run desc_full (Some MAP_CAPACITY) desc _ Hfull Hf Hno Hft) as Hadd. unfold unwrap_result, add_memory_descriptor.
  destruct (merge_add _ desc _) as [m [u|[|i x]|]]; [| | |done].
  - destruct Hadd as (Hk' & Hf' & _ & Hft' & _). cbn [MEMORY_MAP set_map]. split; [done|]. split.
    { intros a. cbn [MEMORY_MAP set_map]. rewrite Hk'. destruct (holds a desc); [simpl; lia|apply Hno]. }
    split; [done|]. intros a. cbn [MEMORY_MAP set_map].
    rewrite Hk', efi_kinds_app, Hk. replace (holds a desc) with (bool_decide (efi_holds a d)) by (symmetry; apply desc_holds).
    unfold efi_kinds at 3. rewrite filter_cons. case_bool_decide as Hb.
    + rewrite decide_True by done. by rewrite Hnone.
    + rewrite decide_False by done. simpl. by rewrite app_nil_r.
  - destruct Hadd as (n & [= <-] & Hl). unfold MAP_CAPACITY in Hl. lia.
  - exfalso. destruct Hadd as (-> & Hx & Hc'). unfold conflicts in Hc'. apply andb_prop in Hc' as [Ho _].
    assert (0 < size_in_bytes x) as Hpos by (eapply Forall_forall in Hf; [|done]; apply Hf).
    unfold overlaps in Ho. apply andb_true_iff in Ho as [Ho1%Z.ltb_lt Ho2%Z.ltb_lt]. unfold rstart, rend, desc in Ho1, Ho2; simpl in Ho1, Ho2.
    set (a := Z.max (phys_start d) (physical_start x)).
    assert (efi_holds a d) as Had by (unfold efi_holds, a; lia).
    assert (holds a x = true) as Hax by (unfold holds, rstart, rend, a; simpl; apply andb_true_iff; rewrite Z.leb_le, Z.ltb_lt; lia).
    assert (memory_type x ∈ kinds_at (MEMORY_MAP b) a) as Hin.
    { unfold kinds_at. apply list_elem_of_fmap. exists x. split; [done|]. by apply list_elem_of_filter. }
    rewrite Hk, Hnone in Hin by done. by apply not_elem_of_nil in Hin.
Qed.

(** C18: The kernel's memory map after the firmware's has been read, with pages
    of 4 KiB and entries that do not overlap: every address has the kind of the
    entry that holds it, and an address in no entry has none. The call panics
    at one entry only: when the entries before it have been added, address by
    address as above, and fill at least 127 of the 128 ranges. No entry is in
    conflict with another one. (With pages of 16 KiB an entry can be:
    [efi_16k_conflict].) *)
Theorem efi_memory_map l : ∀ b before, map_of before b → Forall efi_desc_ok l → efi_disjoint (before ++ l) →
  match setup_memory_map EFI_PAGE EFI_PAGE l b with
  | (b', Ok _) => map_of (before ++ l) b'
  | (_, Err _) => False
  | (_, Stuck) => ∃ n b', (n < length l)%nat ∧ setup_memory_map EFI_PAGE EFI_PAGE (take n l) b = (b', Ok tt) ∧
      map_of (before ++ take n l) b' ∧ (127 ≤ length (MEMORY_MAP b'))%nat
  end.
Proof.
  induction l as [|d l IH]; intros b before Hb Hl Hdis; [by rewrite app_nil_r|]. apply Forall_cons in Hl as [Hd Hl].
  pose proof (add_entry before d b Hd Hb (efi_disjoint_app _ _ _ Hdis)) as Ha. unfold setup_memory_map in *. cbn [for_each].
  unfold mbind at 1, M_bind at 1. destruct ((desc ← lift (efi_descriptor EFI_PAGE EFI_PAGE d); unwrap_result (add_memory_descriptor desc)) b) as [b1 [[]|e|]] eqn:E1; [|done|].
  - rewrite (cons_middle d before l), app_assoc in Hdis. pose proof (IH b1 _ Ha Hl Hdis) as IHl. rewrite <- app_assoc in IHl. cbn [app] in IHl.
    match goal with |- context [for_each ?f l b1] => destruct (for_each f l b1) as [b2 [u|e|]] end; [done|done|].
    destruct IHl as (n & b' & Hn & Hrun & Hm & Hlen). exists (S n), b'. rewrite <- app_assoc in Hm.
    split; [simpl; lia|]. split; [|done]. cbn [take for_each]. unfold mbind at 1, M_bind at 1. by rewrite E1.
  - exists 0%nat, b. rewrite app_nil_r. split; [simpl; lia|done].
Qed.
End EfiMap.

(** ** The ACPI tables *)

#[export] Instance Guid_eq_dec : EqDecision Guid.
Proof. solve_decision. Defined.
Fixpoint first_of (g : Guid) (l : list (Guid * Z)) : option Z :=
  match l with
  | [] => None
  | (g', address) :: l => if decide (g' = g) then Some address else first_of g l
  end.

Lemma find_acpi_loop_run l : ∀ v a, v = 0 ∨ v = 1 →
  (find_acpi_loop l v a).2 = default (if v =? 0 then default a (first_of ACPI_GUID l) else a) (first_of ACPI2_GUID l).
Proof.
  induction l as [|[g x] l IH]; intros v a Hv; [by destruct Hv as [-> | ->]|]. destruct g; simpl.
  - done.
  - destruct Hv as [-> | ->]; simpl; by rewrite IH by auto.
  - by rewrite IH.
Qed.

(** The first entry for ACPI 2 is taken, and without one the first for ACPI 1;
    a null address counts as none. *)
Theorem rsdp_preferred l : find_acpi_rsdp l =
  let addr := default (default 0 (first_of ACPI_GUID l)) (first_of ACPI2_GUID l) in if addr =? 0 then None else Some addr.
Proof.
  unfold find_acpi_rsdp. pose proof (find_acpi_loop_run l 0 0 ltac:(by left)) as E. simpl in E.
  destruct (find_acpi_loop l 0 0) as [v a]. simpl in E. by rewrite E.
Qed.

(** ** The runtime's virtual addresses *)

Definition virtual_entry (va io : Z → Z) (d : EfiDesc) : option EfiDesc :=
  let at_ virt := Some (mk_EfiDesc (efi_ty d) (phys_start d) virt (page_count d)) in
  match efi_ty d with
  | RUNTIME_SERVICES_CODE | RUNTIME_SERVICES_DATA => at_ (va (phys_start d))
  | EFI_MMIO => at_ (io (phys_start d))
  | _ => None
  end.

(** Every runtime and device region gets its address, in order; more than 32 of
    them and the boot panics. *)
Theorem virtual_map_run va io fva fio l : (∀ p, va p = Ok (fva p)) → (∀ p, io p = Ok (fio p)) → ∀ acc,
  (length acc ≤ 32)%nat →
  virtual_map va io l acc = let all := acc ++ omap (virtual_entry fva fio) l in
    if (length all <=? 32)%nat then Ok all else Stuck.
Proof.
  intros Hva Hio. induction l as [|d l IH]; intros acc Ha; cbn [virtual_map].
  { simpl. rewrite app_nil_r. by rewrite (proj2 (Nat.leb_le _ _)). }
  assert (∀ v, (if (length acc <? 32)%nat then virtual_map va io l (acc ++ [v]) else Stuck) =
    let all := acc ++ v :: omap (virtual_entry fva fio) l in if (length all <=? 32)%nat then Ok all else Stuck) as Hpush.
  { intros v. destruct (Nat.ltb_spec (length acc) 32).
    - rewrite IH by (rewrite length_app; simpl; lia). by rewrite <- app_assoc.
    - cbv zeta. rewrite (proj2 (Nat.leb_gt _ _)); [done|]. rewrite length_app. simpl. lia. }
  assert (omap (virtual_entry fva fio) (d :: l) = match virtual_entry fva fio d with Some v => v :: omap (virtual_entry fva fio) l | None => omap (virtual_entry fva fio) l end) as -> by done.
  destruct (virtual_entry fva fio d) as [v|] eqn:Ev; unfold virtual_entry in Ev; destruct (efi_ty d); try discriminate Ev;
    rewrite ?Hva, ?Hio; cbn [mbind outcome_bind]; [injection Ev as <-; apply Hpush..|by apply IH|by apply IH|by apply IH|by apply IH|by apply IH|by apply IH|by apply IH].
Qed.

(** ** Concrete runs *)

Definition efi0 : list EfiDesc :=
  [mk_EfiDesc BOOT_SERVICES_CODE 0 0 1; mk_EfiDesc RUNTIME_SERVICES_DATA 0x1000 0 2; mk_EfiDesc CONVENTIONAL 0x3000 0 0x100;
   mk_EfiDesc EFI_MMIO 0xfe000000 0 1].
Definition boot_empty : BootMem := mk_BootMem 0 0 0 [] 0 0.

Lemma efi0_ok : Forall efi_desc_ok efi0 ∧ efi_disjoint efi0.
Proof.
  split.
  - repeat constructor; simpl; try lia; by apply (Z.mod_divide _ 4096).
  - repeat split; repeat constructor; unfold efi_holds; simpl; lia.
Qed.

Lemma efi_memory_map_witness : ∃ b, setup_memory_map (NA := DivAlign.div_align) 4096 4096 efi0 boot_empty = (b, Ok tt) ∧
  kinds_at (MEMORY_MAP b) 0x2fff = [Reserved] ∧ kinds_at (MEMORY_MAP b) 0x3000 = [Free] ∧ kinds_at (MEMORY_MAP b) 0x200000 = [].
Proof.
  assert (map_of [] boot_empty) as H0 by (split; [constructor|split; [intros a; simpl; lia|split; [simpl; lia|done]]]).
  pose proof (efi_memory_map (NA := DivAlign.div_align) (NL := DivAlign.div_align_laws) efi0 boot_empty [] H0 (proj1 efi0_ok) (proj2 efi0_ok)) as H.
  assert ((setup_memory_map (NA := DivAlign.div_align) 4096 4096 efi0 boot_empty).2 = Ok tt) as E by (vm_compute; reflexivity).
  destruct (setup_memory_map (NA := DivAlign.div_align) 4096 4096 efi0 boot_empty) as [b r]. simpl in E. subst r.
  destruct H as (_ & _ & _ & Hk). exists b. split; [done|]. split_and!; rewrite Hk; vm_compute; reflexivity.
Defined.

(** With pages of 16 KiB a reserved page grows into its neighbour, which then
    can not be added. *)
Theorem efi_16k_conflict : (setup_memory_map (NA := DivAlign.div_align) 4096 16384
  [mk_EfiDesc RUNTIME_SERVICES_DATA 0x1000 0 1; mk_EfiDesc CONVENTIONAL 0x2000 0 0x100] boot_empty).2 = Stuck.
Proof. vm_compute. reflexivity. Qed.

(** An image linked at 0x1000 with a table of two relocations, one of them
    relative, for the word at 0x2000. *)
Definition image0 : Z → Z :=
  fupd 0x101000 0x2000 (fupd 0x101008 8 (fupd 0x101010 0x2008 (fupd 0x101018 0x2010 (fupd 0x101020 1 (fupd 0x102010 77 (λ _, 0)))))).

Lemma image0_ok : image_ok 8 0x1000 0x100000 2 image0.
Proof.
  assert (slots 8 r_offset (table 0x1000 0x100000 2 image0) = [0x2000]) as Es by (vm_compute; reflexivity).
  split.
  - lia.
  - vm_compute. reflexivity.
  - rewrite Es. apply NoDup_singleton.
  - rewrite Es. intros a ->%list_elem_of_singleton. lia.
  - intros a. rewrite Es. intros ->%list_elem_of_singleton j w Hj Hw. unfold addr. rewrite Z.mod_small by lia. lia.
Qed.

Lemma image_relocates_witness : ∃ m1 m2, apply_reloc 0x100000 0x101000 0x101030 8 image0 = Ok m1 ∧ m1 0x102000 = 0x102008 ∧
  elf_reset 0x1000 0x1030 8 (linked 0x100000 m1) = Ok m2 ∧ m2 0x2000 = 0x2008 ∧ m2 0x2010 = 77.
Proof.
  destruct (image_relocates 8 0x1000 0x100000 2 image0 image0_ok) as (m1 & m2 & E1 & E2 & Hr & _ & Hk).
  assert (mk_Rela 0x2000 8 0x2008 ∈ table 0x1000 0x100000 2 image0) as Hin by (by left).
  destruct (Hr _ Hin eq_refl) as [H1 H2]. exists m1, m2. split; [exact E1|]. split; [exact H1|]. split; [exact E2|]. split; [exact H2|].
  rewrite Hk; [reflexivity|lia|]. assert (slots 8 r_offset (table 0x1000 0x100000 2 image0) = [0x2000]) as -> by (vm_compute; reflexivity).
  by intros [=]%list_elem_of_singleton.
Defined.

Lemma virtual_map_run_witness : virtual_map (λ p, Ok (p + 0x1000000)) (λ p, Ok (p + 0x2000000)) efi0 [] =
  Ok [mk_EfiDesc RUNTIME_SERVICES_DATA 0x1000 0x1001000 2; mk_EfiDesc EFI_MMIO 0xfe000000 0x100000000 1].
Proof.
  apply (virtual_map_run (λ p, Ok (p + 0x1000000)) (λ p, Ok (p + 0x2000000)) (λ p, p + 0x1000000) (λ p, p + 0x2000000) efi0); [done|done|simpl; lia].
Defined.
